(* ===== verification/_CoqProject ===== *)
-Q . S2P
Prelude.v
Gas.v
Market.v
Auction.v
Selector.v
Amount.v
Oracle.v
OrderPricing.v
Planner.v
Db.v
Prioritization.v
Requestors.v
Pricer.v
Committer.v
Evaluator.v
Locker.v
FulfillTx.v
Pipeline.v
Monitor.v
ChainMonitor.v
MarketService.v
EventQuery.v
Processor.v
Batcher.v
Submitter.v
Router.v
Assessor.v
Risc0.v
Supervisor.v
TaskDb.v
TaskDbFacts.v
TaskDbCalls.v
PlanShape.v
Workflow.v
WorkflowFacts.v
ExecutorPlan.v
AgentTurn.v
Slasher.v
SlasherFacts.v
Povw.v
PovwFacts.v
MintFacts.v
PreflightFacts.v
BuilderParams.v
OfferLayer.v
RequestorPricing.v
RequestBuilder.v
OfferFacts.v
BuilderFacts.v
RequestorFacts.v
