(* ===== verification/Prelude.v ===== *)
(** * Boundless: the broker and its prover, and what keeps the market honest

    Boundless is a market for zero-knowledge proofs.  A requestor signs a
    request with an offer, whose price rises over time; provers run a broker
    that prices the requests it sees, commits to the profitable ones, locks
    them on chain, has them proven, aggregates the proofs in batches and
    submits them.  This library models the Rust code of that path from the
    first sight of a request to the transaction that fulfills it: the monitors of
    the chain, the pricing, the lock, the proof, the batch and the market
    service; the backend that proves, the supervisor that keeps the services
    running, the planner that lays a proof out as a graph of tasks, and the
    executor and agents that put those tasks in a database and work them off.
    Before that path stands the requestor, whose builder makes the request and its
    offer.  Beside it the library models the slasher, which takes the collateral of the
    provers who did not deliver, and the proof of verifiable work, by which
    provers are rewarded.

    ** Parts of the program, and the files that model them

    - [Prelude] (this file): integers of a given width on [Z] with the
      wrap-around of a release build written out ([wadd], [wsub], [wmul]) and
      the saturating forms; the type [result], whose third constructor [Panic]
      is a thread that unwinds; the state monads [st] and [ste] in which a
      service runs over a world [W]; inversion lemmas for both; the rules for what a
      run leaves alone ([preserves]); a stable insertion sort for [sort_by_key]; tactics and hint databases.
    - [Market]: [crates/boundless-market/src/contracts/mod.rs].  Request
      identifiers and their packing in 256 bits, predicates and their wire
      form, fulfillment data, requirements, offers, [ProofRequest::validate],
      signatures.  The class [Externals] holds what comes from other crates:
      URL parsing, ABI coding, hashes, signature recovery.
    - [Auction]: [contracts/pricing.rs] and the methods of [Offer] in
      [contracts/boundless_market.rs].  [price_at] and its inverse
      [time_at_price].
    - [Selector]: [selector.rs] and the conversions of
      [price_oracle/asset.rs].
    - [Amount]: the text form of amounts in [price_oracle/asset.rs]: parsing,
      defaults, assets that are allowed, printing.  [U256Text] holds the
      decimal reader and printer of the integer type.
    - [Oracle]: [price_oracle]: the aggregation of sources, the caches, the
      conversions and refresh task of the manager, the assembly from the
      configuration, and the Chainlink sources.  [PriceFeeds] holds the
      transports.
    - [OrderPricing]: [prover_utils/mod.rs] with [request_evaluator.rs] and
      the parts of [config.rs] it reads.  [price_order] is split in the stages
      of the source ([price_prechecks], [price_gas], [price_preflight],
      [price_cycle_checks], [price_journal], [price_predicate],
      [price_after_lock], [price_lockable]), run in a monad that carries the
      mutable order, with early returns as exceptions; the trait
      [OrderPricingContext] is a class of the same name.
    - [Planner]: [prover/crates/taskdb/src/planner].  Tasks in an arena, the
      stacks of peaks, [enqueue_segment], [enqueue_keccak], [finish],
      [next_task].
    - [Db]: [crates/broker/src/db/sqlite.rs] with [order_types.rs] and
      [batcher/types.rs].  Tables are maps, a statement is a function on them,
      a transaction restores the tables on an error; [SqlEngine] holds the
      order in which rows are scanned.  [BrokerDb] and [BrokerDbLaws] are the
      interface that the locker is proved against, and
      [sqlite_broker_db_laws] shows that the SQLite tables implement it.
    - [Prioritization]: [crates/broker/src/shared/prioritization.rs].  Tiers of
      requestors and the sort modes; [Entropy] holds the random draws.
    - [Requestors]: [crates/requestor-lists] and
      [crates/broker/src/requestor_monitor].  Lists of requestors, their caches
      and the monitor that refreshes them.
    - [Pricer]: [crates/broker/src/order_pricer].  The broker's implementation
      of [OrderPricingContext], which discharges the interface [SkipsOnly] of
      [OrderPricing]; the pricing task; the run loop with its tasks, whose ends
      are events.  [recorded_env] extends any environment with a record of the
      channel to the committer, which the theorem about what is forwarded reads.
    - [Evaluator]: [crates/broker/src/order_evaluator].  The queue of new
      orders and the preflight slots.
    - [Committer]: [crates/broker/src/order_committer].  The queue of priced
      orders, the slots in flight, [commit_orders] and the run loop.
      [recorded_committer] extends any environment with a record of the readings of
      the clock and of the answers of the channels.
    - [Locker]: [crates/broker/src/order_locker].  Validation, gas limits, the
      lock and the storing of orders, and the run loop.
    - [FulfillTx]: the fulfillment transaction that the submitter builds and the
      market service sends, of [contracts/boundless_market.rs].
    - [Pipeline]: what the services after the lock share:
      [crates/boundless-backend/src/futures_retry.rs], [handle_order_failure]
      of [crates/broker/src/shared/errors.rs], and the world they run in
      (tables, clock, log).  Every call to the database goes through
      [db_call], which lets other tasks change the tables first and may fail
      with an SQL error.  [twp] and [pwp] are total and partial correctness
      rules for the monad.
    - [Processor]: [crates/broker/src/order_processor] and
      [utils/reaper.rs].
    - [Batcher]: [crates/broker/src/batcher].
    - [Submitter]: [crates/broker/src/submitter].  The log holds the transactions that
      were sent, with the answer of the market.  [PlanLaws] is what it needs of the
      plans of a backend.
    - [Gas]: [dynamic_gas_filler.rs] of [boundless-market] and
      [chain_monitor_v2/block_history.rs] of the broker: priority modes, fee
      estimates, the window of recent blocks.  Doubles are [spec_float]s with
      the rounding of binary64.
    - [Monitor]: [crates/broker/src/market_monitor] and
      [offchain_market_monitor].  The handlers of market events, the open orders
      at startup, polling.
    - [ChainMonitor]: [chain_monitor_v2/service.rs].  The walk over new blocks,
      the fetching of logs in ranges that the node accepts, the chain head.
      [follows] says what a run is: calls to the node, and blocks whose receipts, as
      the node answered them, are handled.
    - [MarketService] and [EventQuery]: the rest of
      [contracts/boundless_market.rs].  The first sends transactions and reads
      views; the second searches for events.  [MarketNode] is the node,
      [ServiceAbi] the encodings, [NodeClock] a clock that advances.  The world
      keeps a log of the transactions, which the theorems speak about.
    - [Router]: [contracts/router_registry.rs], [router_policy.rs] and
      [router.rs] of [boundless-backend].  A [Backend] is a record of its
      operations; [register_backend] and the dispatch are functions on a table.
    - [Assessor]: [crates/assessor] and its guest.  [DigestLaws] are the lengths of
      the hashes and the injectivity of one encoding.
    - [Risc0]: [crates/risc0-backend].  [risc0_backend] is the record that the
      router holds; [Risc0Lib] and [Risc0Env] are the zkVM library and the
      provers.  [risc0_plan_laws] shows that its plans have [PlanLaws].
    - [Supervisor]: [crates/broker/src/shared/task.rs] and
      [service_runner.rs].  The ends of the tasks are a list; the delays are
      durations in nanoseconds that grow by a multiplication in binary64.
    - [TaskDb], [TaskDbFacts] and [TaskDbCalls]: [prover/crates/taskdb/src]
      without its planner: the functions that Redis runs and their client; the
      invariant of the database; sequences of calls.  The keys of the namespace
      are the fields of [Redis].
    - [PlanShape], [Workflow], [WorkflowFacts], [ExecutorPlan] and [AgentTurn]:
      [prover/crates/workflow], its [lib.rs] and the executor of
      [tasks/executor.rs].  [PlanShape] says how the nodes of [Planner] become
      rows of [TaskDb]; [Workflow] holds the handlers: the executor's
      [process_task], which writes a job plan, the agent's [poll_work] and what
      it does when a task ends, the retries around a connection.
      The classes [Connected] and [Alone] are what the theorems need of the
      environment: calls that reach the database, and other clients that neither make nor
      delete the job or its tasks, or no other client at all.
    - [Slasher] and [SlasherFacts]: [crates/slasher].  Its table of locked orders,
      the scan of a range of blocks for locks and fulfillments, the turn that
      slashes expired orders, over [MarketService.slash].  A log of the orders
      that were added and removed is kept beside the table; [history] relates it to
      the rows that were stored and the answers that were read.  [SlasherNode] is
      the node; [ScanLaws] says what a search for events returns.
    - [Povw], [PovwFacts], [MintFacts] and [PreflightFacts]: [crates/povw].  The
      guests that certify an update of a work log and a mint of rewards, the
      journals they write, and the host that prepares their inputs.
      [PovwExternals] is the verification of receipts and signatures, [Steel]
      the chain as the guest sees it, [SteelHost] as the host does.
    - [BuilderParams], [OfferLayer], [RequestorPricing] and [RequestBuilder], with
      their theorems in [OfferFacts], [RequestorFacts] and [BuilderFacts]:
      [boundless-market/src/request_builder], [input.rs], [storage/traits.rs], the
      choice between the sources of market prices in [price_provider.rs], and
      [prover_utils/requestor_pricing.rs].  The parameters of a request and their
      setters, the encodings of a guest's input, the layers one by one and
      [StandardRequestBuilder], which is [build_request].  A run has the state of
      [MarketService], which generates identifiers, over the world of the oracle's
      caches.  Stores and the zkVM are records of operations, as they are traits;
      [RmpSerde] is the MessagePack library and [Urls] the parsing of addresses, with
      what the builder relies on in [RmpLaws] and [UrlLaws].  [requestor_context]
      is a second implementation of [OrderPricingContext], to which the theorems of
      [OrderPricing] apply.

    The monitors see a request and send it on.  A new order waits in the
    evaluator, goes from there to the pricer of its chain, and, priced, to the committer's queue; it goes from [commit_orders]
    over a channel to the locker, and from there with
    [insert_accepted_request] to the database.  The processor claims it there
    and drives its proof, the batcher puts finished orders in batches and closes
    them, the submitter sends closed batches to the market, the reaper fails
    what has expired.  These services meet only in the tables.  Completions flow
    back to the committer and free slots.

    ** What the theorems show

    - Data: identifiers and predicates survive their encodings, exactly the
      well-formed encodings decode, [validate] accepts exactly the requests
      that satisfy its conditions, and a predicate yields a claim digest
      exactly when the claim satisfies it.
    - Prices: the curve of an offer is the specification's, monotone and within
      its bounds until the lock expires and zero after; [time_at_price] is the
      earliest time at which a price is reached.
    - Pricing decisions: an order is only accepted after every check, at a
      target time and price that pay for cycles and gas; the two cycle limits
      respect each cap and are ordered; pricing never panics when its context
      does not and the cycle count is positive.
    - Planner: its internal panics are unreachable, the final task covers every
      segment and keccak leaf exactly once, tasks are handed out after their
      dependencies, the peaks spell the number of segments in binary, and the
      height of the join tree is logarithmic.
    - Database: inserts, claims and batch updates have their exact effect or
      none, an order is handed out for proving at most once, and a backend has
      at most one open batch.
    - Committer and locker: no order is lost or duplicated (the exceptions in
      which the source drops an order are part of the statement, by what the round
      itself read), an order counts as sent exactly when the channel of its chain
      took it, concurrency stays within its limit, kept orders meet their deadlines in sequence, the
      orders that are locked are paid for, a lock is made only after its
      checks, and the rows written are those announced.
    - After the lock: the retry helper is equivalent to a bounded number of
      attempts; proving an order ends with a row that is settled, under a
      backend that makes progress; the reaper fails exactly the expired orders;
      a batch holds orders of one assessor class; submitting a batch leaves
      each of its orders done or failed, done only with an accepted transaction that
      fulfills its request, and reports each to the committer.
    - Before the lock: every order that the evaluator or the pricer receives is
      accounted for under any interleaving, preflight slots stay within their
      limit, and whatever is handed to the committer's channel was decided on by
      pricing, with its requestor, its state in the database and the balances
      allowing it.
    - Prices and lists: the rate of several sources is robust against a minority
      of them, a refresh gives the requestor caches the meaning of the
      configured lists, and a printed amount parses to itself.
    - Monitors: every block is processed once and in order, with the receipts that
      the node answered for it, an order is sent on
      only with a signature of its client, a poll in chunks handles the logs of
      the whole range, fetching logs in shrinking ranges ends, and the local fee
      estimate is the percentile of its window.
    - Market service: a fulfillment that prices requests is committed before it
      is revealed and ends after boundedly many reveals; a lock is reported
      exactly when the market made it and the balance could be read; a search
      for events returns those of its range.
    - Backends: the selectors that a policy offers are exactly those it can seal
      and prove, a table of backends routes each selector to the backend that
      registered it, an order reaches its completion after at most three calls,
      a batch state grows by the claims of exactly the proofs that are aggregated and
      verify, and a plan accounts for every order with fulfillments that carry the
      claim of its own proof.
    - Assessor: the guest accepts exactly the inputs whose fills are valid, signed
      and satisfied, and the root of its journal determines what it certified, unless
      two of the messages that the two trees hash collide.
    - Supervision: every delay lies between the first and the largest of its
      policy, and a critical service that keeps failing is given up.
    - Task database: a worker is given the first task, by priority and age, whose
      prerequisites are done; a running job with work left always has a task in a
      queue or with a worker; a task is handed out at most once more than it may
      be retried; the reported counts are exact; the tables fit together after
      any sequence of calls.
    - Executor and agent: the rows that the executor writes are its plan, task for
      task and with the same prerequisites; a turn of an agent settles the task
      that it was given.
    - Slasher: every order that was seen locked is in its table or was removed
      for one of the reasons of the source, and a turn slashes exactly the
      orders that have expired.
    - Proof of verifiable work: the journal of the mint calculator certifies a
      chain of work log updates for each log, complete up to its last commit,
      with a mint within the emissions of each epoch and the cap of the
      recipient; the host prepares every query that the guest makes; the log
      updater accepts exactly the updates that are authorized, those of its
      host among them; and the gaps between blocks are filled with the blocks
      of the chain.
    - Request builder: a request that is built is valid, unexpired, keeps what the
      requestor gave, and has an output of its program that satisfies its predicate;
      what is stored is what provers fetch; the fields of an offer come from the
      requestor, the configuration, the market or the defaults in that order, each as
      it was read in the run; with a node that answers, the default offer is valid for
      every number of cycles; the gas that a price
      provides for covers what provers expect; a requestor's pricing accepts what
      has passed the checks of provers, and is advice that cannot fail a build.

    ** Bounds and fuel

    Integers carry the widths of the source; a theorem that needs an absence of
    overflow states it as a bound on its inputs.  The loops of the source are
    structural recursions on the lists they consume, except the merge loop of
    the planner, which recurs on its stack of peaks; no fuel is needed.  The
    endless loops of the services are modelled by a recursion on the list of
    events they receive, of any length.  The [select!] loop around a proof
    recurs on its schedule, the list of branches that become ready; a schedule
    that ends first is a future that is never ready ([Panic]), and the theorem
    shows that the loop returns when the schedule is fair and the backend does
    not report progress forever ([LiveBackend]).  A retry recurs on its count of
    attempts.  The loops that the source runs until something holds have fuel,
    and a theorem that it is enough: the chunks of a range ([poll_fuel],
    [get_logs_fuel], bounds on the number of turns), the reveals of a fulfillment
    ([fulfill], 31 attempts: 15 seconds in steps of half a second, and one after
    the deadline), the calls for one order ([drive], 3), the levels of a tree
    ([process_tree], the number of its leaves), the members of a queue of
    tasks ([pop_queue], its size), the tasks that are left in the queues
    ([drain_all]), the blocks between two known ones ([patched], the length of
    the filled list).  The slasher's loop recurs on its count of turns.

    ** Not modelled

    Log messages and telemetry; the text of error messages where the code does
    not look at it; the exchange of tokio channels, which are reduced to the
    outcome of a send; the contract, the node, the provers, the zkVM and the set
    builder, which are operations of an environment; prices in floating point
    and the HTTP sources of prices; the construction of the RISC Zero backend
    from a deployment, its images and its evaluation of a request; the older
    chain monitor; the start and the two phases of shutdown of the broker; the
    client, which assembles these parts; the stores behind the traits of storage and the
    caches of downloads; the queries by which market prices are found; the connections to Redis; the
    work that a task of each kind does, which is a call of the prover library
    between two transfers of data, and the client of the prover's API; the
    provers and contracts that the tools of [crates/povw] call; the rewards
    of [crates/rewards], which are sums over tables that the indexer fills; the
    indexer, the order stream and the command line, which are queries, routes and
    printing; the contracts and the other guests.

    ** Order of extension

    The order stream, whose rules (a client's balance, a broker's first message)
    sit in handlers of web requests; the stores of the storage module. *)

From Stdlib Require Export ZArith Lia.
From stdpp Require Export base tactics option list gmap strings numbers sorting.

Local Open Scope Z_scope.

(** ** Machine integers

    A [w]-bit unsigned integer is a [Z] in [0, 2^w).  The crates are built
    with the release profile of [Cargo.toml], which leaves overflow checks
    off, so [+], [-] and [*] on the primitive types wrap around, as the
    operators of [U256] do in every profile. *)

Definition fits (w x : Z) : Prop := 0 <= x < 2 ^ w.

#[export] Instance fits_dec w x : Decision (fits w x).
Proof. unfold fits. apply _. Defined.

Definition wrap (w z : Z) : Z := z mod 2 ^ w.

Definition wadd (w x y : Z) : Z := wrap w (x + y).
Definition wsub (w x y : Z) : Z := wrap w (x - y).
Definition wmul (w x y : Z) : Z := wrap w (x * y).

Definition umax (w : Z) : Z := 2 ^ w - 1.

Definition sat_add (w x y : Z) : Z := Z.min (umax w) (x + y).
Definition sat_sub (x y : Z) : Z := Z.max 0 (x - y).
Definition sat_mul (w x y : Z) : Z := Z.min (umax w) (x * y).

(** [a.div_ceil(b)]: the quotient, one more when there is a remainder. *)
Definition div_ceil (a b : Z) : Z := if a mod b =? 0 then a / b else a / b + 1.

(** [x.try_into().unwrap_or(u64::MAX)] and [saturating_to::<u64>()]. *)
Definition sat_to (w x : Z) : Z := if x <? 2 ^ w then x else umax w.

(** ** Results, and the panics of the source

    [Panic] stands for a thread that unwinds: a failed [unwrap], an index out
    of range, a division by zero, an [unreachable!]. *)

Inductive result (E A : Type) : Type :=
| Ok (a : A)
| Err (e : E)
| Panic.
Arguments Ok {E A} a.
Arguments Err {E A} e.
Arguments Panic {E A}.

#[export] Instance result_ret E : MRet (result E) := fun A a => Ok a.
#[export] Instance result_bind E : MBind (result E) := fun A B f m =>
  match m with Ok a => f a | Err e => Err e | Panic => Panic end.

Definition map_err {E F A} (f : E -> F) (m : result E A) : result F A :=
  match m with Ok a => Ok a | Err e => Err (f e) | Panic => Panic end.

Definition ok_or {E A} (e : E) (o : option A) : result E A :=
  match o with Some a => Ok a | None => Err e end.

(** [o.unwrap()]. *)
Definition unwrap {E A} (o : option A) : result E A :=
  match o with Some a => Ok a | None => Panic end.

(** [a / b] on an unsigned type: the division panics on a zero divisor. *)
Definition checked_quot {E} (a b : Z) : result E Z :=
  if b =? 0 then Panic else Ok (a / b).

(** [a.div_ceil(b)] likewise. *)
Definition checked_div_ceil {E} (a b : Z) : result E Z :=
  if b =? 0 then Panic else Ok (div_ceil a b).

Definition is_ok {E A} (m : result E A) : bool :=
  match m with Ok _ => true | _ => false end.

Definition no_panic {E A} (m : result E A) : Prop := m <> Panic.

(** [iter.map(f).collect::<Result<Vec<_>, _>>()], and the loops that push the
    value of [f(x)?]. *)
Fixpoint collect {E A B} (f : A -> result E B) (l : list A) : result E (list B) :=
  match l with
  | [] => Ok []
  | a :: l => b ← f a; bs ← collect f l; mret (b :: bs)
  end.

(** ** State passing

    Services that call out to a database, a chain or a clock run in a state
    monad over a world [W]; the fallible ones return a [result] in it. *)

Definition st (W A : Type) : Type := W -> A * W.

#[export] Instance st_ret W : MRet (st W) := fun A a w => (a, w).
#[export] Instance st_bind W : MBind (st W) := fun A B f m w =>
  let (a, w') := m w in f a w'.

Definition ste (W E A : Type) : Type := W -> result E A * W.

#[export] Instance ste_ret W E : MRet (ste W E) := fun A a w => (Ok a, w).
#[export] Instance ste_bind W E : MBind (ste W E) := fun A B f m w =>
  match m w with
  | (Ok a, w') => f a w'
  | (Err e, w') => (Err e, w')
  | (Panic, w') => (Panic, w')
  end.

Definition throw {W E A} (e : E) : ste W E A := fun w => (Err e, w).
Definition lift {W E A} (m : st W A) : ste W E A := fun w =>
  let (a, w') := m w in (Ok a, w').
Definition liftr {W E A} (m : result E A) : ste W E A := fun w => (m, w).
(** [m.map_err(f)?], keeping the effects of [m]. *)
Definition with_err {W E F A} (f : E -> F) (m : ste W E A) : ste W F A := fun w =>
  let (r, w') := m w in (map_err f r, w').
(** Run a fallible call and look at its result instead of propagating it. *)
Definition attempt {W E A} (m : ste W E A) : st W (result E A) := m.
(** Look at the result of a fallible call; a panic still unwinds. *)
Definition catch {W E F A} (m : ste W E A) : ste W F (E + A) := fun w =>
  match m w with
  | (Ok a, w') => (Ok (inr a), w')
  | (Err e, w') => (Ok (inl e), w')
  | (Panic, w') => (Panic, w')
  end.

(** ** Inversion of the error monads *)

Lemma ste_bind_Ok {W E A B} (m : ste W E A) (f : A -> ste W E B) w b w' :
  (m ≫= f) w = (Ok b, w') -> exists a w1, m w = (Ok a, w1) /\ f a w1 = (Ok b, w').
Proof.
  unfold mbind, ste_bind. destruct (m w) as [[a|e|] w1]; [|done..]. by exists a, w1.
Qed.

Lemma ste_bind_Panic {W E A B} (m : ste W E A) (f : A -> ste W E B) w w' :
  (m ≫= f) w = (Panic, w') ->
  m w = (Panic, w') \/ exists a w1, m w = (Ok a, w1) /\ f a w1 = (Panic, w').
Proof.
  unfold mbind, ste_bind. destruct (m w) as [[a|e|] w1]; [|done|naive_solver].
  right. by exists a, w1.
Qed.

Lemma ste_bind_Err {W E A B} (m : ste W E A) (f : A -> ste W E B) w e w' :
  (m ≫= f) w = (Err e, w') ->
  m w = (Err e, w') \/ exists a w1, m w = (Ok a, w1) /\ f a w1 = (Err e, w').
Proof.
  unfold mbind, ste_bind. destruct (m w) as [[a|e'|] w1]; [|naive_solver|done].
  right. by exists a, w1.
Qed.

Lemma result_bind_Ok {E A B} (m : result E A) (f : A -> result E B) b :
  m ≫= f = Ok b -> exists a, m = Ok a /\ f a = Ok b.
Proof. destruct m; simpl; naive_solver. Qed.

Lemma lift_Ok {W E A} (m : st W A) w a w' :
  lift (E := E) m w = (Ok a, w') -> m w = (a, w').
Proof. unfold lift. destruct (m w). naive_solver. Qed.

Lemma liftr_Ok {W E A} (r : result E A) (w : W) a w' :
  liftr r w = (Ok a, w') -> r = Ok a /\ w' = w.
Proof. unfold liftr. naive_solver. Qed.

(** Open the first step of a run that succeeded: its answer, the state after
    it, the equation and the rest of the run. *)
Ltac bind_step H a w E := apply ste_bind_Ok in H as (a & w & E & H).

(** [pfree m w]: the run of [m] from [w] does not panic. *)
Definition pfree {W E A} (m : ste W E A) (w : W) : Prop := forall w', m w <> (Panic, w').

Lemma pfree_bind {W E A B} (m : ste W E A) (f : A -> ste W E B) w :
  pfree m w -> (forall a w', m w = (Ok a, w') -> pfree (f a) w') -> pfree (m ≫= f) w.
Proof.
  intros Hm Hf w' Hr. apply ste_bind_Panic in Hr as [Hr|(a & w1 & Ha & Hr)].
  - by apply Hm in Hr.
  - by apply (Hf _ _ Ha) in Hr.
Qed.

Lemma pfree_liftr {W E A} (r : result E A) (w : W) : r <> Panic -> pfree (liftr r) w.
Proof. intros Hr w' [= ? _]. done. Qed.

Lemma pfree_lift {W E A} (m : st W A) (w : W) : pfree (E := E) (lift m) w.
Proof. intros w'. unfold lift. by destruct (m w). Qed.

Lemma pfree_ret {W E A} (a : A) (w : W) : pfree (E := E) (mret a) w.
Proof. by intros w'. Qed.

Lemma pfree_throw {W E A} (e : E) (w : W) : pfree (A := A) (throw e) w.
Proof. by intros w'. Qed.

Lemma with_err_Ok {W E F A} (f : E -> F) (m : ste W E A) w a w' :
  with_err f m w = (Ok a, w') -> m w = (Ok a, w').
Proof. unfold with_err. destruct (m w) as [r w1]. destruct r; naive_solver. Qed.

Lemma pfree_with_err {W E F A} (f : E -> F) (m : ste W E A) w :
  pfree m w -> pfree (with_err f m) w.
Proof.
  intros Hm w' Hr. unfold with_err in Hr. destruct (m w) as [r w1] eqn:E1.
  destruct r; try done. injection Hr as ->. by apply Hm in E1.
Qed.

Lemma pfree_catch {W E F A} (m : ste W E A) w : pfree m w -> pfree (catch (F := F) m) w.
Proof.
  intros Hm w' Hr. unfold catch in Hr. destruct (m w) as [r w1] eqn:E1.
  destruct r; try done. injection Hr as ->. by apply Hm in E1.
Qed.

(** Runs that return. *)
Definition returns {W E A} (m : ste W E A) (w : W) : Prop := exists a w', m w = (Ok a, w').

Lemma returns_bind {W E A B} (m : ste W E A) (f : A -> ste W E B) w :
  returns m w -> (forall a w', m w = (Ok a, w') -> returns (f a) w') -> returns (m ≫= f) w.
Proof.
  intros (a & w1 & E1) Hf. destruct (Hf _ _ E1) as (b & w2 & E2).
  exists b, w2. unfold mbind, ste_bind. by rewrite E1.
Qed.

Lemma returns_lift {W E A} (m : st W A) w : returns (E := E) (lift m) w.
Proof. unfold returns, lift. destruct (m w) as [a w']. by exists a, w'. Qed.

Lemma returns_ret {W E A} (a : A) (w : W) : returns (E := E) (mret a) w.
Proof. by exists a, w. Qed.

Lemma returns_catch {W E F A} (m : ste W E A) (w : W) :
  pfree m w -> returns (catch (F := F) m) w.
Proof.
  intros Hm. unfold returns, catch. destruct (m w) as [[a|e|] w1] eqn:E1; [eauto..|].
  by destruct (Hm w1).
Qed.

(** *** Runs that leave an observation of the state alone

    [preserves obs m]: whatever [m] does, what [obs] reads of the state is what
    it was. *)
Definition preserves {S L X} (obs : S -> L) (m : S -> X * S) : Prop :=
  forall s, obs (snd (m s)) = obs s.

Section Preserves.
Context {S L : Type} (obs : S -> L).

Lemma preserves_bind {E A B} (m : ste S E A) (f : A -> ste S E B) :
  preserves obs m -> (forall a, preserves obs (f a)) -> preserves obs (m ≫= f).
Proof.
  intros Hm Hf s. specialize (Hm s). unfold mbind, ste_bind.
  destruct (m s) as [[a|e|] s1]; [by rewrite Hf|done..].
Qed.

Lemma preserves_bind_st {A B} (m : st S A) (f : A -> st S B) :
  preserves obs m -> (forall a, preserves obs (f a)) -> preserves obs (m ≫= f).
Proof.
  intros Hm Hf s. specialize (Hm s). unfold mbind, st_bind.
  destruct (m s) as [a s1]. by rewrite Hf.
Qed.

Lemma preserves_ret {E A} (a : A) : preserves obs (mret (M := ste S E) a).
Proof. done. Qed.
Lemma preserves_ret_st {A} (a : A) : preserves obs (mret (M := st S) a).
Proof. done. Qed.
Lemma preserves_throw {E A} (e : E) : preserves obs (throw (A := A) e).
Proof. done. Qed.
Lemma preserves_liftr {E A} (r : result E A) : preserves obs (liftr r).
Proof. done. Qed.

Lemma preserves_lift {E A} (m : st S A) : preserves obs m -> preserves obs (lift (E := E) m).
Proof. intros Hm s. specialize (Hm s). unfold lift. by destruct (m s). Qed.

Lemma preserves_with_err {E F A} (f : E -> F) (m : ste S E A) :
  preserves obs m -> preserves obs (with_err f m).
Proof. intros Hm s. specialize (Hm s). unfold with_err. by destruct (m s). Qed.

Lemma preserves_catch {E F A} (m : ste S E A) :
  preserves obs m -> preserves obs (catch (F := F) m).
Proof. intros Hm s. specialize (Hm s). unfold catch. by destruct (m s) as [[] ?]. Qed.

End Preserves.

Create HintDb preserves.
#[export] Hint Resolve preserves_ret preserves_ret_st preserves_throw preserves_liftr
  preserves_lift preserves_with_err preserves_catch : preserves.

(** Goes through a run step by step; what is left are the calls. *)
Ltac preserve :=
  repeat first
    [ progress intros
    | apply preserves_bind | apply preserves_bind_st
    | match goal with |- preserves _ (match ?x with _ => _ end) => destruct x end
    | solve [eauto 4 with preserves] ].

(** Two runs that are the same up to their first steps. *)
Lemma ste_bind_assoc {W E A B C} (m : ste W E A) (f : A -> ste W E B) (g : B -> ste W E C) w :
  ((m ≫= f) ≫= g) w = (m ≫= (fun a => f a ≫= g)) w.
Proof. unfold mbind, ste_bind. by destruct (m w) as [[a|e|] w1]. Qed.

Lemma ste_bind_ext {W E A B} (m : ste W E A) (f g : A -> ste W E B) w :
  (forall a w1, m w = (Ok a, w1) -> f a w1 = g a w1) -> (m ≫= f) w = (m ≫= g) w.
Proof. unfold mbind, ste_bind. destruct (m w) as [[a|e|] w1]; eauto. Qed.

(** ** Arithmetic lemmas *)

Create HintDb uint.

Lemma wrap_small w z : fits w z -> wrap w z = z.
Proof. unfold wrap, fits. intros H. by apply Z.mod_small. Qed.

Lemma wrap_fits w z : 0 <= w -> fits w (wrap w z).
Proof.
  intros Hw. unfold wrap, fits. apply Z.mod_pos_bound.
  by apply Z.pow_pos_nonneg.
Qed.

Lemma wadd_small w x y : fits w (x + y) -> wadd w x y = x + y.
Proof. apply wrap_small. Qed.
Lemma wsub_small w x y : fits w (x - y) -> wsub w x y = x - y.
Proof. apply wrap_small. Qed.
Lemma wmul_small w x y : fits w (x * y) -> wmul w x y = x * y.
Proof. apply wrap_small. Qed.

Lemma fits_mono w x y : fits w y -> 0 <= x <= y -> fits w x.
Proof. unfold fits. lia. Qed.

Lemma div_ceil_le_iff a b q :
  0 < b -> (div_ceil a b <= q <-> a <= q * b).
Proof.
  intros Hb. unfold div_ceil.
  pose proof (Z.div_mod a b ltac:(lia)) as E.
  pose proof (Z.mod_pos_bound a b Hb) as M.
  destruct (Z.eqb_spec (a mod b) 0); split; intros; nia.
Qed.

Lemma div_ceil_nonneg a b : 0 <= a -> 0 < b -> 0 <= div_ceil a b.
Proof.
  intros Ha Hb. unfold div_ceil.
  pose proof (Z.div_pos a b Ha Hb). destruct (_ =? 0); lia.
Qed.

Lemma div_ceil_ge a b : 0 < b -> a <= div_ceil a b * b.
Proof. intros Hb. by apply (div_ceil_le_iff a b _ Hb). Qed.

Lemma div_ceil_lt a b q : 0 < b -> q < div_ceil a b -> q * b < a.
Proof.
  intros Hb Hq. destruct (Z.le_gt_cases a (q * b)) as [H|H]; [|done].
  apply (div_ceil_le_iff a b q Hb) in H. lia.
Qed.

Lemma sat_sub_nonneg x y : 0 <= sat_sub x y.
Proof. unfold sat_sub. lia. Qed.

Lemma sat_mul_le w x y : sat_mul w x y <= x * y.
Proof. unfold sat_mul. lia. Qed.

Lemma sat_to_le w x : sat_to w x <= x.
Proof. unfold sat_to, umax. destruct (Z.ltb_spec x (2 ^ w)); lia. Qed.

Lemma checked_quot_Ok {E} a b q : checked_quot (E := E) a b = Ok q <-> b <> 0 /\ q = a / b.
Proof. unfold checked_quot. destruct (Z.eqb_spec b 0); naive_solver. Qed.

Lemma checked_quot_pos {E} a b : 0 < b -> checked_quot (E := E) a b = Ok (a / b).
Proof. intros. apply checked_quot_Ok. split; [lia|done]. Qed.

Lemma checked_div_ceil_pos {E} a b : 0 < b -> checked_div_ceil (E := E) a b = Ok (div_ceil a b).
Proof. intros. unfold checked_div_ceil. destruct (Z.eqb_spec b 0); [lia|done]. Qed.

(** A count within a rounded-down quotient costs at most the dividend. *)
Lemma le_div_mul a b n : 0 < b -> n <= a / b -> n * b <= a.
Proof.
  intros Hb Hn. pose proof (Z.mul_div_le a b Hb).
  pose proof (Z.mul_le_mono_nonneg_r n (a / b) b ltac:(lia) Hn). lia.
Qed.

Lemma sat_mul_bound w x y : 0 <= w -> 0 <= x -> 0 <= y -> 0 <= sat_mul w x y < 2 ^ w.
Proof.
  intros Hw Hx Hy. unfold sat_mul, umax. pose proof (Z.mul_nonneg_nonneg x y Hx Hy).
  assert (0 < 2 ^ w) by (by apply Z.pow_pos_nonneg). lia.
Qed.

Lemma sat_mul_exact w x y : x * y < 2 ^ w -> sat_mul w x y = x * y.
Proof. unfold sat_mul, umax. lia. Qed.

Lemma pow2_pos n : 0 <= n -> 0 < 2 ^ n.
Proof. by apply Z.pow_pos_nonneg. Qed.

(** Packing: a value shifted above [n] bits or-ed with an [n]-bit one. *)
Lemma lor_shiftl_low n x y :
  0 <= n -> fits n y -> Z.lor (Z.shiftl x n) y = x * 2 ^ n + y.
Proof.
  intros Hn [Hy0 Hy1]. rewrite <- Z.shiftl_mul_pow2 by done.
  symmetry. apply Z.add_nocarry_lor. apply Z.bits_inj'. intros i Hi.
  rewrite Z.land_spec, Z.bits_0.
  destruct (Z.lt_ge_cases i n).
  - by rewrite Z.shiftl_spec_low.
  - destruct (Z.eq_dec y 0) as [->|]; [by rewrite Z.bits_0, andb_false_r|].
    rewrite (Z.bits_above_log2 y i), andb_false_r; [done|lia|].
    apply Z.lt_le_trans with n; [|lia]. apply Z.log2_lt_pow2; lia.
Qed.

Lemma land_pow2_eqb x n :
  0 <= n -> negb (Z.land x (Z.shiftl 1 n) =? 0) = Z.testbit x n.
Proof.
  intros Hn. rewrite Z.shiftl_1_l.
  assert (Z.land x (2 ^ n) = if Z.testbit x n then 2 ^ n else 0) as ->.
  { apply Z.bits_inj'. intros i Hi. rewrite Z.land_spec, Z.pow2_bits_eqb by done.
    destruct (Z.testbit x n) eqn:E; rewrite ?Z.bits_0, ?Z.pow2_bits_eqb by done;
      destruct (Z.eqb_spec n i) as [<-|]; rewrite ?E, ?andb_false_r; done. }
  pose proof (pow2_pos n Hn).
  destruct (Z.testbit x n); [|done].
  destruct (Z.eqb_spec (2 ^ n) 0); [lia|done].
Qed.

#[export] Hint Resolve wrap_fits div_ceil_nonneg sat_sub_nonneg : uint.

(** [haystack.contains(needle)]. *)
Definition contains (needle haystack : string) : bool :=
  match String.index 0 needle haystack with Some _ => true | None => false end.

(** ** Stable sorting

    [sort_by_key] and [sort_by_cached_key] of the standard library are stable
    sorts; the keys are computed once per element. *)

Section StableSort.
Context {A : Type} (key : A -> Z).

Fixpoint sort_insert (x : A) (l : list A) : list A :=
  match l with
  | [] => [x]
  | y :: l' => if key x <=? key y then x :: l else y :: sort_insert x l'
  end.

Definition stable_sort (l : list A) : list A := foldr sort_insert [] l.

Lemma sort_insert_perm x l : sort_insert x l ≡ₚ x :: l.
Proof.
  induction l as [|y l IH]; simpl; [done|]. destruct (_ <=? _); [done|].
  rewrite IH. by apply Permutation_swap.
Qed.

Lemma stable_sort_perm l : stable_sort l ≡ₚ l.
Proof. induction l as [|x l IH]; simpl; [done|]. by rewrite sort_insert_perm, IH. Qed.

Lemma sort_insert_sorted x l :
  StronglySorted (fun a b => key a <= key b) l ->
  StronglySorted (fun a b => key a <= key b) (sort_insert x l).
Proof.
  induction 1 as [|y l Hs IH Hy]; simpl.
  - repeat constructor.
  - destruct (Z.leb_spec (key x) (key y)).
    + repeat constructor; [done|done|lia|]. eapply Forall_impl; [exact Hy|]. simpl. lia.
    + constructor; [done|]. rewrite sort_insert_perm. constructor; [lia|done].
Qed.

Lemma stable_sort_sorted l : StronglySorted (fun a b => key a <= key b) (stable_sort l).
Proof. induction l as [|x l IH]; simpl; [constructor|]. by apply sort_insert_sorted. Qed.

(** Elements with equal keys keep their order. *)
Lemma sort_insert_filter x l k :
  filter (fun a => key a = k) (sort_insert x l) = filter (fun a => key a = k) (x :: l).
Proof.
  induction l as [|y l IH]; simpl; [done|].
  destruct (Z.leb_spec (key x) (key y)); [done|].
  rewrite !filter_cons in *. rewrite IH. repeat case_decide; (done || lia).
Qed.

Lemma stable_sort_stable l k :
  filter (fun a => key a = k) (stable_sort l) = filter (fun a => key a = k) l.
Proof.
  induction l as [|x l IH]; simpl; [done|].
  rewrite sort_insert_filter, !filter_cons, IH. done.
Qed.

End StableSort.

Lemma filter_length_all (P : Z -> Prop) `{!forall x, Decision (P x)} (l : list Z) :
  Forall P l -> length (filter P l) = length l.
Proof.
  induction 1 as [|x l Hx Hl IH]; [done|]. rewrite filter_cons_True by done. simpl. by rewrite IH.
Qed.

Lemma filter_length_none (P : Z -> Prop) `{!forall x, Decision (P x)} (l : list Z) :
  Forall (fun x => ~ P x) l -> length (filter P l) = 0%nat.
Proof.
  induction 1 as [|x l Hx Hl IH]; [done|]. by rewrite filter_cons_False.
Qed.

(** The element at an index of a sorted list, by its rank: no more than [idx]
    elements are smaller, and more than [idx] are no larger. *)
Lemma sorted_rank (s : list Z) (idx : nat) (f : Z) :
  StronglySorted Z.le s -> s !! idx = Some f ->
  (length (filter (fun x => (x < f)%Z) s) <= idx
   < length (filter (fun x => (x <= f)%Z) s))%nat.
Proof.
  intros Hs Hl. assert (Ht : length (take idx s) = idx)
    by (rewrite length_take; apply lookup_lt_Some in Hl; lia).
  rewrite <- (take_drop_middle _ _ _ Hl) in Hs |- *.
  apply StronglySorted_app in Hs as (Hlr & _ & Hr).
  apply StronglySorted_inv in Hr as [_ Hr]. rewrite Forall_forall in Hr.
  rewrite !filter_app, !length_app.
  rewrite (filter_length_none (fun x => x < f) (f :: _)),
    (filter_length_all (fun x => x <= f) (take _ _)).
  - pose proof (length_filter (fun x => x < f) (take idx s)).
    rewrite filter_cons_True by lia. simpl. lia.
  - apply Forall_forall. intros x Hx. apply Hlr; [done|left].
  - apply Forall_forall. intros x [->|Hx]%elem_of_cons; [lia|]. specialize (Hr x Hx). lia.
Qed.

Lemma stable_sort_rank (l : list Z) (idx : nat) :
  (idx < length l)%nat ->
  let f := nth idx (stable_sort id l) 0 in
  f ∈ l /\ (length (filter (fun x => (x < f)%Z) l) <= idx
            < length (filter (fun x => (x <= f)%Z) l))%nat.
Proof.
  intros Hi f. pose proof (stable_sort_perm id l) as Hp.
  rewrite <- (Permutation_length Hp) in Hi.
  assert (Hl : stable_sort id l !! idx = Some f).
  { destruct (nth_lookup_or_length (stable_sort id l) idx 0) as [Hl|]; [done|lia]. }
  split; [apply list_elem_of_lookup_2 in Hl; by rewrite <- Hp|].
  apply sorted_rank in Hl; [|apply stable_sort_sorted].
  by rewrite <- !(Permutation_length (filter_Permutation _ _ _ Hp)).
Qed.

(** ** Automation *)

(** Reflect the boolean comparisons of the code into the goal's order. *)
Ltac breflect :=
  repeat match goal with
  | H : (_ =? _) = true |- _ => apply Z.eqb_eq in H
  | H : (_ =? _) = false |- _ => apply Z.eqb_neq in H
  | H : (_ <? _) = true |- _ => apply Z.ltb_lt in H
  | H : (_ <? _) = false |- _ => apply Z.ltb_ge in H
  | H : (_ <=? _) = true |- _ => apply Z.leb_le in H
  | H : (_ <=? _) = false |- _ => apply Z.leb_gt in H
  | H : (_ >? _) = true |- _ => rewrite Z.gtb_ltb in H; apply Z.ltb_lt in H
  | H : (_ >? _) = false |- _ => rewrite Z.gtb_ltb in H; apply Z.ltb_ge in H
  | H : (_ >=? _) = true |- _ => rewrite Z.geb_leb in H; apply Z.leb_le in H
  | H : (_ >=? _) = false |- _ => rewrite Z.geb_leb in H; apply Z.leb_gt in H
  | H : _ && _ = true |- _ => apply andb_prop in H; destruct H
  | H : negb _ = true |- _ => apply negb_true_iff in H
  | H : negb _ = false |- _ => apply negb_false_iff in H
  | H : _ || _ = false |- _ => apply orb_false_elim in H; destruct H
  end.

(** Case-split the conditionals and matches of the goal, reflecting each. *)
Ltac bcase :=
  match goal with
  | |- context [if ?b then _ else _] =>
      lazymatch type of b with
      | bool => destruct b eqn:?
      | _ => destruct b
      end
  end; breflect.

Ltac bcase_in H :=
  match type of H with
  | context [if ?b then _ else _] =>
      lazymatch type of b with
      | bool => destruct b eqn:?
      | _ => destruct b
      end
  end; breflect.

(** Solve a [fits] goal by linear arithmetic. *)
Ltac fits_lia := unfold fits, umax in *; lia.
