(* ===== verification/Gas.v ===== *)
(** * Gas: what a transaction is expected to cost

    [crates/boundless-market/src/dynamic_gas_filler.rs]: the priority modes, the
    EIP-1559 estimate from the fee history of a node and the filler that scales
    it by the transactions pending; and the estimate that the chain monitor makes
    from its own window of blocks
    ([crates/broker/src/chain_monitor_v2/block_history.rs]).

    Fees are [u128] values, percentages [u64] values, and the percentile is an
    [f64], modelled by the binary64 numbers of [SpecFloat].  The constants and
    the filler of the alloy library are the class [AlloyGas], the calls to the
    node the class [FeeNode]. *)

From Stdlib Require Import SpecFloat.
From S2P Require Import Prelude.

Local Open Scope Z_scope.

(** ** binary64 *)

Definition f64_of_u64 (x : Z) : spec_float := binary_normalize 53 1024 x 0 false.
Definition f64_mul : spec_float -> spec_float -> spec_float := SFmul 53 1024.
Definition f64_div : spec_float -> spec_float -> spec_float := SFdiv 53 1024.

(** [m * 2 ^ e], rounded towards zero. *)
Definition scale_trunc (m e : Z) : Z := if 0 <=? e then Z.shiftl m e else Z.shiftr m (- e).

(** [x as usize]: towards zero, and saturating. *)
Definition f64_as_u64 (x : spec_float) : Z :=
  match x with
  | S754_finite false m e => Z.min (umax 64) (scale_trunc (Zpos m) e)
  | S754_infinity false => umax 64
  | _ => 0
  end.

(** ** Priority modes *)

Inductive PriorityMode :=
| ModeLow
| ModeMedium
| ModeHigh
| ModeCustom (base_fee_multiplier_percentage priority_fee_multiplier_percentage : Z)
    (priority_fee_percentile : spec_float)
    (dynamic_multiplier_percentage min_priority_fee_wei : Z).

(** The derived [PartialEq]: floats are compared as floats. *)
Definition mode_eqb (a b : PriorityMode) : bool :=
  match a, b with
  | ModeLow, ModeLow | ModeMedium, ModeMedium | ModeHigh, ModeHigh => true
  | ModeCustom b1 p1 f1 d1 m1, ModeCustom b2 p2 f2 d2 m2 =>
      (b1 =? b2) && (p1 =? p2) && SFeqb f1 f2 && (d1 =? d2) && (m1 =? m2)
  | _, _ => false
  end.

Record PriorityModeConfig := mkPriorityModeConfig {
  base_fee_multiplier_percentage : Z;
  priority_fee_multiplier_percentage : Z;
  priority_fee_percentile : spec_float;
  dynamic_multiplier_percentage : Z;
  min_priority_fee_wei : Z
}.

Definition LOW_PRIORITY_PERCENTILE : spec_float := f64_of_u64 20.
Definition MEDIUM_PRIORITY_PERCENTILE : spec_float := f64_of_u64 30.
Definition HIGH_PRIORITY_PERCENTILE : spec_float := f64_of_u64 50.

(** The constants of [alloy::providers::utils]. *)
Class AlloyGas := {
  EIP1559_BASE_FEE_MULTIPLIER : Z;
  EIP1559_MIN_PRIORITY_FEE : Z;
  EIP1559_FEE_ESTIMATION_PAST_BLOCKS : Z;
  EIP1559_FEE_ESTIMATION_REWARD_PERCENTILE : spec_float
}.

Record Eip1559Estimation := mkEstimation {
  max_fee_per_gas : Z;
  max_priority_fee_per_gas : Z
}.

Inductive GasFillable :=
| GfLegacy (gas_limit gas_price : Z)
| GfEip1559 (gas_limit : Z) (estimate : Eip1559Estimation).

Record FeeHistory := mkFeeHistory {
  latest_block_base_fee : option Z;
  fh_reward : option (list (list Z))
}.

(** The calls to the node, and those parts of alloy's filler that the source
    hands its own provider to: [gas_filler_prepare] gets the estimate of the
    fees, [scale_by_pct] is the method of [Eip1559Estimation]. *)
Class FeeNode (W : Type) := {
  get_fee_history : Z -> spec_float -> ste W unit FeeHistory;
  latest_base_fee : ste W unit (option Z);
  get_max_priority_fee_per_gas : ste W unit Z;
  node_gas_price : ste W unit Z;
  gas_filler_prepare : ste W unit Eip1559Estimation -> ste W unit GasFillable;
  confirmed_nonce : ste W unit Z;
  pending_nonce : ste W unit Z;
  scale_by_pct : Z -> Eip1559Estimation -> Eip1559Estimation
}.

Section Gas.
Context `{AlloyGas}.

Definition DEFAULT_BASE_FEE_MULTIPLIER_PERCENTAGE : Z :=
  wmul 64 (wrap 64 EIP1559_BASE_FEE_MULTIPLIER) 100.

Definition config (mode : PriorityMode) : PriorityModeConfig :=
  match mode with
  | ModeLow =>
      mkPriorityModeConfig DEFAULT_BASE_FEE_MULTIPLIER_PERCENTAGE 100 LOW_PRIORITY_PERCENTILE 3 0
  | ModeMedium =>
      mkPriorityModeConfig DEFAULT_BASE_FEE_MULTIPLIER_PERCENTAGE 100 MEDIUM_PRIORITY_PERCENTILE
        5 0
  | ModeHigh => mkPriorityModeConfig 250 100 HIGH_PRIORITY_PERCENTILE 7 0
  | ModeCustom b p f d m => mkPriorityModeConfig b p f d m
  end.

(** A fee scaled by a percentage. *)
Definition pct (fee percentage : Z) : Z := sat_mul 128 fee percentage / 100.

(** *** The estimate from the fee history of the node *)

Definition estimate_priority_fee (rewards : list (list Z)) : Z :=
  let rewards := filter (fun r => 0 < r) (omap head rewards) in
  match rewards with
  | [] => EIP1559_MIN_PRIORITY_FEE
  | _ =>
      let rewards := stable_sort id rewards in
      let mid := (length rewards / 2)%nat in
      let median :=
        if (length rewards mod 2 =? 0)%nat
        then wadd 128 (nth (mid - 1) rewards 0) (nth mid rewards 0) / 2
        else nth mid rewards 0 in
      Z.max median EIP1559_MIN_PRIORITY_FEE
  end.

(** [CustomizedFeeEstimator::estimate]. *)
Definition estimate (c : PriorityModeConfig) (base_fee : Z) (rewards : list (list Z))
    : Eip1559Estimation :=
  let scaled := pct (estimate_priority_fee rewards) (priority_fee_multiplier_percentage c) in
  mkEstimation (wadd 128 (pct base_fee (base_fee_multiplier_percentage c)) scaled) scaled.

(** [self.priority_fee_percentile == 0.0] is true of both zeros. *)
Definition reward_percentiles (c : PriorityModeConfig) : spec_float :=
  if SFeqb (priority_fee_percentile c) (S754_zero false)
  then EIP1559_FEE_ESTIMATION_REWARD_PERCENTILE else priority_fee_percentile c.

(** A priority fee that replaces the estimated one raises the limit with it. *)
Definition raise_priority_fee (c : PriorityModeConfig) (base_fee fee : Z)
    (e : Eip1559Estimation) : Eip1559Estimation :=
  mkEstimation
    (Z.max (max_fee_per_gas e) (wadd 128 (pct base_fee (base_fee_multiplier_percentage c)) fee))
    fee.

(** Near-zero estimates give way to the suggestion of the node. *)
Definition with_suggestion (c : PriorityModeConfig) (base_fee : Z)
    (suggested : unit + Z) (e : Eip1559Estimation) : Eip1559Estimation :=
  match suggested with
  | inr s =>
      if max_priority_fee_per_gas e <? s then raise_priority_fee c base_fee s e else e
  | inl _ => e
  end.

Definition with_floor (c : PriorityModeConfig) (base_fee : Z) (e : Eip1559Estimation)
    : Eip1559Estimation :=
  if (0 <? min_priority_fee_wei c) && (max_priority_fee_per_gas e <? min_priority_fee_wei c)
  then raise_priority_fee c base_fee (min_priority_fee_wei c) e else e.

Section Node.
Context {W : Type} `{FeeNode W}.

Definition history_base_fee (h : FeeHistory) : ste W unit Z :=
  match latest_block_base_fee h with
  | Some base_fee =>
      if negb (base_fee =? 0) then mret base_fee else
      latest ← latest_base_fee; liftr (ok_or tt latest)
  | None => latest ← latest_base_fee; liftr (ok_or tt latest)
  end.

Definition estimate_eip1559_fees (c : PriorityModeConfig) : ste W unit Eip1559Estimation :=
  fee_history ← get_fee_history EIP1559_FEE_ESTIMATION_PAST_BLOCKS (reward_percentiles c);
  base_fee ← history_base_fee fee_history;
  let e := estimate c base_fee (default [] (fh_reward fee_history)) in
  e ← (if max_priority_fee_per_gas e <=? 1
       then suggested ← catch get_max_priority_fee_per_gas;
            mret (with_suggestion c base_fee suggested e)
       else mret e);
  mret (with_floor c base_fee e).

Definition estimate_max_fee_per_gas (mode : PriorityMode) : ste W unit Z :=
  r ← catch (estimate_eip1559_fees (config mode));
  match r with
  | inr estimation => mret (max_fee_per_gas estimation)
  | inl _ => node_gas_price
  end.

(** *** The filler *)

Record DynamicGasParams := mkDynamicGasParams { fillable : GasFillable; multiplier : Z }.

Definition prepare (mode : PriorityMode) : ste W unit DynamicGasParams :=
  let priority_config := config mode in
  f ← gas_filler_prepare (estimate_eip1559_fees priority_config);
  confirmed ← confirmed_nonce;
  pending ← pending_nonce;
  let tx_diff := sat_sub pending confirmed in
  mret (mkDynamicGasParams f
          (sat_mul 64 tx_diff (dynamic_multiplier_percentage priority_config))).

(** The gas fields that [fill] sets on the transaction. *)
Definition fill (additional_gas_limit_percentage : Z) (params : DynamicGasParams)
    : GasFillable :=
  let limit l := sat_mul 64 l (wadd 64 100 additional_gas_limit_percentage) / 100 in
  match fillable params with
  | GfLegacy gas_limit gas_price =>
      GfLegacy (limit gas_limit) (sat_mul 128 gas_price (100 + multiplier params) / 100)
  | GfEip1559 gas_limit e => GfEip1559 (limit gas_limit) (scale_by_pct (multiplier params) e)
  end.
End Node.

(** ** The window of the chain monitor *)

Record BlockHistoryEntry := mkEntry {
  be_block_number : Z;
  base_fee_per_gas : option Z;
  priority_fees : list Z
}.

Record BlockHistory := mkHistory { entries : list BlockHistoryEntry; max_size : nat }.

Definition history_new (max_size : nat) : BlockHistory := mkHistory [] max_size.

Definition history_push (entry : BlockHistoryEntry) (h : BlockHistory) : BlockHistory :=
  mkHistory
    ((if (max_size h <=? length (entries h))%nat then tail (entries h) else entries h) ++ [entry])
    (max_size h).

(** The index of the percentile among [n] fees. *)
Definition percentile_index (n : nat) (percentile : spec_float) : nat :=
  let idx := f64_as_u64 (f64_div (f64_mul (f64_of_u64 (Z.of_nat n)) percentile)
                           (f64_of_u64 100)) in
  Z.to_nat (Z.min idx (Z.of_nat n - 1)).

Definition window_fees (h : BlockHistory) : list Z :=
  filter (fun fee => 0 < fee) (entries h ≫= priority_fees).

Definition estimate_gas_price (mode : PriorityMode) (h : BlockHistory) : option Z :=
  latest ← last (entries h);
  base_fee ← base_fee_per_gas latest;
  let config := config mode in
  let all_priority_fees := window_fees h in
  let priority_fee :=
    match all_priority_fees with
    | [] => EIP1559_MIN_PRIORITY_FEE
    | _ =>
        let sorted := stable_sort id all_priority_fees in
        Z.max (nth (percentile_index (length sorted) (priority_fee_percentile config)) sorted 0)
          EIP1559_MIN_PRIORITY_FEE
    end in
  Some (wadd 128 (pct base_fee (base_fee_multiplier_percentage config))
          (pct priority_fee (priority_fee_multiplier_percentage config))).

End Gas.

(** ** Lemmas *)

Lemma pct_bounds fee p : 0 <= fee -> 0 <= p -> 0 <= pct fee p < 2 ^ 122.
Proof.
  intros Hf Hp. unfold pct. pose proof (sat_mul_bound 128 fee p ltac:(done) Hf Hp). split.
  - apply Z.div_pos; lia.
  - apply Z.div_lt_upper_bound; lia.
Qed.

(** Below the point of saturation a scaled fee is the exact percentage. *)
Lemma pct_exact fee p : fee * p < 2 ^ 128 -> pct fee p = fee * p / 100.
Proof. intros Hs. unfold pct. by rewrite sat_mul_exact. Qed.

(** The percentiles of the named modes fall on the index that exact arithmetic
    gives, for windows of up to 1000 fees. *)
Definition index_exact (p : Z) (n : nat) : bool :=
  (percentile_index (S n) (f64_of_u64 p) =? Z.to_nat (Z.of_nat (S n) * p / 100))%nat.

Lemma percentile_index_named p n :
  p ∈ [20; 30; 50] -> (0 < n <= 1000)%nat ->
  percentile_index n (f64_of_u64 p) = Z.to_nat (Z.of_nat n * p / 100).
Proof.
  intros Hp Hn.
  assert (Hall : forallb (fun p => forallb (index_exact p) (seq 0 1000)) [20; 30; 50] = true)
    by (vm_compute; reflexivity).
  rewrite forallb_forall in Hall. apply list_elem_of_In in Hp.
  specialize (Hall p Hp). rewrite forallb_forall in Hall.
  specialize (Hall (n - 1)%nat). unfold index_exact in Hall.
  replace (S (n - 1)) with n in Hall by lia. apply Nat.eqb_eq, Hall, in_seq. lia.
Qed.

Lemma percentile_index_lt n p : (0 < n)%nat -> (percentile_index n p < n)%nat.
Proof. intros Hn. unfold percentile_index. lia. Qed.

(** ** The window keeps the last blocks *)

Lemma history_push_window es n :
  (0 < n)%nat ->
  foldl (fun h e => history_push e h) (history_new n) es
  = mkHistory (drop (length es - n) es) n.
Proof.
  intros Hn. induction es as [|e es IH] using rev_ind; [done|].
  rewrite foldl_app, IH, length_app. unfold history_push. simpl.
  f_equal. rewrite length_drop. destruct (Nat.leb_spec n (length es - (length es - n))).
  - change (tail ?l) with (drop 1 l). rewrite drop_drop, drop_app_le by lia. do 2 f_equal. lia.
  - replace (length es + 1 - n)%nat with 0%nat by lia.
    by replace (length es - n)%nat with 0%nat by lia.
Qed.

(** ** The estimates *)

Section Estimates.
Context `{AlloyGas}.

(** The percentages of a mode are [u64] values. *)
Definition mode_wf (mode : PriorityMode) : Prop :=
  0 <= base_fee_multiplier_percentage (config mode)
  /\ 0 <= priority_fee_multiplier_percentage (config mode).

Definition history_wf (h : BlockHistory) : Prop :=
  Forall (fun e => forall b, base_fee_per_gas e = Some b -> 0 <= b) (entries h).

(** The fee at the percentile of the window, by its rank. *)
Definition percentile_fee (percentile : spec_float) (fees : list Z) (f : Z) : Prop :=
  let idx := percentile_index (length fees) percentile in
  f ∈ fees /\ (length (filter (fun x => (x < f)%Z) fees) <= idx
               < length (filter (fun x => (x <= f)%Z) fees))%nat.

(** The chain monitor estimates a price exactly when its window holds a block
    and the newest one has a base fee.  The price is the base fee and a priority
    fee, each scaled by the percentage of the mode, without wrapping around; the
    priority fee is the one whose rank among the positive fees of the window is
    the percentile of the mode, and never below alloy's minimum. *)
Theorem local_estimate_spec mode h :
  0 <= EIP1559_MIN_PRIORITY_FEE -> mode_wf mode -> history_wf h ->
  match last (entries h) ≫= base_fee_per_gas with
  | None => estimate_gas_price mode h = None
  | Some base_fee => exists fee,
      estimate_gas_price mode h
      = Some (pct base_fee (base_fee_multiplier_percentage (config mode))
              + pct (Z.max fee EIP1559_MIN_PRIORITY_FEE)
                  (priority_fee_multiplier_percentage (config mode)))
      /\ (window_fees h = [] /\ fee = EIP1559_MIN_PRIORITY_FEE
          \/ percentile_fee (priority_fee_percentile (config mode)) (window_fees h) fee)
  end.
Proof.
  intros Hmin [Hb Hp] Hh. unfold estimate_gas_price.
  destruct (last (entries h)) as [latest|] eqn:El; [|done]. simpl.
  destruct (base_fee_per_gas latest) as [base_fee|] eqn:Ef; [|done]. simpl.
  assert (Hbase : 0 <= base_fee).
  { apply last_Some_elem_of in El. unfold history_wf in Hh. rewrite Forall_forall in Hh. by eapply Hh. }
  assert (Hadd : forall f, 0 <= f ->
    wadd 128 (pct base_fee (base_fee_multiplier_percentage (config mode)))
      (pct f (priority_fee_multiplier_percentage (config mode)))
    = pct base_fee (base_fee_multiplier_percentage (config mode))
      + pct f (priority_fee_multiplier_percentage (config mode))).
  { intros f Hf. pose proof (pct_bounds _ _ Hbase Hb). pose proof (pct_bounds _ _ Hf Hp).
    apply wadd_small. fits_lia. }
  destruct (window_fees h) as [|f0 fs] eqn:Ew.
  - exists EIP1559_MIN_PRIORITY_FEE. rewrite Hadd by done. rewrite Z.max_id. by split; [|left].
  - rewrite <- Ew. eexists. rewrite Hadd by lia. split; [done|]. right.
    assert (Hlen : length (stable_sort id (window_fees h)) = length (window_fees h))
      by apply Permutation_length, stable_sort_perm.
    rewrite Hlen. apply stable_sort_rank, percentile_index_lt. rewrite Ew. simpl. lia.
Qed.

End Estimates.

Section NodeEstimates.
Context `{AlloyGas} {W : Type} `{FeeNode W}.

(** The range of what the node answers: unsigned numbers, and a suggested fee
    below half of the type's range. *)
Class NodeInRange : Prop := {
  min_priority_in_range : 0 <= EIP1559_MIN_PRIORITY_FEE;
  history_in_range : forall n p w h w' b,
    get_fee_history n p w = (Ok h, w') -> latest_block_base_fee h = Some b -> 0 <= b;
  latest_in_range : forall w b w', latest_base_fee w = (Ok (Some b), w') -> 0 <= b;
  suggestion_in_range : forall w s w',
    get_max_priority_fee_per_gas w = (Ok s, w') -> 0 <= s < 2 ^ 127
}.

(** An estimate that a transaction can carry: the tip is no more than the limit. *)
Definition valid_estimate (e : Eip1559Estimation) : Prop :=
  0 <= max_priority_fee_per_gas e < 2 ^ 127
  /\ max_priority_fee_per_gas e <= max_fee_per_gas e < 2 ^ 128.

Definition config_wf (c : PriorityModeConfig) : Prop :=
  0 <= base_fee_multiplier_percentage c /\ 0 <= priority_fee_multiplier_percentage c
  /\ 0 <= min_priority_fee_wei c < 2 ^ 127.

Lemma estimate_valid c base_fee rewards :
  0 <= EIP1559_MIN_PRIORITY_FEE -> config_wf c -> 0 <= base_fee ->
  valid_estimate (estimate c base_fee rewards).
Proof.
  intros Hmin (Hb & Hp & _) Hbase. unfold valid_estimate, estimate. simpl.
  assert (Hf : 0 <= estimate_priority_fee rewards).
  { unfold estimate_priority_fee. destruct (filter _ _); lia. }
  pose proof (pct_bounds _ _ Hf Hp). pose proof (pct_bounds _ _ Hbase Hb).
  rewrite wadd_small by fits_lia. lia.
Qed.

(** A fee that is not lowered keeps the estimate valid. *)
Lemma raise_valid c base_fee fee e :
  config_wf c -> 0 <= base_fee -> 0 <= fee < 2 ^ 127 -> valid_estimate e ->
  valid_estimate (raise_priority_fee c base_fee fee e).
Proof.
  intros (Hb & _) Hbase Hfee He. unfold valid_estimate, raise_priority_fee in *. simpl.
  pose proof (pct_bounds _ _ Hbase Hb). rewrite wadd_small by fits_lia. lia.
Qed.

Lemma with_floor_valid c base_fee e :
  config_wf c -> 0 <= base_fee -> valid_estimate e ->
  valid_estimate (with_floor c base_fee e)
  /\ min_priority_fee_wei c <= max_priority_fee_per_gas (with_floor c base_fee e).
Proof.
  intros Hc Hbase He. unfold with_floor.
  destruct (Z.ltb_spec 0 (min_priority_fee_wei c)); simpl;
    [destruct (Z.ltb_spec (max_priority_fee_per_gas e) (min_priority_fee_wei c))|]; simpl.
  - split; [|done]. apply raise_valid; try done. apply Hc.
  - by split.
  - split; [done|]. unfold valid_estimate in He. lia.
Qed.

Context `{NodeInRange}.

(** Every estimate that the filler gets from the node can be carried by a
    transaction: the tip does not exceed the limit, neither wraps around, and the
    tip is at least the floor of the mode. *)
Theorem estimate_fees_valid c w e w' :
  config_wf c -> estimate_eip1559_fees c w = (Ok e, w') ->
  valid_estimate e /\ min_priority_fee_wei c <= max_priority_fee_per_gas e.
Proof.
  intros Hc He. unfold estimate_eip1559_fees in He.
  bind_step He h w1 Eh. bind_step He base_fee w2 Eb.
  assert (Hbase : 0 <= base_fee).
  { unfold history_base_fee in Eb.
    assert (Hlatest : forall wa wb, (latest ← latest_base_fee; liftr (ok_or tt latest)) wa
              = (Ok base_fee, wb) -> 0 <= base_fee).
    { intros wa wb Ha. bind_step Ha l w3 El. destruct l as [b|]; [|done].
      injection Ha as <- <-. by eapply latest_in_range. }
    destruct (latest_block_base_fee h) as [b|] eqn:Ehb; [|by eapply Hlatest].
    destruct (negb (b =? 0)); [|by eapply Hlatest].
    injection Eb as <- <-. by eapply history_in_range. }
  pose proof (estimate_valid c base_fee (default [] (fh_reward h)) min_priority_in_range Hc Hbase) as Hv.
  bind_step He e1 w3 E1. injection He as <- <-. apply with_floor_valid; [done..|].
  destruct (_ <=? 1); [|by injection E1 as <- <-].
  bind_step E1 s w4 Es. injection E1 as <- <-. destruct s as [|s]; [done|].
  unfold with_suggestion. destruct (_ <? s); [|done]. apply raise_valid; [done..| |done].
  unfold catch in Es. destruct (get_max_priority_fee_per_gas w2) as [[s'| |] w5] eqn:Eg; try done.
  injection Es as -> ->. by eapply suggestion_in_range.
Qed.

End NodeEstimates.

(** The monitor's own estimate leaves out the floor of the mode: a limit below
    the tip that the filler will ask for. *)
Lemma local_estimate_ignores_floor `{AlloyGas} :
  EIP1559_MIN_PRIORITY_FEE = 1 ->
  let mode := ModeCustom 200 100 (f64_of_u64 20) 5 1000000000 in
  let h := history_push (mkEntry 7 (Some 100) []) (history_new 10) in
  estimate_gas_price mode h = Some 201
  /\ 201 < min_priority_fee_wei (config mode).
Proof.
  intros Hm mode h. split; [|done]. unfold estimate_gas_price. simpl.
  unfold window_fees. simpl. by rewrite Hm.
Qed.

(** ** Witnesses *)

Definition toy_alloy : AlloyGas := {|
  EIP1559_BASE_FEE_MULTIPLIER := 2;
  EIP1559_MIN_PRIORITY_FEE := 1;
  EIP1559_FEE_ESTIMATION_PAST_BLOCKS := 10;
  EIP1559_FEE_ESTIMATION_REWARD_PERCENTILE := f64_of_u64 20
|}.
#[export] Existing Instance toy_alloy | 100.

(** Twenty-five fees, of which the 30th percentile is the eighth. *)
Definition toy_history : BlockHistory :=
  foldl (fun h n => history_push (mkEntry n (Some 1000) [100; 200; 300; 400; 500]) h)
    (history_new 10) [1; 2; 3; 4; 5].

Lemma local_estimate_spec_witness :
  estimate_gas_price ModeMedium toy_history = Some 2200
  /\ exists fee, Some 2200 = Some (2000 + pct (Z.max fee 1) 100).
Proof.
  assert (He : estimate_gas_price ModeMedium toy_history = Some 2200) by (vm_compute; reflexivity).
  split; [exact He|]. rewrite <- He.
  assert (Hmode : mode_wf ModeMedium) by (split; vm_compute; discriminate).
  assert (Hmin : 0 <= EIP1559_MIN_PRIORITY_FEE) by done.
  assert (Hwf : history_wf toy_history).
  { unfold history_wf. repeat constructor; by intros b [= <-]. }
  pose proof (local_estimate_spec ModeMedium toy_history Hmin Hmode Hwf) as Hs.
  replace (last (entries toy_history) ≫= base_fee_per_gas) with (Some 1000) in Hs
    by (vm_compute; reflexivity).
  destruct Hs as (fee & Hfee & _). exists fee. exact Hfee.
Defined.

(** A quiet chain: no rewards, and a node that suggests three wei. *)
Definition toy_node : FeeNode unit := {|
  get_fee_history := fun _ _ w => (Ok (mkFeeHistory (Some 1000) (Some [[0]; [0]])), w);
  latest_base_fee := fun w => (Ok (Some 1000), w);
  get_max_priority_fee_per_gas := fun w => (Ok 3, w);
  node_gas_price := fun w => (Ok 1000, w);
  gas_filler_prepare := fun estimate w =>
    let (r, w') := estimate w in
    (match r with Ok e => Ok (GfEip1559 21000 e) | Err e => Err e | Panic => Panic end, w');
  confirmed_nonce := fun w => (Ok 4, w);
  pending_nonce := fun w => (Ok 6, w);
  scale_by_pct := fun p e =>
    mkEstimation (max_fee_per_gas e * (100 + p) / 100) (max_priority_fee_per_gas e * (100 + p) / 100)
|}.
#[export] Existing Instance toy_node | 100.

Lemma toy_node_in_range : NodeInRange (W := unit).
Proof.
  split; simpl; [done|..]; intros; simplify_eq/=; done.
Defined.

Definition floored : PriorityModeConfig := config (ModeCustom 200 100 (f64_of_u64 20) 5 50).

Lemma estimate_fees_valid_witness :
  estimate_eip1559_fees floored tt = (Ok (mkEstimation 2050 50), tt)
  /\ valid_estimate (mkEstimation 2050 50).
Proof.
  assert (He : estimate_eip1559_fees floored tt = (Ok (mkEstimation 2050 50), tt))
    by (vm_compute; reflexivity).
  split; [exact He|].
  exact (proj1 (@estimate_fees_valid _ _ _ toy_node_in_range floored tt _ _
                  ltac:(by vm_compute) He)).
Defined.
