(* ===== verification/Market.v ===== *)
(** * Market: the request data model of the SDK

    [crates/boundless-market/src/contracts/mod.rs] and [digest.rs]: request
    ids and their packing into a [U256], proof requests and their validation
    and signature check, predicates and fulfillment data with their wire
    encodings, callbacks, inputs and offers (whose price curve is in the file
    Auction).

    [U256], [U160] and the fixed-width integers are [Z]; an [Address] is the
    160-bit number it packs into; a [FixedBytes<4>] is its big-endian 32-bit
    number; byte strings are lists of [Byte.byte].  Third-party code the crate
    calls (URL parsing, the RISC Zero claim digest, the ABI codec, EIP-712
    hashing and ECDSA) is the class [Externals], and error payloads that come
    from those libraries are dropped from the error types. *)

From S2P Require Import Prelude.
From Stdlib Require Import Strings.Byte.

Local Open Scope Z_scope.

Abbreviation bytes := (list Byte.byte).

#[export] Instance byte_eq_dec : EqDecision Byte.byte := Byte.byte_eq_dec.

(** ** Digests ([digest.rs]) *)

(** A digest is 32 bytes; [digest_wf] is the length the array type enforces. *)
Abbreviation Digest := bytes (only parsing).

Definition digest_wf (d : bytes) : Prop := length d = 32%nat.

(** [TryFrom<&[u8]> for Digest]: the slice must be exactly 32 bytes long. *)
Definition digest_try_from (slice : bytes) : option bytes :=
  if decide (length slice = 32%nat) then Some slice else None.

(** [slice.split_at_checked(32)] of the standard library. *)
Definition split_at_checked (n : nat) (l : bytes) : option (bytes * bytes) :=
  if decide (n <= length l)%nat then Some (take n l, drop n l) else None.

(** ** Status of a request *)

Inductive RequestStatus := StUnknown | StLocked | StFulfilled | StExpired.

#[export] Instance RequestStatus_eq_dec : EqDecision RequestStatus.
Proof. solve_decision. Defined.

(** ** Request ids *)

Module RequestId.

Record t := mk {
  addr : Z;
  index : Z;
  smart_contract_signed : bool
}.

Definition new (addr index : Z) : t := mk addr index false.

Definition set_smart_contract_signed_flag (self : t) : t :=
  mk (addr self) (index self) true.

Definition from_lossy (value : Z) : t :=
  let addr_u256 := Z.shiftr value 32 in
  let addr_u256 := Z.land addr_u256 (wsub 256 (Z.shiftl 1 160) 1) in
  {| addr := addr_u256;
     index := Z.land value (2 ^ 32 - 1);
     smart_contract_signed := negb (Z.land value (Z.shiftl 1 192) =? 0) |}.

(** [From<RequestId> for U256]. *)
Definition into_u256 (value : t) : Z :=
  let smart_contract_signed_flag := if smart_contract_signed value then 1 else 0 in
  Z.lor (Z.lor (wrap 256 (Z.shiftl smart_contract_signed_flag 192))
               (wrap 256 (Z.shiftl (addr value) 32)))
        (index value).

Definition u256 (addr index : Z) : Z := into_u256 (new addr index).

(** What the Rust field types enforce. *)
Definition wf (r : t) : Prop := fits 160 (addr r) /\ fits 32 (index r).

End RequestId.

(** ** Request components *)

Inductive PredicateError := PredDataMalformed | PredInvalidType.

Inductive RequestError :=
| MalformedRequestId
| ClientAddrIsZero
| SignatureError
| SignatureNonCanonicalError
| EmptyImageUrl
| MalformedImageUrl
| ImageIdIsZero
| OfferTimeoutIsZero
| OfferLockTimeoutIsZero
| OfferRampUpGreaterThanLockTimeout
| OfferLockTimeoutGreaterThanTimeout
| OfferTimeoutRangeTooLarge
| OfferMaxPriceIsZero
| OfferMaxPriceIsLessThanMin
| OfferRampUpStartIsZero
| MissingRequirements
| MissingImageUrl
| MissingInput
| MissingOffer
| MissingRequestId
| DigestMismatch
| RequestPredicateError (e : PredicateError).

(** [TryFrom<U256> for RequestId]: bits above the flag are refused. *)
Definition request_id_try_from (value : Z) : result RequestError RequestId.t :=
  if negb (Z.shiftr value 193 =? 0) then Err MalformedRequestId
  else Ok (RequestId.from_lossy value).

Inductive PredicateType := PtDigestMatch | PtPrefixMatch | PtClaimDigestMatch | PtInvalid.

#[export] Instance PredicateType_eq_dec : EqDecision PredicateType.
Proof. solve_decision. Defined.

(** The wire form of a predicate, [RequestPredicate]. *)
Record RequestPredicate := mkRequestPredicate {
  predicateType : PredicateType;
  predicateData : bytes
}.

Record Callback := mkCallback { cbAddr : Z; gasLimit : Z }.

Inductive RequestInputType := InputInline | InputUrl | InputInvalid.

Record RequestInput := mkRequestInput { inputType : RequestInputType; inputData : bytes }.

Record Requirements := mkRequirements {
  predicate : RequestPredicate;
  callback : Callback;
  selector : Z
}.

Record Offer := mkOffer {
  minPrice : Z;
  maxPrice : Z;
  rampUpStart : Z;
  rampUpPeriod : Z;
  lockTimeout : Z;
  timeout : Z;
  lockCollateral : Z
}.

(** What the Solidity field types of an offer enforce. *)
Record offer_wf (o : Offer) : Prop := mk_offer_wf {
  wf_minPrice : fits 256 (minPrice o);
  wf_maxPrice : fits 256 (maxPrice o);
  wf_rampUpStart : fits 64 (rampUpStart o);
  wf_rampUpPeriod : fits 32 (rampUpPeriod o);
  wf_lockTimeout : fits 32 (lockTimeout o);
  wf_timeout : fits 32 (timeout o);
  wf_lockCollateral : fits 256 (lockCollateral o)
}.

Record ProofRequest := mkProofRequest {
  reqId : Z;
  requirements : Requirements;
  imageUrl : string;
  input : RequestInput;
  offer : Offer
}.

Record EIP712DomainSaltless := mkDomain {
  domName : string;
  domVersion : string;
  domChainId : Z;
  verifyingContract : Z
}.

(** ** Predicates and fulfillment data *)

Inductive Predicate :=
| DigestMatch (image_id journal_digest : bytes)
| PrefixMatch (image_id journal_prefix : bytes)
| ClaimDigestMatch (claim_digest : bytes).

(** The lengths of the digests inside a predicate. *)
Definition predicate_wf (p : Predicate) : Prop :=
  match p with
  | DigestMatch image_id journal_digest => digest_wf image_id /\ digest_wf journal_digest
  | PrefixMatch image_id _ => digest_wf image_id
  | ClaimDigestMatch claim_digest => digest_wf claim_digest
  end.

Inductive FulfillmentData :=
| FdNone
| FdImageIdAndJournal (image_id journal : bytes).

Inductive FulfillmentDataType := FdtNone | FdtImageIdAndJournal | FdtInvalid.

Inductive FulfillmentDataError := FdMalformed | FdInvalidType.

(** [From<Predicate> for RequestPredicate]. *)
Definition predicate_into (value : Predicate) : RequestPredicate :=
  match value with
  | DigestMatch image_id journal_digest =>
      mkRequestPredicate PtDigestMatch (image_id ++ journal_digest)
  | PrefixMatch image_id journal_prefix =>
      mkRequestPredicate PtPrefixMatch (image_id ++ journal_prefix)
  | ClaimDigestMatch claim_digest =>
      mkRequestPredicate PtClaimDigestMatch claim_digest
  end.

(** [TryFrom<RequestPredicate> for Predicate]. *)
Definition predicate_try_from (value : RequestPredicate) : result PredicateError Predicate :=
  match predicateType value with
  | PtDigestMatch =>
      '(image_id, journal_digest) ←
        ok_or PredDataMalformed (split_at_checked 32 (predicateData value));
      image_id ← ok_or PredDataMalformed (digest_try_from image_id);
      journal_digest ← ok_or PredDataMalformed (digest_try_from journal_digest);
      mret (DigestMatch image_id journal_digest)
  | PtPrefixMatch =>
      '(image_id, journal_prefix) ←
        ok_or PredDataMalformed (split_at_checked 32 (predicateData value));
      image_id ← ok_or PredDataMalformed (digest_try_from image_id);
      mret (PrefixMatch image_id journal_prefix)
  | PtClaimDigestMatch =>
      claim_digest ← ok_or PredDataMalformed (digest_try_from (predicateData value));
      mret (ClaimDigestMatch claim_digest)
  | PtInvalid => Err PredInvalidType
  end.

(** [Predicate::image_id]. *)
Definition predicate_image_id (self : Predicate) : option bytes :=
  match self with
  | DigestMatch image_id _ => Some image_id
  | PrefixMatch image_id _ => Some image_id
  | ClaimDigestMatch _ => None
  end.

(** [FulfillmentData::journal] and [FulfillmentData::image_id]. *)
Definition fd_journal (self : FulfillmentData) : option bytes :=
  match self with FdNone => None | FdImageIdAndJournal _ journal => Some journal end.
Definition fd_image_id (self : FulfillmentData) : option bytes :=
  match self with FdNone => None | FdImageIdAndJournal image_id _ => Some image_id end.

(** ** Third-party functions *)

Class Externals := {
  (** [Url::parse] succeeds. *)
  url_parse : string -> bool;
  (** [ReceiptClaim::ok(image_id, journal).digest()] with the journal given. *)
  receipt_claim_digest : bytes -> bytes -> bytes;
  (** The same claim built from a pruned journal digest. *)
  receipt_claim_digest_pruned : bytes -> bytes -> bytes;
  (** [FulfillmentDataImageIdAndJournal::abi_encode] and [abi_decode]. *)
  abi_encode_fd : bytes * bytes -> bytes;
  abi_decode_fd : bytes -> option (bytes * bytes);
  (** [Keccak256] over the concatenated updates. *)
  keccak256 : bytes -> bytes;
  (** [eip712_signing_hash]. *)
  eip712_signing_hash : EIP712DomainSaltless -> ProofRequest -> bytes;
  (** [Signature::try_from(bytes)], [normalize_s().is_some()] and
      [recover_address_from_prehash]. *)
  sig_parse : bytes -> option Z;
  sig_noncanonical : Z -> bool;
  sig_recover : Z -> bytes -> option Z
}.

(** Documented behaviour of the two ways to build a claim: pruning replaces
    the journal by its digest and keeps the claim's digest. *)
Class ClaimPruning `{Externals} := {
  sha256_journal : bytes -> bytes;
  pruned_claim_digest : forall image_id journal,
    receipt_claim_digest image_id journal
    = receipt_claim_digest_pruned image_id (sha256_journal journal)
}.

(** ** Requests *)

Section Requests.
Context `{Externals}.

Definition eip712_domain (addr chain_id : Z) : EIP712DomainSaltless :=
  mkDomain "IBoundlessMarket" "1" chain_id addr.

Definition client_address (r : ProofRequest) : Z :=
  RequestId.addr (RequestId.from_lossy (reqId r)).

Definition is_smart_contract_signed (r : ProofRequest) : bool :=
  RequestId.smart_contract_signed (RequestId.from_lossy (reqId r)).

Definition expires_at (r : ProofRequest) : Z :=
  wadd 64 (rampUpStart (offer r)) (timeout (offer r)).

Definition lock_expires_at (r : ProofRequest) : Z :=
  wadd 64 (rampUpStart (offer r)) (lockTimeout (offer r)).

(** [now] is the reading of the system clock. *)
Definition is_expired (now : Z) (r : ProofRequest) : bool := expires_at r <? now.
Definition is_lock_expired (now : Z) (r : ProofRequest) : bool := lock_expires_at r <? now.

Definition validate (r : ProofRequest) : result RequestError unit :=
  if RequestId.addr (RequestId.from_lossy (reqId r)) =? 0 then Err ClientAddrIsZero else
  if bool_decide (imageUrl r = ""%string) then Err EmptyImageUrl else
  if negb (url_parse (imageUrl r)) then Err MalformedImageUrl else
  _ ← map_err RequestPredicateError (predicate_try_from (predicate (requirements r)));
  let o := offer r in
  if timeout o =? 0 then Err OfferTimeoutIsZero else
  if lockTimeout o =? 0 then Err OfferLockTimeoutIsZero else
  if lockTimeout o <? rampUpPeriod o then Err OfferRampUpGreaterThanLockTimeout else
  if timeout o <? lockTimeout o then Err OfferLockTimeoutGreaterThanTimeout else
  if Z.shiftl 1 24 <=? wsub 32 (timeout o) (lockTimeout o) then Err OfferTimeoutRangeTooLarge else
  if maxPrice o =? 0 then Err OfferMaxPriceIsZero else
  if maxPrice o <? minPrice o then Err OfferMaxPriceIsLessThanMin else
  if rampUpStart o =? 0 then Err OfferRampUpStartIsZero else
  Ok tt.

Definition signing_hash (r : ProofRequest) (contract_addr chain_id : Z)
    : result RequestError bytes :=
  Ok (eip712_signing_hash (eip712_domain contract_addr chain_id) r).

Definition verify_signature (r : ProofRequest) (signature : bytes)
    (contract_addr chain_id : Z) : result RequestError unit :=
  sig ← ok_or SignatureError (sig_parse signature);
  if sig_noncanonical sig then Err SignatureNonCanonicalError else
  hash ← signing_hash r contract_addr chain_id;
  addr ← ok_or SignatureError (sig_recover sig hash);
  if addr =? client_address r then Ok tt else Err SignatureError.

(** [Predicate::eval]: the claim digest when the data satisfies the
    predicate. *)
Definition predicate_eval (self : Predicate) (fulfillment_data : FulfillmentData)
    : option bytes :=
  let claim_digest_data :=
    match fulfillment_data with
    | FdNone => None
    | FdImageIdAndJournal image_id journal => Some (receipt_claim_digest image_id journal)
    end in
  (* [None] is an early return; [Some c] is the value of the match *)
  let claim_digest_predicate :=
    match self with
    | DigestMatch image_id journal_digest =>
        match fulfillment_data with
        | FdImageIdAndJournal _ _ =>
            Some (Some (receipt_claim_digest_pruned image_id journal_digest))
        | FdNone => None
        end
    | PrefixMatch image_id prefix =>
        match fulfillment_data with
        | FdImageIdAndJournal fill_image_id fill_journal =>
            if bool_decide (fill_image_id = image_id)
               && bool_decide (prefix `prefix_of` fill_journal)
            then Some None else None
        | FdNone => None
        end
    | ClaimDigestMatch claim_digest => Some (Some claim_digest)
    end in
  match claim_digest_predicate with
  | None => None
  | Some claim_digest_predicate =>
      match claim_digest_predicate, claim_digest_data with
      | Some p, Some d => if bool_decide (p <> d) then None else Some d
      | _, Some d => Some d
      | p, None => p
      end
  end.

(** [FulfillmentData::fulfillment_type_and_data]. *)
Definition fulfillment_type_and_data (self : FulfillmentData) : FulfillmentDataType * bytes :=
  match self with
  | FdNone => (FdtNone, [])
  | FdImageIdAndJournal image_id journal =>
      (FdtImageIdAndJournal, abi_encode_fd (image_id, journal))
  end.

(** [FulfillmentData::decode_with_type]. *)
Definition decode_with_type (fill_type : FulfillmentDataType) (data : bytes)
    : result FulfillmentDataError FulfillmentData :=
  match fill_type with
  | FdtNone => if negb (bool_decide (data = [])) then Err FdMalformed else Ok FdNone
  | FdtImageIdAndJournal =>
      '(image_id, journal) ← ok_or FdMalformed (abi_decode_fd data);
      mret (FdImageIdAndJournal image_id journal)
  | FdtInvalid => Err FdInvalidType
  end.

(** [FulfillmentData::fulfillment_data_digest]. *)
Definition fulfillment_data_digest (self : FulfillmentData)
    : result FulfillmentDataError bytes :=
  match self with
  | FdNone => Ok (keccak256 [x00])
  | FdImageIdAndJournal image_id journal =>
      Ok (keccak256 ([x01] ++ abi_encode_fd (image_id, journal)))
  end.

End Requests.

(** ** Builders *)

Definition UNSPECIFIED_SELECTOR : Z := 0.

Definition callback_NONE : Callback := mkCallback 0 0.

Definition callback_is_none (self : Callback) : bool := cbAddr self =? 0.

Definition callback_as_option (self : Callback) : option Callback :=
  if negb (callback_is_none self) then Some self else None.

Definition callback_from_option (opt : option Callback) : Callback :=
  default callback_NONE opt.

Definition requirements_new (p : RequestPredicate) : Requirements :=
  mkRequirements p callback_NONE UNSPECIFIED_SELECTOR.

Definition with_predicate (self : Requirements) (p : RequestPredicate) : Requirements :=
  mkRequirements p (callback self) (selector self).
Definition with_callback (self : Requirements) (c : Callback) : Requirements :=
  mkRequirements (predicate self) c (selector self).
Definition with_selector (self : Requirements) (s : Z) : Requirements :=
  mkRequirements (predicate self) (callback self) s.

Definition proof_request_new (request_id : RequestId.t) (rq : Requirements)
    (image_url : string) (inp : RequestInput) (o : Offer) : ProofRequest :=
  mkProofRequest (RequestId.into_u256 request_id) rq image_url inp o.

(** ** Request ids: packing *)

Lemma into_u256_arith r :
  RequestId.wf r ->
  RequestId.into_u256 r =
    Z.b2z (RequestId.smart_contract_signed r) * 2 ^ 192
    + RequestId.addr r * 2 ^ 32 + RequestId.index r.
Proof.
  destruct r as [a i f]. intros [Ha Hi]. unfold RequestId.into_u256. simpl in *.
  assert (fits 256 (Z.shiftl a 32) /\ fits 192 (Z.shiftl a 32)) as [Hs Hs'].
  { rewrite Z.shiftl_mul_pow2 by lia. unfold fits in *. lia. }
  rewrite (wrap_small 256 (Z.shiftl a 32)) by done.
  assert ((if f then 1 else 0) = Z.b2z f) as -> by by destruct f.
  rewrite (wrap_small 256 (Z.shiftl (Z.b2z f) 192)) by (rewrite Z.shiftl_mul_pow2 by lia; destruct f; simpl Z.b2z; fits_lia).
  rewrite lor_shiftl_low by (done || lia).
  rewrite Z.shiftl_mul_pow2 by lia.
  replace (Z.b2z f * 2 ^ 192 + a * 2 ^ 32) with (Z.shiftl (Z.b2z f * 2 ^ 160 + a) 32)
    by (rewrite Z.shiftl_mul_pow2 by lia; change (2 ^ 192) with (2 ^ 160 * 2 ^ 32); ring).
  rewrite lor_shiftl_low by (done || lia). by rewrite Z.shiftl_mul_pow2.
Qed.

Lemma from_lossy_arith v :
  RequestId.from_lossy v =
    {| RequestId.addr := (v / 2 ^ 32) mod 2 ^ 160;
       RequestId.index := v mod 2 ^ 32;
       RequestId.smart_contract_signed := Z.odd (v / 2 ^ 192) |}.
Proof.
  unfold RequestId.from_lossy. f_equal.
  - rewrite Z.shiftr_div_pow2 by lia.
    replace (wsub 256 (Z.shiftl 1 160) 1) with (Z.ones 160) by done.
    by rewrite Z.land_ones.
  - replace (2 ^ 32 - 1) with (Z.ones 32) by done. by rewrite Z.land_ones.
  - rewrite land_pow2_eqb by lia.
    by rewrite Z.testbit_odd, Z.shiftr_div_pow2 by lia.
Qed.

Lemma from_lossy_wf v : RequestId.wf (RequestId.from_lossy v).
Proof.
  rewrite from_lossy_arith. split; simpl; unfold fits; by apply Z.mod_pos_bound.
Qed.

Lemma into_u256_bound r : RequestId.wf r -> fits 193 (RequestId.into_u256 r).
Proof.
  intros Hr. rewrite into_u256_arith by done. destruct r as [a i f], Hr.
  destruct f; simpl in *; fits_lia.
Qed.

Lemma from_lossy_into_u256 r :
  RequestId.wf r -> RequestId.from_lossy (RequestId.into_u256 r) = r.
Proof.
  intros Hr. rewrite from_lossy_arith, into_u256_arith by done.
  destruct r as [a i f], Hr as [Ha Hi]; simpl in *. unfold fits in *.
  assert (forall k, (k * 2 ^ 192 + a * 2 ^ 32 + i) / 2 ^ 32 = k * 2 ^ 160 + a) as Hd.
  { intros k. symmetry. apply (Z.div_unique _ _ _ i); [left; lia|lia]. }
  f_equal.
  - rewrite Hd. symmetry. apply (Z.mod_unique _ _ (Z.b2z f)); [left; lia|lia].
  - symmetry. apply (Z.mod_unique _ _ (Z.b2z f * 2 ^ 160 + a)); [left; lia|lia].
  - replace ((Z.b2z f * 2 ^ 192 + a * 2 ^ 32 + i) / 2 ^ 192) with (Z.b2z f).
    + by destruct f.
    + apply (Z.div_unique _ _ _ (a * 2 ^ 32 + i)); [left; lia|lia].
Qed.

(** The packing is a bijection between well-formed request ids and the
    [U256] values below [2^193]. *)
Theorem request_id_roundtrip r v :
  RequestId.wf r -> fits 256 v ->
  request_id_try_from (RequestId.into_u256 r) = Ok r
  /\ (request_id_try_from v = Ok r <-> RequestId.into_u256 r = v).
Proof.
  intros Hr Hv.
  assert (Hround : request_id_try_from (RequestId.into_u256 r) = Ok r).
  { unfold request_id_try_from. rewrite from_lossy_into_u256 by done.
    pose proof (into_u256_bound r Hr) as Hb.
    rewrite Z.shiftr_div_pow2, Z.div_small by (lia || exact Hb). done. }
  split; [done|]. split; [|by intros <-].
  unfold request_id_try_from. rewrite Z.shiftr_div_pow2 by lia.
  destruct (Z.eqb_spec (v / 2 ^ 193) 0) as [Hz|]; [simpl|done].
  intros [= Hf]. apply Z.div_small_iff in Hz; [|lia].
  assert (Hv' : 0 <= v < 2 ^ 193) by (unfold fits in Hv; lia).
  rewrite into_u256_arith by done. subst r. rewrite from_lossy_arith; simpl.
  replace (Z.b2z (Z.odd (v / 2 ^ 192))) with (v / 2 ^ 192).
  - Z.div_mod_to_equations. lia.
  - assert (v / 2 ^ 192 = 0 \/ v / 2 ^ 192 = 1) as [-> | ->]; [|done..].
    Z.div_mod_to_equations. lia.
Qed.

(** ** Predicates: wire encoding and evaluation *)

Lemma digest_try_from_Some l d : digest_try_from l = Some d <-> d = l /\ digest_wf d.
Proof. unfold digest_try_from, digest_wf. case_decide; split; [by intros [= <-]|by intros [-> _]|done|by intros [-> ?]]. Qed.

Lemma ok_or_Ok {E A} (e : E) (o : option A) a : ok_or e o = Ok a <-> o = Some a.
Proof. destruct o; simpl; naive_solver. Qed.

Lemma split_at_checked_app (l1 l2 : bytes) :
  digest_wf l1 -> split_at_checked 32 (l1 ++ l2) = Some (l1, l2).
Proof.
  unfold digest_wf, split_at_checked. intros Hl.
  rewrite decide_True by (rewrite length_app; lia).
  by rewrite take_app_length', drop_app_length' by lia.
Qed.

Lemma split_at_checked_Some (l l1 l2 : bytes) :
  split_at_checked 32 l = Some (l1, l2) -> l = l1 ++ l2 /\ digest_wf l1.
Proof.
  unfold split_at_checked, digest_wf. case_decide; [|done]. intros [= <- <-].
  rewrite take_drop, length_take. split; [done|lia].
Qed.

Lemma digest_try_from_wf d : digest_wf d -> digest_try_from d = Some d.
Proof. intros. by apply digest_try_from_Some. Qed.

Lemma predicate_decode_encode p :
  predicate_wf p -> predicate_try_from (predicate_into p) = Ok p.
Proof.
  destruct p as [i j|i j|c]; simpl; intros Hwf; unfold predicate_try_from; simpl.
  - destruct Hwf. rewrite split_at_checked_app by done. simpl.
    by rewrite !digest_try_from_wf.
  - rewrite split_at_checked_app by done. simpl. by rewrite digest_try_from_wf.
  - by rewrite digest_try_from_wf.
Qed.

Lemma predicate_encode_decode q p :
  predicate_try_from q = Ok p -> predicate_wf p /\ predicate_into p = q.
Proof.
  destruct q as [ty data]. unfold predicate_try_from. simpl. destruct ty; simpl.
  - destruct (split_at_checked 32 data) as [[l1 l2]|] eqn:Hs; [|done]. simpl.
    apply split_at_checked_Some in Hs as [-> Hl]. rewrite (digest_try_from_wf l1) by done. simpl.
    destruct (digest_try_from l2) eqn:H2; [|done]. simpl. intros [= <-].
    apply digest_try_from_Some in H2 as [-> ?]. done.
  - destruct (split_at_checked 32 data) as [[l1 l2]|] eqn:Hs; [|done]. simpl.
    apply split_at_checked_Some in Hs as [-> Hl]. rewrite (digest_try_from_wf l1) by done. simpl.
    by intros [= <-].
  - destruct (digest_try_from data) eqn:Hd; [|done]. intros [= <-].
    by apply digest_try_from_Some in Hd as [-> ?].
  - done.
Qed.

(** A request predicate decodes to [p] exactly when it is the encoding of the
    well-formed predicate [p]: decoding is total on encodings, and accepts
    nothing else. *)
Theorem predicate_wire_roundtrip q p :
  predicate_try_from q = Ok p <-> predicate_wf p /\ predicate_into p = q.
Proof.
  split; [apply predicate_encode_decode|].
  intros [Hwf <-]. by apply predicate_decode_encode.
Qed.

(** What a predicate asks of the delivered data and of the claim [d]. *)
Definition satisfies `{Externals} (p : Predicate) (data : FulfillmentData) (d : bytes) : Prop :=
  match p with
  | DigestMatch image_id journal_digest =>
      exists fill_image_id journal,
        data = FdImageIdAndJournal fill_image_id journal
        /\ d = receipt_claim_digest fill_image_id journal
        /\ d = receipt_claim_digest_pruned image_id journal_digest
  | PrefixMatch image_id prefix =>
      exists journal,
        data = FdImageIdAndJournal image_id journal
        /\ prefix `prefix_of` journal
        /\ d = receipt_claim_digest image_id journal
  | ClaimDigestMatch claim_digest =>
      d = claim_digest
      /\ forall image_id journal, data = FdImageIdAndJournal image_id journal ->
           receipt_claim_digest image_id journal = claim_digest
  end.

(** [Predicate::eval] returns a claim digest exactly when the delivered data
    satisfies the predicate for that claim. *)
Theorem predicate_eval_spec `{Externals} p data d :
  predicate_eval p data = Some d <-> satisfies p data d.
Proof.
  unfold predicate_eval, satisfies.
  destruct p as [i j|i pre|c], data as [|fi fj]; simpl.
  - naive_solver.
  - case_bool_decide; naive_solver.
  - naive_solver.
  - destruct (bool_decide (fi = i)) eqn:E1, (bool_decide (pre `prefix_of` fj)) eqn:E2;
      simpl; (apply bool_decide_eq_true in E1 || apply bool_decide_eq_false in E1);
      (apply bool_decide_eq_true in E2 || apply bool_decide_eq_false in E2); naive_solver.
  - naive_solver.
  - case_bool_decide; naive_solver.
Qed.

(** With the claim digest free of collisions, a digest-match predicate accepts
    exactly its own image and a journal with the digest it names. *)
Lemma digest_match_exact `{ClaimPruning} image_id journal_digest fi fj d :
  (forall a b a' b', receipt_claim_digest_pruned a b = receipt_claim_digest_pruned a' b' ->
     a = a' /\ b = b') ->
  predicate_eval (DigestMatch image_id journal_digest) (FdImageIdAndJournal fi fj) = Some d ->
  fi = image_id /\ sha256_journal fj = journal_digest.
Proof.
  intros Hinj. unfold predicate_eval. simpl. case_bool_decide as Heq; [done|].
  intros _. rewrite pruned_claim_digest in Heq.
  apply Hinj in Heq. naive_solver.
Qed.

(** Documented behaviour of the ABI codec of the fulfillment data struct. *)
Class AbiCodec `{Externals} :=
  abi_decode_encode : forall x, abi_decode_fd (abi_encode_fd x) = Some x.

(** Fulfillment data survives its wire encoding. *)
Lemma fulfillment_data_roundtrip `{AbiCodec} (d : FulfillmentData) :
  decode_with_type (fulfillment_type_and_data d).1 (fulfillment_type_and_data d).2 = Ok d.
Proof.
  destruct d as [|i j]; simpl; [done|].
  by rewrite abi_decode_encode.
Qed.

(** ** Validation *)

(** What [validate] checks of an offer. *)
Record offer_valid (o : Offer) : Prop := mk_offer_valid {
  ov_timeout : timeout o <> 0;
  ov_lock : lockTimeout o <> 0;
  ov_ramp : rampUpPeriod o <= lockTimeout o;
  ov_order : lockTimeout o <= timeout o;
  ov_range : timeout o - lockTimeout o < 2 ^ 24;
  ov_max : maxPrice o <> 0;
  ov_prices : minPrice o <= maxPrice o;
  ov_start : rampUpStart o <> 0
}.

Lemma timeouts_wsub o :
  offer_wf o -> lockTimeout o <= timeout o ->
  wsub 32 (timeout o) (lockTimeout o) = timeout o - lockTimeout o.
Proof. intros [] ?. apply wsub_small. fits_lia. Qed.

(** [validate] accepts a request with a well-formed offer exactly when the
    client address is non-zero, the image URL parses, the predicate decodes
    and the offer's prices and windows are consistent. *)
Theorem validate_ok_iff `{Externals} r :
  offer_wf (offer r) ->
  validate r = Ok tt <->
    client_address r <> 0 /\ imageUrl r <> ""%string /\ url_parse (imageUrl r) = true
    /\ (exists p, predicate_wf p /\ predicate_into p = predicate (requirements r))
    /\ offer_valid (offer r).
Proof.
  intros Hwf. unfold validate, client_address.
  destruct (Z.eqb_spec (RequestId.addr (RequestId.from_lossy (reqId r))) 0); [naive_solver|].
  case_bool_decide; [naive_solver|].
  destruct (url_parse (imageUrl r)); simpl; [|naive_solver].
  destruct (predicate_try_from (predicate (requirements r))) as [p|e|] eqn:Hp; simpl.
  - apply predicate_encode_decode in Hp.
    transitivity (offer_valid (offer r)); [|naive_solver].
    split.
    + intros Hv. repeat bcase_in Hv; try done.
      rewrite timeouts_wsub in * by done. constructor; (lia || done).
    + intros []. rewrite timeouts_wsub by done.
      change (Z.shiftl 1 24) with (2 ^ 24).
      repeat bcase; (done || lia).
  - split; [done|]. intros (_ & _ & _ & (p & Hpw & Hpe) & _).
    rewrite <- Hpe, predicate_decode_encode in Hp; done.
  - split; [done|]. intros (_ & _ & _ & (p & Hpw & Hpe) & _).
    rewrite <- Hpe, predicate_decode_encode in Hp; done.
Qed.

(** ** Witnesses *)

(** Simple third-party functions to evaluate the definitions with: the codec
    marks the bytes of the image id with [x01] and its end with [x00]. *)
Definition toy_encode (x : bytes * bytes) : bytes :=
  foldr (fun b acc => x01 :: b :: acc) (x00 :: x.2) x.1.

Fixpoint toy_decode (l : bytes) : option (bytes * bytes) :=
  match l with
  | x00 :: rest => Some ([], rest)
  | x01 :: b :: rest => '(i, j) ← toy_decode rest; Some (b :: i, j)
  | _ => None
  end.

Definition toy_externals : Externals := {|
  url_parse := fun s => bool_decide (s <> ""%string);
  receipt_claim_digest := fun i j => i ++ take 1 j;
  receipt_claim_digest_pruned := fun i d => i ++ d;
  abi_encode_fd := toy_encode;
  abi_decode_fd := toy_decode;
  keccak256 := fun l => take 32 (l ++ repeat x00 32);
  eip712_signing_hash := fun _ _ => [];
  sig_parse := fun _ => Some 0;
  sig_noncanonical := fun _ => false;
  sig_recover := fun s _ => Some s
|}.

Lemma toy_codec : @AbiCodec toy_externals.
Proof.
  intros [i j]. change (toy_decode (toy_encode (i, j)) = Some (i, j)).
  unfold toy_encode. simpl. induction i as [|b i IH]; simpl; [done|].
  by rewrite IH.
Qed.

Definition sample_request : ProofRequest :=
  mkProofRequest (RequestId.u256 77 3)
    (requirements_new (predicate_into (PrefixMatch (repeat x01 32) [x02])))
    "https://host/image" (mkRequestInput InputInline [])
    (mkOffer 100 1100 1000 50 60 90 7).

Lemma request_id_roundtrip_witness :
  RequestId.wf (RequestId.mk 77 3 true)
  /\ request_id_try_from (2 ^ 192 + 77 * 2 ^ 32 + 3) = Ok (RequestId.mk 77 3 true).
Proof.
  split; [by vm_compute|].
  by apply (request_id_roundtrip (RequestId.mk 77 3 true) (2 ^ 192 + 77 * 2 ^ 32 + 3));
    vm_compute.
Defined.

Lemma validate_ok_iff_witness :
  @validate toy_externals sample_request = Ok tt /\ offer_valid (offer sample_request).
Proof.
  split; [by vm_compute|].
  apply (@validate_ok_iff toy_externals sample_request); [|by vm_compute].
  by constructor; vm_compute.
Defined.
