(* ===== verification/Auction.v ===== *)
(** * Auction: the price curve of an offer

    [crates/boundless-market/src/contracts/pricing.rs] and the [Offer]
    methods of [contracts/boundless_market.rs] and [contracts/mod.rs]: the
    price at a time, the time at a price, the two deadlines, the collateral
    reward and the builders.

    The theorems relate the two directions of the curve: the price stays
    between the offer's bounds and never falls before the lock deadline, and
    [time_at_price] is the earliest time at which the price is reached. *)

From S2P Require Import Prelude Market.

Local Open Scope Z_scope.

(** ** The code *)

(** [pricing::price_at_time]. *)
Definition price_at_time (min_price max_price ramp_up_start ramp_up_period lock_timeout
    timestamp : Z) : Z :=
  if timestamp <=? ramp_up_start then min_price else
  let lock_deadline := wadd 64 ramp_up_start lock_timeout in
  if lock_deadline <? timestamp then 0 else
  let ramp_up_end := wadd 64 ramp_up_start ramp_up_period in
  if timestamp <=? ramp_up_end then
    if ramp_up_period =? 0 then min_price else
    let rise := wsub 256 max_price min_price in
    let run := ramp_up_period in
    let delta := wsub 64 timestamp ramp_up_start in
    wadd 256 min_price (wmul 256 delta rise / run)
  else max_price.

Inductive MarketError :=
| PriceExceedsMax
| DeltaTooLarge.

(** [Offer::time_at_price]. *)
Definition time_at_price (self : Offer) (price : Z) : result MarketError Z :=
  let max_price := maxPrice self in
  let min_price := minPrice self in
  if max_price <? price then Err PriceExceedsMax else
  if price <=? min_price then Ok 0 else
  let rise := wsub 256 max_price min_price in
  let run := rampUpPeriod self in
  delta ← checked_div_ceil (wmul 256 (wsub 256 price min_price) run) rise;
  if 2 ^ 64 <=? delta then Err DeltaTooLarge else
  Ok (wadd 64 (rampUpStart self) delta).

(** [Offer::price_at]. *)
Definition price_at (self : Offer) (timestamp : Z) : result MarketError Z :=
  Ok (price_at_time (minPrice self) (maxPrice self) (rampUpStart self)
        (rampUpPeriod self) (lockTimeout self) timestamp).

Definition deadline (self : Offer) : Z := wadd 64 (rampUpStart self) (timeout self).

Definition lock_deadline (self : Offer) : Z := wadd 64 (rampUpStart self) (lockTimeout self).

Definition FRACTION_STAKE_NUMERATOR : Z := 1.
Definition FRACTION_STAKE_DENOMINATOR : Z := 2.

(** [Offer::collateral_reward_if_locked_and_not_fulfilled]: both steps are
    checked and unwrapped. *)
Definition collateral_reward_if_locked_and_not_fulfilled {E} (self : Offer) : result E Z :=
  let product := lockCollateral self * FRACTION_STAKE_NUMERATOR in
  if 2 ^ 256 <=? product then Panic else
  checked_quot product FRACTION_STAKE_DENOMINATOR.

(** The builders of [impl Offer]. *)
Definition with_min_price (self : Offer) (v : Z) : Offer :=
  mkOffer v (maxPrice self) (rampUpStart self) (rampUpPeriod self) (lockTimeout self)
    (timeout self) (lockCollateral self).
Definition with_max_price (self : Offer) (v : Z) : Offer :=
  mkOffer (minPrice self) v (rampUpStart self) (rampUpPeriod self) (lockTimeout self)
    (timeout self) (lockCollateral self).
Definition with_lock_collateral (self : Offer) (v : Z) : Offer :=
  mkOffer (minPrice self) (maxPrice self) (rampUpStart self) (rampUpPeriod self)
    (lockTimeout self) (timeout self) v.
Definition with_ramp_up_start (self : Offer) (v : Z) : Offer :=
  mkOffer (minPrice self) (maxPrice self) v (rampUpPeriod self) (lockTimeout self)
    (timeout self) (lockCollateral self).
Definition with_timeout (self : Offer) (v : Z) : Offer :=
  mkOffer (minPrice self) (maxPrice self) (rampUpStart self) (rampUpPeriod self)
    (lockTimeout self) v (lockCollateral self).
Definition with_lock_timeout (self : Offer) (v : Z) : Offer :=
  mkOffer (minPrice self) (maxPrice self) (rampUpStart self) (rampUpPeriod self) v
    (timeout self) (lockCollateral self).
Definition with_ramp_up_period (self : Offer) (v : Z) : Offer :=
  mkOffer (minPrice self) (maxPrice self) (rampUpStart self) v (lockTimeout self)
    (timeout self) (lockCollateral self).
Definition with_min_price_per_mcycle (self : Offer) (mcycle_price mcycle : Z) : Offer :=
  with_min_price self (wmul 256 mcycle_price mcycle).
Definition with_max_price_per_mcycle (self : Offer) (mcycle_price mcycle : Z) : Offer :=
  with_max_price self (wmul 256 mcycle_price mcycle).
Definition with_lock_collateral_per_mcycle (self : Offer) (mcycle_price mcycle : Z) : Offer :=
  with_lock_collateral self (wmul 256 mcycle_price mcycle).

(** ** Offers without overflow

    [validate] bounds neither the start of the ramp nor the prices; an offer
    is [auction_ok] when, besides being valid, its deadlines fit in 64 bits and
    the interpolation product in 256. *)

Record auction_ok (o : Offer) : Prop := mk_auction_ok {
  ao_wf : offer_wf o;
  ao_valid : offer_valid o;
  ao_deadline : rampUpStart o + timeout o < 2 ^ 64;
  ao_product : (maxPrice o - minPrice o) * rampUpPeriod o < 2 ^ 256
}.

#[export] Instance offer_wf_dec o : Decision (offer_wf o).
Proof.
  refine (cast_if (decide (fits 256 (minPrice o) /\ fits 256 (maxPrice o)
    /\ fits 64 (rampUpStart o) /\ fits 32 (rampUpPeriod o) /\ fits 32 (lockTimeout o)
    /\ fits 32 (timeout o) /\ fits 256 (lockCollateral o))));
    [by destruct_and!; constructor | intros []; naive_solver].
Defined.

#[export] Instance offer_valid_dec o : Decision (offer_valid o).
Proof.
  refine (cast_if (decide (timeout o <> 0 /\ lockTimeout o <> 0
    /\ rampUpPeriod o <= lockTimeout o /\ lockTimeout o <= timeout o
    /\ timeout o - lockTimeout o < 2 ^ 24 /\ maxPrice o <> 0
    /\ minPrice o <= maxPrice o /\ rampUpStart o <> 0)));
    [by destruct_and!; constructor | intros []; naive_solver].
Defined.

#[export] Instance auction_ok_dec o : Decision (auction_ok o).
Proof.
  refine (cast_if (decide (offer_wf o /\ offer_valid o /\ rampUpStart o + timeout o < 2 ^ 64
    /\ (maxPrice o - minPrice o) * rampUpPeriod o < 2 ^ 256)));
    [by destruct_and!; constructor | intros []; naive_solver].
Defined.

(** The price as a function of exact integers. *)
Definition ramp_price (o : Offer) (t : Z) : Z :=
  minPrice o + (t - rampUpStart o) * (maxPrice o - minPrice o) / rampUpPeriod o.

Definition ref_price (o : Offer) (t : Z) : Z :=
  if t <=? rampUpStart o then minPrice o else
  if rampUpStart o + lockTimeout o <? t then 0 else
  if t <=? rampUpStart o + rampUpPeriod o then ramp_price o t else maxPrice o.

Section Auction.
Context (o : Offer) (Hok : auction_ok o).

Ltac use_ok :=
  destruct Hok as [[] [] ? ?]; unfold fits in *.

Lemma lock_deadline_exact : lock_deadline o = rampUpStart o + lockTimeout o.
Proof. unfold lock_deadline. apply wadd_small. use_ok. unfold fits. lia. Qed.

Lemma ramp_end_exact :
  wadd 64 (rampUpStart o) (rampUpPeriod o) = rampUpStart o + rampUpPeriod o.
Proof. apply wadd_small. use_ok. unfold fits. lia. Qed.

(** During the ramp, the price lies between the bounds. *)
Lemma ramp_price_bounds t :
  rampUpStart o < t <= rampUpStart o + rampUpPeriod o ->
  minPrice o <= ramp_price o t <= maxPrice o.
Proof.
  intros Ht. use_ok. unfold ramp_price.
  set (d := t - rampUpStart o). set (r := maxPrice o - minPrice o).
  assert (0 <= d * r / rampUpPeriod o <= r); [|lia].
  assert (0 <= r /\ 0 < d <= rampUpPeriod o) as [Hr Hd] by lia.
  split; [apply Z.div_pos; [apply Z.mul_nonneg_nonneg|]; lia|].
  apply Z.div_le_upper_bound; [lia|]. apply Z.mul_le_mono_nonneg_r; lia.
Qed.

(** The wrap-around arithmetic of the code computes the exact price. *)
Lemma price_at_ref t : 0 <= t -> price_at o t = Ok (ref_price o t).
Proof.
  intros Ht. unfold price_at, price_at_time, ref_price. f_equal.
  destruct (Z.leb_spec t (rampUpStart o)); [done|].
  change (wadd 64 (rampUpStart o) (lockTimeout o)) with (lock_deadline o).
  rewrite lock_deadline_exact, ramp_end_exact.
  destruct (Z.ltb_spec (rampUpStart o + lockTimeout o) t); [done|].
  destruct (Z.leb_spec t (rampUpStart o + rampUpPeriod o)); [|done].
  pose proof (ramp_price_bounds t ltac:(lia)) as Hb.
  destruct (Z.eqb_spec (rampUpPeriod o) 0); [lia|].
  assert (wsub 256 (maxPrice o) (minPrice o) = maxPrice o - minPrice o) as ->.
  { apply wsub_small. use_ok. unfold fits. lia. }
  assert (wsub 64 t (rampUpStart o) = t - rampUpStart o) as ->.
  { apply wsub_small. use_ok. unfold fits. lia. }
  rewrite wmul_small.
  - unfold ramp_price in *. apply wadd_small. use_ok. unfold fits. lia.
  - assert (0 <= maxPrice o - minPrice o) by (use_ok; lia).
    pose proof (ao_product _ Hok). split; [apply Z.mul_nonneg_nonneg; lia|].
    eapply Z.le_lt_trans; [|done]. rewrite (Z.mul_comm (maxPrice o - minPrice o)).
    apply Z.mul_le_mono_nonneg_r; lia.
Qed.

Lemma ref_price_bounds t :
  t <= rampUpStart o + lockTimeout o -> minPrice o <= ref_price o t <= maxPrice o.
Proof.
  intros Ht. unfold ref_price.
  pose proof (ov_prices _ (ao_valid _ Hok)).
  destruct (Z.leb_spec t (rampUpStart o)); [lia|].
  destruct (Z.ltb_spec (rampUpStart o + lockTimeout o) t); [lia|].
  destruct (Z.leb_spec t (rampUpStart o + rampUpPeriod o)); [|lia].
  apply ramp_price_bounds. lia.
Qed.

Lemma ref_price_monotone t1 t2 :
  t1 <= t2 <= rampUpStart o + lockTimeout o -> ref_price o t1 <= ref_price o t2.
Proof.
  intros Ht. pose proof (ref_price_bounds t1 ltac:(lia)).
  pose proof (ref_price_bounds t2 ltac:(lia)).
  unfold ref_price in *.
  destruct (Z.leb_spec t1 (rampUpStart o)); [lia|].
  destruct (Z.leb_spec t2 (rampUpStart o)); [lia|].
  destruct (Z.ltb_spec (rampUpStart o + lockTimeout o) t1); [lia|].
  destruct (Z.ltb_spec (rampUpStart o + lockTimeout o) t2); [lia|].
  destruct (Z.leb_spec t2 (rampUpStart o + rampUpPeriod o)).
  - destruct (Z.leb_spec t1 (rampUpStart o + rampUpPeriod o)); [|lia].
    assert (0 <= maxPrice o - minPrice o) by (use_ok; lia).
    unfold ramp_price. apply Z.add_le_mono_l, Z.div_le_mono; [lia|].
    apply Z.mul_le_mono_nonneg_r; lia.
  - destruct (Z.leb_spec t1 (rampUpStart o + rampUpPeriod o)); lia.
Qed.

(** ** The time at a price *)

Definition ramp_delta (p : Z) : Z :=
  div_ceil ((p - minPrice o) * rampUpPeriod o) (maxPrice o - minPrice o).

Lemma ramp_delta_range p :
  minPrice o < p <= maxPrice o -> 0 < rampUpPeriod o ->
  0 < ramp_delta p <= rampUpPeriod o.
Proof.
  intros Hp Hr. unfold ramp_delta. split.
  - apply Z.nle_gt. intros Hle.
    apply div_ceil_le_iff in Hle; [nia|lia].
  - apply div_ceil_le_iff; nia.
Qed.

Lemma time_at_price_exact p :
  minPrice o < p <= maxPrice o -> 0 <= p ->
  0 <= ramp_delta p <= rampUpPeriod o ->
  time_at_price o p = Ok (rampUpStart o + ramp_delta p).
Proof.
  intros Hp Hp0 Hd. unfold time_at_price.
  destruct (Z.ltb_spec (maxPrice o) p); [lia|].
  destruct (Z.leb_spec p (minPrice o)); [lia|].
  assert (wsub 256 (maxPrice o) (minPrice o) = maxPrice o - minPrice o) as ->.
  { apply wsub_small. use_ok. unfold fits. lia. }
  assert (wsub 256 p (minPrice o) = p - minPrice o) as ->.
  { apply wsub_small. use_ok. unfold fits. lia. }
  rewrite wmul_small.
  2: { pose proof (ao_product _ Hok).
       assert (0 <= rampUpPeriod o) by (use_ok; lia).
       split; [apply Z.mul_nonneg_nonneg; lia|].
       eapply Z.le_lt_trans; [|done]. apply Z.mul_le_mono_nonneg_r; lia. }
  unfold checked_div_ceil. destruct (Z.eqb_spec (maxPrice o - minPrice o) 0); [lia|].
  simpl. fold (ramp_delta p).
  destruct (Z.leb_spec (2 ^ 64) (ramp_delta p)); [use_ok; lia|].
  f_equal. apply wadd_small. use_ok. unfold fits. lia.
Qed.

(** At the reported time the ramp has reached the price, and not before. *)
Lemma ramp_price_at_delta p d :
  minPrice o < p <= maxPrice o -> 0 < rampUpPeriod o ->
  (p <= ramp_price o (rampUpStart o + d) <-> ramp_delta p <= d).
Proof.
  intros Hp Hr. unfold ramp_delta, ramp_price. rewrite div_ceil_le_iff by lia.
  replace (rampUpStart o + d - rampUpStart o) with d by lia.
  split; intros Hle.
  - assert (p - minPrice o <= d * (maxPrice o - minPrice o) / rampUpPeriod o) as Hq by lia.
    pose proof (Z.mul_div_le (d * (maxPrice o - minPrice o)) (rampUpPeriod o) Hr). nia.
  - assert (p - minPrice o <= d * (maxPrice o - minPrice o) / rampUpPeriod o); [|lia].
    apply Z.div_le_lower_bound; nia.
Qed.

End Auction.

Lemma price_at_ok o t : auction_ok o -> 0 <= t -> price_at o t = Ok (ref_price o t).
Proof. intros. by apply price_at_ref. Qed.

(** C28. For an offer whose arithmetic fits, the quoted price lies between
    [minPrice] and [maxPrice] and never decreases up to the lock deadline, is
    [minPrice] up to the start of the ramp and [maxPrice] from its end, and is
    zero once the lock deadline has passed. *)
Theorem price_curve o :
  auction_ok o ->
  (forall t, 0 <= t <= lock_deadline o ->
     exists q, price_at o t = Ok q /\ minPrice o <= q <= maxPrice o
       /\ (t <= rampUpStart o -> q = minPrice o)
       /\ (rampUpStart o + rampUpPeriod o < t -> q = maxPrice o)
       /\ (t = rampUpStart o + rampUpPeriod o -> 0 < rampUpPeriod o -> q = maxPrice o))
  /\ (forall t1 t2 q1 q2, 0 <= t1 <= t2 -> t2 <= lock_deadline o ->
       price_at o t1 = Ok q1 -> price_at o t2 = Ok q2 -> q1 <= q2)
  /\ (forall t, lock_deadline o < t -> price_at o t = Ok 0).
Proof.
  intros Hok. rewrite (lock_deadline_exact o Hok).
  assert (0 <= rampUpPeriod o /\ 0 <= lockTimeout o /\ rampUpPeriod o <= lockTimeout o
          /\ 0 <= rampUpStart o) as (Hp & Hl & Hpl & Hs)
    by (destruct Hok as [[] [] ? ?]; unfold fits in *; lia).
  repeat split.
  - intros t Ht. exists (ref_price o t). rewrite price_at_ok by (done || lia).
    split; [done|]. split; [apply ref_price_bounds; (done || lia)|].
    unfold ref_price. split_and!; intros; repeat bcase; try lia.
    subst t. unfold ramp_price.
    replace (rampUpStart o + rampUpPeriod o - rampUpStart o) with (rampUpPeriod o) by lia.
    rewrite Z.mul_comm, Z.div_mul by lia. lia.
  - intros t1 t2 q1 q2 H1 H2. rewrite !price_at_ok by (done || lia). intros [= <-] [= <-].
    apply ref_price_monotone; (done || lia).
  - intros t Ht. rewrite price_at_ok by (done || lia). unfold ref_price.
    repeat bcase; (done || lia).
Qed.

(** From the time [time_at_price] reports to the lock deadline, the offer pays
    at least the price asked for. *)
Lemma time_at_price_reaches o p :
  auction_ok o -> 0 < rampUpPeriod o -> 0 <= p <= maxPrice o ->
  exists t, time_at_price o p = Ok t /\ 0 <= t <= lock_deadline o
    /\ forall t', t <= t' <= lock_deadline o -> exists q, price_at o t' = Ok q /\ p <= q.
Proof.
  intros Hok Hr Hp. rewrite (lock_deadline_exact o Hok).
  assert (rampUpPeriod o <= lockTimeout o /\ 0 <= rampUpStart o) as [Hpl Hs]
    by (destruct Hok as [[] [] ? ?]; unfold fits in *; lia).
  destruct (Z.le_gt_cases p (minPrice o)) as [Hle|Hgt].
  - exists 0. split; [|split; [lia|]].
    + unfold time_at_price. repeat bcase; (done || lia).
    + intros t' Ht'. rewrite price_at_ok by (done || lia). eexists; split; [done|].
      pose proof (ref_price_bounds o Hok t' ltac:(lia)). lia.
  - pose proof (ramp_delta_range o p ltac:(lia) Hr) as Hd.
    exists (rampUpStart o + ramp_delta o p).
    split; [apply time_at_price_exact; (done || lia)|]. split; [lia|].
    intros t' Ht'. rewrite price_at_ok by (done || lia). eexists; split; [done|].
    etrans; [|apply (ref_price_monotone o Hok (rampUpStart o + ramp_delta o p)); lia].
    unfold ref_price. repeat bcase; try lia.
    apply ramp_price_at_delta; (done || lia).
Qed.

(** When the ramp has a positive length, [time_at_price] answers every
    price up to [maxPrice] with the earliest time at which the offer pays at
    least that price, which is before the lock deadline. *)
Theorem time_at_price_earliest o p :
  auction_ok o -> 0 < rampUpPeriod o -> 0 <= p <= maxPrice o ->
  exists t, time_at_price o p = Ok t /\ 0 <= t <= lock_deadline o
    /\ (exists q, price_at o t = Ok q /\ p <= q)
    /\ (forall t', 0 <= t' < t -> exists q, price_at o t' = Ok q /\ q < p).
Proof.
  intros Hok Hr Hp. destruct (time_at_price_reaches o p Hok Hr Hp) as (t & Et & Ht & Hreach).
  exists t. split_and!; [done|lia|lia|apply Hreach; lia|].
  assert (rampUpPeriod o <= lockTimeout o /\ 0 <= rampUpStart o) as [Hpl Hs]
    by (destruct Hok as [[] [] ? ?]; unfold fits in *; lia).
  destruct (Z.le_gt_cases p (minPrice o)) as [Hle|Hgt].
  - assert (time_at_price o p = Ok 0) as E0 by (unfold time_at_price; repeat bcase; (done || lia)).
    assert (t = 0) by congruence. lia.
  - pose proof (ramp_delta_range o p ltac:(lia) Hr) as Hd.
    rewrite (time_at_price_exact o Hok) in Et by lia. injection Et as <-.
    intros t' Ht'. rewrite price_at_ok by (done || lia). eexists; split; [done|].
    unfold ref_price. repeat bcase; try lia.
    apply Z.nle_gt. intros Hc.
    replace t' with (rampUpStart o + (t' - rampUpStart o)) in Hc by lia.
    apply ramp_price_at_delta in Hc; (done || lia).
Qed.

(** A price above [maxPrice] is refused. *)
Lemma time_at_price_exceeds o p :
  maxPrice o < p -> time_at_price o p = Err PriceExceedsMax.
Proof. intros. unfold time_at_price. repeat bcase; (done || lia). Qed.

(** With a ramp of length zero the reported time is the start of the ramp, at
    which the offer still pays only [minPrice]: the time one second later is
    the earliest that pays the price. *)
Lemma time_at_price_zero_ramp o p :
  auction_ok o -> rampUpPeriod o = 0 -> minPrice o < p <= maxPrice o ->
  time_at_price o p = Ok (rampUpStart o)
  /\ price_at o (rampUpStart o) = Ok (minPrice o)
  /\ price_at o (rampUpStart o + 1) = Ok (maxPrice o).
Proof.
  intros Hok Hr Hp.
  assert (0 <= rampUpStart o /\ 0 < lockTimeout o /\ 0 <= minPrice o) as (Hs & Hl & Hm)
    by (destruct Hok as [[] [] ? ?]; unfold fits in *; lia).
  assert (Hd : ramp_delta o p = 0) by (unfold ramp_delta; rewrite Hr, Z.mul_0_r; done).
  rewrite (time_at_price_exact o Hok) by lia. rewrite Hd, Z.add_0_r.
  rewrite !price_at_ok by (done || lia). unfold ref_price.
  split_and!; f_equal; repeat bcase; lia.
Qed.

(** ** Witnesses *)

Definition sample_offer : Offer := mkOffer 100 1100 1000 50 60 90 7.

Lemma price_curve_witness :
  auction_ok sample_offer /\ price_at sample_offer 1025 = Ok 600
  /\ exists q, price_at sample_offer 1060 = Ok q /\ 100 <= q <= 1100.
Proof.
  assert (Hok : auction_ok sample_offer) by (refine (bool_decide_unpack _ _); by vm_compute).
  split; [done|]. split; [done|].
  destruct (price_curve sample_offer Hok) as [H _].
  destruct (H 1060 ltac:(by vm_compute)) as (q & E & B & _). by exists q.
Defined.

Lemma time_at_price_earliest_witness :
  time_at_price sample_offer 501 = Ok 1021
  /\ exists t, time_at_price sample_offer 501 = Ok t /\ 0 <= t <= lock_deadline sample_offer.
Proof.
  split; [done|].
  assert (Hok : auction_ok sample_offer) by (refine (bool_decide_unpack _ _); by vm_compute).
  destruct (time_at_price_earliest sample_offer 501 Hok ltac:(done) ltac:(by vm_compute))
    as (t & E & B & _). by exists t.
Defined.
