(* ===== verification/Selector.v ===== *)
(** * Selector: verifier selectors and asset amounts

    [crates/boundless-market/src/selector.rs] (the extended selectors, the
    proof types and the table of supported selectors), the selector builders
    of [contracts/mod.rs], and the conversions of
    [price_oracle/asset.rs] between assets and decimal precisions.

    A [FixedBytes<4>] is its big-endian 32-bit number, so that
    [SelectorExt::from_bytes] and [FixedBytes::from(u32)] are the identity. *)

From S2P Require Import Prelude Market.

Local Open Scope Z_scope.

(** ** Extended selectors *)

Inductive SelectorExtType :=
| TyFakeReceipt
| TyGroth16
| TySetVerifier
| TyBlake3Groth16
| TyFakeBlake3Groth16.

#[export] Instance SelectorExtType_eq_dec : EqDecision SelectorExtType.
Proof. solve_decision. Defined.

Inductive SelectorExt :=
| FakeReceipt
| FakeBlake3Groth16
| Groth16V3_0
| SetVerifierV0_9
| Blake3Groth16V0_1.

#[export] Instance SelectorExt_eq_dec : EqDecision SelectorExt.
Proof. solve_decision. Defined.

(** [self as u32]. *)
Definition selector_as_u32 (self : SelectorExt) : Z :=
  match self with
  | FakeReceipt => 0xFFFFFFFF
  | FakeBlake3Groth16 => 0xFFFF0000
  | Groth16V3_0 => 0x73c457ba
  | SetVerifierV0_9 => 0x242f9d5b
  | Blake3Groth16V0_1 => 0x62f049f6
  end.

(** [TryFrom<u32> for SelectorExt]; [None] is [UnsupportedSelector]. *)
Definition selector_try_from (value : Z) : option SelectorExt :=
  if value =? 0xFFFFFFFF then Some FakeReceipt else
  if value =? 0xFFFF0000 then Some FakeBlake3Groth16 else
  if value =? 0x73c457ba then Some Groth16V3_0 else
  if value =? 0x242f9d5b then Some SetVerifierV0_9 else
  if value =? 0x62f049f6 then Some Blake3Groth16V0_1 else
  None.

Definition groth16_latest : SelectorExt := Groth16V3_0.
Definition set_inclusion_latest : SelectorExt := SetVerifierV0_9.
Definition blake3_groth16_latest : SelectorExt := Blake3Groth16V0_1.

Definition get_type (self : SelectorExt) : SelectorExtType :=
  match self with
  | FakeReceipt => TyFakeReceipt
  | FakeBlake3Groth16 => TyFakeBlake3Groth16
  | Groth16V3_0 => TyGroth16
  | SetVerifierV0_9 => TySetVerifier
  | Blake3Groth16V0_1 => TyBlake3Groth16
  end.

(** ** Supported selectors *)

Inductive ProofType := PfAny | PfGroth16 | PfInclusion | PfBlake3Groth16.

#[export] Instance ProofType_eq_dec : EqDecision ProofType.
Proof. solve_decision. Defined.

Record SupportedSelectors := mkSupported { selectors : gmap Z ProofType }.

Definition supported_new : SupportedSelectors := mkSupported ∅.

Definition add_selector (self : SupportedSelectors) (sel : Z) (ty : ProofType)
    : SupportedSelectors :=
  mkSupported (<[sel := ty]> (selectors self)).

Definition supported_remove (self : SupportedSelectors) (sel : Z) : SupportedSelectors :=
  if bool_decide (is_Some (selectors self !! sel))
  then mkSupported (delete sel (selectors self)) else self.

Definition is_supported (self : SupportedSelectors) (sel : Z) : bool :=
  bool_decide (is_Some (selectors self !! sel)).

Definition proof_type (self : SupportedSelectors) (sel : Z) : option ProofType :=
  selectors self !! sel.

(** [SupportedSelectors::default]; [is_dev_mode] reads the environment. *)
Definition supported_default (is_dev_mode : bool) : SupportedSelectors :=
  let s := add_selector supported_new UNSPECIFIED_SELECTOR PfAny in
  let s := add_selector s (selector_as_u32 groth16_latest) PfGroth16 in
  let s := add_selector s (selector_as_u32 blake3_groth16_latest) PfBlake3Groth16 in
  if is_dev_mode then
    let s := add_selector s (selector_as_u32 FakeReceipt) PfAny in
    add_selector s (selector_as_u32 FakeBlake3Groth16) PfBlake3Groth16
  else s.

(** Canonical router selectors and class ids of [contracts/mod.rs]. *)
Definition ONCHAIN_ASSESSOR_SELECTOR : Z := 0x00000022.
Definition R0_ASSESSOR_SELECTOR : Z := 0x00000024.
Definition R0_SET_INCLUSION_CLASS_ID : Z := 0xAA000001.
Definition R0_ASSESSOR_CLASS_ID : Z := 0xAA000002.
Definition R0_GROTH16_CLASS_ID : Z := 0xAA000003.
Definition R0_GROTH16_BLAKE3_CLASS_ID : Z := 0xAA000004.

Definition is_groth16_selector (sel : Z) : bool :=
  match selector_try_from sel with
  | Some s => bool_decide (get_type s = TyFakeReceipt) || bool_decide (get_type s = TyGroth16)
  | None => false
  end.

Definition is_blake3_groth16_selector (sel : Z) : bool :=
  if sel =? R0_GROTH16_BLAKE3_CLASS_ID then true else
  match selector_try_from sel with
  | Some s =>
      bool_decide (get_type s = TyFakeBlake3Groth16) || bool_decide (get_type s = TyBlake3Groth16)
  | None => false
  end.

(** [Requirements::with_groth16_proof] and [with_blake3_groth16_proof]. *)
Definition with_groth16_proof (is_dev_mode : bool) (self : Requirements) : Requirements :=
  if is_dev_mode then with_selector self (selector_as_u32 FakeReceipt)
  else with_selector self (selector_as_u32 groth16_latest).

Definition with_blake3_groth16_proof (is_dev_mode : bool) (self : Requirements) : Requirements :=
  if is_dev_mode then with_selector self (selector_as_u32 FakeBlake3Groth16)
  else with_selector self (selector_as_u32 blake3_groth16_latest).

(** ** Assets *)

Inductive Asset := USD | ETH | ZKC.

#[export] Instance Asset_eq_dec : EqDecision Asset.
Proof. solve_decision. Defined.

Definition decimals (self : Asset) : Z :=
  match self with USD => 6 | ETH => 18 | ZKC => 18 end.

Record Amount := mkAmount { amount_value : Z; amount_asset : Asset }.

(** The trading pairs of the oracles, whose errors a conversion can carry; the
    texts of the transport errors are kept. *)
Inductive TradingPair := EthUsd | ZkcUsd.

#[export] Instance TradingPair_eq_dec : EqDecision TradingPair.
Proof. solve_decision. Defined.

Inductive PriceOracleError :=
| AllSourcesFailed (pair : TradingPair) (errors : list string)
| InsufficientSources (pair : TradingPair) (got need : Z)
| RpcError (e : string)
| HttpError (e : string)
| InvalidPrice (e : string)
| StalePrice (age_secs max_secs : Z)
| ConfigError (e : string)
| Internal (e : string)
| UpdateTimeout.

Inductive ConversionError :=
| AssetMismatch (expected actual : Asset)
| UnsupportedConversion (from to : Asset)
| ConvPriceOracle (e : PriceOracleError)
| ConvOverflow
| ConvDivisionByZero.

Definition PRICE_QUOTE_DECIMALS : Z := 8.

Definition checked_mul (w a b : Z) : option Z :=
  if a * b <? 2 ^ w then Some (a * b) else None.
Definition checked_div (a b : Z) : option Z :=
  if b =? 0 then None else Some (a / b).

(** [base.pow(exp)] on [U256], which wraps. *)
Definition wpow (w base exp : Z) : Z := wrap w (base ^ exp).

Definition convert_asset_value (value : Z) (from to : Asset) (price : Z)
    : result ConversionError Z :=
  let from_decimals := decimals from in
  let to_decimals := decimals to in
  let price_decimals := PRICE_QUOTE_DECIMALS in
  if from_decimals <? to_decimals then
    let exponent := to_decimals - from_decimals + price_decimals in
    let scale := wpow 256 10 exponent in
    v ← ok_or ConvOverflow (checked_mul 256 value scale);
    ok_or ConvDivisionByZero (checked_div v price)
  else if to_decimals <? from_decimals then
    let exponent := from_decimals - to_decimals + price_decimals in
    let scale := wpow 256 10 exponent in
    v ← ok_or ConvOverflow (checked_mul 256 value price);
    ok_or ConvDivisionByZero (checked_div v scale)
  else
    v ← ok_or ConvOverflow (checked_mul 256 value price);
    ok_or ConvDivisionByZero (checked_div v (wpow 256 10 price_decimals)).

(** [scale_decimals]; the power wraps, so that a precision far above 18 can
    make the divisor zero. *)
Definition scale_decimals {E} (value from_decimals to_decimals : Z) : result E Z :=
  if from_decimals =? to_decimals then Ok value else
  if to_decimals <? from_decimals then
    let scale := wpow 256 10 (from_decimals - to_decimals) in
    checked_quot value scale
  else
    let scale := wpow 256 10 (to_decimals - from_decimals) in
    Ok (wmul 256 value scale).

(** ** Properties *)

Lemma selector_try_from_spec v s : selector_try_from v = Some s <-> selector_as_u32 s = v.
Proof.
  unfold selector_try_from, selector_as_u32. split.
  - repeat bcase; intros ?; by simplify_eq.
  - by intros <-; destruct s.
Qed.

(** The two families of groth16 selectors do not overlap, and the default
    table supports the selectors the request builders write. *)
Lemma groth16_families_disjoint v :
  is_groth16_selector v = true -> is_blake3_groth16_selector v = false.
Proof.
  unfold is_groth16_selector, is_blake3_groth16_selector.
  destruct (selector_try_from v) as [s|] eqn:E; [|done].
  apply selector_try_from_spec in E as <-. by destruct s.
Qed.

(** Scaling by at most 77 decimals does not wrap the scale. *)
Lemma wpow_small k : 0 <= k <= 77 -> wpow 256 10 k = 10 ^ k.
Proof.
  intros Hk. unfold wpow. apply wrap_small. split; [apply Z.pow_nonneg; lia|].
  apply Z.le_lt_trans with (10 ^ 77); [apply Z.pow_le_mono_r; lia|done].
Qed.

(** With the collateral tokens of the deployments (6 or 18 decimals, or any
    precision up to 77) scaling an 18-decimal amount down never panics, and
    rounds down. *)
Lemma scale_decimals_down {E} v to :
  0 <= to <= 18 -> scale_decimals (E := E) v 18 to = Ok (v / 10 ^ (18 - to)).
Proof.
  intros Ht. unfold scale_decimals. destruct (Z.eqb_spec 18 to) as [<-|].
  - simpl. by rewrite Z.div_1_r.
  - destruct (Z.ltb_spec to 18); [|lia].
    rewrite wpow_small by lia. unfold checked_quot.
    destruct (Z.eqb_spec (10 ^ (18 - to)) 0) as [Hz|]; [|done].
    pose proof (Z.pow_pos_nonneg 10 (18 - to) ltac:(lia) ltac:(lia)). lia.
Qed.

Lemma wpow_20 : wpow 256 10 20 = 10 ^ 20.
Proof. by apply wpow_small. Qed.

Lemma checked_mul_Some w a b c : checked_mul w a b = Some c <-> c = a * b /\ a * b < 2 ^ w.
Proof. unfold checked_mul. destruct (Z.ltb_spec (a * b) (2 ^ w)); naive_solver lia. Qed.

(** Converting US dollars to ether at a positive price and back never
    gains, and loses less than one micro-dollar plus the value of one wei:
    each way rounds down once. *)
Theorem usd_eth_usd_roundtrip v price x v' :
  0 <= v -> 0 < price ->
  convert_asset_value v USD ETH price = Ok x ->
  convert_asset_value x ETH USD price = Ok v' ->
  v - price / 10 ^ 20 - 1 <= v' <= v.
Proof.
  intros Hv Hp. unfold convert_asset_value. simpl decimals. simpl (6 <? 18). simpl (18 <? 6).
  cbv iota. change (18 - 6 + PRICE_QUOTE_DECIMALS) with 20. rewrite wpow_20.
  destruct (checked_mul 256 v (10 ^ 20)) as [a|] eqn:Ha; [|done].
  apply checked_mul_Some in Ha as [-> _]. simpl. unfold checked_div.
  destruct (Z.eqb_spec price 0); [lia|]. intros [= <-].
  destruct (checked_mul 256 _ price) as [b|] eqn:Hb; [|done].
  apply checked_mul_Some in Hb as [-> _]. simpl. intros [= <-].
  set (S := 100000000000000000000) in *.
  assert (HS : 0 < S) by done.
  pose proof (Z.div_mod (v * S) price ltac:(lia)) as E1.
  pose proof (Z.mod_pos_bound (v * S) price Hp) as B1.
  pose proof (Z.div_mod price S ltac:(lia)) as E2.
  pose proof (Z.mod_pos_bound price S HS) as B2.
  change (10 ^ 20) with S. set (q := price / S) in *. clearbody q S.
  split.
  - apply Z.div_le_lower_bound; [done|].
    lia.
  - apply Z.div_le_upper_bound; [done|].
lia.
Qed.

(** ** Witness *)

Lemma usd_eth_usd_roundtrip_witness :
  convert_asset_value 2500000 USD ETH 300000000000 = Ok 833333333333333
  /\ 2500000 - 300000000000 / 10 ^ 20 - 1 <= 2499999 <= 2500000.
Proof.
  split; [by vm_compute|].
  apply (usd_eth_usd_roundtrip 2500000 300000000000 833333333333333 2499999); by vm_compute.
Defined.
