(* ===== verification/Amount.v ===== *)
(** * Amount: amounts as text

    [crates/boundless-market/src/price_oracle/asset.rs]: parsing and printing of
    amounts such as [1.5 ETH], with the rounding of the display forms.

    Strings are lists of ASCII characters, so that whitespace, case and lengths
    in bytes have their ASCII meaning.  The decimal text of a [U256] comes from
    another crate: the class [U256Text] holds its two conversions, of which the
    documented behaviour on plain decimal digits is assumed. *)

From S2P Require Import Prelude Selector.
From Stdlib Require Import Ascii.

Local Open Scope Z_scope.

Notation str := (list ascii).

(** A literal. *)
Definition lit (s : string) : str := String.list_ascii_of_string s.

(** ** The string operations of the source *)

Definition code (c : ascii) : Z := Z.of_N (N_of_ascii c).

Definition is_whitespace (c : ascii) : bool :=
  ((9 <=? code c) && (code c <=? 13)) || (code c =? 32).

Fixpoint trim_start_if (p : ascii -> bool) (s : str) : str :=
  match s with
  | c :: s' => if p c then trim_start_if p s' else s
  | [] => []
  end.

Definition trim_end_if (p : ascii -> bool) (s : str) : str := rev (trim_start_if p (rev s)).

Definition trim (s : str) : str := trim_end_if is_whitespace (trim_start_if is_whitespace s).

Definition trim_end_matches (c : ascii) (s : str) : str := trim_end_if (Ascii.eqb c) s.

(** [split_whitespace], with the current word reversed. *)
Fixpoint words (cur s : str) : list str :=
  match s with
  | [] => match cur with [] => [] | _ => [rev cur] end
  | c :: s =>
      if is_whitespace c
      then match cur with [] => words [] s | _ => rev cur :: words [] s end
      else words (c :: cur) s
  end.

Definition split_whitespace (s : str) : list str := words [] s.

Fixpoint split_once (c : ascii) (s : str) : option (str * str) :=
  match s with
  | [] => None
  | d :: s =>
      if Ascii.eqb c d then Some ([], s)
      else match split_once c s with Some (i, f) => Some (d :: i, f) | None => None end
  end.

Definition zeros (n : nat) : str := replicate n "0"%char.

(** [{:0<width$}] and [{:0>width$}]. *)
Definition pad_end (s : str) (width : nat) : str := s ++ zeros (width - length s).
Definition pad_start (s : str) (width : nat) : str := zeros (width - length s) ++ s.

Definition uppercase (c : ascii) : ascii :=
  if (97 <=? code c) && (code c <=? 122) then ascii_of_N (N_of_ascii c - 32) else c.

Class U256Text := {
  u256_to_string : Z -> str;
  u256_from_str : str -> option Z
}.

(** ** Assets *)

Definition display_decimals (self : Asset) : nat :=
  match self with USD => 4 | ETH => 8 | ZKC => 6 end.

Inductive ParseAmountError :=
| InvalidFormat
| UnknownAsset (s : str)
| InvalidNumber (s : str)
| AssetNotAllowed (a : Asset) (allowed : list Asset)
| TooManyDecimals (a : Asset) (got : nat) (max : Z).

Definition asset_from_str (s : str) : result ParseAmountError Asset :=
  let u := uppercase <$> s in
  if bool_decide (u = lit "USD") then Ok USD
  else if bool_decide (u = lit "ETH") then Ok ETH
  else if bool_decide (u = lit "ZKC") then Ok ZKC
  else Err (UnknownAsset s).

Definition show_asset (self : Asset) : str :=
  match self with USD => lit "USD" | ETH => lit "ETH" | ZKC => lit "ZKC" end.

(** ** Amounts *)

Section Amounts.
Context `{U256Text}.

Definition parse_decimal_to_u256 (s : str) (decimals : Z) (asset : Asset)
    : result ParseAmountError Z :=
  let '(integer, fraction) := match split_once "." s with
                              | Some (i, f) => (i, f)
                              | None => (s, [])
                              end in
  if decimals <? Z.of_nat (length fraction)
  then Err (TooManyDecimals asset (length fraction) decimals)
  else
    let padded := integer ++ pad_end fraction (Z.to_nat decimals) in
    ok_or (InvalidNumber s) (u256_from_str padded).

Definition parse (s : str) (default : option Asset) : result ParseAmountError Amount :=
  let s := trim s in
  match split_whitespace s with
  | [] => Err InvalidFormat
  | value_str :: rest =>
      asset ← match rest with
              | [asset_str] => asset_from_str (trim asset_str)
              | _ => ok_or InvalidFormat default
              end;
      value ← parse_decimal_to_u256 (trim value_str) (decimals asset) asset;
      mret (mkAmount value asset)
  end.

Definition parse_with_allowed (s : str) (allowed : list Asset) (default : option Asset)
    : result ParseAmountError Amount :=
  amount ← parse s default;
  if bool_decide (amount_asset amount ∈ allowed) then mret amount
  else Err (AssetNotAllowed (amount_asset amount) allowed).

Definition format_amount (value : Z) (asset : Asset) : str :=
  let decimals := Z.to_nat (decimals asset) in
  let s := u256_to_string value in
  if (decimals =? 0)%nat then s ++ lit " " ++ show_asset asset else
  let formatted :=
    if (length s <=? decimals)%nat then
      trim_end_matches "." (trim_end_matches "0" (lit "0." ++ pad_start s decimals))
    else
      let integer := take (length s - decimals) s in
      let fraction := trim_end_matches "0" (drop (length s - decimals) s) in
      match fraction with [] => integer | _ => integer ++ lit "." ++ fraction end in
  formatted ++ lit " " ++ show_asset asset.

Definition format_amount_rounded (value : Z) (asset : Asset) (display_decimals : nat) : str :=
  let total_decimals := Z.to_nat (decimals asset) in
  if (total_decimals <=? display_decimals)%nat then format_amount value asset else
  let shift := Z.of_nat (total_decimals - display_decimals) in
  let divisor := wpow 256 10 shift in
  let half := divisor / 2 in
  let rounded := wadd 256 value half / divisor in
  if (rounded =? 0) && (0 <? value) then format_amount value asset else
  let s := u256_to_string rounded in
  if (display_decimals =? 0)%nat then s ++ lit " " ++ show_asset asset else
  let formatted :=
    if (length s <=? display_decimals)%nat then lit "0." ++ pad_start s display_decimals
    else take (length s - display_decimals) s ++ lit "." ++ drop (length s - display_decimals) s in
  trim_end_matches "." (trim_end_matches "0" formatted) ++ lit " " ++ show_asset asset.

Definition format_display (self : Amount) (n : nat) : str :=
  format_amount_rounded (amount_value self) (amount_asset self) n.

Definition format (self : Amount) : str :=
  format_display self (display_decimals (amount_asset self)).

(** The serde forms. *)
Definition serialize (self : Amount) : str := format_amount (amount_value self) (amount_asset self).
Definition deserialize (s : str) : result ParseAmountError Amount := parse s None.

End Amounts.

(** ** Decimal digits *)

Definition is_digit (c : ascii) : bool := (48 <=? code c) && (code c <=? 57).
Definition digits (s : str) : Prop := Forall (fun c => is_digit c = true) s.

Definition dec_value (s : str) : Z := foldl (fun acc c => acc * 10 + (code c - 48)) 0 s.

(** The documented behaviour of the conversions of [U256]. *)
Class U256TextLaws `{U256Text} := {
  to_string_spec v : fits 256 v ->
    u256_to_string v <> [] /\ digits (u256_to_string v) /\ dec_value (u256_to_string v) = v;
  from_str_digits s : s <> [] -> digits s ->
    u256_from_str s = if dec_value s <? 2 ^ 256 then Some (dec_value s) else None
}.

Lemma dec_value_acc s a :
  foldl (fun acc c => acc * 10 + (code c - 48)) a s = a * 10 ^ Z.of_nat (length s) + dec_value s.
Proof.
  unfold dec_value. revert a. induction s as [|c s IH]; intros a; cbn [foldl length].
  { simpl. lia. }
  rewrite (IH (a * 10 + (code c - 48))), (IH (0 * 10 + (code c - 48))).
  rewrite Nat2Z.inj_succ, Z.pow_succ_r by lia. lia.
Qed.

Lemma dec_value_app s t :
  dec_value (s ++ t) = dec_value s * 10 ^ Z.of_nat (length t) + dec_value t.
Proof. unfold dec_value at 1. rewrite foldl_app. apply dec_value_acc. Qed.

Lemma dec_value_zeros n : dec_value (zeros n) = 0.
Proof.
  induction n as [|n IH]; [done|]. change (zeros (S n)) with ([ "0"%char ] ++ zeros n).
  rewrite dec_value_app, IH. change (dec_value ["0"%char]) with 0. lia.
Qed.

Lemma digits_zeros n : digits (zeros n).
Proof. by apply Forall_replicate. Qed.

Lemma digits_app s t : digits (s ++ t) <-> digits s /\ digits t.
Proof. apply Forall_app. Qed.

Lemma length_zeros n : length (zeros n) = n.
Proof. apply length_replicate. Qed.

(** ** Trimming and splitting *)

Lemma digit_not_space c : is_digit c = true -> is_whitespace c = false.
Proof.
  unfold is_digit, is_whitespace. intros Hd. apply andb_prop in Hd as [H1 H2].
  apply Z.leb_le in H1, H2. apply orb_false_intro.
  - apply andb_false_intro2, Z.leb_gt. lia.
  - apply Z.eqb_neq. lia.
Qed.

Lemma digit_not_dot c : is_digit c = true -> Ascii.eqb "." c = false.
Proof.
  intros Hd. destruct (Ascii.eqb_spec "." c) as [<-|]; [done|done].
Qed.

Lemma trim_start_id p s : Forall (fun c => p c = false) s -> trim_start_if p s = s.
Proof. intros Hs. destruct Hs as [|c s Hc _]; [done|]. simpl. by rewrite Hc. Qed.

Lemma trim_end_id p s c : p c = false -> trim_end_if p (s ++ [c]) = s ++ [c].
Proof.
  intros Hc. unfold trim_end_if. rewrite rev_app_distr. simpl. rewrite Hc. simpl.
  by rewrite rev_involutive.
Qed.

Lemma trim_end_all p s : Forall (fun c => p c = true) s -> trim_end_if p s = [].
Proof.
  intros Hs. unfold trim_end_if.
  assert (Forall (fun c => p c = true) (rev s)) as Hr by (by apply List.Forall_rev).
  induction Hr as [|c l Hc _ IH]; [done|]. simpl. by rewrite Hc.
Qed.

(** Trimming the end of a concatenation. *)
Lemma trim_end_app p s t :
  trim_end_if p (s ++ t)
  = match trim_end_if p t with [] => trim_end_if p s | t' => s ++ t' end.
Proof.
  unfold trim_end_if. rewrite rev_app_distr.
  assert (forall l, trim_start_if p (l ++ rev s)
    = match trim_start_if p l with [] => trim_start_if p (rev s) | l' => l' ++ rev s end) as Hl.
  { induction l as [|c l IH]; [done|]. simpl. by destruct (p c). }
  rewrite Hl. destruct (trim_start_if p (rev t)) as [|c l] eqn:E; [done|].
  rewrite rev_app_distr, rev_involutive. simpl. by destruct (rev l ++ [c]) eqn:E2;
    [apply app_eq_nil in E2 as [_ ?]|].
Qed.

(** What [trim_end_matches('0')] removes. *)
Lemma trim_zeros_split s :
  exists n, s = trim_end_matches "0" s ++ zeros n.
Proof.
  unfold trim_end_matches. induction s as [|c s [n IH]] using rev_ind; [by exists O|].
  rewrite trim_end_app. unfold trim_end_if at 1. cbn [rev app trim_start_if].
  destruct (Ascii.eqb_spec "0" c) as [<-|Hne].
  - exists (S n). cbn [rev]. rewrite IH at 1. rewrite <- app_assoc. f_equal.
    symmetry. apply replicate_cons_app.
  - exists O. simpl. by rewrite app_nil_r.
Qed.

Lemma digits_trim s : digits s -> digits (trim_end_matches "0" s).
Proof.
  intros Hs. destruct (trim_zeros_split s) as [n E]. rewrite E in Hs. by apply digits_app in Hs as [? _].
Qed.

Lemma trim_end_dot s : digits s -> trim_end_matches "." s = s.
Proof.
  intros Hs. unfold trim_end_matches. destruct s as [|c s] using rev_ind; [done|].
  apply digits_app in Hs as [_ Hc]. apply trim_end_id, digit_not_dot. by apply Forall_cons in Hc as [? _].
Qed.

(** A number: the integer digits, and a point when there is a fraction. *)
Definition render (i f : str) : str := match f with [] => i | _ => i ++ lit "." ++ f end.

Lemma trim_point i f :
  digits i -> digits f ->
  trim_end_matches "." (trim_end_matches "0" (i ++ lit "." ++ f))
  = render i (trim_end_matches "0" f).
Proof.
  intros Hi Hf. pose proof (digits_trim f Hf) as Ht. unfold trim_end_matches at 2, render.
  rewrite app_assoc, trim_end_app. fold (trim_end_matches "0" f).
  destruct (trim_end_matches "0" f) as [|c t].
  - change (lit ".") with ["."%char]. rewrite trim_end_id by done.
    unfold trim_end_matches. rewrite trim_end_app. by apply trim_end_dot.
  - unfold trim_end_matches. rewrite trim_end_app.
    fold (trim_end_matches "." (c :: t)). rewrite (trim_end_dot _ Ht). by rewrite <- app_assoc.
Qed.

Lemma split_once_render i f :
  digits i -> digits f ->
  match split_once "." (render i f) with Some (i', f') => (i', f') | None => (render i f, []) end
  = (i, f).
Proof.
  intros Hi _. unfold render. assert (split_once "." i = None) as Hn.
  { induction Hi as [|c i Hc _ IH]; [done|]. cbn [split_once].
    rewrite digit_not_dot by done. by rewrite IH. }
  destruct f as [|c f]; [by rewrite Hn|].
  assert (split_once "." (i ++ lit "." ++ c :: f) = Some (i, c :: f)) as ->; [|done].
  clear Hn. induction Hi as [|d i Hd _ IH]; [done|]. rewrite <- app_comm_cons. cbn [split_once].
  rewrite digit_not_dot by done. by rewrite IH.
Qed.

(** ** Numbers in text *)

(** [s] as a number with [d] decimals: its integer digits and [d] more. *)
Definition integer_part (s : str) (d : nat) : str :=
  if (length s <=? d)%nat then lit "0" else take (length s - d) s.
Definition fraction_part (s : str) (d : nat) : str :=
  if (length s <=? d)%nat then pad_start s d else drop (length s - d) s.

Lemma parts_spec s d :
  digits s ->
  digits (integer_part s d) /\ integer_part s d <> [] /\ digits (fraction_part s d)
  /\ length (fraction_part s d) = d
  /\ dec_value (integer_part s d ++ fraction_part s d) = dec_value s.
Proof.
  intros Hs. unfold integer_part, fraction_part. destruct (Nat.leb_spec (length s) d) as [Hl|Hl].
  - split_and!.
    + by repeat constructor.
    + done.
    + apply digits_app. split; [apply digits_zeros|done].
    + unfold pad_start. rewrite length_app, length_zeros. lia.
    + unfold pad_start. rewrite !dec_value_app, dec_value_zeros.
      change (dec_value (lit "0")) with 0. lia.
  - split_and!.
    + by apply Forall_take.
    + intros E. apply (f_equal length) in E. rewrite length_take in E. simpl in E. lia.
    + by apply Forall_drop.
    + rewrite length_drop. lia.
    + by rewrite take_drop.
Qed.

(** The value of a fraction does not depend on its trailing zeros. *)
Lemma pad_trimmed f n :
  (length f <= n)%nat -> pad_end (trim_end_matches "0" f) n = f ++ zeros (n - length f).
Proof.
  intros Hn. destruct (trim_zeros_split f) as [k E]. set (t := trim_end_matches "0" f) in *.
  assert (length f = length t + k)%nat as El by (by rewrite E at 1; rewrite length_app, length_zeros).
  unfold pad_end. rewrite El. rewrite E, <- app_assoc. f_equal. unfold zeros.
  rewrite <- replicate_add. f_equal. lia.
Qed.

Lemma length_trimmed f : (length (trim_end_matches "0" f) <= length f)%nat.
Proof.
  destruct (trim_zeros_split f) as [k E]. rewrite E at 2. rewrite length_app. lia.
Qed.

Section RoundTrip.
Context `{U256TextLaws}.

Lemma parse_decimal_render i f d a :
  digits i -> i <> [] -> digits f -> Z.of_nat (length f) <= d ->
  dec_value (i ++ pad_end f (Z.to_nat d)) < 2 ^ 256 ->
  parse_decimal_to_u256 (render i f) d a = Ok (dec_value (i ++ pad_end f (Z.to_nat d))).
Proof.
  intros Hi Hne Hf Hl Hv. unfold parse_decimal_to_u256.
  pose proof (split_once_render i f Hi Hf) as Hs. rewrite Hs. clear Hs.
  destruct (Z.ltb_spec d (Z.of_nat (length f))); [lia|].
  rewrite from_str_digits.
  - destruct (Z.ltb_spec (dec_value (i ++ pad_end f (Z.to_nat d))) (2 ^ 256)); [done|lia].
  - destruct i; done.
  - apply digits_app. split; [done|]. apply digits_app. split; [done|apply digits_zeros].
Qed.

Definition word (s : str) : Prop := s <> [] /\ Forall (fun c => is_whitespace c = false) s.

Lemma words_app w cur s :
  Forall (fun c => is_whitespace c = false) w -> words cur (w ++ s) = words (rev w ++ cur) s.
Proof.
  intros Hw. revert cur. induction Hw as [|c w Hc _ IH]; intros cur; [done|].
  rewrite <- app_comm_cons. cbn [words]. rewrite Hc, IH. simpl. by rewrite <- app_assoc.
Qed.

Lemma words_two w1 w2 : word w1 -> word w2 -> split_whitespace (w1 ++ lit " " ++ w2) = [w1; w2].
Proof.
  intros [N1 H1] [N2 H2]. unfold split_whitespace. rewrite words_app by done.
  rewrite app_nil_r. change (lit " " ++ w2) with (" "%char :: w2). cbn [words].
  change (is_whitespace " ") with true. cbn match.
  assert (forall w : str, w <> [] -> rev w <> []) as Hrev.
  { intros w Hw E. apply Hw. by rewrite <- (rev_involutive w), E. }
  destruct (rev w1) as [|c l] eqn:E; [by apply Hrev in E|].
  rewrite <- E, rev_involutive. f_equal.
  rewrite <- (app_nil_r w2) at 1. rewrite words_app by done. rewrite app_nil_r. cbn [words].
  destruct (rev w2) as [|c2 l2] eqn:E2; [by apply Hrev in E2|].
  by rewrite <- E2, rev_involutive.
Qed.

Lemma trim_words w1 s c :
  word w1 -> is_whitespace c = false -> trim (w1 ++ s ++ [c]) = w1 ++ s ++ [c].
Proof.
  intros [N1 H1] Hc. unfold trim. destruct H1 as [|d w Hd _]; [done|].
  assert (trim_start_if is_whitespace ((d :: w) ++ s ++ [c]) = (d :: w) ++ s ++ [c]) as ->.
  { simpl. by rewrite Hd. }
  rewrite app_assoc. by apply trim_end_id.
Qed.

Lemma trim_word w : word w -> trim w = w.
Proof.
  intros [Hn Hw]. unfold trim. rewrite trim_start_id by done.
  destruct w as [|c w] using rev_ind; [done|]. apply Forall_app in Hw as [_ Hc].
  apply trim_end_id. by apply Forall_cons in Hc as [? _].
Qed.

(** A number followed by an asset. *)
Lemma parse_text n a :
  word n ->
  parse (n ++ lit " " ++ show_asset a) None
  = value ← parse_decimal_to_u256 n (decimals a) a; mret (mkAmount value a).
Proof.
  intros Hn. assert (word (show_asset a)) as Ha by (split; [by destruct a|]; by destruct a; repeat constructor).
  unfold parse.
  assert (trim (n ++ lit " " ++ show_asset a) = n ++ lit " " ++ show_asset a) as ->.
  { destruct a.
    - by apply (trim_words n (lit " US") "D").
    - by apply (trim_words n (lit " ET") "H").
    - by apply (trim_words n (lit " ZK") "C"). }
  rewrite words_two by done. rewrite !trim_word by done. by destruct a.
Qed.

Lemma word_render i f : digits i -> i <> [] -> digits f -> word (render i f).
Proof.
  assert (forall s, digits s -> Forall (fun c => is_whitespace c = false) s) as Hd.
  { intros s Hs. eapply Forall_impl; [exact Hs|]. intros c. apply digit_not_space. }
  intros Hi Hne Hf. unfold render. destruct f as [|c f]; [split; auto|]. split.
  - by destruct i.
  - apply Forall_app. split; [auto|]. apply Forall_app. split; [by repeat constructor|auto].
Qed.

Lemma parse_render i f a v :
  digits i -> i <> [] -> digits f -> Z.of_nat (length f) <= decimals a ->
  dec_value (i ++ pad_end f (Z.to_nat (decimals a))) = v -> fits 256 v ->
  parse (render i f ++ lit " " ++ show_asset a) None = Ok (mkAmount v a).
Proof.
  intros Hi Hne Hf Hl <- [_ Hv]. rewrite parse_text by (by apply word_render).
  by rewrite parse_decimal_render.
Qed.

(** A value printed with [d] decimals and without trailing zeros. *)
Lemma parse_trimmed s d a v :
  digits s -> (d <= Z.to_nat (decimals a))%nat ->
  dec_value s * 10 ^ (decimals a - Z.of_nat d) = v -> fits 256 v ->
  parse (render (integer_part s d) (trim_end_matches "0" (fraction_part s d))
         ++ lit " " ++ show_asset a) None = Ok (mkAmount v a).
Proof.
  intros Hs Hd Hv Hfit. destruct (parts_spec s d Hs) as (Hi & Hne & Hf & Hl & Hval).
  assert (0 <= decimals a) by (by destruct a).
  apply parse_render; try done.
  - by apply digits_trim.
  - pose proof (length_trimmed (fraction_part s d)). lia.
  - rewrite pad_trimmed by lia. rewrite app_assoc, dec_value_app, Hval, dec_value_zeros, length_zeros.
    rewrite Hl, <- Hv. f_equal. rewrite Z.add_0_r. f_equal. f_equal. lia.
Qed.

Lemma format_amount_render v a :
  fits 256 v ->
  format_amount v a
  = render (integer_part (u256_to_string v) (Z.to_nat (decimals a)))
      (trim_end_matches "0" (fraction_part (u256_to_string v) (Z.to_nat (decimals a))))
    ++ lit " " ++ show_asset a.
Proof.
  intros Hv. destruct (to_string_spec v Hv) as (_ & Hd & _). unfold format_amount.
  destruct (parts_spec (u256_to_string v) (Z.to_nat (decimals a)) Hd) as (Hi & _ & Hf & _).
  assert ((Z.to_nat (decimals a) =? 0)%nat = false) as -> by (by destruct a). cbv zeta. f_equal.
  revert Hi Hf. unfold integer_part, fraction_part.
  destruct (length (u256_to_string v) <=? Z.to_nat (decimals a))%nat; intros Hi Hf; [|done].
  change (lit "0." ++ ?x) with (lit "0" ++ lit "." ++ x). by apply trim_point.
Qed.

End RoundTrip.

Section Rounding.
Context `{U256TextLaws}.

Lemma parse_format_amount v a : fits 256 v -> parse (format_amount v a) None = Ok (mkAmount v a).
Proof.
  intros Hv. rewrite format_amount_render by done.
  destruct (to_string_spec v Hv) as (_ & Hd & Hval). apply parse_trimmed; [done|done| |done].
  rewrite Hval, Z2Nat.id by (by destruct a). rewrite Z.sub_diag. lia.
Qed.

(** Half up, to a multiple of [10 ^ n]. *)
Lemma round_close v n :
  0 < n -> 0 <= v ->
  let divisor := 10 ^ n in
  let v' := (v + divisor / 2) / divisor * divisor in
  v' <= v + divisor / 2 /\ 2 * Z.abs (v' - v) <= divisor.
Proof.
  intros Hn Hv divisor v'.
  assert (divisor = 10 * 10 ^ (n - 1)) as Ed.
  { unfold divisor. rewrite <- Z.pow_succ_r by lia. f_equal. lia. }
  assert (0 < 10 ^ (n - 1)) by (apply Z.pow_pos_nonneg; lia).
  assert (divisor / 2 = 5 * 10 ^ (n - 1)) as Eh.
  { rewrite Ed. replace (10 * 10 ^ (n - 1)) with (5 * 10 ^ (n - 1) * 2) by lia. by apply Z.div_mul. }
  pose proof (Z.div_mod (v + divisor / 2) divisor ltac:(lia)) as Em.
  pose proof (Z.mod_pos_bound (v + divisor / 2) divisor ltac:(lia)) as Hb.
  subst v'. rewrite (Z.mul_comm _ divisor). rewrite Eh in *. lia.
Qed.

Lemma format_amount_rounded_render v a d :
  fits 256 v -> (d < Z.to_nat (decimals a))%nat ->
  let divisor := 10 ^ (decimals a - Z.of_nat d) in
  let rounded := wadd 256 v (divisor / 2) / divisor in
  (rounded = 0 /\ 0 < v /\ format_amount_rounded v a d = format_amount v a)
  \/ ((rounded <> 0 \/ v = 0) /\ fits 256 rounded
      /\ format_amount_rounded v a d
         = render (integer_part (u256_to_string rounded) d)
             (trim_end_matches "0" (fraction_part (u256_to_string rounded) d))
           ++ lit " " ++ show_asset a).
Proof.
  intros Hv Hd divisor rounded.
  assert (0 <= decimals a <= 18) as Ha by (by destruct a).
  assert (wpow 256 10 (Z.of_nat (Z.to_nat (decimals a) - d)) = divisor) as Ew.
  { unfold wpow. replace (Z.of_nat (Z.to_nat (decimals a) - d)) with (decimals a - Z.of_nat d) by lia.
    apply wrap_small. split; [apply Z.pow_nonneg; lia|].
    apply Z.le_lt_trans with (10 ^ 18); [apply Z.pow_le_mono_r; lia|done]. }
  assert (0 < divisor) as Hpos by (apply Z.pow_pos_nonneg; lia).
  assert (fits 256 rounded) as Hr.
  { pose proof (wrap_fits 256 (v + divisor / 2) ltac:(lia)) as [H1 H2]. unfold rounded, wadd.
    split; [by apply Z.div_pos|]. apply Z.le_lt_trans with (wrap 256 (v + divisor / 2)); [|done].
    apply Z.div_le_upper_bound; nia. }
  unfold format_amount_rounded. destruct (Nat.leb_spec (Z.to_nat (decimals a)) d); [lia|].
  cbv zeta. rewrite Ew. fold rounded.
  destruct ((rounded =? 0) && (0 <? v)) eqn:Ez.
  { left. apply andb_prop in Ez as [E1 E2]. apply Z.eqb_eq in E1. by apply Z.ltb_lt in E2. }
  right. split; [|split; [done|]].
  { destruct (Z.eqb_spec rounded 0); [|by left]. right. simpl in Ez. apply Z.ltb_ge in Ez.
    destruct Hv. lia. }
  destruct (to_string_spec rounded Hr) as (Hne & Hdig & _).
  destruct (Nat.eqb_spec d 0) as [->|Hd0].
  - unfold integer_part, fraction_part. destruct (u256_to_string rounded) as [|c s] eqn:E; [done|].
    cbn [length Nat.leb]. rewrite Nat.sub_0_r.
    rewrite (take_ge (c :: s)), (drop_ge (c :: s)) by done. done.
  - destruct (parts_spec (u256_to_string rounded) d Hdig) as (Hi & _ & Hf & _).
    rewrite <- trim_point by done. f_equal. f_equal. f_equal. unfold integer_part, fraction_part.
    by destruct (_ <=? d)%nat.
Qed.

End Rounding.

(** Amounts survive their text.  The serialized form of an amount parses
    back to exactly the amount.  A form for display with [d] decimals parses to
    an amount of the same asset that is exact when [d] is the precision of the
    asset or more, and otherwise off by at most half a unit of the last shown
    decimal; it is zero only when the amount is. *)
Theorem amount_text_roundtrip `{U256TextLaws} v a d :
  fits 256 v ->
  deserialize (serialize (mkAmount v a)) = Ok (mkAmount v a)
  /\ exists v', parse (format_display (mkAmount v a) d) None = Ok (mkAmount v' a)
       /\ (decimals a <= Z.of_nat d -> v' = v)
       /\ (Z.of_nat d < decimals a -> 2 * Z.abs (v' - v) <= 10 ^ (decimals a - Z.of_nat d))
       /\ (v' = 0 -> v = 0).
Proof.
  intros Hv. split; [by apply parse_format_amount|]. unfold format_display. simpl.
  destruct (Z.le_gt_cases (decimals a) (Z.of_nat d)) as [Hd|Hd].
  { exists v. split_and!; [|done|lia|done]. unfold format_amount_rounded.
    destruct (Nat.leb_spec (Z.to_nat (decimals a)) d); [by apply parse_format_amount|lia]. }
  destruct (round_close v (decimals a - Z.of_nat d) ltac:(lia) (proj1 Hv)) as [Hup Hclose].
  set (divisor := 10 ^ (decimals a - Z.of_nat d)) in *.
  assert (0 < divisor) as Hpos by (apply Z.pow_pos_nonneg; lia).
  destruct (format_amount_rounded_render v a d Hv ltac:(lia)) as [(_ & _ & ->)|(Hz & Hr & ->)].
  { exists v. split_and!; [by apply parse_format_amount|done|lia|done]. }
  fold divisor in Hz, Hr |- *. set (rounded := wadd 256 v (divisor / 2) / divisor) in *.
  assert (v + divisor / 2 < 2 ^ 256) as Hnw.
  { destruct (Z.lt_ge_cases (v + divisor / 2) (2 ^ 256)) as [|Hw]; [done|]. exfalso.
    assert (0 <= divisor / 2 < divisor) as Hh by (split; [apply Z.div_pos; lia|apply Z.div_lt; lia]).
    destruct Hv as [Hv0 Hv1].
    assert (divisor <= 10 ^ 18) by (apply Z.pow_le_mono_r; [lia|destruct a; simpl; lia]).
    assert (wadd 256 v (divisor / 2) = v + divisor / 2 - 2 ^ 256) as Ew.
    { unfold wadd, wrap. symmetry. apply Z.mod_unique with 1; lia. }
    assert (rounded = 0) as Hr0 by (unfold rounded; rewrite Ew; apply Z.div_small; lia).
    destruct Hz as [|Hz]; [done|]. subst v. assert (10 ^ 18 < 2 ^ 256) by done. lia. }
  assert (rounded * divisor = (v + divisor / 2) / divisor * divisor) as Er.
  { unfold rounded, wadd. rewrite wrap_small; [done|]. destruct Hv. split; [|done].
    assert (0 <= divisor / 2) by (apply Z.div_pos; lia). lia. }
  destruct (to_string_spec rounded Hr) as (_ & Hdig & Hval).
  exists (rounded * divisor). split_and!.
  - apply parse_trimmed; [done|lia|by rewrite Hval|]. rewrite Er. split; [|lia].
    apply Z.mul_nonneg_nonneg; [apply Z.div_pos; [|lia]|lia]. destruct Hv.
    assert (0 <= divisor / 2) by (apply Z.div_pos; lia). lia.
  - lia.
  - intros _. by rewrite Er.
  - intros E0. destruct Hz as [Hz|]; [|done]. exfalso. nia.
Qed.

(** ** Witnesses *)

(** Decimal conversions that meet the laws. *)
Fixpoint dec_pad (n : nat) (z : Z) : str :=
  match n with
  | O => []
  | S n => dec_pad n (z / 10) ++ [ascii_of_N (Z.to_N (48 + z mod 10))]
  end.

Fixpoint dec_len (fuel : nat) (z : Z) : nat :=
  match fuel with
  | O => 1
  | S fuel => if z <? 10 then 1 else S (dec_len fuel (z / 10))
  end.

Definition toy_text : U256Text := {|
  u256_to_string := fun v => dec_pad (dec_len 78 v) v;
  u256_from_str := fun s =>
    if forallb is_digit s && (dec_value s <? 2 ^ 256) then Some (dec_value s) else None
|}.

Lemma digit_code d : 0 <= d < 10 -> code (ascii_of_N (Z.to_N (48 + d))) = 48 + d.
Proof. intros Hd. unfold code. rewrite N_ascii_embedding by lia. lia. Qed.

Lemma dec_pad_spec n z :
  0 <= z < 10 ^ Z.of_nat n -> digits (dec_pad n z) /\ dec_value (dec_pad n z) = z.
Proof.
  revert z. induction n as [|n IH]; intros z Hz; [simpl in *; split; [constructor|]; change (dec_value []) with 0; lia|].
  cbn [dec_pad]. rewrite Nat2Z.inj_succ, Z.pow_succ_r in Hz by lia.
  pose proof (Z.mod_pos_bound z 10 ltac:(lia)) as Hm.
  pose proof (digit_code (z mod 10) Hm) as Hc.
  destruct (IH (z / 10)) as [Hd Hv].
  { split; [apply Z.div_pos; lia|apply Z.div_lt_upper_bound; lia]. }
  split.
  - apply digits_app. split; [done|]. constructor; [|constructor]. unfold is_digit.
    rewrite Hc. apply andb_true_intro. split; apply Z.leb_le; lia.
  - rewrite dec_value_app, Hv. unfold dec_value. cbn [foldl length]. rewrite Hc.
    pose proof (Z.div_mod z 10 ltac:(lia)). lia.
Qed.

Lemma dec_len_spec fuel z :
  0 <= z < 10 ^ Z.of_nat (S fuel) -> z < 10 ^ Z.of_nat (dec_len fuel z) /\ dec_len fuel z <> O.
Proof.
  revert z. induction fuel as [|fuel IH]; intros z Hz; cbn [dec_len]; [split; [lia|done]|].
  destruct (Z.ltb_spec z 10); [split; [lia|done]|]. split; [|done].
  rewrite Nat2Z.inj_succ, Z.pow_succ_r in Hz by lia.
  destruct (IH (z / 10)) as [Hl _].
  { split; [apply Z.div_pos; lia|apply Z.div_lt_upper_bound; lia]. }
  rewrite Nat2Z.inj_succ, Z.pow_succ_r by lia.
  pose proof (Z.div_mod z 10 ltac:(lia)). pose proof (Z.mod_pos_bound z 10 ltac:(lia)). lia.
Qed.

Lemma toy_text_laws : @U256TextLaws toy_text.
Proof.
  split.
  - intros v [Hv0 Hv1]. assert (2 ^ 256 < 10 ^ Z.of_nat 79) by done.
    destruct (dec_len_spec 78 v) as [Hl Hn]; [lia|].
    destruct (dec_pad_spec (dec_len 78 v) v) as [Hd Hv]; [lia|].
    split_and!; [|exact Hd|exact Hv]. change (dec_pad (dec_len 78 v) v <> []).
    revert Hn. clear. generalize (dec_len 78 v). intros [|n] Hn; [done|]. cbn [dec_pad].
    intros E. by apply app_eq_nil in E as [_ ?].
  - intros s _ Hs. simpl. assert (forallb is_digit s = true) as ->; [|done].
    apply List.forallb_forall. intros c Hc. apply (proj1 (List.Forall_forall _ _) Hs c Hc).
Defined.

Lemma amount_text_roundtrip_witness :
  fits 256 1500000000000000001
  /\ @serialize toy_text (mkAmount 1500000000000000001 ETH) = lit "1.500000000000000001 ETH"
  /\ @deserialize toy_text (lit "1.500000000000000001 ETH") = Ok (mkAmount 1500000000000000001 ETH)
  /\ @format toy_text (mkAmount 1500000000000000001 ETH) = lit "1.5 ETH".
Proof.
  assert (Hf : fits 256 1500000000000000001) by (unfold fits; lia).
  destruct (@amount_text_roundtrip toy_text toy_text_laws 1500000000000000001 ETH 8 Hf) as [Hr _].
  assert (Hs : @serialize toy_text (mkAmount 1500000000000000001 ETH) = lit "1.500000000000000001 ETH")
    by (vm_compute; reflexivity).
  rewrite Hs in Hr. split; [exact Hf|]. split; [exact Hs|]. split; [exact Hr|].
  vm_compute. reflexivity.
Defined.

(** With a default asset, an amount with extra words is not refused: its asset
    is ignored and the default taken. *)
Lemma parse_default_overrides_asset :
  @parse toy_text (lit "1.5 ETH each") (Some USD) = Ok (mkAmount 1500000 USD)
  /\ @parse toy_text (lit "1.5 ETH each") None = Err InvalidFormat.
Proof. split; vm_compute; reflexivity. Qed.
