(* ===== verification/Oracle.v ===== *)
(** * Oracle: exchange rates

    [crates/boundless-market/src/price_oracle]: the rates of
    [exchange_rate.rs], the aggregation of sources in [composite_oracle.rs],
    the cache of [cached_oracle.rs], the conversions and the refresh task of
    [manager.rs], the assembly of [config.rs] and the Chainlink sources.

    An oracle is a record of operations over a world that holds the two caches
    of the manager beside the rest; a call to a source may change the caches,
    as another task does that runs during the await.  [join_all] and [join!]
    are sequences in index order.  The class [PriceFeeds] holds the transports:
    the contract call behind Chainlink and the HTTP sources.  Prices in floating
    point stay behind it. *)

From S2P Require Import Prelude Market Selector.
From stdpp Require Import pretty.

Local Open Scope Z_scope.

(** ** Pairs, rates and errors *)

Definition base (self : TradingPair) : Asset :=
  match self with EthUsd => ETH | ZkcUsd => ZKC end.

Definition quote (self : TradingPair) : Asset :=
  match self with EthUsd => USD | ZkcUsd => USD end.

Definition asset_text (a : Asset) : string :=
  match a with USD => "USD" | ETH => "ETH" | ZKC => "ZKC" end.

Definition pair_display (self : TradingPair) : string :=
  asset_text (base self) +:+ "/" +:+ asset_text (quote self).

Definition pair_debug (self : TradingPair) : string :=
  match self with EthUsd => "EthUsd" | ZkcUsd => "ZkcUsd" end.

Record ExchangeRate := mkRate {
  er_pair : TradingPair;
  er_rate : Z;
  er_timestamp : Z
}.

Definition oracle_error_code (self : PriceOracleError) : string :=
  match self with
  | AllSourcesFailed _ _ => "[B-PO-001]"
  | InsufficientSources _ _ _ => "[B-PO-002]"
  | RpcError _ => "[B-PO-003]"
  | HttpError _ => "[B-PO-004]"
  | InvalidPrice _ => "[B-PO-005]"
  | StalePrice _ _ => "[B-PO-006]"
  | ConfigError _ => "[B-PO-007]"
  | Internal _ => "[B-PO-008]"
  | UpdateTimeout => "[B-PO-009]"
  end.

Definition show_oracle_error (self : PriceOracleError) : string :=
  oracle_error_code self +:+
  match self with
  | AllSourcesFailed p _ => " All price sources failed for " +:+ pair_debug p
  | InsufficientSources p got need =>
      " Insufficient sources for " +:+ pair_debug p +:+ ": got " +:+ pretty got +:+ ", need "
      +:+ pretty need
  | RpcError e => " RPC error: " +:+ e
  | HttpError e => " HTTP error: " +:+ e
  | InvalidPrice e => " Invalid price data: " +:+ e
  | StalePrice age_secs max_secs =>
      " Stale price data: age " +:+ pretty age_secs +:+ "s exceeds max " +:+ pretty max_secs +:+ "s"
  | ConfigError e => " Configuration error: " +:+ e
  | Internal e => " Internal error: " +:+ e
  | UpdateTimeout =>
      " Price oracle could not be updated for too long. Please make sure it is correctly configured or set static prices in the config."
  end.

(** [ExchangeRate::convert]. *)
Definition rate_convert (self : ExchangeRate) (amount : Amount) : result ConversionError Amount :=
  if negb (bool_decide (amount_asset amount = base (er_pair self)))
  then Err (AssetMismatch (base (er_pair self)) (amount_asset amount)) else
  converted ← convert_asset_value (amount_value amount) (base (er_pair self))
                (quote (er_pair self)) (er_rate self);
  mret (mkAmount converted (quote (er_pair self))).

(** [is_stale]; [now] is the reading of the system clock. *)
Definition is_stale (now : Z) (self : ExchangeRate) (max_age_secs : Z) : bool :=
  max_age_secs <? sat_sub now (er_timestamp self).

(** [rate.to::<u128>()] panics on a larger value; [rate_to_f64] starts with
    it. *)
Definition to_u128 {E} (rate : Z) : result E Z :=
  if rate <? 2 ^ 128 then Ok rate else Panic.

(** [scale_price_from_i256]. *)
Definition scale_price_from_i256 (price decimals : Z) : result PriceOracleError Z :=
  if price <=? 0 then Err (InvalidPrice ("non-positive: " +:+ pretty price)) else
  if decimals =? PRICE_QUOTE_DECIMALS then Ok price else
  if decimals <? PRICE_QUOTE_DECIMALS
  then Ok (wmul 256 price (wpow 64 10 (PRICE_QUOTE_DECIMALS - decimals)))
  else checked_quot price (wpow 64 10 (decimals - PRICE_QUOTE_DECIMALS)).

(** ** Oracles *)

(** The trait [PriceOracle]. *)
Record PriceOracle (W : Type) := mkOracle {
  po_pair : TradingPair;
  po_name : string;
  po_get_rate : ste W PriceOracleError ExchangeRate
}.
Arguments mkOracle {W} _ _ _.
Arguments po_pair {W} _.
Arguments po_name {W} _.
Arguments po_get_rate {W} _.

Inductive AggregationMode := Priority | Median | Average.

Record CompositeOracle (W : Type) := mkComposite {
  sources : list (PriceOracle W);
  aggregation_mode : AggregationMode;
  min_sources : Z;
  co_pair : TradingPair
}.
Arguments mkComposite {W} _ _ _ _.
Arguments sources {W} _.
Arguments aggregation_mode {W} _.
Arguments min_sources {W} _.
Arguments co_pair {W} _.

Section Composite.
Context {W : Type}.

(** [fetch_priority_sequential]: the first source that answers, with the
    errors of those before it. *)
Fixpoint fetch_priority (pair : TradingPair) (srcs : list (PriceOracle W)) (errors : list string)
    : ste W PriceOracleError ExchangeRate :=
  match srcs with
  | [] => throw (AllSourcesFailed pair errors)
  | source :: srcs =>
      r ← catch (po_get_rate source);
      match r with
      | inr rate => mret rate
      | inl e => fetch_priority pair srcs (errors ++ [po_name source +:+ ": " +:+ show_oracle_error e])
      end
  end.

Fixpoint fetch_all (srcs : list (PriceOracle W))
    : ste W PriceOracleError (list (PriceOracleError + ExchangeRate)) :=
  match srcs with
  | [] => mret []
  | source :: srcs =>
      r ← catch (po_get_rate source);
      rs ← fetch_all srcs;
      mret (r :: rs)
  end.

(** The loop over the answers: the rates are kept, each with a summary that
    prints it as a float. *)
Fixpoint successful_rates (results : list (PriceOracleError + ExchangeRate))
    : result PriceOracleError (list ExchangeRate) :=
  match results with
  | [] => Ok []
  | inr rate :: results =>
      _ ← to_u128 (er_rate rate);
      rest ← successful_rates results;
      mret (rate :: rest)
  | inl _ :: results => successful_rates results
  end.

(** The upper median of the rates. *)
Definition median_rate (successful : list ExchangeRate) : result PriceOracleError ExchangeRate :=
  let sorted := stable_sort er_rate successful in
  unwrap (sorted !! (length sorted / 2)%nat).

(** The sum is a [u128] that wraps. *)
Definition average_rate (pair : TradingPair) (successful : list ExchangeRate)
    : result PriceOracleError ExchangeRate :=
  rates ← collect (fun r => to_u128 (er_rate r)) successful;
  avg ← checked_quot (foldl (wadd 128) 0 rates) (Z.of_nat (length successful));
  first ← unwrap (head successful);
  mret (mkRate pair avg (er_timestamp first)).

Definition aggregate_median_or_average (self : CompositeOracle W)
    (results : list (PriceOracleError + ExchangeRate)) : result PriceOracleError ExchangeRate :=
  successful ← successful_rates results;
  let got := Z.of_nat (length successful) in
  if got <? min_sources self
  then Err (InsufficientSources (co_pair self) (wrap 8 got) (min_sources self)) else
  match aggregation_mode self with
  | Median => median_rate successful
  | Average => average_rate (co_pair self) successful
  | Priority => Panic
  end.

Definition composite_get_rate (self : CompositeOracle W) : ste W PriceOracleError ExchangeRate :=
  match aggregation_mode self with
  | Priority => fetch_priority (co_pair self) (sources self) []
  | Median | Average =>
      results ← fetch_all (sources self);
      liftr (aggregate_median_or_average self results)
  end.

Definition composite_oracle (self : CompositeOracle W) : PriceOracle W :=
  mkOracle (co_pair self)
    ("CompositeOracle: " +:+ String.concat ", " (po_name <$> sources self))
    (composite_get_rate self).

End Composite.

(** ** The caches and the manager *)

Record OracleWorld (X : Type) := mkOracleWorld {
  eth_cell : option ExchangeRate;
  zkc_cell : option ExchangeRate;
  ow_ext : X
}.
Arguments mkOracleWorld {X} _ _ _.
Arguments eth_cell {X} _.
Arguments zkc_cell {X} _.
Arguments ow_ext {X} _.

Class OracleEnv (X : Type) := {
  oracle_clock : st X Z;
  sleep_secs : Z -> st X unit;
  (** the error that the refresh task logs *)
  log_error : PriceOracleError -> st X unit
}.

Record PriceOracleManager (X : Type) := mkManager {
  eth_usd : PriceOracle (OracleWorld X);
  zkc_usd : PriceOracle (OracleWorld X);
  refresh_interval : Z;
  max_time_without_update : Z
}.
Arguments mkManager {X} _ _ _ _.
Arguments eth_usd {X} _.
Arguments zkc_usd {X} _.
Arguments refresh_interval {X} _.
Arguments max_time_without_update {X} _.

Section Manager.
Context {X : Type} `{OracleEnv X}.
Notation W := (OracleWorld X).

Definition oenv {A} (m : st X A) : st W A := fun w =>
  let (a, x) := m (ow_ext w) in (a, mkOracleWorld (eth_cell w) (zkc_cell w) x).

(** Each of the two cached oracles is named by its pair. *)
Definition get_cached_rate (slot : TradingPair) : st W (option ExchangeRate) := fun w =>
  (match slot with EthUsd => eth_cell w | ZkcUsd => zkc_cell w end, w).

Definition write_cache (slot : TradingPair) (rate : ExchangeRate) : st W unit := fun w =>
  (tt, match slot with
       | EthUsd => mkOracleWorld (Some rate) (zkc_cell w) (ow_ext w)
       | ZkcUsd => mkOracleWorld (eth_cell w) (Some rate) (ow_ext w)
       end).

(** The loop [for attempt in 1..=max_attempts]: [n] attempts are left. *)
Fixpoint refresh_attempts {E} (slot : TradingPair) (oracle : PriceOracle W) (max_attempts attempt : Z)
    (n : nat) : ste W E unit :=
  match n with
  | O => mret tt
  | S n =>
      r ← catch (po_get_rate oracle);
      match r with
      | inr rate => lift (write_cache slot rate)
      | inl _ =>
          _ ← (if attempt <? max_attempts then lift (oenv (sleep_secs (attempt * 2)))
               else mret tt);
          refresh_attempts slot oracle max_attempts (attempt + 1) n
      end
  end.

Definition refresh_rate {E} (slot : TradingPair) (oracle : PriceOracle W) : ste W E unit :=
  cached ← lift (get_cached_rate slot);
  let max_attempts := if bool_decide (is_Some cached) then 1 else 3 in
  refresh_attempts slot oracle max_attempts 1 (Z.to_nat max_attempts).

Definition cached_get_rate (slot : TradingPair) (oracle : PriceOracle W)
    : ste W PriceOracleError ExchangeRate :=
  cached ← lift (get_cached_rate slot);
  match cached with
  | Some rate => mret rate
  | None =>
      rate ← po_get_rate oracle;
      _ ← lift (write_cache slot rate);
      mret rate
  end.

Context (self : PriceOracleManager X).

Definition get_rate (pair : TradingPair) : ste W PriceOracleError ExchangeRate :=
  match pair with
  | EthUsd => cached_get_rate EthUsd (eth_usd self)
  | ZkcUsd => cached_get_rate ZkcUsd (zkc_usd self)
  end.

(** A conversion over one pair. *)
Definition convert_over (pair : TradingPair) (amount : Amount) (target : Asset)
    : ste W ConversionError Amount :=
  rate ← with_err ConvPriceOracle (get_rate pair);
  v ← liftr (convert_asset_value (amount_value amount) (amount_asset amount) target (er_rate rate));
  mret (mkAmount v target).

(** [convert] with the two-hop conversions unfolded: their inner calls are over
    one pair each, or return the amount. *)
Definition convert (amount : Amount) (target : Asset) : ste W ConversionError Amount :=
  match amount_asset amount, target with
  | USD, USD | ETH, ETH | ZKC, ZKC => mret amount
  | USD, ETH | ETH, USD => convert_over EthUsd amount target
  | USD, ZKC | ZKC, USD => convert_over ZkcUsd amount target
  | ETH, ZKC =>
      usd_amount ← convert_over EthUsd amount USD;
      convert_over ZkcUsd usd_amount target
  | ZKC, ETH =>
      usd_amount ← convert_over ZkcUsd amount USD;
      convert_over EthUsd usd_amount target
  end.

Definition refresh_all_rates {E} : ste W E unit :=
  _ ← refresh_rate EthUsd (eth_usd self);
  refresh_rate ZkcUsd (zkc_usd self).

(** [rate.is_none_or(|r| r.is_stale(..))], which reads the clock when there is a
    rate. *)
Definition none_or_stale (rate : option ExchangeRate) : st W bool :=
  match rate with
  | None => mret true
  | Some r => now ← oenv oracle_clock; mret (is_stale now r (max_time_without_update self))
  end.

(** The tick of the refresh task. *)
Definition oracle_tick {E} : ste W E unit :=
  _ ← refresh_all_rates;
  if 0 <? max_time_without_update self then
    eth_rate ← lift (get_cached_rate EthUsd);
    zkc_rate ← lift (get_cached_rate ZkcUsd);
    eth_old ← lift (none_or_stale eth_rate);
    zkc_old ← (if eth_old : bool then mret true else lift (none_or_stale zkc_rate));
    if zkc_old : bool then lift (oenv (log_error UpdateTimeout)) else mret tt
  else mret tt.

(** [start_oracle]: one flag per turn of the loop, set when the task is
    cancelled. *)
Fixpoint start_oracle (turns : list bool) : ste W PriceOracleError unit :=
  match turns with
  | [] => mret tt
  | true :: _ => mret tt
  | false :: turns => _ ← oracle_tick; start_oracle turns
  end.

End Manager.

(** ** Chainlink *)

Record FeedInfo := mkFeed { feed_address : Z; feed_decimals : Z }.

Inductive NamedChain := Mainnet | Sepolia | Base | BaseSepolia | OtherChain (id : Z).

#[export] Instance NamedChain_eq_dec : EqDecision NamedChain.
Proof. solve_decision. Defined.

Definition mainnet_feed : FeedInfo := mkFeed 0x5f4eC3Df9cbd43714FE2740f5E3616155c5b8419 8.

Definition eth_usd_feed (chain : NamedChain) : option FeedInfo :=
  match chain with
  | Mainnet => Some mainnet_feed
  | Sepolia => Some (mkFeed 0x694AA1769357215DE4FAC081bf1f309aDC325306 8)
  | Base => Some (mkFeed 0x71041dddad3595F9CEd3DcCFBe3D1F4b0a16Bb70 8)
  | BaseSepolia => Some (mkFeed 0x4aDC67696bA383F43DD60A9e78F2C97Fbbfc7cb1 8)
  | OtherChain _ => None
  end.

Definition CHAINLINK_PUBLIC_RPC_URLS : list string :=
  ["https://ethereum-rpc.publicnode.com"; "https://mainnet.gateway.tenderly.co";
   "https://1rpc.io/eth"; "https://eth.drpc.org"; "https://eth.merkle.io";
   "https://eth.llamarpc.com"].

(** The transports.  A provider is named by its URL, the broker's own by
    [None]. *)
Class PriceFeeds (W : Type) := {
  latest_round_data : option string -> Z -> ste W string (Z * Z);
  build_mainnet_provider : string -> Z -> result PriceOracleError string;
  coingecko_new : TradingPair -> Z -> result PriceOracleError (PriceOracle W);
  cmc_new : TradingPair -> string -> Z -> result PriceOracleError (PriceOracle W);
  coinbase_new : TradingPair -> Z -> result PriceOracleError (PriceOracle W);
  static_source_new : TradingPair -> Z -> PriceOracle W
}.

Section Chainlink.
Context {W : Type} `{PriceFeeds W}.

Record ChainlinkSource := mkChainlink {
  cl_pair : TradingPair;
  cl_provider : option string;
  cl_feed : FeedInfo
}.

(** [fetch_rate]: the answer and the time of the last round. *)
Definition chainlink_fetch_rate (self : ChainlinkSource) : ste W PriceOracleError ExchangeRate :=
  '(answer, updatedAt) ← with_err RpcError
     (latest_round_data (cl_provider self) (feed_address (cl_feed self)));
  rate ← liftr (scale_price_from_i256 answer (feed_decimals (cl_feed self)));
  timestamp ← liftr (if updatedAt <? 2 ^ 64 then Ok updatedAt
                     else Err (Internal "timestamp conversion failed"));
  mret (mkRate (cl_pair self) rate timestamp).

Definition for_eth_usd (chain : NamedChain) : option (PriceOracle W) :=
  (fun feed => mkOracle EthUsd ("ChainlinkSource(" +:+ pair_display EthUsd +:+ ")")
     (chainlink_fetch_rate (mkChainlink EthUsd None feed))) <$> eth_usd_feed chain.

(** The loop of [ChainlinkMainnetSource::get_rate]. *)
Fixpoint mainnet_get_rate (srcs : list ChainlinkSource) (last_err : option PriceOracleError)
    : ste W PriceOracleError ExchangeRate :=
  match srcs with
  | [] => throw (default (Internal "No Chainlink RPC URLs configured") last_err)
  | source :: srcs =>
      r ← catch (chainlink_fetch_rate source);
      match r with
      | inr rate => mret rate
      | inl e => mainnet_get_rate srcs (Some e)
      end
  end.

Definition eth_usd_mainnet (rpc_urls : list string) (timeout : Z)
    : result PriceOracleError (PriceOracle W) :=
  if bool_decide (rpc_urls = [])
  then Err (ConfigError "At least one Chainlink RPC URL is required") else
  srcs ← collect (fun url =>
           provider ← build_mainnet_provider url timeout;
           mret (mkChainlink EthUsd (Some provider) mainnet_feed)) rpc_urls;
  mret (mkOracle EthUsd
          ("ChainlinkMainnet(ETH/USD, " +:+ pretty (Z.of_nat (length srcs)) +:+ " RPCs)")
          (mainnet_get_rate srcs None)).

(** ** Assembly *)

(** A static price is a float, kept as its bits. *)
Inductive PriceValue := Auto | Static (bits : Z).

Record ChainlinkConfig := mkChainlinkConfig { chainlink_enabled : bool; cl_rpc_url : option string }.
Record CoinGeckoConfig := mkCoinGecko { coingecko_enabled : bool; cg_api_key : option string }.
Record CoinMarketCapConfig := mkCmc { cmc_enabled : bool; cmc_api_key : string }.
Record CoinbaseConfig := mkCoinbase { coinbase_enabled : bool }.
Record OnChainConfig := mkOnChain { chainlink : option ChainlinkConfig }.
Record OffChainConfig := mkOffChain {
  coingecko : option CoinGeckoConfig;
  cmc : option CoinMarketCapConfig;
  coinbase : option CoinbaseConfig
}.

Record PriceOracleConfig := mkOracleConfig {
  cfg_eth_usd : PriceValue;
  cfg_zkc_usd : PriceValue;
  max_secs_without_price_update : Z;
  refresh_interval_secs : Z;
  timeout_secs : Z;
  cfg_aggregation_mode : AggregationMode;
  cfg_min_sources : Z;
  onchain : option OnChainConfig;
  offchain : option OffChainConfig
}.

Definition oracle_config_default : PriceOracleConfig := {|
  cfg_eth_usd := Auto; cfg_zkc_usd := Auto;
  max_secs_without_price_update := 43200; refresh_interval_secs := 900; timeout_secs := 10;
  cfg_aggregation_mode := Median; cfg_min_sources := 1;
  onchain := Some (mkOnChain (Some (mkChainlinkConfig true None)));
  offchain := Some (mkOffChain (Some (mkCoinGecko true None)) None (Some (mkCoinbase true)))
|}.

Definition chainlink_sources (self : PriceOracleConfig) (p : TradingPair) (named_chain : NamedChain)
    : result PriceOracleError (list (PriceOracle W)) :=
  match onchain self ≫= chainlink with
  | Some c =>
      if chainlink_enabled c && bool_decide (p = EthUsd) then
        let local := match for_eth_usd named_chain with Some s => [s] | None => [] end in
        if bool_decide (named_chain <> Mainnet) then
          let rpc_urls := match cl_rpc_url c with Some url => [url] | None => [] end
                          ++ CHAINLINK_PUBLIC_RPC_URLS in
          mainnet ← eth_usd_mainnet rpc_urls (timeout_secs self);
          mret (local ++ [mainnet])
        else mret local
      else mret []
  | None => mret []
  end.

(** [new(..)?], pushed when its section is present and enabled. *)
Definition push_enabled (enabled : bool) (new : result PriceOracleError (PriceOracle W))
    (srcs : list (PriceOracle W)) : result PriceOracleError (list (PriceOracle W)) :=
  if enabled then s ← new; mret (srcs ++ [s]) else mret srcs.

Definition offchain_sources (self : PriceOracleConfig) (p : TradingPair)
    (srcs : list (PriceOracle W)) : result PriceOracleError (list (PriceOracle W)) :=
  match offchain self with
  | None => mret srcs
  | Some off =>
      srcs ← match coingecko off with
             | Some c => push_enabled (coingecko_enabled c) (coingecko_new p (timeout_secs self)) srcs
             | None => mret srcs end;
      srcs ← match cmc off with
             | Some c => push_enabled (cmc_enabled c) (cmc_new p (cmc_api_key c) (timeout_secs self)) srcs
             | None => mret srcs end;
      match coinbase off with
      | Some c => push_enabled (coinbase_enabled c) (coinbase_new p (timeout_secs self)) srcs
      | None => mret srcs end
  end.

(** The oracle behind the cache. *)
Definition build_oracle_for_pair (self : PriceOracleConfig) (p : TradingPair)
    (price_value : PriceValue) (named_chain : NamedChain)
    : result PriceOracleError (PriceOracle W) :=
  match price_value with
  | Static price => mret (static_source_new p price)
  | Auto =>
      srcs ← chainlink_sources self p named_chain;
      srcs ← offchain_sources self p srcs;
      if bool_decide (length srcs = 0%nat)
      then Err (ConfigError ("No price sources configured for " +:+ pair_display p +:+
             ": ensure at least one source is enabled when using 'auto' pricing or specify a static price"))
      else mret (composite_oracle
                   (mkComposite srcs (cfg_aggregation_mode self) (cfg_min_sources self) p))
  end.

End Chainlink.

Definition build {X} `{PriceFeeds (OracleWorld X)} (self : PriceOracleConfig)
    (named_chain : NamedChain) : result PriceOracleError (PriceOracleManager X) :=
  eth ← build_oracle_for_pair self EthUsd (cfg_eth_usd self) named_chain;
  zkc ← build_oracle_for_pair self ZkcUsd (cfg_zkc_usd self) named_chain;
  mret (mkManager eth zkc (refresh_interval_secs self) (max_secs_without_price_update self)).

(** ** Aggregation *)

Lemma to_u128_fits {E} v : fits 128 v -> to_u128 (E := E) v = Ok v.
Proof. unfold to_u128. intros []. by destruct (Z.ltb_spec v (2 ^ 128)); [|lia]. Qed.

(** The rates among the answers. *)
Definition answered (results : list (PriceOracleError + ExchangeRate)) : list ExchangeRate :=
  omap (fun r => match r with inr rate => Some rate | inl _ => None end) results.

Lemma successful_rates_all results :
  Forall (fun r => fits 128 (er_rate r)) (answered results) ->
  successful_rates results = Ok (answered results).
Proof.
  induction results as [|[e|r] results IH]; [done|done|].
  change (answered (inr r :: results)) with (r :: answered results).
  intros [Hr Hrs]%Forall_cons. simpl. rewrite to_u128_fits by done. simpl. by rewrite IH.
Qed.

(** Elements at or before a place of a sorted list, and at or behind it. *)
Lemma sorted_split {A} (key : A -> Z) l i m :
  StronglySorted (fun a b => key a <= key b) l -> l !! i = Some m ->
  Forall (fun a => key a <= key m) (take (S i) l) /\ Forall (fun a => key m <= key a) (drop i l).
Proof.
  intros Hs Hi. pose proof (lookup_lt_Some _ _ _ Hi) as Hlen.
  pose proof (take_drop_middle l i m Hi) as E.
  rewrite (take_S_r _ _ _ Hi), (drop_S _ _ _ Hi).
  rewrite <- E in Hs. apply StronglySorted_app in Hs as (Hb & _ & Hr).
  apply StronglySorted_inv in Hr as [_ Hr]. split.
  - apply Forall_app. split; [|by constructor].
    apply Forall_forall. intros a Ha. apply (Hb a m); [done|by left].
  - by constructor.
Qed.

(** A stretch of a list that satisfies a predicate bounds the number of
    elements that do. *)
Lemma count_stretch {A} (P : A -> Prop) `{!forall x, Decision (P x)} (pre mid post : list A) :
  Forall P mid -> (length mid <= length (filter P (pre ++ mid ++ post)))%nat.
Proof.
  intros HP. rewrite !filter_app, !length_app.
  assert (filter P mid = mid) as ->; [|lia].
  induction HP as [|x mid Hx HP IH]; [done|]. by rewrite filter_cons_True, IH.
Qed.

Definition outside (lo hi : Z) (r : ExchangeRate) : Prop := er_rate r < lo \/ hi < er_rate r.

#[export] Instance outside_dec lo hi r : Decision (outside lo hi r).
Proof. unfold outside. apply _. Defined.

(** Fewer outliers than half of the rates do not move the median out. *)
Lemma median_majority lo hi l r :
  stable_sort er_rate l !! (length (stable_sort er_rate l) / 2)%nat = Some r ->
  (2 * length (filter (outside lo hi) l) < length l)%nat -> lo <= er_rate r <= hi.
Proof.
  pose proof (stable_sort_perm er_rate l) as Hp.
  pose proof (stable_sort_sorted er_rate l) as Hs.
  revert Hp Hs.
  generalize (stable_sort er_rate l). intros s Hp Hs Hr Hk. rewrite <- Hp in Hk.
  destruct (sorted_split er_rate s _ r Hs Hr) as [Hb Ha].
  set (i := (length s / 2)%nat) in *.
  pose proof (lookup_lt_Some _ _ _ Hr) as Hlen.
  pose proof (Nat.div_mod_eq (length s) 2) as Hd. fold i in Hd.
  pose proof (Nat.mod_upper_bound (length s) 2 ltac:(lia)).
  split; apply Z.nlt_ge; intros Hout.
  - assert (HF : Forall (outside lo hi) (take (S i) s)).
    { eapply Forall_impl; [exact Hb|]. intros a ?. left. simpl in *. lia. }
    pose proof (count_stretch _ [] _ (drop (S i) s) HF) as Hc. simpl app in Hc.
    rewrite take_drop, length_take in Hc. lia.
  - assert (HF : Forall (outside lo hi) (drop i s)).
    { eapply Forall_impl; [exact Ha|]. intros a ?. right. simpl in *. lia. }
    pose proof (count_stretch _ (take i s) _ [] HF) as Hc.
    rewrite app_nil_r, take_drop, length_drop in Hc. lia.
Qed.

Definition rate_sum (l : list ExchangeRate) : Z := foldr (fun r n => er_rate r + n) 0 l.

Lemma collect_rates l :
  Forall (fun r => fits 128 (er_rate r)) l ->
  collect (E := PriceOracleError) (fun r => to_u128 (er_rate r)) l = Ok (er_rate <$> l).
Proof.
  induction 1 as [|r l Hr _ IH]; [done|]. simpl. rewrite to_u128_fits by done. simpl.
  by rewrite IH.
Qed.

Lemma rate_sum_nonneg l : Forall (fun r => fits 128 (er_rate r)) l -> 0 <= rate_sum l.
Proof. induction 1 as [|r l [] _ IH]; simpl; lia. Qed.

Lemma wrapped_sum l acc :
  Forall (fun r => fits 128 (er_rate r)) l -> 0 <= acc -> acc + rate_sum l < 2 ^ 128 ->
  foldl (wadd 128) acc (er_rate <$> l) = acc + rate_sum l.
Proof.
  revert acc. induction l as [|r l IH]; intros acc; simpl; [lia|].
  intros [[Hr0 Hr1] Hl]%Forall_cons Ha Hs. pose proof (rate_sum_nonneg l Hl).
  rewrite wadd_small by (unfold fits; lia). rewrite IH by (done || lia). lia.
Qed.

Lemma rate_sum_bounds lo hi l :
  length (filter (outside lo hi) l) = 0%nat ->
  lo * Z.of_nat (length l) <= rate_sum l <= hi * Z.of_nat (length l).
Proof.
  induction l as [|r l IH]; [simpl; lia|]. rewrite filter_cons. case_decide as Hr; [done|].
  intros Hk. apply IH in Hk. unfold outside in Hr. simpl length. simpl rate_sum. lia.
Qed.

(** How many outliers an aggregation tolerates among [n] rates. *)
Definition tolerates (mode : AggregationMode) (outliers n : nat) : Prop :=
  match mode with
  | Median => (2 * outliers < n)%nat
  | Average => outliers = 0%nat
  | Priority => False
  end.

Lemma average_spec p l :
  Forall (fun r => fits 128 (er_rate r)) l -> rate_sum l < 2 ^ 128 -> l <> [] ->
  exists r, average_rate p l = Ok r
    /\ forall lo hi, length (filter (outside lo hi) l) = 0%nat -> lo <= er_rate r <= hi.
Proof.
  intros Hl Hs Hne. unfold average_rate. rewrite collect_rates by done. simpl.
  rewrite (wrapped_sum l 0) by (done || lia). destruct l as [|r l]; [done|].
  rewrite checked_quot_pos by (simpl; lia). simpl. eexists. split; [done|].
  intros lo hi Hk%rate_sum_bounds. simpl er_rate.
  split; [apply Z.div_le_lower_bound|apply Z.div_le_upper_bound]; simpl in *; lia.
Qed.

Lemma median_spec l :
  l <> [] ->
  exists r, median_rate l = Ok r /\ r ∈ l
    /\ forall lo hi, (2 * length (filter (outside lo hi) l) < length l)%nat ->
       lo <= er_rate r <= hi.
Proof.
  intros Hne. unfold median_rate. pose proof (stable_sort_perm er_rate l) as Hp.
  destruct (lookup_lt_is_Some_2 (stable_sort er_rate l)
    (length (stable_sort er_rate l) / 2)%nat) as [r Hr].
  { rewrite (Permutation_length Hp). apply Nat.div_lt; [|lia]. destruct l; simpl; [done|lia]. }
  rewrite Hr. exists r. split; [done|]. split.
  - rewrite <- Hp. by apply list_elem_of_lookup_2 in Hr.
  - intros lo hi Hk. by apply (median_majority lo hi l).
Qed.

(** The rate of a composite oracle is robust: when enough sources answer,
    it returns a rate, and that rate lies in every interval that holds the
    answers up to a minority of outliers for the median, and all of them for
    the average; when fewer answer than the configuration asks for, it fails
    with the two numbers.  The configured minimum must be positive, and the
    rates and their sum fit in 128 bits. *)
Theorem composite_rate_robust {W} (self : CompositeOracle W) (w : W) results w' :
  aggregation_mode self <> Priority -> 1 <= min_sources self ->
  fetch_all (sources self) w = (Ok results, w') ->
  let rates := answered results in
  let n := Z.of_nat (length rates) in
  Forall (fun r => fits 128 (er_rate r)) rates -> rate_sum rates < 2 ^ 128 ->
  (n < min_sources self ->
     composite_get_rate self w
     = (Err (InsufficientSources (co_pair self) (wrap 8 n) (min_sources self)), w'))
  /\ (min_sources self <= n ->
       exists r, composite_get_rate self w = (Ok r, w')
         /\ forall lo hi,
            tolerates (aggregation_mode self) (length (filter (outside lo hi) rates))
              (length rates) ->
            lo <= er_rate r <= hi).
Proof.
  intros Hmode Hmin Hf rates n Hfit Hsum.
  assert (composite_get_rate self w = (aggregate_median_or_average self results, w')) as ->.
  { unfold composite_get_rate. destruct (aggregation_mode self); [done|..];
      unfold mbind, ste_bind; by rewrite Hf. }
  unfold aggregate_median_or_average. rewrite successful_rates_all by done. simpl.
  fold rates. fold n. destruct (Z.ltb_spec n (min_sources self)) as [|Hn]; (split; [|intros Hn']);
    [done|lia|lia|].
  assert (Hne : rates <> []) by (intros E; subst n; rewrite E in Hn; simpl in Hn; lia).
  destruct (aggregation_mode self); [done|..].
  - destruct (median_spec rates Hne) as (r & -> & _ & Hr). by exists r.
  - destruct (average_spec (co_pair self) rates Hfit Hsum Hne) as (r & -> & Hr). by exists r.
Qed.

(** A feed's answer is rescaled to eight decimals, rounding down. *)
Lemma scale_price_exact price d :
  0 < price -> 0 <= d <= 27 -> price * 10 ^ 8 < 2 ^ 256 ->
  scale_price_from_i256 price d = Ok (price * 10 ^ 8 / 10 ^ d).
Proof.
  intros Hp Hd Hb. unfold scale_price_from_i256, PRICE_QUOTE_DECIMALS.
  destruct (Z.leb_spec price 0); [lia|]. destruct (Z.eqb_spec d 8) as [->|Hne].
  { by rewrite Z.div_mul. }
  assert (Hpow : forall k, 0 <= k <= 19 -> wpow 64 10 k = 10 ^ k).
  { intros k Hk. unfold wpow. apply wrap_small. split; [apply Z.pow_nonneg; lia|].
    apply Z.le_lt_trans with (10 ^ 19); [apply Z.pow_le_mono_r; lia|done]. }
  pose proof (Z.pow_pos_nonneg 10 d ltac:(lia) ltac:(lia)).
  destruct (Z.ltb_spec d 8).
  - rewrite Hpow by lia. assert (10 ^ 8 = 10 ^ (8 - d) * 10 ^ d) as E
      by (rewrite <- Z.pow_add_r by lia; f_equal; lia).
    rewrite E in *. rewrite Z.mul_assoc, Z.div_mul by lia.
    rewrite wmul_small; [done|]. pose proof (Z.pow_pos_nonneg 10 (8 - d) ltac:(lia) ltac:(lia)).
    unfold fits. nia.
  - rewrite Hpow by lia. assert (10 ^ d = 10 ^ (d - 8) * 10 ^ 8) as ->
      by (rewrite <- Z.pow_add_r by lia; f_equal; lia).
    pose proof (Z.pow_pos_nonneg 10 (d - 8) ltac:(lia) ltac:(lia)).
    rewrite checked_quot_pos by lia. by rewrite Z.div_mul_cancel_r by lia.
Qed.

(** In priority mode the first source that answers decides, and the sources
    behind it are not asked. *)
Lemma priority_first {W} p (bad : list (PriceOracle W)) source rest errors rate (w w' : W) :
  Forall (fun s => exists e, forall w, po_get_rate s w = (Err e, w)) bad ->
  po_get_rate source w = (Ok rate, w') ->
  fetch_priority p (bad ++ source :: rest) errors w = (Ok rate, w').
Proof.
  intros Hb Hs. revert errors. induction Hb as [|s bad [e He] _ IH]; intros errors; simpl;
    unfold mbind, ste_bind, catch; [by rewrite Hs|]. rewrite He. apply IH.
Qed.

(** ** The manager *)

Section ManagerSpecs.
Context {X : Type} `{OracleEnv X} (self : PriceOracleManager X).

(** A cached rate is used whatever its age: no source is asked and nothing is
    checked. *)
Lemma stale_rate_still_used p r (w : OracleWorld X) :
  get_cached_rate p w = (Some r, w) -> get_rate self p w = (Ok r, w).
Proof.
  destruct w as [e z x]. intros [= Hr]. unfold get_rate, cached_get_rate.
  by destruct p; unfold mbind, ste_bind, lift, get_cached_rate; simpl in *; rewrite Hr.
Qed.

(** Computations that do not fail. *)
Definition no_err {W E A} (m : ste W E A) : Prop := forall w e w', m w <> (Err e, w').

Lemma no_err_bind {W E A B} (m : ste W E A) (f : A -> ste W E B) :
  no_err m -> (forall a, no_err (f a)) -> no_err (m ≫= f).
Proof. intros Hm Hf w e w' [?|(a & w1 & _ & ?)]%ste_bind_Err; [by eapply Hm|by eapply Hf]. Qed.

Lemma no_err_lift {W E A} (m : st W A) : no_err (E := E) (lift m).
Proof. intros w e w'. unfold lift. by destruct (m w). Qed.

Lemma no_err_catch {W E F A} (m : ste W E A) : no_err (E := F) (catch m).
Proof. intros w e w'. unfold catch. by destruct (m w) as [[] ?]. Qed.

Lemma no_err_ret {W E A} (a : A) : no_err (W := W) (E := E) (mret a).
Proof. by intros w e w'. Qed.

Hint Resolve no_err_lift no_err_catch no_err_ret : core.

Lemma refresh_attempts_no_err {E} p oracle m a n :
  no_err (E := E) (refresh_attempts (X := X) p oracle m a n).
Proof.
  revert a. induction n as [|n IH]; intros a; simpl; [done|].
  apply no_err_bind; [done|]. intros [e|rate]; [|done].
  apply no_err_bind; [by destruct (a <? m)|done].
Qed.

Lemma refresh_rate_no_err {E} p oracle : no_err (E := E) (refresh_rate (X := X) p oracle).
Proof. apply no_err_bind; [done|]. intros cached. apply refresh_attempts_no_err. Qed.

(** The refresh task never gives up: a failed refresh and prices out of date
    are logged only. *)
Lemma start_oracle_never_fails turns : no_err (start_oracle self turns).
Proof.
  induction turns as [|[] turns IH]; simpl; [done..|]. apply no_err_bind; [|done].
  unfold oracle_tick, refresh_all_rates.
  apply no_err_bind; [by apply no_err_bind; [|intros]; apply refresh_rate_no_err|].
  intros _. destruct (0 <? _); [|done].
  do 3 (apply no_err_bind; [done|intros ?]). apply no_err_bind; [by case_match|].
  intros b. by destruct b.
Qed.

Lemma convert_over_cached p r amount target (w : OracleWorld X) :
  get_cached_rate p w = (Some r, w) ->
  convert_over self p amount target w
  = (v ← convert_asset_value (amount_value amount) (amount_asset amount) target (er_rate r);
     mret (mkAmount v target), w).
Proof.
  intros Hr%stale_rate_still_used. unfold convert_over, mbind, ste_bind, with_err. rewrite Hr.
  simpl. unfold liftr. by destruct (convert_asset_value _ _ _ _).
Qed.

End ManagerSpecs.

(** The two directions of a conversion over one pair. *)
Lemma convert_from_usd p v price x :
  0 < price -> convert_asset_value v USD (base p) price = Ok x -> x = v * 10 ^ 20 / price.
Proof.
  intros Hp. unfold convert_asset_value.
  assert (decimals (base p) = 18) as -> by (by destruct p). simpl (decimals USD). simpl (6 <? 18).
  cbv iota. change (18 - 6 + PRICE_QUOTE_DECIMALS) with 20. rewrite wpow_20.
  destruct (checked_mul 256 v (10 ^ 20)) as [a|] eqn:Ha; [|done].
  apply checked_mul_Some in Ha as [-> _]. simpl. unfold checked_div.
  destruct (Z.eqb_spec price 0); [lia|]. by intros [= <-].
Qed.

Lemma convert_to_usd p v price x :
  convert_asset_value v (base p) USD price = Ok x -> x = v * price / 10 ^ 20.
Proof.
  unfold convert_asset_value.
  assert (decimals (base p) = 18) as -> by (by destruct p). simpl (decimals USD). simpl (18 <? 6).
  simpl (6 <? 18). cbv iota. change (18 - 6 + PRICE_QUOTE_DECIMALS) with 20. rewrite wpow_20.
  destruct (checked_mul 256 v price) as [a|] eqn:Ha; [|done].
  apply checked_mul_Some in Ha as [-> _]. simpl. by intros [= <-].
Qed.

(** The value of a conversion at two rates, in the arithmetic of the integers:
    to dollars, and from dollars. *)
Section Values.
Context (e z : Z).

Definition to_usd (a : Asset) (v : Z) : Z :=
  match a with USD => v | ETH => v * e / 10 ^ 20 | ZKC => v * z / 10 ^ 20 end.

Definition of_usd (a : Asset) (v : Z) : Z :=
  match a with USD => v | ETH => v * 10 ^ 20 / e | ZKC => v * 10 ^ 20 / z end.

Definition value_in (from to : Asset) (v : Z) : Z :=
  if bool_decide (from = to) then v else of_usd to (to_usd from v).

Hypothesis e_pos : 0 < e.
Hypothesis z_pos : 0 < z.

Lemma div_there_back v a b : 0 < a -> 0 < b -> v * a / b * b / a <= v.
Proof.
  intros Ha Hb. apply Z.div_le_upper_bound; [done|].
  rewrite (Z.mul_comm _ b), (Z.mul_comm a v). by apply Z.mul_div_le.
Qed.

Lemma to_of_usd a u : to_usd a (of_usd a u) <= u.
Proof. destruct a; simpl; [lia|by apply div_there_back..]. Qed.

Lemma of_to_usd a v : of_usd a (to_usd a v) <= v.
Proof. destruct a; simpl; [lia|by apply div_there_back..]. Qed.

Lemma of_usd_mono a u v : u <= v -> of_usd a u <= of_usd a v.
Proof. intros Huv. destruct a; simpl; [done|apply Z.div_le_mono; lia..]. Qed.

Lemma value_there_and_back a b v : value_in b a (value_in a b v) <= v.
Proof.
  unfold value_in. destruct (decide (a = b)) as [->|Hne]; [by rewrite !bool_decide_eq_true_2|].
  rewrite !bool_decide_eq_false_2 by done.
  etrans; [apply of_usd_mono, to_of_usd|apply of_to_usd].
Qed.

Context {X : Type} `{OracleEnv X} (self : PriceOracleManager X) (w : OracleWorld X).
Context (re rz : ExchangeRate).
Hypothesis eth_cached : eth_cell w = Some re /\ er_rate re = e.
Hypothesis zkc_cached : zkc_cell w = Some rz /\ er_rate rz = z.

Lemma convert_over_value p amount target x w' :
  (amount_asset amount = USD /\ target = base p \/ amount_asset amount = base p /\ target = USD) ->
  convert_over self p amount target w = (Ok x, w') ->
  w' = w /\ x = mkAmount (value_in (amount_asset amount) target (amount_value amount)) target.
Proof.
  intros Hdir. destruct eth_cached as [He Hre], zkc_cached as [Hz Hrz].
  rewrite (convert_over_cached self p (match p with EthUsd => re | ZkcUsd => rz end))
    by (unfold get_cached_rate; destruct p; congruence).
  intros [= Hb <-]. apply result_bind_Ok in Hb as (v & Hv & [= <-]). split; [done|]. f_equal.
  destruct Hdir as [[Ha ->]|[Ha ->]]; rewrite Ha in *.
  - apply convert_from_usd in Hv; [|destruct p; congruence]. by destruct p; rewrite Hv, ?Hre, ?Hrz.
  - apply convert_to_usd in Hv. by destruct p; rewrite Hv, ?Hre, ?Hrz.
Qed.

(** With both rates cached, a conversion that succeeds leaves the world alone
    and computes [value_in]. *)
Lemma convert_value amount target x w' :
  convert self amount target w = (Ok x, w') ->
  w' = w /\ x = mkAmount (value_in (amount_asset amount) target (amount_value amount)) target.
Proof.
  destruct amount as [v a]. unfold convert; simpl.
  destruct a, target; try (by intros [= <- <-]);
    try (intros Hc; apply convert_over_value in Hc; [done|simpl; tauto]).
  all: intros Hc; apply ste_bind_Ok in Hc as (u & w1 & H1 & H2);
    apply convert_over_value in H1 as [-> ->]; [|simpl; tauto];
    apply convert_over_value in H2 as [-> ->]; [|simpl; tauto]; done.
Qed.

(** There and back through the cached rates never gains: each step rounds
    down. *)
Lemma there_and_back_no_gain amount target x y w1 w2 :
  convert self amount target w = (Ok x, w1) ->
  convert self x (amount_asset amount) w1 = (Ok y, w2) ->
  amount_asset y = amount_asset amount /\ amount_value y <= amount_value amount.
Proof.
  intros [-> ->]%convert_value [-> ->]%convert_value. simpl. split; [done|].
  apply value_there_and_back.
Qed.

End Values.

(** ** Witnesses and examples *)

(** Three sources, one of which reports half the price. *)
Definition fixed_source (name : string) (rate : Z) : PriceOracle unit :=
  mkOracle EthUsd name (fun w => (Ok (mkRate EthUsd rate 1000), w)).

Definition three_sources : CompositeOracle unit :=
  mkComposite [fixed_source "a" 200000000000; fixed_source "b" 100000000000;
               fixed_source "c" 201000000000] Median 2 EthUsd.

Definition three_rates : list ExchangeRate :=
  [mkRate EthUsd 200000000000 1000; mkRate EthUsd 100000000000 1000;
   mkRate EthUsd 201000000000 1000].

Lemma composite_rate_robust_witness :
  exists r, composite_get_rate three_sources tt = (Ok r, tt)
    /\ 200000000000 <= er_rate r <= 201000000000.
Proof.
  destruct (composite_rate_robust three_sources tt (inr <$> three_rates) tt) as [_ Hr];
    [done|done|done|by repeat constructor|done|].
  destruct Hr as (r & Hr & Hb); [done|]. exists r. split; [exact Hr|].
  apply Hb. vm_compute. lia.
Defined.

(** A minimum of zero sources is accepted by the configuration, and panics
    when no source answers. *)
Definition dead_source : PriceOracle unit :=
  mkOracle EthUsd "dead" (fun w => (Err (HttpError "timeout"), w)).

Lemma zero_min_sources_panics mode :
  mode <> Priority ->
  composite_get_rate (mkComposite [dead_source] mode 0 EthUsd) tt = (Panic, tt).
Proof. by destruct mode. Qed.
