(* ===== verification/OrderPricing.v ===== *)
(** * OrderPricing: deciding whether an order is worth proving

    [crates/boundless-market/src/prover_utils/mod.rs] with the request
    evaluation types of [prover_utils/request_evaluator.rs] and the pricing
    overrides of [prover_utils/config.rs]: the order record, the cycle limits
    and [price_order], the routine that turns an order into a decision to lock
    it, to prove it after its lock expires, or to skip it.

    The trait [OrderPricingContext] is the class of that name, over a type [W]
    of outside worlds: every call of the trait may read and change the world,
    so the configuration, the clock and the oracle may answer differently each
    time they are asked.  [price_order] takes the order by mutable reference;
    here it runs over a state that holds the order beside the world, and an
    early [return] is an error of the monad that carries the outcome.  Text
    meant for the log (the [reason] of a skip) is not modelled; the numbers it
    is computed from are, since computing them can panic. *)

From S2P Require Import Prelude Market Auction Selector.
From Stdlib Require Import Strings.Byte.

Local Open Scope Z_scope.

(** ** Orders *)

Inductive FulfillmentType := LockAndFulfill | FulfillAfterLockExpire | FulfillWithoutLocking.

#[export] Instance FulfillmentType_eq_dec : EqDecision FulfillmentType.
Proof. solve_decision. Defined.

Record OrderRequest := mkOrderRequest {
  request : ProofRequest;
  client_sig : bytes;
  fulfillment_type : FulfillmentType;
  boundless_market_address : Z;
  chain_id : Z;
  image_id : option string;
  input_id : option string;
  total_cycles : option Z;
  journal_bytes : option Z;
  target_timestamp : option Z;
  expire_timestamp : option Z;
  gas_estimate : option Z;
  additional_proof_cycles : option Z;
  expected_reward_eth : option Z;
  received_at_timestamp : Z;
  priced_at_timestamp : option Z
}.

(** [OrderRequest::new]; [now] is the reading of the system clock. *)
Definition order_request_new (r : ProofRequest) (sig : bytes) (ty : FulfillmentType)
    (market chain now : Z) : OrderRequest :=
  {| request := r; client_sig := sig; fulfillment_type := ty;
     boundless_market_address := market; chain_id := chain;
     image_id := None; input_id := None; total_cycles := None; journal_bytes := None;
     target_timestamp := None; expire_timestamp := None; gas_estimate := None;
     additional_proof_cycles := None; expected_reward_eth := None;
     received_at_timestamp := now; priced_at_timestamp := None |}.

(** Field assignments. *)
Definition set_gas_estimate (v : option Z) (o : OrderRequest) : OrderRequest :=
  {| request := request o; client_sig := client_sig o; fulfillment_type := fulfillment_type o;
     boundless_market_address := boundless_market_address o; chain_id := chain_id o;
     image_id := image_id o; input_id := input_id o; total_cycles := total_cycles o;
     journal_bytes := journal_bytes o; target_timestamp := target_timestamp o;
     expire_timestamp := expire_timestamp o; gas_estimate := v;
     additional_proof_cycles := additional_proof_cycles o;
     expected_reward_eth := expected_reward_eth o;
     received_at_timestamp := received_at_timestamp o;
     priced_at_timestamp := priced_at_timestamp o |}.
Definition set_additional_proof_cycles (v : option Z) (o : OrderRequest) : OrderRequest :=
  {| request := request o; client_sig := client_sig o; fulfillment_type := fulfillment_type o;
     boundless_market_address := boundless_market_address o; chain_id := chain_id o;
     image_id := image_id o; input_id := input_id o; total_cycles := total_cycles o;
     journal_bytes := journal_bytes o; target_timestamp := target_timestamp o;
     expire_timestamp := expire_timestamp o; gas_estimate := gas_estimate o;
     additional_proof_cycles := v; expected_reward_eth := expected_reward_eth o;
     received_at_timestamp := received_at_timestamp o;
     priced_at_timestamp := priced_at_timestamp o |}.
Definition set_image_input (i j : option string) (o : OrderRequest) : OrderRequest :=
  {| request := request o; client_sig := client_sig o; fulfillment_type := fulfillment_type o;
     boundless_market_address := boundless_market_address o; chain_id := chain_id o;
     image_id := i; input_id := j; total_cycles := total_cycles o;
     journal_bytes := journal_bytes o; target_timestamp := target_timestamp o;
     expire_timestamp := expire_timestamp o; gas_estimate := gas_estimate o;
     additional_proof_cycles := additional_proof_cycles o;
     expected_reward_eth := expected_reward_eth o;
     received_at_timestamp := received_at_timestamp o;
     priced_at_timestamp := priced_at_timestamp o |}.
Definition set_total_cycles (v : option Z) (o : OrderRequest) : OrderRequest :=
  {| request := request o; client_sig := client_sig o; fulfillment_type := fulfillment_type o;
     boundless_market_address := boundless_market_address o; chain_id := chain_id o;
     image_id := image_id o; input_id := input_id o; total_cycles := v;
     journal_bytes := journal_bytes o; target_timestamp := target_timestamp o;
     expire_timestamp := expire_timestamp o; gas_estimate := gas_estimate o;
     additional_proof_cycles := additional_proof_cycles o;
     expected_reward_eth := expected_reward_eth o;
     received_at_timestamp := received_at_timestamp o;
     priced_at_timestamp := priced_at_timestamp o |}.

Definition expiry (o : OrderRequest) : Z :=
  match fulfillment_type o with
  | LockAndFulfill => lock_expires_at (request o)
  | FulfillAfterLockExpire => expires_at (request o)
  | FulfillWithoutLocking => expires_at (request o)
  end.

(** What the market monitor broadcasts about a request. *)
Inductive OrderStateChange :=
| ScLocked (request_id : Z) (prover : Z) (chain_id : Z)
| ScFulfilled (request_id : Z) (chain_id : Z).

Definition sc_chain_id (sc : OrderStateChange) : Z :=
  match sc with ScLocked _ _ c => c | ScFulfilled _ c => c end.

(** ** Order identifiers

    [OrderRequest::id] formats the request id, the signing hash and the
    fulfillment type as [0x<hex>-0x<digest hex>-<type>]. *)

Definition hex_digit (d : Z) : string :=
  match d with
  | 0 => "0" | 1 => "1" | 2 => "2" | 3 => "3" | 4 => "4" | 5 => "5" | 6 => "6" | 7 => "7"
  | 8 => "8" | 9 => "9" | 10 => "a" | 11 => "b" | 12 => "c" | 13 => "d" | 14 => "e" | _ => "f"
  end.

(** The last [n] hexadecimal digits of [z]. *)
Fixpoint hex_pad (n : nat) (z : Z) : string :=
  match n with
  | O => ""
  | S n => hex_pad n (z / 16) +:+ hex_digit (z mod 16)
  end.

(** [format!("{:x}", z)]: no leading zeros, and "0" for zero. *)
Definition hex_len (z : Z) : nat := if z =? 0 then 1%nat else S (Z.to_nat (Z.log2 z / 4)).
Definition hex_lower (z : Z) : string := hex_pad (hex_len z) z.

Definition hex_bytes (l : bytes) : string :=
  foldr (fun b acc => hex_pad 2 (Z.of_N (Byte.to_N b)) +:+ acc) "" l.

Definition fulfillment_type_debug (t : FulfillmentType) : string :=
  match t with
  | LockAndFulfill => "LockAndFulfill"
  | FulfillAfterLockExpire => "FulfillAfterLockExpire"
  | FulfillWithoutLocking => "FulfillWithoutLocking"
  end.

Definition ZERO_HASH : bytes := repeat x00 32.

Definition request_digest `{Externals} (o : OrderRequest) : string :=
  let h := match signing_hash (request o) (boundless_market_address o) (chain_id o) with
           | Ok h => h | _ => ZERO_HASH end in
  "0x" +:+ hex_bytes h.

Definition order_id `{Externals} (o : OrderRequest) : string :=
  "0x" +:+ hex_lower (reqId (request o)) +:+ "-" +:+ request_digest o +:+ "-"
  +:+ fulfillment_type_debug (fulfillment_type o).

(** ** Outcomes, errors and limits *)

Definition SKIP_EXPIRED := "[S-001]".
Definition SKIP_DEADLINE_TOO_SHORT := "[S-002]".
Definition SKIP_EXPIRY_TOO_LONG := "[S-003]".
Definition SKIP_UNSUPPORTED_SELECTOR := "[S-004]".
Definition SKIP_COLLATERAL_TOO_HIGH := "[S-005]".
Definition SKIP_CYCLE_LIMIT_FROM_REWARD := "[S-006]".
Definition SKIP_PREFLIGHT_LIMIT_EXCEEDED := "[S-007]".
Definition SKIP_CYCLES_ABOVE_LIMIT := "[S-008]".
Definition SKIP_CYCLES_BELOW_MIN := "[S-009]".
Definition SKIP_JOURNAL_TOO_LARGE := "[S-010]".
Definition SKIP_BLAKE3_JOURNAL_SIZE := "[S-011]".
Definition SKIP_GAS_EXCEEDS_MAX_PRICE := "[S-012]".
Definition SKIP_PREDICATE_CHECK_FAILED := "[S-013]".
Definition SKIP_COLLATERAL_REWARD_TOO_LOW := "[S-014]".
Definition SKIP_PRICE_TOO_LOW := "[S-015]".
Definition SKIP_PREFLIGHT_GUEST_FAILED := "[S-016]".

Inductive OrderPricingError :=
| FetchInputErr
| FetchImageErr
| PricingRequestError (e : RequestError)
| RpcErr
| UnexpectedErr.

Record LockTerms := mkLockTerms {
  lt_total_cycles : Z;
  target_timestamp_secs : Z;
  lt_expiry_secs : Z;
  target_mcycle_price : Z;
  max_mcycle_price : Z;
  lt_config_min_mcycle_price : Z;
  current_mcycle_price : Z;
  lt_journal_len : Z
}.

Record AfterLockTerms := mkAfterLockTerms {
  al_total_cycles : Z;
  lock_expire_timestamp_secs : Z;
  al_expiry_secs : Z;
  mcycle_price : Z;
  al_config_min_mcycle_price : Z;
  al_journal_len : Z
}.

Inductive OrderPricingOutcome :=
| Lock (t : LockTerms)
| ProveAfterLockExpire (t : AfterLockTerms)
| Skip (code : string).

Inductive ProveLimitReason :=
| EthPricing (max_price gas_cost mcycle_price_eth : Z) (config_mcycle_price : Amount)
| CollateralPricing (collateral_reward mcycle_price_collateral : Z)
| ConfigCap (max_mcycles : Z)
| DeadlineCap (time_remaining_secs peak_prove_khz : Z).

(** ** Request evaluation *)

Record EvaluationMetrics := mkMetrics { native_units : Z; normalized_units : Z }.

Record EvaluationLimits := mkLimits { max_cycles : Z }.

Inductive RequestEvaluation :=
| EvalSuccess (evaluation_id : string) (metrics : EvaluationMetrics) (program_id : string)
    (input_id : string) (public_output : bytes)
| EvalLimitExceeded (limit : EvaluationLimits)
| EvalGuestFailed.

Record EvaluationRequest := mkEvaluationRequest {
  ev_request_id : string;
  ev_program_url : string;
  ev_selector : Z;
  ev_predicate : RequestPredicate;
  ev_input_type : RequestInputType;
  ev_input_data : bytes;
  ev_client_address : Z
}.

Definition evaluation_request_from_order `{Externals} (o : OrderRequest) : EvaluationRequest :=
  {| ev_request_id := order_id o;
     ev_program_url := imageUrl (request o);
     ev_selector := selector (requirements (request o));
     ev_predicate := predicate (requirements (request o));
     ev_input_type := inputType (input (request o));
     ev_input_data := inputData (input (request o));
     ev_client_address := client_address (request o) |}.

Inductive InputCacheKey := InputKeyUrl (url : string) | InputKeyHash (h : bytes).

Record PreflightCacheKey := mkPreflightCacheKey {
  ck_program_id : string;
  ck_selector : Z;
  ck_predicate_data : bytes;
  ck_input : InputCacheKey;
  ck_max_cycles : Z
}.

(** [EvaluationRequest::cache_key]; [utf8] decodes the URL bytes and [sha256]
    hashes inline input. *)
Definition cache_key (utf8 : bytes -> option string) (sha256 : bytes -> bytes)
    (self : EvaluationRequest) (program_id : string) (max_cycles : Z)
    : result OrderPricingError PreflightCacheKey :=
  inp ← match ev_input_type self with
        | InputUrl => u ← ok_or FetchInputErr (utf8 (ev_input_data self)); mret (InputKeyUrl u)
        | InputInline => mret (InputKeyHash (sha256 (ev_input_data self)))
        | InputInvalid => Err UnexpectedErr
        end;
  mret (mkPreflightCacheKey program_id (ev_selector self)
          (predicateData (ev_predicate self)) inp max_cycles).

(** ** Configuration *)

Record PricingOverrides := mkOverrides {
  by_requestor : gmap Z Amount;
  by_proof_type : gmap Z Amount;
  by_requestor_proof_type : gmap (Z * Z) Amount
}.

Definition resolve (self : PricingOverrides) (requestor proof_type : Z) : option Amount :=
  match by_requestor_proof_type self !! (requestor, proof_type) with
  | Some a => Some a
  | None =>
      match by_proof_type self !! proof_type with
      | Some a => Some a
      | None => by_requestor self !! requestor
      end
  end.

(** The fields of [MarketConfig] that the modelled code reads. *)
Record MarketConfig := mkMarketConfig {
  min_mcycle_price : Amount;
  expected_probability_win_secondary_fulfillment : Z;
  max_mcycle_limit : Z;
  min_mcycle_limit : Z;
  max_journal_bytes : Z;
  peak_prove_khz : option Z;
  min_deadline : Z;
  max_collateral : Amount;
  lockin_gas_estimate : Z;
  fulfill_gas_estimate : Z;
  commit_fulfillment_gas_estimate : Z;
  fulfill_journal_gas_per_byte : Z;
  groth16_verify_gas_estimate : Z;
  cfg_additional_proof_cycles : Z;
  pricing_overrides : PricingOverrides;
  max_order_expiry_secs : option Z
}.

(** ** The pricing context *)

Class OrderPricingContext (W : Type) := {
  market_config : ste W OrderPricingError MarketConfig;
  supported_selectors : SupportedSelectors;
  collateral_token_decimals : Z;
  denied_requestor_addresses : ste W OrderPricingError (option (gset Z));
  check_requestor_allowed :
    OrderRequest -> option (gset Z) -> ste W OrderPricingError (option OrderPricingOutcome);
  check_request_available : OrderRequest -> ste W OrderPricingError (option OrderPricingOutcome);
  estimate_gas_to_fulfill : ProofRequest -> ste W OrderPricingError Z;
  additional_proof_cycles_for : ProofRequest -> ste W OrderPricingError Z;
  is_priority_requestor : Z -> st W bool;
  check_available_balances :
    OrderRequest -> Z -> bool -> Z -> ste W OrderPricingError (option OrderPricingOutcome);
  current_gas_price : ste W OrderPricingError Z;
  estimate_erc1271_gas : OrderRequest -> st W Z;
  convert_to_eth : Amount -> ste W OrderPricingError Amount;
  convert_to_zkc : Amount -> ste W OrderPricingError Amount;
  evaluate_request :
    EvaluationRequest -> EvaluationLimits -> ste W OrderPricingError RequestEvaluation;
  (** the system clock *)
  now_timestamp : st W Z;
  (** [Digest::from_hex] *)
  digest_from_hex : string -> option bytes
}.

Definition ONE_MILLION : Z := 1000000.

Definition apply_secondary_fulfillment_discount (reward probability_percent : Z) : Z :=
  sat_mul 256 reward probability_percent / 100.

Definition calculate_max_cycles_for_time (peak_prove_khz time_remaining_secs : Z) : Z :=
  wmul 64 (sat_mul 64 peak_prove_khz time_remaining_secs) 1000.

(** [callback_gas]: the limit is a [U96], which must fit in 64 bits. *)
Definition callback_gas (r : ProofRequest) : result OrderPricingError Z :=
  let limit := default 0 (gasLimit <$> callback_as_option (callback (requirements r))) in
  if limit <? 2 ^ 64 then Ok limit else Err UnexpectedErr.

(** [utils::fulfill_gas_units], with the configuration it reads. *)
Definition fulfill_gas_units (config : MarketConfig) (base : Z) (r : ProofRequest)
    (journal_bytes : option Z) : result unit Z :=
  let journal_gas :=
    if bool_decide (predicateType (predicate (requirements r)) <> PtClaimDigestMatch)
    then wmul 64 (default (max_journal_bytes config) journal_bytes)
           (fulfill_journal_gas_per_byte config)
    else 0 in
  cb ← map_err (fun _ => tt) (callback_gas r);
  mret (wadd 64 (wadd 64 base journal_gas) cb).

(** The trait's default methods. *)
Definition estimate_fulfill_gas_default (config : MarketConfig) (sel : SupportedSelectors)
    (r : ProofRequest) : result OrderPricingError Z :=
  let s := selector (requirements r) in
  if negb (is_supported sel s) then Err UnexpectedErr else
  let estimate := fulfill_gas_estimate config in
  cb ← callback_gas r;
  let estimate := wadd 64 estimate cb in
  ty ← ok_or UnexpectedErr (proof_type sel s);
  mret (wadd 64 estimate
    match ty with
    | PfAny | PfInclusion => 0
    | PfGroth16 | PfBlake3Groth16 => groth16_verify_gas_estimate config
    end).

Definition ERC1271_MAX_GAS_FOR_CHECK : Z := 100000.

Definition estimate_erc1271_gas_default (o : OrderRequest) : Z :=
  if is_smart_contract_signed (request o) then ERC1271_MAX_GAS_FOR_CHECK else 0.

(** [estimate_erc1271_gas] of an implementor with a provider: [code] and
    [estimate] are the answers of the node, and the cache keeps the first
    estimate of each wallet. *)
Definition estimate_erc1271_gas_cached `{Externals} (code : option bytes) (estimate : option Z)
    (cache : gmap Z Z) (o : OrderRequest) : Z * gmap Z Z :=
  if negb (is_smart_contract_signed (request o)) then (0, cache) else
  match signing_hash (request o) (boundless_market_address o) (chain_id o) with
  | Ok _ =>
      let client_addr := client_address (request o) in
      match cache !! client_addr with
      | Some gas => (gas, cache)
      | None =>
          let code := default [] code in
          let gas :=
            if bool_decide (code = []) then ERC1271_MAX_GAS_FOR_CHECK else
            match estimate with Some gas => gas | None => ERC1271_MAX_GAS_FOR_CHECK end in
          (gas, <[client_addr := gas]> cache)
      end
  | _ => (ERC1271_MAX_GAS_FOR_CHECK, cache)
  end.

(** The configured minimum price that applies to an order. *)
Definition effective_min_price (config : MarketConfig) (o : OrderRequest) : Amount :=
  default (min_mcycle_price config)
    (resolve (pricing_overrides config) (client_address (request o))
       (selector (requirements (request o)))).

Section Pricing.
Context {W : Type} `{Externals} `{OrderPricingContext W}.

(** *** The cycle limits

    [calculate_exec_limits], in the four stages of the source: the
    collateral-based limit, the ether-based one, the configured cap, and the
    time left. *)

Definition collateral_limit (config : MarketConfig) (o : OrderRequest)
    (is_fulfill_after_lock_expire : bool) (min_price_collateral : Z)
    : result OrderPricingError Z :=
  if min_price_collateral =? 0 then Ok (umax 64) else
  raw_price ← collateral_reward_if_locked_and_not_fulfilled (offer (request o));
  let price :=
    if is_fulfill_after_lock_expire then
      apply_secondary_fulfillment_discount raw_price
        (expected_probability_win_secondary_fulfillment config)
    else raw_price in
  q ← checked_div_ceil (sat_mul 256 price ONE_MILLION) min_price_collateral;
  mret (sat_to 64 q).

Definition eth_limit (o : OrderRequest) (order_gas_cost min_price : Z)
    : result OrderPricingError Z :=
  if min_price =? 0 then Ok (umax 64) else
  q ← checked_quot
        (sat_mul 256 (sat_sub (maxPrice (offer (request o))) order_gas_cost) ONE_MILLION)
        min_price;
  mret (sat_to 64 q).

(** The cap of [max_mcycle_limit], which priority requestors are spared. *)
Definition cap_by_config (config : MarketConfig) (skip_mcycle_limit : bool)
    (limits : Z * Z * ProveLimitReason) : Z * Z * ProveLimitReason :=
  let '(preflight_limit, prove_limit, prove_limit_reason) := limits in
  if skip_mcycle_limit then limits else
  let config_cycle_limit := sat_mul 64 (max_mcycle_limit config) 1000000 in
  if config_cycle_limit <? prove_limit then
    (config_cycle_limit, config_cycle_limit, ConfigCap (max_mcycle_limit config))
  else if config_cycle_limit <? preflight_limit then
    (config_cycle_limit, prove_limit, prove_limit_reason)
  else limits.

(** The cap of the time left at the peak proving rate; the preflight may also
    use the window between the two expiries. *)
Definition cap_by_deadline (config : MarketConfig) (is_fulfill_after_lock_expire : bool)
    (prove_window fulfill_after_expiry_window : Z)
    (limits : Z * Z * ProveLimitReason) : Z * Z * ProveLimitReason :=
  let '(preflight_limit, prove_limit, prove_limit_reason) := limits in
  match peak_prove_khz config with
  | None => limits
  | Some peak =>
      let prove_deadline_limit := calculate_max_cycles_for_time peak prove_window in
      let '(prove_limit, prove_limit_reason) :=
        if prove_deadline_limit <? prove_limit
        then (prove_deadline_limit, DeadlineCap prove_window peak)
        else (prove_limit, prove_limit_reason) in
      let new_preflight_limit :=
        if is_fulfill_after_lock_expire then prove_deadline_limit else
        let fulfill_after_expiry_limit :=
          calculate_max_cycles_for_time peak fulfill_after_expiry_window in
        Z.max prove_deadline_limit fulfill_after_expiry_limit in
      if new_preflight_limit <? preflight_limit
      then (new_preflight_limit, prove_limit, prove_limit_reason)
      else (preflight_limit, prove_limit, prove_limit_reason)
  end.

Definition calculate_exec_limits (o : OrderRequest) (order_gas_cost : Z)
    : ste W OrderPricingError (Z * Z * ProveLimitReason) :=
  let is_fulfill_after_lock_expire :=
    bool_decide (fulfillment_type o = FulfillAfterLockExpire) in
  now ← lift now_timestamp;
  let request_expiration := expiry o in
  let lock_expiry := lock_expires_at (request o) in
  let order_expiry := expires_at (request o) in
  config ← market_config;
  let min_mcycle_price_amount := effective_min_price config o in
  min_mcycle_price_eth ← convert_to_eth min_mcycle_price_amount;
  let min_price := amount_value min_mcycle_price_eth in
  min_price_zkc ← convert_to_zkc (min_mcycle_price config);
  min_price_collateral ← liftr (scale_decimals (amount_value min_price_zkc)
    (decimals (amount_asset min_price_zkc)) collateral_token_decimals);
  collateral_based_limit ←
    liftr (collateral_limit config o is_fulfill_after_lock_expire min_price_collateral);
  reward ← liftr (collateral_reward_if_locked_and_not_fulfilled (offer (request o)));
  '(preflight_limit, prove_limit, prove_limit_reason) ←
    (if is_fulfill_after_lock_expire then
       mret (collateral_based_limit, collateral_based_limit,
             CollateralPricing reward min_price_collateral)
     else
       eth_based_limit ← liftr (eth_limit o order_gas_cost min_price);
       let reason := EthPricing (maxPrice (offer (request o))) order_gas_cost min_price
                       min_mcycle_price_amount in
       if collateral_based_limit <? eth_based_limit
       then mret (eth_based_limit, eth_based_limit, reason)
       else mret (collateral_based_limit, eth_based_limit, reason));
  skip_mcycle_limit ← lift (is_priority_requestor (client_address (request o)));
  let '(preflight_limit, prove_limit, prove_limit_reason) :=
    cap_by_config config skip_mcycle_limit (preflight_limit, prove_limit, prove_limit_reason) in
  mret (cap_by_deadline config is_fulfill_after_lock_expire
          (sat_sub request_expiration now) (sat_sub order_expiry lock_expiry)
          (preflight_limit, prove_limit, prove_limit_reason)).

(** *** The monad of [price_order] *)

(** The [Err] of this monad is either the [Err] of the source or an outcome
    returned early. *)
Definition PM (A : Type) : Type :=
  ste (OrderRequest * W) (OrderPricingError + OrderPricingOutcome) A.

#[local] Instance PM_ret : MRet PM := ste_ret _ _.
#[local] Instance PM_bind : MBind PM := ste_bind _ _.

Definition ctx {A} (m : ste W OrderPricingError A) : PM A := fun '(o, w) =>
  let (r, w') := m w in (map_err inl r, (o, w')).
Definition ctx_st {A} (m : st W A) : PM A := fun '(o, w) =>
  let (a, w') := m w in (Ok a, (o, w')).
Definition pure_res {A} (r : result OrderPricingError A) : PM A := fun s => (map_err inl r, s).
Definition get_order : PM OrderRequest := fun s => (Ok (fst s), s).
Definition modify_order (f : OrderRequest -> OrderRequest) : PM unit := fun '(o, w) =>
  (Ok tt, (f o, w)).
Definition return_outcome {A} (out : OrderPricingOutcome) : PM A := throw (inr out).
Definition skip_if (b : bool) (code : string) : PM unit :=
  if b then return_outcome (Skip code) else mret tt.
Definition return_if_some (out : option OrderPricingOutcome) : PM unit :=
  match out with Some out => return_outcome out | None => mret tt end.

(** *** The stages of [price_order] *)

(** Expiry, deadline, requestor, selector, collateral and availability. *)
Definition price_prechecks : PM MarketConfig :=
  o ← get_order;
  now ← ctx_st now_timestamp;
  let lock_expired := bool_decide (fulfillment_type o = FulfillAfterLockExpire) in
  let expiration := expiry o in
  let lockin_collateral := if lock_expired then 0 else lockCollateral (offer (request o)) in
  _ ← skip_if (expiration <=? now) SKIP_EXPIRED;
  config ← ctx market_config;
  denied ← ctx denied_requestor_addresses;
  let seconds_left := sat_sub expiration now in
  _ ← skip_if (seconds_left <=? min_deadline config) SKIP_DEADLINE_TOO_SHORT;
  _ ← skip_if (match max_order_expiry_secs config with
               | Some max_expiry => max_expiry <? seconds_left
               | None => false end) SKIP_EXPIRY_TOO_LONG;
  out ← ctx (check_requestor_allowed o denied);
  _ ← return_if_some out;
  _ ← skip_if (negb (is_supported supported_selectors (selector (requirements (request o)))))
        SKIP_UNSUPPORTED_SELECTOR;
  max_collateral_zkc ← ctx (convert_to_zkc (max_collateral config));
  max_collateral ← pure_res (scale_decimals (amount_value max_collateral_zkc)
    (decimals (amount_asset max_collateral_zkc)) collateral_token_decimals);
  _ ← skip_if (negb lock_expired && (max_collateral <? lockin_collateral))
        SKIP_COLLATERAL_TOO_HIGH;
  out ← ctx (check_request_available o);
  _ ← return_if_some out;
  mret config.

(** Gas: the estimate is stored on the order, and its cost checked against the
    balances.  Returns the gas price and the cost. *)
Definition price_gas (config : MarketConfig) : PM (Z * Z) :=
  o ← get_order;
  let lock_expired := bool_decide (fulfillment_type o = FulfillAfterLockExpire) in
  let lockin_collateral := if lock_expired then 0 else lockCollateral (offer (request o)) in
  gas_price ← ctx current_gas_price;
  base ← ctx (estimate_gas_to_fulfill (request o));
  cb ← pure_res (callback_gas (request o));
  let fulfill_gas := wadd 64 base cb in
  order_gas ←
    (if lock_expired then mret (wadd 64 fulfill_gas (commit_fulfillment_gas_estimate config))
     else
       erc ← ctx_st (estimate_erc1271_gas o);
       mret (wadd 64 (wadd 64 (lockin_gas_estimate config) erc) fulfill_gas));
  _ ← modify_order (set_gas_estimate (Some (sat_to 64 order_gas)));
  apc ← ctx (additional_proof_cycles_for (request o));
  _ ← modify_order (set_additional_proof_cycles (Some apc));
  let order_gas_cost := wmul 256 gas_price order_gas in
  o ← get_order;
  out ← ctx (check_available_balances o order_gas_cost lock_expired lockin_collateral);
  _ ← return_if_some out;
  mret (gas_price, order_gas_cost).

(** The limits and the preflight execution: the cycle count, the program id,
    the journal, and the limit for proving with its reason. *)
Definition price_preflight (order_gas_cost : Z)
    : PM (Z * string * bytes * (Z * ProveLimitReason)) :=
  o ← get_order;
  '(exec_limit_cycles, prove_limit, prove_limit_reason) ←
    ctx (calculate_exec_limits o order_gas_cost);
  _ ← skip_if (prove_limit <? 2) SKIP_CYCLE_LIMIT_FROM_REWARD;
  r ← ctx (evaluate_request (evaluation_request_from_order o) (mkLimits exec_limit_cycles));
  match r with
  | EvalSuccess _ metrics program_id input_id public_output =>
      _ ← modify_order (set_image_input (Some program_id) (Some input_id));
      mret (normalized_units metrics, program_id, public_output,
            (prove_limit, prove_limit_reason))
  | EvalLimitExceeded _ => return_outcome (Skip SKIP_PREFLIGHT_LIMIT_EXCEEDED)
  | EvalGuestFailed => return_outcome (Skip SKIP_PREFLIGHT_GUEST_FAILED)
  end.

(** The numbers quoted when the cycle count is above the limit. *)
Definition above_limit_info (o : OrderRequest) (cycle_count : Z) (reason : ProveLimitReason)
    : result OrderPricingError (list Z) :=
  match reason with
  | EthPricing max_price gas_cost _ _ =>
      a ← checked_quot (sat_mul 256 (sat_sub max_price gas_cost) ONE_MILLION) cycle_count;
      b ← checked_quot (sat_mul 256 max_price ONE_MILLION) cycle_count;
      mret [a; b]
  | CollateralPricing _ _ =>
      reward ← collateral_reward_if_locked_and_not_fulfilled (offer (request o));
      a ← checked_quot (sat_mul 256 reward ONE_MILLION) cycle_count;
      mret [a]
  | ConfigCap _ => mret [div_ceil cycle_count 1000000]
  | DeadlineCap time_remaining_secs _ =>
      let denom := sat_mul 64 time_remaining_secs 1000 in
      a ← checked_div_ceil cycle_count denom;
      mret [a]
  end.

(** The checks on the cycle count. *)
Definition price_cycle_checks (config : MarketConfig) (cycle_count prove_limit : Z)
    (reason : ProveLimitReason) : PM unit :=
  o ← get_order;
  _ ← (if prove_limit <? cycle_count then
         _ ← pure_res (above_limit_info o cycle_count reason);
         return_outcome (Skip SKIP_CYCLES_ABOVE_LIMIT)
       else mret tt);
  _ ← modify_order (set_total_cycles (Some cycle_count));
  skip_if ((0 <? min_mcycle_limit config)
           && (cycle_count <? sat_mul 64 (min_mcycle_limit config) 1000000))
    SKIP_CYCLES_BELOW_MIN.

(** The cost of the journal calldata is added for the predicates that deliver
    the journal. *)
Definition refine_gas_cost (config : MarketConfig) (gas_price order_gas_cost : Z)
    (order_predicate_type : PredicateType) (journal_len : Z) : Z :=
  if bool_decide (order_predicate_type <> PtClaimDigestMatch) then
    let journal_gas := wmul 64 journal_len (fulfill_journal_gas_per_byte config) in
    wadd 256 order_gas_cost (wmul 256 gas_price journal_gas)
  else order_gas_cost.

(** The checks on the journal, with the cost of its calldata added to the gas
    cost, which is returned. *)
Definition price_journal (config : MarketConfig) (gas_price order_gas_cost : Z)
    (journal : bytes) : PM Z :=
  o ← get_order;
  let lock_expired := bool_decide (fulfillment_type o = FulfillAfterLockExpire) in
  let journal_len := Z.of_nat (length journal) in
  let order_predicate_type := predicateType (predicate (requirements (request o))) in
  _ ← skip_if ((bool_decide (order_predicate_type = PtPrefixMatch)
                || bool_decide (order_predicate_type = PtDigestMatch))
               && (max_journal_bytes config <? journal_len)) SKIP_JOURNAL_TOO_LARGE;
  _ ← skip_if (is_blake3_groth16_selector (selector (requirements (request o)))
               && negb (journal_len =? 32)) SKIP_BLAKE3_JOURNAL_SIZE;
  let order_gas_cost :=
    refine_gas_cost config gas_price order_gas_cost order_predicate_type journal_len in
  _ ← skip_if ((maxPrice (offer (request o)) <? order_gas_cost) && negb lock_expired)
        SKIP_GAS_EXCEEDS_MAX_PRICE;
  mret order_gas_cost.

(** The predicate must accept the output of the preflight. *)
Definition price_predicate (program_id : string) (journal : bytes) : PM unit :=
  o ← get_order;
  p ← pure_res (map_err (fun e => PricingRequestError (RequestPredicateError e))
                  (predicate_try_from (predicate (requirements (request o)))));
  eval_data ←
    (if is_blake3_groth16_selector (selector (requirements (request o))) then mret FdNone
     else
       d ← pure_res (ok_or UnexpectedErr (digest_from_hex program_id));
       mret (FdImageIdAndJournal d journal));
  skip_if (match predicate_eval p eval_data with None => true | Some _ => false end)
    SKIP_PREDICATE_CHECK_FAILED.

(** An order whose lock has expired is worth a share of its collateral. *)
Definition price_after_lock (config : MarketConfig) (cycle_count journal_len : Z)
    : PM OrderPricingOutcome :=
  o ← get_order;
  raw_price ← pure_res (collateral_reward_if_locked_and_not_fulfilled (offer (request o)));
  let price := apply_secondary_fulfillment_discount raw_price
                 (expected_probability_win_secondary_fulfillment config) in
  mcycle_price ← pure_res (checked_quot (sat_mul 256 price ONE_MILLION) cycle_count);
  zkc ← ctx (convert_to_zkc (min_mcycle_price config));
  config_min ← pure_res (scale_decimals (amount_value zkc) (decimals (amount_asset zkc))
    collateral_token_decimals);
  _ ← skip_if (mcycle_price <? config_min) SKIP_COLLATERAL_REWARD_TOO_LOW;
  mret (ProveAfterLockExpire
    {| al_total_cycles := cycle_count;
       lock_expire_timestamp_secs :=
         wadd 64 (rampUpStart (offer (request o))) (lockTimeout (offer (request o)));
       al_expiry_secs := wadd 64 (rampUpStart (offer (request o))) (timeout (offer (request o)));
       mcycle_price := mcycle_price;
       al_config_min_mcycle_price := config_min;
       al_journal_len := journal_len |}).

(** The price per megacycle of a total price, after gas. *)
Definition mcycle_price_of (total gas cycle_count : Z) : result OrderPricingError Z :=
  checked_quot (sat_mul 256 (sat_sub total gas) ONE_MILLION) cycle_count.

(** An order that can be locked is worth its price at the lock. *)
Definition price_lockable (config : MarketConfig) (cycle_count order_gas_cost journal_len : Z)
    : PM OrderPricingOutcome :=
  o ← get_order;
  let off := offer (request o) in
  let amount := effective_min_price config o in
  eth ← ctx (convert_to_eth amount);
  let config_min_mcycle_price := amount_value eth in
  mcycle_price_min ← pure_res (mcycle_price_of (minPrice off) order_gas_cost cycle_count);
  mcycle_price_max ← pure_res (mcycle_price_of (maxPrice off) order_gas_cost cycle_count);
  _ ← skip_if (mcycle_price_max <? config_min_mcycle_price) SKIP_PRICE_TOO_LOW;
  now ← ctx_st now_timestamp;
  current_mcycle_price ← pure_res (map_err (fun _ => UnexpectedErr) (price_at off now));
  '(target_mcycle_price, target_timestamp_secs) ←
    (if config_min_mcycle_price <=? mcycle_price_min then mret (mcycle_price_min, 0)
     else
       let target_min_price :=
         wadd 256 (div_ceil (sat_mul 256 config_min_mcycle_price cycle_count) ONE_MILLION)
           order_gas_cost in
       target_time ← pure_res (map_err (fun _ => UnexpectedErr)
                                 (time_at_price off target_min_price));
       mret (target_min_price, target_time));
  mret (Lock
    {| lt_total_cycles := cycle_count;
       target_timestamp_secs := target_timestamp_secs;
       lt_expiry_secs := wadd 64 (rampUpStart off) (lockTimeout off);
       target_mcycle_price := target_mcycle_price;
       max_mcycle_price := mcycle_price_max;
       lt_config_min_mcycle_price := config_min_mcycle_price;
       current_mcycle_price := current_mcycle_price;
       lt_journal_len := journal_len |}).

(** The body of [price_order]. *)
Definition price_order_body : PM OrderPricingOutcome :=
  config ← price_prechecks;
  '(gas_price, order_gas_cost) ← price_gas config;
  '(cycle_count, program_id, journal, (prove_limit, reason)) ← price_preflight order_gas_cost;
  _ ← price_cycle_checks config cycle_count prove_limit reason;
  order_gas_cost ← price_journal config gas_price order_gas_cost journal;
  _ ← price_predicate program_id journal;
  o ← get_order;
  let journal_len := Z.of_nat (length journal) in
  if bool_decide (fulfillment_type o = FulfillAfterLockExpire)
  then price_after_lock config cycle_count journal_len
  else price_lockable config cycle_count order_gas_cost journal_len.

(** [price_order]: the result, the order as the call leaves it, and the
    world. *)
Definition price_order (o : OrderRequest) (w : W)
    : result OrderPricingError OrderPricingOutcome * (OrderRequest * W) :=
  let (r, s) := price_order_body (o, w) in
  (match r with
   | Ok out => Ok out
   | Err (inr out) => Ok out
   | Err (inl e) => Err e
   | Panic => Panic
   end, s).

End Pricing.

(** ** The cycle limits *)

Section Limits.
Context {W : Type} `{Externals} `{OrderPricingContext W}.

Lemma collateral_reward_half {E} (o : Offer) :
  fits 256 (lockCollateral o) ->
  collateral_reward_if_locked_and_not_fulfilled (E := E) o = Ok (lockCollateral o / 2).
Proof.
  intros Hc. unfold collateral_reward_if_locked_and_not_fulfilled,
    FRACTION_STAKE_NUMERATOR, FRACTION_STAKE_DENOMINATOR.
  rewrite Z.mul_1_r. destruct (Z.leb_spec (2 ^ 256) (lockCollateral o)); [fits_lia|].
  done.
Qed.

Lemma max_cycles_for_time_le khz secs :
  0 <= khz -> 0 <= secs -> calculate_max_cycles_for_time khz secs <= khz * secs * 1000.
Proof.
  intros Hk Hs. unfold calculate_max_cycles_for_time, wmul, wrap.
  pose proof (sat_mul_bound 64 khz secs ltac:(lia) Hk Hs).
  pose proof (sat_mul_le 64 khz secs).
  etrans; [apply Z.mod_le; lia|]. lia.
Qed.

Lemma max_cycles_for_time_zero khz : calculate_max_cycles_for_time khz 0 = 0.
Proof.
  unfold calculate_max_cycles_for_time, sat_mul. rewrite Z.mul_0_r. done.
Qed.

(** What a cycle count within the ether-based limit earns. *)
Lemma eth_limit_profit o g p lim cycles :
  eth_limit o g p = Ok lim -> 0 <= p -> cycles <= lim ->
  cycles * p <= sat_sub (maxPrice (offer (request o))) g * ONE_MILLION.
Proof.
  unfold eth_limit. intros E Hp Hc.
  pose proof (sat_sub_nonneg (maxPrice (offer (request o))) g).
  destruct (Z.eqb_spec p 0) as [->|]; [unfold ONE_MILLION; lia|].
  rewrite checked_quot_pos in E by lia. injection E as <-.
  etrans; [|apply (sat_mul_le 256)]. apply le_div_mul; [lia|].
  etrans; [done|]. apply sat_to_le.
Qed.

(** What a cycle count within the collateral-based limit earns, up to the
    rounding of the limit. *)
Lemma collateral_limit_profit config o p lim cycles :
  collateral_limit config o true p = Ok lim -> fits 256 (lockCollateral (offer (request o))) ->
  0 < p -> cycles <= lim ->
  (cycles - 1) * p <
    Z.max 1 (apply_secondary_fulfillment_discount (lockCollateral (offer (request o)) / 2)
               (expected_probability_win_secondary_fulfillment config) * ONE_MILLION).
Proof.
  unfold collateral_limit. intros E Hf Hp Hc.
  destruct (Z.eqb_spec p 0); [lia|]. rewrite collateral_reward_half in E by done. simpl in E.
  rewrite checked_div_ceil_pos in E by lia. injection E as <-.
  set (a := apply_secondary_fulfillment_discount _ _) in *.
  pose proof (sat_to_le 64 (div_ceil (sat_mul 256 a ONE_MILLION) p)).
  pose proof (sat_mul_le 256 a ONE_MILLION).
  assert (Hlt : cycles - 1 < div_ceil (sat_mul 256 a ONE_MILLION) p) by lia.
  apply div_ceil_lt in Hlt; [|lia]. lia.
Qed.

(** The capping stages keep the preflight limit above the prove limit. *)
Lemma cap_by_config_ordered config b pre prove r pre' prove' r' :
  prove <= pre -> cap_by_config config b (pre, prove, r) = (pre', prove', r') ->
  prove' <= pre' /\ prove' <= prove
  /\ (b = false -> pre' <= sat_mul 64 (max_mcycle_limit config) 1000000).
Proof. unfold cap_by_config. intros ?. repeat bcase; intros; simplify_eq; split_and!; lia || done. Qed.

Lemma cap_by_deadline_ordered config b win win2 pre prove r pre' prove' r' :
  prove <= pre -> cap_by_deadline config b win win2 (pre, prove, r) = (pre', prove', r') ->
  prove' <= pre' /\ prove' <= prove /\ pre' <= pre
  /\ (forall khz, peak_prove_khz config = Some khz ->
        prove' <= calculate_max_cycles_for_time khz win)
  /\ (r' = r \/ exists khz, r' = DeadlineCap win khz
        /\ prove' = calculate_max_cycles_for_time khz win).
Proof.
  unfold cap_by_deadline. intros Hle. destruct (peak_prove_khz config) as [khz|].
  - destruct (Z.ltb_spec (calculate_max_cycles_for_time khz win) prove); cbv zeta beta iota;
      destruct b; repeat bcase; intros; simplify_eq; (split_and!; [lia..| |]);
      try (intros; simplify_eq; lia); eauto.
  - intros. simplify_eq. split_and!; [done|done|done|done|by left].
Qed.

End Limits.

(** The answers of the context that [calculate_exec_limits] works from. *)
Definition exec_answers {W} `{OrderPricingContext W} (o : OrderRequest) (w : W)
    (now : Z) (config : MarketConfig) (eth zkc : Amount) (priority : bool) : Prop :=
  exists w1 w2 w3 w4 w5,
    now_timestamp w = (now, w1) /\ market_config w1 = (Ok config, w2)
    /\ convert_to_eth (effective_min_price config o) w2 = (Ok eth, w3)
    /\ convert_to_zkc (min_mcycle_price config) w3 = (Ok zkc, w4)
    /\ is_priority_requestor (client_address (request o)) w4 = (priority, w5).

Section ExecLimits.
Context {W : Type} `{Externals} `{OrderPricingContext W}.

(** The first two stages: limits in order, and what they promise. *)
Definition limits_of_pricing (o : OrderRequest) (g : Z) (config : MarketConfig) (eth : Z)
    (tokens : Z) (pre prove : Z) : Prop :=
  prove <= pre
  /\ (fulfillment_type o <> FulfillAfterLockExpire -> eth_limit o g eth = Ok prove)
  /\ (fulfillment_type o = FulfillAfterLockExpire ->
        collateral_limit config o true tokens = Ok prove).

Lemma calculate_exec_limits_inv o g w pre prove reason w' :
  calculate_exec_limits o g w = (Ok (pre, prove, reason), w') ->
  exists now config eth zkc priority tokens pre0 prove0 r0 pre1 prove1 r1,
    exec_answers o w now config eth zkc priority
    /\ scale_decimals (E := OrderPricingError) (amount_value zkc) (decimals (amount_asset zkc))
         collateral_token_decimals = Ok tokens
    /\ limits_of_pricing o g config (amount_value eth) tokens pre0 prove0
    /\ (forall secs khz, r0 <> DeadlineCap secs khz)
    /\ cap_by_config config priority (pre0, prove0, r0) = (pre1, prove1, r1)
    /\ cap_by_deadline config (bool_decide (fulfillment_type o = FulfillAfterLockExpire))
         (sat_sub (expiry o) now) (sat_sub (expires_at (request o)) (lock_expires_at (request o)))
         (pre1, prove1, r1) = (pre, prove, reason).
Proof.
  unfold calculate_exec_limits. intros Hc.
  bind_step Hc now w1 E1. apply lift_Ok in E1.
  bind_step Hc config w2 E2. bind_step Hc eth w3 E3. bind_step Hc zkc w4 E4.
  bind_step Hc tokens w4' E5. apply liftr_Ok in E5 as [E5 ->].
  bind_step Hc col w4' E6. apply liftr_Ok in E6 as [E6 ->].
  bind_step Hc reward w4' E7. apply liftr_Ok in E7 as [_ ->].
  bind_step Hc lims w4' E8. destruct lims as [[pre0 prove0] r0].
  bind_step Hc priority w5 E9. apply lift_Ok in E9.
  destruct (cap_by_config config priority (pre0, prove0, r0)) as [[pre1 prove1] r1] eqn:E10.
  injection Hc as Hd <-.
  assert (limits_of_pricing o g config (amount_value eth) tokens pre0 prove0
          /\ (forall secs khz, r0 <> DeadlineCap secs khz) /\ w4' = w4) as (Hl & Hr & ->).
  { unfold limits_of_pricing. case_bool_decide as Hf.
    - injection E8 as <- <- <- <-. naive_solver.
    - bind_step E8 el w6 E11. apply liftr_Ok in E11 as [E11 ->].
      destruct (Z.ltb_spec col el); injection E8 as <- <- <- <-;
        (split; [split; [lia|split; [done|congruence]]|split; done]). }
  exists now, config, eth, zkc, priority, tokens, pre0, prove0, r0, pre1, prove1, r1.
  split_and!; try done. by exists w1, w2, w3, w4, w5.
Qed.

End ExecLimits.

(** The limits that [calculate_exec_limits] reports are in order, so both
    of the source's debug assertions hold; the prove limit respects the
    configured cap unless the requestor has priority, and the cycles the
    prover can run before the order expires; and no cycle count within it
    sells a lockable order below the configured price per megacycle after
    gas, or an expired one below it by more than the rounding of one cycle. *)
Theorem exec_limits_sound {W} `{OrderPricingContext W} o g w pre prove reason w' :
  calculate_exec_limits o g w = (Ok (pre, prove, reason), w') ->
  exists now config eth zkc priority tokens,
    exec_answers o w now config eth zkc priority
    /\ scale_decimals (E := OrderPricingError) (amount_value zkc) (decimals (amount_asset zkc))
         collateral_token_decimals = Ok tokens
    /\ prove <= pre
    /\ (priority = false -> pre <= sat_mul 64 (max_mcycle_limit config) 1000000)
    /\ (forall khz, peak_prove_khz config = Some khz ->
          prove <= calculate_max_cycles_for_time khz (sat_sub (expiry o) now))
    /\ (forall cycles, cycles <= prove -> fulfillment_type o <> FulfillAfterLockExpire ->
          0 <= amount_value eth ->
          cycles * amount_value eth
          <= sat_sub (maxPrice (offer (request o))) g * ONE_MILLION)
    /\ (forall cycles, cycles <= prove -> fulfillment_type o = FulfillAfterLockExpire ->
          fits 256 (lockCollateral (offer (request o))) -> 0 < tokens ->
          (cycles - 1) * tokens <
            Z.max 1 (apply_secondary_fulfillment_discount
              (lockCollateral (offer (request o)) / 2)
              (expected_probability_win_secondary_fulfillment config) * ONE_MILLION)).
Proof.
  intros (now & config & eth & zkc & prio & tokens & pre0 & prove0 & r0 & pre1 & prove1 & r1
    & Ha & Ht & (Hle & Heth & Hcol) & _ & Hcfg & Hdl)%calculate_exec_limits_inv.
  apply cap_by_config_ordered in Hcfg as (Hle1 & Hp1 & Hcap); [|done].
  apply cap_by_deadline_ordered in Hdl as (Hle2 & Hp2 & Hpre & Hkhz & _); [|done].
  exists now, config, eth, zkc, prio, tokens. split_and!; try done.
  - intros Hprio. specialize (Hcap Hprio). lia.
  - intros cycles Hc Hf He. apply (eth_limit_profit o g _ prove0); [by apply Heth|done|lia].
  - intros cycles Hc Hf Hb Htk.
    apply (collateral_limit_profit config o _ prove0); [by apply Hcol|done|done|lia].
Qed.

(** ** The stages of [price_order] *)

Section Stages.
Context {W : Type} `{Externals} `{OrderPricingContext W}.
Abbreviation state := (OrderRequest * W)%type.

Lemma pm_bind_Ok {A B} (m : PM A) (f : A -> PM B) (s : state) b s' :
  @mbind PM PM_bind A B f m s = (Ok b, s') ->
  exists a s1, m s = (Ok a, s1) /\ f a s1 = (Ok b, s').
Proof. apply ste_bind_Ok. Qed.

Lemma ctx_Ok {A} (m : ste W OrderPricingError A) (s : state) a s' :
  ctx m s = (Ok a, s') -> exists w', s' = (fst s, w') /\ m (snd s) = (Ok a, w').
Proof.
  destruct s as [o w]. unfold ctx. simpl. destruct (m w) as [[b|e|] w1]; naive_solver.
Qed.

Lemma ctx_st_Ok {A} (m : st W A) (s : state) a s' :
  ctx_st m s = (Ok a, s') -> exists w', s' = (fst s, w') /\ m (snd s) = (a, w').
Proof. destruct s as [o w]. unfold ctx_st. simpl. destruct (m w). naive_solver. Qed.

Lemma pure_res_Ok {A} (r : result OrderPricingError A) (s : state) a s' :
  pure_res r s = (Ok a, s') -> r = Ok a /\ s' = s.
Proof. unfold pure_res. destruct r; naive_solver. Qed.

Lemma skip_if_Ok b code (s : state) u s' :
  skip_if b code s = (Ok u, s') -> b = false /\ s' = s.
Proof. destruct b; [done|]. intros [= _ <-]. done. Qed.

Lemma return_if_some_Ok out (s : state) u s' :
  return_if_some out s = (Ok u, s') -> out = None /\ s' = s.
Proof. destruct out; [done|]. intros [= _ <-]. done. Qed.

End Stages.

(** Open the next step of a pricing run and read its effect. *)
Tactic Notation "pm_step" ident(H) ident(a) ident(E) :=
  apply pm_bind_Ok in H as (a & ?s & E & H);
  first
    [ injection E as <- <-
    | apply ctx_Ok in E as (?w & -> & E)
    | apply ctx_st_Ok in E as (?w & -> & E)
    | apply pure_res_Ok in E as [E ->]
    | apply skip_if_Ok in E as [E ->]
    | apply return_if_some_Ok in E as [E ->]
    | idtac ]; simpl in H; try (simpl in E).

Section StageSpecs.
Context {W : Type} `{Externals} `{OrderPricingContext W}.

(** The collateral of a lock is within the configured maximum, in the units of
    the collateral token. *)
Definition collateral_within (config : MarketConfig) (o : OrderRequest) : Prop :=
  exists (w1 w2 : W) zkc limit, convert_to_zkc (max_collateral config) w1 = (Ok zkc, w2)
    /\ scale_decimals (E := OrderPricingError) (amount_value zkc) (decimals (amount_asset zkc))
         collateral_token_decimals = Ok limit
    /\ lockCollateral (offer (request o)) <= limit.

(** The checks that the context makes of the requestor and of the request in
    the database. *)
Definition context_allows (o : OrderRequest) : Prop :=
  exists denied (w1 w2 w3 w4 w5 w6 : W),
    denied_requestor_addresses w1 = (Ok denied, w2)
    /\ check_requestor_allowed o denied w3 = (Ok None, w4)
    /\ check_request_available o w5 = (Ok None, w6).

Lemma price_prechecks_Ok o (w : W) config s' :
  price_prechecks (o, w) = (Ok config, s') ->
  exists now w1 w2 w', s' = (o, w') /\ now_timestamp w = (now, w1)
    /\ market_config w1 = (Ok config, w2)
    /\ now < expiry o /\ min_deadline config < sat_sub (expiry o) now
    /\ (forall max_expiry, max_order_expiry_secs config = Some max_expiry ->
          sat_sub (expiry o) now <= max_expiry)
    /\ is_supported supported_selectors (selector (requirements (request o))) = true
    /\ (fulfillment_type o <> FulfillAfterLockExpire -> collateral_within config o)
    /\ context_allows o.
Proof.
  unfold price_prechecks. intros Hr.
  pm_step Hr o1 E1. pm_step Hr now E2. pm_step Hr u1 E3. pm_step Hr cfg E4.
  pm_step Hr denied E5. pm_step Hr u2 E6. pm_step Hr u3 E7. pm_step Hr out E8.
  pm_step Hr u4 E9. pm_step Hr u5 E10. pm_step Hr zkc E11. pm_step Hr mc E12.
  pm_step Hr u6 E13. pm_step Hr out2 E14. pm_step Hr u7 E15.
  injection Hr as <- <-. subst out out2. breflect. eexists now, _, _, _. split_and!; try done.
  - intros mx Hmx. rewrite Hmx in E7. by breflect.
  - intros Hf. rewrite bool_decide_eq_false_2 in E13 by done. simpl in E13. breflect.
    eexists _, _, zkc, mc. split_and!; done.
  - eexists denied, _, _, _, _, _, _. split_and!; done.
Qed.

(** The fields that pricing never changes. *)
Definition same_order (o o' : OrderRequest) : Prop :=
  request o' = request o /\ fulfillment_type o' = fulfillment_type o.

(** The check of the balances, for the cost of the order's gas. *)
Definition balances_allow (o : OrderRequest) (cost : Z) : Prop :=
  let lock_expired := bool_decide (fulfillment_type o = FulfillAfterLockExpire) in
  exists o1 (w1 w2 : W), same_order o o1
    /\ check_available_balances o1 cost lock_expired
         (if lock_expired then 0 else lockCollateral (offer (request o))) w1 = (Ok None, w2).

Lemma price_gas_Ok config o (w : W) gp cost s' :
  price_gas config (o, w) = (Ok (gp, cost), s') ->
  exists o' w' units w1 w2, s' = (o', w') /\ same_order o o'
    /\ current_gas_price w1 = (Ok gp, w2)
    /\ gas_estimate o' = Some units /\ cost = wmul 256 gp units
    /\ balances_allow o cost.
Proof.
  unfold price_gas. intros Hr.
  pm_step Hr o1 E1. pm_step Hr gp' E2. pm_step Hr base E3. pm_step Hr cb E4.
  apply pm_bind_Ok in Hr as (og & s1 & E5 & Hr).
  assert (exists wx, s1 = (o, wx) /\ fits 64 og) as (wx & -> & Hog).
  { case_bool_decide.
    - injection E5 as <- <-. eexists. split; [done|]. by apply wrap_fits.
    - pm_step E5 erc E6. injection E5 as <- <-. eexists. split; [done|]. by apply wrap_fits. }
  pm_step Hr u1 E6. pm_step Hr apc E7. pm_step Hr u2 E8. pm_step Hr o2 E9.
  pm_step Hr out E10. pm_step Hr u3 E11. injection Hr as <- <- <-. subst out.
  do 2 eexists. exists og. do 2 eexists. split; [done|]. split; [done|]. split; [done|].
  split; [simpl; unfold sat_to; destruct (Z.ltb_spec og (2 ^ 64)); [done|fits_lia]|].
  split; [done|]. eexists _, _, _. split; [|exact E10]. done.
Qed.

Lemma price_preflight_Ok cost o (w : W) c pid j lim reason s' :
  price_preflight cost (o, w) = (Ok (c, pid, j, (lim, reason)), s') ->
  exists o' w' pre w1 w2 ev m iid, s' = (o', w') /\ same_order o o'
    /\ gas_estimate o' = gas_estimate o
    /\ calculate_exec_limits o cost w = (Ok (pre, lim, reason), w1) /\ 2 <= lim
    /\ evaluate_request (evaluation_request_from_order o) (mkLimits pre) w1
         = (Ok (EvalSuccess ev m pid iid j), w2)
    /\ c = normalized_units m.
Proof.
  unfold price_preflight. intros Hr.
  pm_step Hr o1 E1. pm_step Hr lims E2. destruct lims as [[pre lim'] r'].
  pm_step Hr u1 E3. pm_step Hr ev E4. destruct ev as [ev m pid' iid out|l|]; [|done..].
  pm_step Hr u2 E5. injection Hr as <- <- <- <- <- <-. breflect.
  do 2 eexists. exists pre. do 5 eexists. split_and!; done.
Qed.

Lemma price_cycle_checks_Ok config c lim reason o (w : W) u s' :
  price_cycle_checks config c lim reason (o, w) = (Ok u, s') ->
  s' = (set_total_cycles (Some c) o, w) /\ c <= lim
  /\ (0 < min_mcycle_limit config -> sat_mul 64 (min_mcycle_limit config) 1000000 <= c).
Proof.
  unfold price_cycle_checks. intros Hr. pm_step Hr o1 E1.
  apply pm_bind_Ok in Hr as (u1 & s1 & E2 & Hr).
  destruct (Z.ltb_spec lim c).
  - apply pm_bind_Ok in E2 as (x & s2 & _ & E3). done.
  - injection E2 as _ <-. pm_step Hr u2 E3. apply skip_if_Ok in Hr as [Hb ->].
    split_and!; [done|done|]. intros Hm. apply Z.ltb_lt in Hm. rewrite Hm in Hb. simpl in Hb. lia.
Qed.

(** A journal that the market is to deliver is within the configured size, and that of a
    Blake3 proof is one digest. *)
Definition journal_allowed (config : MarketConfig) (o : OrderRequest) (j : bytes) : Prop :=
  let ty := predicateType (predicate (requirements (request o))) in
  (ty = PtPrefixMatch \/ ty = PtDigestMatch -> Z.of_nat (length j) <= max_journal_bytes config)
  /\ (is_blake3_groth16_selector (selector (requirements (request o))) = true ->
      Z.of_nat (length j) = 32).

Lemma price_journal_Ok config gp cost j o (w : W) cost' s' :
  price_journal config gp cost j (o, w) = (Ok cost', s') ->
  s' = (o, w)
  /\ journal_allowed config o j
  /\ cost' = refine_gas_cost config gp cost
               (predicateType (predicate (requirements (request o)))) (Z.of_nat (length j))
  /\ (fulfillment_type o <> FulfillAfterLockExpire -> cost' <= maxPrice (offer (request o))).
Proof.
  unfold price_journal. intros Hr. pm_step Hr o1 E1. pm_step Hr u1 E2. pm_step Hr u2 E3.
  pm_step Hr u3 E4. injection Hr as <- <-. split_and!; [done| |done|].
  { split.
    - intros Ht. destruct (Z.ltb_spec (max_journal_bytes config) (Z.of_nat (length j))); [|done].
      exfalso. destruct Ht as [Ht|Ht]; rewrite Ht in E2; by breflect.
    - intros Hb. rewrite Hb in E3. simpl in E3. by breflect. }
  intros Hf. rewrite bool_decide_eq_false_2 in E4 by done. simpl in E4.
  rewrite andb_true_r in E4. by breflect.
Qed.

(** The data a predicate is evaluated on, from what the preflight returned. *)
Definition preflight_data (o : OrderRequest) (program_id : string) (journal : bytes)
    (data : FulfillmentData) : Prop :=
  if is_blake3_groth16_selector (selector (requirements (request o))) then data = FdNone
  else exists d, digest_from_hex program_id = Some d /\ data = FdImageIdAndJournal d journal.

Definition predicate_accepts (o : OrderRequest) (program_id : string) (journal : bytes) : Prop :=
  exists p data d, predicate_wf p /\ predicate_into p = predicate (requirements (request o))
    /\ preflight_data o program_id journal data /\ predicate_eval p data = Some d.

Lemma price_predicate_Ok pid j o (w : W) u s' :
  price_predicate pid j (o, w) = (Ok u, s') -> s' = (o, w) /\ predicate_accepts o pid j.
Proof.
  unfold price_predicate. intros Hr. pm_step Hr o1 E1. pm_step Hr p E2.
  apply pm_bind_Ok in Hr as (data & s1 & E3 & Hr).
  assert (s1 = (o, w) /\ preflight_data o pid j data) as [-> Hdata].
  { unfold preflight_data. bcase_in E3; [by injection E3 as <- <-|]. pm_step E3 d E4.
    injection E3 as <- <-. split; [done|]. exists d. split; [|done].
    by destruct (digest_from_hex pid); [injection E4 as ->|]. }
  apply skip_if_Ok in Hr as [Hr ->]. split; [done|].
  destruct (predicate_eval p data) as [d|] eqn:Hd; [|done].
  destruct (predicate_try_from _) as [q|e|] eqn:Hq; [|done..]. injection E2 as ->.
  apply predicate_encode_decode in Hq as [Hwf He]. exists p, data, d. by split_and!.
Qed.

(** [p] is the minimum price per megacycle that applies to the order, in ETH or
    in collateral tokens, as the context converts it. *)
Definition eth_minimum (config : MarketConfig) (o : OrderRequest) (p : Z) : Prop :=
  exists (w1 w2 : W) eth, convert_to_eth (effective_min_price config o) w1 = (Ok eth, w2)
    /\ p = amount_value eth.

Definition collateral_minimum (config : MarketConfig) (p : Z) : Prop :=
  exists (w1 w2 : W) zkc, convert_to_zkc (min_mcycle_price config) w1 = (Ok zkc, w2)
    /\ scale_decimals (E := OrderPricingError) (amount_value zkc) (decimals (amount_asset zkc))
         collateral_token_decimals = Ok p.

(** The decision for a lockable order. *)
Lemma price_lockable_Ok config c g jl o (w : W) out s' :
  price_lockable config c g jl (o, w) = (Ok out, s') ->
  exists t, out = Lock t /\ fst s' = o /\ lt_total_cycles t = c /\ c <> 0
    /\ lt_expiry_secs t = lock_deadline (offer (request o))
    /\ lt_journal_len t = jl /\ eth_minimum config o (lt_config_min_mcycle_price t)
    /\ lt_config_min_mcycle_price t
         <= sat_mul 256 (sat_sub (maxPrice (offer (request o))) g) ONE_MILLION / c
    /\ ((target_timestamp_secs t = 0
          /\ lt_config_min_mcycle_price t
               <= sat_mul 256 (sat_sub (minPrice (offer (request o))) g) ONE_MILLION / c)
        \/ time_at_price (offer (request o))
             (wadd 256 (div_ceil (sat_mul 256 (lt_config_min_mcycle_price t) c) ONE_MILLION) g)
           = Ok (target_timestamp_secs t)).
Proof.
  unfold price_lockable, mcycle_price_of. intros Hr.
  pm_step Hr o1 E1. pm_step Hr eth E2. pm_step Hr pmin E3. pm_step Hr pmax E4.
  pm_step Hr u1 E5. pm_step Hr now E6. pm_step Hr cur E7.
  apply pm_bind_Ok in Hr as ([tp tt'] & s1 & E8 & Hr).
  apply checked_quot_Ok in E3 as [Hc ->]. apply checked_quot_Ok in E4 as [_ ->].
  injection Hr as <- <-. breflect. eexists. split; [done|].
  destruct (Z.leb_spec (amount_value eth)
    (sat_mul 256 (sat_sub (minPrice (offer (request o))) g) ONE_MILLION / c)).
  - injection E8 as <- <- <-. simpl. split_and!; try done; [|by left]. by eexists _, _, eth.
  - pm_step E8 ti E9. injection E8 as <- <- <-. simpl. split_and!; try done.
    { by eexists _, _, eth. }
    right. by destruct (time_at_price _ _) as [x|e|]; [injection E9 as ->|..].
Qed.

Lemma price_after_lock_Ok config c jl o (w : W) out s' :
  price_after_lock config c jl (o, w) = (Ok out, s') ->
  exists t reward, out = ProveAfterLockExpire t /\ fst s' = o /\ al_total_cycles t = c /\ c <> 0
    /\ collateral_reward_if_locked_and_not_fulfilled (E := OrderPricingError)
         (offer (request o)) = Ok reward
    /\ collateral_minimum config (al_config_min_mcycle_price t)
    /\ al_config_min_mcycle_price t
         <= sat_mul 256 (apply_secondary_fulfillment_discount reward
              (expected_probability_win_secondary_fulfillment config)) ONE_MILLION / c.
Proof.
  unfold price_after_lock. intros Hr.
  pm_step Hr o1 E1. pm_step Hr raw E2. pm_step Hr pr E3. pm_step Hr zkc E4.
  pm_step Hr cm E5. pm_step Hr u1 E6. apply checked_quot_Ok in E3 as [Hc ->].
  injection Hr as <- <-. breflect. eexists _, raw. split_and!; try done. by eexists _, _, zkc.
Qed.

(** The price of an order that can be locked, after gas, or the expected share of the
    collateral of one whose lock has expired, covers the configured minimum per million
    cycles. *)
Definition price_allowed (config : MarketConfig) (o : OrderRequest) (cost c : Z) : Prop :=
  c <> 0
  /\ if bool_decide (fulfillment_type o = FulfillAfterLockExpire)
     then exists reward p,
            collateral_reward_if_locked_and_not_fulfilled (E := OrderPricingError)
              (offer (request o)) = Ok reward
            /\ collateral_minimum config p
            /\ p <= sat_mul 256 (apply_secondary_fulfillment_discount reward
                      (expected_probability_win_secondary_fulfillment config)) ONE_MILLION / c
     else exists p, eth_minimum config o p
            /\ p <= sat_mul 256 (sat_sub (maxPrice (offer (request o))) cost) ONE_MILLION / c.

(** What a run of the body that reaches a decision has seen and checked: the
    configuration, the clock, the gas price and the gas of the order, the
    limits and the preflight with its cycle count, program and journal, and the
    price. *)
Record checked (o : OrderRequest) (w : W) (o' : OrderRequest) (config : MarketConfig)
    (gp units cost c : Z) (j : bytes) : Prop := {
  cd_same : same_order o o';
  cd_config : exists w1 w2 : W, market_config w1 = (Ok config, w2);
  cd_time : exists now w1, now_timestamp w = (now, w1) /\ now < expiry o
                           /\ min_deadline config < sat_sub (expiry o) now
                           /\ forall max_expiry, max_order_expiry_secs config = Some max_expiry ->
                                sat_sub (expiry o) now <= max_expiry;
  cd_selector : is_supported supported_selectors (selector (requirements (request o))) = true;
  cd_collateral : fulfillment_type o <> FulfillAfterLockExpire -> collateral_within config o;
  cd_gas : (exists w1 w2 : W, current_gas_price w1 = (Ok gp, w2)) /\ gas_estimate o' = Some units;
  cd_preflight : exists o1 (w1 w2 w3 : W) pre lim reason ev m pid iid, same_order o o1
    /\ calculate_exec_limits o1 (wmul 256 gp units) w1 = (Ok (pre, lim, reason), w2)
    /\ evaluate_request (evaluation_request_from_order o1) (mkLimits pre) w2
         = (Ok (EvalSuccess ev m pid iid j), w3)
    /\ c = normalized_units m /\ 2 <= lim /\ c <= lim /\ predicate_accepts o pid j;
  cd_minimum : 0 < min_mcycle_limit config -> sat_mul 64 (min_mcycle_limit config) 1000000 <= c;
  cd_journal : journal_allowed config o j;
  cd_total : total_cycles o' = Some c;
  cd_cost : cost = refine_gas_cost config gp (wmul 256 gp units)
              (predicateType (predicate (requirements (request o)))) (Z.of_nat (length j));
  cd_max : fulfillment_type o <> FulfillAfterLockExpire -> cost <= maxPrice (offer (request o));
  cd_allowed : context_allows o;
  cd_balances : balances_allow o (wmul 256 gp units);
  cd_price : price_allowed config o cost c
}.

(** A run of the whole body, stage by stage. *)
Lemma price_order_body_Ok o (w : W) out o' w' :
  price_order_body (o, w) = (Ok out, (o', w')) ->
  exists config gp units cost c j o2 w5,
    checked o w o' config gp units cost c j /\ same_order o o2
    /\ (if bool_decide (fulfillment_type o = FulfillAfterLockExpire)
        then price_after_lock config c (Z.of_nat (length j)) (o2, w5)
        else price_lockable config c cost (Z.of_nat (length j)) (o2, w5)) = (Ok out, (o', w')).
Proof.
  unfold price_order_body. intros Hr.
  apply pm_bind_Ok in Hr as (config & s1 & E1 & Hr).
  apply price_prechecks_Ok in E1
    as (now & w1 & w1' & wa & -> & Hnow & Hcfg & Hexp & Hdl & Hmaxe & Hsel & Hcol & Hallow).
  apply pm_bind_Ok in Hr as ([gp g] & s2 & E2 & Hr).
  apply price_gas_Ok in E2 as (oa & wb & units & w2 & w3 & -> & Hsa & Hgp & Hu & -> & Hbal).
  apply pm_bind_Ok in Hr as ([[[c pid] j] [lim reason]] & s3 & E3 & Hr).
  apply price_preflight_Ok in E3
    as (ob & wc & pre & w4 & w5 & ev & m & iid & -> & Hsb & Hub & Hlim & Hge & Hev & Hc).
  apply pm_bind_Ok in Hr as (u1 & s4 & E4 & Hr).
  apply price_cycle_checks_Ok in E4 as (-> & Hcl & Hmin).
  apply pm_bind_Ok in Hr as (g' & s5 & E5 & Hr).
  apply price_journal_Ok in E5 as (-> & Hj & Hg' & Hmax).
  apply pm_bind_Ok in Hr as (u2 & s6 & E6 & Hr).
  apply price_predicate_Ok in E6 as [-> Hp].
  pm_step Hr o2 E7. simpl in *.
  destruct Hsa as [Ha1 Ha2], Hsb as [Hb1 Hb2].
  assert (o' = set_total_cycles (Some c) ob) as ->.
  { case_bool_decide.
    - by apply price_after_lock_Ok in Hr as (t & r & _ & Hs & _).
    - by apply price_lockable_Ok in Hr as (t & _ & Hs & _). }
  assert (price_allowed config o g' c) as Hprice.
  { unfold price_allowed. rewrite Hb2, Ha2 in Hr. case_bool_decide.
    - apply price_after_lock_Ok in Hr as (t & rw & _ & _ & _ & Hc0 & Hrw & Hcm & Hle).
      simpl in Hrw. rewrite Hb1, Ha1 in Hrw. split; [done|]. by exists rw, (al_config_min_mcycle_price t).
    - apply price_lockable_Ok in Hr as (t & _ & _ & _ & Hc0 & _ & _ & Hem & Hle & _).
      unfold eth_minimum, effective_min_price in *. simpl in *. rewrite Hb1, Ha1 in *.
      split; [done|]. by exists (lt_config_min_mcycle_price t). }
  rewrite Hb2, Ha2 in Hr. unfold journal_allowed in Hj. simpl in Hj.
  rewrite Hb1, Ha1, Hb2, Ha2 in *.
  exists config, gp, units, g', c, j, (set_total_cycles (Some c) ob), wc.
  split; [|split; [by split; simpl; congruence|by case_bool_decide]].
  constructor; try done; eauto.
  - exists now, w1. by split_and!.
  - split; [eauto|]. simpl. congruence.
  - exists oa, wb, w4, w5, pre, lim, reason, ev, m, pid, iid. split_and!; try done.
    destruct Hp as (p & data & d & ? & ? & Hd & ?). exists p, data, d.
    unfold preflight_data in *. simpl in *. rewrite ?Hb1, ?Ha1 in *. by split_and!.
Qed.

End StageSpecs.

(** ** Early returns are skips

    The three checks of the context that may return an outcome return skips
    only, as the implementations of the trait do. *)
Class SkipsOnly (W : Type) `{OrderPricingContext W} := {
  requestor_skips o d (w : W) out w' :
    check_requestor_allowed o d w = (Ok (Some out), w') -> exists code, out = Skip code;
  available_skips o (w : W) out w' :
    check_request_available o w = (Ok (Some out), w') -> exists code, out = Skip code;
  balances_skip o g b c (w : W) out w' :
    check_available_balances o g b c w = (Ok (Some out), w') -> exists code, out = Skip code
}.

Section EarlySkips.
Context {W : Type} `{Externals} `{SkipsOnly W}.

Definition early_skips {A} (m : PM A) : Prop :=
  forall (s : OrderRequest * W) out s', m s = (Err (inr out), s') -> exists code, out = Skip code.

Lemma early_skips_bind {A B} (m : PM A) (f : A -> PM B) :
  early_skips m -> (forall (s : OrderRequest * W) a s', m s = (Ok a, s') -> early_skips (f a)) ->
  early_skips (@mbind PM PM_bind A B f m).
Proof.
  intros Hm Hf s out s' Hr. apply ste_bind_Err in Hr as [Hr|(a & s1 & Ha & Hr)].
  - by apply Hm in Hr.
  - by apply (Hf _ _ _ Ha) in Hr.
Qed.

Lemma early_skips_ret {A} (a : A) : early_skips (mret (M := PM) a).
Proof. by intros s out s'. Qed.
Lemma early_skips_ctx {A} (m : ste W OrderPricingError A) : early_skips (ctx m).
Proof. intros [o w] out s'. unfold ctx. destruct (m w) as [[a|e|] w1]; done. Qed.
Lemma early_skips_ctx_st {A} (m : st W A) : early_skips (ctx_st m).
Proof. intros [o w] out s'. unfold ctx_st. destruct (m w). done. Qed.
Lemma early_skips_pure {A} (r : result OrderPricingError A) : early_skips (pure_res r).
Proof. intros s out s'. unfold pure_res. by destruct r. Qed.
Lemma early_skips_get : early_skips get_order.
Proof. by intros s out s'. Qed.
Lemma early_skips_modify f : early_skips (modify_order f).
Proof. by intros [o w] out s'. Qed.
Lemma early_skips_if b code : early_skips (skip_if b code).
Proof. intros s out s'. destruct b; [|done]. intros [= <- _]. eauto. Qed.
Lemma early_skips_return {A} code : early_skips (return_outcome (A := A) (Skip code)).
Proof. intros s out s' [= <- _]. eauto. Qed.
Lemma early_skips_some out :
  (forall x, out = Some x -> exists code, x = Skip code) -> early_skips (return_if_some out).
Proof. intros Hs. destruct out as [x|]; [|done]. intros s o s' [= <- _]. by apply Hs. Qed.

Ltac early :=
  repeat match goal with
  | |- early_skips (mbind _ _) => apply early_skips_bind; [|intros ? ? ? ?]
  | |- early_skips (match ?x with _ => _ end) => destruct x
  | |- early_skips (mret _) => apply early_skips_ret
  | |- early_skips (ctx _) => apply early_skips_ctx
  | |- early_skips (ctx_st _) => apply early_skips_ctx_st
  | |- early_skips (pure_res _) => apply early_skips_pure
  | |- early_skips get_order => apply early_skips_get
  | |- early_skips (modify_order _) => apply early_skips_modify
  | |- early_skips (skip_if _ _) => apply early_skips_if
  | |- early_skips (return_outcome _) => apply early_skips_return
  | E : ctx _ _ = (Ok ?x, _) |- early_skips (return_if_some ?x) =>
      apply early_skips_some; intros ? ->; apply ctx_Ok in E as (? & _ & E);
      eauto using requestor_skips, available_skips, balances_skip
  end.

Lemma price_order_early_skips : early_skips price_order_body.
Proof.
  unfold price_order_body, price_prechecks, price_gas, price_preflight, price_cycle_checks,
    price_journal, price_predicate, price_after_lock, price_lockable.
  early.
Qed.

Lemma price_order_decides o (w : W) out s' :
  price_order o w = (Ok out, s') -> (forall code, out <> Skip code) ->
  price_order_body (o, w) = (Ok out, s').
Proof.
  unfold price_order. intros E Hns.
  destruct (price_order_body (o, w)) as [[out'|[e|out']|] s1] eqn:Eb;
    injection E as E <-; try done; subst; [done|].
  apply price_order_early_skips in Eb as [code ->]. by destruct (Hns code).
Qed.

End EarlySkips.

(** ** What pricing leaves alone

    Pricing acts on the world through its context only: what the calls of the
    context do not change, it does not change. *)
Section Untouched.
Context {W L : Type} `{Externals} `{OrderPricingContext W} (obs : W -> L).

Record context_preserves : Prop := {
  cp_config : preserves obs market_config;
  cp_denied : preserves obs denied_requestor_addresses;
  cp_requestor o d : preserves obs (check_requestor_allowed o d);
  cp_available o : preserves obs (check_request_available o);
  cp_estimate r : preserves obs (estimate_gas_to_fulfill r);
  cp_cycles r : preserves obs (additional_proof_cycles_for r);
  cp_priority a : preserves obs (is_priority_requestor a);
  cp_balances o g b c : preserves obs (check_available_balances o g b c);
  cp_gas_price : preserves obs current_gas_price;
  cp_erc o : preserves obs (estimate_erc1271_gas o);
  cp_eth a : preserves obs (convert_to_eth a);
  cp_zkc a : preserves obs (convert_to_zkc a);
  cp_evaluate r l : preserves obs (evaluate_request r l);
  cp_now : preserves obs now_timestamp
}.

#[local] Hint Resolve cp_config cp_denied cp_requestor cp_available cp_estimate cp_cycles
  cp_priority cp_balances cp_gas_price cp_erc cp_eth cp_zkc cp_evaluate cp_now : preserves.

Lemma limits_preserve o g : context_preserves -> preserves obs (calculate_exec_limits o g).
Proof. intros Hc. unfold calculate_exec_limits. preserve. Qed.

Let seen (s : OrderRequest * W) : L := obs (snd s).

Lemma preserves_pm_bind {A B} (m : PM A) (f : A -> PM B) :
  preserves seen m -> (forall a, preserves seen (f a)) ->
  preserves seen (@mbind PM PM_bind A B f m).
Proof. apply preserves_bind. Qed.

Lemma preserves_ctx {A} (m : ste W OrderPricingError A) :
  preserves obs m -> preserves seen (ctx m).
Proof. intros Hm [o w]. specialize (Hm w). unfold ctx, seen. simpl. by destruct (m w). Qed.

Lemma preserves_ctx_st {A} (m : st W A) : preserves obs m -> preserves seen (ctx_st m).
Proof. intros Hm [o w]. specialize (Hm w). unfold ctx_st, seen. simpl. by destruct (m w). Qed.

Lemma preserves_pm_ret {A} (a : A) : preserves seen (mret (M := PM) a).
Proof. done. Qed.
Lemma preserves_modify f : preserves seen (modify_order f).
Proof. by intros [o w]. Qed.
Lemma preserves_pure {A} (r : result OrderPricingError A) : preserves seen (pure_res r).
Proof. done. Qed.
Lemma preserves_outcome {A} out : preserves seen (return_outcome (A := A) out).
Proof. done. Qed.
Lemma preserves_skip_if b code : preserves seen (skip_if b code).
Proof. by destruct b. Qed.
Lemma preserves_return_if_some out : preserves seen (return_if_some out).
Proof. by destruct out. Qed.
Lemma preserves_get_order : preserves seen get_order.
Proof. done. Qed.

#[local] Hint Resolve preserves_pm_ret preserves_modify preserves_pure preserves_outcome
  preserves_skip_if preserves_return_if_some preserves_get_order preserves_ctx preserves_ctx_st
  limits_preserve : preserves.

Lemma price_order_preserves o :
  context_preserves -> forall w, obs (snd (snd (price_order o w))) = obs w.
Proof.
  intros Hc w. enough (Hb : preserves seen price_order_body).
  { specialize (Hb (o, w)). unfold price_order. by destruct (price_order_body (o, w)). }
  unfold price_order_body, price_prechecks, price_gas, price_preflight, price_cycle_checks,
    price_journal, price_predicate, price_after_lock, price_lockable.
  repeat first [apply preserves_pm_bind; [|intros ?]
    | match goal with |- preserves _ (match ?x with _ => _ end) => destruct x end
    | solve [eauto 4 with preserves]].
Qed.

End Untouched.

(** ** Locked orders pay *)

(** A price that clears the per-megacycle minimum after gas. *)
Lemma mcycle_clears total g c p :
  0 < p -> 0 < c -> p <= sat_mul 256 (sat_sub total g) ONE_MILLION / c ->
  p * c <= (total - g) * ONE_MILLION.
Proof.
  intros Hp Hc Hle. apply le_div_mul in Hle; [|done].
  pose proof (sat_mul_le 256 (sat_sub total g) ONE_MILLION).
  assert (0 < p * c) by (by apply Z.mul_pos_pos).
  assert (sat_sub total g = total - g) as <-; [|lia].
  unfold sat_sub, ONE_MILLION in *. lia.
Qed.

(** The target price of the code: no overflow, within the maximum price, and
    enough to clear the minimum. *)
Lemma target_price_exact total g c p :
  0 < p -> 0 < c -> 0 <= g -> fits 256 total ->
  p <= sat_mul 256 (sat_sub total g) ONE_MILLION / c ->
  let target := wadd 256 (div_ceil (sat_mul 256 p c) ONE_MILLION) g in
  0 <= target <= total
  /\ forall q, target <= q -> p * c <= (q - g) * ONE_MILLION.
Proof.
  intros Hp Hc Hg Ht Hle. pose proof (mcycle_clears total g c p Hp Hc Hle) as Hcl.
  apply le_div_mul in Hle; [|done].
  assert (0 < p * c) by (by apply Z.mul_pos_pos).
  assert (0 <= sat_sub total g) by apply sat_sub_nonneg.
  pose proof (sat_mul_bound 256 (sat_sub total g) ONE_MILLION ltac:(lia) ltac:(done) ltac:(done)).
  rewrite (sat_mul_exact 256 p c) by lia. cbv zeta.
  assert (Hd : div_ceil (p * c) ONE_MILLION <= total - g) by (by apply div_ceil_le_iff).
  pose proof (div_ceil_nonneg (p * c) ONE_MILLION ltac:(lia) ltac:(done)).
  rewrite wadd_small by fits_lia. split; [lia|].
  intros q Hq. etrans; [by apply (div_ceil_ge (p * c) ONE_MILLION)|].
  unfold ONE_MILLION in *. lia.
Qed.

Lemma refine_gas_cost_nonneg config gp units ty jl :
  0 <= refine_gas_cost config gp (wmul 256 gp units) ty jl.
Proof.
  unfold refine_gas_cost. case_bool_decide; apply wrap_fits; lia.
Qed.

(** C12. An order that [price_order] decides to lock has passed every check: it
    is not a lock-expired order, and it is neither too close to its expiry nor,
    when a maximum is configured, too far from it; its selector is supported; its
    collateral is within the configured maximum; its cycle count is what the
    preflight under the computed limit counted, lies within the limit for proving,
    which is at least 2, and above the configured minimum, and is recorded on the
    order; its journal is within the configured size where the market delivers it,
    and is one digest for a Blake3 proof; its gas, with that of the journal, costs
    at most its maximum price, and what is left of that price pays the configured
    minimum per million cycles; its predicate decodes and accepts what the preflight
    returned; and the context let pass its requestor, its state in the database and,
    for the cost of its gas, the balances.  The request is left unchanged and the
    decision expires with the lock. *)
Theorem lock_outcome_checked {W} `{Externals} `{SkipsOnly W} o (w : W) t o' w' :
  price_order o w = (Ok (Lock t), (o', w')) ->
  fulfillment_type o <> FulfillAfterLockExpire
  /\ lt_expiry_secs t = lock_deadline (offer (request o))
  /\ exists config gp units cost j, lt_journal_len t = Z.of_nat (length j)
     /\ checked o w o' config gp units cost (lt_total_cycles t) j.
Proof.
  intros Hr. apply price_order_decides in Hr; [|done].
  apply price_order_body_Ok in Hr
    as (config & gp & units & cost & c & j & o2 & w5 & Hck & [Ho1 Ho2] & Hr).
  case_bool_decide as Hf.
  { by apply price_after_lock_Ok in Hr as (t' & r & ? & _). }
  apply price_lockable_Ok in Hr as (t' & [= <-] & _ & Hct & _ & Het & Hj & _).
  rewrite Ho1 in Het. subst c. split_and!; [done|done|].
  exists config, gp, units, cost, j. by split.
Qed.

(** A lock pays: from the target time of the decision until the lock
    deadline, the offer's price covers the estimated gas cost and, on top of
    it, the minimum price that the configuration sets for the order, for every
    cycle.  The gas cost is the fetched gas price times the gas estimate kept
    on the order, plus the journal's calldata. *)
Theorem lock_outcome_profitable {W} `{Externals} `{SkipsOnly W} o (w : W) t o' w' :
  price_order o w = (Ok (Lock t), (o', w')) ->
  auction_ok (offer (request o)) -> 0 < rampUpPeriod (offer (request o)) ->
  0 < lt_config_min_mcycle_price t -> 0 < lt_total_cycles t ->
  exists config gp units w1 w2 w3 w4,
    market_config w1 = (Ok config, w2) /\ eth_minimum config o (lt_config_min_mcycle_price t)
    /\ current_gas_price w3 = (Ok gp, w4) /\ gas_estimate o' = Some units
    /\ let g := refine_gas_cost config gp (wmul 256 gp units)
                  (predicateType (predicate (requirements (request o)))) (lt_journal_len t) in
       g <= maxPrice (offer (request o))
       /\ forall ts, target_timestamp_secs t <= ts <= lock_deadline (offer (request o)) ->
          0 <= ts ->
          exists q, price_at (offer (request o)) ts = Ok q
            /\ lt_config_min_mcycle_price t * lt_total_cycles t <= (q - g) * ONE_MILLION.
Proof.
  intros Hr Hok Hramp Hp Hc. apply price_order_decides in Hr; [|done].
  apply price_order_body_Ok in Hr
    as (config & gp & units & cost & c & j & o2 & w5 & Hck & [Ho1 Ho2] & Hr).
  destruct (cd_config _ _ _ _ _ _ _ _ _ Hck) as (wx & wy & Hcfg).
  destruct (cd_gas _ _ _ _ _ _ _ _ _ Hck) as [(w3 & w4 & Hgp) Hu].
  pose proof (cd_cost _ _ _ _ _ _ _ _ _ Hck) as Hg. pose proof (cd_max _ _ _ _ _ _ _ _ _ Hck) as Hmax.
  case_bool_decide as Hf.
  { by apply price_after_lock_Ok in Hr as (t' & r & ? & _). }
  apply price_lockable_Ok in Hr as (t' & [= <-] & _ & Hct & _ & _ & Hj & Hmin & Hfl & Htgt).
  unfold eth_minimum, effective_min_price in Hmin. rewrite Ho1 in Hfl, Htgt, Hmin. subst c.
  exists config, gp, units, wx, wy, w3, w4. split_and!; [done|done|done|done|].
  pose proof (refine_gas_cost_nonneg config gp units
    (predicateType (predicate (requirements (request o)))) (Z.of_nat (length j))) as Hg0.
  rewrite <- Hg in Hg0. rewrite Hj, <- Hg. cbv zeta. split; [by apply Hmax|].
  intros ts Hts Hts0. destruct Htgt as [[Hz Hmn]|Htime].
  - rewrite price_at_ok by done. eexists. split; [done|].
    apply mcycle_clears in Hmn; [|done..].
    rewrite (lock_deadline_exact _ Hok) in Hts.
    pose proof (ref_price_bounds _ Hok ts ltac:(lia)).
    unfold ONE_MILLION in *. lia.
  - destruct (target_price_exact _ _ _ _ Hp Hc Hg0
      (wf_maxPrice _ (ao_wf _ Hok)) Hfl) as [Hle Hcover].
    destruct (time_at_price_reaches _ _ Hok Hramp Hle) as (t1 & E1 & _ & Hreach).
    rewrite E1 in Htime. injection Htime as Ht1. subst t1.
    destruct (Hreach ts Hts) as (q & Hq & Hpq). exists q. split; [done|]. by apply Hcover.
Qed.

(** A lock-expired order that is accepted has passed the checks and pays:
    the expected share of its collateral, after the discount for losing the
    race, covers the configured minimum price, in collateral tokens, for every
    cycle. *)
Theorem after_lock_outcome_profitable {W} `{Externals} `{SkipsOnly W} o (w : W) t o' w' :
  price_order o w = (Ok (ProveAfterLockExpire t), (o', w')) ->
  fits 256 (lockCollateral (offer (request o))) -> 0 < al_total_cycles t ->
  fulfillment_type o = FulfillAfterLockExpire
  /\ exists config gp units cost j, checked o w o' config gp units cost (al_total_cycles t) j
     /\ collateral_minimum config (al_config_min_mcycle_price t)
     /\ al_config_min_mcycle_price t * al_total_cycles t
        <= apply_secondary_fulfillment_discount (lockCollateral (offer (request o)) / 2)
             (expected_probability_win_secondary_fulfillment config) * ONE_MILLION.
Proof.
  intros Hr Hfit Hc. apply price_order_decides in Hr; [|done].
  apply price_order_body_Ok in Hr
    as (config & gp & units & cost & c & j & o2 & w5 & Hck & [Ho1 Ho2] & Hr).
  case_bool_decide as Hf.
  2: { by apply price_lockable_Ok in Hr as (t' & ? & _). }
  apply price_after_lock_Ok in Hr as (t' & rw & [= <-] & _ & Hct & _ & Hrw & Hm & Hle).
  rewrite Ho1, collateral_reward_half in Hrw by done. injection Hrw as <-. subst c.
  split; [done|]. exists config, gp, units, cost, j. split_and!; [done|done|].
  apply le_div_mul in Hle; [|done]. etrans; [done|]. apply sat_mul_le.
Qed.

(** ** Pricing does not panic *)

(** The context does not panic, and the preflight of a guest that ran to its
    end counts at least one cycle. *)
Class PanicFree (W : Type) `{Externals} `{OrderPricingContext W} := {
  pf_config (w : W) : pfree market_config w;
  pf_denied (w : W) : pfree denied_requestor_addresses w;
  pf_requestor o d (w : W) : pfree (check_requestor_allowed o d) w;
  pf_available o (w : W) : pfree (check_request_available o) w;
  pf_gas r (w : W) : pfree (estimate_gas_to_fulfill r) w;
  pf_apc r (w : W) : pfree (additional_proof_cycles_for r) w;
  pf_balances o g b c (w : W) : pfree (check_available_balances o g b c) w;
  pf_gas_price (w : W) : pfree current_gas_price w;
  pf_eth a (w : W) : pfree (convert_to_eth a) w;
  pf_zkc a (w : W) : pfree (convert_to_zkc a) w;
  pf_evaluate r l (w : W) : pfree (evaluate_request r l) w;
  pf_cycles r l (w : W) ev m pid iid out w' :
    evaluate_request r l w = (Ok (EvalSuccess ev m pid iid out), w') -> 0 < normalized_units m;
  pf_decimals : 0 <= collateral_token_decimals
}.

Lemma scale_decimals_no_panic {E} v a to :
  0 <= to -> scale_decimals (E := E) v (decimals a) to <> Panic.
Proof.
  intros Ht. assert (0 <= decimals a <= 18) by (by destruct a).
  unfold scale_decimals. repeat bcase; try done.
  rewrite wpow_small by lia. by rewrite checked_quot_pos by (apply Z.pow_pos_nonneg; lia).
Qed.

Lemma time_at_price_no_panic o p : offer_wf o -> time_at_price o p <> Panic.
Proof.
  intros []. unfold time_at_price. repeat bcase; try done.
  rewrite (wsub_small 256 (maxPrice o) (minPrice o)) by fits_lia.
  rewrite checked_div_ceil_pos by lia. simpl. by repeat bcase.
Qed.

Section NoPanic.
Context {W : Type} `{PanicFree W}.

Lemma eth_limit_no_panic o g p : eth_limit o g p <> Panic.
Proof.
  unfold eth_limit, checked_quot. destruct (p =? 0); done.
Qed.

Lemma collateral_limit_no_panic config o b p :
  fits 256 (lockCollateral (offer (request o))) -> collateral_limit config o b p <> Panic.
Proof.
  intros Hf. unfold collateral_limit. destruct (p =? 0) eqn:E; [done|].
  rewrite collateral_reward_half by done. simpl. unfold checked_div_ceil. by rewrite E.
Qed.

Lemma reward_no_panic o :
  fits 256 (lockCollateral o) ->
  collateral_reward_if_locked_and_not_fulfilled (E := OrderPricingError) o <> Panic.
Proof. intros Hf. by rewrite collateral_reward_half. Qed.

Lemma callback_gas_no_panic r : callback_gas r <> Panic.
Proof. unfold callback_gas. by destruct (_ <? _). Qed.

Lemma calculate_exec_limits_pfree o g (w : W) :
  fits 256 (lockCollateral (offer (request o))) -> pfree (calculate_exec_limits o g) w.
Proof.
  intros Hf. unfold calculate_exec_limits.
  repeat first
    [ apply pfree_bind; [|intros ? ? ?]
    | apply pfree_lift | apply pfree_ret | apply pf_config | apply pf_eth | apply pf_zkc
    | apply pfree_liftr; first
        [ apply scale_decimals_no_panic, pf_decimals | by apply collateral_limit_no_panic
        | by apply reward_no_panic | apply eth_limit_no_panic ]
    | match goal with |- pfree (match ?x with _ => _ end) _ => destruct x end ].
Qed.

(** When the deadline sets the limit, some time is left. *)
Lemma deadline_reason_positive o g (w : W) pre lim secs khz w' :
  calculate_exec_limits o g w = (Ok (pre, lim, DeadlineCap secs khz), w') -> 2 <= lim -> 0 < secs.
Proof.
  intros (now & config & eth & zkc & prio & tokens & pre0 & prove0 & r0 & pre1 & prove1 & r1
    & _ & _ & (Hle & _ & _) & Hr0 & Hcfg & Hdl)%calculate_exec_limits_inv Hlim.
  pose proof Hcfg as Hcfg'. apply cap_by_config_ordered in Hcfg' as (Hle1 & _); [|done].
  apply cap_by_deadline_ordered in Hdl as (_ & _ & _ & _ & [Hr|(k & E & Hk)]); [| |done].
  - exfalso. unfold cap_by_config in Hcfg. subst r1. repeat bcase_in Hcfg; simplify_eq.
    all: by eapply Hr0.
  - injection E as -> ->. pose proof (sat_sub_nonneg (expiry o) now).
    destruct (Z.eq_dec (sat_sub (expiry o) now) 0) as [Hz|]; [|lia].
    rewrite Hz, max_cycles_for_time_zero in Hk. lia.
Qed.

Lemma above_limit_info_no_panic o c reason :
  fits 256 (lockCollateral (offer (request o))) -> 0 < c ->
  (forall secs khz, reason = DeadlineCap secs khz -> 0 < secs) ->
  above_limit_info o c reason <> Panic.
Proof.
  intros Hf Hc Hd. unfold above_limit_info. destruct reason as [a b p x|a b|m|secs khz].
  - by rewrite !checked_quot_pos.
  - rewrite collateral_reward_half by done. simpl. by rewrite !checked_quot_pos.
  - done.
  - specialize (Hd secs khz eq_refl). rewrite checked_div_ceil_pos; [done|].
    unfold sat_mul, umax. lia.
Qed.

Lemma pfree_pm_bind {A B} (m : PM A) (f : A -> PM B) (s : OrderRequest * W) :
  pfree m s -> (forall a s', m s = (Ok a, s') -> pfree (f a) s') ->
  pfree (@mbind PM PM_bind A B f m) s.
Proof. apply pfree_bind. Qed.

Lemma pfree_ctx {A} (m : ste W OrderPricingError A) (s : OrderRequest * W) :
  pfree m (snd s) -> pfree (ctx m) s.
Proof.
  destruct s as [o w]. unfold pfree, ctx. simpl. intros Hm s'.
  destruct (m w) as [[a|e|] w1] eqn:E; [done|done|]. by destruct (Hm w1).
Qed.

Lemma pfree_ctx_st {A} (m : st W A) (s : OrderRequest * W) : pfree (ctx_st m) s.
Proof. destruct s as [o w]. intros s'. unfold ctx_st. by destruct (m w). Qed.

Lemma pfree_pure {A} (r : result OrderPricingError A) (s : OrderRequest * W) :
  r <> Panic -> pfree (pure_res r) s.
Proof. intros Hr s'. unfold pure_res. by destruct r. Qed.

Lemma pfree_prim (s : OrderRequest * W) :
  pfree get_order s /\ (forall f, pfree (modify_order f) s)
  /\ (forall b code, pfree (skip_if b code) s) /\ (forall out, pfree (return_if_some out) s)
  /\ (forall A (a : A), pfree (mret (M := PM) a) s)
  /\ (forall A out, pfree (return_outcome (A := A) out) s).
Proof.
  destruct s as [o w]. split_and!; intros; intros s'; try done.
  - by destruct b.
  - by destruct out.
Qed.

(** One step of the search for panics. *)
Ltac pf_step :=
  first
    [ apply pfree_pm_bind; [|intros ? ? ?]
    | apply pfree_prim | apply pfree_ctx_st
    | apply pfree_ctx; simpl; first
        [ apply pf_config | apply pf_denied | apply pf_requestor | apply pf_available
        | apply pf_gas | apply pf_apc | apply pf_balances | apply pf_gas_price | apply pf_eth
        | apply pf_zkc | apply pf_evaluate ]
    | apply pfree_pure; first
        [ apply scale_decimals_no_panic, pf_decimals | apply callback_gas_no_panic ]
    | match goal with |- pfree (match ?x with _ => _ end) _ => destruct x end ].

Ltac pf_get := apply pfree_pm_bind; [apply pfree_prim|]; intros ? ? [= <- <-]; simpl.

Lemma price_prechecks_pfree (s : OrderRequest * W) : pfree price_prechecks s.
Proof. unfold price_prechecks. repeat pf_step. Qed.

Lemma price_gas_pfree config (s : OrderRequest * W) : pfree (price_gas config) s.
Proof. unfold price_gas. repeat pf_step. Qed.

Lemma price_preflight_pfree g o (w : W) :
  fits 256 (lockCollateral (offer (request o))) -> pfree (price_preflight g) (o, w).
Proof.
  intros Hf. unfold price_preflight. pf_get.
  pf_step; [by apply pfree_ctx, calculate_exec_limits_pfree|]. repeat pf_step.
Qed.

Lemma price_cycle_checks_pfree config c lim reason o (w : W) :
  fits 256 (lockCollateral (offer (request o))) -> 2 <= lim ->
  (forall secs khz, reason = DeadlineCap secs khz -> 0 < secs) ->
  pfree (price_cycle_checks config c lim reason) (o, w).
Proof.
  intros Hf Hl Hd. unfold price_cycle_checks. pf_get.
  pf_step; [|repeat pf_step]. destruct (Z.ltb_spec lim c); [|pf_step].
  pf_step; [|pf_step]. apply pfree_pure, above_limit_info_no_panic; [done|lia|done].
Qed.

Lemma price_journal_pfree config gp g j (s : OrderRequest * W) :
  pfree (price_journal config gp g j) s.
Proof. unfold price_journal. repeat pf_step. Qed.

Lemma price_predicate_pfree pid j o (w : W) : pfree (price_predicate pid j) (o, w).
Proof.
  unfold price_predicate. pf_get. pf_step.
  - apply pfree_pure. unfold predicate_try_from.
    destruct (predicateType _); simpl; [| | |done].
    all: repeat (match goal with |- context [ok_or _ ?x] => destruct x as [|] end; simpl; try done).
    all: by destruct p as [? ?]; simpl; repeat (match goal with |- context [ok_or _ ?x] => destruct x end; simpl).
  - pf_step; [|pf_step]. bcase; [pf_step|]. pf_step; [|pf_step].
    apply pfree_pure. by destruct (digest_from_hex pid).
Qed.

Lemma price_after_lock_pfree config c jl o (w : W) :
  fits 256 (lockCollateral (offer (request o))) -> 0 < c ->
  pfree (price_after_lock config c jl) (o, w).
Proof.
  intros Hf Hc. unfold price_after_lock. pf_get.
  pf_step; [by apply pfree_pure, reward_no_panic|].
  pf_step; [apply pfree_pure; by rewrite checked_quot_pos|]. repeat pf_step.
Qed.

Lemma price_lockable_pfree config c g jl o (w : W) :
  offer_wf (offer (request o)) -> 0 < c -> pfree (price_lockable config c g jl) (o, w).
Proof.
  intros Hf Hc. unfold price_lockable, mcycle_price_of. pf_get.
  pf_step; [pf_step|].
  do 2 (pf_step; [apply pfree_pure; by rewrite checked_quot_pos|]).
  pf_step; [pf_step|]. pf_step; [pf_step|]. pf_step; [by apply pfree_pure|].
  pf_step; [|repeat pf_step]. bcase; [pf_step|]. pf_step; [|repeat pf_step].
  apply pfree_pure. destruct (time_at_price _ _) eqn:E; [done..|].
  by apply time_at_price_no_panic in E.
Qed.

End NoPanic.

(** Pricing never panics: with a context that does not panic, a
    well-formed offer and a preflight that counts at least one cycle, every
    division, unwrap and subtraction on the way is defined, including the
    ones that only feed the reason of a skip. *)
Theorem price_order_no_panic {W} `{PanicFree W} o (w : W) :
  offer_wf (offer (request o)) -> no_panic (fst (price_order o w)).
Proof.
  intros Hwf. pose proof (wf_lockCollateral _ Hwf) as Hcol.
  assert (Hb : pfree price_order_body (o, w)).
  { unfold price_order_body.
    apply pfree_pm_bind; [apply price_prechecks_pfree|]. intros config s1 E1.
    apply price_prechecks_Ok in E1 as (now & w1 & w2 & wa & -> & _).
    apply pfree_pm_bind; [apply price_gas_pfree|]. intros [gp g] s2 E2.
    apply price_gas_Ok in E2 as (oa & wb & units & w3 & w4 & -> & [Ha1 Ha2] & _).
    apply pfree_pm_bind; [apply price_preflight_pfree; by rewrite Ha1|].
    intros [[[c pid] j] [lim reason]] s3 E3.
    apply price_preflight_Ok in E3
      as (ob & wc & pre & w5 & w6 & ev & m & iid & -> & [Hb1 Hb2] & _ & Hlim & Hge & Hev & ->).
    apply pf_cycles in Hev as Hc.
    apply pfree_pm_bind.
    { apply price_cycle_checks_pfree; [by rewrite Hb1, Ha1|done|].
      intros secs khz ->. by eapply deadline_reason_positive. }
    intros u s4 E4. apply price_cycle_checks_Ok in E4 as [-> _].
    apply pfree_pm_bind; [apply price_journal_pfree|].
    intros g' s5 E5. apply price_journal_Ok in E5 as (-> & _).
    apply pfree_pm_bind; [apply price_predicate_pfree|].
    intros u2 s6 E6. apply price_predicate_Ok in E6 as [-> _].
    apply pfree_pm_bind; [apply pfree_prim|]. intros o2 s7 [= <- <-]. simpl.
    case_bool_decide.
    - apply price_after_lock_pfree; [simpl; by rewrite Hb1, Ha1|done].
    - apply price_lockable_pfree; [simpl; by rewrite Hb1, Ha1|done]. }
  unfold no_panic, price_order.
  destruct (price_order_body (o, w)) as [[out|[e|out]|] s1] eqn:E; simpl; try done.
  by destruct (Hb s1).
Qed.

(** The unchecked multiplication after the saturating one: at 2^30 kHz a window
    of 2^31 seconds is priced as one in which nothing can be proven. *)
Lemma max_cycles_wraps : calculate_max_cycles_for_time (2 ^ 30) (2 ^ 31) = 0.
Proof. by vm_compute. Qed.

(** ** Witnesses *)

Definition toy_config : MarketConfig := {|
  min_mcycle_price := mkAmount 300 ETH;
  expected_probability_win_secondary_fulfillment := 50;
  max_mcycle_limit := 8000;
  min_mcycle_limit := 0;
  max_journal_bytes := 100;
  peak_prove_khz := Some 100;
  min_deadline := 5;
  max_collateral := mkAmount 1000000 ZKC;
  lockin_gas_estimate := 5;
  fulfill_gas_estimate := 10;
  commit_fulfillment_gas_estimate := 2;
  fulfill_journal_gas_per_byte := 1;
  groth16_verify_gas_estimate := 3;
  cfg_additional_proof_cycles := 0;
  pricing_overrides := mkOverrides ∅ ∅ ∅;
  max_order_expiry_secs := None
|}.

(** A context whose world is the clock: one wei per gas, and a guest of two
    million cycles that writes a two-byte journal. *)
Definition toy_context : OrderPricingContext Z := {|
  market_config := fun w => (Ok toy_config, w);
  supported_selectors := supported_default false;
  collateral_token_decimals := 18;
  denied_requestor_addresses := fun w => (Ok None, w);
  check_requestor_allowed := fun _ _ w => (Ok None, w);
  check_request_available := fun _ w => (Ok None, w);
  estimate_gas_to_fulfill := fun _ w => (Ok 10, w);
  additional_proof_cycles_for := fun _ w => (Ok 0, w);
  is_priority_requestor := fun _ w => (false, w);
  check_available_balances := fun _ _ _ _ w => (Ok None, w);
  current_gas_price := fun w => (Ok 1, w);
  estimate_erc1271_gas := fun o w => (estimate_erc1271_gas_default o, w);
  convert_to_eth := fun a w => (Ok (mkAmount (amount_value a) ETH), w);
  convert_to_zkc := fun a w => (Ok (mkAmount (amount_value a) ZKC), w);
  evaluate_request := fun _ _ w =>
    (Ok (EvalSuccess "e" (mkMetrics 2000000 2000000) "p" "i" [x02; x07]), w);
  now_timestamp := fun w => (w, w);
  digest_from_hex := fun _ => Some (repeat x01 32)
|}.

Definition toy_order (ty : FulfillmentType) : OrderRequest :=
  order_request_new
    (mkProofRequest (RequestId.u256 77 3)
       (requirements_new (predicate_into (PrefixMatch (repeat x01 32) [x02])))
       "https://host/image" (mkRequestInput InputInline [])
       (mkOffer 100 1100 1000 50 60 90 20000)) [] ty 1 1 900.

Lemma toy_skips : @SkipsOnly Z toy_context.
Proof. by split. Qed.

Lemma toy_panic_free : @PanicFree Z toy_externals toy_context.
Proof.
  split; try done. intros r l w ev m pid iid out w' [= <- <- <- <- <- <-]. done.
Qed.

Definition toy_terms : LockTerms := {|
  lt_total_cycles := 2000000; target_timestamp_secs := 1026; lt_expiry_secs := 1060;
  target_mcycle_price := 617; max_mcycle_price := 541; lt_config_min_mcycle_price := 300;
  current_mcycle_price := 100; lt_journal_len := 2 |}.

Definition toy_run := @price_order Z toy_externals toy_context (toy_order LockAndFulfill) 950.

Lemma toy_run_locks : fst toy_run = Ok (Lock toy_terms).
Proof. by vm_compute. Qed.

Lemma exec_limits_sound_witness :
  exists pre lim reason,
    @calculate_exec_limits Z toy_context (toy_order LockAndFulfill) 17 950
      = (Ok (pre, lim, reason), 950) /\ lim <= pre.
Proof.
  do 3 eexists. split; [by vm_compute|].
  destruct (@exec_limits_sound Z toy_context (toy_order LockAndFulfill) 17 950 _ _ _ _ eq_refl)
    as (? & ? & ? & ? & ? & ? & _ & _ & Hle & _). by apply Hle.
Defined.

Lemma lock_outcome_checked_witness :
  toy_run = (Ok (Lock toy_terms), snd toy_run)
  /\ total_cycles (fst (snd toy_run)) = Some 2000000.
Proof.
  split; [by vm_compute|].
  destruct (@lock_outcome_checked Z toy_externals toy_context toy_skips
    (toy_order LockAndFulfill) 950 toy_terms (fst (snd toy_run)) (snd (snd toy_run))
    ltac:(by vm_compute)) as (_ & _ & config & gp & units & cost & j & _ & Hck).
  by rewrite (cd_total _ _ _ _ _ _ _ _ _ Hck).
Defined.

Lemma lock_outcome_profitable_witness :
  exists g q, price_at (offer (request (toy_order LockAndFulfill))) 1026 = Ok q
    /\ 300 * 2000000 <= (q - g) * ONE_MILLION.
Proof.
  destruct (@lock_outcome_profitable Z toy_externals toy_context toy_skips
    (toy_order LockAndFulfill) 950 toy_terms (fst (snd toy_run)) (snd (snd toy_run))
    ltac:(by vm_compute) ltac:(refine (bool_decide_unpack _ _); by vm_compute)
    ltac:(done) ltac:(done) ltac:(done))
    as (config & gp & units & w1 & w2 & w3 & w4 & _ & _ & _ & _ & _ & Hq).
  destruct (Hq 1026 ltac:(by vm_compute) ltac:(done)) as (q & Eq & Hle). eauto.
Defined.

Definition toy_after_run :=
  @price_order Z toy_externals toy_context (toy_order FulfillAfterLockExpire) 1065.

Lemma after_lock_outcome_profitable_witness :
  exists t, fst toy_after_run = Ok (ProveAfterLockExpire t) /\ al_total_cycles t = 2000000
    /\ total_cycles (fst (snd toy_after_run)) = Some 2000000.
Proof.
  eexists. split; [by vm_compute|]. split; [done|].
  destruct (@after_lock_outcome_profitable Z toy_externals toy_context toy_skips
    (toy_order FulfillAfterLockExpire) 1065 _ (fst (snd toy_after_run)) (snd (snd toy_after_run))
    ltac:(by vm_compute) ltac:(by vm_compute) ltac:(done))
    as (_ & config & gp & units & cost & j & Hck & _).
  by rewrite (cd_total _ _ _ _ _ _ _ _ _ Hck).
Defined.

Lemma price_order_no_panic_witness :
  no_panic (fst (@price_order Z toy_externals toy_context (toy_order LockAndFulfill) 950)).
Proof.
  apply (@price_order_no_panic Z toy_externals toy_context toy_panic_free).
  by constructor; vm_compute.
Defined.
