(* ===== verification/Planner.v ===== *)
(** * Planner: the task graph of a proof

    [prover/crates/taskdb/src/planner/mod.rs] and [planner/task.rs]: segments
    and keccak requests arrive one at a time, and the planner emits the tasks
    that prove, join and finalize them.  The two lists of peaks are binary
    counters: a new leaf is merged with the peaks of its own height, so that
    the peaks are perfect trees of strictly decreasing heights.

    Task numbers, heights and positions ([usize] and [u32]) are [nat]: a task
    number indexes a vector in memory, and the height of a task is bounded by
    the logarithm of the number of leaves ([join_height_bound]).  A vector
    keeps the order of the source, with its last element at the end; the
    merging loop works on the reversed vector.

    The theorems: no operation of a reachable planner panics, the finalize
    task depends on one join tree whose leaves are all segments in order and
    on one union tree with all keccak requests, every task is emitted after
    its dependencies and is higher than them, the join tree is as low as a
    binary tree can be, and finishing is idempotent and closes the plan. *)

From S2P Require Import Prelude.

Local Open Scope nat_scope.

(** ** Tasks *)

Inductive Command := Keccak | Finalize | Join | Segment | Union.

#[export] Instance Command_eq_dec : EqDecision Command.
Proof. solve_decision. Defined.

Record Task := mkTask {
  task_number : nat;
  task_height : nat;
  command : Command;
  depends_on : list nat;
  keccak_depends_on : list nat
}.

Definition new_keccak (n : nat) : Task := mkTask n 0 Keccak [] [].
Definition new_segment (n : nat) : Task := mkTask n 0 Segment [] [].
Definition new_join (n height left right : nat) : Task := mkTask n height Join [left; right] [].
Definition new_union (n height left right : nat) : Task := mkTask n height Union [] [left; right].
Definition new_finalize (n height dep : nat) (kdeps : option (list nat)) : Task :=
  mkTask n height Finalize [dep] (default [] kdeps).

(** ** The planner *)

Inductive PlannerErr := PlanNotStartedString | PlanFinalized.

Record Planner := mkPlanner {
  tasks : list Task;
  peaks : list nat;
  keccak_peaks : list nat;
  consumer_position : nat;
  last_task : option nat
}.

Definition planner_default : Planner := mkPlanner [] [] [] 0 None.

Definition task_count (ts : list Task) : nat := length ts.

Definition next_task_number (ts : list Task) : nat := task_count ts.

(** [get_task] panics on an invalid task number. *)
Definition get_task (ts : list Task) (n : nat) : result PlannerErr Task := unwrap (ts !! n).

(** [enqueue_join] and [enqueue_union] return the task number; both push one
    task. *)
Definition enqueue_join (ts : list Task) (left right : nat)
    : result PlannerErr (nat * list Task) :=
  let n := next_task_number ts in
  l ← get_task ts left;
  r ← get_task ts right;
  let height := 1 + Nat.max (task_height l) (task_height r) in
  mret (n, ts ++ [new_join n height left right]).

Definition enqueue_union (ts : list Task) (left right : nat)
    : result PlannerErr (nat * list Task) :=
  let n := next_task_number ts in
  l ← get_task ts left;
  r ← get_task ts right;
  let height := 1 + Nat.max (task_height l) (task_height r) in
  mret (n, ts ++ [new_union n height left right]).

Definition enqueue_finalize (ts : list Task) (dep : nat) (kdeps : option (list nat))
    : result PlannerErr (nat * list Task) :=
  let n := next_task_number ts in
  d ← get_task ts dep;
  let height := 1 + task_height d in
  height ← match kdeps with
           | Some (k :: ks) =>
               (* [val.iter().max()] *)
               let highest_peak := foldr Nat.max k ks in
               h ← get_task ts highest_peak;
               mret (Nat.max height (1 + task_height h))
           | _ => mret height
           end;
  mret (n, ts ++ [new_finalize n height dep kdeps]).

(** The loop of [enqueue_segment] and [enqueue_keccak], over the peaks from the
    smallest up: [merge] enqueues the join or the union. *)
Fixpoint merge_loop (merge : list Task -> nat -> nat -> result PlannerErr (nat * list Task))
    (stack : list nat) (ts : list Task) (new_peak : nat)
    : result PlannerErr (list nat * list Task) :=
  match stack with
  | [] => mret ([new_peak], ts)
  | smallest_peak :: rest =>
      new_t ← get_task ts new_peak;
      small_t ← get_task ts smallest_peak;
      match Nat.compare (task_height new_t) (task_height small_t) with
      | Lt => mret (new_peak :: stack, ts)
      | Eq => '(n, ts') ← merge ts smallest_peak new_peak; merge_loop merge rest ts' n
      | Gt => Panic
      end
  end.

Definition enqueue_segment (self : Planner) : result PlannerErr (nat * Planner) :=
  match last_task self with
  | Some _ => Err PlanFinalized
  | None =>
      let n := next_task_number (tasks self) in
      let ts := tasks self ++ [new_segment n] in
      '(stack, ts) ← merge_loop enqueue_join (rev (peaks self)) ts n;
      mret (n, mkPlanner ts (rev stack) (keccak_peaks self) (consumer_position self) None)
  end.

Definition enqueue_keccak (self : Planner) : result PlannerErr (nat * Planner) :=
  match last_task self with
  | Some _ => Err PlanFinalized
  | None =>
      let n := next_task_number (tasks self) in
      let ts := tasks self ++ [new_keccak n] in
      '(stack, ts) ← merge_loop enqueue_union (rev (keccak_peaks self)) ts n;
      mret (n, mkPlanner ts (peaks self) (rev stack) (consumer_position self) None)
  end.

(** The loop of [finish_unions]: the two front peaks are united until one is
    left; the loop of [finish] joins the two back ones. *)
Fixpoint fold_peaks (merge : list Task -> nat -> nat -> result PlannerErr (nat * list Task))
    (acc : nat) (rest : list nat) (ts : list Task) : result PlannerErr (nat * list Task) :=
  match rest with
  | [] => mret (acc, ts)
  | peak_1 :: rest =>
      '(peak_3, ts) ← merge ts peak_1 acc;
      fold_peaks merge peak_3 rest ts
  end.

(** [finish_unions]: the new tasks, the keccak peaks and the returned list. *)
Definition finish_unions (ts : list Task) (kpeaks : list nat)
    : result PlannerErr (option (list nat) * list nat * list Task) :=
  match kpeaks with
  | [] => mret (None, [], ts)
  | peak_0 :: rest =>
      '(k, ts) ← fold_peaks enqueue_union peak_0 rest ts;
      mret (Some [k], [k], ts)
  end.

Definition finish (self : Planner) : result PlannerErr (nat * Planner) :=
  match peaks self with
  | [] => Err PlanNotStartedString
  | _ =>
      '(kdeps, kpeaks, ts) ← finish_unions (tasks self) (keccak_peaks self);
      match last_task self with
      | None =>
          match rev (peaks self) with
          | [] => Panic
          | peak_0 :: rest =>
              '(root, ts) ← fold_peaks enqueue_join peak_0 rest ts;
              '(n, ts) ← enqueue_finalize ts root kdeps;
              mret (n, mkPlanner ts [root] kpeaks (consumer_position self) (Some n))
          end
      | Some n => mret (n, mkPlanner ts (peaks self) kpeaks (consumer_position self) (Some n))
      end
  end.

Definition next_task (self : Planner) : option Task * Planner :=
  match tasks self !! consumer_position self with
  | Some out =>
      (Some out, mkPlanner (tasks self) (peaks self) (keccak_peaks self)
                   (S (consumer_position self)) (last_task self))
  | None => (None, self)
  end.

(** ** Trees of tasks *)

Definition children (t : Task) : list nat := depends_on t ++ keccak_depends_on t.

(** [tree ts leaf node i h l]: task [i] is the root of a binary tree of [node]
    tasks over [leaf] tasks, of height [h] and with the leaves [l] from left
    to right. *)
Inductive tree (ts : list Task) (leaf node : Command) : nat -> nat -> list nat -> Prop :=
| tree_leaf i t :
    ts !! i = Some t -> command t = leaf -> task_height t = 0 -> children t = [] ->
    tree ts leaf node i 0 [i]
| tree_node i t l r hl hr ll lr :
    ts !! i = Some t -> command t = node -> children t = [l; r] ->
    task_height t = S (Nat.max hl hr) ->
    tree ts leaf node l hl ll -> tree ts leaf node r hr lr ->
    tree ts leaf node i (S (Nat.max hl hr)) (ll ++ lr).

(** A stack of peaks, smallest first: perfect trees of strictly increasing
    heights, at least [b], with the leaves of the largest first. *)
Inductive stack_ok (ts : list Task) (leaf node : Command) : list nat -> nat -> list nat -> Prop :=
| stack_nil b : stack_ok ts leaf node [] b []
| stack_cons i h l s b leaves :
    tree ts leaf node i h l -> length l = 2 ^ h -> b <= h ->
    stack_ok ts leaf node s (S h) leaves ->
    stack_ok ts leaf node (i :: s) b (leaves ++ l).

(** The numbers of the tasks with a given command, in order. *)
Definition numbers (c : Command) (ts : list Task) : list nat :=
  task_number <$> filter (fun t => command t = c) ts.

(** Numbers are positions; dependencies come first and are lower. *)
Definition task_ok (ts : list Task) (i : nat) (t : Task) : Prop :=
  task_number t = i
  /\ Forall (fun d => d < i
       /\ exists u, ts !! d = Some u /\ task_height u < task_height t) (children t).

Definition tasks_ok (ts : list Task) : Prop := forall i t, ts !! i = Some t -> task_ok ts i t.

Create HintDb planner.

Lemma tree_app ts leaf node i h l us :
  tree ts leaf node i h l -> tree (ts ++ us) leaf node i h l.
Proof.
  induction 1 as [i t Hi|i t l r hl hr ll lr Hi]; [eapply tree_leaf|eapply tree_node];
    eauto using lookup_app_l_Some.
Qed.

Lemma stack_app ts leaf node s b l us :
  stack_ok ts leaf node s b l -> stack_ok (ts ++ us) leaf node s b l.
Proof. induction 1; econstructor; eauto using tree_app. Qed.

Lemma stack_weaken ts leaf node s b b' l :
  stack_ok ts leaf node s b l -> b' <= b -> stack_ok ts leaf node s b' l.
Proof. inversion 1; subst; [constructor|]. econstructor; eauto; lia. Qed.

Lemma tree_height ts leaf node i h l :
  tree ts leaf node i h l -> exists t, ts !! i = Some t /\ task_height t = h.
Proof. inversion 1; eauto. Qed.

Lemma numbers_app c ts us : numbers c (ts ++ us) = numbers c ts ++ numbers c us.
Proof. unfold numbers. by rewrite filter_app, fmap_app. Qed.

Lemma tasks_ok_snoc ts t :
  tasks_ok ts -> task_ok ts (length ts) t -> tasks_ok (ts ++ [t]).
Proof.
  intros Hts [Hn Hc] i u Hi. unfold task_ok.
  assert (Hmono : forall ds h k, Forall (fun d => d < k
      /\ exists u, ts !! d = Some u /\ task_height u < h) ds ->
    Forall (fun d => d < k
      /\ exists u, (ts ++ [t]) !! d = Some u /\ task_height u < h) ds).
  { intros ds h k Hf. eapply Forall_impl; [exact Hf|]. intros d (? & u' & ? & ?).
    split; [done|]. exists u'. split; [by apply lookup_app_l_Some|done]. }
  apply lookup_app_Some in Hi as [Hi|[Hle Hi]].
  - destruct (Hts i u Hi) as [? ?]. split; [done|]. by apply Hmono.
  - destruct (i - length ts) as [|k] eqn:Hk; [|by destruct k].
    injection Hi as <-. assert (i = length ts) as -> by lia. split; [done|]. by apply Hmono.
Qed.

(** ** Merging *)

(** What [enqueue_join] and [enqueue_union] do: push one node task over the
    two given ones. *)
Definition merges (merge : list Task -> nat -> nat -> result PlannerErr (nat * list Task))
    (node : Command) : Prop :=
  forall ts left right l r, ts !! left = Some l -> ts !! right = Some r ->
  exists t, merge ts left right = Ok (length ts, ts ++ [t])
    /\ task_number t = length ts /\ command t = node /\ children t = [left; right]
    /\ task_height t = S (Nat.max (task_height l) (task_height r)).

Lemma join_merges : merges enqueue_join Join.
Proof.
  intros ts left right l r Hl Hr. unfold enqueue_join, get_task. rewrite Hl, Hr. simpl.
  eexists. by split_and!.
Qed.

Lemma union_merges : merges enqueue_union Union.
Proof.
  intros ts left right l r Hl Hr. unfold enqueue_union, get_task. rewrite Hl, Hr. simpl.
  eexists. by split_and!.
Qed.

(** Appending tasks of other commands leaves the leaves unchanged. *)
Definition extends (leaf1 leaf2 : Command) (ts ts' : list Task) : Prop :=
  exists us, ts' = ts ++ us /\ tasks_ok ts'
    /\ Forall (fun t => command t <> leaf1 /\ command t <> leaf2) us.

Lemma extends_refl c1 c2 ts : tasks_ok ts -> extends c1 c2 ts ts.
Proof. exists []. by rewrite app_nil_r. Qed.

Lemma extends_trans c1 c2 ts1 ts2 ts3 :
  extends c1 c2 ts1 ts2 -> extends c1 c2 ts2 ts3 -> extends c1 c2 ts1 ts3.
Proof.
  intros (us & -> & _ & H1) (vs & -> & H2 & H3). exists (us ++ vs).
  rewrite app_assoc. split_and!; [done|done|]. by apply Forall_app.
Qed.

Lemma extends_numbers c1 c2 ts ts' :
  extends c1 c2 ts ts' -> numbers c1 ts' = numbers c1 ts /\ numbers c2 ts' = numbers c2 ts.
Proof.
  intros (us & -> & _ & Hus). rewrite !numbers_app.
  assert (numbers c1 us = [] /\ numbers c2 us = []) as [-> ->]; [|by rewrite !app_nil_r].
  unfold numbers. induction Hus as [|t us [Ht1 Ht2] _ [IH1 IH2]]; [done|].
  by rewrite !filter_cons_False.
Qed.

Lemma extends_tree c1 c2 ts ts' leaf node i h l :
  extends c1 c2 ts ts' -> tree ts leaf node i h l -> tree ts' leaf node i h l.
Proof. intros (us & -> & _) ?. by apply tree_app. Qed.

Lemma extends_stack c1 c2 ts ts' leaf node s b l :
  extends c1 c2 ts ts' -> stack_ok ts leaf node s b l -> stack_ok ts' leaf node s b l.
Proof. intros (us & -> & _) ?. by apply stack_app. Qed.

Lemma extends_ok c1 c2 ts ts' : extends c1 c2 ts ts' -> tasks_ok ts'.
Proof. by intros (us & -> & ? & _). Qed.

#[export] Hint Resolve extends_refl extends_ok join_merges union_merges : planner.

Section Merge.
Context (merge : list Task -> nat -> nat -> result PlannerErr (nat * list Task)).
Context (leaf node : Command) (Hmerge : merges merge node).
Context (Hseg : node <> Segment) (Hkec : node <> Keccak).

(** One merge builds the tree over its two arguments. *)
Lemma merge_tree ts i hi li j hj lj :
  tasks_ok ts -> tree ts leaf node i hi li -> tree ts leaf node j hj lj ->
  exists ts', merge ts i j = Ok (length ts, ts')
    /\ tree ts' leaf node (length ts) (S (Nat.max hi hj)) (li ++ lj)
    /\ extends Segment Keccak ts ts'.
Proof.
  intros Hts Hi Hj.
  destruct (tree_height _ _ _ _ _ _ Hi) as (ti & Eti & Hhi).
  destruct (tree_height _ _ _ _ _ _ Hj) as (tj & Etj & Hhj).
  destruct (Hmerge ts i j ti tj Eti Etj) as (t & Em & Hn & Hc & Hch & Hh).
  rewrite Hhi, Hhj in Hh. exists (ts ++ [t]). split; [done|]. split.
  - eapply tree_node; eauto using tree_app. by rewrite lookup_app_r, Nat.sub_diag.
  - exists [t]. split_and!; [done| |by repeat constructor; rewrite Hc].
    apply tasks_ok_snoc; [done|]. split; [done|]. rewrite Hch, Hh.
    repeat constructor; try (eexists; split; [done|]); try lia.
    all: by eapply lookup_lt_Some.
Qed.

(** The merging loop keeps the stack a binary counter and does not panic. *)
Lemma merge_loop_ok stack ts n h l leaves :
  tasks_ok ts -> stack_ok ts leaf node stack h leaves ->
  tree ts leaf node n h l -> length l = 2 ^ h ->
  exists stack' ts', merge_loop merge stack ts n = Ok (stack', ts')
    /\ stack_ok ts' leaf node stack' h (leaves ++ l)
    /\ extends Segment Keccak ts ts'.
Proof.
  revert ts n h l leaves. induction stack as [|s stack IH];
    intros ts n h l leaves Hts Hst Hn Hl; simpl.
  - inversion Hst; subst. do 2 eexists. split; [done|]. split; [|eauto with planner].
    econstructor; [done|done|done|constructor].
  - destruct (tree_height _ _ _ _ _ _ Hn) as (tn & Etn & Htn).
    inversion Hst as [|s' hs ls st b lvs Hs Hls Hb Hst']; subst.
    destruct (tree_height _ _ _ _ _ _ Hs) as (t & Et & Ht).
    unfold get_task. rewrite Etn, Et. simpl. rewrite Ht.
    destruct (Nat.compare_spec (task_height tn) hs) as [Heq|Hlt|Hgt]; [| |lia].
    + destruct (merge_tree ts s hs ls n _ l Hts Hs Hn) as (ts1 & -> & Htr & Hex). simpl.
      rewrite Heq, Nat.max_id in Htr.
      destruct (IH ts1 (length ts) (S hs) (ls ++ l) lvs) as (st' & ts' & -> & Hok & Hex').
      * by eapply extends_ok.
      * by eapply extends_stack.
      * done.
      * rewrite length_app, Hls, Hl, Heq. simpl. lia.
      * do 2 eexists. split; [done|]. rewrite <- app_assoc. split.
        -- eapply stack_weaken; [done|lia].
        -- by eapply extends_trans.
    + do 2 eexists. split; [done|]. split; [|eauto with planner].
      econstructor; [done|done|done|]. econstructor; eauto.
Qed.

(** Folding a stack, smallest peak first, joins all its leaves in order and
    costs at most one level above the largest peak. *)
Lemma fold_peaks_ok stack ts acc h l leaves b :
  tasks_ok ts -> stack_ok ts leaf node stack b leaves -> h <= b ->
  tree ts leaf node acc h l ->
  exists root ts' hr, fold_peaks merge acc stack ts = Ok (root, ts')
    /\ tree ts' leaf node root hr (leaves ++ l)
    /\ extends Segment Keccak ts ts'
    /\ (stack = [] -> hr = h)
    /\ (stack <> [] -> 2 ^ hr <= 2 * length leaves).
Proof.
  revert ts acc h l leaves b. induction stack as [|s stack IH];
    intros ts acc h l leaves b Hts Hst Hh Hacc; simpl.
  - inversion Hst; subst. do 3 eexists. split; [done|]. split; [done|].
    split_and!; eauto with planner. done.
  - inversion Hst as [|s' hs ls st b' lvs Hs Hls Hb Hst']; subst.
    destruct (merge_tree ts s hs ls acc _ l Hts Hs Hacc) as (ts1 & -> & Htr & Hex). simpl.
    replace (S (hs `max` h)) with (S hs) in Htr by lia.
    destruct (IH ts1 (length ts) (S hs) (ls ++ l) lvs (S hs)) as
      (root & ts' & hr & -> & Hok & Hex' & Hnil & Hcons); [by eapply extends_ok
      |by eapply extends_stack|done|done|].
    do 3 eexists. split; [done|]. rewrite <- app_assoc. split; [done|].
    split; [by eapply extends_trans|]. split; [done|]. intros _.
    rewrite length_app, Hls. destruct stack as [|s2 stack].
    + rewrite Hnil by done. simpl. lia.
    + specialize (Hcons ltac:(done)). lia.
Qed.

(** In any order of the peaks, all leaves are collected. *)
Lemma fold_peaks_perm stack ts acc h l lss :
  tasks_ok ts -> Forall2 (fun i ls => exists hi, tree ts leaf node i hi ls) stack lss ->
  tree ts leaf node acc h l ->
  exists root ts' hr ls, fold_peaks merge acc stack ts = Ok (root, ts')
    /\ tree ts' leaf node root hr ls /\ ls ≡ₚ concat lss ++ l
    /\ extends Segment Keccak ts ts'.
Proof.
  revert ts acc h l lss. induction stack as [|s stack IH];
    intros ts acc h l lss Hts Hst Hacc; simpl.
  - inversion Hst; subst. do 4 eexists. split; [done|]. split; [done|]. split; [done|].
    eauto with planner.
  - inversion Hst as [|s' ls st lss' [hs Hs] Hst']; subst.
    destruct (merge_tree ts s hs ls acc _ l Hts Hs Hacc) as (ts1 & -> & Htr & Hex). simpl.
    destruct (IH ts1 (length ts) (S (hs `max` h)) (ls ++ l) lss') as (root & ts' & hr & ls' & -> & Hok & Hp & Hex');
      [by eapply extends_ok| |done|].
    { eapply Forall2_impl; [done|]. intros i x [hi Hi]. exists hi. by eapply extends_tree. }
    do 4 eexists. split; [done|]. split; [done|]. split; [|by eapply extends_trans].
    rewrite Hp. simpl. by rewrite app_assoc, (Permutation_app_comm (concat lss') ls), <- app_assoc.
Qed.

End Merge.

(** ** The invariant *)

(** While planning, both lists of peaks are binary counters over their leaves. *)
Record planning (p : Planner) : Prop := mk_planning {
  pl_open : last_task p = None;
  pl_joins : stack_ok (tasks p) Segment Join (rev (peaks p)) 0 (numbers Segment (tasks p));
  pl_unions : stack_ok (tasks p) Keccak Union (rev (keccak_peaks p)) 0 (numbers Keccak (tasks p))
}.

(** What a finished plan looks like: the last task finalizes one join tree over
    all segments in order, and one union tree over all keccak requests. *)
Record finished (p : Planner) (f : nat) : Prop := mk_finished {
  fin_last : last_task p = Some f;
  fin_pos : S f = length (tasks p);
  fin_root : exists root h, peaks p = [root]
    /\ tree (tasks p) Segment Join root h (numbers Segment (tasks p))
    /\ 2 ^ h <= 2 * length (numbers Segment (tasks p)) - 1
    /\ exists t, tasks p !! f = Some t /\ command t = Finalize
         /\ depends_on t = [root] /\ keccak_depends_on t = keccak_peaks p;
  fin_keccak :
    (keccak_peaks p = [] /\ numbers Keccak (tasks p) = [])
    \/ exists k h l, keccak_peaks p = [k] /\ tree (tasks p) Keccak Union k h l
         /\ l ≡ₚ numbers Keccak (tasks p)
}.

Record planner_inv (p : Planner) : Prop := mk_planner_inv {
  inv_tasks : tasks_ok (tasks p);
  inv_consumer : consumer_position p <= length (tasks p);
  inv_phase : planning p \/ exists f, finished p f
}.

Lemma planner_default_inv : planner_inv planner_default.
Proof.
  split; [by intros i t Hi|done|]. left. split; [done|constructor..].
Qed.

(** The stack after pushing a fresh leaf. *)
Lemma push_leaf_ok ts leaf t :
  tasks_ok ts -> task_number t = length ts -> command t = leaf -> task_height t = 0 ->
  children t = [] -> forall node,
  tasks_ok (ts ++ [t]) /\ tree (ts ++ [t]) leaf node (length ts) 0 [length ts]
  /\ numbers leaf (ts ++ [t]) = numbers leaf ts ++ [length ts]
  /\ forall c, c <> leaf -> numbers c (ts ++ [t]) = numbers c ts.
Proof.
  intros Hts Hn Hc Hh Hch node. split_and!.
  - apply tasks_ok_snoc; [done|]. split; [done|]. by rewrite Hch.
  - eapply tree_leaf; [|done..]. by rewrite lookup_app_r, Nat.sub_diag.
  - rewrite numbers_app. f_equal. unfold numbers. rewrite filter_cons_True by done.
    simpl. by rewrite Hn.
  - intros c Hne. rewrite numbers_app. unfold numbers at 2.
    rewrite filter_cons_False by congruence. by rewrite app_nil_r.
Qed.

Lemma extends_length c1 c2 ts ts' : extends c1 c2 ts ts' -> length ts <= length ts'.
Proof. intros (us & -> & _). rewrite length_app. lia. Qed.

Lemma enqueue_segment_ok p :
  planner_inv p -> last_task p = None ->
  exists p', enqueue_segment p = Ok (length (tasks p), p') /\ planner_inv p'
    /\ planning p' /\ numbers Segment (tasks p') = numbers Segment (tasks p) ++ [length (tasks p)]
    /\ numbers Keccak (tasks p') = numbers Keccak (tasks p).
Proof.
  intros [Hts Hcp [Hpl|[f [Hl _ _ _]]]] Hlast; [|congruence]. destruct Hpl as [_ Hj Hu].
  destruct (push_leaf_ok (tasks p) Segment (new_segment (length (tasks p))) Hts eq_refl eq_refl
    eq_refl eq_refl Join) as (Hts1 & Htr & Hnum & Hoth).
  destruct (merge_loop_ok enqueue_join Segment Join join_merges ltac:(done) ltac:(done)
    (rev (peaks p)) _ (length (tasks p)) 0 [length (tasks p)] (numbers Segment (tasks p))
    Hts1 ltac:(by apply stack_app) Htr eq_refl) as (st & ts' & Em & Hst & Hex).
  unfold enqueue_segment. rewrite Hlast. unfold next_task_number, task_count. rewrite Em. simpl.
  eexists. split; [done|].
  destruct (extends_numbers _ _ _ _ Hex) as [Hn1 Hn2].
  assert (planning (mkPlanner ts' (rev st) (keccak_peaks p) (consumer_position p) None)) as Hp.
  { split; simpl; [done| |].
    - rewrite rev_involutive, Hn1, Hnum. done.
    - rewrite Hn2, Hoth by done. eapply extends_stack; [done|]. by apply stack_app. }
  split_and!; try done; simpl.
  - split; simpl; [by eapply extends_ok| |by left].
    apply extends_length in Hex. rewrite length_app in Hex. lia.
  - by rewrite Hn1.
  - by rewrite Hn2, Hoth.
Qed.

Lemma enqueue_keccak_ok p :
  planner_inv p -> last_task p = None ->
  exists p', enqueue_keccak p = Ok (length (tasks p), p') /\ planner_inv p'
    /\ planning p' /\ numbers Keccak (tasks p') = numbers Keccak (tasks p) ++ [length (tasks p)]
    /\ numbers Segment (tasks p') = numbers Segment (tasks p).
Proof.
  intros [Hts Hcp [Hpl|[f [Hl _ _ _]]]] Hlast; [|congruence]. destruct Hpl as [_ Hj Hu].
  destruct (push_leaf_ok (tasks p) Keccak (new_keccak (length (tasks p))) Hts eq_refl eq_refl
    eq_refl eq_refl Union) as (Hts1 & Htr & Hnum & Hoth).
  destruct (merge_loop_ok enqueue_union Keccak Union union_merges ltac:(done) ltac:(done)
    (rev (keccak_peaks p)) _ (length (tasks p)) 0 [length (tasks p)] (numbers Keccak (tasks p))
    Hts1 ltac:(by apply stack_app) Htr eq_refl) as (st & ts' & Em & Hst & Hex).
  unfold enqueue_keccak. rewrite Hlast. unfold next_task_number, task_count. rewrite Em. simpl.
  eexists. split; [done|].
  destruct (extends_numbers _ _ _ _ Hex) as [Hn1 Hn2].
  assert (planning (mkPlanner ts' (peaks p) (rev st) (consumer_position p) None)) as Hp.
  { split; simpl; [done| |].
    - rewrite Hn1, Hoth by done. eapply extends_stack; [done|]. by apply stack_app.
    - rewrite rev_involutive, Hn2, Hnum. done. }
  split_and!; try done; simpl.
  - split; simpl; [by eapply extends_ok| |by left].
    apply extends_length in Hex. rewrite length_app in Hex. lia.
  - by rewrite Hn2.
  - by rewrite Hn1, Hoth.
Qed.

(** ** Finishing *)

Lemma stack_trees ts leaf node s b leaves :
  stack_ok ts leaf node s b leaves ->
  exists lss, Forall2 (fun i ls => exists h, tree ts leaf node i h ls) s lss
    /\ concat (rev lss) = leaves.
Proof.
  induction 1 as [b|i h l s b leaves Ht Hl Hb Hs (lss & Hf & Hc)].
  - exists []. by split; [constructor|].
  - exists (l :: lss). split; [constructor; eauto|]. simpl.
    by rewrite concat_app, Hc; simpl; rewrite app_nil_r.
Qed.

Lemma Forall2_rev_list {A B} (R : A -> B -> Prop) l k :
  Forall2 R l k -> Forall2 R (rev l) (rev k).
Proof. induction 1; simpl; [constructor|]. by apply Forall2_app; [|constructor]. Qed.

Lemma finish_unions_ok ts kpeaks leaves :
  tasks_ok ts -> stack_ok ts Keccak Union (rev kpeaks) 0 leaves ->
  exists kd kp ts', finish_unions ts kpeaks = Ok (kd, kp, ts')
    /\ extends Segment Keccak ts ts' /\ kp = default [] kd
    /\ ((kp = [] /\ leaves = [])
        \/ exists k h l, kp = [k] /\ tree ts' Keccak Union k h l /\ l ≡ₚ leaves).
Proof.
  intros Hts Hst. destruct (stack_trees _ _ _ _ _ _ Hst) as (lss & Hf & Hc).
  assert (Hf' : Forall2 (fun i ls => exists h, tree ts Keccak Union i h ls) kpeaks (rev lss)).
  { rewrite <- (rev_involutive kpeaks). by apply Forall2_rev_list. }
  destruct kpeaks as [|k0 rest]; simpl.
  - apply Forall2_nil_inv_l in Hf'. rewrite Hf' in Hc. simpl in Hc. subst leaves.
    do 3 eexists. split; [done|]. split; [eauto with planner|]. split; [done|]. by left.
  - apply Forall2_cons_inv_l in Hf' as (l0 & lrest & [h0 H0] & Hrest & Hl).
    destruct (fold_peaks_perm enqueue_union Keccak Union union_merges ltac:(done) ltac:(done)
      rest ts k0 h0 l0 lrest Hts Hrest H0) as (root & ts' & hr & ls & -> & Ht & Hp & Hex).
    simpl. do 3 eexists. split; [done|]. split; [done|]. split; [done|]. right.
    do 3 eexists. split; [done|]. split; [done|]. rewrite Hp, <- Hc, Hl. simpl.
    by rewrite Permutation_app_comm.
Qed.

Lemma enqueue_finalize_ok ts root hr lr kd :
  tasks_ok ts -> tree ts Segment Join root hr lr ->
  (default [] kd = [] \/ exists k h l, kd = Some [k] /\ tree ts Keccak Union k h l) ->
  exists t, enqueue_finalize ts root kd = Ok (length ts, ts ++ [t])
    /\ command t = Finalize /\ depends_on t = [root] /\ keccak_depends_on t = default [] kd
    /\ tasks_ok (ts ++ [t]).
Proof.
  intros Hts Hr Hk. destruct (tree_height _ _ _ _ _ _ Hr) as (tr & Etr & Hhr).
  unfold enqueue_finalize, get_task, next_task_number, task_count. rewrite Etr. simpl.
  pose proof (lookup_lt_Some _ _ _ Etr).
  destruct Hk as [Hk|(k & h & l & -> & Hkt)].
  - assert (kd = None \/ kd = Some []) as Hkd by (destruct kd as [[|]|]; naive_solver).
    exists (new_finalize (length ts) (S (task_height tr)) root kd).
    split; [by destruct Hkd as [-> | ->]|]. split_and!; try done.
    apply tasks_ok_snoc; [done|]. split; [done|]. unfold children. simpl. rewrite Hk.
    repeat constructor; [done|]. exists tr. split; [done|simpl; lia].
  - destruct (tree_height _ _ _ _ _ _ Hkt) as (tk & Etk & Hhk). simpl. rewrite Etk. simpl.
    pose proof (lookup_lt_Some _ _ _ Etk).
    eexists. split; [done|]. split_and!; try done.
    apply tasks_ok_snoc; [done|]. split; [done|]. unfold children. simpl.
    repeat constructor; try done; eexists; (split; [done|simpl; lia]).
Qed.

(** Finishing an open plan with at least one segment. *)
Lemma finish_open p :
  planner_inv p -> planning p -> peaks p <> [] ->
  exists p' f, finish p = Ok (f, p') /\ planner_inv p' /\ finished p' f
    /\ numbers Segment (tasks p') = numbers Segment (tasks p)
    /\ numbers Keccak (tasks p') = numbers Keccak (tasks p).
Proof.
  intros [Hts Hcp _] [Hlast Hj Hu] Hne. unfold finish. rewrite Hlast.
  destruct (finish_unions_ok _ _ _ Hts Hu) as (kd & kp & ts1 & -> & Hex1 & Hkd & Hk). simpl.
  destruct (peaks p) as [|x y] eqn:Ep; [done|]. rewrite <- Ep in *. clear Hne.
  destruct (rev (peaks p)) as [|p0 rest] eqn:Er.
  { apply (f_equal (@length nat)) in Er. rewrite length_rev, Ep in Er. done. }
  inversion Hj as [|i h l s b leaves Ht Hl _ Hs Hb Hi Hlv]; subst i s b.
  destruct (fold_peaks_ok enqueue_join Segment Join join_merges ltac:(done) ltac:(done)
    rest ts1 p0 h l leaves (S h) (extends_ok _ _ _ _ Hex1)
    (extends_stack _ _ _ _ _ _ _ _ _ Hex1 Hs) ltac:(lia)
    (extends_tree _ _ _ _ _ _ _ _ _ Hex1 Ht))
    as (root & ts2 & hr & -> & Htr & Hex2 & Hnil & Hcons). simpl.
  pose proof (extends_trans _ _ _ _ _ Hex1 Hex2) as Hex.
  destruct (enqueue_finalize_ok ts2 root hr (leaves ++ l) kd (extends_ok _ _ _ _ Hex2) Htr)
    as (t & -> & Hct & Hdt & Hkt & Hok).
  { destruct Hk as [[-> _]|(k & hk & lk & Hkp & Hkt & _)]; [by left|right].
    rewrite Hkp in Hkd. destruct kd as [ks|]; simpl in Hkd; [|done]. subst ks.
    do 3 eexists. split; [done|]. exact (extends_tree _ _ _ _ _ _ _ _ _ Hex2 Hkt). }
  destruct (extends_numbers _ _ _ _ Hex) as [Hn1 Hn2].
  assert (Hnum : forall c, c <> Finalize -> numbers c (ts2 ++ [t]) = numbers c ts2).
  { intros c Hc. rewrite numbers_app. unfold numbers at 2.
    rewrite filter_cons_False by congruence. by rewrite app_nil_r. }
  simpl. eexists _, (length ts2). split; [done|].
  assert (Hfin : finished (mkPlanner (ts2 ++ [t]) [root] kp (consumer_position p)
    (Some (length ts2))) (length ts2)).
  { split; simpl; [done|rewrite length_app; simpl; lia| |].
    - exists root, hr. rewrite Hnum, Hn1 by done. split; [done|].
      split; [by apply tree_app; rewrite <- Hlv|]. split.
      + rewrite <- Hlv, length_app, Hl. destruct rest as [|r0 rest].
        * rewrite Hnil by done. pose proof (Nat.pow_nonzero 2 h). lia.
        * specialize (Hcons ltac:(done)). pose proof (Nat.pow_nonzero 2 h). lia.
      + exists t. rewrite lookup_app_r, Nat.sub_diag by done. by rewrite Hkt, Hkd.
    - rewrite Hnum, Hn2 by done. destruct Hk as [[? ?]|(k & hk & lk & ? & Hkt' & ?)]; [by left|].
      right. do 3 eexists. split; [done|]. split; [|done]. apply tree_app.
      exact (extends_tree _ _ _ _ _ _ _ _ _ Hex2 Hkt'). }
  split_and!; try done; simpl; [|by rewrite Hnum, Hn1|by rewrite Hnum, Hn2].
  split; simpl; [done| |by right; eexists].
  apply extends_length in Hex. rewrite length_app. lia.
Qed.

(** ** Reachable planners *)

Inductive reachable : Planner -> Prop :=
| reach_default : reachable planner_default
| reach_segment p n p' : reachable p -> enqueue_segment p = Ok (n, p') -> reachable p'
| reach_keccak p n p' : reachable p -> enqueue_keccak p = Ok (n, p') -> reachable p'
| reach_finish p n p' : reachable p -> finish p = Ok (n, p') -> reachable p'
| reach_next p t p' : reachable p -> next_task p = (t, p') -> reachable p'.

(** Finishing a finished plan changes nothing. *)
Lemma finish_again p f : finished p f -> finish p = Ok (f, p).
Proof.
  intros [Hl _ (root & h & Hp & _) Hk]. unfold finish. rewrite Hp.
  destruct p as [ts pk kp cp lt]. simpl in *. subst lt pk.
  destruct Hk as [[-> _]|(k & hk & l & -> & _)]; done.
Qed.

Lemma last_task_open p f : finished p f -> last_task p <> None.
Proof. intros [Hl _ _ _]. by rewrite Hl. Qed.

Lemma enqueue_finished p f :
  finished p f -> enqueue_segment p = Err PlanFinalized /\ enqueue_keccak p = Err PlanFinalized.
Proof.
  intros [Hl _ _ _]. unfold enqueue_segment, enqueue_keccak. by rewrite Hl.
Qed.

Lemma next_task_inv p t p' :
  planner_inv p -> next_task p = (t, p') ->
  planner_inv p' /\ tasks p' = tasks p.
Proof.
  intros [Hts Hcp Hph]. unfold next_task.
  destruct (tasks p !! consumer_position p) as [u|] eqn:E; intros [= <- <-]; [|done].
  split; [|done]. apply lookup_lt_Some in E.
  split; simpl; [done|lia|]. destruct Hph as [[]|[f []]]; [left|right; exists f]; by split.
Qed.

Lemma finish_inv p n p' : planner_inv p -> finish p = Ok (n, p') -> planner_inv p' /\ finished p' n.
Proof.
  intros Hinv Hf. destruct (inv_phase _ Hinv) as [Hpl|[f Hfin]].
  - assert (peaks p <> []) as Hne by (intros E; unfold finish in Hf; by rewrite E in Hf).
    destruct (finish_open p Hinv Hpl Hne) as (q & g & E & Hq & Hfq & _).
    rewrite E in Hf. by injection Hf as <- <-.
  - rewrite (finish_again p f Hfin) in Hf. injection Hf as <- <-. done.
Qed.

Lemma reachable_inv p : reachable p -> planner_inv p.
Proof.
  induction 1 as [|p n p' _ IH E|p n p' _ IH E|p n p' _ IH E|p t p' _ IH E].
  - apply planner_default_inv.
  - destruct (last_task p) as [f|] eqn:Hl; [by unfold enqueue_segment in E; rewrite Hl in E|].
    destruct (enqueue_segment_ok p IH Hl) as (q & Eq & Hq & _).
    rewrite Eq in E. by injection E as _ <-.
  - destruct (last_task p) as [f|] eqn:Hl; [by unfold enqueue_keccak in E; rewrite Hl in E|].
    destruct (enqueue_keccak_ok p IH Hl) as (q & Eq & Hq & _).
    rewrite Eq in E. by injection E as _ <-.
  - by destruct (finish_inv p n p' IH E).
  - by destruct (next_task_inv p t p' IH E).
Qed.

Lemma planning_peaks p : planning p -> peaks p = [] <-> numbers Segment (tasks p) = [].
Proof.
  intros [_ Hj _]. split; intros E.
  - rewrite E in Hj. by inversion Hj.
  - destruct (peaks p) as [|x pk] using rev_ind; [done|].
    rewrite rev_app_distr in Hj. simpl in Hj.
    inversion Hj as [|i h l s b leaves Ht Hl _ Hs Hb Hi Hlv]; subst.
    rewrite E in Hlv. apply (f_equal (@length nat)) in Hlv. rewrite length_app, Hl in Hlv.
    simpl in Hlv. pose proof (Nat.pow_nonzero 2 h). lia.
Qed.

(** A binary tree of height [h] has at most [2^h] leaves. *)
Lemma tree_leaves_bound ts leaf node i h l : tree ts leaf node i h l -> length l <= 2 ^ h.
Proof.
  induction 1 as [|i t l r hl hr ll lr _ _ _ _ _ IHl _ IHr]; [done|].
  rewrite length_app, Nat.pow_succ_r'.
  pose proof (Nat.pow_le_mono_r 2 hl (hl `max` hr) ltac:(lia) ltac:(lia)).
  pose proof (Nat.pow_le_mono_r 2 hr (hl `max` hr) ltac:(lia) ltac:(lia)). lia.
Qed.

(** The heights of a stack are the set bits of the number of its leaves. *)
Lemma stack_binary ts leaf node s b leaves :
  stack_ok ts leaf node s b leaves ->
  exists hs, Forall2 (fun i h => exists t, ts !! i = Some t /\ task_height t = h) s hs
    /\ StronglySorted lt hs /\ Forall (le b) hs
    /\ sum_list_with (Nat.pow 2) hs = length leaves.
Proof.
  induction 1 as [b|i h l s b leaves Ht Hl Hb _ (hs & Hf & Hs & Hge & Hsum)].
  - exists []. by repeat constructor.
  - exists (h :: hs). split_and!.
    + constructor; [by eapply tree_height|done].
    + by constructor.
    + constructor; [done|]. eapply Forall_impl; [exact Hge|]. simpl. lia.
    + simpl. rewrite Hsum, length_app, Hl. lia.
Qed.

(** ** Theorems *)

(** No operation of a reachable planner panics: the [unreachable!] arm of
    the merging loop is unreachable, every task number it looks up is valid,
    and no pop or index fails. *)
Theorem planner_no_panic p :
  reachable p ->
  no_panic (enqueue_segment p) /\ no_panic (enqueue_keccak p) /\ no_panic (finish p).
Proof.
  intros Hinv%reachable_inv. unfold no_panic.
  destruct (inv_phase _ Hinv) as [Hpl|[f Hfin]].
  - pose proof (pl_open _ Hpl) as Hl.
    destruct (enqueue_segment_ok p Hinv Hl) as (q1 & -> & _).
    destruct (enqueue_keccak_ok p Hinv Hl) as (q2 & -> & _).
    split_and!; [done|done|].
    destruct (decide (peaks p = [])) as [E|Hne]; [unfold finish; by rewrite E|].
    by destruct (finish_open p Hinv Hpl Hne) as (q & f & -> & _).
  - destruct (enqueue_finished p f Hfin) as [-> ->]. by rewrite (finish_again p f Hfin).
Qed.

(** Finishing a plan with at least one segment succeeds, and the finalize
    task it reports depends on the root of one join tree whose leaves, from
    left to right, are exactly the segments in the order they were enqueued,
    and on the root of one union tree over exactly the keccak requests; with
    no segment it reports that planning has not started. *)
Theorem finish_covers_all p :
  reachable p ->
  (numbers Segment (tasks p) = [] -> finish p = Err PlanNotStartedString)
  /\ (numbers Segment (tasks p) <> [] ->
      exists f p', finish p = Ok (f, p') /\ finished p' f
        /\ numbers Segment (tasks p') = numbers Segment (tasks p)
        /\ numbers Keccak (tasks p') = numbers Keccak (tasks p)).
Proof.
  intros Hinv%reachable_inv. destruct (inv_phase _ Hinv) as [Hpl|[f Hfin]].
  - pose proof (planning_peaks p Hpl) as Hpk. split; intros Hn.
    + unfold finish. by rewrite (proj2 Hpk Hn).
    + destruct (finish_open p Hinv Hpl) as (q & f & E & _ & Hq & H1 & H2); [naive_solver|].
      by exists f, q.
  - split; intros Hn.
    + destruct Hfin as [_ _ (root & h & _ & Ht & Hb & _) _]. rewrite Hn in Hb. simpl in Hb.
      pose proof (Nat.pow_nonzero 2 h). lia.
    + exists f, p. by rewrite (finish_again p f Hfin).
Qed.

(** Tasks are handed out in dependency order: the consumer receives every
    task once, by increasing number, after all tasks it depends on, and each
    dependency is strictly lower. *)
Theorem next_task_dependency_order p t p' :
  reachable p -> next_task p = (Some t, p') ->
  task_number t = consumer_position p
  /\ consumer_position p' = S (consumer_position p)
  /\ tasks p' = tasks p
  /\ forall d, d ∈ depends_on t ++ keccak_depends_on t ->
       d < consumer_position p
       /\ exists u, tasks p !! d = Some u /\ task_height u < task_height t.
Proof.
  intros Hinv%reachable_inv. unfold next_task.
  destruct (tasks p !! consumer_position p) as [u|] eqn:E; [|done]. intros [= -> <-].
  destruct (inv_tasks _ Hinv _ _ E) as [Hn Hd]. split_and!; [done..|].
  intros d Hin. rewrite Forall_forall in Hd. by apply Hd.
Qed.

(** The join tree of a finished plan has the least height a binary tree
    over its segments can have: the logarithm of their number, rounded up. *)
Theorem join_height_bound q f p :
  reachable q -> finish q = Ok (f, p) ->
  exists root h t, peaks p = [root] /\ tasks p !! root = Some t /\ task_height t = h
    /\ h = Nat.log2_up (length (numbers Segment (tasks p))).
Proof.
  intros Hq%reachable_inv Hf.
  apply (finish_inv q f p Hq) in Hf as [_ [_ _ (root & h & Hp & Ht & Hb & _) _]].
  destruct (tree_height _ _ _ _ _ _ Ht) as (t & Et & Hh).
  exists root, h, t. split_and!; [done..|].
  pose proof (tree_leaves_bound _ _ _ _ _ _ Ht) as Hl.
  set (n := length (numbers Segment (tasks p))) in *.
  destruct (Nat.le_gt_cases n 1) as [Hn|Hn].
  - assert (2 ^ h <= 1) by lia. rewrite Nat.log2_up_eqn0 by done.
    destruct h; [done|]. simpl in *. pose proof (Nat.pow_nonzero 2 h). lia.
  - symmetry. apply Nat.log2_up_unique; [|split; [|done]].
    + destruct h; [simpl in Hl; lia|lia].
    + destruct h as [|h]; [simpl in Hl; lia|]. simpl in *. lia.
Qed.

(** While planning, the peaks are the binary representation of the number
    of segments: their heights strictly decrease, and the powers of two at
    those heights add up to the number of segments enqueued. *)
Theorem peaks_binary_counter p :
  reachable p -> last_task p = None ->
  exists hs, Forall2 (fun i h => exists t, tasks p !! i = Some t /\ task_height t = h)
               (rev (peaks p)) hs
    /\ StronglySorted lt hs
    /\ sum_list_with (Nat.pow 2) hs = length (numbers Segment (tasks p)).
Proof.
  intros Hinv%reachable_inv Hl.
  destruct (inv_phase _ Hinv) as [[_ Hj _]|[f Hfin]]; [|by destruct (last_task_open p f Hfin)].
  destruct (stack_binary _ _ _ _ _ _ Hj) as (hs & Hf & Hs & _ & Hsum). by exists hs.
Qed.

(** A finished plan is closed: finishing again reports the same task and
    changes nothing, and nothing can be enqueued any more. *)
Theorem finish_idempotent p f p' :
  reachable p -> finish p = Ok (f, p') ->
  finish p' = Ok (f, p') /\ last_task p' = Some f
  /\ enqueue_segment p' = Err PlanFinalized /\ enqueue_keccak p' = Err PlanFinalized.
Proof.
  intros Hinv%reachable_inv Hf. destruct (finish_inv p f p' Hinv Hf) as [_ Hfin].
  split; [by apply finish_again|]. split; [apply Hfin|]. by apply (enqueue_finished p' f).
Qed.

(** ** Witnesses *)

(** Run [n] calls of [enqueue_segment] and then one of [enqueue_keccak]. *)
Definition planner_of {A} (r : result PlannerErr (A * Planner)) (dflt : Planner) : Planner :=
  match r with Ok (_, p) => p | _ => dflt end.

Fixpoint plan_segments (n : nat) : Planner :=
  match n with
  | O => planner_default
  | S n => planner_of (enqueue_segment (plan_segments n)) (plan_segments n)
  end.

Definition plan5 : Planner :=
  let p := plan_segments 5 in planner_of (enqueue_keccak p) p.

Definition plan5_finished : Planner := planner_of (finish plan5) plan5.

Lemma plan5_reachable : reachable plan5.
Proof.
  eapply (reach_keccak (plan_segments 5) 8); [|vm_compute; reflexivity].
  eapply (reach_segment (plan_segments 4) 7); [|vm_compute; reflexivity].
  eapply (reach_segment (plan_segments 3) 4); [|vm_compute; reflexivity].
  eapply (reach_segment (plan_segments 2) 3); [|vm_compute; reflexivity].
  eapply (reach_segment (plan_segments 1) 1); [|vm_compute; reflexivity].
  eapply (reach_segment (plan_segments 0) 0); [|vm_compute; reflexivity]. constructor.
Qed.

Lemma plan5_finished_reachable : reachable plan5_finished.
Proof. apply (reach_finish plan5 10); [apply plan5_reachable|vm_compute; reflexivity]. Qed.

Lemma planner_no_panic_witness : no_panic (enqueue_segment plan5).
Proof. apply (planner_no_panic plan5 plan5_reachable). Defined.

Lemma finish_covers_all_witness :
  numbers Segment (tasks plan5) = [0; 1; 3; 4; 7]
  /\ exists f p', finish plan5 = Ok (f, p') /\ finished p' f.
Proof.
  split; [vm_compute; reflexivity|].
  destruct (proj2 (finish_covers_all plan5 plan5_reachable) ltac:(vm_compute; discriminate))
    as (f & p' & E & Hf & _). exact (ex_intro _ f (ex_intro _ p' (conj E Hf))).
Defined.

Lemma next_task_dependency_order_witness :
  exists t p', next_task plan5_finished = (Some t, p') /\ task_number t = 0.
Proof.
  do 2 eexists. split; [vm_compute; reflexivity|].
  by destruct (next_task_dependency_order plan5_finished _ _ plan5_finished_reachable eq_refl)
    as [Hn _].
Defined.

Lemma join_height_bound_witness :
  exists root h t, peaks plan5_finished = [root] /\ tasks plan5_finished !! root = Some t
    /\ task_height t = h /\ h = 3.
Proof.
  exact (join_height_bound plan5 10 plan5_finished plan5_reachable
    ltac:(vm_compute; reflexivity)).
Defined.

Lemma peaks_binary_counter_witness :
  exists hs, StronglySorted lt hs /\ sum_list_with (Nat.pow 2) hs = 5.
Proof.
  destruct (peaks_binary_counter plan5 plan5_reachable eq_refl) as (hs & _ & Hs & Hsum).
  by exists hs.
Defined.

Lemma finish_idempotent_witness :
  finish plan5 = Ok (10, plan5_finished) /\ finish plan5_finished = Ok (10, plan5_finished).
Proof.
  split; [vm_compute; reflexivity|].
  by apply (finish_idempotent plan5 10 plan5_finished plan5_reachable).
Defined.
