(* ===== verification/Db.v ===== *)
(** * Db: the broker's database

    [crates/broker/src/db/sqlite.rs] with the rows of [order_types.rs],
    [batcher/types.rs] and [db/types.rs] and the errors of [db/error.rs].

    A table is a finite map from its primary key to the JSON document of the
    row; the auto-increment counter of [batches] is part of the state.  The
    pool has a single connection, so a statement is one atomic step, and the
    transaction of [update_batch] is rolled back when it is dropped without a
    commit.  The order in which SQLite visits the rows of a query without
    [ORDER BY] is unspecified: it is the parameter [scan_orders] (and
    [scan_batches]) of the class [SqlEngine], of which only the documented
    property that it visits every row once is assumed.  [now] is the reading of
    the clock that a statement stores.  The statements of this file do not fail
    for reasons of the engine itself (a locked file, a full disk): [Pipeline]
    adds those failures where the services call the database. *)

From S2P Require Import Prelude Market OrderPricing.
From Stdlib Require Import Strings.Byte.

Local Open Scope Z_scope.

(** ** Rows *)

Inductive OrderStatus :=
| PendingProving
| Proving
| ReadyForBatch
| Batching
| ReadyForSubmission
| PendingSubmission
| Done
| Failed
| Skipped.

#[export] Instance OrderStatus_eq_dec : EqDecision OrderStatus.
Proof. solve_decision. Defined.

Record Order := mkOrder {
  o_market : Z;
  o_chain_id : Z;
  o_fulfillment_type : FulfillmentType;
  o_request : ProofRequest;
  status : OrderStatus;
  updated_at : Z;
  o_total_cycles : option Z;
  o_journal_bytes : option Z;
  o_target_timestamp : option Z;
  proving_started_at : option Z;
  o_image_id : option string;
  o_input_id : option string;
  backend_state : option bytes;
  backend_id : option string;
  o_expire_timestamp : option Z;
  o_client_sig : bytes;
  lock_price : option Z;
  error_msg : option string
}.

(** [order_from_request] and [proving_order_from_request]. *)
Definition order_from_request (now : Z) (r : OrderRequest) (s : OrderStatus) : Order :=
  {| o_market := boundless_market_address r; o_chain_id := chain_id r;
     o_fulfillment_type := fulfillment_type r; o_request := request r; status := s;
     updated_at := now; o_total_cycles := total_cycles r; o_journal_bytes := journal_bytes r;
     o_target_timestamp := target_timestamp r; proving_started_at := None;
     o_image_id := image_id r; o_input_id := input_id r; backend_state := None;
     backend_id := None; o_expire_timestamp := expire_timestamp r; o_client_sig := client_sig r;
     lock_price := None; error_msg := None |}.

Definition proving_order_from_request (now : Z) (r : OrderRequest) (price : Z) : Order :=
  {| o_market := boundless_market_address r; o_chain_id := chain_id r;
     o_fulfillment_type := fulfillment_type r; o_request := request r; status := PendingProving;
     updated_at := now; o_total_cycles := total_cycles r; o_journal_bytes := journal_bytes r;
     o_target_timestamp := target_timestamp r; proving_started_at := Some now;
     o_image_id := image_id r; o_input_id := input_id r; backend_state := None;
     backend_id := None; o_expire_timestamp := expire_timestamp r; o_client_sig := client_sig r;
     lock_price := Some price; error_msg := None |}.

(** [Order::id] and [format_order_id]. *)
Definition format_order_id (request_id : Z) (signing_hash : bytes) (ty : FulfillmentType)
    : string :=
  "0x" +:+ hex_lower request_id +:+ "-" +:+ "0x" +:+ hex_bytes signing_hash +:+ "-"
  +:+ fulfillment_type_debug ty.

Definition db_order_id `{Externals} (o : Order) : result unit string :=
  hash ← map_err (fun _ => tt) (signing_hash (o_request o) (o_market o) (o_chain_id o));
  mret (format_order_id (reqId (o_request o)) hash (o_fulfillment_type o)).

(** The JSON updates of the statements: status and time, and the others. *)
Definition set_status (s : OrderStatus) (now : Z) (o : Order) : Order :=
  {| o_market := o_market o; o_chain_id := o_chain_id o;
     o_fulfillment_type := o_fulfillment_type o; o_request := o_request o; status := s;
     updated_at := now; o_total_cycles := o_total_cycles o; o_journal_bytes := o_journal_bytes o;
     o_target_timestamp := o_target_timestamp o; proving_started_at := proving_started_at o;
     o_image_id := o_image_id o; o_input_id := o_input_id o; backend_state := backend_state o;
     backend_id := backend_id o; o_expire_timestamp := o_expire_timestamp o;
     o_client_sig := o_client_sig o; lock_price := lock_price o; error_msg := error_msg o |}.
Definition set_backend_id (b : string) (o : Order) : Order :=
  {| o_market := o_market o; o_chain_id := o_chain_id o;
     o_fulfillment_type := o_fulfillment_type o; o_request := o_request o; status := status o;
     updated_at := updated_at o; o_total_cycles := o_total_cycles o;
     o_journal_bytes := o_journal_bytes o; o_target_timestamp := o_target_timestamp o;
     proving_started_at := proving_started_at o; o_image_id := o_image_id o;
     o_input_id := o_input_id o; backend_state := backend_state o; backend_id := Some b;
     o_expire_timestamp := o_expire_timestamp o; o_client_sig := o_client_sig o;
     lock_price := lock_price o; error_msg := error_msg o |}.
Definition set_error_msg (e : string) (o : Order) : Order :=
  {| o_market := o_market o; o_chain_id := o_chain_id o;
     o_fulfillment_type := o_fulfillment_type o; o_request := o_request o; status := status o;
     updated_at := updated_at o; o_total_cycles := o_total_cycles o;
     o_journal_bytes := o_journal_bytes o; o_target_timestamp := o_target_timestamp o;
     proving_started_at := proving_started_at o; o_image_id := o_image_id o;
     o_input_id := o_input_id o; backend_state := backend_state o; backend_id := backend_id o;
     o_expire_timestamp := o_expire_timestamp o; o_client_sig := o_client_sig o;
     lock_price := lock_price o; error_msg := Some e |}.
Definition set_backend_state (s : bytes) (now : Z) (o : Order) : Order :=
  {| o_market := o_market o; o_chain_id := o_chain_id o;
     o_fulfillment_type := o_fulfillment_type o; o_request := o_request o; status := status o;
     updated_at := now; o_total_cycles := o_total_cycles o; o_journal_bytes := o_journal_bytes o;
     o_target_timestamp := o_target_timestamp o; proving_started_at := proving_started_at o;
     o_image_id := o_image_id o; o_input_id := o_input_id o; backend_state := Some s;
     backend_id := backend_id o; o_expire_timestamp := o_expire_timestamp o;
     o_client_sig := o_client_sig o; lock_price := lock_price o; error_msg := error_msg o |}.

Inductive BatchStatus :=
| BsOpen
| BsPendingCompression
| BsReadyToSubmit
| BsPendingSubmission
| BsSubmitted
| BsFailed.

#[export] Instance BatchStatus_eq_dec : EqDecision BatchStatus.
Proof. solve_decision. Defined.

Record Batch := mkBatch {
  b_backend_id : string;
  b_status : BatchStatus;
  b_orders : list string;
  b_backend_state : option bytes;
  b_start_time : Z;
  b_deadline : option Z;
  b_fees : Z;
  b_error_msg : option string
}.

Definition batch_new (backend : string) (start_time : Z) : Batch :=
  mkBatch backend BsOpen [] None start_time None 0 None.

Definition set_b_status (s : BatchStatus) (b : Batch) : Batch :=
  mkBatch (b_backend_id b) s (b_orders b) (b_backend_state b) (b_start_time b) (b_deadline b)
    (b_fees b) (b_error_msg b).
Definition set_b_state (s : bytes) (b : Batch) : Batch :=
  mkBatch (b_backend_id b) (b_status b) (b_orders b) (Some s) (b_start_time b) (b_deadline b)
    (b_fees b) (b_error_msg b).
Definition set_b_error (e : string) (b : Batch) : Batch :=
  mkBatch (b_backend_id b) (b_status b) (b_orders b) (b_backend_state b) (b_start_time b)
    (b_deadline b) (b_fees b) (Some e).
Definition set_b_totals (deadline fees : Z) (b : Batch) : Batch :=
  mkBatch (b_backend_id b) (b_status b) (b_orders b) (b_backend_state b) (b_start_time b)
    (Some deadline) fees (b_error_msg b).
Definition push_b_order (id : string) (b : Batch) : Batch :=
  mkBatch (b_backend_id b) (b_status b) (b_orders b ++ [id]) (b_backend_state b)
    (b_start_time b) (b_deadline b) (b_fees b) (b_error_msg b).

Record BatchReadyOrder := mkReady {
  order_id' : string;
  expiration : Z;
  fee : Z;
  ready_type : FulfillmentType;
  ready_request_id : Z;
  lock_expiration : Z;
  ready_selector : Z
}.

Inductive DbError :=
| OrderNotFound (id : string)
| BatchNotFound (id : Z)
| MissingElm (column : string)
| SqlErr
| SqlPoolTimedOut
| SqlDatabaseLocked
| SqlUniqueViolation
| InvalidOrder (id field : string)
| DuplicateOrderId (id : string).

(** ** The database *)

Record Db := mkDb {
  orders : gmap string Order;
  batches : gmap Z Batch;
  last_batch_id : Z;
  fulfilled_requests : gmap string Z;
  locked_requests : gmap string (string * Z)
}.

Definition db_empty : Db := mkDb ∅ ∅ 0 ∅ ∅.

Class SqlEngine := {
  scan_orders : gmap string Order -> list (string * Order);
  scan_orders_perm m : scan_orders m ≡ₚ map_to_list m;
  scan_batches : gmap Z Batch -> list (Z * Batch);
  scan_batches_perm m : scan_batches m ≡ₚ map_to_list m
}.

Definition with_orders (m : gmap string Order) (db : Db) : Db :=
  mkDb m (batches db) (last_batch_id db) (fulfilled_requests db) (locked_requests db).
Definition with_batches (m : gmap Z Batch) (db : Db) : Db :=
  mkDb (orders db) m (last_batch_id db) (fulfilled_requests db) (locked_requests db).

(** [UPDATE t SET data = f data WHERE P]. *)
Definition update_where {K V} `{Countable K} (P : K -> V -> bool) (f : V -> V) (m : gmap K V)
    : gmap K V :=
  map_imap (fun k v => Some (if P k v then f v else v)) m.

(** [UPDATE orders SET data = f data WHERE id = id], with the error when no row
    is affected. *)
Definition update_order (id : string) (f : Order -> Order) : ste Db DbError unit := fun db =>
  match orders db !! id with
  | None => (Err (OrderNotFound id), db)
  | Some o => (Ok tt, with_orders (<[id := f o]> (orders db)) db)
  end.

Definition update_batch_row (id : Z) (f : Batch -> Batch) : ste Db DbError unit := fun db =>
  match batches db !! id with
  | None => (Err (BatchNotFound id), db)
  | Some b => (Ok tt, with_batches (<[id := f b]> (batches db)) db)
  end.

Section Sqlite.
Context `{Externals} `{SqlEngine}.

(** *** Orders *)

Definition insert_accepted_order (o : Order) : ste Db DbError unit := fun db =>
  match db_order_id o with
  | Ok id =>
      match orders db !! id with
      | Some _ => (Err (DuplicateOrderId id), db)
      | None => (Ok tt, with_orders (<[id := o]> (orders db)) db)
      end
  | _ => (Panic, db)
  end.

Definition insert_accepted_request (now : Z) (r : OrderRequest) (price : Z)
    : ste Db DbError Order :=
  let o := proving_order_from_request now r price in
  _ ← insert_accepted_order o;
  mret o.

Definition get_order (id : string) : ste Db DbError (option Order) := fun db =>
  (Ok (orders db !! id), db).

Definition select_orders (P : string -> Order -> bool) (db : Db) : list (string * Order) :=
  filter (fun '(id, o) => P id o = true) (scan_orders (orders db)).

Definition get_orders (ids : list string) : ste Db DbError (list Order) := fun db =>
  match ids with
  | [] => (Ok [], db)
  | _ => (Ok (select_orders (fun id _ => bool_decide (id ∈ ids)) db).*2, db)
  end.

Definition get_submission_order (id : string)
    : ste Db DbError (ProofRequest * bytes * string * Z * FulfillmentType) :=
  order ← get_order id;
  match order with
  | None => throw (OrderNotFound id)
  | Some o =>
      if bool_decide (status o <> PendingSubmission) then throw (InvalidOrder id "status") else
      image ← liftr (ok_or (MissingElm "image_id") (o_image_id o));
      price ← liftr (ok_or (MissingElm "lock_price") (lock_price o));
      mret (o_request o, o_client_sig o, image, price, o_fulfillment_type o)
  end.

Definition set_order_failure (now : Z) (id failure_str : string) : ste Db DbError unit :=
  update_order id (fun o => set_error_msg failure_str (set_status Failed now o)).

Definition set_order_complete (now : Z) (id : string) : ste Db DbError unit :=
  update_order id (set_status Done now).

Definition has_status (ss : list OrderStatus) (o : Order) : bool := bool_decide (status o ∈ ss).

Definition get_committed_orders : ste Db DbError (list Order) := fun db =>
  (Ok (select_orders (fun _ o => has_status
         [PendingProving; Proving; ReadyForBatch; Batching; ReadyForSubmission;
          PendingSubmission] o) db).*2, db).

(** Seconds are signed here: [saturating_sub] on [i64] does not saturate on
    clock readings. *)
Definition get_expired_committed_orders (now grace_period_secs : Z)
    : ste Db DbError (list Order) := fun db =>
  (Ok (select_orders (fun _ o => has_status
         [PendingProving; Proving; ReadyForBatch; ReadyForSubmission; PendingSubmission] o
         && match o_expire_timestamp o with
            | Some e => e <? now - grace_period_secs
            | None => false end) db).*2, db).

(** [UPDATE … WHERE id = (SELECT id … LIMIT 1) RETURNING *]. *)
Definition get_proving_order (now : Z) : ste Db DbError (option Order) := fun db =>
  match select_orders (fun _ o => has_status [PendingProving] o) db with
  | [] => (Ok None, db)
  | (id, o) :: _ =>
      let o' := set_status Proving now o in
      (Ok (Some o'), with_orders (<[id := o']> (orders db)) db)
  end.

Definition get_active_proofs : ste Db DbError (list Order) := fun db =>
  (Ok (select_orders (fun _ o => has_status [Proving] o) db).*2, db).

Definition set_order_backend_state (now : Z) (id : string) (state : bytes)
    : ste Db DbError unit :=
  update_order id (set_backend_state state now).

Definition set_order_batch_status (now : Z) (id : string) (s : OrderStatus) (backend : string)
    : ste Db DbError unit :=
  update_order id (fun o => set_status s now (set_backend_id backend o)).

(** *** Orders for the batcher *)

(** The projection of a row, which needs the lock price. *)
Definition batch_ready_order (row : string * Order) : result DbError BatchReadyOrder :=
  let '(id, o) := row in
  price ← ok_or (InvalidOrder id "lock_price") (lock_price o);
  mret (mkReady id (expires_at (o_request o)) price (o_fulfillment_type o)
          (reqId (o_request o)) (lock_expires_at (o_request o))
          (selector (requirements (o_request o)))).

Definition of_backend (ss : list OrderStatus) (backend : string) (o : Order) : bool :=
  has_status ss o && bool_decide (backend_id o = Some backend).

(** The [UPDATE] has run when a row without a lock price is met. *)
Definition get_pending_batch_orders (now : Z) (backend : string)
    : ste Db DbError (list BatchReadyOrder) := fun db =>
  let P := fun (_ : string) o => of_backend [ReadyForBatch; Batching] backend o in
  let rows := prod_map id (set_status Batching now) <$> select_orders P db in
  let db' := with_orders (update_where P (set_status Batching now) (orders db)) db in
  (collect batch_ready_order rows, db').

Definition get_pending_direct_submission_orders (now : Z) (backend : string)
    : ste Db DbError (list BatchReadyOrder) := fun db =>
  let P := fun (_ : string) o => of_backend [ReadyForSubmission] backend o in
  let rows := prod_map id (set_status ReadyForSubmission now) <$> select_orders P db in
  let db' := with_orders (update_where P (set_status ReadyForSubmission now) (orders db)) db in
  (collect batch_ready_order rows, db').

Definition with_row_status (row : string * Order) : result DbError (BatchReadyOrder * OrderStatus) :=
  r ← batch_ready_order row;
  mret (r, status row.2).

Definition peek_pending_batch_orders (backend : string)
    : ste Db DbError (list (BatchReadyOrder * OrderStatus)) := fun db =>
  (collect with_row_status
     (select_orders (fun _ o => of_backend [ReadyForBatch; Batching] backend o) db), db).

Definition peek_pending_direct_submission_orders (backend : string)
    : ste Db DbError (list (BatchReadyOrder * OrderStatus)) := fun db =>
  (collect with_row_status
     (select_orders (fun _ o => of_backend [ReadyForSubmission] backend o) db), db).

(** The guard of the bulk [UPDATE] of [claim_orders_for_batch]. *)
Definition claimable (ids : list string) (backend : string) (id : string) (o : Order) : bool :=
  bool_decide (id ∈ ids) && of_backend [ReadyForBatch; Batching] backend o.

Definition claim_orders_for_batch (now : Z) (ids : list string) (backend : string)
    : ste Db DbError (list string) := fun db =>
  match ids with
  | [] => (Ok [], db)
  | _ =>
      let claimed := (select_orders (claimable ids backend) db).*1 in
      let f := fun o => set_status Batching now (set_backend_id backend o) in
      (Ok claimed, with_orders (update_where (claimable ids backend) f (orders db)) db)
  end.

(** *** Batches *)

Definition new_batch (now : Z) (backend : string) : ste Db DbError Z := fun db =>
  let id := last_batch_id db + 1 in
  (Ok id, mkDb (orders db) (<[id := batch_new backend now]> (batches db)) id
            (fulfilled_requests db) (locked_requests db)).

Definition complete_batch (id : Z) (state : bytes) : ste Db DbError unit :=
  update_batch_row id (fun b => set_b_state state (set_b_status BsReadyToSubmit b)).

Definition select_batches (P : Batch -> bool) (db : Db) : list (Z * Batch) :=
  filter (fun '(_, b) => P b = true) (scan_batches (batches db)).

Definition get_complete_batch : ste Db DbError (option (Z * Batch)) := fun db =>
  match select_batches (fun b => bool_decide (b_status b = BsReadyToSubmit)) db with
  | [] => (Ok None, db)
  | (id, b) :: _ =>
      let b' := set_b_status BsPendingSubmission b in
      (Ok (Some (id, b')), with_batches (<[id := b']> (batches db)) db)
  end.

Definition set_batch_submitted (id : Z) : ste Db DbError unit :=
  update_batch_row id (set_b_status BsSubmitted).

Definition set_batch_failure (id : Z) (err : string) : ste Db DbError unit :=
  update_batch_row id (fun b => set_b_error err (set_b_status BsFailed b)).

Definition current_of (backend : string) (b : Batch) : bool :=
  bool_decide (b_status b ∈ [BsOpen; BsPendingCompression])
  && bool_decide (b_backend_id b = backend).

Definition get_current_batch (now : Z) (backend : string) : ste Db DbError Z := fun db =>
  if bool_decide (size (batches db) = 0%nat) then new_batch now backend db else
  match select_batches (current_of backend) db with
  | (id, _) :: _ => (Ok id, db)
  | [] => new_batch now backend db
  end.

Definition I64_MAX : Z := 2 ^ 63 - 1.

(** [x as i64]. *)
Definition as_i64 (x : Z) : Z := if x <? 2 ^ 63 then x else x - 2 ^ 64.

Definition new_deadline (old : option Z) (new : list BatchReadyOrder) : Z :=
  default I64_MAX
    (foldl (fun m o => Some (Z.min (default I64_MAX m) (as_i64 (expiration o)))) old new).

Definition new_fees (old : Z) (new : list BatchReadyOrder) : Z :=
  foldl (fun sum o => wadd 256 sum (fee o)) old new.

(** The statements of [update_batch] that add the orders. *)
Fixpoint add_orders (now id : Z) (new : list BatchReadyOrder) : ste Db DbError unit :=
  match new with
  | [] => mret tt
  | o :: new =>
      _ ← update_batch_row id (push_b_order (order_id' o));
      _ ← update_order (order_id' o) (set_status PendingSubmission now);
      add_orders now id new
  end.

Definition update_batch_txn (now id : Z) (state : bytes) (new : list BatchReadyOrder)
    (finalize : bool) : ste Db DbError unit := fun db =>
  match batches db !! id with
  | None => (Err (BatchNotFound id), db)
  | Some b =>
      (_ ← update_batch_row id (fun b' =>
             set_b_state state
               (set_b_totals (new_deadline (b_deadline b) new) (new_fees (b_fees b) new) b'));
       _ ← add_orders now id new;
       if finalize then update_batch_row id (set_b_status BsPendingCompression) else mret tt) db
  end.

(** A transaction keeps its effects only when it commits. *)
Definition transaction {A} (m : ste Db DbError A) : ste Db DbError A := fun db =>
  match m db with
  | (Ok a, db') => (Ok a, db')
  | (Err e, _) => (Err e, db)
  | (Panic, _) => (Panic, db)
  end.

Definition update_batch (now id : Z) (state : bytes) (new : list BatchReadyOrder)
    (finalize : bool) : ste Db DbError unit :=
  transaction (update_batch_txn now id state new finalize).

Definition get_batch (id : Z) : ste Db DbError Batch := fun db =>
  match batches db !! id with
  | Some b => (Ok b, db)
  | None => (Err (BatchNotFound id), db)
  end.

(** *** Requests *)

Definition request_key (request_id : Z) : string := "0x" +:+ hex_lower request_id.

Definition set_request_fulfilled (request_id block_number : Z) : ste Db DbError unit := fun db =>
  match fulfilled_requests db !! request_key request_id with
  | Some _ => (Err SqlUniqueViolation, db)
  | None =>
      (Ok tt, mkDb (orders db) (batches db) (last_batch_id db)
                (<[request_key request_id := block_number]> (fulfilled_requests db))
                (locked_requests db))
  end.

Definition is_request_fulfilled (request_id : Z) : ste Db DbError bool := fun db =>
  (Ok (bool_decide (is_Some (fulfilled_requests db !! request_key request_id))), db).

Definition set_request_locked (request_id : Z) (locker : string) (block_number : Z)
    : ste Db DbError unit := fun db =>
  match locked_requests db !! request_key request_id with
  | Some _ => (Err SqlUniqueViolation, db)
  | None =>
      (Ok tt, mkDb (orders db) (batches db) (last_batch_id db) (fulfilled_requests db)
                (<[request_key request_id := (locker, block_number)]> (locked_requests db)))
  end.

Definition is_request_locked (request_id : Z) : ste Db DbError bool := fun db =>
  (Ok (bool_decide (is_Some (locked_requests db !! request_key request_id))), db).

Definition get_request_locked (request_id : Z) : ste Db DbError (option (string * Z)) := fun db =>
  (Ok (locked_requests db !! request_key request_id), db).

End Sqlite.

(** ** Lemmas on the statements *)

Lemma string_app_assoc (a b c : string) : (a +:+ b) +:+ c = a +:+ (b +:+ c).
Proof. 
  induction a as [|x a IH]; [done|].
  change (String x ((a +:+ b) +:+ c) = String x (a +:+ (b +:+ c))). by rewrite IH.
Qed.

Lemma lookup_update_where {K V} `{Countable K} (P : K -> V -> bool) f (m : gmap K V) k :
  update_where P f m !! k = (fun v => if P k v then f v else v) <$> m !! k.
Proof. unfold update_where. rewrite map_lookup_imap. by destruct (m !! k). Qed.

Lemma dom_update_where {K V} `{Countable K} (P : K -> V -> bool) f (m : gmap K V) :
  dom (update_where P f m) = dom m.
Proof.
  apply set_eq. intros k. rewrite !elem_of_dom, lookup_update_where. destruct (m !! k); simpl;
    by rewrite ?is_Some_alt.
Qed.

Section Statements.
Context `{Externals} `{SqlEngine}.

Lemma select_orders_spec P db id o :
  (id, o) ∈ select_orders P db <-> orders db !! id = Some o /\ P id o = true.
Proof.
  unfold select_orders. rewrite list_elem_of_filter, scan_orders_perm, elem_of_map_to_list.
  naive_solver.
Qed.

Lemma select_orders_NoDup P db : NoDup (select_orders P db).*1.
Proof.
  unfold select_orders. rewrite scan_orders_perm.
  apply (sublist_NoDup _ (map_to_list (orders db)).*1).
  - apply NoDup_fst_map_to_list.
  - apply fmap_sublist, sublist_filter.
Qed.

Lemma select_batches_spec P db id b :
  (id, b) ∈ select_batches P db <-> batches db !! id = Some b /\ P b = true.
Proof.
  unfold select_batches. rewrite list_elem_of_filter, scan_batches_perm, elem_of_map_to_list.
  naive_solver.
Qed.

Lemma has_status_spec ss o : has_status ss o = true <-> status o ∈ ss.
Proof. unfold has_status. apply bool_decide_eq_true. Qed.

Lemma db_order_id_set_status s now o : db_order_id (set_status s now o) = db_order_id o.
Proof. done. Qed.

(** The identifier of a row is the identifier of the request it came from. *)
Lemma db_order_id_request now r price :
  db_order_id (proving_order_from_request now r price) = Ok (order_id r).
Proof.
  unfold db_order_id, order_id, request_digest, format_order_id. simpl.
  by rewrite !string_app_assoc.
Qed.

End Statements.

(** ** The invariant of the order table

    Rows are created by [insert_accepted_request] only: each is stored under
    its own identifier and has a lock price. *)
Definition row_ok `{Externals} (id : string) (o : Order) : Prop :=
  db_order_id o = Ok id /\ is_Some (lock_price o).

Definition db_ok `{Externals} (db : Db) : Prop := map_Forall row_ok (orders db).

(** A statement that keeps the request, the market and the price keeps rows
    in order. *)
Definition keeps_identity (f : Order -> Order) : Prop :=
  forall o, o_request (f o) = o_request o /\ o_market (f o) = o_market o
    /\ o_chain_id (f o) = o_chain_id o /\ o_fulfillment_type (f o) = o_fulfillment_type o
    /\ lock_price (f o) = lock_price o.

Section Invariant.
Context `{Externals} `{SqlEngine}.

Lemma row_ok_keeps id o f : keeps_identity f -> row_ok id o -> row_ok id (f o).
Proof.
  intros Hk [Hid Hp]. destruct (Hk o) as (E1 & E2 & E3 & E4 & E5). split.
  - unfold db_order_id in *. by rewrite E1, E2, E3, E4.
  - by rewrite E5.
Qed.

Lemma db_ok_empty : db_ok db_empty.
Proof. by intros id o. Qed.

Lemma update_order_ok id f db r db' :
  keeps_identity f -> db_ok db -> update_order id f db = (r, db') -> db_ok db'.
Proof.
  intros Hk Hdb. unfold update_order. destruct (orders db !! id) as [o|] eqn:E;
    intros [= <- <-]; [|done].
  unfold db_ok. simpl. apply map_Forall_insert_2; [|done].
  apply row_ok_keeps; [done|]. by apply Hdb.
Qed.

Lemma update_where_ok P f db :
  keeps_identity f -> db_ok db -> db_ok (with_orders (update_where P f (orders db)) db).
Proof.
  intros Hk Hdb id o. simpl. rewrite lookup_update_where.
  destruct (orders db !! id) as [o'|] eqn:E; simpl; [|done]. intros [= <-].
  apply Hdb in E. destruct (P id o'); [by apply row_ok_keeps|done].
Qed.

Lemma update_batch_row_orders id f db : orders (snd (update_batch_row id f db)) = orders db.
Proof. unfold update_batch_row. by destruct (batches db !! id). Qed.

Lemma update_batch_row_ok id f db r db' :
  db_ok db -> update_batch_row id f db = (r, db') -> db_ok db'.
Proof.
  intros Hdb E. unfold db_ok. pose proof (update_batch_row_orders id f db) as Ho.
  rewrite E in Ho. simpl in Ho. by rewrite Ho.
Qed.

(** Rows that are in order project without an error. *)
Lemma collect_ready rows :
  Forall (fun row => row_ok row.1 row.2) rows ->
  exists l, collect batch_ready_order rows = Ok l /\ order_id' <$> l = rows.*1.
Proof.
  induction 1 as [|[id o] rows [_ [p Hp]] _ (l & Hl & Hid)]; simpl.
  - by exists [].
  - simpl in Hp. rewrite Hp. simpl. rewrite Hl. simpl. eexists. split; [done|].
    rewrite !fmap_cons, Hid. done.
Qed.

End Invariant.

Create HintDb broker_db.

Lemma keeps_set_status s now : keeps_identity (set_status s now).
Proof. by intros o. Qed.
Lemma keeps_backend_id b : keeps_identity (set_backend_id b).
Proof. by intros o. Qed.
Lemma keeps_error_msg e : keeps_identity (set_error_msg e).
Proof. by intros o. Qed.
Lemma keeps_backend_state s now : keeps_identity (set_backend_state s now).
Proof. by intros o. Qed.
Lemma keeps_compose f g :
  keeps_identity f -> keeps_identity g -> keeps_identity (fun o => f (g o)).
Proof.
  intros Hf Hg o. destruct (Hf (g o)) as (-> & -> & -> & -> & ->). apply Hg.
Qed.

#[export] Hint Resolve keeps_set_status keeps_backend_id keeps_error_msg keeps_backend_state
  keeps_compose : broker_db.

(** ** Accepting requests *)

(** Accepting a request stores it once, under the identifier of the
    request, as an order that awaits proving with the given lock price, and
    leaves every other row alone; a request whose identifier is taken is
    refused and changes nothing. *)
Theorem insert_accepted_request_spec `{Externals} `{SqlEngine} now r price db :
  match orders db !! order_id r with
  | Some _ => insert_accepted_request now r price db = (Err (DuplicateOrderId (order_id r)), db)
  | None =>
      exists o db', insert_accepted_request now r price db = (Ok o, db')
        /\ status o = PendingProving /\ lock_price o = Some price /\ o_request o = request r
        /\ get_order (order_id r) db' = (Ok (Some o), db')
        /\ (forall id, id <> order_id r -> orders db' !! id = orders db !! id)
        /\ batches db' = batches db /\ (db_ok db -> db_ok db')
  end.
Proof.
  unfold insert_accepted_request, insert_accepted_order, mbind, ste_bind, get_order.
  rewrite db_order_id_request. destruct (orders db !! order_id r) as [o|] eqn:E; [done|].
  do 2 eexists. split; [done|]. split_and!; try done; simpl.
  - by rewrite lookup_insert_eq.
  - intros id Hne. by rewrite lookup_insert_ne.
  - intros Hdb. apply map_Forall_insert_2; [|done]. split; [apply db_order_id_request|by eexists].
Qed.

(** ** Handing out orders to prove *)

Definition pending (db : Db) : gmap string Order :=
  filter (fun '(_, o) => status o = PendingProving) (orders db).

(** [n] successive calls of [get_proving_order], stopping at the first that
    finds nothing. *)
Fixpoint take_proving `{SqlEngine} (nows : list Z) (db : Db) : list Order * Db :=
  match nows with
  | [] => ([], db)
  | now :: nows =>
      match get_proving_order now db with
      | (Ok (Some o), db') => let (l, db'') := take_proving nows db' in (o :: l, db'')
      | (_, db') => ([], db')
      end
  end.

Section ProvingOrders.
Context `{Externals} `{SqlEngine}.

Lemma get_proving_order_cases now db :
  (get_proving_order now db = (Ok None, db) /\ pending db = ∅)
  \/ exists id o, pending db !! id = Some o
     /\ get_proving_order now db
        = (Ok (Some (set_status Proving now o)),
           with_orders (<[id := set_status Proving now o]> (orders db)) db).
Proof.
  unfold get_proving_order.
  destruct (select_orders (fun _ o => has_status [PendingProving] o) db) as [|[id o] rest] eqn:E.
  - left. split; [done|]. apply map_eq. intros id. rewrite lookup_empty.
    apply map_lookup_filter_None. right. intros o Ho Hs.
    assert ((id, o) ∈ select_orders (fun _ o => has_status [PendingProving] o) db) as Hin.
    { apply select_orders_spec. split; [done|]. apply has_status_spec. rewrite Hs. set_solver. }
    rewrite E in Hin. by apply not_elem_of_nil in Hin.
  - right. exists id, o. split; [|done].
    assert ((id, o) ∈ select_orders (fun _ o => has_status [PendingProving] o) db) as Hin.
    { rewrite E. left. }
    apply select_orders_spec in Hin as [Ho Hs%has_status_spec].
    apply map_lookup_filter_Some. split; [done|]. simpl. set_solver.
Qed.

Lemma pending_proving now id o db :
  pending (with_orders (<[id := set_status Proving now o]> (orders db)) db)
  = delete id (pending db).
Proof.
  apply map_eq. intros k. unfold pending. simpl. apply option_eq. intros o'.
  rewrite lookup_delete_Some, !map_lookup_filter_Some.
  destruct (decide (k = id)) as [->|Hne].
  - rewrite lookup_insert_eq. naive_solver.
  - rewrite lookup_insert_ne by done. naive_solver.
Qed.

End ProvingOrders.

(** Every order that awaits proving is handed out exactly once: as many
    calls as there are such orders return all of them, each under its own
    identifier and marked as proving, and leave none behind; further calls
    find nothing. *)
Theorem proving_orders_taken_once `{Externals} `{SqlEngine} nows db :
  db_ok db -> length nows = size (pending db) ->
  exists os db' ids, take_proving nows db = (os, db')
    /\ Forall2 (fun id o => db_order_id o = Ok id /\ status o = Proving) ids os
    /\ NoDup ids /\ list_to_set ids =@{gset string} dom (pending db)
    /\ pending db' = ∅
    /\ forall now, get_proving_order now db' = (Ok None, db').
Proof.
  intros Hok Hlen.
  assert (Hgen : exists os db' ids, take_proving nows db = (os, db')
    /\ Forall2 (fun id o => db_order_id o = Ok id /\ status o = Proving) ids os
    /\ NoDup ids /\ list_to_set ids =@{gset string} dom (pending db) /\ pending db' = ∅).
  { revert db Hok Hlen. induction nows as [|now nows IH]; intros db Hok Hlen; simpl in *.
    - symmetry in Hlen. apply map_size_empty_iff in Hlen. exists [], db, [].
      split_and!; [done|constructor|constructor|by rewrite Hlen, dom_empty_L|done].
    - destruct (get_proving_order_cases now db) as [[_ He]|(id & o & Hp & ->)].
      { rewrite He, map_size_empty in Hlen. done. }
      set (db1 := with_orders _ db).
      pose proof (pending_proving now id o db) as Hpd. fold db1 in Hpd.
      assert (Ho : orders db !! id = Some o).
      { unfold pending in Hp. by apply map_lookup_filter_Some in Hp as [? _]. }
      destruct (IH db1) as (os & db' & ids & -> & Hf & Hn & Hs & He).
      { unfold db1, db_ok. simpl. apply map_Forall_insert_2; [|done].
        apply row_ok_keeps; [apply keeps_set_status|by apply Hok]. }
      { rewrite Hpd, map_size_delete, Hp. lia. }
      exists (set_status Proving now o :: os), db', (id :: ids).
      rewrite Hpd, dom_delete_L in Hs.
      assert (id ∈ dom (pending db)) by (apply elem_of_dom; by eexists).
      split_and!; [done| | | |done].
      + constructor; [|done]. split; [|done]. rewrite db_order_id_set_status. by apply Hok.
      + constructor; [|done]. intros Hin.
        assert (id ∈ (list_to_set ids : gset string)) as Hin' by (by apply elem_of_list_to_set).
        rewrite Hs in Hin'. set_solver.
      + simpl. rewrite Hs. rewrite <- union_difference_singleton_L; done. }
  destruct Hgen as (os & db' & ids & E & Hf & Hn & Hs & He).
  exists os, db', ids. split_and!; try done. intros now.
  destruct (get_proving_order_cases now db') as [[-> _]|(id & o & Hp & _)]; [done|].
  by rewrite He in Hp.
Qed.

(** ** Claiming orders for a batch *)

Section Claims.
Context `{Externals} `{SqlEngine}.

Lemma claimable_spec ids backend id o :
  claimable ids backend id o = true <->
  id ∈ ids /\ (status o = ReadyForBatch \/ status o = Batching) /\ backend_id o = Some backend.
Proof.
  unfold claimable, of_backend. rewrite !andb_true_iff, !bool_decide_eq_true, has_status_spec.
  set_solver.
Qed.

Lemma claim_rows P db id :
  id ∈ (select_orders P db).*1 <-> exists o, orders db !! id = Some o /\ P id o = true.
Proof.
  rewrite list_elem_of_fmap. split.
  - intros ([k o] & -> & Hin). apply select_orders_spec in Hin. eauto.
  - intros (o & Ho). exists (id, o). split; [done|]. by apply select_orders_spec.
Qed.

End Claims.

(** A claim takes exactly the orders that were asked for, are still ready
    for a batch or already in one, and belong to the backend; it reports each
    of them once, marks them as batching, and leaves every other order,
    among them any that failed meanwhile, as it was. *)
Theorem claim_orders_spec `{Externals} `{SqlEngine} now ids backend db :
  exists claimed db', claim_orders_for_batch now ids backend db = (Ok claimed, db')
    /\ NoDup claimed
    /\ (forall id, id ∈ claimed <-> id ∈ ids /\ exists o, orders db !! id = Some o
          /\ (status o = ReadyForBatch \/ status o = Batching) /\ backend_id o = Some backend)
    /\ (forall id, orders db' !! id =
          if decide (id ∈ claimed)
          then set_status Batching now <$> orders db !! id else orders db !! id)
    /\ batches db' = batches db /\ (db_ok db -> db_ok db').
Proof.
  assert (Hback : forall o, backend_id o = Some backend -> set_backend_id backend o = o).
  { intros [] E. simpl in E. unfold set_backend_id. simpl. by rewrite E. }
  unfold claim_orders_for_batch. destruct ids as [|i ids].
  { exists [], db. split_and!; [done|constructor|set_solver| |done|done].
    intros id. by rewrite decide_False by set_solver. }
  generalize (i :: ids). clear i ids. intros ids. do 2 eexists. split; [done|].
  assert (Hmem : forall id, id ∈ (select_orders (claimable ids backend) db).*1 <->
    id ∈ ids /\ exists o, orders db !! id = Some o
      /\ (status o = ReadyForBatch \/ status o = Batching) /\ backend_id o = Some backend).
  { intros id. rewrite claim_rows. setoid_rewrite claimable_spec. naive_solver. }
  split_and!; try done.
  - apply select_orders_NoDup.
  - intros id. simpl. rewrite lookup_update_where.
    destruct (orders db !! id) as [o|] eqn:Ho; simpl; [|by case_decide].
    destruct (claimable ids backend id o) eqn:Hc.
    + rewrite decide_True by (apply claim_rows; eauto).
      apply claimable_spec in Hc as (_ & _ & Hb). by rewrite Hback.
    + rewrite decide_False; [done|]. intros Hin. apply claim_rows in Hin as (o' & Ho' & Hc').
      congruence.
  - intros Hdb. apply update_where_ok; [|done]. apply keeps_compose; auto with broker_db.
Qed.

(** ** Updating a batch *)

Section Batches.
Context `{Externals} `{SqlEngine}.

(** The order table after the orders of a batch have been added. *)
Definition submit_all (now : Z) (ids : list string) (m : gmap string Order) : gmap string Order :=
  update_where (fun id _ => bool_decide (id ∈ ids)) (set_status PendingSubmission now) m.

Definition push_all (ids : list string) (b : Batch) : Batch :=
  mkBatch (b_backend_id b) (b_status b) (b_orders b ++ ids) (b_backend_state b)
    (b_start_time b) (b_deadline b) (b_fees b) (b_error_msg b).

Lemma set_status_twice s now o : set_status s now (set_status s now o) = set_status s now o.
Proof. done. Qed.

Lemma submit_all_cons now id ids m o :
  m !! id = Some o ->
  submit_all now ids (<[id := set_status PendingSubmission now o]> m) = submit_all now (id :: ids) m.
Proof.
  intros Hm. apply map_eq. intros k. unfold submit_all. rewrite !lookup_update_where.
  destruct (decide (k = id)) as [->|Hne].
  - rewrite lookup_insert_eq, Hm. simpl. rewrite (bool_decide_eq_true_2 (id ∈ id :: ids)) by left.
    by case_bool_decide.
  - rewrite lookup_insert_ne by done. destruct (m !! k); simpl; [|done].
    by rewrite (bool_decide_ext (k ∈ id :: ids) (k ∈ ids)) by set_solver.
Qed.

(** Adding orders succeeds when the batch and all orders exist, and otherwise
    reports what is missing. *)
Lemma add_orders_spec now id new db b :
  batches db !! id = Some b ->
  (Forall (fun o => is_Some (orders db !! order_id' o)) new ->
   add_orders now id new db
   = (Ok tt, with_batches (<[id := push_all (order_id' <$> new) b]> (batches db))
               (with_orders (submit_all now (order_id' <$> new) (orders db)) db)))
  /\ (~ Forall (fun o => is_Some (orders db !! order_id' o)) new ->
      exists o db', o ∈ new /\ orders db !! order_id' o = None
        /\ add_orders now id new db = (Err (OrderNotFound (order_id' o)), db')).
Proof.
  revert db b. induction new as [|o new IH]; intros db b Hb.
  - split; [|by intros []]. intros _. simpl. unfold mret, ste_ret. f_equal.
    destruct db as [os bs lb ff lk]. unfold with_batches, with_orders. simpl in *.
    rewrite insert_id.
    + f_equal. apply map_eq. intros k. unfold submit_all. rewrite lookup_update_where.
      by destruct (os !! k).
    + rewrite Hb. f_equal. unfold push_all. rewrite app_nil_r. by destruct b.
  - simpl. unfold mbind, ste_bind. unfold update_batch_row at 1 2. rewrite Hb.
    unfold update_order. simpl. destruct (orders db !! order_id' o) as [ord|] eqn:Ho.
    + set (db1 := with_orders _ _).
      destruct (IH db1 (push_b_order (order_id' o) b)) as [IH1 IH2].
      { unfold db1. simpl. by rewrite lookup_insert_eq. }
      assert (Hsome : forall k, is_Some (orders db1 !! k) <-> is_Some (orders db !! k)).
      { intros k. unfold db1. simpl. destruct (decide (k = order_id' o)) as [->|].
        - rewrite lookup_insert_eq, Ho. by split; eexists.
        - by rewrite lookup_insert_ne. }
      split.
      * intros [_ Hall]%Forall_cons. rewrite IH1.
        2: { eapply Forall_impl; [exact Hall|]. intros x. by apply Hsome. }
        unfold db1, with_batches, with_orders. simpl. do 2 f_equal.
        -- by apply submit_all_cons.
        -- rewrite insert_insert_eq. f_equal. unfold push_all, push_b_order. simpl.
           by rewrite <- app_assoc.
      * intros Hn. destruct IH2 as (x & db2 & Hx & Hxn & E).
        { intros Hall. apply Hn. constructor; [by eexists|].
          eapply Forall_impl; [exact Hall|]. intros y. by apply Hsome. }
        exists x, db2. split_and!; [by right| |done].
        apply eq_None_not_Some. rewrite <- Hsome. by apply eq_None_not_Some.
    + split.
      * intros [[? ?] _]%Forall_cons. congruence.
      * intros _. exists o. eexists. split_and!; [by left|done|done].
Qed.

Lemma new_deadline_le old new :
  (forall d, old = Some d -> new_deadline old new <= d)
  /\ (forall o, o ∈ new -> expiration o < 2 ^ 63 -> new_deadline old new <= expiration o).
Proof.
  unfold new_deadline. revert old. induction new as [|o new IH]; intros old; simpl.
  - split; [by intros d ->|]. by intros o Ho%not_elem_of_nil.
  - destruct (IH (Some (Z.min (default I64_MAX old) (as_i64 (expiration o))))) as [IH1 IH2].
    specialize (IH1 _ eq_refl). split.
    + intros d ->. simpl in *. lia.
    + intros x [->|Hx]%elem_of_cons Hlt; [|by apply IH2].
      unfold as_i64 in *. destruct (Z.ltb_spec (expiration o) (2 ^ 63)); lia.
Qed.

Lemma new_fees_exact old new :
  fits 256 old -> Forall (fun o => 0 <= fee o) new ->
  old + foldr (fun o s => fee o + s) 0 new < 2 ^ 256 ->
  new_fees old new = old + foldr (fun o s => fee o + s) 0 new.
Proof.
  unfold new_fees. revert old. induction new as [|o new IH]; intros old Hf Hp Hs; simpl in *.
  - lia.
  - apply Forall_cons in Hp as [Ho Hp].
    assert (0 <= foldr (fun o s => fee o + s) 0 new) by (clear -Hp; induction Hp; simpl; lia).
    assert (fits 256 (old + fee o)) by fits_lia.
    rewrite wadd_small by done. rewrite IH; [lia|done|done|lia].
Qed.

End Batches.

(** What a successful [update_batch] leaves behind. *)
Record batch_updated (now id : Z) (state : bytes) (new : list BatchReadyOrder)
    (finalize : bool) (b : Batch) (db db' : Db) : Prop := mk_batch_updated {
  bu_batch : exists b', batches db' = <[id := b']> (batches db)
    /\ b_orders b' = b_orders b ++ (order_id' <$> new)
    /\ b_backend_state b' = Some state
    /\ b_fees b' = new_fees (b_fees b) new
    /\ b_deadline b' = Some (new_deadline (b_deadline b) new)
    /\ b_status b' = (if finalize then BsPendingCompression else b_status b)
    /\ b_backend_id b' = b_backend_id b;
  bu_orders : orders db' = submit_all now (order_id' <$> new) (orders db);
  bu_rest : fulfilled_requests db' = fulfilled_requests db
    /\ locked_requests db' = locked_requests db /\ last_batch_id db' = last_batch_id db
}.

(** A batch that exists: the update runs to its end, or an order is missing. *)
Lemma update_batch_run `{Externals} `{SqlEngine} now id state new finalize db b :
  batches db !! id = Some b ->
  (Forall (fun o => is_Some (orders db !! order_id' o)) new ->
   exists db', update_batch now id state new finalize db = (Ok tt, db')
     /\ batch_updated now id state new finalize b db db')
  /\ (~ Forall (fun o => is_Some (orders db !! order_id' o)) new ->
      exists o, o ∈ new /\ orders db !! order_id' o = None
        /\ update_batch now id state new finalize db
           = (Err (OrderNotFound (order_id' o)), db)).
Proof.
  intros Hb. unfold update_batch, transaction, update_batch_txn. rewrite Hb.
  unfold mbind, ste_bind. unfold update_batch_row at 1 2 3. rewrite Hb.
  set (b1 := set_b_state state _). set (db1 := with_batches _ db).
  destruct (add_orders_spec now id new db1 b1) as [Hok Hbad].
  { unfold db1. simpl. by rewrite lookup_insert_eq. }
  split.
  - intros Hall. rewrite (Hok Hall). destruct finalize.
    + unfold update_batch_row. simpl. rewrite lookup_insert_eq. eexists. split; [done|].
      split; [|done|done]. eexists. split_and!; [simpl; by rewrite !insert_insert_eq|done..].
    + eexists. split; [done|].
      split; [|done|done]. eexists. split_and!; [simpl; by rewrite !insert_insert_eq|done..].
  - intros Hn. destruct (Hbad Hn) as (o & db' & Ho & Hno & ->). by exists o.
Qed.

(** [update_batch] is all or nothing: when the batch and every added order
    exist it appends the orders, adds their fees, takes the earliest
    deadline, stores the backend state, marks exactly the added orders as
    pending submission, and closes the batch when asked to; otherwise it
    reports what is missing and the database is unchanged.  The deadline is no
    later than the old one or than any added order's expiry, and the fees are
    the exact sum when it fits in 256 bits. *)
Theorem update_batch_atomic `{Externals} `{SqlEngine} now id state new finalize db :
  match batches db !! id with
  | None => update_batch now id state new finalize db = (Err (BatchNotFound id), db)
  | Some b =>
      (Forall (fun o => is_Some (orders db !! order_id' o)) new ->
       exists db', update_batch now id state new finalize db = (Ok tt, db')
         /\ batch_updated now id state new finalize b db db')
      /\ (~ Forall (fun o => is_Some (orders db !! order_id' o)) new ->
          exists o, o ∈ new /\ orders db !! order_id' o = None
            /\ update_batch now id state new finalize db
               = (Err (OrderNotFound (order_id' o)), db))
      /\ (forall d, b_deadline b = Some d -> new_deadline (b_deadline b) new <= d)
      /\ (forall o, o ∈ new -> expiration o < 2 ^ 63 ->
            new_deadline (b_deadline b) new <= expiration o)
      /\ (fits 256 (b_fees b) -> Forall (fun o => 0 <= fee o) new ->
          b_fees b + foldr (fun o s => fee o + s) 0 new < 2 ^ 256 ->
          new_fees (b_fees b) new = b_fees b + foldr (fun o s => fee o + s) 0 new)
  end.
Proof.
  destruct (batches db !! id) as [b|] eqn:Hb.
  - destruct (update_batch_run now id state new finalize db b Hb).
    split_and!; [done|done|apply new_deadline_le|apply new_deadline_le|apply new_fees_exact].
  - unfold update_batch, transaction, update_batch_txn. by rewrite Hb.
Qed.

(** ** The current batch of a backend *)

Definition batch_ids_ok (db : Db) : Prop :=
  0 <= last_batch_id db
  /\ forall id, is_Some (batches db !! id) -> 1 <= id <= last_batch_id db.

(** At most one batch of each backend is open or being compressed. *)
Definition one_current (db : Db) : Prop :=
  forall backend i j bi bj, batches db !! i = Some bi -> batches db !! j = Some bj ->
  current_of backend bi = true -> current_of backend bj = true -> i = j.

Section CurrentBatch.
Context `{Externals} `{SqlEngine}.

(** A row update that does not turn a closed batch into a current one keeps
    the batches of every backend apart. *)
Lemma update_row_one_current id f db r db' :
  (forall backend b, batches db !! id = Some b ->
     current_of backend (f b) = true -> current_of backend b = true) ->
  one_current db -> update_batch_row id f db = (r, db') -> one_current db'.
Proof.
  intros Hf Hone. unfold update_batch_row. destruct (batches db !! id) as [b|] eqn:Hb;
    intros [= <- <-]; [|done].
  assert (Hback : forall backend k x, <[id := f b]> (batches db) !! k = Some x ->
    current_of backend x = true -> exists y, batches db !! k = Some y
      /\ current_of backend y = true).
  { intros backend k x Hk Hc. destruct (decide (k = id)) as [->|Hne].
    - rewrite lookup_insert_eq in Hk. injection Hk as <-. eauto.
    - rewrite lookup_insert_ne in Hk by done. eauto. }
  intros backend i j bi bj Hi Hj Hci Hcj. simpl in *.
  destruct (Hback backend i bi Hi Hci) as (x & Hx & Hcx).
  destruct (Hback backend j bj Hj Hcj) as (y & Hy & Hcy). eauto.
Qed.

Lemma complete_batch_one_current id s db r db' :
  one_current db -> complete_batch id s db = (r, db') -> one_current db'.
Proof. intros. eapply update_row_one_current; [|done|done]. by intros backend b _ Hc. Qed.

Lemma set_batch_submitted_one_current id db r db' :
  one_current db -> set_batch_submitted id db = (r, db') -> one_current db'.
Proof. intros. eapply update_row_one_current; [|done|done]. by intros backend b _ Hc. Qed.

Lemma set_batch_failure_one_current id e db r db' :
  one_current db -> set_batch_failure id e db = (r, db') -> one_current db'.
Proof. intros. eapply update_row_one_current; [|done|done]. by intros backend b _ Hc. Qed.

Lemma new_batch_spec now backend db :
  batch_ids_ok db -> one_current db ->
  (forall i b, batches db !! i = Some b -> current_of backend b = false) ->
  exists id db', new_batch now backend db = (Ok id, db')
    /\ batches db !! id = None
    /\ batches db' = <[id := batch_new backend now]> (batches db) /\ orders db' = orders db
    /\ batch_ids_ok db' /\ one_current db'.
Proof.
  intros [Hlast Hids] Hone Hnone. unfold new_batch. do 2 eexists. split; [done|]. simpl.
  assert (Hfresh : batches db !! (last_batch_id db + 1) = None).
  { apply eq_None_not_Some. intros Hs. apply Hids in Hs. lia. }
  split_and!; try done.
  - split; simpl; [lia|]. intros id. destruct (decide (id = last_batch_id db + 1)) as [->|Hne];
      [lia|]. rewrite lookup_insert_ne by done. intros Hs. apply Hids in Hs. lia.
  - assert (Hnew : forall k x be, <[last_batch_id db + 1 := batch_new backend now]> (batches db) !! k
        = Some x -> current_of be x = true ->
      (k = last_batch_id db + 1 /\ be = backend)
      \/ (k <> last_batch_id db + 1 /\ be <> backend /\ batches db !! k = Some x)).
    { intros k x be Hk Hc. destruct (decide (k = last_batch_id db + 1)) as [->|Hne].
      - rewrite lookup_insert_eq in Hk. injection Hk as <-. left. split; [done|].
        unfold current_of in Hc. apply andb_prop in Hc as [_ Hc]. simpl in Hc.
        by apply bool_decide_eq_true in Hc.
      - rewrite lookup_insert_ne in Hk by done. right. split_and!; [done| |done].
        intros ->. apply Hnone in Hk. congruence. }
    intros be i j bi bj Hi Hj Hci Hcj. simpl in *.
    destruct (Hnew i bi be Hi Hci) as [[-> ->]|(? & Hb & Hi')], (Hnew j bj _ Hj Hcj)
      as [[-> ?]|(? & ? & Hj')]; try done. eauto.
Qed.

Lemma select_current_nil backend db :
  select_batches (current_of backend) db = [] ->
  forall i b, batches db !! i = Some b -> current_of backend b = false.
Proof.
  intros E i b Hb. destruct (current_of backend b) eqn:Hc; [|done].
  assert ((i, b) ∈ select_batches (current_of backend) db) as Hin by (by apply select_batches_spec).
  rewrite E in Hin. by apply not_elem_of_nil in Hin.
Qed.

Lemma get_current_batch_found now backend db id b :
  one_current db -> batches db !! id = Some b -> current_of backend b = true ->
  get_current_batch now backend db = (Ok id, db).
Proof.
  intros Hone Hb Hc. unfold get_current_batch. rewrite bool_decide_eq_false_2.
  2: { intros Hz%map_size_empty_iff. by rewrite Hz in Hb. }
  destruct (select_batches (current_of backend) db) as [|[k x] rest] eqn:E.
  - by rewrite (select_current_nil backend db E id b Hb) in Hc.
  - assert ((k, x) ∈ select_batches (current_of backend) db) as Hin by (rewrite E; left).
    apply select_batches_spec in Hin as [Hk Hx]. by rewrite (Hone backend k id x b).
Qed.

Lemma get_current_batch_missing now backend db :
  (forall i b, batches db !! i = Some b -> current_of backend b = false) ->
  get_current_batch now backend db = new_batch now backend db.
Proof.
  intros Hn. unfold get_current_batch. case_bool_decide; [done|].
  destruct (select_batches (current_of backend) db) as [|[k x] rest] eqn:E; [done|].
  assert ((k, x) ∈ select_batches (current_of backend) db) as Hin by (rewrite E; left).
  apply select_batches_spec in Hin as [Hk Hx]. by rewrite (Hn k x Hk) in Hx.
Qed.

Lemma current_dec backend db :
  (exists id b, batches db !! id = Some b /\ current_of backend b = true)
  \/ (forall i b, batches db !! i = Some b -> current_of backend b = false).
Proof.
  destruct (select_batches (current_of backend) db) as [|[k x] rest] eqn:E.
  - right. by apply select_current_nil.
  - left. exists k, x. apply select_batches_spec. rewrite E. left.
Qed.

End CurrentBatch.

(** A backend has one current batch: [get_current_batch] returns a batch of
    the backend that is open or being compressed, creates an empty one only
    when there is none, keeps every existing batch and order, and returns the
    same batch until that batch is closed. *)
Theorem current_batch_unique `{Externals} `{SqlEngine} now backend db :
  batch_ids_ok db -> one_current db ->
  exists id b db', get_current_batch now backend db = (Ok id, db')
    /\ batches db' !! id = Some b /\ current_of backend b = true
    /\ (batches db !! id = None -> b = batch_new backend now)
    /\ (forall i x, batches db !! i = Some x -> batches db' !! i = Some x)
    /\ orders db' = orders db
    /\ batch_ids_ok db' /\ one_current db'
    /\ forall now', get_current_batch now' backend db' = (Ok id, db').
Proof.
  intros Hids Hone. destruct (current_dec backend db) as [(id & b & Hb & Hc)|Hn].
  - exists id, b, db. split_and!; try done; [by apply (get_current_batch_found now _ _ _ b)| |].
    + intros Hz. congruence.
    + intros now'. by apply (get_current_batch_found now' _ _ _ b).
  - destruct (new_batch_spec now backend db Hids Hone Hn)
      as (id & db' & E & Hfr & Hb & Ho & Hids' & Hone').
    exists id, (batch_new backend now), db'.
    assert (Hl : batches db' !! id = Some (batch_new backend now))
      by (by rewrite Hb, lookup_insert_eq).
    assert (Hc : current_of backend (batch_new backend now) = true).
    { unfold current_of. simpl. by rewrite (bool_decide_eq_true_2 (backend = backend)). }
    split_and!; try done.
    + by rewrite get_current_batch_missing.
    + intros i x Hi. rewrite Hb, lookup_insert_ne; [done|]. congruence.
    + intros now'. by apply (get_current_batch_found now' _ _ _ (batch_new backend now)).
Qed.

(** ** Locks and fulfillments *)

(** The first lock recorded for a request stays; a second one is refused. *)
Lemma set_request_locked_spec request_id locker block db :
  match locked_requests db !! request_key request_id with
  | Some _ => set_request_locked request_id locker block db = (Err SqlUniqueViolation, db)
  | None =>
      exists db', set_request_locked request_id locker block db = (Ok tt, db')
        /\ get_request_locked request_id db' = (Ok (Some (locker, block)), db')
        /\ is_request_locked request_id db' = (Ok true, db')
        /\ orders db' = orders db
  end.
Proof.
  unfold set_request_locked, get_request_locked, is_request_locked.
  destruct (locked_requests db !! _) eqn:E; [done|]. eexists. split; [done|]. simpl.
  by rewrite lookup_insert_eq.
Qed.

(** An order that is being batched is never reported as expired, although it
    is one of the committed orders. *)
Lemma expired_orders_skip_batching `{Externals} `{SqlEngine} now grace db os o :
  get_expired_committed_orders now grace db = (Ok os, db) -> o ∈ os -> status o <> Batching.
Proof.
  unfold get_expired_committed_orders. intros [= <-] Hin.
  apply list_elem_of_fmap in Hin as ([id x] & -> & Hin).
  apply select_orders_spec in Hin as [_ Hs]. apply andb_prop in Hs as [Hs _].
  unfold has_status in Hs. simpl. intros Hb. by rewrite Hb in Hs.
Qed.

(** ** The interface the lockers rely on

    The operations of the trait [BrokerDb] that a locker calls, over any world
    that holds a database, and what they promise about the rows: an accepted
    request is stored under its identifier, a refused one and the queries
    change nothing. *)

Class BrokerDb (W : Type) := {
  db_insert_accepted_request : OrderRequest -> Z -> ste W DbError Order;
  db_get_committed_orders : ste W DbError (list Order);
  db_is_request_locked : Z -> ste W DbError bool;
  db_get_request_locked : Z -> ste W DbError (option (string * Z));
  db_is_request_fulfilled : Z -> ste W DbError bool
}.

Class BrokerDbLaws (W : Type) `{Externals} `{BrokerDb W} := {
  db_rows : W -> gmap string Order;
  db_insert_law r price w res w' :
    db_insert_accepted_request r price w = (res, w') ->
    match res with
    | Ok o => db_rows w !! order_id r = None
              /\ db_rows w' = <[order_id r := o]> (db_rows w)
              /\ status o = PendingProving /\ lock_price o = Some price
    | _ => db_rows w' = db_rows w
    end;
  db_committed_law w : db_rows (snd (db_get_committed_orders w)) = db_rows w;
  db_is_locked_law i w : db_rows (snd (db_is_request_locked i w)) = db_rows w;
  db_get_locked_law i w : db_rows (snd (db_get_request_locked i w)) = db_rows w;
  db_is_fulfilled_law i w : db_rows (snd (db_is_request_fulfilled i w)) = db_rows w
}.

(** The SQLite database, with a clock that stands still. *)
Definition sqlite_broker_db `{Externals} `{SqlEngine} (now : Z) : BrokerDb Db := {|
  db_insert_accepted_request := insert_accepted_request now;
  db_get_committed_orders := get_committed_orders;
  db_is_request_locked := is_request_locked;
  db_get_request_locked := get_request_locked;
  db_is_request_fulfilled := is_request_fulfilled
|}.

(** The SQLite implementation keeps the promises of the interface. *)
Definition sqlite_broker_db_laws `{Externals} `{SqlEngine} now :
  @BrokerDbLaws Db _ (sqlite_broker_db now).
Proof.
  refine {| db_rows := orders |}; try done.
  intros r price w res w'. simpl. unfold insert_accepted_request, insert_accepted_order.
  unfold mbind, ste_bind. rewrite db_order_id_request.
  destruct (orders w !! order_id r) eqn:E; intros [= <- <-]; simpl; done.
Defined.

(** ** Witnesses *)

Definition toy_engine : SqlEngine := {|
  scan_orders := map_to_list;
  scan_orders_perm := fun m => reflexivity _;
  scan_batches := map_to_list;
  scan_batches_perm := fun m => reflexivity _
|}.

Definition run_db {A} (m : ste Db DbError A) (db : Db) : Db := snd (m db).

Definition toy_id : string := @order_id toy_externals (toy_order LockAndFulfill).
Definition toy_id2 : string := @order_id toy_externals (toy_order FulfillAfterLockExpire).

(** Two accepted orders. *)
Definition toy_db : Db :=
  run_db (@insert_accepted_request toy_externals 960 (toy_order FulfillAfterLockExpire) 0)
    (run_db (@insert_accepted_request toy_externals 950 (toy_order LockAndFulfill) 620) db_empty).

(** The checks of [db_ok], evaluated row by row. *)
Definition row_okb `{Externals} (row : string * Order) : bool :=
  match db_order_id row.2 with
  | Ok id => bool_decide (id = row.1) && bool_decide (is_Some (lock_price row.2))
  | _ => false
  end.

Lemma db_ok_of_rows `{Externals} db :
  forallb row_okb (map_to_list (orders db)) = true -> db_ok db.
Proof.
  intros Hf id o Ho%elem_of_map_to_list%list_elem_of_In.
  rewrite forallb_forall in Hf. apply Hf in Ho. unfold row_okb in Ho. cbn [fst snd] in Ho.
  unfold row_ok. destruct (db_order_id o) as [i|e|]; try discriminate Ho.
  apply andb_prop in Ho as [E1 E2]. apply bool_decide_eq_true in E1, E2. by rewrite E1.
Qed.

Lemma toy_db_ok : @db_ok toy_externals toy_db.
Proof. apply db_ok_of_rows. vm_compute. reflexivity. Qed.

Lemma insert_accepted_request_spec_witness :
  insert_accepted_request (H := toy_externals) 970 (toy_order LockAndFulfill) 1 toy_db
  = (Err (DuplicateOrderId toy_id), toy_db).
Proof.
  pose proof (@insert_accepted_request_spec toy_externals toy_engine 970
    (toy_order LockAndFulfill) 1 toy_db) as Hs.
  fold toy_id in Hs. destruct (orders toy_db !! toy_id) as [o|] eqn:E.
  - exact Hs.
  - vm_compute in E. discriminate E.
Defined.

Lemma proving_orders_taken_once_witness :
  exists os db' (ids : list string), @take_proving toy_engine [970; 971] toy_db = (os, db')
    /\ NoDup ids /\ pending db' = ∅.
Proof.
  destruct (@proving_orders_taken_once toy_externals toy_engine [970; 971] toy_db toy_db_ok
    ltac:(vm_compute; reflexivity)) as (os & db' & ids & E & _ & Hn & _ & Hp & _).
  exact (ex_intro _ os (ex_intro _ db' (ex_intro _ ids (conj E (conj Hn Hp))))).
Defined.

(** The first order proved and ready for the batch of backend "b". *)
Definition ready_db : Db := run_db (set_order_batch_status 980 toy_id ReadyForBatch "b") toy_db.

Lemma claim_orders_spec_witness :
  exists claimed db', @claim_orders_for_batch toy_engine 990 [toy_id; toy_id2] "b" ready_db
    = (Ok claimed, db') /\ NoDup claimed /\ toy_id ∈ claimed.
Proof.
  destruct (@claim_orders_spec toy_externals toy_engine 990 [toy_id; toy_id2] "b" ready_db)
    as (claimed & db' & E & Hn & Hin & _).
  exists claimed, db'. split; [exact E|]. split; [exact Hn|].
  apply Hin. split; [left|]. eexists. split; [vm_compute; reflexivity|]. split; [by left|done].
Defined.

Definition batch_db : Db := run_db (@get_current_batch toy_engine 985 "b") ready_db.

Lemma update_batch_atomic_witness :
  exists db', update_batch 995 1 [] [mkReady toy_id 1090 620 LockAndFulfill 3 1060 0] true batch_db
    = (Ok tt, db').
Proof.
  pose proof (@update_batch_atomic toy_externals toy_engine 995 1 []
    [mkReady toy_id 1090 620 LockAndFulfill 3 1060 0] true batch_db) as Hs.
  destruct (batches batch_db !! 1) as [b|] eqn:E; [|vm_compute in E; discriminate E].
  destruct (proj1 Hs) as (db' & E' & _).
  - constructor; [|constructor]. eexists. vm_compute. reflexivity.
  - exact (ex_intro _ db' E').
Defined.

Lemma current_batch_unique_witness :
  exists id b db', @get_current_batch toy_engine 985 "b" db_empty = (Ok id, db')
    /\ batches db' !! id = Some b /\ current_of "b" b = true.
Proof.
  destruct (@current_batch_unique toy_externals toy_engine 985 "b" db_empty)
    as (id & b & db' & E & Hb & Hc & _).
  - split; [done|]. intros id [b Hb]. discriminate Hb.
  - intros backend i j bi bj Hi. discriminate Hi.
  - exact (ex_intro _ id (ex_intro _ b (ex_intro _ db' (conj E (conj Hb Hc))))).
Defined.
