(* ===== verification/Prioritization.v ===== *)
(** * Prioritization: which orders come first

    [crates/broker/src/shared/prioritization.rs]: orders are grouped into
    tiers by the priority level of their requestor, sorted within a tier by the
    configured mode, and the first ones are taken.

    Each call of [sort_by_mode] reads the clock and draws from a random number
    generator; [Entropy] holds what one call reads: the time, the factor drawn
    for the [i]-th order, and a shuffle.  An [i32] level is a [Z]. *)

From S2P Require Import Prelude Market Auction OrderPricing.

Local Open Scope Z_scope.

Definition DEFAULT_PRIORITY_LEVEL : Z := 50.

Inductive UnifiedPriorityMode :=
| ModeRandom
| ModeTimeOrdered
| ModeShortestExpiry
| ModePrice
| ModeCyclePrice
| ModeTightestDeadline (peak_prove_khz : Z).

Inductive OrderPricingPriority := PricingRandom | ObservationTime | PricingShortestExpiry.

Definition mode_of_pricing (mode : OrderPricingPriority) : UnifiedPriorityMode :=
  match mode with
  | PricingRandom => ModeRandom
  | ObservationTime => ModeTimeOrdered
  | PricingShortestExpiry => ModeShortestExpiry
  end.

Inductive OrderCommitmentPriority :=
| CommitRandom
| CommitShortestExpiry
| CommitPrice
| CommitCyclePrice
| CommitTightestDeadline.

Definition from_commitment_priority (priority : OrderCommitmentPriority)
    (peak_prove_khz : option Z) : UnifiedPriorityMode :=
  match priority with
  | CommitRandom => ModeRandom
  | CommitShortestExpiry => ModeShortestExpiry
  | CommitPrice => ModePrice
  | CommitCyclePrice => ModeCyclePrice
  | CommitTightestDeadline =>
      match peak_prove_khz with
      | Some peak_prove_khz => ModeTightestDeadline peak_prove_khz
      | None => ModeShortestExpiry
      end
  end.

(** What one call of [sort_by_mode] reads. *)
Record Entropy := mkEntropy {
  clock : Z;
  factor : nat -> Z;
  shuffle : list OrderRequest -> list OrderRequest
}.

(** [random_range(200..=1000)], and [shuffle] permutes. *)
Record entropy_ok (e : Entropy) : Prop := mk_entropy_ok {
  factor_range i : 200 <= factor e i <= 1000;
  shuffle_perm l : shuffle e l ≡ₚ l
}.

(** [x.unwrap_or_default()] on a [Result<U256, _>]. *)
Definition or_zero {E} (r : result E Z) : Z := match r with Ok a => a | _ => 0 end.

Definition total_reward_amount (o : OrderRequest) (now drawn : Z) : Z :=
  if bool_decide (fulfillment_type o = FulfillAfterLockExpire) then
    let expected := default 0 (expected_reward_eth o) in
    wmul 256 expected drawn / 1000
  else or_zero (price_at (offer (request o)) now).

(** The sort key of the [i]-th order; a [Reverse] key is negated. *)
Definition sort_key (mode : UnifiedPriorityMode) (e : Entropy) (i : nat) (o : OrderRequest)
    : result unit Z :=
  match mode with
  | ModeRandom | ModeTimeOrdered => Ok 0
  | ModeShortestExpiry => Ok (expiry o)
  | ModePrice => Ok (- total_reward_amount o (clock e) (factor e i))
  | ModeCyclePrice =>
      let amount := total_reward_amount o (clock e) (factor e i) in
      Ok (- match total_cycles o with
            | Some cycles => if cycles =? 0 then 0 else amount / cycles
            | None => 0
            end)
  | ModeTightestDeadline peak_prove_khz =>
      let time_remaining := sat_sub (expiry o) (clock e) in
      estimated_prove_time ←
        match total_cycles o with
        | Some cycles => checked_div_ceil (div_ceil cycles 1000) peak_prove_khz
        | None => Ok 0
        end;
      mret (sat_sub time_remaining estimated_prove_time)
  end.

(** Pair each order with its key, computed once, in order. *)
Definition keyed (mode : UnifiedPriorityMode) (e : Entropy) (orders : list OrderRequest)
    : result unit (list (Z * OrderRequest)) :=
  collect (fun io => k ← sort_key mode e io.1 io.2; mret (k, io.2))
    (imap pair orders).

Definition sort_by_mode (mode : UnifiedPriorityMode) (e : Entropy) (orders : list OrderRequest)
    : result unit (list OrderRequest) :=
  match mode with
  | ModeRandom => Ok (shuffle e orders)
  | ModeTimeOrdered => Ok orders
  | _ => l ← keyed mode e orders; mret (stable_sort fst l).*2
  end.

Definition level_of (levels : gmap Z Z) (o : OrderRequest) : option Z :=
  levels !! client_address (request o).

(** The keys of the tier map, highest level first. *)
Definition tier_levels (levels : gmap Z Z) (orders : list OrderRequest) : list Z :=
  stable_sort Z.opp (remove_dups (omap (level_of levels) orders)).

Fixpoint sort_tiers (mode : UnifiedPriorityMode) (env : nat -> Entropy) (k : nat)
    (levels : gmap Z Z) (orders : list OrderRequest) (ls : list Z)
    : result unit (list OrderRequest) :=
  match ls with
  | [] => Ok []
  | l :: ls =>
      tier ← sort_by_mode mode (env k) (filter (fun o => level_of levels o = Some l) orders);
      rest ← sort_tiers mode env (S k) levels orders ls;
      mret (tier ++ rest)
  end.

(** [env k] is what the [k]-th call of [sort_by_mode] reads. *)
Definition sort_orders_by_priority_and_mode (orders : list OrderRequest)
    (priority_levels : option (gmap Z Z)) (mode : UnifiedPriorityMode) (env : nat -> Entropy)
    : result unit (list OrderRequest) :=
  match priority_levels with
  | Some levels =>
      if bool_decide (levels = ∅) then sort_by_mode mode (env 0%nat) orders else
      let regular_orders := filter (fun o => level_of levels o = None) orders in
      regular_orders ← sort_by_mode mode (env 0%nat) regular_orders;
      prioritized ← sort_tiers mode env 1 levels orders (tier_levels levels orders);
      mret (prioritized ++ regular_orders)
  | None => sort_by_mode mode (env 0%nat) orders
  end.

(** Both return the chosen orders and the ones left in the queue. *)
Definition prioritize_orders_to_evaluate (orders : list OrderRequest)
    (priority_mode : OrderPricingPriority) (priority_levels : option (gmap Z Z))
    (capacity : nat) (env : nat -> Entropy)
    : result unit (list OrderRequest * list OrderRequest) :=
  if bool_decide (orders = []) || bool_decide (capacity = 0%nat) then Ok ([], orders) else
  sorted ← sort_orders_by_priority_and_mode orders priority_levels
             (mode_of_pricing priority_mode) env;
  let take_count := Nat.min capacity (length sorted) in
  mret (take take_count sorted, drop take_count sorted).

Definition prioritize_orders_to_commit (orders : list OrderRequest)
    (priority_mode : OrderCommitmentPriority) (priority_levels : option (gmap Z Z))
    (capacity : nat) (peak_prove_khz : option Z) (env : nat -> Entropy)
    : result unit (list OrderRequest * list OrderRequest) :=
  if bool_decide (orders = []) || bool_decide (capacity = 0%nat) then Ok ([], orders) else
  let mode := from_commitment_priority priority_mode peak_prove_khz in
  sorted ← sort_orders_by_priority_and_mode orders priority_levels mode env;
  let take_count := Nat.min capacity (length sorted) in
  mret (take take_count sorted, drop take_count sorted).

(** ** Sorting permutes *)

Lemma keyed_snd mode e orders kl : keyed mode e orders = Ok kl -> kl.*2 = orders.
Proof.
  unfold keyed.
  assert (Hgen : forall ios kl',
    collect (fun io => k ← sort_key mode e io.1 io.2; mret (k, io.2)) ios = Ok kl' ->
    kl'.*2 = ios.*2).
  { induction ios as [|[i o] ios IH]; simpl; intros kl' Hc; [by injection Hc as <-|].
    destruct (sort_key mode e i o) as [k|u|]; [|done..]. simpl in Hc.
    apply result_bind_Ok in Hc as (bs & E & [= <-]). rewrite !fmap_cons. by rewrite (IH bs E). }
  intros Hc%Hgen. rewrite Hc. clear. rewrite fmap_imap.
  etrans; [exact (imap_const id orders)|]. apply list_fmap_id.
Qed.

(** A run of [keyed] computes the key of every order. *)
Lemma keyed_keys mode e orders kl :
  keyed mode e orders = Ok kl -> Forall (fun ko => exists i, sort_key mode e i ko.2 = Ok ko.1) kl.
Proof.
  unfold keyed. generalize (imap pair orders). intros ios. revert kl.
  induction ios as [|[i o] ios IH]; simpl; intros kl Hc; [by injection Hc as <-|].
  destruct (sort_key mode e i o) as [k|u|] eqn:Ek; [|done..]. simpl in Hc.
  apply result_bind_Ok in Hc as (bs & E & [= <-]). constructor; [by exists i|]. by apply IH.
Qed.

Lemma sort_by_mode_perm mode e l l' :
  entropy_ok e -> sort_by_mode mode e l = Ok l' -> l' ≡ₚ l.
Proof.
  intros He. unfold sort_by_mode.
  assert (Hk : forall m, (kl ← keyed m e l; mret (stable_sort fst kl).*2) = Ok l' -> l' ≡ₚ l).
  { intros m Hr. apply result_bind_Ok in Hr as (kl & E & [= <-]).
    rewrite stable_sort_perm. by rewrite (keyed_snd _ _ _ _ E). }
  destruct mode; try apply Hk.
  - intros [= <-]. by apply shuffle_perm.
  - by intros [= <-].
Qed.

(** ** Tiers *)

(** [a] may come before [b]: its tier is higher, or it is the same one and the
    mode agrees. *)
Definition rank_before (levels : gmap Z Z) (S : OrderRequest -> OrderRequest -> Prop)
    (a b : OrderRequest) : Prop :=
  match level_of levels a, level_of levels b with
  | Some x, Some y => y < x \/ (x = y /\ S a b)
  | Some _, None => True
  | None, None => S a b
  | None, Some _ => False
  end.

Lemma filter_or_perm {A} (P Q : A -> Prop) `{!forall x, Decision (P x), !forall x, Decision (Q x)}
    (l : list A) :
  (forall x, P x -> Q x -> False) ->
  filter (fun x => P x \/ Q x) l ≡ₚ filter P l ++ filter Q l.
Proof.
  intros Hd. induction l as [|x l IH]; [done|].
  destruct (decide (P x)) as [HP|HP], (decide (Q x)) as [HQ|HQ].
  - by destruct (Hd x).
  - rewrite (filter_cons_True (fun x => P x \/ Q x)), (filter_cons_True P), (filter_cons_False Q)
      by tauto. simpl. by rewrite IH.
  - rewrite (filter_cons_True (fun x => P x \/ Q x)), (filter_cons_False P), (filter_cons_True Q)
      by tauto. rewrite IH. by rewrite Permutation_middle.
  - by rewrite (filter_cons_False (fun x => P x \/ Q x)), (filter_cons_False P),
      (filter_cons_False Q) by tauto.
Qed.

(** The order belongs to one of the tiers. *)
Definition tier_in (levels : gmap Z Z) (ls : list Z) (o : OrderRequest) : Prop :=
  match level_of levels o with Some x => x ∈ ls | None => False end.

#[export] Instance tier_in_dec levels ls o : Decision (tier_in levels ls o).
Proof. unfold tier_in. destruct (level_of levels o); apply _. Defined.

Section Tiers.
Context (mode : UnifiedPriorityMode) (env : nat -> Entropy).
Context (Henv : forall k, entropy_ok (env k)).
Context (levels : gmap Z Z).

Lemma sort_tiers_perm k orders ls l' :
  NoDup ls -> sort_tiers mode env k levels orders ls = Ok l' ->
  l' ≡ₚ filter (tier_in levels ls) orders.
Proof.
  revert k l'. induction ls as [|x ls IH]; intros k l' Hn Hr; simpl in Hr.
  - injection Hr as <-. clear. induction orders as [|o os IHo]; [done|].
    rewrite filter_cons_False; [done|]. unfold tier_in. destruct (level_of levels o); set_solver.
  - apply result_bind_Ok in Hr as (tier & Et & Hr). apply result_bind_Ok in Hr as (rest & Er & [= <-]).
    apply NoDup_cons in Hn as [Hx Hn].
    rewrite (sort_by_mode_perm _ _ _ _ (Henv k) Et), (IH _ _ Hn Er).
    rewrite <- filter_or_perm.
    + erewrite list_filter_iff; [done|]. intros o. unfold tier_in.
      destruct (level_of levels o); set_solver.
    + intros o E Ht. unfold tier_in in Ht. by rewrite E in Ht.
Qed.

Context (S : OrderRequest -> OrderRequest -> Prop).
Context (HS : forall k l l', sort_by_mode mode (env k) l = Ok l' -> StronglySorted S l').

Lemma same_tier_sorted l x :
  StronglySorted S l -> Forall (fun o => level_of levels o = x) l ->
  StronglySorted (rank_before levels S) l.
Proof.
  induction 1 as [|o l Hs IH Ho]; intros Hf; [constructor|].
  apply Forall_cons in Hf as [Hx Hf]. constructor; [by apply IH|].
  rewrite Forall_forall in *. intros b Hb. unfold rank_before. rewrite Hx, (Hf b Hb).
  destruct x; [right; split; [done|]|]; by apply Ho.
Qed.

Lemma sort_tiers_sorted k orders ls l' :
  StronglySorted Z.gt ls -> sort_tiers mode env k levels orders ls = Ok l' ->
  StronglySorted (rank_before levels S) l'.
Proof.
  revert k l'. induction ls as [|x ls IH]; intros k l' Hg Hr; simpl in Hr.
  - injection Hr as <-. constructor.
  - apply result_bind_Ok in Hr as (tier & Et & Hr). apply result_bind_Ok in Hr as (rest & Er & [= <-]).
    inversion Hg as [|? ? Hg' Hx]; subst.
    pose proof (sort_by_mode_perm _ _ _ _ (Henv k) Et) as Ht.
    assert (Hn : NoDup ls).
    { clear -Hg'. induction Hg' as [|y ls _ IH Hy]; constructor; [|done]. intros Hin.
      rewrite Forall_forall in Hy. apply Hy in Hin. lia. }
    pose proof (sort_tiers_perm _ _ _ _ Hn Er) as Hrest.
    assert (Htier : Forall (fun o => level_of levels o = Some x) tier).
    { rewrite Ht. apply Forall_forall. intros o. rewrite list_elem_of_filter. by intros [? _]. }
    apply StronglySorted_app_2; [|by eapply same_tier_sorted; [by eapply HS|]|by eapply IH].
    intros a b Ha Hb. rewrite Forall_forall in Htier. unfold rank_before.
    rewrite (Htier a Ha). rewrite Hrest, list_elem_of_filter in Hb.
    destruct Hb as [Hb _]. unfold tier_in in Hb. destruct (level_of levels b) as [y|]; [|done].
    left. rewrite Forall_forall in Hx. apply Hx in Hb. lia.
Qed.

End Tiers.

(** ** Priorities *)

Lemma tier_levels_sorted levels orders : StronglySorted Z.gt (tier_levels levels orders).
Proof.
  unfold tier_levels. pose proof (stable_sort_sorted Z.opp
    (remove_dups (omap (level_of levels) orders))) as Hs.
  assert (Hn : NoDup (stable_sort Z.opp (remove_dups (omap (level_of levels) orders)))).
  { rewrite stable_sort_perm. apply NoDup_remove_dups. }
  induction Hs as [|x l Hs IH Hx]; constructor; apply NoDup_cons in Hn as [Hin Hn]; [by apply IH|].
  rewrite Forall_forall in *. intros y Hy. specialize (Hx y Hy).
  assert (x <> y) by (by intros ->). lia.
Qed.

Lemma tier_levels_all levels orders o x :
  o ∈ orders -> level_of levels o = Some x -> x ∈ tier_levels levels orders.
Proof.
  intros Ho Hx. unfold tier_levels. rewrite stable_sort_perm, elem_of_remove_dups.
  apply list_elem_of_omap. by exists o.
Qed.

Lemma tier_levels_NoDup levels orders : NoDup (tier_levels levels orders).
Proof. unfold tier_levels. rewrite stable_sort_perm. apply NoDup_remove_dups. Qed.

Lemma sort_orders_perm orders pl mode env l' :
  (forall k, entropy_ok (env k)) ->
  sort_orders_by_priority_and_mode orders pl mode env = Ok l' -> l' ≡ₚ orders.
Proof.
  intros He. unfold sort_orders_by_priority_and_mode.
  destruct pl as [levels|]; [|by intros Hs; eapply sort_by_mode_perm].
  case_bool_decide; [by intros Hs; eapply sort_by_mode_perm|]. intros Hr.
  apply result_bind_Ok in Hr as (reg & Er & Hr). apply result_bind_Ok in Hr as (pri & Ep & [= <-]).
  rewrite (sort_by_mode_perm _ _ _ _ (He _) Er).
  rewrite (sort_tiers_perm _ _ He _ _ _ _ _ (tier_levels_NoDup _ _) Ep).
  rewrite <- filter_or_perm.
  - assert (Hall : Forall (fun o => tier_in levels (tier_levels levels orders) o
      \/ level_of levels o = None) orders).
    { apply Forall_forall. intros o Ho. unfold tier_in.
      destruct (level_of levels o) as [x|] eqn:E; [left|by right].
      by eapply tier_levels_all. }
    clear -Hall. revert Hall. generalize (tier_levels levels orders). intros ls Hall.
    induction Hall as [|o os Ho _ IH]; [done|]. rewrite filter_cons_True by done. by rewrite IH.
  - intros o Ht E. unfold tier_in in Ht. by rewrite E in Ht.
Qed.

(** What a sort by a mode orders: the key of [ModeShortestExpiry] depends on
    the order alone. *)
Definition mode_order (mode : UnifiedPriorityMode) (a b : OrderRequest) : Prop :=
  match mode with ModeShortestExpiry => expiry a <= expiry b | _ => True end.

Lemma StronglySorted_True {A} (l : list A) : StronglySorted (fun _ _ => True) l.
Proof. induction l; constructor; [done|]. by apply Forall_true. Qed.

Lemma sort_by_mode_sorted mode e l l' :
  sort_by_mode mode e l = Ok l' -> StronglySorted (mode_order mode) l'.
Proof.
  destruct mode; try (intros _; apply StronglySorted_True). unfold sort_by_mode. intros Hr.
  apply result_bind_Ok in Hr as (kl & E & [= <-]).
  pose proof (keyed_keys _ _ _ _ E) as Hk. rewrite <- (stable_sort_perm fst kl) in Hk.
  pose proof (stable_sort_sorted fst kl) as Hs.
  induction Hs as [|[k o] sl Hs IH Hle]; [constructor|].
  apply Forall_cons in Hk as [[i [= Hi]] Hk]. rewrite fmap_cons. constructor; [by apply IH|].
  rewrite Forall_fmap. rewrite Forall_forall in *. intros [k' o'] Hin.
  destruct (Hk _ Hin) as [i' [= Hi']]. specialize (Hle _ Hin). simpl in *. lia.
Qed.

Lemma sort_orders_sorted orders levels mode env l' :
  (forall k, entropy_ok (env k)) ->
  sort_orders_by_priority_and_mode orders (Some levels) mode env = Ok l' ->
  StronglySorted (rank_before levels (mode_order mode)) l'.
Proof.
  intros He. unfold sort_orders_by_priority_and_mode. case_bool_decide as Hz.
  - intros Hr. eapply (same_tier_sorted _ _ _ None); [by eapply sort_by_mode_sorted|].
    apply Forall_true. intros o. unfold level_of. by rewrite Hz, lookup_empty.
  - intros Hr. apply result_bind_Ok in Hr as (reg & Er & Hr).
    apply result_bind_Ok in Hr as (pri & Ep & [= <-]).
    assert (Hreg : Forall (fun o => level_of levels o = None) reg).
    { rewrite (sort_by_mode_perm _ _ _ _ (He _) Er). apply Forall_forall. intros o.
      rewrite list_elem_of_filter. by intros [? _]. }
    apply StronglySorted_app_2.
    + intros a b Ha Hb. rewrite Forall_forall in Hreg. unfold rank_before. rewrite (Hreg b Hb).
      rewrite (sort_tiers_perm _ _ He _ _ _ _ _ (tier_levels_NoDup _ _) Ep), list_elem_of_filter
        in Ha. destruct Ha as [Ha _]. unfold tier_in in Ha. by destruct (level_of levels a).
    + eapply sort_tiers_sorted; [done| |apply tier_levels_sorted|done].
      intros k l l2. apply sort_by_mode_sorted.
    + eapply same_tier_sorted; [by eapply sort_by_mode_sorted|done].
Qed.

(** Selecting orders to commit neither loses nor duplicates an order: the
    selected ones and the ones left behind are the given ones, and as many are
    selected as capacity and supply allow.  No selected order is preceded by
    one of lower priority, and none is outranked by one left behind: a
    requestor with a higher level comes first whatever the mode, requestors
    without a level come last, and with the shortest-expiry mode orders of the
    same level are in order of expiry. *)
Theorem prioritize_to_commit_spec orders priority levels capacity khz env sel rest :
  (forall k, entropy_ok (env k)) -> orders <> [] -> capacity <> 0%nat ->
  prioritize_orders_to_commit orders priority (Some levels) capacity khz env = Ok (sel, rest) ->
  sel ++ rest ≡ₚ orders
  /\ length sel = Nat.min capacity (length orders)
  /\ StronglySorted (rank_before levels (mode_order (from_commitment_priority priority khz)))
       (sel ++ rest).
Proof.
  intros He Ho Hc. unfold prioritize_orders_to_commit.
  rewrite !bool_decide_eq_false_2 by done. cbn [orb]. intros Hr.
  apply result_bind_Ok in Hr as (sorted & E & [= <- <-]).
  rewrite take_drop. pose proof (sort_orders_perm _ _ _ _ _ He E) as Hp.
  split_and!; [done| |by eapply sort_orders_sorted].
  rewrite length_take, Hp. lia.
Qed.

(** ** Witness *)

Definition toy_entropy (k : nat) : Entropy := mkEntropy 950 (fun _ => 500) (fun l => l).

Lemma toy_entropy_ok k : entropy_ok (toy_entropy k).
Proof. by split. Qed.

Definition order_from (client : Z) (start : Z) : OrderRequest :=
  order_request_new
    (mkProofRequest (RequestId.u256 client 1)
       (requirements_new (mkRequestPredicate PtPrefixMatch []))
       "https://host/image" (mkRequestInput InputInline [])
       (mkOffer 100 1100 start 50 60 90 20000)) [] LockAndFulfill 1 1 900.

Lemma prioritize_to_commit_spec_witness :
  exists sel rest,
    prioritize_orders_to_commit [order_from 7 1000; order_from 8 1002; order_from 9 1001]
      CommitShortestExpiry (Some {[ 8 := 90 ]}) 2 None toy_entropy = Ok (sel, rest)
    /\ (fun o => client_address (request o)) <$> sel = [8; 7]
    /\ sel ++ rest ≡ₚ [order_from 7 1000; order_from 8 1002; order_from 9 1001].
Proof.
  do 2 eexists. split; [vm_compute; reflexivity|]. split; [vm_compute; reflexivity|].
  apply (prioritize_to_commit_spec _ CommitShortestExpiry {[ 8 := 90 ]} 2 None toy_entropy _ _
    toy_entropy_ok); [done|done|vm_compute; reflexivity].
Defined.
