(* ===== verification/Requestors.v ===== *)
(** * Requestors: lists of prioritized and allowed requestors

    [crates/requestor-lists/src/lib.rs], the schema of a list and its
    validation, and [crates/broker/src/requestor_monitor]: the caches that the
    pricer, the evaluator and the committer query, and the monitor that fills
    them from the configured URLs.

    A cache is the map of its entries with the flag of a poisoned lock, which
    makes reads and writes of the source fall through.  The class
    [ListFetcher] holds the HTTP client and the JSON parser. *)

From S2P Require Import Prelude Prioritization.

Local Open Scope Z_scope.

(** ** Lists *)

Definition MIN_PRIORITY : Z := 0.
Definition MAX_PRIORITY : Z := 100.

Record Version := mkVersion { major : Z; minor : Z }.
Definition CURRENT_SCHEMA_VERSION : Version := mkVersion 1 0.

Inductive ValidationError :=
| InvalidSchemaVersion (expected actual : Version)
| PriorityOutOfRange (level : Z)
| DuplicateAddress (address : Z)
| InvalidMcycleRange (min max : Z)
| EmptyName
| FetchError (e : string)
| ParseError (e : string).

Record PriorityExtension := mkPriority { level : Z }.

(** The size estimate is a float, kept as its bits. *)
Record RequestEstimatesExtension := mkEstimates {
  estimated_mcycle_count_min : Z;
  estimated_mcycle_count_max : Z;
  estimated_max_input_size_mb_bits : Z
}.

Record DenylistExtension := mkDenylist { reason : option string; blocked_since : option string }.

Record Extensions := mkExtensions {
  priority : option PriorityExtension;
  request_estimates : option RequestEstimatesExtension;
  denylist : option DenylistExtension
}.

Definition extensions_default : Extensions := mkExtensions None None None.

Record RequestorEntry := mkEntry {
  address : Z;
  entry_chain_id : Z;
  name : string;
  description : option string;
  tags : list string;
  extensions : Extensions
}.

Record RequestorList := mkList {
  list_name : string;
  list_description : string;
  schema_version : Version;
  version : Version;
  requestors : list RequestorEntry
}.

(** [trim().is_empty()] on UTF-8: only characters with the property
    [White_Space]. *)
Definition in_range (lo hi n : nat) : bool := (lo <=? n)%nat && (n <=? hi)%nat.

Fixpoint blank (s : list nat) : bool :=
  match s with
  | [] => true
  | 194%nat :: b :: s' => ((b =? 133) || (b =? 160))%nat && blank s'
  | 225%nat :: 154%nat :: 128%nat :: s' => blank s'
  | 226%nat :: 128%nat :: b :: s' =>
      (in_range 128 138 b || (b =? 168)%nat || (b =? 169)%nat || (b =? 175)%nat) && blank s'
  | 226%nat :: 129%nat :: 159%nat :: s' => blank s'
  | 227%nat :: 128%nat :: 128%nat :: s' => blank s'
  | b :: s' => (in_range 9 13 b || (b =? 32)%nat) && blank s'
  end.

Definition name_empty (s : string) : bool :=
  blank (Ascii.nat_of_ascii <$> String.list_ascii_of_string s).

Definition validate_entry (e : RequestorEntry) : result ValidationError unit :=
  if name_empty (name e) then Err EmptyName else
  _ ← match priority (extensions e) with
      | Some p =>
          if (level p <? MIN_PRIORITY) || (MAX_PRIORITY <? level p)
          then Err (PriorityOutOfRange (level p)) else Ok tt
      | None => Ok tt
      end;
  match request_estimates (extensions e) with
  | Some est =>
      if estimated_mcycle_count_max est <? estimated_mcycle_count_min est
      then Err (InvalidMcycleRange (estimated_mcycle_count_min est) (estimated_mcycle_count_max est))
      else Ok tt
  | None => Ok tt
  end.

Fixpoint validate_entries (seen_entries : gset (Z * Z)) (entries : list RequestorEntry)
    : result ValidationError unit :=
  match entries with
  | [] => Ok tt
  | e :: entries =>
      if bool_decide ((address e, entry_chain_id e) ∈ seen_entries)
      then Err (DuplicateAddress (address e)) else
      _ ← validate_entry e;
      validate_entries ({[(address e, entry_chain_id e)]} ∪ seen_entries) entries
  end.

Definition validate (self : RequestorList) : result ValidationError unit :=
  if negb (major (schema_version self) =? major CURRENT_SCHEMA_VERSION)
  then Err (InvalidSchemaVersion CURRENT_SCHEMA_VERSION (schema_version self))
  else validate_entries ∅ (requestors self).

Class ListFetcher (W : Type) := {
  http_get : string -> ste W string string;
  parse_list : string -> result string RequestorList
}.

Definition from_json {W} `{ListFetcher W} (json : string) : result ValidationError RequestorList :=
  l ← map_err ParseError (parse_list json);
  _ ← validate l;
  mret l.

Definition fetch_from_url {W} `{ListFetcher W} (url : string)
    : ste W ValidationError RequestorList :=
  json ← with_err FetchError (http_get url);
  liftr (from_json json).

(** ** The caches *)

Record CachedEntry := mkCached { entry : RequestorEntry; source_url : string }.

(** [PriorityRequestors] and [AllowRequestors] are the same structure over
    different fields of the configuration. *)
Record Requestors := mkRequestors {
  cached : gmap Z CachedEntry;
  poisoned : bool;
  rq_chain_id : Z
}.

Definition requestors_new (chain_id : Z) : Requestors := mkRequestors ∅ false chain_id.

Definition static_entry (chain_id : Z) (addr : Z) : RequestorEntry :=
  mkEntry addr chain_id "Static Config Requestor" None ["static"] extensions_default.

(** [static_addresses] is what the configuration lists, without one when its
    lock is poisoned. *)
Definition get_requestor_entry (self : Requestors) (static_addresses : option (option (list Z)))
    (addr : Z) : option RequestorEntry :=
  match (if poisoned self then None else cached self !! addr) with
  | Some c => Some (entry c)
  | None =>
      match mjoin static_addresses with
      | Some l => if bool_decide (addr ∈ l) then Some (static_entry (rq_chain_id self) addr) else None
      | None => None
      end
  end.

(** [is_priority_requestor] and [is_allow_requestor]. *)
Definition is_listed (self : Requestors) (static_addresses : option (option (list Z))) (addr : Z)
    : bool :=
  match get_requestor_entry self static_addresses addr with Some _ => true | None => false end.

Definition dynamic_levels (self : Requestors) : gmap Z Z :=
  if poisoned self then ∅ else
  (fun c => match priority (extensions (entry c)) with
            | Some p => level p
            | None => DEFAULT_PRIORITY_LEVEL
            end) <$> cached self.

Definition with_cached (m : gmap Z CachedEntry) (self : Requestors) : Requestors :=
  mkRequestors m (poisoned self) (rq_chain_id self).

Definition insert_entry (chain_id : Z) (url : string) (m : gmap Z CachedEntry) (e : RequestorEntry)
    : gmap Z CachedEntry :=
  if entry_chain_id e =? chain_id then <[address e := mkCached e url]> m else m.

Definition update_from_list (l : RequestorList) (url : string) (self : Requestors) : Requestors :=
  if poisoned self then self else
  with_cached (foldl (insert_entry (rq_chain_id self) url) (cached self) (requestors l)) self.

Definition clear_from_url (url : string) (self : Requestors) : Requestors :=
  if poisoned self then self else
  with_cached (filter (fun '(_, c) => source_url c <> url) (cached self)) self.

(** ** The monitor *)

Record MonitorState := mkMonitor { priority_requestors : Requestors; allow_requestors : Requestors }.

Record ListUrls := mkUrls {
  priority_requestor_lists : option (list string);
  allow_requestor_lists : option (list string)
}.

Inductive MonitorError := LockFailed.

Section Monitor.
Context {W : Type} `{ListFetcher W}.

(** The loop over the URLs; a list that cannot be fetched changes nothing. *)
Fixpoint refresh_from (urls : list string) (self : Requestors) : ste W MonitorError Requestors :=
  match urls with
  | [] => mret self
  | url :: urls =>
      r ← catch (fetch_from_url url);
      match r with
      | inr l => refresh_from urls (update_from_list l url (clear_from_url url self))
      | inl _ => refresh_from urls self
      end
  end.

(** [config] reads the configuration. *)
Definition refresh_lists (config : st W (option ListUrls)) (s : MonitorState)
    : ste W MonitorError MonitorState :=
  c ← lift config;
  match c with
  | None => throw LockFailed
  | Some urls =>
      p ← refresh_from (reverse (default [] (priority_requestor_lists urls))) (priority_requestors s);
      a ← refresh_from (default [] (allow_requestor_lists urls)) (allow_requestors s);
      mret (mkMonitor p a)
  end.

(** A refresh that fails is logged and leaves the caches as they are. *)
Definition refresh_or_keep (config : st W (option ListUrls)) (s : MonitorState)
    : ste W MonitorError MonitorState :=
  r ← catch (refresh_lists config s);
  mret (match r with inr s' => s' | inl _ => s end).

(** The first refresh, then one per tick until the task is cancelled. *)
Fixpoint monitor_turns (config : st W (option ListUrls)) (cancelled : list bool) (s : MonitorState)
    : ste W MonitorError MonitorState :=
  match cancelled with
  | [] => mret s
  | true :: _ => mret s
  | false :: cancelled => s ← refresh_or_keep config s; monitor_turns config cancelled s
  end.

Definition monitor_loop (config : st W (option ListUrls)) (cancelled : list bool) (s : MonitorState)
    : ste W MonitorError MonitorState :=
  s ← refresh_or_keep config s;
  monitor_turns config cancelled s.

End Monitor.

(** ** What a refresh leaves in the caches *)

(** An entry of a list for an address on a chain. *)
Definition entry_for (chain a : Z) (e : RequestorEntry) : Prop :=
  address e = a /\ entry_chain_id e = chain.

#[export] Instance entry_for_dec chain a e : Decision (entry_for chain a e).
Proof. unfold entry_for. apply _. Defined.

Definition entry_in (chain a : Z) (l : RequestorList) : option RequestorEntry :=
  head (filter (entry_for chain a) (requestors l)).

(** The entry of the first list that has one. *)
Definition first_entry (chain a : Z) (ls : list (string * RequestorList)) : option CachedEntry :=
  head (omap (fun '(url, l) => (fun e => mkCached e url) <$> entry_in chain a l) ls).

Lemma validate_entries_ok seen es :
  validate_entries seen es = Ok tt ->
  NoDup ((fun e => (address e, entry_chain_id e)) <$> es)
  /\ Forall (fun e => (address e, entry_chain_id e) ∉ seen) es.
Proof.
  revert seen. induction es as [|e es IH]; intros seen; [by repeat constructor|]. simpl.
  case_bool_decide as Hs; [done|]. intros Hv. apply result_bind_Ok in Hv as (_ & _ & Hv).
  apply IH in Hv as [Hn Hf]. split.
  - constructor; [|done]. intros (e' & Heq & Hin)%list_elem_of_fmap.
    rewrite Forall_forall in Hf. apply (Hf e' Hin). rewrite <- Heq. set_solver.
  - constructor; [done|]. eapply Forall_impl; [exact Hf|]. set_solver.
Qed.

Lemma insert_entries_lookup chain url es m a :
  NoDup ((fun e => (address e, entry_chain_id e)) <$> es) ->
  foldl (insert_entry chain url) m es !! a
  = match head (filter (entry_for chain a) es) with
    | Some e => Some (mkCached e url)
    | None => m !! a
    end.
Proof.
  revert m. induction es as [|e es IH]; intros m Hn; [done|]. simpl.
  apply NoDup_cons in Hn as [Hni Hn]. rewrite IH by done. rewrite filter_cons. unfold insert_entry.
  case_decide as He.
  - destruct He as [<- <-]. rewrite Z.eqb_refl.
    destruct (filter _ es) as [|e' l'] eqn:Ef; simpl; [by rewrite lookup_insert_eq|].
    assert (e' ∈ filter (entry_for (entry_chain_id e) (address e)) es) as [[Ha Hc] Hin]%list_elem_of_filter
      by (rewrite Ef; by left).
    destruct Hni. apply list_elem_of_fmap. exists e'. by rewrite Ha, Hc.
  - destruct (head _); [done|]. destruct (Z.eqb_spec (entry_chain_id e) chain) as [Hc|]; [|done].
    apply lookup_insert_ne. intros Ha. by destruct He.
Qed.

(** One list of the loop. *)
Definition refresh_step (self : Requestors) (ul : string * RequestorList) : Requestors :=
  update_from_list ul.2 ul.1 (clear_from_url ul.1 self).

Definition kept_outside (urls : list string) (c : option CachedEntry) : option CachedEntry :=
  c ≫= fun c => if bool_decide (source_url c ∈ urls) then None else Some c.

Lemma kept_outside_Some urls c :
  kept_outside urls (Some c) = if bool_decide (source_url c ∈ urls) then None else Some c.
Proof. done. Qed.

Lemma refresh_step_shape self ul :
  rq_chain_id (refresh_step self ul) = rq_chain_id self
  /\ poisoned (refresh_step self ul) = poisoned self.
Proof. unfold refresh_step, update_from_list, clear_from_url. by destruct (poisoned self) eqn:E; simpl; rewrite ?E. Qed.

Lemma refresh_step_lookup self url l a :
  poisoned self = false -> validate l = Ok tt ->
  cached (refresh_step self (url, l)) !! a
  = match entry_in (rq_chain_id self) a l with
    | Some e => Some (mkCached e url)
    | None => kept_outside [url] (cached self !! a)
    end.
Proof.
  intros Hp Hv. unfold refresh_step, update_from_list, clear_from_url. simpl. rewrite Hp. simpl.
  rewrite Hp. simpl. unfold validate in Hv. destruct (negb _); [done|].
  apply validate_entries_ok in Hv as [Hn _]. rewrite insert_entries_lookup by done.
  unfold entry_in. destruct (head _); [done|]. unfold kept_outside.
  rewrite map_lookup_filter. destruct (cached self !! a) as [c|]; [|done]. simpl.
  case_bool_decide as Hc; rewrite list_elem_of_singleton in Hc.
  - by rewrite option_guard_False by (by intros ?).
  - by rewrite option_guard_True.
Qed.

Lemma first_entry_cons chain a url l ls :
  first_entry chain a ((url, l) :: ls)
  = match entry_in chain a l with
    | Some e => Some (mkCached e url)
    | None => first_entry chain a ls
    end.
Proof. unfold first_entry. simpl. by destruct (entry_in chain a l). Qed.

Lemma first_entry_url chain a ls c : first_entry chain a ls = Some c -> source_url c ∈ ls.*1.
Proof.
  induction ls as [|[url l] ls IH]; [done|]. rewrite first_entry_cons.
  destruct (entry_in chain a l) as [e|]; simpl.
  - intros [= <-]. by left.
  - intros Hc. right. by apply IH.
Qed.

Lemma first_entry_some chain a ls :
  is_Some (first_entry chain a ls)
  <-> exists url l, (url, l) ∈ ls /\ is_Some (entry_in chain a l).
Proof.
  induction ls as [|[url l] ls IH].
  { split; [by intros []|by intros (? & ? & ?%elem_of_nil & _)]. }
  rewrite first_entry_cons. destruct (entry_in chain a l) as [e|] eqn:E.
  - split; [|by eauto]. intros _. exists url, l. rewrite E. split; [by left|by eauto].
  - rewrite IH. split; intros (u & l' & Hin & Hl).
    + exists u, l'. split; [by right|done].
    + apply elem_of_cons in Hin as [[= -> ->]|Hin]; [rewrite E in Hl; by destruct Hl|].
      by exists u, l'.
Qed.

(** The lists applied from the last to the first: the first one with an entry
    wins, and what came from other URLs stays. *)
Lemma refresh_steps_lookup self ls a :
  poisoned self = false -> NoDup ls.*1 -> Forall (fun ul => validate ul.2 = Ok tt) ls ->
  cached (foldr (fun ul s => refresh_step s ul) self ls) !! a
  = match first_entry (rq_chain_id self) a ls with
    | Some c => Some c
    | None => kept_outside ls.*1 (cached self !! a)
    end.
Proof.
  intros Hp. induction ls as [|[url l] ls IH]; intros Hn Hv.
  { by simpl; destruct (cached self !! a). }
  rewrite first_entry_cons. simpl foldr. rewrite fmap_cons in *. cbn [fst] in *.
  apply NoDup_cons in Hn as [Hni Hn]. apply Forall_cons in Hv as [Hl Hv]. simpl in Hl.
  specialize (IH Hn Hv). set (s := foldr _ self ls) in *.
  assert (Hs : rq_chain_id s = rq_chain_id self /\ poisoned s = poisoned self).
  { subst s. clear -Hp. induction ls as [|ul ls IH]; [done|]. simpl.
    destruct (refresh_step_shape (foldr (fun ul s => refresh_step s ul) self ls) ul). naive_solver congruence. }
  destruct Hs as [Hc Hps]. rewrite refresh_step_lookup by congruence. rewrite Hc, IH.
  destruct (entry_in _ a l) as [e|]; [done|].
  destruct (first_entry (rq_chain_id self) a ls) as [c|] eqn:Ef.
  - apply first_entry_url in Ef. rewrite kept_outside_Some.
    by rewrite bool_decide_eq_false_2 by set_solver.
  - destruct (cached self !! a) as [c|]; [|done]. rewrite !kept_outside_Some.
    destruct (decide (source_url c ∈ ls.*1)) as [Hin|Hout].
    + by rewrite !bool_decide_eq_true_2 by set_solver.
    + rewrite (bool_decide_eq_false_2 (source_url c ∈ ls.*1)), kept_outside_Some by done.
      by rewrite (bool_decide_ext (source_url c ∈ [url]) (source_url c ∈ url :: ls.*1))
        by set_solver.
Qed.

Section MonitorSpecs.
Context {W : Type} `{ListFetcher W}.

(** The lists that the URLs gave, in the order they were asked. *)
Fixpoint fetch_each (urls : list string) : ste W MonitorError (list (string * RequestorList)) :=
  match urls with
  | [] => mret []
  | url :: urls =>
      r ← catch (fetch_from_url url);
      ls ← fetch_each urls;
      mret (match r with inr l => (url, l) :: ls | inl _ => ls end)
  end.

Lemma fetched_valid url (w : W) l w' : fetch_from_url url w = (Ok l, w') -> validate l = Ok tt.
Proof.
  intros (json & w1 & _ & Hf)%ste_bind_Ok. injection Hf as Hf _. unfold from_json in Hf.
  apply result_bind_Ok in Hf as (l' & _ & Hf). by apply result_bind_Ok in Hf as ([] & ? & [= <-]).
Qed.

Lemma fetch_each_ok urls (w : W) ls w' :
  fetch_each urls w = (Ok ls, w') ->
  Forall (fun ul => validate ul.2 = Ok tt) ls /\ ls.*1 `sublist_of` urls.
Proof.
  revert w ls. induction urls as [|url urls IH]; intros w ls; simpl.
  { intros [= <- <-]. by repeat constructor. }
  intros (r & w1 & Hr & Hf)%ste_bind_Ok. apply ste_bind_Ok in Hf as (ls1 & w2 & Hf & [= <- <-]).
  apply IH in Hf as [Hv Hs]. unfold catch in Hr.
  destruct (fetch_from_url url w) as [[l|e|] w3] eqn:E; [..|done]; injection Hr as <- <-.
  - apply fetched_valid in E. split; [by constructor|by constructor].
  - split; [done|by constructor].
Qed.

Lemma refresh_from_steps urls self (w : W) self' w' :
  refresh_from urls self w = (Ok self', w') ->
  exists ls, fetch_each urls w = (Ok ls, w') /\ self' = foldl refresh_step self ls.
Proof.
  revert self w. induction urls as [|url urls IH]; intros self w; simpl.
  { intros [= <- <-]. by exists []. }
  intros (r & w1 & Hr & Hf)%ste_bind_Ok. unfold mbind, ste_bind. rewrite Hr.
  destruct r as [e|l]; apply IH in Hf as (ls & -> & ->); by eexists.
Qed.

Lemma foldl_foldr_rev {A B} (f : B -> A -> B) l b :
  foldl f b l = foldr (fun a b => f b a) b (reverse l).
Proof.
  revert b. induction l as [|a l IH]; intros b; [done|].
  by rewrite reverse_cons, foldr_app, <- IH.
Qed.

End MonitorSpecs.

(** A refresh gives the caches the meaning of the configuration.  With the
    lists that could be fetched, in the order of their URLs: an address has the
    entry of the first priority list that names it on this chain, and is
    allowed when some allow list names it; entries that came from a fetched
    URL and are no longer in it are gone, and entries from other URLs, which
    are those that could not be fetched and those no longer configured, stay
    unless a fetched list replaces them. *)
Theorem refresh_lists_spec {W} `{ListFetcher W} config s (w : W) s' w' urls purls aurls w0 :
  config w = (Some urls, w0) ->
  default [] (priority_requestor_lists urls) = purls ->
  default [] (allow_requestor_lists urls) = aurls -> NoDup purls -> NoDup aurls ->
  poisoned (priority_requestors s) = false -> poisoned (allow_requestors s) = false ->
  refresh_lists config s w = (Ok s', w') ->
  exists ps als w1,
    fetch_each (reverse purls) w0 = (Ok (reverse ps), w1)
    /\ fetch_each aurls w1 = (Ok als, w')
    /\ (forall a, cached (priority_requestors s') !! a
          = match first_entry (rq_chain_id (priority_requestors s)) a ps with
            | Some c => Some c
            | None => kept_outside ps.*1 (cached (priority_requestors s) !! a)
            end)
    /\ (forall a, is_Some (cached (allow_requestors s') !! a)
          <-> (exists url l, (url, l) ∈ als
                 /\ is_Some (entry_in (rq_chain_id (allow_requestors s)) a l))
              \/ is_Some (kept_outside als.*1 (cached (allow_requestors s) !! a))).
Proof.
  intros Hcfg Hpu Hau HNp HNa Hpp Hpa Hr. unfold refresh_lists in Hr.
  apply ste_bind_Ok in Hr as (c & w2 & Hc & Hr). unfold lift in Hc. rewrite Hcfg in Hc.
  injection Hc as <- <-. rewrite Hpu, Hau in Hr.
  apply ste_bind_Ok in Hr as (p & w1 & Hp & Hr).
  apply ste_bind_Ok in Hr as (al & w3 & Ha & [= <- <-]). cbn [priority_requestors allow_requestors].
  apply refresh_from_steps in Hp as (rps & Hfp & ->), Ha as (als & Hfa & ->).
  destruct (fetch_each_ok _ _ _ _ Hfp) as [Hvp Hsp], (fetch_each_ok _ _ _ _ Hfa) as [Hva Hsa].
  exists (reverse rps), als, w1. rewrite reverse_involutive, fmap_reverse.
  split_and!; [done|done|intros a..]; rewrite foldl_foldr_rev, refresh_steps_lookup;
    rewrite ?fmap_reverse, ?reverse_Permutation; try done.
  - eapply sublist_NoDup; [|exact Hsp]. by rewrite reverse_Permutation.
  - transitivity (is_Some (first_entry (rq_chain_id (allow_requestors s)) a (reverse als))
      \/ is_Some (kept_outside als.*1 (cached (allow_requestors s) !! a))).
    + assert (Hk : kept_outside (reverse als.*1) (cached (allow_requestors s) !! a)
        = kept_outside als.*1 (cached (allow_requestors s) !! a)).
      { destruct (cached (allow_requestors s) !! a) as [c|]; [|done]. rewrite !kept_outside_Some.
        by rewrite (bool_decide_ext _ (source_url c ∈ als.*1)) by (by rewrite elem_of_reverse). }
      rewrite Hk. destruct (first_entry _ _ _); naive_solver.
    + rewrite first_entry_some. by setoid_rewrite elem_of_reverse.
  - by eapply sublist_NoDup.
Qed.

(** ** Witness and examples *)

(** A world is what each URL serves. *)
Definition toy_list (entries : list RequestorEntry) : RequestorList :=
  mkList "toy" "" (mkVersion 1 0) (mkVersion 1 0) entries.
Definition toy_entry (a : Z) (label : string) : RequestorEntry :=
  mkEntry a 1 label None [] extensions_default.

Definition toy_fetcher : ListFetcher (string -> option string) := {|
  http_get url w := (match w url with Some json => Ok json | None => Err "unreachable" end, w);
  parse_list json :=
    if bool_decide (json = "alice") then Ok (toy_list [toy_entry 7 "Alice"])
    else if bool_decide (json = "bob") then Ok (toy_list [toy_entry 7 "Bob"; toy_entry 8 "Bob"])
    else Ok (toy_list [])
|}.

Definition serves (first second : option string) (url : string) : option string :=
  if bool_decide (url = "first") then first else second.

Definition toy_urls : ListUrls := mkUrls (Some ["first"; "second"]) (Some ["first"; "second"]).
Definition toy_monitor : MonitorState := mkMonitor (requestors_new 1) (requestors_new 1).
Definition refreshed (urls : ListUrls) (w : string -> option string) (s : MonitorState)
    : MonitorState :=
  match @refresh_lists _ toy_fetcher (fun w => (Some urls, w)) s w with
  | (Ok s', _) => s'
  | _ => s
  end.

Lemma refresh_lists_spec_witness :
  (exists ps, first_entry 1 7 ps = Some (mkCached (toy_entry 7 "Alice") "first")
     /\ cached (priority_requestors
          (refreshed toy_urls (serves (Some "alice") (Some "bob")) toy_monitor)) !! 7
        = first_entry 1 7 ps).
Proof.
  destruct (@refresh_lists_spec _ toy_fetcher (fun w => (Some toy_urls, w)) toy_monitor
    (serves (Some "alice") (Some "bob"))
    (refreshed toy_urls (serves (Some "alice") (Some "bob")) toy_monitor)
    (serves (Some "alice") (Some "bob")) toy_urls ["first"; "second"] ["first"; "second"]
    (serves (Some "alice") (Some "bob"))) as (ps & als & w1 & Hp & _ & Hl & _).
  - reflexivity.
  - reflexivity.
  - reflexivity.
  - by apply (bool_decide_unpack _).
  - by apply (bool_decide_unpack _).
  - reflexivity.
  - reflexivity.
  - by vm_compute.
  - assert (E : @fetch_each _ toy_fetcher (reverse ["first"; "second"])
        (serves (Some "alice") (Some "bob"))
      = (Ok [("second", toy_list [toy_entry 7 "Bob"; toy_entry 8 "Bob"]);
             ("first", toy_list [toy_entry 7 "Alice"])], serves (Some "alice") (Some "bob")))
      by (by vm_compute).
    rewrite E in Hp. injection Hp as Hp _. apply (f_equal reverse) in Hp.
    rewrite reverse_involutive in Hp. subst ps. exists [("first", toy_list [toy_entry 7 "Alice"])].
    split; [reflexivity|]. rewrite (Hl 7). reflexivity.
Defined.

(** A list that is taken out of the configuration goes on allowing its
    addresses: nothing clears the entries of its URL. *)
Lemma removed_list_still_allows :
  let before := refreshed toy_urls (serves (Some "alice") (Some "bob")) toy_monitor in
  let after := refreshed (mkUrls None (Some ["first"])) (serves (Some "alice") (Some "bob")) before in
  is_listed (allow_requestors after) (Some None) 8 = true.
Proof. by vm_compute. Qed.

(** When two lists name an address, the later one takes its entry over; if that
    list then drops the address while the other cannot be fetched, the entry is
    lost, although entries are meant to survive a failed fetch. *)
Lemma failed_fetch_loses_entry :
  let before := refreshed toy_urls (serves (Some "alice") (Some "bob")) toy_monitor in
  let after := refreshed toy_urls (serves (Some "empty") None) before in
  is_listed (priority_requestors before) (Some None) 7 = true
  /\ is_listed (priority_requestors after) (Some None) 7 = false
  /\ is_listed (priority_requestors after) (Some None) 8 = true.
Proof. by vm_compute. Qed.
