(* ===== verification/Pricer.v ===== *)
(** * Pricer: the service around [price_order]

    [crates/broker/src/order_pricer]: the broker's implementation of the trait
    [OrderPricingContext] in [helpers.rs], the pricing task
    [price_order_and_update_state], the registry of running tasks in
    [types.rs], and the run loop of [service.rs].

    The class [PricerEnv] holds the chain, the backends, the price oracle, the
    requestor lists, the configuration and the channels; the database is reached
    through [BrokerDb].  The run loop is a step function on the state of the
    service: the tasks it spawned are part of that state, and the end of a task
    is an event, so that a run is any interleaving of the loop with its tasks.
    Telemetry is not modelled.

    What is handed to the committer is observed from outside: [recorded_env]
    extends any environment with a record of that channel, which the service
    cannot read. *)

From S2P Require Import Prelude Market Auction Selector OrderPricing Db Prioritization Requestors.
From Stdlib Require Import Strings.Byte.

Local Open Scope Z_scope.

Definition SKIP_NOT_IN_ALLOWLIST := "[S-OP-001]".
Definition SKIP_IN_DENYLIST := "[S-OP-002]".
Definition SKIP_UNSUPPORTED_SELECTOR_BROKER := "[S-OP-003]".
Definition SKIP_ALREADY_LOCKED := "[S-OP-004]".
Definition SKIP_ALREADY_FULFILLED := "[S-OP-005]".
Definition BROKER_SKIP_GAS_EXCEEDS_MAX_PRICE := "[S-OP-006]".
Definition SKIP_GAS_EXCEEDS_BALANCE := "[S-OP-007]".
Definition SKIP_INSUFFICIENT_COLLATERAL := "[S-OP-008]".

(** Completions, of [order_evaluator/types.rs]. *)
Inductive PreflightOutcome := PfPriced | PfSkipped | PfFailed | PfCancelled.

Record PreflightComplete := mkPreflightComplete {
  pf_order_id : string;
  pf_request_id : Z;
  pf_chain_id : Z;
  pf_outcome : PreflightOutcome
}.

(** The configuration that the pricer reads. *)
Record PricerConfig := mkPricerConfig {
  pc_market : MarketConfig;
  deny_requestor_addresses : option (gset Z);
  allow_client_addresses : option (list Z);
  pc_allow_requestor_lists : option (list string);
  priority_requestor_addresses : option (list Z);
  pc_skip_gas_profitability_check : bool
}.

Class PricerEnv (W : Type) := {
  px_now : st W Z;
  (** [lock_all], without a configuration when the lock is poisoned *)
  px_lock_all : st W (option PricerConfig);
  px_allow_requestors : st W Requestors;
  px_priority_requestors : st W Requestors;
  px_current_gas_price : ste W unit Z;
  px_get_balance : ste W unit Z;
  px_balance_of_collateral : ste W unit Z;
  px_fulfillment_gas : ProofRequest -> ste W unit Z;
  px_additional_proof_cycles : ProofRequest -> ste W unit Z;
  px_evaluate_request :
    EvaluationRequest -> EvaluationLimits -> ste W OrderPricingError RequestEvaluation;
  px_estimate_erc1271_gas : OrderRequest -> st W Z;
  px_convert : Amount -> Asset -> ste W ConversionError Amount;
  px_digest_from_hex : string -> option bytes;
  (** the channel to the committer; [false] when it is closed *)
  px_send_priced : OrderRequest -> st W bool;
  (** what a pricing that is dropped half way has done *)
  px_abandon : OrderRequest -> st W unit;
  (** the cache of recent orders, which evicts *)
  px_cache_get : string -> st W bool;
  px_cache_insert : string -> st W unit;
  (** the channel to the evaluator; [false] when the message is dropped *)
  px_try_complete : PreflightComplete -> st W bool
}.

Section Context.
Context {W : Type} `{Externals} `{BrokerDb W} `{PricerEnv W}.
Context (selectors : SupportedSelectors) (token_decimals : Z) (listen_only : bool).

(** [self.config.lock_all().context(..)?]. *)
Definition read_config : ste W OrderPricingError PricerConfig :=
  c ← lift px_lock_all;
  liftr (ok_or UnexpectedErr c).

Definition unexpected {E A} (m : ste W E A) : ste W OrderPricingError A :=
  with_err (fun _ => UnexpectedErr) m.

Definition rpc {A} (m : ste W unit A) : ste W OrderPricingError A := with_err (fun _ => RpcErr) m.

Definition pricer_check_requestor_allowed (o : OrderRequest) (denied : option (gset Z))
    : ste W OrderPricingError (option OrderPricingOutcome) :=
  let client_addr := client_address (request o) in
  allow ← lift px_allow_requestors;
  static ← lift px_lock_all;
  not_allowed ←
    (if negb (is_listed allow (allow_client_addresses <$> static) client_addr) then
       config ← read_config;
       mret (bool_decide (is_Some (allow_client_addresses config))
             || bool_decide (is_Some (pc_allow_requestor_lists config)))
     else mret false);
  if not_allowed : bool then mret (Some (Skip SKIP_NOT_IN_ALLOWLIST)) else
  if match denied with Some ds => bool_decide (client_addr ∈ ds) | None => false end
  then mret (Some (Skip SKIP_IN_DENYLIST)) else
  if negb (is_supported selectors (selector (requirements (request o))))
  then mret (Some (Skip SKIP_UNSUPPORTED_SELECTOR_BROKER)) else
  mret None.

Definition pricer_check_request_available (o : OrderRequest)
    : ste W OrderPricingError (option OrderPricingOutcome) :=
  let request_id := reqId (request o) in
  is_locked ← unexpected (db_is_request_locked request_id);
  is_fulfilled ← unexpected (db_is_request_fulfilled request_id);
  if bool_decide (fulfillment_type o = LockAndFulfill) && is_locked
  then mret (Some (Skip SKIP_ALREADY_LOCKED)) else
  if bool_decide (fulfillment_type o = FulfillAfterLockExpire) && is_fulfilled
  then mret (Some (Skip SKIP_ALREADY_FULFILLED)) else
  mret None.

Fixpoint pending_gas (gas : Z) (orders : list Order) : ste W OrderPricingError Z :=
  match orders with
  | [] => mret gas
  | order :: orders =>
      base ← unexpected (px_fulfillment_gas (o_request order));
      config ← read_config;
      units ← liftr (map_err (fun _ => UnexpectedErr) (fulfill_gas_units (pc_market config) base
                (o_request order) (o_journal_bytes order)));
      pending_gas (wadd 64 gas units) orders
  end.

Definition estimate_gas_to_fulfill_pending : ste W OrderPricingError Z :=
  orders ← unexpected db_get_committed_orders;
  pending_gas 0 orders.

Definition gas_balance_reserved : ste W OrderPricingError Z :=
  gas_price ← unexpected px_current_gas_price;
  fulfill_pending_gas ← estimate_gas_to_fulfill_pending;
  mret (wmul 256 gas_price fulfill_pending_gas).

Definition pricer_check_available_balances (o : OrderRequest) (order_gas_cost : Z)
    (lock_expired : bool) (lockin_collateral : Z)
    : ste W OrderPricingError (option OrderPricingOutcome) :=
  if listen_only then mret None else
  balance ← rpc px_get_balance;
  reserved ← gas_balance_reserved;
  let available_gas := sat_sub balance reserved in
  available_collateral ← rpc px_balance_of_collateral;
  config ← lift px_lock_all;
  let skip_gas_check :=
    match config with Some c => pc_skip_gas_profitability_check c | None => false end in
  if negb skip_gas_check && (maxPrice (offer (request o)) <? order_gas_cost) && negb lock_expired
  then mret (Some (Skip BROKER_SKIP_GAS_EXCEEDS_MAX_PRICE)) else
  if available_gas <? order_gas_cost then mret (Some (Skip SKIP_GAS_EXCEEDS_BALANCE)) else
  if negb lock_expired && (available_collateral <? lockin_collateral)
  then mret (Some (Skip SKIP_INSUFFICIENT_COLLATERAL)) else
  mret None.

Definition convert_to (target : Asset) (amount : Amount) : ste W OrderPricingError Amount :=
  if bool_decide (amount_asset amount = target) then mret amount
  else unexpected (px_convert amount target).

Definition pricer_market_config : ste W OrderPricingError MarketConfig :=
  c ← read_config; mret (pc_market c).

Definition pricer_denied : ste W OrderPricingError (option (gset Z)) :=
  c ← read_config; mret (deny_requestor_addresses c).

Definition pricer_is_priority (addr : Z) : st W bool :=
  requestors ← px_priority_requestors;
  static ← px_lock_all;
  mret (is_listed requestors (priority_requestor_addresses <$> static) addr).

(** The implementation of the trait. *)
Definition pricer_context : OrderPricingContext W := {|
  market_config := pricer_market_config;
  supported_selectors := selectors;
  collateral_token_decimals := token_decimals;
  denied_requestor_addresses := pricer_denied;
  check_requestor_allowed := pricer_check_requestor_allowed;
  check_request_available := pricer_check_request_available;
  estimate_gas_to_fulfill := fun r => unexpected (px_fulfillment_gas r);
  additional_proof_cycles_for := fun r => unexpected (px_additional_proof_cycles r);
  is_priority_requestor := pricer_is_priority;
  check_available_balances := pricer_check_available_balances;
  current_gas_price := unexpected px_current_gas_price;
  estimate_erc1271_gas := px_estimate_erc1271_gas;
  convert_to_eth := convert_to ETH;
  convert_to_zkc := convert_to ZKC;
  evaluate_request := px_evaluate_request;
  now_timestamp := px_now;
  digest_from_hex := px_digest_from_hex
|}.

#[local] Existing Instance pricer_context.

(** ** The pricing task *)

Definition lock_fields (t : LockTerms) (o : OrderRequest) : OrderRequest :=
  {| request := request o; client_sig := client_sig o; fulfillment_type := fulfillment_type o;
     boundless_market_address := boundless_market_address o; chain_id := chain_id o;
     image_id := image_id o; input_id := input_id o; total_cycles := Some (lt_total_cycles t);
     journal_bytes := Some (lt_journal_len t); target_timestamp := Some (target_timestamp_secs t);
     expire_timestamp := Some (lt_expiry_secs t); gas_estimate := gas_estimate o;
     additional_proof_cycles := additional_proof_cycles o;
     expected_reward_eth := expected_reward_eth o;
     received_at_timestamp := received_at_timestamp o;
     priced_at_timestamp := priced_at_timestamp o |}.

Definition after_lock_fields (t : AfterLockTerms) (reward now : Z) (o : OrderRequest) : OrderRequest :=
  {| request := request o; client_sig := client_sig o; fulfillment_type := fulfillment_type o;
     boundless_market_address := boundless_market_address o; chain_id := chain_id o;
     image_id := image_id o; input_id := input_id o; total_cycles := Some (al_total_cycles t);
     journal_bytes := Some (al_journal_len t);
     target_timestamp := Some (lock_expire_timestamp_secs t);
     expire_timestamp := Some (al_expiry_secs t); gas_estimate := gas_estimate o;
     additional_proof_cycles := additional_proof_cycles o;
     expected_reward_eth := Some reward;
     received_at_timestamp := received_at_timestamp o;
     priced_at_timestamp := Some now |}.

Definition send_priced (o : OrderRequest) : ste W OrderPricingError bool :=
  sent ← lift (px_send_priced o);
  if sent : bool then mret true else throw UnexpectedErr.

(** The expected reward of an order to be proven after its lock, in ether. *)
Definition expected_reward (o : OrderRequest) : ste W OrderPricingError Z :=
  raw_collateral ← liftr (collateral_reward_if_locked_and_not_fulfilled (offer (request o)));
  config ← pricer_market_config;
  let discounted := apply_secondary_fulfillment_discount raw_collateral
                      (expected_probability_win_secondary_fulfillment config) in
  eth_amount ← unexpected (px_convert (mkAmount discounted ZKC) ETH);
  mret (amount_value eth_amount).

(** What follows the pricing: the order is completed and sent, or dropped. *)
Definition forward_order (r : result OrderPricingError OrderPricingOutcome) (o : OrderRequest)
    : ste W OrderPricingError bool :=
  match r with
  | Ok (Lock t) => send_priced (lock_fields t o)
  | Ok (ProveAfterLockExpire t) =>
      reward ← expected_reward o;
      now ← lift px_now;
      send_priced (after_lock_fields t reward now o)
  | Ok (Skip _) => mret false
  | Err _ => mret false
  | Panic => fun w => (Panic, w)
  end.

(** [cut] says that the cancellation won the [select!]. *)
Definition price_order_and_update_state (o : OrderRequest) (cut : bool)
    : ste W OrderPricingError bool :=
  accepted ← catch (E := OrderPricingError) (if cut then (_ ← lift (px_abandon o); mret false)
                    else fun w => let '(r, (o', w')) := price_order o w in forward_order r o' w');
  mret (match accepted with inr b => b | inl _ => false end).

(** ** What the checks of the context mean *)

(** The requestor was in the allow list when it was read, or no allow list was
    configured. *)
Definition requestor_allowed (o : OrderRequest) : Prop :=
  (exists allow static (w1 w2 w3 : W),
     px_allow_requestors w1 = (allow, w2) /\ px_lock_all w2 = (static, w3)
     /\ is_listed allow (allow_client_addresses <$> static) (client_address (request o)) = true)
  \/ (exists c (w1 w2 : W), px_lock_all w1 = (Some c, w2)
       /\ allow_client_addresses c = None /\ pc_allow_requestor_lists c = None).

Definition requestor_denied_by (c : PricerConfig) (o : OrderRequest) : Prop :=
  exists ds, deny_requestor_addresses c = Some ds /\ client_address (request o) ∈ ds.

(** The database had no lock of the request when the order needs one, and no
    fulfillment when the order fulfills after the lock. *)
Definition request_available (o : OrderRequest) : Prop :=
  exists locked fulfilled (w1 w2 w3 : W),
    db_is_request_locked (reqId (request o)) w1 = (Ok locked, w2)
    /\ db_is_request_fulfilled (reqId (request o)) w2 = (Ok fulfilled, w3)
    /\ (fulfillment_type o = LockAndFulfill -> locked = false)
    /\ (fulfillment_type o = FulfillAfterLockExpire -> fulfilled = false).

(** The cost fits in the balance that the gas of the committed orders leaves,
    and the collateral of a lock in the collateral balance. *)
Definition affordable (o : OrderRequest) (cost : Z) : Prop :=
  exists balance gas_price pending collateral (w1 w2 w3 w4 w5 : W),
    px_get_balance w1 = (Ok balance, w2) /\ px_current_gas_price w2 = (Ok gas_price, w3)
    /\ estimate_gas_to_fulfill_pending w3 = (Ok pending, w4)
    /\ px_balance_of_collateral w4 = (Ok collateral, w5)
    /\ cost <= sat_sub balance (wmul 256 gas_price pending)
    /\ (fulfillment_type o <> FulfillAfterLockExpire ->
         lockCollateral (offer (request o)) <= collateral).

Lemma unexpected_Ok {E A} (m : ste W E A) (w : W) a w' :
  unexpected m w = (Ok a, w') -> m w = (Ok a, w').
Proof. unfold unexpected, with_err. by destruct (m w) as [[] ?]; intros [=]; subst. Qed.

Lemma rpc_Ok {A} (m : ste W unit A) (w : W) a w' : rpc m w = (Ok a, w') -> m w = (Ok a, w').
Proof. unfold rpc, with_err. by destruct (m w) as [[] ?]; intros [=]; subst. Qed.

Lemma read_config_Ok (w : W) c w' : read_config w = (Ok c, w') -> px_lock_all w = (Some c, w').
Proof.
  intros (r & w1 & Hr & Hc)%ste_bind_Ok. apply lift_Ok in Hr. destruct r as [c'|]; [|done].
  by injection Hc as <- <-.
Qed.

Lemma requestor_check_passes o denied (w : W) w' :
  pricer_check_requestor_allowed o denied w = (Ok None, w') ->
  requestor_allowed o /\ (forall ds, denied = Some ds -> client_address (request o) ∉ ds)
  /\ is_supported selectors (selector (requirements (request o))) = true.
Proof.
  unfold pricer_check_requestor_allowed.
  intros (allow & w1 & Ha & Hr)%ste_bind_Ok. apply ste_bind_Ok in Hr as (static & w2 & Hs & Hr).
  apply lift_Ok in Ha, Hs. apply ste_bind_Ok in Hr as (not_allowed & w3 & Hn & Hr).
  destruct not_allowed; [done|].
  destruct (match denied with Some ds => _ | None => false end) eqn:Hd; [done|].
  destruct (is_supported selectors _) eqn:Hsel; [|done]. split_and!; [|intros ds ->|done].
  - destruct (is_listed allow _ _) eqn:Hl; simpl in Hn.
    + left. exists allow, static, w, w1, w2. done.
    + right. apply ste_bind_Ok in Hn as (c & w4 & Hc & [= Hn <-]). apply read_config_Ok in Hc.
      exists c, w2, w4. apply orb_false_elim in Hn as [Hn1 Hn2].
      apply bool_decide_eq_false in Hn1, Hn2. split; [done|]. by split; apply eq_None_not_Some.
  - by apply bool_decide_eq_false in Hd.
Qed.

Lemma available_check_passes o (w : W) w' :
  pricer_check_request_available o w = (Ok None, w') -> request_available o.
Proof.
  unfold pricer_check_request_available.
  intros (il & w1 & Hl & Hr)%ste_bind_Ok. apply ste_bind_Ok in Hr as (ifl & w2 & Hf & Hr).
  apply unexpected_Ok in Hl, Hf. exists il, ifl, w, w1, w2. split; [done|]. split; [done|].
  destruct (bool_decide _ && il) eqn:E1; [done|].
  destruct (bool_decide (fulfillment_type o = FulfillAfterLockExpire) && ifl) eqn:E2; [done|].
  split; intros Ht; [rewrite bool_decide_eq_true_2 in E1 by done|
    rewrite bool_decide_eq_true_2 in E2 by done]; done.
Qed.

Lemma balance_check_passes o1 o cost (w : W) w' :
  same_order o o1 ->
  let lock_expired := bool_decide (fulfillment_type o = FulfillAfterLockExpire) in
  pricer_check_available_balances o1 cost lock_expired
    (if lock_expired then 0 else lockCollateral (offer (request o))) w = (Ok None, w') ->
  listen_only = true \/ affordable o cost.
Proof.
  intros [Hreq Hty] lock_expired. unfold pricer_check_available_balances.
  destruct listen_only; [by left|]. intros Hr. right.
  apply ste_bind_Ok in Hr as (bal & w1 & Hb & Hr). apply ste_bind_Ok in Hr as (res & w2 & Hg & Hr).
  apply ste_bind_Ok in Hr as (col & w3 & Hc & Hr). apply ste_bind_Ok in Hr as (c & w4 & _ & Hr).
  apply rpc_Ok in Hb, Hc. unfold gas_balance_reserved in Hg.
  apply ste_bind_Ok in Hg as (gp & w5 & Hgp & Hg). apply unexpected_Ok in Hgp.
  apply ste_bind_Ok in Hg as (pend & w6 & Hp & [= <- <-]).
  destruct (negb _ && _ && _); [done|].
  destruct (_ <? cost) eqn:Hcost; [done|].
  destruct (negb lock_expired && _) eqn:Hcol; [done|]. breflect.
  exists bal, gp, pend, col, w, w1, w5, w6, w3. split_and!; try done.
  intros Hne. subst lock_expired. rewrite bool_decide_eq_false_2 in Hcol by done.
  simpl in Hcol. by breflect.
Qed.

(** The interface that [price_order] is proved against. *)
#[local] Instance pricer_skips : SkipsOnly W.
Proof.
  split; simpl.
  - intros o d w out w'. unfold pricer_check_requestor_allowed.
    intros (allow & w1 & _ & Hr)%ste_bind_Ok. apply ste_bind_Ok in Hr as (static & w2 & _ & Hr).
    apply ste_bind_Ok in Hr as (b & w3 & _ & Hr). repeat case_match; (done || by injection Hr as <- <-; eexists).
  - intros o w out w'. unfold pricer_check_request_available.
    intros (il & w1 & _ & Hr)%ste_bind_Ok. apply ste_bind_Ok in Hr as (ifl & w2 & _ & Hr).
    repeat case_match; (done || by injection Hr as <- <-; eexists).
  - intros o g b c w out w'. unfold pricer_check_available_balances.
    destruct listen_only; [done|].
    intros (bal & w1 & _ & Hr)%ste_bind_Ok. do 3 apply ste_bind_Ok in Hr as (? & ? & _ & Hr).
    repeat case_match; (done || by injection Hr as <- <-; eexists).
Qed.

(** The cycles, the journal length, the target time and the expiry of an
    accepting decision. *)
Definition terms_of (out : OrderPricingOutcome) : option (Z * Z * Z * Z) :=
  match out with
  | Lock t => Some (lt_total_cycles t, lt_journal_len t, target_timestamp_secs t, lt_expiry_secs t)
  | ProveAfterLockExpire t =>
      Some (al_total_cycles t, al_journal_len t, lock_expire_timestamp_secs t, al_expiry_secs t)
  | Skip _ => None
  end.

(** [sent] carries what pricing [o] decided and found out. *)
Definition carries (o1 sent : OrderRequest) (out : OrderPricingOutcome) : Prop :=
  exists c j t e, terms_of out = Some (c, j, t, e)
    /\ total_cycles sent = Some c /\ journal_bytes sent = Some j
    /\ target_timestamp sent = Some t /\ expire_timestamp sent = Some e
    /\ request sent = request o1 /\ fulfillment_type sent = fulfillment_type o1
    /\ gas_estimate sent = gas_estimate o1.

Lemma send_priced_Ok o (w : W) b w' :
  send_priced o w = (Ok b, w') -> b = true /\ px_send_priced o w = (true, w').
Proof.
  intros (ok & w1 & Hs & Hr)%ste_bind_Ok. apply lift_Ok in Hs. destruct ok; [|done].
  by injection Hr as <- <-.
Qed.

(** A run of the task is cut, or prices the order and goes on with the
    outcome. *)
Lemma update_state_inv o cut (w : W) r w' :
  price_order_and_update_state o cut w = (r, w') ->
  (px_abandon o w = (tt, w') /\ r = Ok false)
  \/ exists r1 o1 w1 r2, price_order o w = (r1, (o1, w1)) /\ forward_order r1 o1 w1 = (r2, w')
       /\ (r = Ok true <-> r2 = Ok true).
Proof.
  unfold price_order_and_update_state, mbind, ste_bind, catch, mret, ste_ret, lift. destruct cut.
  - destruct (px_abandon o w) as [[] w1]. intros [= <- <-]. by left.
  - destruct (price_order o w) as [r1 [o1 w1]] eqn:Ep.
    destruct (forward_order r1 o1 w1) as [r2 w2] eqn:Ef. intros E. right.
    exists r1, o1, w1, r2. destruct r2; simpl in E; injection E as <- <-;
      (split; [done|]; split; [done|]; split; congruence).
Qed.

End Context.

(** ** The channel to the committer

    The world with a record of the channel: every order that is handed to it,
    with its answer.  Nothing else that the pricer calls writes that record, and
    the pricer cannot read it. *)
Section Channel.
Context {W : Type} `{Externals} {Hdb : BrokerDb W} {Henv : PricerEnv W}.

Definition sends : Type := list (OrderRequest * bool).

Definition unseen {A} (m : st W A) : st (W * sends) A := fun '(w, log) =>
  let (a, w') := m w in (a, (w', log)).

Definition recorded_send (o : OrderRequest) : st (W * sends) bool := fun '(w, log) =>
  let (delivered, w') := px_send_priced o w in (delivered, (w', log ++ [(o, delivered)])).

#[local] Instance recorded_db : BrokerDb (W * sends) := {|
  db_insert_accepted_request := fun o p => unseen (db_insert_accepted_request o p);
  db_get_committed_orders := unseen db_get_committed_orders;
  db_is_request_locked := fun i => unseen (db_is_request_locked i);
  db_get_request_locked := fun i => unseen (db_get_request_locked i);
  db_is_request_fulfilled := fun i => unseen (db_is_request_fulfilled i)
|}.

#[local] Instance recorded_env : PricerEnv (W * sends) := {|
  px_now := unseen px_now;
  px_lock_all := unseen px_lock_all;
  px_allow_requestors := unseen px_allow_requestors;
  px_priority_requestors := unseen px_priority_requestors;
  px_current_gas_price := unseen px_current_gas_price;
  px_get_balance := unseen px_get_balance;
  px_balance_of_collateral := unseen px_balance_of_collateral;
  px_fulfillment_gas := fun r => unseen (px_fulfillment_gas r);
  px_additional_proof_cycles := fun r => unseen (px_additional_proof_cycles r);
  px_evaluate_request := fun r l => unseen (px_evaluate_request r l);
  px_estimate_erc1271_gas := fun o => unseen (px_estimate_erc1271_gas o);
  px_convert := fun a t => unseen (px_convert a t);
  px_digest_from_hex := px_digest_from_hex;
  px_send_priced := recorded_send;
  px_abandon := fun o => unseen (px_abandon o);
  px_cache_get := fun i => unseen (px_cache_get i);
  px_cache_insert := fun i => unseen (px_cache_insert i);
  px_try_complete := fun c => unseen (px_try_complete c)
|}.

Context (selectors : SupportedSelectors) (token_decimals : Z) (listen_only : bool).
#[local] Existing Instance pricer_context.
#[local] Existing Instance pricer_skips.

Lemma preserves_unseen {A} (m : st W A) : preserves snd (unseen m).
Proof. intros [w log]. unfold unseen. by destruct (m w). Qed.

#[local] Hint Extern 1 (preserves snd _) => apply preserves_unseen : preserves.
#[local] Hint Extern 1 (preserves _ (unexpected _)) => apply preserves_with_err : preserves.
#[local] Hint Extern 1 (preserves _ (rpc _)) => apply preserves_with_err : preserves.

Lemma read_config_preserves : preserves snd (read_config (W := W * sends)).
Proof. unfold read_config. preserve. Qed.

#[local] Hint Resolve read_config_preserves : preserves.

Lemma pending_gas_preserves gas orders : preserves snd (pending_gas (W := W * sends) gas orders).
Proof. revert gas. induction orders as [|o orders IH]; intros gas; simpl; preserve. Qed.

#[local] Hint Resolve pending_gas_preserves : preserves.

Lemma pricer_calls_preserve :
  context_preserves (H0 := pricer_context selectors token_decimals listen_only)
    (snd : W * sends -> sends).
Proof.
  split; simpl; intros; unfold pricer_market_config, pricer_denied, pricer_check_requestor_allowed,
    pricer_check_request_available, pricer_check_available_balances, pricer_is_priority,
    gas_balance_reserved, estimate_gas_to_fulfill_pending, convert_to; preserve.
Qed.

Lemma expected_reward_preserves o :
  preserves snd (expected_reward (W := W * sends) o).
Proof. unfold expected_reward, pricer_market_config. preserve. Qed.

(** An order is handed to the channel once, with the terms of its decision, or
    not at all. *)
Lemma forward_order_sends r o w log res w' log' :
  forward_order (W := W * sends) r o (w, log) = (res, (w', log')) ->
  (log' = log /\ res <> Ok true)
  \/ exists out sent delivered, r = Ok out /\ carries o sent out
       /\ log' = log ++ [(sent, delivered)] /\ (res = Ok true <-> delivered = true).
Proof.
  assert (Hsend : forall sent w1, send_priced (W := W * sends) sent w1 = (res, (w', log')) ->
    exists delivered, log' = snd w1 ++ [(sent, delivered)] /\ (res = Ok true <-> delivered = true)).
  { intros sent [w1 l1]. unfold send_priced, mbind, ste_bind, lift. simpl.
    destruct (px_send_priced sent w1) as [[] w2]; intros [= <- <- <-];
      (eexists; split; [done|]; split; congruence). }
  destruct r as [[t|t|code]|e|]; simpl.
  - intros (d & -> & Hres)%Hsend. right. eexists (Lock t), _, d. split_and!; try done.
    eexists _, _, _, _. by split_and!.
  - pose proof (expected_reward_preserves o (w, log)) as Hlog.
    unfold mbind, ste_bind. destruct (expected_reward o (w, log)) as [[reward|e|] [w1 l1]];
      simpl in Hlog; subst l1;
      [|intros [= <- <- <-]; left; split; congruence..].
    unfold lift. simpl. destruct (px_now w1) as [now w2].
    intros (d & -> & Hres)%Hsend. right. eexists (ProveAfterLockExpire t), _, d.
    split_and!; try done. eexists _, _, _, _. by split_and!.
  - intros [= <- <- <-]. by left.
  - intros [= <- <- <-]. by left.
  - intros [= <- <- <-]. by left.
Qed.

(** What was checked of an order that is sent, with what it carries. *)
Record vetted (o : OrderRequest) (w0 : W) (sent : OrderRequest) : Prop := {
  vt_decided : exists out o1 w1, carries o1 sent out
    /\ price_order (H0 := pricer_context selectors token_decimals listen_only) o
         (w0, [] : sends) = (Ok out, (o1, (w1, [])));
  vt_same : same_order o sent;
  vt_allowed : requestor_allowed o;
  vt_not_denied : exists c (wa wb : W * sends), px_lock_all wa = (Some c, wb)
    /\ ~ requestor_denied_by c o;
  vt_selector : is_supported selectors (selector (requirements (request o))) = true;
  vt_available : request_available (W := W * sends) o;
  vt_affordable : exists units gp, gas_estimate sent = Some units
    /\ (exists wa wb : W * sends, px_current_gas_price wa = (Ok gp, wb))
    /\ (listen_only = true \/ affordable (W := W * sends) o (wmul 256 gp units))
}.

Lemma carried_order_vetted o w0 out o1 w1 sent :
  price_order (H0 := pricer_context selectors token_decimals listen_only) o (w0, [] : sends)
    = (Ok out, (o1, (w1, []))) ->
  carries o1 sent out -> vetted o w0 sent.
Proof.
  intros Hp Hcar. pose proof Hp as Hp0. pose proof Hcar as Hcar0.
  destruct Hcar as (c & j & t & e & Ht & _ & _ & _ & _ & Hreq & Hty & Hgas).
  apply price_order_decides in Hp; [|by intros code ->].
  apply price_order_body_Ok in Hp as (config & gp & units & cost & cc & jj & o2 & w5 & Hck & _ & _).
  destruct (cd_same _ _ _ _ _ _ _ _ _ Hck) as [Hs1 Hs2].
  destruct (cd_gas _ _ _ _ _ _ _ _ _ Hck) as [(wx & wy & Hgp) Hu].
  destruct (cd_allowed _ _ _ _ _ _ _ _ _ Hck)
    as (denied & v1 & v2 & v3 & v4 & v5 & v6 & Hd & Hra & Hav).
  destruct (cd_balances _ _ _ _ _ _ _ _ _ Hck) as (o3 & wa & wb & Hsame & Hbal).
  apply requestor_check_passes in Hra as (Hr1 & Hr2 & Hr3). apply available_check_passes in Hav.
  apply balance_check_passes in Hbal; [|done]. split; try done.
  - by exists out, o1, w1.
  - split; congruence.
  - apply ste_bind_Ok in Hd as (cfg & v7 & Hcfg & [= Hd _]). apply read_config_Ok in Hcfg.
    exists cfg, v1, v7. split; [done|]. intros (ds & Hds & Hin).
    apply (Hr2 ds); [congruence|done].
  - apply unexpected_Ok in Hgp. exists units, gp. split_and!; [congruence|by eauto|done].
Qed.

(** C22. The pricer only forwards orders it has vetted.  The record of the
    channel to the committer shows, for any run of the pricing task of an order
    and whatever its result: at most one order is handed to the channel, the task
    answers that the order was accepted exactly when the channel took one, and
    whatever was handed to it carries the decision of [price_order] on the
    request that came in; its requestor was allowed and not denied by the
    configuration, its selector is supported, the database knew neither a lock
    that a lock order needs nor a fulfillment of an order to fulfill after the
    lock, and, unless the broker only listens, the cost of the gas recorded on
    it fits in the balance left by the committed orders and its collateral in
    the collateral balance.  What was read is what the configuration, the lists,
    the database and the chain answered when they were asked. *)
Theorem forwarded_order_vetted o cut (w : W) :
  let '(r, (_, log)) :=
    price_order_and_update_state (W := W * sends) selectors token_decimals listen_only o cut
      (w, []) in
  (length log <= 1)%nat
  /\ (r = Ok true <-> exists sent, log = [(sent, true)])
  /\ forall sent delivered, (sent, delivered) ∈ log -> vetted o w sent.
Proof.
  destruct (price_order_and_update_state (W := W * sends) selectors token_decimals listen_only
    o cut (w, [])) as [r [w' log]] eqn:E.
  assert (Hnone : log = [] -> r <> Ok true -> (length log <= 1)%nat
    /\ (r = Ok true <-> exists sent, log = [(sent, true)])
    /\ forall sent delivered, (sent, delivered) ∈ log -> vetted o w sent).
  { intros -> Hr. split; [simpl; lia|]. split; [split; [done|by intros []]|].
    by intros sent d Hin%not_elem_of_nil. }
  apply update_state_inv in E as [[E ->]|(r1 & o1 & [w1 l1] & r2 & Ep & Ef & Hr)].
  - simpl in E. destruct (px_abandon o w) as [[] w1]. injection E as _ <-. by apply Hnone.
  - pose proof (price_order_preserves snd o pricer_calls_preserve (w, [])) as Hlog.
    rewrite Ep in Hlog. simpl in Hlog. subst l1.
    apply forward_order_sends in Ef as [[-> Hr2]|(out & sent & d & -> & Hcar & -> & Hr2)].
    { apply Hnone; [done|]. by rewrite Hr. }
    pose proof (carried_order_vetted _ _ _ _ _ _ Ep Hcar) as Hv. rewrite Hr2 in Hr.
    split; [simpl; lia|]. split; [naive_solver|].
    by intros s2 d2 [= -> ->]%list_elem_of_singleton.
Qed.

End Channel.

Section Unset.
Context {W : Type} `{Externals} `{BrokerDb W} `{PricerEnv W}.

(** An order to be locked is sent without the time of its pricing. *)
Lemma lock_leaves_priced_at_unset t o (w : W) w' :
  forward_order (Ok (Lock t)) o w = (Ok true, w') -> priced_at_timestamp o = None ->
  exists sent w1, px_send_priced sent w1 = (true, w') /\ priced_at_timestamp sent = None.
Proof. intros [_ Hs]%send_priced_Ok Hn. by exists (lock_fields t o), w. Qed.

End Unset.

(** ** Active preflights

    Cancellation tokens are named by numbers. *)

Record PreflightHandle := mkHandle { cancel_token : nat; ph_fulfillment_type : FulfillmentType }.

Notation ActivePreflights := (gmap Z (gmap string PreflightHandle)).

Section Active.
Context `{Externals}.

Definition active_insert (o : OrderRequest) (token : nat) (self : ActivePreflights)
    : ActivePreflights :=
  let request_id := reqId (request o) in
  <[request_id := <[order_id o := mkHandle token (fulfillment_type o)]>
                    (default ∅ (self !! request_id))]> self.

Definition active_remove (request_id : Z) (id : string) (self : ActivePreflights)
    : ActivePreflights :=
  match self !! request_id with
  | Some tasks =>
      let tasks := delete id tasks in
      if bool_decide (tasks = ∅) then delete request_id self else <[request_id := tasks]> self
  | None => self
  end.

Definition active_contains (request_id : Z) (id : string) (self : ActivePreflights) : bool :=
  match self !! request_id with
  | Some tasks => bool_decide (is_Some (tasks !! id))
  | None => false
  end.

Definition tokens_of (tasks : gmap string PreflightHandle) : gset nat :=
  list_to_set (cancel_token <$> (map_to_list tasks).*2).

(** The tasks left and the tokens that are cancelled. *)
Definition cancel_lock_and_fulfill (request_id : Z) (self : ActivePreflights)
    : ActivePreflights * gset nat :=
  match self !! request_id with
  | None => (self, ∅)
  | Some tasks =>
      let kept := filter (fun '(_, h) => ph_fulfillment_type h <> LockAndFulfill) tasks in
      let dropped := filter (fun '(_, h) => ph_fulfillment_type h = LockAndFulfill) tasks in
      (if bool_decide (kept = ∅) then delete request_id self else <[request_id := kept]> self,
       tokens_of dropped)
  end.

Definition cancel_all (request_id : Z) (self : ActivePreflights) : ActivePreflights * gset nat :=
  match self !! request_id with
  | None => (self, ∅)
  | Some tasks => (delete request_id self, tokens_of tasks)
  end.

End Active.

(** ** The run loop *)

(** The service with its tasks: the running ones, the ended ones that were not
    joined yet with their outcome ([None] for a panic), and the cancelled
    tokens. *)
Record PricerState := mkPricerState {
  active_preflights : ActivePreflights;
  running : gmap nat OrderRequest;
  ended : gmap nat (OrderRequest * option PreflightOutcome);
  cancelled : gset nat;
  next_token : nat
}.

Definition pricer_start : PricerState := mkPricerState ∅ ∅ ∅ ∅ 0.

Inductive PricerEvent :=
| RecvOrder (o : OrderRequest)
| RecvState (sc : OrderStateChange)
| TaskEnds (token : nat) (cut : bool)
| JoinNext (token : nat)
| LogTick.

(** What the loop did about an order. *)
Inductive PricerLog :=
| Answered (c : PreflightComplete) (delivered : bool)
| LostToPanic (id : string) (request_id : Z).

Section Run.
Context {W : Type} `{Externals} `{BrokerDb W} `{PricerEnv W}.
Context (selectors : SupportedSelectors) (token_decimals : Z) (listen_only : bool).
Context (self_chain_id : Z).

Definition complete (id : string) (request_id chain : Z) (outcome : PreflightOutcome)
    : st W (list PricerLog) :=
  let c := mkPreflightComplete id request_id chain outcome in
  delivered ← px_try_complete c;
  mret [Answered c delivered].

Definition spawn (o : OrderRequest) (s : PricerState) : PricerState :=
  mkPricerState (active_insert o (next_token s) (active_preflights s))
    (<[next_token s := o]> (running s)) (ended s) (cancelled s) (S (next_token s)).

Definition recv_order (o : OrderRequest) (s : PricerState)
    : st W (PricerState * list PricerLog) :=
  let id := order_id o in
  let request_id := reqId (request o) in
  if active_contains request_id id (active_preflights s) then
    log ← complete id request_id (chain_id o) PfSkipped;
    mret (s, log)
  else
    known ← px_cache_get id;
    if known : bool then
      log ← complete id request_id (chain_id o) PfSkipped;
      mret (s, log)
    else
      _ ← px_cache_insert id;
      mret (spawn o s, []).

Definition with_cancelled (s : PricerState) (r : ActivePreflights * gset nat) : PricerState :=
  mkPricerState r.1 (running s) (ended s) (r.2 ∪ cancelled s) (next_token s).

Definition recv_state (sc : OrderStateChange) (s : PricerState) : PricerState :=
  if negb (sc_chain_id sc =? self_chain_id) then s else
  match sc with
  | ScLocked request_id _ _ =>
      with_cancelled s (cancel_lock_and_fulfill request_id (active_preflights s))
  | ScFulfilled request_id _ =>
      with_cancelled s (cancel_all request_id (active_preflights s))
  end.

Definition outcome_of (accepted is_cancelled : bool) : PreflightOutcome :=
  match accepted, is_cancelled with
  | true, _ => PfPriced
  | false, true => PfCancelled
  | false, false => PfSkipped
  end.

(** The body of a task, up to its outcome.  The cancellation can cut the
    pricing short only when the token is cancelled. *)
Definition task_ends (token : nat) (cut : bool) (s : PricerState) : st W PricerState :=
  match running s !! token with
  | None => mret s
  | Some o => fun w =>
      let is_cancelled := bool_decide (token ∈ cancelled s) in
      let '(r, w') := price_order_and_update_state selectors token_decimals listen_only o
                        (cut && is_cancelled) w in
      let outcome := match r with Ok b => Some (outcome_of b is_cancelled) | _ => None end in
      (mkPricerState (active_preflights s) (delete token (running s))
         (<[token := (o, outcome)]> (ended s)) (cancelled s) (next_token s), w')
  end.

Definition join_next (token : nat) (s : PricerState) : st W (PricerState * list PricerLog) :=
  match ended s !! token with
  | None => mret (s, [])
  | Some (o, Some outcome) =>
      let id := order_id o in
      let request_id := reqId (request o) in
      log ← complete id request_id self_chain_id outcome;
      mret (mkPricerState (active_remove request_id id (active_preflights s)) (running s)
              (delete token (ended s)) (cancelled s) (next_token s), log)
  | Some (o, None) =>
      mret (mkPricerState (active_preflights s) (running s) (delete token (ended s)) (cancelled s)
              (next_token s), [LostToPanic (order_id o) (reqId (request o))])
  end.

Definition pricer_step (ev : PricerEvent) (s : PricerState) : st W (PricerState * list PricerLog) :=
  match ev with
  | RecvOrder o => recv_order o s
  | RecvState sc => mret (recv_state sc s, [])
  | TaskEnds token cut => s' ← task_ends token cut s; mret (s', [])
  | JoinNext token => join_next token s
  | LogTick => mret (s, [])
  end.

(** The loop until cancellation; then the tasks are joined and their results
    dropped. *)
Fixpoint pricer_run (evs : list PricerEvent) (s : PricerState)
    : st W (PricerState * list PricerLog) :=
  match evs with
  | [] => mret (s, [])
  | ev :: evs =>
      '(s, log) ← pricer_step ev s;
      '(s, log') ← pricer_run evs s;
      mret (s, log ++ log')
  end.

End Run.

(** ** Accounting *)

Section Accounts.
Context `{Externals}.

Definition key (o : OrderRequest) : string * Z := (order_id o, reqId (request o)).

Definition received (ev : PricerEvent) : list (string * Z) :=
  match ev with RecvOrder o => [key o] | _ => [] end.

Definition log_key (l : PricerLog) : string * Z :=
  match l with
  | Answered c _ => (pf_order_id c, pf_request_id c)
  | LostToPanic id request_id => (id, request_id)
  end.

Definition lost (log : list PricerLog) : list (string * Z) :=
  omap (fun l => match l with LostToPanic id r => Some (id, r) | Answered _ _ => None end) log.

(** The orders that the tasks hold. *)
Definition held (s : PricerState) : list (string * Z) :=
  (key <$> (map_to_list (running s)).*2) ++ ((fun e => key e.1) <$> (map_to_list (ended s)).*2).

Definition registered (s : PricerState) (request_id : Z) (id : string) : option PreflightHandle :=
  active_preflights s !! request_id ≫= fun tasks => tasks !! id.

(** The order of a task that was not joined yet. *)
Definition task_order (s : PricerState) (token : nat) : option OrderRequest :=
  match running s !! token with
  | Some o => Some o
  | None => fst <$> ended s !! token
  end.

(** Tokens are fresh, and an order that is registered has a task that was not
    cancelled, of its type, or lost its task to a panic. *)
Record pricer_inv (s : PricerState) (gone : list (string * Z)) : Prop := {
  pi_running t : is_Some (running s !! t) -> (t < next_token s)%nat /\ ended s !! t = None;
  pi_ended t : is_Some (ended s !! t) -> (t < next_token s)%nat;
  pi_cancelled t : t ∈ cancelled s -> (t < next_token s)%nat;
  pi_registered request_id id h :
    registered s request_id id = Some h ->
    cancel_token h ∉ cancelled s /\ (cancel_token h < next_token s)%nat
    /\ ((exists o, task_order s (cancel_token h) = Some o /\ key o = (id, request_id)
           /\ fulfillment_type o = ph_fulfillment_type h)
        \/ (id, request_id) ∈ gone);
  pi_token r1 i1 h1 r2 i2 h2 :
    registered s r1 i1 = Some h1 -> registered s r2 i2 = Some h2 ->
    cancel_token h1 = cancel_token h2 -> r1 = r2 /\ i1 = i2
}.

Lemma registered_insert s o t r i :
  registered (mkPricerState (active_insert o t (active_preflights s)) (running s) (ended s)
                (cancelled s) (next_token s)) r i
  = if bool_decide ((i, r) = key o) then Some (mkHandle t (fulfillment_type o))
    else registered s r i.
Proof.
  unfold registered, active_insert, key. simpl.
  destruct (decide (r = reqId (request o))) as [->|Hr].
  - rewrite lookup_insert_eq. simpl. destruct (decide (i = order_id o)) as [->|Hi].
    + by rewrite lookup_insert_eq, bool_decide_eq_true_2.
    + rewrite lookup_insert_ne by done. rewrite bool_decide_eq_false_2 by congruence.
      by destruct (active_preflights s !! _).
  - rewrite lookup_insert_ne by done. by rewrite bool_decide_eq_false_2 by congruence.
Qed.

Lemma lookup_delete_if (m : ActivePreflights) r (tasks : gmap string PreflightHandle) (i : string) r' :
  (if bool_decide (tasks = ∅) then delete r m else <[r := tasks]> m) !! r'
    ≫= (fun t => t !! i)
  = if bool_decide (r' = r) then tasks !! i else m !! r' ≫= fun t => t !! i.
Proof.
  destruct (decide (r' = r)) as [->|Hne].
  - rewrite (bool_decide_eq_true_2 (r = r)) by done. case_bool_decide as Ht.
    + by rewrite lookup_delete_eq, Ht, lookup_empty.
    + by rewrite lookup_insert_eq.
  - rewrite (bool_decide_eq_false_2 (r' = r)) by done.
    case_bool_decide; [by rewrite lookup_delete_ne|by rewrite lookup_insert_ne].
Qed.

Lemma registered_remove (a : ActivePreflights) r (i : string) r' (i' : string) :
  active_remove r i a !! r' ≫= (fun t => t !! i')
  = if bool_decide ((i', r') = (i, r)) then None else a !! r' ≫= fun t => t !! i'.
Proof.
  unfold active_remove. destruct (a !! r) as [tasks|] eqn:E.
  - rewrite lookup_delete_if. destruct (decide (r' = r)) as [->|Hr].
    + rewrite bool_decide_eq_true_2, E by done. simpl. destruct (decide (i' = i)) as [->|Hi].
      * by rewrite lookup_delete_eq, bool_decide_eq_true_2.
      * by rewrite lookup_delete_ne, bool_decide_eq_false_2 by congruence.
    + by rewrite !bool_decide_eq_false_2 by congruence.
  - case_bool_decide as Hk; [|done]. injection Hk as -> ->. by rewrite E.
Qed.

(** A cancellation drops the handles of a request that satisfy [P], and
    cancels their tokens. *)
Definition cancels (P : PreflightHandle -> Prop) (r : Z) (a : ActivePreflights)
    (res : ActivePreflights * gset nat) : Prop :=
  (forall r' (i : string) h, res.1 !! r' ≫= (fun t => t !! i) = Some h <->
     a !! r' ≫= (fun t => t !! i) = Some h /\ ~ (r' = r /\ P h))
  /\ (forall t, t ∈ res.2 <-> exists (i : string) h,
        a !! r ≫= (fun t => t !! i) = Some h /\ P h /\ cancel_token h = t).

Lemma elem_of_tokens (tasks : gmap string PreflightHandle) t :
  t ∈ tokens_of tasks <-> exists i h, tasks !! i = Some h /\ cancel_token h = t.
Proof.
  unfold tokens_of. rewrite elem_of_list_to_set, list_elem_of_fmap. split.
  - intros (h & -> & Hin). apply list_elem_of_fmap in Hin as ([i h'] & -> & Hin).
    apply elem_of_map_to_list in Hin. by exists i, h'.
  - intros (i & h & Hi & <-). exists h. split; [done|]. apply list_elem_of_fmap.
    exists (i, h). split; [done|]. by apply elem_of_map_to_list.
Qed.

Lemma cancel_lock_and_fulfill_spec r a :
  cancels (fun h => ph_fulfillment_type h = LockAndFulfill) r a (cancel_lock_and_fulfill r a).
Proof.
  unfold cancel_lock_and_fulfill. destruct (a !! r) as [tasks|] eqn:E; split; simpl.
  - intros r' i h. rewrite lookup_delete_if. case_bool_decide as Hr.
    + subst r'. rewrite E. simpl. rewrite map_lookup_filter_Some. naive_solver.
    + naive_solver.
  - intros t. rewrite elem_of_tokens, E. simpl. setoid_rewrite map_lookup_filter_Some. naive_solver.
  - intros r' i h. split; [|naive_solver]. intros Hh. split; [done|]. intros [-> _].
    by rewrite E in Hh.
  - intros t. split; [set_solver|]. rewrite E. naive_solver.
Qed.

Lemma cancel_all_spec r a : cancels (fun _ => True) r a (cancel_all r a).
Proof.
  unfold cancel_all. destruct (a !! r) as [tasks|] eqn:E; split; simpl.
  - intros r' i h. destruct (decide (r' = r)) as [->|Hr].
    + rewrite lookup_delete_eq. naive_solver.
    + rewrite lookup_delete_ne by done. naive_solver.
  - intros t. rewrite elem_of_tokens, E. simpl. naive_solver.
  - intros r' i h. split; [|naive_solver]. intros Hh. split; [done|]. intros [-> _].
    by rewrite E in Hh.
  - intros t. split; [set_solver|]. rewrite E. naive_solver.
Qed.

Lemma cancels_inv P r s res gone :
  pricer_inv s gone -> cancels P r (active_preflights s) res -> pricer_inv (with_cancelled s res) gone.
Proof.
  intros [Hr He Hc Hg Ht] [Hl Htok]. split; simpl; try done.
  - intros t [Hin|?]%elem_of_union; [|by apply Hc].
    apply Htok in Hin as (i & h & Hh & _ & <-). by apply Hg in Hh as (_ & ? & _).
  - intros r' i h Hh. unfold registered in Hh. simpl in Hh. apply Hl in Hh as [Hh HnP].
    destruct (Hg _ _ _ Hh) as (Hn & Hlt & Ho). split_and!; [|done|done].
    intros [Hin|?]%elem_of_union; [|done]. apply Htok in Hin as (i2 & h2 & Hh2 & HP & Heq).
    destruct (Ht _ _ _ _ _ _ Hh2 Hh Heq) as [-> ->]. unfold registered in *. naive_solver congruence.
  - intros r1 i1 h1 r2 i2 h2 H1 H2. unfold registered in *. simpl in *.
    apply Hl in H1 as [H1 _], H2 as [H2 _]. by apply (Ht r1 i1 h1 r2 i2 h2).
Qed.

Lemma spawn_inv o s gone : pricer_inv s gone -> pricer_inv (spawn o s) gone.
Proof.
  intros [Hr He Hc Hg Ht]. set (n := next_token s) in *.
  assert (Hreg : forall r i, registered (spawn o s) r i
    = if bool_decide ((i, r) = key o) then Some (mkHandle n (fulfillment_type o))
      else registered s r i) by (intros; apply registered_insert).
  assert (Hen : ended s !! n = None).
  { destruct (ended s !! n) eqn:E; [|done]. specialize (He n ltac:(by eexists)). lia. }
  split; simpl; fold n.
  - intros t. destruct (decide (t = n)) as [->|Hn]; [intros _; split; [lia|done]|].
    rewrite lookup_insert_ne by done. intros [? ?]%Hr. split; [lia|done].
  - intros t ?%He. lia.
  - intros t ?%Hc. lia.
  - intros r i h. rewrite Hreg. case_bool_decide as Hk.
    + intros [= <-]. simpl. split_and!; [intros ?%Hc; lia|lia|]. left. exists o.
      unfold task_order. simpl. rewrite lookup_insert_eq. by split_and!.
    + intros Hh. destruct (Hg _ _ _ Hh) as (? & ? & Ho). split_and!; [done|lia|].
      destruct Ho as [(o' & Ho & ?)|]; [left; exists o'; split; [|done]|by right].
      unfold task_order in *. simpl. by rewrite lookup_insert_ne by lia.
  - intros r1 i1 h1 r2 i2 h2. rewrite !Hreg.
    destruct (bool_decide ((i1, r1) = key o)) eqn:K1, (bool_decide ((i2, r2) = key o)) eqn:K2.
    + intros _ _ _. apply bool_decide_eq_true in K1, K2. rewrite <- K2 in K1. by injection K1.
    + intros [= <-] Hh. destruct (Hg _ _ _ Hh) as (_ & ? & _). simpl. lia.
    + intros Hh [= <-]. destruct (Hg _ _ _ Hh) as (_ & ? & _). simpl. lia.
    + apply Ht.
Qed.

(** The end of a task keeps its order. *)
Lemma ends_inv t o outcome s gone :
  pricer_inv s gone -> running s !! t = Some o ->
  pricer_inv (mkPricerState (active_preflights s) (delete t (running s))
    (<[t := (o, outcome)]> (ended s)) (cancelled s) (next_token s)) gone.
Proof.
  intros [Hr He Hc Hg Ht] Ho. destruct (Hr t ltac:(by eexists)) as [Hlt Hen].
  split; simpl; try done.
  - intros t'. destruct (decide (t' = t)) as [->|Hn].
    + rewrite lookup_delete_eq. by intros [].
    + rewrite lookup_delete_ne, lookup_insert_ne by done. apply Hr.
  - intros t'. destruct (decide (t' = t)) as [->|Hn]; [done|].
    rewrite lookup_insert_ne by done. apply He.
  - intros r i h Hh. destruct (Hg _ _ _ Hh) as (? & ? & Hor). split_and!; [done|done|].
    destruct Hor as [(o' & Ho' & ?)|]; [left; exists o'; split; [|done]|by right].
    unfold task_order in *. simpl. destruct (decide (cancel_token h = t)) as [Heq|Hn].
    + rewrite Heq in *. rewrite Ho in Ho'. by rewrite lookup_delete_eq, lookup_insert_eq.
    + by rewrite lookup_delete_ne, lookup_insert_ne by done.
Qed.

(** A joined task leaves the registry, by its key or by its panic. *)
Lemma join_inv t o outcome a gone gone' s :
  pricer_inv s gone -> ended s !! t = Some (o, outcome) ->
  (forall r (i : string) h, a !! r ≫= (fun m => m !! i) = Some h -> registered s r i = Some h) ->
  (forall r (i : string) h, a !! r ≫= (fun m => m !! i) = Some h -> (i, r) = key o ->
     (i, r) ∈ gone') ->
  (forall x, x ∈ gone -> x ∈ gone') ->
  pricer_inv (mkPricerState a (running s) (delete t (ended s)) (cancelled s) (next_token s)) gone'.
Proof.
  intros [Hr He Hc Hg Ht] Ho Hsub Hkey Hgone. split; simpl; try done.
  - intros t' ?. destruct (Hr t' ltac:(done)) as [? Hen]. split; [done|].
    destruct (decide (t' = t)) as [->|]; [by rewrite lookup_delete_eq|by rewrite lookup_delete_ne].
  - intros t'. destruct (decide (t' = t)) as [->|Hn].
    + rewrite lookup_delete_eq. by intros [].
    + rewrite lookup_delete_ne by done. apply He.
  - intros r i h Hh. unfold registered in Hh. simpl in Hh.
    destruct (Hg _ _ _ (Hsub _ _ _ Hh)) as (? & ? & Hor). split_and!; [done|done|].
    destruct Hor as [(o' & Ho' & Hk & Hty)|]; [|right; by apply Hgone].
    unfold task_order in *. simpl. destruct (running s !! cancel_token h) as [o2|] eqn:E.
    { left. by exists o'. }
    destruct (decide (cancel_token h = t)) as [Heq|Hn].
    + right. rewrite Heq, Ho in Ho'. injection Ho' as <-. by apply (Hkey r i h).
    + left. exists o'. by rewrite lookup_delete_ne.
  - intros r1 i1 h1 r2 i2 h2 H1 H2. unfold registered in H1, H2. simpl in H1, H2.
    apply Hsub in H1, H2. by apply (Ht r1 i1 h1 r2 i2 h2).
Qed.

Lemma held_spawn o s gone : pricer_inv s gone -> held (spawn o s) ≡ₚ key o :: held s.
Proof.
  intros Hi. unfold held, spawn. simpl. rewrite map_to_list_insert; [done|].
  destruct (running s !! next_token s) eqn:E; [|done].
  destruct (pi_running _ _ Hi (next_token s) ltac:(by eexists)). lia.
Qed.

Lemma held_ends t o outcome s gone :
  pricer_inv s gone -> running s !! t = Some o ->
  held (mkPricerState (active_preflights s) (delete t (running s))
    (<[t := (o, outcome)]> (ended s)) (cancelled s) (next_token s)) ≡ₚ held s.
Proof.
  intros Hi Ho. destruct (pi_running _ _ Hi t ltac:(by eexists)) as [_ Hen].
  unfold held. simpl. rewrite map_to_list_insert by done.
  rewrite <- (map_to_list_delete (running s) t o Ho). simpl.
  by rewrite <- Permutation_middle.
Qed.

Lemma held_join t o outcome a s :
  ended s !! t = Some (o, outcome) ->
  held s ≡ₚ key o :: held (mkPricerState a (running s) (delete t (ended s)) (cancelled s)
                             (next_token s)).
Proof.
  intros Ho. unfold held. simpl. rewrite <- (map_to_list_delete (ended s) t _ Ho). simpl.
  by rewrite <- Permutation_middle.
Qed.

End Accounts.

Section RunSpecs.
Context {W : Type} `{Externals} `{BrokerDb W} `{PricerEnv W}.
Context (selectors : SupportedSelectors) (token_decimals : Z) (listen_only : bool).
Context (self_chain_id : Z).

Lemma complete_log id r c out (w : W) :
  exists d w', complete id r c out w = ([Answered (mkPreflightComplete id r c out) d], w').
Proof.
  unfold complete, mbind, st_bind. destruct (px_try_complete _ w) as [d w']. by exists d, w'.
Qed.

Lemma step_accounts ev s gone (w : W) s' log w' :
  pricer_inv s gone ->
  pricer_step selectors token_decimals listen_only self_chain_id ev s w = ((s', log), w') ->
  pricer_inv s' (gone ++ lost log) /\ held s' ++ (log_key <$> log) ≡ₚ received ev ++ held s.
Proof.
  intros Hi. destruct ev as [o|sc|t cut|t|]; simpl.
  - unfold recv_order. destruct (active_contains _ _ _).
    + destruct (complete_log (order_id o) (reqId (request o)) (chain_id o) PfSkipped w)
        as (d & w1 & E). unfold mbind, st_bind. rewrite E. intros [= <- <- <-].
      rewrite app_nil_r. split; [done|]. simpl. by rewrite <- Permutation_cons_append.
    + unfold mbind, st_bind. destruct (px_cache_get (order_id o) w) as [[] w1].
      * destruct (complete_log (order_id o) (reqId (request o)) (chain_id o) PfSkipped w1)
          as (d & w2 & E). rewrite E. intros [= <- <- <-].
        rewrite app_nil_r. split; [done|]. simpl. by rewrite <- Permutation_cons_append.
      * destruct (px_cache_insert _ w1) as [[] w2]. intros [= <- <- <-]. simpl.
        rewrite !app_nil_r. split; [by apply spawn_inv|by eapply held_spawn].
  - intros [= <- <- <-]. simpl. rewrite !app_nil_r. unfold recv_state.
    destruct (negb _); [done|]. split.
    + destruct sc; eapply cancels_inv; eauto using cancel_lock_and_fulfill_spec, cancel_all_spec.
    + by destruct sc.
  - unfold mbind, st_bind. destruct (task_ends _ _ _ t cut s w) as [s1 w1] eqn:E.
    intros [= <- <- <-]. simpl. rewrite !app_nil_r. unfold task_ends in E.
    destruct (running s !! t) as [o|] eqn:Ho; [|by injection E as <- <-].
    destruct (price_order_and_update_state _ _ _ _ _ _) as [r w2]. injection E as <- <-.
    split; [by apply ends_inv|by eapply held_ends].
  - unfold join_next. destruct (ended s !! t) as [[o [out|]]|] eqn:Ho.
    + destruct (complete_log (order_id o) (reqId (request o)) self_chain_id out w)
        as (d & w1 & E). unfold mbind, st_bind. rewrite E. intros [= <- <- <-].
      rewrite app_nil_r. split.
      * eapply join_inv; [done|done|..|done].
        -- intros r i h. rewrite registered_remove. by case_bool_decide.
        -- intros r i h. rewrite registered_remove. by case_bool_decide.
      * rewrite (held_join t o _ (active_remove (reqId (request o)) (order_id o)
          (active_preflights s)) s Ho). simpl. by rewrite <- Permutation_cons_append.
    + intros [= <- <- <-]. split.
      * eapply join_inv; [done|done|done|..].
        -- intros r i h _ ->. set_solver.
        -- set_solver.
      * rewrite (held_join t o None (active_preflights s) s Ho). simpl.
        by rewrite <- Permutation_cons_append.
    + intros [= <- <- <-]. by rewrite !app_nil_r.
  - intros [= <- <- <-]. by rewrite !app_nil_r.
Qed.

Lemma run_accounts evs s gone (w : W) s' log w' :
  pricer_inv s gone ->
  pricer_run selectors token_decimals listen_only self_chain_id evs s w = ((s', log), w') ->
  pricer_inv s' (gone ++ lost log)
  /\ held s' ++ (log_key <$> log) ≡ₚ (evs ≫= received) ++ held s.
Proof.
  revert s gone w s' log w'. induction evs as [|ev evs IH]; intros s gone w s' log w' Hi; simpl.
  { intros [= <- <- <-]. by rewrite !app_nil_r. }
  unfold mbind at 1, st_bind at 1.
  destruct (pricer_step _ _ _ _ ev s w) as [[s1 log1] w1] eqn:E1.
  unfold mbind at 1, st_bind at 1.
  destruct (pricer_run _ _ _ _ evs s1 w1) as [[s2 log2] w2] eqn:E2. intros [= <- <- <-].
  apply step_accounts with (gone := gone) in E1 as [Hi1 Hp1]; [|done].
  apply IH with (gone := gone ++ lost log1) in E2 as [Hi2 Hp2]; [|done]. split.
  - unfold lost in *. by rewrite omap_app, app_assoc.
  - rewrite fmap_app, (Permutation_app_comm (log_key <$> log1)), app_assoc, Hp2, <- app_assoc, Hp1.
    change ((ev :: evs) ≫= received) with (received ev ++ (evs ≫= received)).
    by rewrite !app_assoc, (Permutation_app_comm (received ev)).
Qed.

(** The pricer accounts for every order it receives, whatever the
    interleaving of its loop, its tasks and the broadcasts: each one is
    answered to the evaluator once, or held by a task that has not been joined,
    or was lost to a task that panicked.  And the registry of active preflights
    only holds tasks that were not cancelled, each under the identifiers and
    the type of its order, or orders lost to a panic. *)
Theorem pricer_accounts evs (w : W) :
  let '((s, log), _) :=
    pricer_run selectors token_decimals listen_only self_chain_id evs pricer_start w in
  held s ++ (log_key <$> log) ≡ₚ (evs ≫= received)
  /\ forall request_id id h, registered s request_id id = Some h ->
     cancel_token h ∉ cancelled s
     /\ ((exists o, task_order s (cancel_token h) = Some o /\ key o = (id, request_id)
            /\ fulfillment_type o = ph_fulfillment_type h)
         \/ LostToPanic id request_id ∈ log).
Proof.
  destruct (pricer_run _ _ _ _ evs pricer_start w) as [[s log] w'] eqn:E.
  apply run_accounts with (gone := []) in E as [Hi Hp].
  2: { split; simpl; try done; by intros t []. }
  split; [by rewrite Hp, app_nil_r|]. intros r i h Hh.
  destruct (pi_registered _ _ Hi _ _ _ Hh) as (Hc & _ & Ho). split; [done|].
  destruct Ho as [|Hg]; [by left|right]. apply list_elem_of_omap in Hg as ([c d|id r'] & Hin & Hl);
    [done|]. by injection Hl as -> ->.
Qed.

End RunSpecs.

(** ** Witness and examples *)

(** An empty database. *)
Definition toy_broker_db : BrokerDb Z := {|
  db_insert_accepted_request := fun _ _ w => (Err SqlUniqueViolation, w);
  db_get_committed_orders := fun w => (Ok [], w);
  db_is_request_locked := fun _ w => (Ok false, w);
  db_get_request_locked := fun _ w => (Ok None, w);
  db_is_request_fulfilled := fun _ w => (Ok false, w)
|}.

Definition toy_pricer_config : PricerConfig :=
  mkPricerConfig toy_config (Some {[ 5 ]}) (Some [77]) None None false.

(** A preflight that counts [cycles]. *)
Definition toy_pricer_env (cycles : Z) : PricerEnv Z := {|
  px_now := fun w => (w, w);
  px_lock_all := fun w => (Some toy_pricer_config, w);
  px_allow_requestors := fun w => (requestors_new 1, w);
  px_priority_requestors := fun w => (requestors_new 1, w);
  px_current_gas_price := fun w => (Ok 1, w);
  px_get_balance := fun w => (Ok 1000000, w);
  px_balance_of_collateral := fun w => (Ok 1000000, w);
  px_fulfillment_gas := fun _ w => (Ok 10, w);
  px_additional_proof_cycles := fun _ w => (Ok 0, w);
  px_evaluate_request := fun _ _ w =>
    (Ok (EvalSuccess "e" (mkMetrics cycles cycles) "p" "i" [x02; x07]), w);
  px_estimate_erc1271_gas := fun o w => (estimate_erc1271_gas_default o, w);
  px_convert := fun a target w => (Ok (mkAmount (amount_value a) target), w);
  px_digest_from_hex := fun _ => Some (repeat x01 32);
  px_send_priced := fun _ w => (true, w);
  px_abandon := fun _ w => (tt, w);
  px_cache_get := fun _ w => (false, w);
  px_cache_insert := fun _ w => (tt, w);
  px_try_complete := fun _ w => (true, w)
|}.

(** The order of the tests is forwarded once, and refused when it is skipped. *)
Definition toy_task (cycles : Z) (o : OrderRequest) :=
  @price_order_and_update_state (Z * sends) toy_externals
    (@recorded_db Z toy_broker_db) (@recorded_env Z (toy_pricer_env cycles))
    (supported_default false) 18 false o false (950, []).

Example toy_order_forwarded :
  let '(r, (_, log)) := toy_task 2000000 (toy_order LockAndFulfill) in
  r = Ok true /\ exists sent, log = [(sent, true)] /\ total_cycles sent = Some 2000000.
Proof. vm_compute. split; [done|]. by eexists. Qed.

Example toy_order_skipped :
  let '(r, (_, log)) := toy_task 100000000000 (toy_order LockAndFulfill) in r = Ok false /\ log = [].
Proof. vm_compute. done. Qed.

(** A task that panics, as pricing does on a preflight of no cycles, leaves its
    order registered: no completion is sent for it, and the order is refused as
    already being processed from then on. *)
Lemma panicked_order_stays_registered :
  let o := toy_order LockAndFulfill in
  let '((s, log), _) :=
    @pricer_run Z toy_externals toy_broker_db (toy_pricer_env 0) (supported_default false) 18 false 1
      [RecvOrder o; TaskEnds 0 false; JoinNext 0; RecvOrder o] pricer_start 950 in
  log = [LostToPanic toy_id (reqId (request o));
         Answered (mkPreflightComplete toy_id (reqId (request o)) 1 PfSkipped) true]
  /\ running s = ∅ /\ is_Some (registered s (reqId (request o)) toy_id).
Proof. vm_compute. split; [done|]. split; [done|]. by eexists. Qed.
