(* ===== verification/Committer.v ===== *)
(** * Committer: global proving capacity

    [crates/broker/src/order_committer/service.rs] with its [state.rs] and
    [types.rs]: priced orders wait until their target time and until a slot is
    free, are filtered by the time the prover needs, and are dispatched to the
    lockers; completions free the slots.

    The class [CommitterEnv] holds what the service reads and calls: the two
    clocks, the random draws of the prioritization, and the non-blocking send
    on a locker's channel.  [commit_orders] returns, beside the new queue and
    slots, the log of what became of the orders that left the queue: the sends
    and the drops of the source.  The branches of the [select!] of the run loop
    are the events of [LoopEvent], so that a run is a sequence of events; log
    messages and telemetry are not modelled.

    What the clock and the channels answered is observed from outside, in the record
    that [recorded_committer] adds to any environment; [fates_right] relates the log
    to it. *)

From S2P Require Import Prelude Market Auction OrderPricing Prioritization.

Local Open Scope Z_scope.

Inductive CommitmentOutcome := OutcomeSkipped | OutcomeProvingCompleted | OutcomeProvingFailed.

Record CommitmentComplete := mkCompletion {
  cc_order_id : string;
  cc_chain_id : Z;
  cc_outcome : CommitmentOutcome
}.

(** [dispatched_at] is an [Instant] in nanoseconds. *)
Record InFlightOrder := mkInFlight {
  dispatched_at : Z;
  if_total_cycles : option Z;
  if_additional_proof_cycles : Z;
  if_proving_started_at : option Z
}.

Record CommitterConfig := mkCommitterConfig {
  max_concurrent_proofs : nat;
  max_commitment_duration_secs : Z;
  cc_peak_prove_khz : option Z;
  cc_additional_proof_cycles : Z;
  batch_buffer_time_secs : Z;
  order_commitment_priority : OrderCommitmentPriority
}.

Definition MAX_PROVING_BATCH_SIZE : nat := 10.

Inductive SendResult := Sent | Full | Closed.

Class CommitterEnv (W : Type) := {
  clock_now : st W Z;
  instant_now : st W Z;
  draw_entropy : st W (nat -> Entropy);
  try_send : Z -> OrderRequest -> st W SendResult
}.

(** What became of an order that left the queue. *)
Inductive Fate := Dispatched | SkippedForever | NoChannel | ChannelClosed.

#[export] Instance Fate_eq_dec : EqDecision Fate.
Proof. solve_decision. Defined.

(** [collect_priority_levels]: static addresses at the default level, merged
    with the remote lists; the higher level wins. *)
Definition merge_level (merged : gmap Z Z) (entry : Z * Z) : gmap Z Z :=
  let '(address, level) := entry in
  match merged !! address with
  | Some existing => <[address := Z.max existing level]> merged
  | None => <[address := level]> merged
  end.

Definition collect_priority_levels (static_addresses : option (list Z))
    (dynamic_levels : list (list (Z * Z))) : gmap Z Z :=
  let merged := foldl (fun m a => <[a := DEFAULT_PRIORITY_LEVEL]> m) ∅
                  (default [] static_addresses) in
  foldl (fun m pr => foldl merge_level m pr) merged dynamic_levels.

(** [estimate_prover_available_at]; [now] is the clock it reads. *)
Definition committed_cycles (in_flight : gmap string InFlightOrder) : Z :=
  foldr (wadd 64) 0
    (omap (fun o => (fun c => wadd 64 c (if_additional_proof_cycles o)) <$> if_total_cycles o)
       (map_to_list in_flight).*2).

Definition earliest_start (in_flight : gmap string InFlightOrder) : option Z :=
  foldr (fun s m => Some (match m with Some m => Z.min s m | None => s end)) None
    (omap if_proving_started_at (map_to_list in_flight).*2).

Definition estimate_prover_available_at (now : Z) (in_flight : gmap string InFlightOrder)
    (peak_prove_khz : Z) : result unit Z :=
  if bool_decide (in_flight = ∅) then Ok now else
  let started_proving_at := default now (earliest_start in_flight) in
  proof_time_seconds ← checked_div_ceil (div_ceil (committed_cycles in_flight) 1000) peak_prove_khz;
  let prover_available_at := wadd 64 started_proving_at proof_time_seconds in
  mret (if prover_available_at <? now then now else prover_available_at).

Definition proof_cycles (default_additional : Z) (o : OrderRequest) (order_cycles : Z) : Z :=
  wadd 64 order_cycles (default default_additional (additional_proof_cycles o)).

(** The loop of the [peak_prove_khz] filter: kept, queued again, dropped. *)
Fixpoint timing_filter (khz now buffer additional avail : Z) (selected : list OrderRequest)
    : result unit (list OrderRequest * list OrderRequest * list OrderRequest) :=
  match selected with
  | [] => Ok ([], [], [])
  | o :: rest =>
      match total_cycles o with
      | None =>
          '(kept, requeued, dropped) ← timing_filter khz now buffer additional avail rest;
          mret (o :: kept, requeued, dropped)
      | Some order_cycles =>
          proof_time_seconds ←
            checked_div_ceil (div_ceil (proof_cycles additional o order_cycles) 1000) khz;
          let completion_time := wadd 64 avail proof_time_seconds in
          let expiration := expiry o in
          if expiration <? wadd 64 completion_time buffer then
            '(kept, requeued, dropped) ← timing_filter khz now buffer additional avail rest;
            if expiration <? wadd 64 now proof_time_seconds
            then mret (kept, requeued, o :: dropped)
            else mret (kept, o :: requeued, dropped)
          else
            '(kept, requeued, dropped) ←
              timing_filter khz now buffer additional completion_time rest;
            mret (o :: kept, requeued, dropped)
      end
  end.

Definition is_ready (now : Z) (o : OrderRequest) : bool :=
  match target_timestamp o with Some t => t <=? now | None => true end.

Section Committer.
Context {W : Type} `{Externals} `{CommitterEnv W}.
(** The chains with a locker. *)
Context (locker_dispatchers : gset Z).

(** The dispatch loop, with the queue, the slots and the log. *)
Fixpoint dispatch (config : CommitterConfig) (selected pending : list OrderRequest)
    (in_flight : gmap string InFlightOrder)
    : st W (list OrderRequest * gmap string InFlightOrder * list (OrderRequest * Fate)) :=
  match selected with
  | [] => mret (pending, in_flight, [])
  | o :: rest =>
      if bool_decide (chain_id o ∉ locker_dispatchers) then
        '(p, f, log) ← dispatch config rest pending in_flight;
        mret (p, f, (o, NoChannel) :: log)
      else
        at_ ← instant_now;
        started ← clock_now;
        let slot := mkInFlight at_ (total_cycles o)
          (default (cc_additional_proof_cycles config) (additional_proof_cycles o))
          (Some started) in
        let in_flight := <[order_id o := slot]> in_flight in
        sent ← try_send (chain_id o) o;
        match sent with
        | Sent =>
            '(p, f, log) ← dispatch config rest pending in_flight;
            mret (p, f, (o, Dispatched) :: log)
        | Full =>
            dispatch config rest (pending ++ [o]) (delete (order_id o) in_flight)
        | Closed =>
            '(p, f, log) ← dispatch config rest pending (delete (order_id o) in_flight);
            mret (p, f, (o, ChannelClosed) :: log)
        end
  end.

(** The [peak_prove_khz] stage: the kept orders, the queue and the drops. *)
Definition apply_timing (config : CommitterConfig) (in_flight : gmap string InFlightOrder)
    (selected pending : list OrderRequest)
    : ste W unit (list OrderRequest * list OrderRequest * list (OrderRequest * Fate)) :=
  match cc_peak_prove_khz config with
  | None => mret (selected, pending, [])
  | Some khz =>
      now ← lift clock_now;
      avail ← liftr (estimate_prover_available_at now in_flight khz);
      now2 ← lift clock_now;
      '(kept, requeued, dropped) ←
        liftr (timing_filter khz now2 (batch_buffer_time_secs config)
                 (cc_additional_proof_cycles config) avail selected);
      mret (kept, pending ++ requeued, (fun o => (o, SkippedForever)) <$> dropped)
  end.

Definition commit_orders (config : CommitterConfig) (priority_levels : gmap Z Z)
    (pending : list OrderRequest) (in_flight : gmap string InFlightOrder)
    : ste W unit (list OrderRequest * gmap string InFlightOrder * list (OrderRequest * Fate)) :=
  if bool_decide (pending = []) then mret (pending, in_flight, []) else
  if bool_decide (max_concurrent_proofs config <= size in_flight)%nat
  then mret (pending, in_flight, []) else
  now ← lift clock_now;
  let ready := filter (fun o => is_ready now o = true) pending in
  let not_ready := filter (fun o => is_ready now o = false) pending in
  if bool_decide (ready = []) then mret (not_ready, in_flight, []) else
  let available_capacity :=
    Nat.min (max_concurrent_proofs config - size in_flight) MAX_PROVING_BATCH_SIZE in
  env ← lift draw_entropy;
  '(selected, remaining) ← liftr (prioritize_orders_to_commit ready
     (order_commitment_priority config) (Some priority_levels) available_capacity
     (cc_peak_prove_khz config) env);
  '(kept, pending, dropped) ← apply_timing config in_flight selected (not_ready ++ remaining);
  '(pending, in_flight, log) ← lift (dispatch config kept pending in_flight);
  mret (pending, in_flight, dropped ++ log).

(** [reap_stale_capacity]; [instant] is the monotonic clock. *)
Definition reap_stale_capacity (instant max_age_secs : Z) (in_flight : gmap string InFlightOrder)
    : gmap string InFlightOrder :=
  filter (fun '(_, info) => ~ (max_age_secs * 1000000000 < instant - dispatched_at info))
    in_flight.

(** *** The run loop *)

Inductive OrderCommitterErr := ConfigReadErr.

Record CommitterState := mkCommitterState {
  pending_orders : list OrderRequest;
  in_flight : gmap string InFlightOrder;
  committer_config : CommitterConfig;
  cs_priority_levels : gmap Z Z
}.

Inductive LoopEvent :=
| EvPriced (o : OrderRequest)
| EvCompletion (c : CommitmentComplete)
| EvLocked (request_id : Z) (prover chain : Z)
| EvFulfilled (request_id : Z) (chain : Z)
| EvTick (read : option (CommitterConfig * gmap Z Z)).

Definition locked_out (request_id chain : Z) (o : OrderRequest) : bool :=
  (reqId (request o) =? request_id) && (chain_id o =? chain)
  && bool_decide (fulfillment_type o = LockAndFulfill).

Definition fulfilled_out (request_id chain : Z) (o : OrderRequest) : bool :=
  (reqId (request o) =? request_id) && (chain_id o =? chain).

(** The branch of the [select!] that an event takes. *)
Definition handle_event (ev : LoopEvent) (s : CommitterState)
    : ste W OrderCommitterErr CommitterState :=
  match ev with
  | EvPriced o =>
      mret (mkCommitterState (pending_orders s ++ [o]) (in_flight s) (committer_config s)
              (cs_priority_levels s))
  | EvCompletion c =>
      mret (mkCommitterState (pending_orders s) (delete (cc_order_id c) (in_flight s))
              (committer_config s) (cs_priority_levels s))
  | EvLocked request_id _ chain =>
      mret (mkCommitterState
              (filter (fun o => locked_out request_id chain o = false) (pending_orders s))
              (in_flight s) (committer_config s) (cs_priority_levels s))
  | EvFulfilled request_id chain =>
      mret (mkCommitterState
              (filter (fun o => fulfilled_out request_id chain o = false) (pending_orders s))
              (in_flight s) (committer_config s) (cs_priority_levels s))
  | EvTick None => throw ConfigReadErr
  | EvTick (Some (config, levels)) =>
      instant ← lift instant_now;
      mret (mkCommitterState (pending_orders s)
              (reap_stale_capacity instant (max_commitment_duration_secs config) (in_flight s))
              config levels)
  end.

(** The call of [commit_orders] at the end of a turn of the loop. *)
Definition commit_turn (s : CommitterState)
    : ste W OrderCommitterErr (CommitterState * list (OrderRequest * Fate)) := fun w =>
  match commit_orders (committer_config s) (cs_priority_levels s) (pending_orders s)
          (in_flight s) w with
  | (Ok (p, f, log), w') =>
      (Ok (mkCommitterState p f (committer_config s) (cs_priority_levels s), log), w')
  | (_, w') => (Panic, w')
  end.

(** One turn of the loop: an event, then [commit_orders]. *)
Definition loop_turn (ev : LoopEvent) (s : CommitterState)
    : ste W OrderCommitterErr (CommitterState * list (OrderRequest * Fate)) :=
  s ← handle_event ev s;
  commit_turn s.

(** A run until cancellation, over the events it sees. *)
Fixpoint run_loop (evs : list LoopEvent) (s : CommitterState)
    : ste W OrderCommitterErr (CommitterState * list (OrderRequest * Fate)) :=
  match evs with
  | [] => mret (s, [])
  | ev :: evs =>
      '(s, log) ← loop_turn ev s;
      '(s, log') ← run_loop evs s;
      mret (s, log ++ log')
  end.

End Committer.

(** ** Conservation of orders *)

Lemma timing_filter_perm khz now buffer add avail sel kept rq dr :
  timing_filter khz now buffer add avail sel = Ok (kept, rq, dr) ->
  kept ++ rq ++ dr ≡ₚ sel.
Proof.
  revert avail kept rq dr. induction sel as [|o sel IH]; intros avail kept rq dr; simpl.
  - by intros [= <- <- <-].
  - destruct (total_cycles o) as [oc|].
    + intros Hr. apply result_bind_Ok in Hr as (secs & _ & Hr).
      bcase_in Hr; apply result_bind_Ok in Hr as ([[k r] d] & E & Hr); apply IH in E.
      * bcase_in Hr; injection Hr as <- <- <-; rewrite <- E; by solve_Permutation.
      * injection Hr as <- <- <-. by rewrite <- E.
    + intros Hr. apply result_bind_Ok in Hr as ([[k r] d] & E & [= <- <- <-]).
      apply IH in E. by rewrite <- E.
Qed.

Lemma st_bind_eq {W A B} (m : st W A) (f : A -> st W B) w :
  (m ≫= f) w = f (m w).1 (m w).2.
Proof. unfold mbind, st_bind. by destruct (m w). Qed.

Section Dispatch.
Context {W : Type} `{Externals} `{CommitterEnv W}.
Context (lockers : gset Z).

Lemma dispatch_conserves config sel pending f w p' f' log w' :
  dispatch lockers config sel pending f w = ((p', f', log), w') ->
  (exists again, p' = pending ++ again /\ again ++ log.*1 ≡ₚ sel)
  /\ (size f' <= size f + length sel)%nat.
Proof.
  revert pending f w p' f' log w'.
  induction sel as [|o sel IH]; intros pending f w p' f' log w'; simpl.
  - intros [= <- <- <- <-]. split; [|lia]. exists []. by rewrite app_nil_r.
  - assert (Hins : forall x : InFlightOrder, (size (<[order_id o := x]> f) <= S (size f))%nat).
    { intros x. rewrite map_size_insert. destruct (f !! order_id o); unfold id; lia. }
    assert (Hdel : forall x : InFlightOrder,
      (size (delete (order_id o) (<[order_id o := x]> f)) <= size f)%nat).
    { intros x. rewrite delete_insert_eq, map_size_delete. destruct (f !! order_id o);
        unfold id; lia. }
    assert (Hlog : forall again (log1 : list (OrderRequest * Fate)) fate, again ++ log1.*1 ≡ₚ sel ->
      again ++ ((o, fate) :: log1).*1 ≡ₚ o :: sel).
    { intros again log1 fate Hp. rewrite fmap_cons. simpl. by rewrite <- Permutation_middle, Hp. }
    case_bool_decide.
    + rewrite st_bind_eq. destruct (dispatch _ _ _ _ _ _) as [[[p1 f1] log1] w1] eqn:E.
      intros [= <- <- <- <-]. apply IH in E as [(again & -> & Hp) Hs]. split; [eauto|lia].
    + rewrite !st_bind_eq. destruct (try_send _ _ _) as [[| |] w2] eqn:Es; simpl.
      * rewrite st_bind_eq. destruct (dispatch _ _ _ _ _ _) as [[[p1 f1] log1] w1] eqn:E.
        intros [= <- <- <- <-]. apply IH in E as [(again & -> & Hp) Hs]. split; [eauto|].
        etrans; [exact Hs|]. etrans; [apply Nat.add_le_mono_r, Hins|]. lia.
      * intros E. apply IH in E as [(again & -> & Hp) Hs]. split.
        -- exists (o :: again). rewrite <- app_assoc. split; [done|]. simpl. by rewrite Hp.
        -- etrans; [exact Hs|]. etrans; [apply Nat.add_le_mono_r, Hdel|]. lia.
      * rewrite st_bind_eq. destruct (dispatch _ _ _ _ _ _) as [[[p1 f1] log1] w1] eqn:E.
        intros [= <- <- <- <-]. apply IH in E as [(again & -> & Hp) Hs]. split; [eauto|].
        etrans; [exact Hs|]. etrans; [apply Nat.add_le_mono_r, Hdel|]. lia.
Qed.

End Dispatch.

Lemma filter_bool_perm {A} (b : A -> bool) (l : list A) :
  filter (fun x => b x = true) l ++ filter (fun x => b x = false) l ≡ₚ l.
Proof.
  induction l as [|x l IH]; [done|]. rewrite !filter_cons.
  destruct (b x); simpl; rewrite <- ?Permutation_middle; by rewrite IH.
Qed.

Section CommitOrders.
Context {W : Type} `{Externals} `{CommitterEnv W}.
Context (lockers : gset Z).
Context (Hentropy : forall (w : W) k, entropy_ok ((draw_entropy w).1 k)).

Lemma prioritize_conserves ready prio lv cap khz env sel rest :
  (forall k, entropy_ok (env k)) ->
  prioritize_orders_to_commit ready prio lv cap khz env = Ok (sel, rest) ->
  sel ++ rest ≡ₚ ready /\ (length sel <= cap)%nat.
Proof.
  intros He. unfold prioritize_orders_to_commit. case_bool_decide; cbn [orb].
  { intros [= <- <-]. split; [done|simpl; lia]. }
  case_bool_decide; [intros [= <- <-]; split; [done|simpl; lia]|]. intros Hr.
  apply result_bind_Ok in Hr as (sorted & E & [= <- <-]). rewrite take_drop.
  split; [by eapply sort_orders_perm|]. rewrite length_take. lia.
Qed.

Lemma apply_timing_conserves config f sel pending w kept p' dropped w' :
  apply_timing config f sel pending w = (Ok (kept, p', dropped), w') ->
  exists again, p' = pending ++ again /\ kept ++ again ++ dropped.*1 ≡ₚ sel.
Proof.
  unfold apply_timing. destruct (cc_peak_prove_khz config) as [khz|].
  - intros Hr. bind_step Hr now w1 E1. bind_step Hr avail w2 E2. bind_step Hr now2 w3 E3.
    bind_step Hr x w4 E4. destruct x as [[k r] d]. apply liftr_Ok in E4 as [E4 ->].
    injection Hr as <- <- <- <-. apply timing_filter_perm in E4.
    exists r. split; [done|]. rewrite <- list_fmap_compose.
    rewrite (list_fmap_ext (fst ∘ (fun o => (o, SkippedForever))) id d) by done.
    by rewrite list_fmap_id.
  - intros [= <- <- <- <-]. exists []. by rewrite !app_nil_r.
Qed.

Lemma commit_orders_ok config lv pending f w p' f' log w' :
  commit_orders lockers config lv pending f w = (Ok (p', f', log), w') ->
  p' ++ log.*1 ≡ₚ pending
  /\ (size f' <= Nat.max (size f) (max_concurrent_proofs config))%nat
  /\ (length log <= MAX_PROVING_BATCH_SIZE)%nat
  /\ (log = [] \/ exists now w1, clock_now w = (now, w1)
       /\ Forall (fun e => is_ready now e.1 = true) log).
Proof.
  unfold commit_orders. case_bool_decide as Hp.
  { intros [= <- <- <- <-]. rewrite app_nil_r. split_and!; [done|lia|simpl; lia|by left]. }
  case_bool_decide as Hcap.
  { intros [= <- <- <- <-]. rewrite app_nil_r. split_and!; [done|lia|simpl; lia|by left]. }
  intros Hr. bind_step Hr now w1 E1. apply lift_Ok in E1.
  set (ready := filter (fun o => is_ready now o = true) pending) in *.
  set (not_ready := filter (fun o => is_ready now o = false) pending) in *.
  assert (Hpart : ready ++ not_ready ≡ₚ pending) by apply filter_bool_perm.
  case_bool_decide as Hre.
  { injection Hr as <- <- <- <-. rewrite Hre in Hpart. rewrite app_nil_r.
    split_and!; [done|lia|simpl; lia|by left]. }
  bind_step Hr env w2 E2. apply lift_Ok in E2.
  bind_step Hr x w3 E3. destruct x as [sel rest]. apply liftr_Ok in E3 as [E3 ->].
  bind_step Hr y w4 E4. destruct y as [[kept p1] dropped].
  bind_step Hr z w5 E5. destruct z as [[p2 f2] log2]. apply lift_Ok in E5.
  injection Hr as <- <- <- <-.
  assert (He : forall k, entropy_ok (env k)).
  { intros k. specialize (Hentropy w1 k). by rewrite E2 in Hentropy. }
  apply prioritize_conserves in E3 as [Hsel Hlen]; [|done].
  apply apply_timing_conserves in E4 as (again1 & -> & Ht).
  apply dispatch_conserves in E5 as [(again2 & -> & Hd) Hs].
  assert (Hall : (again2 ++ log2.*1) ++ again1 ++ dropped.*1 ≡ₚ sel) by (by rewrite Hd).
  assert (Hlog : (dropped ++ log2).*1 ++ again1 ++ again2 ≡ₚ sel).
  { rewrite <- Hall, fmap_app. solve_Permutation. }
  pose proof (Permutation_length Hlog) as Hll. rewrite !length_app, length_fmap, length_app in Hll.
  pose proof (Permutation_length Ht) as Hlt. rewrite length_app in Hlt.
  split_and!.
  - rewrite <- Hpart, <- Hsel, <- Hlog. solve_Permutation.
  - lia.
  - rewrite length_app. unfold MAX_PROVING_BATCH_SIZE in *. lia.
  - right. exists now, w1. split; [done|]. rewrite <- (Forall_fmap fst (fun o => is_ready now o = true)).
    assert (Hsub : Forall (fun o => is_ready now o = true) sel).
    { assert (Forall (fun o => is_ready now o = true) (sel ++ rest)) as Hsr.
      { rewrite Hsel. apply Forall_forall. intros o. unfold ready.
        rewrite list_elem_of_filter. by intros [? _]. }
      by apply Forall_app in Hsr as [? _]. }
    rewrite <- Hlog in Hsub. by apply Forall_app in Hsub as [? _].
Qed.

End CommitOrders.

(** ** The schedule *)

(** Seconds the prover needs for an order at its peak rate. *)
Definition proof_secs (khz additional : Z) (o : OrderRequest) : Z :=
  match total_cycles o with
  | Some c => div_ceil (div_ceil (proof_cycles additional o c) 1000) khz
  | None => 0
  end.

Definition total_secs (khz additional : Z) (l : list OrderRequest) : Z :=
  foldr (fun o s => proof_secs khz additional o + s) 0 l.

(** Proving the orders one after the other from [avail] on, each is done a
    buffer before it expires. *)
Fixpoint meets_expiry (khz additional buffer avail : Z) (l : list OrderRequest) : Prop :=
  match l with
  | [] => True
  | o :: l =>
      (is_Some (total_cycles o) -> avail + proof_secs khz additional o + buffer <= expiry o)
      /\ meets_expiry khz additional buffer (avail + proof_secs khz additional o) l
  end.

Lemma proof_secs_nonneg khz add o : 0 < khz -> 0 <= proof_secs khz add o.
Proof.
  intros Hk. unfold proof_secs. destruct (total_cycles o); [|lia].
  apply div_ceil_nonneg; [|done]. apply div_ceil_nonneg; [|lia]. apply wrap_fits. lia.
Qed.

Lemma total_secs_nonneg khz add l : 0 < khz -> 0 <= total_secs khz add l.
Proof.
  intros Hk. induction l as [|o l IH]; simpl; [lia|].
  pose proof (proof_secs_nonneg khz add o Hk). lia.
Qed.

Lemma timing_filter_schedule khz now buffer add avail sel kept rq dr :
  0 < khz -> 0 <= avail -> 0 <= buffer -> 0 <= now ->
  avail + total_secs khz add sel + buffer < 2 ^ 64 -> now + total_secs khz add sel < 2 ^ 64 ->
  timing_filter khz now buffer add avail sel = Ok (kept, rq, dr) ->
  meets_expiry khz add buffer avail kept
  /\ Forall (fun o => now + proof_secs khz add o <= expiry o) rq
  /\ Forall (fun o => expiry o < now + proof_secs khz add o) dr.
Proof.
  intros Hk Ha Hb Hn. revert avail Ha kept rq dr.
  induction sel as [|o sel IH]; intros avail Ha kept rq dr Ht Ht'; simpl.
  - by intros [= <- <- <-].
  - simpl in Ht, Ht'. pose proof (proof_secs_nonneg khz add o Hk) as Hp.
    pose proof (total_secs_nonneg khz add sel Hk) as Hs.
    destruct (total_cycles o) as [c|] eqn:Ec.
    + assert (Hps : proof_secs khz add o = div_ceil (div_ceil (proof_cycles add o c) 1000) khz)
        by (unfold proof_secs; by rewrite Ec).
      rewrite checked_div_ceil_pos by done. simpl. rewrite <- Hps.
      rewrite (wadd_small 64 avail), (wadd_small 64 now), (wadd_small 64 (_ + _)) by fits_lia.
      intros Hr. bcase_in Hr; apply result_bind_Ok in Hr as ([[k r] d] & E & Hr).
      * apply IH in E as (H1 & H2 & H3); [|lia..].
        bcase_in Hr; injection Hr as <- <- <-; split_and!; try done; by constructor.
      * apply IH in E as (H1 & H2 & H3); [|lia..]. injection Hr as <- <- <-. simpl.
        split_and!; try done.
    + assert (Hps : proof_secs khz add o = 0) by (unfold proof_secs; by rewrite Ec).
      intros Hr. apply result_bind_Ok in Hr as ([[k r] d] & E & [= <- <- <-]).
      apply IH in E as (H1 & H2 & H3); [|lia..]. simpl. rewrite Ec, Hps, Z.add_0_r.
      split_and!; try done.
Qed.

(** ** Slots *)

(** The identifiers of the orders that were sent. *)
Definition sent_ids `{Externals} (log : list (OrderRequest * Fate)) : list string :=
  (fun e => order_id e.1) <$> filter (fun e => e.2 = Dispatched) log.

Section Slots.
Context {W : Type} `{Externals} `{CommitterEnv W}.
Context (lockers : gset Z).

Lemma dispatch_slots config sel pending f w p' f' log w' :
  NoDup (order_id <$> sel) -> (forall o, o ∈ sel -> f !! order_id o = None) ->
  dispatch lockers config sel pending f w = ((p', f', log), w') ->
  dom f' = dom f ∪ list_to_set (sent_ids log).
Proof.
  revert pending f w p' f' log w'.
  induction sel as [|o sel IH]; intros pending f w p' f' log w' Hn Hf; simpl.
  - intros [= <- <- <- <-]. set_solver.
  - rewrite fmap_cons in Hn. apply NoDup_cons in Hn as [Ho Hn].
    assert (Hfo : f !! order_id o = None) by (apply Hf; left).
    assert (Hf0 : forall o', o' ∈ sel -> f !! order_id o' = None) by (intros; apply Hf; by right).
    assert (Hf1 : forall (x : InFlightOrder) o', o' ∈ sel ->
      <[order_id o := x]> f !! order_id o' = None).
    { intros x o' Ho'. rewrite lookup_insert_ne; [by apply Hf0|].
      intros E. apply Ho. rewrite E. by apply list_elem_of_fmap_2. }
    assert (Hdel : forall x : InFlightOrder, delete (order_id o) (<[order_id o := x]> f) = f).
    { intros x. by apply delete_insert_id. }
    unfold sent_ids in *. case_bool_decide.
    + rewrite st_bind_eq. destruct (dispatch _ _ _ _ _ _) as [[[p1 f1] log1] w1] eqn:E.
      intros [= <- <- <- <-]. apply IH in E; [|done..]. by rewrite filter_cons_False.
    + rewrite !st_bind_eq. destruct (try_send _ _ _) as [[| |] w2] eqn:Es; simpl.
      * rewrite st_bind_eq. destruct (dispatch _ _ _ _ _ _) as [[[p1 f1] log1] w1] eqn:E.
        intros [= <- <- <- <-]. apply IH in E; [|done|apply Hf1].
        rewrite filter_cons_True, fmap_cons by done. simpl. rewrite E, dom_insert_L. set_solver.
      * intros E. rewrite Hdel in E. by apply IH in E.
      * rewrite st_bind_eq. destruct (dispatch _ _ _ _ _ _) as [[[p1 f1] log1] w1] eqn:E.
        intros [= <- <- <- <-]. rewrite Hdel in E. apply IH in E; [|done..].
        by rewrite filter_cons_False.
Qed.

End Slots.

(** ** What the clock and the channels answered

    The world with a record of the readings of the clock and of the orders that were
    offered to a channel, each with the answer.  Nothing else that the service calls
    writes that record, and the service cannot read it. *)

Inductive Asked :=
| AskedClock (now : Z)
| Offered (chain : Z) (o : OrderRequest) (answer : SendResult).

#[export] Instance SendResult_eq_dec : EqDecision SendResult.
Proof. solve_decision. Defined.

(** The orders that a channel answered in this way, with the chain of the channel. *)
Definition answered (answer : SendResult) (asked : list Asked) : list (Z * OrderRequest) :=
  omap (fun a => match a with
                 | Offered chain o answer' =>
                     if decide (answer' = answer) then Some (chain, o) else None
                 | AskedClock _ => None
                 end) asked.

(** The orders of the log that met this fate, with their chains. *)
Definition fated (fate : Fate) (log : list (OrderRequest * Fate)) : list (Z * OrderRequest) :=
  omap (fun e => if decide (e.2 = fate) then Some (chain_id e.1, e.1) else None) log.

(** By a reading of the clock, the order would expire before its proof is done even
    if the prover started at once. *)
Definition hopeless (config : CommitterConfig) (asked : list Asked) (o : OrderRequest) : Prop :=
  exists khz now cycles,
    cc_peak_prove_khz config = Some khz /\ AskedClock now ∈ asked /\ total_cycles o = Some cycles
    /\ expiry o < wadd 64 now
         (div_ceil (div_ceil (proof_cycles (cc_additional_proof_cycles config) o cycles) 1000) khz).

(** The log of fates is what the channels answered: an order is sent exactly when
    the channel of its chain takes it; the ones that meet a full channel, and only
    they, come back to the end of the queue; the others left for a reason. *)
Record fates_right (lockers : gset Z) (config : CommitterConfig) (asked : list Asked)
    (log : list (OrderRequest * Fate)) (refused : list OrderRequest) : Prop := {
  fr_sent : answered Sent asked = fated Dispatched log;
  fr_closed : answered Closed asked = fated ChannelClosed log;
  fr_full : answered Full asked = (fun o => (chain_id o, o)) <$> refused;
  fr_no_channel : Forall (fun e => e.2 <> SkippedForever ->
                     (e.2 = NoChannel <-> chain_id e.1 ∉ lockers)) log;
  fr_hopeless : Forall (fun e => e.2 = SkippedForever -> hopeless config asked e.1) log
}.

Section Recorded.
Context {W : Type} `{Externals} {Henv : CommitterEnv W}.

#[local] Instance recorded_committer : CommitterEnv (W * list Asked) := {|
  clock_now := fun '(w, asked) =>
    let (now, w') := clock_now w in (now, (w', asked ++ [AskedClock now]));
  instant_now := fun '(w, asked) => let (t, w') := instant_now w in (t, (w', asked));
  draw_entropy := fun '(w, asked) => let (e, w') := draw_entropy w in (e, (w', asked));
  try_send := fun chain o '(w, asked) =>
    let (answer, w') := try_send chain o w in (answer, (w', asked ++ [Offered chain o answer]))
|}.

Lemma answered_app a l1 l2 : answered a (l1 ++ l2) = answered a l1 ++ answered a l2.
Proof. apply omap_app. Qed.

Lemma fated_app x l1 l2 : fated x (l1 ++ l2) = fated x l1 ++ fated x l2.
Proof. apply omap_app. Qed.

Context (lockers : gset Z) (config : CommitterConfig).

Lemma dispatch_fates sel pending f w asked p' f' log w' asked' :
  dispatch (W := W * list Asked) lockers config sel pending f (w, asked)
    = ((p', f', log), (w', asked')) ->
  exists made refused, asked' = asked ++ made /\ p' = pending ++ refused
    /\ fates_right lockers config made log refused.
Proof.
  revert pending f w asked p' f' log w' asked'.
  induction sel as [|o sel IH]; intros pending f w asked p' f' log w' asked'; simpl.
  { intros [= <- <- <- <- <-]. exists [], []. rewrite !app_nil_r. by repeat constructor. }
  unfold mbind, st_bind. case_bool_decide as Hch.
  - destruct (dispatch _ _ _ _ _ _) as [[[p1 f1] log1] [w1 asked1]] eqn:Ed.
    intros [= <- <- <- <- <-]. apply IH in Ed as (made & refused & -> & -> & [F1 F2 F3 F4 F5]).
    exists made, refused. split; [done|]. split; [done|]. split; [done..|by constructor|by constructor].
  - unfold recorded_committer at 1 2 3. simpl.
    destruct (instant_now w) as [at_ w1], (clock_now w1) as [started w2].
    destruct (try_send (chain_id o) o w2) as [answer w3].
    assert (Hasked : forall made, asked ++ AskedClock started :: Offered (chain_id o) o answer :: made
      = ((asked ++ [AskedClock started]) ++ [Offered (chain_id o) o answer]) ++ made)
      by (intros made; by rewrite <- !app_assoc).
    assert (Hmono : forall made log1,
      Forall (fun e => e.2 = SkippedForever -> hopeless config made e.1) log1 ->
      Forall (fun e => e.2 = SkippedForever ->
        hopeless config (AskedClock started :: Offered (chain_id o) o answer :: made) e.1) log1).
    { intros made log1 HF. eapply Forall_impl; [exact HF|]. intros e Hh Hs.
      destruct (Hh Hs) as (khz & now & cy & ? & ? & ?). exists khz, now, cy.
      split; [done|]. split; [by do 2 right|done]. }
    destruct answer.
    + destruct (dispatch _ _ _ _ _ _) as [[[p1 f1] log1] [w4 asked1]] eqn:Ed.
      intros [= <- <- <- <- <-]. apply IH in Ed as (made & refused & -> & -> & [F1 F2 F3 F4 F5]).
      exists (AskedClock started :: Offered (chain_id o) o Sent :: made), refused.
      split; [by rewrite Hasked|]. split; [done|].
      split; simpl; [f_equal; exact F1|done..|by constructor|constructor; [done|by apply Hmono]].
    + intros Ed. apply IH in Ed as (made & refused & -> & -> & [F1 F2 F3 F4 F5]).
      exists (AskedClock started :: Offered (chain_id o) o Full :: made), (o :: refused).
      split; [by rewrite Hasked|]. split; [by rewrite <- app_assoc|].
      split; simpl; [done..|f_equal; exact F3|done|by apply Hmono].
    + destruct (dispatch _ _ _ _ _ _) as [[[p1 f1] log1] [w4 asked1]] eqn:Ed.
      intros [= <- <- <- <- <-]. apply IH in Ed as (made & refused & -> & -> & [F1 F2 F3 F4 F5]).
      exists (AskedClock started :: Offered (chain_id o) o Closed :: made), refused.
      split; [by rewrite Hasked|]. split; [done|].
      split; simpl; [done|f_equal; exact F2|done|by constructor|constructor; [done|by apply Hmono]].
Qed.

Lemma timing_filter_hopeless khz now buffer avail sel kept rq dr :
  timing_filter khz now buffer (cc_additional_proof_cycles config) avail sel = Ok (kept, rq, dr) ->
  cc_peak_prove_khz config = Some khz ->
  forall asked, AskedClock now ∈ asked -> Forall (hopeless config asked) dr.
Proof.
  intros Hr Hk asked Hin. revert avail kept rq dr Hr.
  induction sel as [|o sel IH]; intros avail kept rq dr; simpl; [by intros [= <- <- <-]|].
  destruct (total_cycles o) as [c|] eqn:Ec.
  - intros Hr. apply result_bind_Ok in Hr as (secs & Es & Hr).
    assert (secs = div_ceil (div_ceil (proof_cycles (cc_additional_proof_cycles config) o c) 1000) khz)
      as -> by (unfold checked_div_ceil in Es; destruct (khz =? 0); congruence).
    bcase_in Hr; apply result_bind_Ok in Hr as ([[k r] d] & Ed & Hr); apply IH in Ed.
    + bcase_in Hr; injection Hr as <- <- <-; [|done]. constructor; [|done].
      exists khz, now, c. by split_and!.
    + by injection Hr as <- <- <-.
  - intros Hr. apply result_bind_Ok in Hr as ([[k r] d] & Ed & [= <- <- <-]). by apply IH in Ed.
Qed.

Lemma apply_timing_hopeless f sel pending w asked kept p' dropped w' asked' :
  apply_timing config f sel pending (w, asked) = (Ok (kept, p', dropped), (w', asked')) ->
  exists made, asked' = asked ++ made /\ (forall a, answered a made = [])
    /\ Forall (fun e => e.2 = SkippedForever /\ hopeless config made e.1) dropped.
Proof.
  unfold apply_timing. destruct (cc_peak_prove_khz config) as [khz|] eqn:Ek.
  - unfold mbind, ste_bind, lift, liftr. simpl.
    destruct (clock_now w) as [now w1], (estimate_prover_available_at now f khz) as [avail|e|];
      [|done..]. simpl.
    destruct (clock_now w1) as [now2 w2], (timing_filter _ now2 _ _ _ _) as [[[k r] d]|e|] eqn:Et;
      [|done..].
    intros [= <- <- <- <- <-]. exists [AskedClock now; AskedClock now2].
    split; [by rewrite <- app_assoc|]. split; [done|].
    apply Forall_fmap. eapply Forall_impl;
      [eapply timing_filter_hopeless with (asked := [AskedClock now; AskedClock now2]); [done..|]|done].
    by right; left.
  - intros [= <- <- <- <- <-]. exists []. by rewrite app_nil_r.
Qed.

Lemma commit_orders_fates lv pending f w p' f' log w' asked :
  commit_orders (W := W * list Asked) lockers config lv pending f (w, [])
    = (Ok (p', f', log), (w', asked)) ->
  exists kept refused, p' = kept ++ refused /\ fates_right lockers config asked log refused.
Proof.
  unfold commit_orders. assert (Hnil : forall l, fates_right lockers config l [] [] <->
    forall a, answered a l = []).
  { intros l. split; [intros [F1 F2 F3 _ _] []; [exact F1|exact F3|exact F2]|].
    intros Hl. split; by rewrite ?Hl. }
  case_bool_decide. { intros [= <- <- <- <- <-]. exists pending, []. rewrite app_nil_r, Hnil. by split. }
  case_bool_decide. { intros [= <- <- <- <- <-]. exists pending, []. rewrite app_nil_r, Hnil. by split. }
  unfold mbind, ste_bind, lift, liftr. simpl. destruct (clock_now w) as [now w1].
  case_bool_decide.
  { intros [= <- <- <- <- <-]. eexists _, []. rewrite app_nil_r, Hnil. by split. }
  destruct (draw_entropy w1) as [env w2].
  destruct (prioritize_orders_to_commit _ _ _ _ _ _) as [[sel rest]|e|]; [|done..].
  destruct (apply_timing _ _ _ _ _) as [[[[kept p1] dropped]|e|] [w3 asked3]] eqn:Ea; [|done..].
  destruct (dispatch _ _ _ _ _ _) as [[[p2 f2] log2] [w4 asked4]] eqn:Ed.
  intros [= <- <- <- <- <-].
  apply apply_timing_hopeless in Ea as (made1 & -> & Hmade1 & Hdr).
  apply dispatch_fates in Ed as (made2 & refused & -> & -> & [F1 F2 F3 F4 F5]).
  exists p1, refused. split; [done|]. clear Hnil.
  assert (Hskip : forall fate, fate <> SkippedForever -> fated fate dropped = []).
  { intros fate Hne. unfold fated. clear -Hdr Hne. induction Hdr as [|[o x] l [Hx _] _ IH]; simpl in *; [done|].
    subst x. by rewrite decide_False. }
  assert (Hin : forall (P : Asked -> Prop) now', AskedClock now' ∈ made1 \/ AskedClock now' ∈ made2 ->
    AskedClock now' ∈ ([] ++ [AskedClock now]) ++ made1 ++ made2) by set_solver.
  split.
  - rewrite <- !app_assoc, !answered_app, Hmade1, fated_app, Hskip by done. exact F1.
  - rewrite <- !app_assoc, !answered_app, Hmade1, fated_app, Hskip by done. exact F2.
  - rewrite <- !app_assoc, !answered_app, Hmade1. exact F3.
  - apply Forall_app. split; [|done]. eapply Forall_impl; [exact Hdr|]. by intros e [-> _].
  - apply Forall_app. split; [eapply Forall_impl; [exact Hdr|]|eapply Forall_impl; [exact F5|]].
    + intros e [_ (khz & now' & c & ? & ? & ?)] _. exists khz, now', c. set_solver.
    + intros e Hh Hs. destruct (Hh Hs) as (khz & now' & c & ? & ? & ?). exists khz, now', c. set_solver.
Qed.
End Recorded.

(** ** Theorems *)

(** The draws of the prioritization are always in range. *)
Class FairEntropy (W : Type) `{CommitterEnv W} :=
  fair_entropy (w : W) k : entropy_ok ((draw_entropy w).1 k).

#[local] Existing Instance recorded_committer.

#[local] Instance recorded_fair {W} `{CommitterEnv W} :
  FairEntropy W -> FairEntropy (H := recorded_committer) (W * list Asked).
Proof.
  intros Hf [w asked] k. specialize (Hf w k). unfold draw_entropy, recorded_committer.
  destruct H as [a b d t]; simpl in *. by destruct (d w).
Qed.

(** C39. [commit_orders] loses no order and creates none: every pending order
    stays in the queue or leaves it with one recorded fate; only orders whose target
    time has been reached at the first reading of the clock leave, at most ten per
    call; and the slots in use do not exceed the configured number of concurrent
    proofs, unless they did before.  The fates are those that the world gave: the
    orders logged as sent are, in order, the ones that the channel of their own chain
    took, those logged for a closed channel the ones whose channel was closed, and
    the ones that met a full channel are at the end of the queue; without a
    channel are the orders of chains that have no locker; and an order is dropped
    for good only if, by a reading of the clock, it would expire before its proof is
    done even with a prover that starts at once.  [asked] is the record of the
    readings and of the channels over this call. *)
Theorem commit_orders_conserves {W} `{Externals} `{FairEntropy W} lockers config lv pending f
    (w : W) p' f' log w' asked :
  commit_orders (W := W * list Asked) lockers config lv pending f (w, [])
    = (Ok (p', f', log), (w', asked)) ->
  p' ++ log.*1 ≡ₚ pending
  /\ (size f' <= Nat.max (size f) (max_concurrent_proofs config))%nat
  /\ (length log <= MAX_PROVING_BATCH_SIZE)%nat
  /\ (log = [] \/ exists now w1, clock_now w = (now, w1)
       /\ Forall (fun e => is_ready now e.1 = true) log)
  /\ exists kept refused, p' = kept ++ refused /\ fates_right lockers config asked log refused.
Proof.
  intros Hr. pose proof (commit_orders_fates _ _ _ _ _ _ _ _ _ _ _ Hr) as Hf.
  apply commit_orders_ok in Hr as (Hp & Hs & Hl & Hready); [|apply fair_entropy].
  split; [done|]. split; [done|]. split; [done|]. split; [|done].
  destruct Hready as [->|(now & w1 & Hc & HF)]; [by left|right]. simpl in Hc.
  destruct (clock_now w) as [now0 w0]. injection Hc as -> _. by exists now, w0.
Qed.

(** With a proving rate configured, the orders that pass the timing filter
    can all be proved in the order they are kept, one after the other from the
    time the prover is free, each a buffer before it expires; an order is
    dropped for good only when even an idle prover would be too late, and one
    that an idle prover could finish is queued again. *)
Theorem timing_filter_meets_expiry khz now buffer additional avail sel kept requeued dropped :
  0 < khz -> 0 <= avail -> 0 <= buffer -> 0 <= now ->
  avail + total_secs khz additional sel + buffer < 2 ^ 64 ->
  now + total_secs khz additional sel < 2 ^ 64 ->
  timing_filter khz now buffer additional avail sel = Ok (kept, requeued, dropped) ->
  kept ++ requeued ++ dropped ≡ₚ sel
  /\ meets_expiry khz additional buffer avail kept
  /\ Forall (fun o => now + proof_secs khz additional o <= expiry o) requeued
  /\ Forall (fun o => expiry o < now + proof_secs khz additional o) dropped.
Proof.
  intros Hk Ha Hb Hn Ho Ho' Ht. split; [by eapply timing_filter_perm|].
  by eapply timing_filter_schedule.
Qed.

(** After a dispatch a slot is held for exactly the orders that held one
    before and the ones that were sent: an order that could not be sent keeps
    none, whether it is queued again or dropped. *)
Theorem dispatch_slots_exact {W} `{Externals} `{CommitterEnv W} lockers config sel pending f
    (w : W) p' f' log w' :
  NoDup (order_id <$> sel) -> (forall o, o ∈ sel -> f !! order_id o = None) ->
  dispatch lockers config sel pending f w = ((p', f', log), w') ->
  dom f' = dom f ∪ list_to_set (sent_ids log)
  /\ exists again, p' = pending ++ again /\ again ++ log.*1 ≡ₚ sel.
Proof.
  intros Hn Hf Hd. split; [by eapply dispatch_slots|].
  by apply dispatch_conserves in Hd as [? _].
Qed.

(** ** The run loop *)

Definition tick_within (M : nat) (ev : LoopEvent) : Prop :=
  match ev with
  | EvTick (Some (config, _)) => (max_concurrent_proofs config <= M)%nat
  | _ => True
  end.

Section Loop.
Context {W : Type} `{Externals} `{CommitterEnv W}.
Context (lockers : gset Z).

Lemma handle_event_within M ev s (w : W) s' w' :
  tick_within M ev -> (size (in_flight s) <= M)%nat ->
  (max_concurrent_proofs (committer_config s) <= M)%nat ->
  handle_event ev s w = (Ok s', w') ->
  (size (in_flight s') <= M)%nat /\ (max_concurrent_proofs (committer_config s') <= M)%nat.
Proof.
  intros Ht Hs Hc. destruct ev as [o|c|r p c|r c|[[cfg lv]|]]; simpl in *.
  - by intros [= <- <-].
  - intros [= <- <-]. simpl. split; [|done]. rewrite map_size_delete.
    destruct (in_flight s !! cc_order_id c); unfold id; lia.
  - by intros [= <- <-].
  - by intros [= <- <-].
  - intros Hr. bind_step Hr t w1 E1. injection Hr as <- <-. simpl. split; [|done].
    etrans; [|exact Hs]. apply map_subseteq_size, map_filter_subseteq.
  - done.
Qed.

End Loop.

(** Over any run of the service, however orders, completions, locks,
    fulfillments and configuration changes interleave, the number of slots in
    use never exceeds the largest number of concurrent proofs configured. *)
Theorem run_loop_capacity {W} `{Externals} `{FairEntropy W} lockers M evs s (w : W) s' log w' :
  Forall (tick_within M) evs ->
  (size (in_flight s) <= M)%nat -> (max_concurrent_proofs (committer_config s) <= M)%nat ->
  run_loop lockers evs s w = (Ok (s', log), w') ->
  (size (in_flight s') <= M)%nat /\ (max_concurrent_proofs (committer_config s') <= M)%nat.
Proof.
  intros Hev. revert s w log w'.
  induction Hev as [|ev evs Hev _ IH]; intros s w log w' Hs Hc; simpl.
  - by intros [= <- _ _].
  - intros Hr. bind_step Hr x w1 E1. destruct x as [s1 log1].
    unfold loop_turn in E1. bind_step E1 s2 w2 E2.
    apply (handle_event_within M) in E2 as [Hs2 Hc2]; [|done..].
    unfold commit_turn in E1.
    destruct (commit_orders _ _ _ _ _ w2) as [[[[p f] l]|e|] w3] eqn:E3; [|done..].
    injection E1 as <- <- <-.
    eapply commit_orders_ok in E3 as (_ & Hcap & _); [|apply fair_entropy].
    bind_step Hr y w4 E4. destruct y as [s4 log4]. injection Hr as <- _ _.
    eapply IH; [| |exact E4]; simpl; [lia|done].
Qed.

(** ** Witnesses *)

(** An environment whose world is the clock, with channels that take every
    order. *)
Definition toy_committer_env : CommitterEnv Z := {|
  clock_now := fun w => (w, w);
  instant_now := fun w => (w * 1000000000, w);
  draw_entropy := fun w => (toy_entropy, w);
  try_send := fun _ _ w => (Sent, w)
|}.

Lemma toy_fair : @FairEntropy Z toy_committer_env.
Proof. intros w k. apply toy_entropy_ok. Qed.

Definition toy_committer_config (n : nat) : CommitterConfig :=
  mkCommitterConfig n 3600 (Some 100) 0 5 CommitShortestExpiry.

Definition priced_order (client start : Z) : OrderRequest :=
  set_total_cycles (Some 2000000) (order_from client start).

(** The channel of the second requestor's order is full. *)
Definition toy_full_env : CommitterEnv Z := {|
  clock_now := fun w => (w, w);
  instant_now := fun w => (w * 1000000000, w);
  draw_entropy := fun w => (toy_entropy, w);
  try_send := fun _ o w => (if client_address (request o) =? 8 then Full else Sent, w)
|}.

Lemma toy_full_fair : @FairEntropy Z toy_full_env.
Proof. intros w k. apply toy_entropy_ok. Qed.

Definition toy_queue : list OrderRequest :=
  [priced_order 7 1000; priced_order 8 1002; priced_order 9 1001].

Definition toy_commit : result unit _ * (Z * list Asked) :=
  @commit_orders (Z * list Asked) toy_externals (@recorded_committer Z toy_full_env) {[ 1 ]}
    (toy_committer_config 3) ∅ toy_queue ∅ (950, []).

Lemma commit_orders_conserves_witness :
  exists p' f' log w' asked, toy_commit = (Ok (p', f', log), (w', asked))
    /\ answered Full asked = [(1, priced_order 8 1002)]
    /\ p' ++ log.*1 ≡ₚ toy_queue /\ answered Sent asked = fated Dispatched log.
Proof.
  assert (Hok : is_ok toy_commit.1 = true) by (vm_compute; reflexivity).
  assert (Hfull : answered Full (toy_commit.2).2 = [(1, priced_order 8 1002)])
    by (vm_compute; reflexivity).
  destruct toy_commit as [[[[p' f'] log]|e|] [w' asked]] eqn:E.
  - exists p', f', log, w', asked. split; [reflexivity|]. split; [exact Hfull|].
    destruct (@commit_orders_conserves Z toy_externals toy_full_env toy_full_fair {[ 1 ]}
      (toy_committer_config 3) ∅ toy_queue ∅ 950 p' f' log w' asked E)
      as (Hp & _ & _ & _ & kept & refused & _ & Hf).
    split; [exact Hp|exact (fr_sent _ _ _ _ _ Hf)].
  - discriminate Hok.
  - discriminate Hok.
Defined.

Definition toy_timing :=
  timing_filter 100 950 5 0 1020 [priced_order 7 1000; priced_order 8 1001].

Lemma timing_filter_meets_expiry_witness :
  exists kept requeued dropped,
    toy_timing = Ok (kept, requeued, dropped) /\ meets_expiry 100 0 5 1020 kept.
Proof.
  assert (Hok : is_ok toy_timing = true) by (vm_compute; reflexivity).
  destruct toy_timing as [[[k r] d]|e|] eqn:E.
  - exists k, r, d. split; [reflexivity|].
    apply (timing_filter_meets_expiry 100 950 5 0 1020
      [priced_order 7 1000; priced_order 8 1001] k r d); [lia..| | |exact E].
    + vm_compute. reflexivity.
    + vm_compute. reflexivity.
  - discriminate Hok.
  - discriminate Hok.
Defined.

Definition toy_dispatch :=
  @dispatch Z toy_externals toy_committer_env {[ 1 ]} (toy_committer_config 2)
    [priced_order 7 1000] [] ∅ 950.

Lemma dispatch_slots_exact_witness :
  exists p' f' log w', toy_dispatch = ((p', f', log), w')
    /\ dom f' = dom (∅ : gmap string InFlightOrder) ∪ list_to_set (@sent_ids toy_externals log).
Proof.
  destruct toy_dispatch as [[[p' f'] log] w'] eqn:E.
  exists p', f', log, w'. split; [reflexivity|].
  apply (@dispatch_slots_exact Z toy_externals toy_committer_env {[ 1 ]} (toy_committer_config 2)
    [priced_order 7 1000] [] ∅ 950 p' f' log w'); [apply NoDup_singleton| |exact E].
  intros o Ho. apply lookup_empty.
Defined.

Definition toy_state : CommitterState := mkCommitterState [] ∅ (toy_committer_config 2) ∅.

Definition toy_events : list LoopEvent :=
  [EvPriced (priced_order 7 1000); EvPriced (priced_order 8 1002); EvPriced (priced_order 9 1001);
   EvTick (Some (toy_committer_config 1, ∅))].

Definition toy_loop :=
  @run_loop Z toy_externals toy_committer_env {[ 1 ]} toy_events toy_state 950.

Lemma run_loop_capacity_witness :
  exists s' log w', toy_loop = (Ok (s', log), w') /\ (size (in_flight s') <= 2)%nat.
Proof.
  assert (Hok : is_ok toy_loop.1 = true) by (vm_compute; reflexivity).
  destruct toy_loop as [[[s' log]|e|] w'] eqn:E.
  - exists s', log, w'. split; [reflexivity|].
    apply (@run_loop_capacity Z toy_externals toy_committer_env toy_fair {[ 1 ]} 2 toy_events
      toy_state 950 s' log w'); [repeat constructor|vm_compute; lia|vm_compute; lia|exact E].
  - discriminate Hok.
  - discriminate Hok.
Defined.
