(* ===== verification/Evaluator.v ===== *)
(** * Evaluator: global preflight capacity

    [crates/broker/src/order_evaluator/service.rs]: new orders of all chains
    wait in one queue and are dispatched to the pricer of their chain while
    preflight slots are free; completions of the pricers, and the passing of an
    hour, free the slots.

    The class [EvaluatorEnv] holds the monotonic clock, the random draws of the
    prioritization, and the non-blocking send on a pricer's channel.  As in
    [Committer], a turn of the loop is an event followed by a dispatch, and
    what became of the orders that left the queue is returned as a log.  The
    reading of the configuration and of the requestor lists is part of the tick
    event.  Telemetry is not modelled. *)

From S2P Require Import Prelude Market Selector OrderPricing Prioritization Requestors Committer Db Pricer.

Local Open Scope Z_scope.

Definition DEFAULT_MAX_PREFLIGHT_DURATION_SECS : Z := 3600.

Class EvaluatorEnv (W : Type) := {
  ev_instant : st W Z;
  ev_entropy : st W (nat -> Entropy);
  ev_try_send : Z -> OrderRequest -> st W SendResult
}.

(** What became of an order that left the queue. *)
Inductive EvalFate := EfDispatched | EfNoChannel | EfChannelClosed | EfLocked | EfFulfilled.

#[export] Instance EvalFate_eq_dec : EqDecision EvalFate.
Proof. solve_decision. Defined.

(** What the service reads of the configuration. *)
Record EvaluatorConfig := mkEvaluatorConfig {
  max_concurrent_preflights : nat;
  order_pricing_priority : OrderPricingPriority;
  ec_priority_requestor_addresses : option (list Z)
}.

Record EvaluatorState := mkEvaluatorState {
  ev_pending : list OrderRequest;
  ev_in_flight : gmap string Z;
  ev_capacity : nat;
  ev_priority : OrderPricingPriority;
  ev_levels : gmap Z Z
}.

Inductive EvaluatorEvent :=
| EvNewOrder (o : OrderRequest)
| EvPreflightComplete (c : PreflightComplete)
| EvOrderState (sc : OrderStateChange)
(** the configuration, unless its lock is poisoned, and the remote lists *)
| EvCapacityTick (read : option EvaluatorConfig) (lists : list Requestors).

(** The second one is only logged, when a slot is reaped. *)
Inductive OrderEvaluatorErr :=
| OeConfigReadErr
| OeStaleCapacity (order_id : string) (elapsed_secs : Z).

(** The levels of the remote lists, merged into the static ones. *)
Definition evaluator_levels (static_addresses : option (list Z)) (lists : list Requestors)
    : gmap Z Z :=
  collect_priority_levels static_addresses ((fun r => map_to_list (dynamic_levels r)) <$> lists).

Section Evaluator.
Context {W : Type} `{Externals} `{EvaluatorEnv W}.
(** The chains with a pricer. *)
Context (chain_dispatchers : gset Z).

(** The loop over the selected orders. *)
Fixpoint dispatch_selected (selected pending : list OrderRequest) (in_flight : gmap string Z)
    : st W (list OrderRequest * gmap string Z * list (OrderRequest * EvalFate)) :=
  match selected with
  | [] => mret (pending, in_flight, [])
  | o :: rest =>
      if bool_decide (chain_id o ∉ chain_dispatchers) then
        '(p, f, log) ← dispatch_selected rest pending in_flight;
        mret (p, f, (o, EfNoChannel) :: log)
      else
        sent ← ev_try_send (chain_id o) o;
        match sent with
        | Sent =>
            now ← ev_instant;
            '(p, f, log) ← dispatch_selected rest pending (<[order_id o := now]> in_flight);
            mret (p, f, (o, EfDispatched) :: log)
        | Full => dispatch_selected rest (pending ++ [o]) in_flight
        | Closed =>
            '(p, f, log) ← dispatch_selected rest pending in_flight;
            mret (p, f, (o, EfChannelClosed) :: log)
        end
  end.

Definition dispatch_pending (s : EvaluatorState)
    : ste W OrderEvaluatorErr (EvaluatorState * list (OrderRequest * EvalFate)) :=
  if bool_decide (ev_pending s = []) || bool_decide (ev_capacity s <= size (ev_in_flight s))%nat
  then mret (s, []) else
  let available_capacity := (ev_capacity s - size (ev_in_flight s))%nat in
  env ← lift ev_entropy;
  '(selected, remaining) ←
    liftr (match prioritize_orders_to_evaluate (ev_pending s) (ev_priority s) (Some (ev_levels s))
                   available_capacity env with
           | Ok r => Ok r
           | _ => Panic
           end);
  '(p, f, log) ← lift (dispatch_selected selected remaining (ev_in_flight s));
  mret (mkEvaluatorState p f (ev_capacity s) (ev_priority s) (ev_levels s), log).

(** [reap_stale_capacity]; instants are in nanoseconds. *)
Definition reap_stale_preflights (now max_age_secs : Z) (in_flight : gmap string Z)
    : gmap string Z :=
  filter (fun '(_, at_) => ~ (max_age_secs * 1000000000 < now - at_)) in_flight.

Definition with_pending (p : list OrderRequest) (s : EvaluatorState) : EvaluatorState :=
  mkEvaluatorState p (ev_in_flight s) (ev_capacity s) (ev_priority s) (ev_levels s).

Definition with_in_flight (f : gmap string Z) (s : EvaluatorState) : EvaluatorState :=
  mkEvaluatorState (ev_pending s) f (ev_capacity s) (ev_priority s) (ev_levels s).

(** [retain] on the queue, with a log of what it removes. *)
Definition withdraw (out : OrderRequest -> bool) (fate : EvalFate) (s : EvaluatorState)
    : EvaluatorState * list (OrderRequest * EvalFate) :=
  (with_pending (filter (fun o => out o = false) (ev_pending s)) s,
   (fun o => (o, fate)) <$> filter (fun o => out o = true) (ev_pending s)).

Definition evaluator_event (ev : EvaluatorEvent) (s : EvaluatorState)
    : ste W OrderEvaluatorErr (EvaluatorState * list (OrderRequest * EvalFate)) :=
  match ev with
  | EvNewOrder o => mret (with_pending (ev_pending s ++ [o]) s, [])
  | EvPreflightComplete c =>
      mret (with_in_flight (delete (pf_order_id c) (ev_in_flight s)) s, [])
  | EvOrderState (ScLocked request_id _ chain) =>
      mret (withdraw (locked_out request_id chain) EfLocked s)
  | EvOrderState (ScFulfilled request_id chain) =>
      mret (withdraw (fulfilled_out request_id chain) EfFulfilled s)
  | EvCapacityTick None _ => throw OeConfigReadErr
  | EvCapacityTick (Some c) lists =>
      now ← lift ev_instant;
      mret (mkEvaluatorState (ev_pending s)
              (reap_stale_preflights now DEFAULT_MAX_PREFLIGHT_DURATION_SECS (ev_in_flight s))
              (max_concurrent_preflights c) (order_pricing_priority c)
              (evaluator_levels (ec_priority_requestor_addresses c) lists), [])
  end.

Definition evaluator_turn (ev : EvaluatorEvent) (s : EvaluatorState)
    : ste W OrderEvaluatorErr (EvaluatorState * list (OrderRequest * EvalFate)) :=
  '(s, log) ← evaluator_event ev s;
  '(s, log') ← dispatch_pending s;
  mret (s, log ++ log').

Fixpoint evaluator_loop (evs : list EvaluatorEvent) (s : EvaluatorState)
    : ste W OrderEvaluatorErr (EvaluatorState * list (OrderRequest * EvalFate)) :=
  match evs with
  | [] => mret (s, [])
  | ev :: evs =>
      '(s, log) ← evaluator_turn ev s;
      '(s, log') ← evaluator_loop evs s;
      mret (s, log ++ log')
  end.

(** [run]: the configuration is read once before the loop. *)
Definition evaluator_run (read : option EvaluatorConfig) (lists : list Requestors)
    (evs : list EvaluatorEvent)
    : ste W OrderEvaluatorErr (EvaluatorState * list (OrderRequest * EvalFate)) :=
  match read with
  | None => throw OeConfigReadErr
  | Some c =>
      evaluator_loop evs
        (mkEvaluatorState [] ∅ (max_concurrent_preflights c) (order_pricing_priority c)
           (evaluator_levels (ec_priority_requestor_addresses c) lists))
  end.

End Evaluator.

(** ** Accounting *)

(** The draws of the prioritization are always in range. *)
Class FairDraws (W : Type) `{EvaluatorEnv W} :=
  fair_draws (w : W) k : entropy_ok ((ev_entropy w).1 k).

Definition new_orders (ev : EvaluatorEvent) : list OrderRequest :=
  match ev with EvNewOrder o => [o] | _ => [] end.

(** No configuration asks for more than [M] slots. *)
Definition capacity_within (M : nat) (ev : EvaluatorEvent) : Prop :=
  match ev with EvCapacityTick (Some c) _ => (max_concurrent_preflights c <= M)%nat | _ => True end.

Definition dispatched_ids `{Externals} (log : list (OrderRequest * EvalFate)) : list string :=
  (fun e => order_id e.1) <$> filter (fun e => e.2 = EfDispatched) log.

Section EvaluatorSpecs.
Context {W : Type} `{Externals} `{EvaluatorEnv W}.
Context (chains : gset Z).

Lemma dispatch_selected_spec sel pending f (w : W) p' f' log w' :
  dispatch_selected chains sel pending f w = ((p', f', log), w') ->
  (exists again, p' = pending ++ again /\ again ++ log.*1 ≡ₚ sel)
  /\ (size f' <= size f + length sel)%nat
  /\ dom f' = dom f ∪ list_to_set (dispatched_ids log).
Proof.
  revert pending f w p' f' log w'.
  induction sel as [|o sel IH]; intros pending f w p' f' log w'; simpl.
  { intros [= <- <- <- <-]. split_and!; [exists []; by rewrite app_nil_r|lia|set_solver]. }
  assert (Hlog : forall again (log1 : list (OrderRequest * EvalFate)) fate,
    again ++ log1.*1 ≡ₚ sel -> again ++ ((o, fate) :: log1).*1 ≡ₚ o :: sel).
  { intros again log1 fate Hp. rewrite fmap_cons. simpl. by rewrite <- Permutation_middle, Hp. }
  case_bool_decide.
  { rewrite st_bind_eq. destruct (dispatch_selected _ _ _ _ _) as [[[p1 f1] log1] w1] eqn:E.
    intros [= <- <- <- <-]. apply IH in E as ((again & -> & Hp) & Hs & Hd).
    split_and!; [eauto|lia|by unfold dispatched_ids; rewrite filter_cons_False]. }
  rewrite st_bind_eq. destruct (ev_try_send _ _ _) as [[| |] w2]; simpl.
  - rewrite !st_bind_eq. destruct (ev_instant w2) as [now w3]. simpl.
    destruct (dispatch_selected _ _ _ _ _) as [[[p1 f1] log1] w1] eqn:E.
    intros [= <- <- <- <-]. apply IH in E as ((again & -> & Hp) & Hs & Hd).
    split_and!; [by eauto| |].
    + rewrite map_size_insert in Hs. destruct (f !! order_id o); unfold id in Hs; lia.
    + unfold dispatched_ids in *. rewrite filter_cons_True, fmap_cons, Hd, dom_insert_L by done.
      simpl. set_solver.
  - intros E. apply IH in E as ((again & -> & Hp) & Hs & Hd). split_and!; [|lia|done].
    exists (o :: again). rewrite <- app_assoc. split; [done|]. simpl. by rewrite Hp.
  - rewrite st_bind_eq. destruct (dispatch_selected _ _ _ _ _) as [[[p1 f1] log1] w1] eqn:E.
    intros [= <- <- <- <-]. apply IH in E as ((again & -> & Hp) & Hs & Hd).
    split_and!; [eauto|lia|by unfold dispatched_ids; rewrite filter_cons_False].
Qed.

(** A stretch of the loop: what was pending is pending or has a fate, slots are
    bounded, and slots belong to dispatched orders. *)
Record accounts (M : nat) (incoming : list OrderRequest) (s s' : EvaluatorState)
    (log : list (OrderRequest * EvalFate)) : Prop := {
  ac_orders : ev_pending s' ++ log.*1 ≡ₚ ev_pending s ++ incoming;
  ac_size : (size (ev_in_flight s) <= M -> size (ev_in_flight s') <= M)%nat;
  ac_capacity : (ev_capacity s <= M -> ev_capacity s' <= M)%nat;
  ac_slots : dom (ev_in_flight s') ⊆ dom (ev_in_flight s) ∪ list_to_set (dispatched_ids log)
}.

Lemma accounts_trans M i1 i2 s1 s2 s3 l1 l2 :
  accounts M i1 s1 s2 l1 -> accounts M i2 s2 s3 l2 -> accounts M (i1 ++ i2) s1 s3 (l1 ++ l2).
Proof.
  intros [Ho1 Hs1 Hc1 Hd1] [Ho2 Hs2 Hc2 Hd2]. split; [|tauto|tauto|].
  - rewrite fmap_app, (Permutation_app_comm l1.*1), app_assoc, Ho2.
    rewrite <- app_assoc, (Permutation_app_comm i2), app_assoc, Ho1. by rewrite <- app_assoc.
  - unfold dispatched_ids in *. rewrite filter_app, fmap_app, list_to_set_app_L. clear -Hd1 Hd2.
    set_solver.
Qed.

Lemma prioritize_evaluate_conserves orders prio lv cap env sel rest :
  (forall k, entropy_ok (env k)) ->
  prioritize_orders_to_evaluate orders prio lv cap env = Ok (sel, rest) ->
  sel ++ rest ≡ₚ orders /\ (length sel <= cap)%nat.
Proof.
  intros He. unfold prioritize_orders_to_evaluate.
  destruct (_ || _); [intros [= <- <-]; split; [done|simpl; lia]|]. intros Hr.
  apply result_bind_Ok in Hr as (sorted & E & [= <- <-]). rewrite take_drop.
  split; [by eapply sort_orders_perm|]. rewrite length_take. lia.
Qed.

Lemma withdraw_accounts M out fate s :
  accounts M [] s (withdraw out fate s).1 (withdraw out fate s).2.
Proof.
  split; [|done|done|set_solver]. simpl. rewrite app_nil_r, <- list_fmap_compose.
  rewrite (list_fmap_ext (fst ∘ (fun o => (o, fate))) id) by done. rewrite list_fmap_id.
  rewrite (Permutation_app_comm (filter _ _)). apply filter_bool_perm.
Qed.

Lemma evaluator_event_accounts M ev s (w : W) s' log w' :
  capacity_within M ev -> evaluator_event ev s w = (Ok (s', log), w') ->
  accounts M (new_orders ev) s s' log.
Proof.
  intros Hc. destruct ev as [o|c|[r p c|r c]|[c|] lists]; simpl.
  - intros [= <- <- <-]. split; simpl; [by rewrite app_nil_r|done|done|set_solver].
  - intros [= <- <- <-]. split; simpl; [done| |done|set_solver].
    rewrite map_size_delete. destruct (ev_in_flight s !! pf_order_id c); unfold id; lia.
  - intros [= <- <- <-]. exact (withdraw_accounts M (locked_out r c) EfLocked s).
  - intros [= <- <- <-]. exact (withdraw_accounts M (fulfilled_out r c) EfFulfilled s).
  - intros Hr. bind_step Hr t w1 E1. injection Hr as <- <- <-.
    split; simpl; [done| |done|].
    + intros Hs. etrans; [|exact Hs]. apply map_subseteq_size, map_filter_subseteq.
    + etrans; [apply dom_filter_subseteq|set_solver].
  - done.
Qed.

Lemma dispatch_pending_accounts `{!FairDraws W} M s (w : W) s' log w' :
  (ev_capacity s <= M)%nat -> dispatch_pending chains s w = (Ok (s', log), w') ->
  accounts M [] s s' log.
Proof.
  intros HM. unfold dispatch_pending. destruct (_ || _) eqn:Eg.
  { intros [= <- <- <-]. split; [done|done|done|set_solver]. }
  apply orb_false_elim in Eg as [_ Hcap]. apply bool_decide_eq_false in Hcap. intros Hr.
  bind_step Hr env w1 E1. apply lift_Ok in E1. bind_step Hr x w2 E2. destruct x as [sel rest].
  apply liftr_Ok in E2 as [E2 ->]. bind_step Hr y w3 E3. destruct y as [[p f] l].
  apply lift_Ok in E3. injection Hr as <- <- <-.
  destruct (prioritize_orders_to_evaluate _ _ _ _ _) as [[sel' rest']| |] eqn:Ep; [|done..].
  injection E2 as -> ->. apply prioritize_evaluate_conserves in Ep as [Hp Hl].
  2: { intros k. specialize (fair_draws w k). by rewrite E1. }
  apply dispatch_selected_spec in E3 as ((again & -> & Hag) & Hs & Hd). split; simpl.
  - rewrite app_nil_r, <- Hp, <- Hag. solve_Permutation.
  - lia.
  - done.
  - by rewrite Hd.
Qed.

Lemma evaluator_loop_accounts `{!FairDraws W} M evs s (w : W) s' log w' :
  Forall (capacity_within M) evs -> (ev_capacity s <= M)%nat ->
  evaluator_loop chains evs s w = (Ok (s', log), w') -> accounts M (evs ≫= new_orders) s s' log.
Proof.
  intros Hev. revert s w s' log w'.
  induction Hev as [|ev evs Hcw _ IH]; intros s1 w1 s2 l2 w2 Hc; simpl.
  { intros [= <- <- <-]. split; [done|done|done|set_solver]. }
  intros Hr. bind_step Hr x w3 E1. destruct x as [s3 l3]. bind_step Hr y w4 E4.
  destruct y as [s4 l4]. injection Hr as <- <- <-. unfold evaluator_turn in E1.
  bind_step E1 z w5 E5. destruct z as [s5 l5]. bind_step E1 u w6 E6. destruct u as [s6 l6].
  injection E1 as <- <- <-. apply (evaluator_event_accounts M) in E5; [|done].
  apply (dispatch_pending_accounts M) in E6; [|by apply (ac_capacity _ _ _ _ _ E5)].
  pose proof (accounts_trans _ _ _ _ _ _ _ _ E5 E6) as Ht. rewrite app_nil_r in Ht.
  apply IH in E4; [|by apply (ac_capacity _ _ _ _ _ Ht)].
  exact (accounts_trans _ _ _ _ _ _ _ _ Ht E4).
Qed.

End EvaluatorSpecs.

(** Over any run of the evaluator, however orders, completions, locks,
    fulfillments and configuration changes interleave: every order received is
    still queued or has one recorded fate (sent to its pricer, withdrawn when
    its request was locked or fulfilled, or without a channel); the slots in
    use never exceed the largest configured number of preflights; and a slot
    is only held for an order that was sent. *)
Theorem evaluator_accounts {W} `{Externals} `{FairDraws W} chains M c lists evs (w : W) s log w' :
  (max_concurrent_preflights c <= M)%nat -> Forall (capacity_within M) evs ->
  evaluator_run chains (Some c) lists evs w = (Ok (s, log), w') ->
  ev_pending s ++ log.*1 ≡ₚ (evs ≫= new_orders)
  /\ (size (ev_in_flight s) <= M)%nat
  /\ dom (ev_in_flight s) ⊆ list_to_set (dispatched_ids log).
Proof.
  intros HcM Hev Hr. apply (evaluator_loop_accounts chains M) in Hr as [Ho Hs _ Hd]; [|done..].
  simpl in Ho, Hs, Hd. split_and!; [done|apply Hs; rewrite map_size_empty; lia|set_solver].
Qed.

(** ** Witness and examples *)

Definition toy_evaluator_env : EvaluatorEnv Z := {|
  ev_instant := fun w => (w * 1000000000, w);
  ev_entropy := fun w => (toy_entropy, w);
  ev_try_send := fun _ _ w => (Sent, w)
|}.

Lemma toy_fair_draws : @FairDraws Z toy_evaluator_env.
Proof. intros w k. apply toy_entropy_ok. Qed.

Definition toy_evaluator_config (n : nat) : EvaluatorConfig :=
  mkEvaluatorConfig n ObservationTime None.

Definition toy_evaluation (n : nat) (evs : list EvaluatorEvent) :=
  @evaluator_run Z toy_externals toy_evaluator_env {[ 1 ]} (Some (toy_evaluator_config n)) [] evs 950.

Definition three_orders : list EvaluatorEvent :=
  [EvNewOrder (order_from 7 1000); EvNewOrder (order_from 8 1000); EvNewOrder (order_from 9 1000);
   EvCapacityTick (Some (toy_evaluator_config 1)) []].

Lemma evaluator_accounts_witness :
  exists s log w', toy_evaluation 2 three_orders = (Ok (s, log), w')
    /\ ev_pending s ++ log.*1 ≡ₚ [order_from 7 1000; order_from 8 1000; order_from 9 1000]
    /\ (size (ev_in_flight s) <= 2)%nat.
Proof.
  assert (Hok : is_ok (toy_evaluation 2 three_orders).1 = true) by (vm_compute; reflexivity).
  destruct (toy_evaluation 2 three_orders) as [[[s log]|e|] w'] eqn:E.
  - exists s, log, w'. split; [reflexivity|].
    destruct (@evaluator_accounts Z toy_externals toy_evaluator_env toy_fair_draws {[ 1 ]} 2
      (toy_evaluator_config 2) [] three_orders 950 s log w') as (Ho & Hs & _);
      [apply le_n|repeat constructor|exact E|]. split; [exact Ho|exact Hs].
  - discriminate Hok.
  - discriminate Hok.
Defined.

(** An order that arrives twice takes one slot.  The pricer answers the second
    copy at once, which frees the slot of the first while it is being priced,
    so that with two slots three preflights run. *)
Definition twice : OrderRequest := order_from 7 1000.
Definition twice_skipped : PreflightComplete :=
  mkPreflightComplete (@order_id toy_externals twice) (reqId (request twice)) 1 PfSkipped.

Lemma duplicate_order_exceeds_capacity :
  match toy_evaluation 2 [EvNewOrder twice; EvNewOrder twice; EvPreflightComplete twice_skipped;
                          EvNewOrder (order_from 8 1000); EvNewOrder (order_from 9 1000)] with
  | (Ok (s, log), _) =>
      let '((p, answers), _) :=
        @pricer_run Z toy_externals toy_broker_db (toy_pricer_env 2000000) (supported_default false)
          18 false 1 ((fun e => RecvOrder e.1) <$> log) pricer_start 950 in
      answers = [Answered twice_skipped true] /\ size (running p) = 3%nat
  | _ => False
  end.
Proof. vm_compute. split; reflexivity. Qed.
