(* ===== verification/Locker.v ===== *)
(** * Locker: locking orders on chain

    [crates/broker/src/order_locker/service.rs] with its [types.rs] and
    [error.rs], and the gas estimates of [utils/helpers.rs]: an order that the
    committer dispatched is validated against the chain and the database,
    checked against the balance, locked when it has to be, and stored for
    proving.

    The class [LockerEnv] holds the chain, the configuration and the clock;
    the database is reached through the interface [BrokerDb].  The service
    runs over a state that pairs the world with the log of its effects on
    other services: the completions it sends to the committer and the requests
    it hands to the database.  Telemetry is not modelled, except for the
    estimate it records, whose division can panic; the retries around fetching
    the block of a lock are part of [lock_block_timestamp]. *)

From S2P Require Import Prelude Gas Market Auction OrderPricing Prioritization Committer Db.

Local Open Scope Z_scope.

Inductive OrderLockerErr :=
| LockTxFailed
| LockTxNotConfirmed
| InsufficientBalance
| AlreadyLocked
| LockerRpcErr
| UnexpectedError
| PreLockCheckRetry.

#[export] Instance OrderLockerErr_eq_dec : EqDecision OrderLockerErr.
Proof. solve_decision. Defined.

(** What [lock_request] fails with: the variants of [MarketError] that the
    service tells apart, with the text of the ones it searches. *)
Inductive LockFailure :=
| TxnRequestIsLocked
| TxnOther
| RequestAlreadyLocked
| TxnConfirmationError
| LockRevert
| MarketAnyhow (msg : string)
| MarketOther (msg : string).

Record OrderLockerConfig := mkLockerConfig {
  lc_min_deadline : Z;
  lc_peak_prove_khz : option Z;
  lc_additional_proof_cycles : Z
}.

Class LockerEnv (W : Type) := {
  lk_now : st W Z;
  get_status : Z -> Z -> ste W unit RequestStatus;
  balance_of_collateral : ste W unit Z;
  skip_gas_profitability_check : st W bool;
  lk_current_gas_price : ste W unit Z;
  lock_request : ProofRequest -> bytes -> ste W LockFailure Z;
  lock_block_timestamp : Z -> ste W unit Z;
  market_is_fulfilled : Z -> ste W unit bool;
  get_balance : ste W unit Z;
  fulfillment_gas : ProofRequest -> ste W unit Z;
  lk_estimate_erc1271_gas : OrderRequest -> st W Z;
  read_market_config : ste W unit MarketConfig;
  (** the block number and the timestamp of the head *)
  current_chain_head : ste W unit (Z * Z);
  (** what a turn of the loop reads of the configuration *)
  read_locker_config : ste W unit (OrderLockerConfig * PriorityMode * PriorityMode);
  (** the cells shared with the gas fillers *)
  write_gas_priority_mode : PriorityMode -> st W unit;
  write_gas_estimation_priority_mode : PriorityMode -> st W unit;
  is_cancelled : st W bool;
  (** [Address::to_string] of the signer and of the prover *)
  signer_address : string;
  prover_address : string
}.

(** The log: completions sent to the committer, and requests handed to the
    database with its answer. *)
Inductive LockerEvent :=
| Completed (o : OrderRequest) (outcome : CommitmentOutcome)
| Accepted (o : OrderRequest) (price : Z) (stored : bool).

Definition event_order (e : LockerEvent) : OrderRequest :=
  match e with Completed o _ => o | Accepted o _ _ => o end.

(** ** Text *)

Definition lower_ascii (c : Ascii.ascii) : Ascii.ascii :=
  let n := Ascii.nat_of_ascii c in
  if (65 <=? n)%nat && (n <=? 90)%nat then Ascii.ascii_of_nat (n + 32) else c.

Fixpoint to_lowercase (s : string) : string :=
  match s with
  | EmptyString => EmptyString
  | String c s => String (lower_ascii c) (to_lowercase s)
  end.

Definition zero_char : Ascii.ascii := Ascii.ascii_of_nat 48.
Definition x_char : Ascii.ascii := Ascii.ascii_of_nat 120.

(** [trim_start_matches("0x")] strips every leading "0x". *)
Fixpoint trim_0x (s : string) : string :=
  match s with
  | String c (String d t) =>
      if Ascii.eqb c zero_char && Ascii.eqb d x_char then trim_0x t else s
  | _ => s
  end.

(** [replace("0x", "")]. *)
Fixpoint remove_0x (s : string) : string :=
  match s with
  | String c (String d t as s) =>
      if Ascii.eqb c zero_char && Ascii.eqb d x_char then remove_0x t else String c (remove_0x s)
  | String c EmptyString => String c EmptyString
  | EmptyString => EmptyString
  end.

(** The classification of a failed lock. *)
Definition lock_error (prover : string) (e : LockFailure) : OrderLockerErr :=
  match e with
  | TxnRequestIsLocked => AlreadyLocked
  | TxnOther => LockTxFailed
  | RequestAlreadyLocked => AlreadyLocked
  | TxnConfirmationError => LockTxNotConfirmed
  | LockRevert => LockTxFailed
  | MarketAnyhow msg =>
      let prover_addr_str := remove_0x (to_lowercase prover) in
      if contains "InsufficientBalance" msg then
        if contains prover_addr_str (to_lowercase msg) then InsufficientBalance else LockTxFailed
      else if contains "RequestIsLocked" msg then AlreadyLocked
      else if contains "replacement transaction underpriced" msg then LockerRpcErr
      else UnexpectedError
  | MarketOther msg =>
      if contains "RequestIsLocked" msg then AlreadyLocked
      else if contains "replacement transaction underpriced" msg then LockerRpcErr
      else UnexpectedError
  end.

Definition estimate_proving_time_no_load (order_cycles : option Z) (additional : Z)
    (config : OrderLockerConfig) : result OrderLockerErr (option Z) :=
  match order_cycles, lc_peak_prove_khz config with
  | Some cycles, Some khz =>
      t ← checked_div_ceil (div_ceil (wadd 64 cycles additional) 1000) khz;
      mret (Some t)
  | _, _ => mret None
  end.

Section Locker.
Context {W : Type} `{Externals} `{LockerEnv W} `{BrokerDb W}.
Context (listen_only : bool).

(** ** The monad *)

Abbreviation LState := (list LockerEvent * W)%type.

Definition env {E A} (f : E -> OrderLockerErr) (m : ste W E A) : ste LState OrderLockerErr A :=
  fun '(log, w) => let (r, w') := m w in (map_err f r, (log, w')).
Definition env_st {A} (m : st W A) : ste LState OrderLockerErr A :=
  fun '(log, w) => let (a, w') := m w in (Ok a, (log, w')).
(** Look at the result of a call instead of propagating its error. *)
Definition env_try {E A} (m : ste W E A) : ste LState OrderLockerErr (result E A) :=
  fun '(log, w) =>
    match m w with
    | (Panic, w') => (Panic, (log, w'))
    | (r, w') => (Ok r, (log, w'))
    end.
Definition emit (e : LockerEvent) : ste LState OrderLockerErr unit :=
  fun '(log, w) => (Ok tt, (log ++ [e], w)).

Definition send_completion (o : OrderRequest) (outcome : CommitmentOutcome)
    : ste LState OrderLockerErr unit :=
  emit (Completed o outcome).

(** ** Locking *)

(** The gas check before a lock. *)
Definition pre_lock_check (o : OrderRequest) : ste LState OrderLockerErr unit :=
  skip_gas_check ← env_st skip_gas_profitability_check;
  if (skip_gas_check : bool) then mret tt else
  match gas_estimate o with
  | None => mret tt
  | Some gas_estimate =>
      gas_price ← env (fun _ => PreLockCheckRetry) lk_current_gas_price;
      let gas_cost := wmul 256 gas_price gas_estimate in
      now ← env_st lk_now;
      reward ← liftr (map_err (fun _ => PreLockCheckRetry) (price_at (offer (request o)) now));
      if reward <? gas_cost then throw PreLockCheckRetry else mret tt
  end.

Definition lock_order (o : OrderRequest) : ste LState OrderLockerErr Z :=
  order_status ← env (fun _ => LockerRpcErr)
                   (get_status (reqId (request o)) (expires_at (request o)));
  if bool_decide (order_status <> StUnknown) then throw AlreadyLocked else
  is_locked ← env (fun _ => UnexpectedError) (db_is_request_locked (reqId (request o)));
  if (is_locked : bool) then throw AlreadyLocked else
  collateral_balance ← env (fun _ => UnexpectedError) balance_of_collateral;
  if collateral_balance <? lockCollateral (offer (request o)) then throw InsufficientBalance else
  _ ← pre_lock_check o;
  lock_block ← env (lock_error prover_address) (lock_request (request o) (client_sig o));
  lock_timestamp ← env (fun _ => UnexpectedError) (lock_block_timestamp lock_block);
  liftr (map_err (fun _ => UnexpectedError) (price_at (offer (request o)) lock_timestamp)).

(** ** Validation *)

Definition skip_order (config : OrderLockerConfig) (o : OrderRequest)
    : ste LState OrderLockerErr unit :=
  _ ← env_try db_get_committed_orders;
  _ ← liftr (estimate_proving_time_no_load (total_cycles o)
               (default (lc_additional_proof_cycles config) (additional_proof_cycles o)) config);
  send_completion o OutcomeSkipped.

Definition is_within_deadline (now : Z) (o : OrderRequest)
    (current_block_timestamp min_deadline : Z) : bool :=
  let expiration := expiry o in
  if expiration <? current_block_timestamp then false else
  negb (sat_sub expiration now <? min_deadline).

(** Whether one order is a candidate; otherwise it is skipped. *)
Definition validate_order (config : OrderLockerConfig) (ts min_deadline : Z) (o : OrderRequest)
    : ste LState OrderLockerErr bool :=
  let skip := (_ ← skip_order config o; mret false) in
  match fulfillment_type o with
  | FulfillAfterLockExpire | FulfillWithoutLocking =>
      is_fulfilled ← env (fun _ => UnexpectedError) (db_is_request_fulfilled (reqId (request o)));
      if (is_fulfilled : bool) then skip else
      now ← env_st lk_now;
      if negb (is_within_deadline now o ts min_deadline) then skip else
      on_chain ← env (fun _ => UnexpectedError) (market_is_fulfilled (reqId (request o)));
      if (on_chain : bool) then skip else mret true
  | LockAndFulfill =>
      if lock_expires_at (request o) <? ts then skip else
      locked ← env (fun _ => UnexpectedError) (db_get_request_locked (reqId (request o)));
      match locked with
      | Some (locker, _) =>
          let our_normalized := trim_0x (to_lowercase signer_address) in
          let locker_normalized := trim_0x (to_lowercase locker) in
          if bool_decide (locker_normalized <> our_normalized) then skip else mret true
      | None =>
          now ← env_st lk_now;
          if negb (is_within_deadline now o ts min_deadline) then skip else mret true
      end
  end.

Fixpoint validate_orders (config : OrderLockerConfig) (ts min_deadline : Z)
    (orders : list OrderRequest) : ste LState OrderLockerErr (list OrderRequest) :=
  match orders with
  | [] => mret []
  | o :: orders =>
      candidate ← validate_order config ts min_deadline o;
      rest ← validate_orders config ts min_deadline orders;
      mret (if (candidate : bool) then o :: rest else rest)
  end.

(** ** Gas *)

Definition estimate_gas_to_lock (o : OrderRequest) : ste LState OrderLockerErr Z :=
  config ← env (fun _ => UnexpectedError) read_market_config;
  erc ← env_st (lk_estimate_erc1271_gas o);
  mret (wadd 64 (lockin_gas_estimate config) erc).

Definition order_fulfill_gas (r : ProofRequest) (journal_bytes : option Z)
    : ste LState OrderLockerErr Z :=
  base ← env (fun _ => UnexpectedError) (fulfillment_gas r);
  config ← env (fun _ => UnexpectedError) read_market_config;
  liftr (map_err (fun _ => UnexpectedError) (fulfill_gas_units config base r journal_bytes)).

Definition calculate_order_gas_cost_wei (o : OrderRequest) (gas_price : Z)
    : ste LState OrderLockerErr Z :=
  fulfill_gas ← order_fulfill_gas (request o) (journal_bytes o);
  order_gas_units ←
    (if bool_decide (fulfillment_type o = LockAndFulfill) then
       lock_gas ← estimate_gas_to_lock o;
       mret (sat_add 256 lock_gas fulfill_gas)
     else mret fulfill_gas);
  mret (wmul 256 gas_price order_gas_units).

(** The sum of the gas of the committed orders, a [u64]. *)
Fixpoint committed_gas (committed : list Order) : ste LState OrderLockerErr Z :=
  match committed with
  | [] => mret 0
  | o :: committed =>
      g ← order_fulfill_gas (o_request o) (o_journal_bytes o);
      rest ← committed_gas committed;
      mret (wadd 64 g rest)
  end.

(** The loop over the orders: those the remaining balance pays for. *)
Fixpoint gas_loop (config : OrderLockerConfig) (gas_price remaining : Z)
    (orders : list OrderRequest) : ste LState OrderLockerErr (list OrderRequest) :=
  match orders with
  | [] => mret []
  | o :: orders =>
      cost ← calculate_order_gas_cost_wei o gas_price;
      if remaining <? cost then
        _ ← skip_order config o;
        gas_loop config gas_price remaining orders
      else
        _ ← liftr (estimate_proving_time_no_load (total_cycles o)
              (default (lc_additional_proof_cycles config) (additional_proof_cycles o)) config);
        rest ← gas_loop config gas_price (wsub 256 remaining cost) orders;
        mret (o :: rest)
  end.

(** Returns the affordable orders; [None] when the committed orders alone cost
    more than the balance, where the source returns an empty result. *)
Definition apply_gas_limits (config : OrderLockerConfig) (orders : list OrderRequest)
    : ste LState OrderLockerErr (option (list OrderRequest)) :=
  gas_price ← env (fun _ => UnexpectedError) lk_current_gas_price;
  available_balance_wei ←
    (if listen_only then mret (umax 256) else env (fun _ => UnexpectedError) get_balance);
  committed_orders ← env (fun _ => UnexpectedError) db_get_committed_orders;
  committed_gas_units ← committed_gas committed_orders;
  let committed_cost_wei := wmul 256 gas_price committed_gas_units in
  if available_balance_wei <? committed_cost_wei then mret None else
  final ← gas_loop config gas_price (wsub 256 available_balance_wei committed_cost_wei) orders;
  mret (Some final).

(** ** The pipeline *)

(** One order of [lock_and_prove_orders]: whether it is to be retried. *)
Definition lock_and_prove_order (o : OrderRequest) : ste LState OrderLockerErr bool :=
  if bool_decide (fulfillment_type o = LockAndFulfill) then
    if listen_only then _ ← send_completion o OutcomeSkipped; mret false else
    fun s =>
      match lock_order o s with
      | (Ok lock_price, s') =>
          (r ← env_try (db_insert_accepted_request o lock_price);
           _ ← emit (Accepted o lock_price (is_ok r));
           mret false) s'
      | (Err PreLockCheckRetry, s') => (Ok true, s')
      | (Err _, s') => (_ ← send_completion o OutcomeSkipped; mret false) s'
      | (Panic, s') => (Panic, s')
      end
  else
    if listen_only then _ ← send_completion o OutcomeSkipped; mret false else
    r ← env_try (db_insert_accepted_request o 0);
    _ ← emit (Accepted o 0 (is_ok r));
    mret false.

Fixpoint lock_and_prove_orders (orders : list OrderRequest)
    : ste LState OrderLockerErr (list OrderRequest) :=
  match orders with
  | [] => mret []
  | o :: orders =>
      retry ← lock_and_prove_order o;
      rest ← lock_and_prove_orders orders;
      mret (if (retry : bool) then o :: rest else rest)
  end.

Definition process_orders (config : OrderLockerConfig) (block_timestamp : Z)
    (orders retry : list OrderRequest) : ste LState OrderLockerErr (list OrderRequest) :=
  valid ← validate_orders config block_timestamp (lc_min_deadline config) orders;
  match valid with
  | [] => mret retry
  | _ =>
      gas_result ← apply_gas_limits config valid;
      match gas_result with
      | None | Some [] => mret retry
      | Some final =>
          retries ← lock_and_prove_orders final;
          mret (retry ++ retries)
      end
  end.

(** *** The run loop *)

Record LockerLoop := mkLockerLoop {
  last_block : Z;
  retry_orders : list OrderRequest;
  cached_gas_priority_mode : option PriorityMode;
  cached_gas_estimation_priority_mode : option PriorityMode
}.

Definition locker_loop_start : LockerLoop := mkLockerLoop 0 [] None None.

(** An order from the committer is processed at once. *)
Definition on_new_order (o : OrderRequest) (l : LockerLoop) : ste LState OrderLockerErr LockerLoop :=
  '(_, block_timestamp) ← env (fun _ => UnexpectedError) current_chain_head;
  '(config, _, _) ← env (fun _ => UnexpectedError) read_locker_config;
  retries ← process_orders config block_timestamp [o] (retry_orders l);
  mret (mkLockerLoop (last_block l) retries (cached_gas_priority_mode l)
          (cached_gas_estimation_priority_mode l)).

(** A mode that changed is written to its shared cell. *)
Definition refresh_mode (write : PriorityMode -> st W unit) (cached : option PriorityMode)
    (mode : PriorityMode) : ste LState OrderLockerErr (option PriorityMode) :=
  if match cached with Some c => mode_eqb c mode | None => false end then mret cached else
  _ ← env_st (write mode);
  mret (Some mode).

(** A tick, on a new block, processes the retries.  The second component says
    that the loop breaks. *)
Definition on_tick (l : LockerLoop) : ste LState OrderLockerErr (LockerLoop * bool) :=
  '(block_number, block_timestamp) ← env (fun _ => UnexpectedError) current_chain_head;
  if block_number =? last_block l then mret (l, false) else
  '(config, gas_mode, estimation_mode) ← env (fun _ => UnexpectedError) read_locker_config;
  gas ← refresh_mode write_gas_priority_mode (cached_gas_priority_mode l) gas_mode;
  estimation ← refresh_mode write_gas_estimation_priority_mode
                 (cached_gas_estimation_priority_mode l) estimation_mode;
  if bool_decide (retry_orders l = []) then mret (mkLockerLoop block_number [] gas estimation, false)
  else
    cancelled ← env_st is_cancelled;
    if (cancelled : bool) then mret (mkLockerLoop block_number [] gas estimation, true) else
    retries ← process_orders config block_timestamp (retry_orders l) [];
    mret (mkLockerLoop block_number retries gas estimation, false).

Inductive LockerInput := Cancel | NewOrder (o : OrderRequest) | Tick.

(** The loop over the branches its [select!] takes; an error ends it.  It
    returns the inputs it left unread when it broke, and nothing there when it
    still runs at the end of the inputs. *)
Fixpoint locker_loop (inputs : list LockerInput) (l : LockerLoop)
    : ste LState OrderLockerErr (LockerLoop * option (list LockerInput)) :=
  match inputs with
  | [] => mret (l, None)
  | Cancel :: inputs => mret (l, Some inputs)
  | NewOrder o :: inputs => l ← on_new_order o l; locker_loop inputs l
  | Tick :: inputs =>
      '(l, stop) ← on_tick l;
      if (stop : bool) then mret (l, Some inputs) else locker_loop inputs l
  end.

(** ** What every step keeps

    The calls of the service that are not completions or inserts leave the log
    alone and relate the worlds before and after by [Rw]: with the relation
    that always holds this is the silence of the calls, with equality of the
    stored rows it is that only inserts write. *)

Class Respects (Rw : relation W) : Prop := {
  rw_refl w : Rw w w;
  rw_trans w1 w2 w3 : Rw w1 w2 -> Rw w2 w3 -> Rw w1 w3;
  rw_now w : Rw w (snd (lk_now w));
  rw_status i t w : Rw w (snd (get_status i t w));
  rw_collateral w : Rw w (snd (balance_of_collateral w));
  rw_skip w : Rw w (snd (skip_gas_profitability_check w));
  rw_gas_price w : Rw w (snd (lk_current_gas_price w));
  rw_lock r sig w : Rw w (snd (lock_request r sig w));
  rw_timestamp b w : Rw w (snd (lock_block_timestamp b w));
  rw_fulfilled i w : Rw w (snd (market_is_fulfilled i w));
  rw_balance w : Rw w (snd (get_balance w));
  rw_gas r w : Rw w (snd (fulfillment_gas r w));
  rw_erc o w : Rw w (snd (lk_estimate_erc1271_gas o w));
  rw_config w : Rw w (snd (read_market_config w));
  rw_head w : Rw w (snd (current_chain_head w));
  rw_locker_config w : Rw w (snd (read_locker_config w));
  rw_gas_mode m w : Rw w (snd (write_gas_priority_mode m w));
  rw_estimation_mode m w : Rw w (snd (write_gas_estimation_priority_mode m w));
  rw_cancelled w : Rw w (snd (is_cancelled w));
  rw_db_committed w : Rw w (snd (db_get_committed_orders w));
  rw_db_is_locked i w : Rw w (snd (db_is_request_locked i w));
  rw_db_get_locked i w : Rw w (snd (db_get_request_locked i w));
  rw_db_fulfilled i w : Rw w (snd (db_is_request_fulfilled i w))
}.

Section Follows.
Context {Rw : relation W} {HR : Respects Rw}.

Definition step_ok (s s' : LState) : Prop := s'.1 = s.1 /\ Rw s.2 s'.2.
Definition follows {A} (m : ste LState OrderLockerErr A) : Prop :=
  forall s, step_ok s (snd (m s)).

Lemma step_ok_refl s : step_ok s s.
Proof. split; [done|apply rw_refl]. Qed.

Lemma step_ok_trans s1 s2 s3 : step_ok s1 s2 -> step_ok s2 s3 -> step_ok s1 s3.
Proof. intros [E1 R1] [E2 R2]. split; [congruence|by eapply rw_trans]. Qed.

Lemma follows_run {A} (m : ste LState OrderLockerErr A) s r s' :
  follows m -> m s = (r, s') -> step_ok s s'.
Proof. intros Hm E. specialize (Hm s). by rewrite E in Hm. Qed.

Lemma follows_ret {A} (a : A) : follows (mret a).
Proof. intros s. apply step_ok_refl. Qed.
Lemma follows_throw {A} e : follows (throw (A := A) e).
Proof. intros s. apply step_ok_refl. Qed.
Lemma follows_liftr {A} (r : result _ A) : follows (liftr r).
Proof. intros s. apply step_ok_refl. Qed.

Lemma follows_bind {A B} (m : ste LState OrderLockerErr A) (f : A -> ste LState OrderLockerErr B) :
  follows m -> (forall a, follows (f a)) -> follows (m ≫= f).
Proof.
  intros Hm Hf s. specialize (Hm s). unfold mbind, ste_bind.
  destruct (m s) as [[a|e|] s1]; simpl in Hm; [|done..].
  eapply step_ok_trans; [exact Hm|apply Hf].
Qed.

Lemma follows_env {E A} f (m : ste W E A) : (forall w, Rw w (snd (m w))) -> follows (env f m).
Proof. intros Hm [log w]. specialize (Hm w). unfold env. by destruct (m w). Qed.
Lemma follows_env_st {A} (m : st W A) : (forall w, Rw w (snd (m w))) -> follows (env_st m).
Proof. intros Hm [log w]. specialize (Hm w). unfold env_st. by destruct (m w). Qed.
Lemma follows_env_try {E A} (m : ste W E A) : (forall w, Rw w (snd (m w))) -> follows (env_try m).
Proof. intros Hm [log w]. specialize (Hm w). unfold env_try. by destruct (m w) as [[]?]. Qed.

Ltac follows_step :=
  match goal with
  | |- follows (match ?x with _ => _ end) => destruct x
  | |- follows (if ?b then _ else _) => destruct b
  | |- follows (_ ≫= _) => apply follows_bind; [|intros ?]
  | |- follows (mret _) => apply follows_ret
  | |- follows (throw _) => apply follows_throw
  | |- follows (liftr _) => apply follows_liftr
  | |- follows (env _ _) => apply follows_env; intros ?; first
      [ apply rw_status | apply rw_collateral | apply rw_gas_price | apply rw_lock
      | apply rw_timestamp | apply rw_fulfilled | apply rw_balance | apply rw_gas
      | apply rw_config | apply rw_head | apply rw_locker_config | apply rw_db_committed | apply rw_db_is_locked
      | apply rw_db_get_locked | apply rw_db_fulfilled ]
  | |- follows (env_st _) => apply follows_env_st; intros ?; first
      [ apply rw_now | apply rw_skip | apply rw_erc | apply rw_gas_mode
      | apply rw_estimation_mode | apply rw_cancelled ]
  | |- follows (env_try _) => apply follows_env_try; intros ?; apply rw_db_committed
  end.
Ltac follows_tac := repeat (cbv zeta; follows_step).

Lemma follows_pre_lock_check o : follows (pre_lock_check o).
Proof. unfold pre_lock_check. follows_tac. Qed.

Lemma follows_lock_order o : follows (lock_order o).
Proof. unfold lock_order. repeat (apply follows_pre_lock_check || follows_step). Qed.

Lemma follows_order_fulfill_gas r j : follows (order_fulfill_gas r j).
Proof. unfold order_fulfill_gas. follows_tac. Qed.

Lemma follows_order_cost o gas_price : follows (calculate_order_gas_cost_wei o gas_price).
Proof.
  unfold calculate_order_gas_cost_wei, estimate_gas_to_lock.
  repeat (apply follows_order_fulfill_gas || follows_step).
Qed.

Lemma follows_committed_gas committed : follows (committed_gas committed).
Proof.
  induction committed as [|o l IH]; simpl; repeat (apply follows_order_fulfill_gas || follows_step);
  apply IH.
Qed.

(** ** The orders that leave by a skip *)

(** A phase that took [input] and passed on [output]: the orders it did not
    pass on were skipped, each with one completion. *)
Definition filtered (input output : list OrderRequest) (s s' : LState) : Prop :=
  exists skipped, s'.1 = s.1 ++ ((fun o => Completed o OutcomeSkipped) <$> skipped)
                  /\ skipped ++ output ≡ₚ input /\ Rw s.2 s'.2.

Lemma filtered_nil s s' : step_ok s s' -> filtered [] [] s s'.
Proof. intros [E R]. exists []. by rewrite E, app_nil_r. Qed.

Lemma filtered_keep o input output s s1 s' :
  step_ok s s1 -> filtered input output s1 s' -> filtered (o :: input) (o :: output) s s'.
Proof.
  intros [E R] (sk & E' & P & R'). exists sk. split; [congruence|]. split.
  - by rewrite <- P, Permutation_middle.
  - by eapply rw_trans.
Qed.

Lemma filtered_skip o input output (s s1 s' : LState) :
  s1.1 = s.1 ++ [Completed o OutcomeSkipped] -> Rw s.2 s1.2 ->
  filtered input output s1 s' -> filtered (o :: input) output s s'.
Proof.
  intros E R (sk & E' & P & R'). exists (o :: sk). split; [|split].
  - rewrite E', E, <- app_assoc. done.
  - simpl. by rewrite P.
  - by eapply rw_trans.
Qed.

Lemma filtered_after input output s s1 s' :
  step_ok s s1 -> filtered input output s1 s' -> filtered input output s s'.
Proof.
  intros [E R] (sk & E' & P & R'). exists sk. split; [congruence|].
  split; [done|by eapply rw_trans].
Qed.

Lemma skip_order_Ok config o s r s' :
  skip_order config o s = (Ok r, s') ->
  s'.1 = s.1 ++ [Completed o OutcomeSkipped] /\ Rw s.2 s'.2.
Proof.
  unfold skip_order, send_completion, emit. intros Hr.
  bind_step Hr x s1 E1. bind_step Hr y s2 E2. apply liftr_Ok in E2 as [_ ->].
  apply follows_run in E1 as [E R]; [|follows_tac].
  destruct s1 as [log w]. injection Hr as <- <-. simpl in *. by rewrite E.
Qed.

(** A candidate costs no message, any other order exactly one. *)
Definition decided (o : OrderRequest) (m : ste LState OrderLockerErr bool) : Prop :=
  forall s b s', m s = (Ok b, s') ->
    if b then step_ok s s'
    else s'.1 = s.1 ++ [Completed o OutcomeSkipped] /\ Rw s.2 s'.2.

Lemma decided_true o : decided o (mret true).
Proof. intros s b s' [= <- <-]. apply step_ok_refl. Qed.

Lemma decided_skip config o : decided o (_ ← skip_order config o; mret false).
Proof.
  intros s b s' Hr. bind_step Hr u s1 E. apply skip_order_Ok in E. by injection Hr as <- <-.
Qed.

Lemma decided_bind {A} o (m : ste LState OrderLockerErr A) f :
  follows m -> (forall a, decided o (f a)) -> decided o (m ≫= f).
Proof.
  intros Hm Hf s b s' Hr. bind_step Hr a s1 E. apply (follows_run _ _ _ _ Hm) in E.
  apply Hf in Hr. destruct b; [by eapply step_ok_trans|].
  destruct E as [E1 R1], Hr as [E2 R2]. split; [congruence|by eapply rw_trans].
Qed.

Lemma validate_order_decided config ts min_deadline o :
  decided o (validate_order config ts min_deadline o).
Proof.
  unfold validate_order. cbv zeta.
  repeat match goal with
  | |- decided _ (match ?x with _ => _ end) => destruct x
  | |- decided _ (if ?b then _ else _) => destruct b
  | |- decided _ (_ ← skip_order _ _; _) => apply decided_skip
  | |- decided _ (mret true) => apply decided_true
  | |- decided _ (_ ≫= _) => apply decided_bind; [follows_tac|intros ?]
  end.
Qed.

Lemma validate_orders_filtered config ts min_deadline orders s valid s' :
  validate_orders config ts min_deadline orders s = (Ok valid, s') -> filtered orders valid s s'.
Proof.
  revert s valid s'. induction orders as [|o orders IH]; simpl; intros s valid s' Hr.
  { injection Hr as <- <-. apply filtered_nil, step_ok_refl. }
  bind_step Hr b s1 E1. bind_step Hr rest s2 E2. injection Hr as <- <-.
  apply validate_order_decided in E1. apply IH in E2.
  destruct b; [by eapply filtered_keep|]. destruct E1. by eapply filtered_skip.
Qed.

Lemma gas_loop_filtered config gas_price remaining orders s final s' :
  gas_loop config gas_price remaining orders s = (Ok final, s') -> filtered orders final s s'.
Proof.
  revert remaining s final s'.
  induction orders as [|o orders IH]; simpl; intros remaining s final s' Hr.
  { injection Hr as <- <-. apply filtered_nil, step_ok_refl. }
  bind_step Hr cost s1 E1. apply (follows_run _ _ _ _ (follows_order_cost _ _)) in E1.
  apply (filtered_after _ _ _ s1); [done|].
  destruct (remaining <? cost).
  - bind_step Hr u s2 E2. apply skip_order_Ok in E2 as [??]. apply IH in Hr.
    by eapply filtered_skip.
  - bind_step Hr u s2 E2. apply liftr_Ok in E2 as [_ ->].
    bind_step Hr rest s3 E3. injection Hr as <- <-. apply IH in E3.
    eapply filtered_keep; [apply step_ok_refl|done].
Qed.

Lemma apply_gas_limits_filtered config orders s res s' :
  apply_gas_limits config orders s = (Ok res, s') ->
  match res with Some final => filtered orders final s s' | None => step_ok s s' end.
Proof.
  unfold apply_gas_limits. intros Hr.
  bind_step Hr gp s1 E1. apply follows_run in E1; [|follows_tac].
  bind_step Hr bal s2 E2. apply follows_run in E2; [|follows_tac].
  bind_step Hr co s3 E3. apply follows_run in E3; [|follows_tac].
  bind_step Hr cg s4 E4. apply follows_run in E4; [|apply follows_committed_gas].
  assert (step_ok s s4) as E by eauto 6 using step_ok_trans.
  destruct (bal <? _).
  - by injection Hr as <- <-.
  - bind_step Hr final s5 E5. injection Hr as <- <-.
    apply gas_loop_filtered in E5. by eapply filtered_after.
Qed.

(** ** The three ways an order leaves the lock phase *)

Definition lock_phase_step (o : OrderRequest) (s : LState) (retry : bool) (s' : LState) : Prop :=
  (retry = true /\ step_ok s s')
  \/ (retry = false /\ s'.1 = s.1 ++ [Completed o OutcomeSkipped] /\ Rw s.2 s'.2)
  \/ (retry = false /\ listen_only = false
     /\ exists price s1 r w2,
          step_ok s s1
          /\ (if bool_decide (fulfillment_type o = LockAndFulfill)
              then lock_order o s = (Ok price, s1) else price = 0)
          /\ db_insert_accepted_request o price s1.2 = (r, w2)
          /\ s' = (s.1 ++ [Accepted o price (is_ok r)], w2)).

Lemma insert_accepted_step (o : OrderRequest) price (log : list LockerEvent) w b s' :
  (r ← env_try (db_insert_accepted_request o price);
   _ ← emit (Accepted o price (is_ok r));
   mret false) (log, w) = (Ok b, s') ->
  b = false /\ exists r w2, db_insert_accepted_request o price w = (r, w2)
                           /\ s' = (log ++ [Accepted o price (is_ok r)], w2).
Proof.
  intros Hr. bind_step Hr r s1 E1. bind_step Hr u s2 E2. injection Hr as <- <-.
  unfold env_try in E1. destruct (db_insert_accepted_request o price w) as [r' w'] eqn:Ei.
  destruct r'; simplify_eq; simpl in E2; injection E2 as <- <-; eauto.
Qed.

Lemma lock_and_prove_order_cases o s b s' :
  lock_and_prove_order o s = (Ok b, s') -> lock_phase_step o s b s'.
Proof.
  assert (forall s0, step_ok s s0 ->
    (_ ← send_completion o OutcomeSkipped; mret false) s0 = (Ok b, s') ->
    lock_phase_step o s b s') as Hskip.
  { intros [l w] [E R] Hr. injection Hr as <- <-. right; left. simpl in *. by rewrite E. }
  assert (forall price s0, step_ok s s0 -> listen_only = false ->
    (if bool_decide (fulfillment_type o = LockAndFulfill)
     then lock_order o s = (Ok price, s0) else price = 0) ->
    (r ← env_try (db_insert_accepted_request o price);
     _ ← emit (Accepted o price (is_ok r)); mret false) s0 = (Ok b, s') ->
    lock_phase_step o s b s') as Hins.
  { intros price [l w] [E R] Hlo Hlock Hr.
    apply insert_accepted_step in Hr as (-> & r & w2 & Ei & ->).
    right; right. split_and!; [done|done|]. exists price, (l, w), r, w2.
    simpl in *. by rewrite <- E. }
  unfold lock_and_prove_order.
  destruct (bool_decide _) eqn:Ef, listen_only eqn:Elo;
    try (apply Hskip, step_ok_refl); [|apply Hins; auto using step_ok_refl].
  destruct (lock_order o s) as [r s1] eqn:El.
  pose proof (follows_run _ _ _ _ (follows_lock_order o) El) as Hs.
  destruct r as [price|e|]; [by apply Hins| |done].
  destruct e; try (by apply Hskip). intros [= <- <-]. by left.
Qed.

End Follows.

Lemma env_Ok {E A} f (m : ste W E A) s a s' :
  env f m s = (Ok a, s') -> fst (m s.2) = Ok a.
Proof.
  destruct s as [l w]. unfold env. simpl. destruct (m w) as [[x|e|] w']; simpl; naive_solver.
Qed.

Lemma env_st_Ok {A} (m : st W A) s a s' : env_st m s = (Ok a, s') -> fst (m s.2) = a.
Proof. destruct s as [l w]. unfold env_st. simpl. destruct (m w). naive_solver. Qed.

(** ** Every order is accounted for *)

#[local] Instance respects_anything : Respects (fun _ _ => True).
Proof. by constructor. Qed.

(** The completion or the insert of an order. *)
Definition skip_or_accept (e : LockerEvent) : Prop :=
  match e with Completed _ outcome => outcome = OutcomeSkipped | Accepted _ _ _ => listen_only = false end.

Lemma skips_are_skips (l : list OrderRequest) :
  Forall skip_or_accept ((fun o => Completed o OutcomeSkipped) <$> l).
Proof. induction l; simpl; constructor; done. Qed.

Lemma skips_orders (l : list OrderRequest) :
  event_order <$> ((fun o => Completed o OutcomeSkipped) <$> l) = l.
Proof. induction l; simpl; f_equal; done. Qed.

Lemma lock_and_prove_orders_account orders s retries s' :
  lock_and_prove_orders orders s = (Ok retries, s') ->
  exists evs, s'.1 = s.1 ++ evs /\ (event_order <$> evs) ++ retries ≡ₚ orders
              /\ Forall skip_or_accept evs.
Proof.
  revert s retries s'. induction orders as [|o orders IH]; simpl; intros s retries s' Hr.
  { injection Hr as <- <-. exists []. by rewrite app_nil_r. }
  bind_step Hr b s1 E1. bind_step Hr rest s2 E2. injection Hr as <- <-.
  apply IH in E2 as (evs & El & P & F).
  apply lock_and_prove_order_cases in E1 as [(-> & E & _)|[(-> & E & _)|(-> & Hlo & p & s3 & r & w2 & ? & ? & ? & ->)]].
  - exists evs. split; [congruence|]. split; [|done]. by rewrite <- Permutation_middle, P.
  - exists (Completed o OutcomeSkipped :: evs). rewrite El, E, <- app_assoc.
    split; [done|]. split; [by simpl; rewrite P|by constructor].
  - simpl in El. exists (Accepted o p (is_ok r) :: evs). rewrite El, <- app_assoc.
    split; [done|]. split; [by simpl; rewrite P|by constructor].
Qed.

Lemma filtered_account input output s s' :
  filtered (Rw := fun _ _ => True) input output s s' ->
  exists evs, s'.1 = s.1 ++ evs /\ (event_order <$> evs) ++ output ≡ₚ input
              /\ Forall skip_or_accept evs.
Proof.
  intros (sk & E & P & _). eexists. split; [exact E|].
  rewrite skips_orders. split; [done|apply skips_are_skips].
Qed.

(** In the state [s] the committed orders alone cost more than the signer
    holds: the gas price, the balance, the committed orders and their gas, each
    as the calls one after the other answer from [s] on. *)
Definition overrun (s : LState) : Prop :=
  exists gas_price w1 balance w2 committed w3 units s4,
    lk_current_gas_price s.2 = (Ok gas_price, w1)
    /\ (if listen_only then balance = umax 256 /\ w2 = w1
        else get_balance w1 = (Ok balance, w2))
    /\ db_get_committed_orders w2 = (Ok committed, w3)
    /\ committed_gas committed (s.1, w3) = (Ok units, s4)
    /\ balance < wmul 256 gas_price units.

(** The orders that the round over [orders] from [s] loses without a word:
    the candidates, all of them, when the committed orders overrun the
    balance, and none when they do not. *)
Definition round_drops (config : OrderLockerConfig) (ts : Z) (orders : list OrderRequest)
    (s : LState) (dropped : list OrderRequest) : Prop :=
  exists valid s1,
    validate_orders config ts (lc_min_deadline config) orders s = (Ok valid, s1)
    /\ (valid = [] /\ dropped = []
        \/ overrun s1 /\ dropped = valid
        \/ ~ overrun s1 /\ dropped = []).

(** A tick in [l] from [s] finds a new block and orders to retry, and then
    reads the cancellation token, with the answer [cancelled]; [s'] is the
    state after that. *)
Definition retry_turn (l : LockerLoop) (s : LState) (config : OrderLockerConfig) (ts : Z)
    (cancelled : bool) (s' : LState) : Prop :=
  exists block w1 gas_mode estimation_mode w2 g s3 e s4,
    current_chain_head s.2 = (Ok (block, ts), w1) /\ block <> last_block l
    /\ read_locker_config w1 = (Ok (config, gas_mode, estimation_mode), w2)
    /\ refresh_mode write_gas_priority_mode (cached_gas_priority_mode l) gas_mode (s.1, w2)
       = (Ok g, s3)
    /\ refresh_mode write_gas_estimation_priority_mode (cached_gas_estimation_priority_mode l)
         estimation_mode s3 = (Ok e, s4)
    /\ retry_orders l <> []
    /\ is_cancelled s4.2 = (cancelled, s'.2) /\ s'.1 = s4.1.

(** The turn of the loop in [l] from [s] on input [i] sees the cancellation. *)
Definition sees_cancellation (i : LockerInput) (l : LockerLoop) (s : LState) : Prop :=
  match i with
  | Cancel => True
  | NewOrder _ => False
  | Tick => exists config ts s', retry_turn l s config ts true s'
  end.

(** The orders that this turn loses: those of its round, or the whole retry
    list when a tick sees the cancellation. *)
Definition turn_drops (i : LockerInput) (l : LockerLoop) (s : LState)
    (dropped : list OrderRequest) : Prop :=
  match i with
  | Cancel => dropped = []
  | NewOrder o =>
      exists block ts w1 config m1 m2 w2,
        current_chain_head s.2 = (Ok (block, ts), w1)
        /\ read_locker_config w1 = (Ok (config, m1, m2), w2)
        /\ round_drops config ts [o] (s.1, w2) dropped
  | Tick =>
      (exists config ts cancelled s1,
         retry_turn l s config ts cancelled s1
         /\ if cancelled then dropped = retry_orders l
            else round_drops config ts (retry_orders l) s1 dropped)
      \/ (forall config ts cancelled s1, ~ retry_turn l s config ts cancelled s1) /\ dropped = []
  end.

(** One turn, by the handler of its input. *)
Definition turn (i : LockerInput) (l : LockerLoop) (s : LState) (l' : LockerLoop) (s' : LState)
    : Prop :=
  match i with
  | Cancel => l' = l /\ s' = s
  | NewOrder o => on_new_order o l s = (Ok l', s')
  | Tick => exists stop, on_tick l s = (Ok (l', stop), s')
  end.

(** The turns of a run that took [inputs] from the loop state [l] in [s] to
    [l'] in [s']: what they dropped, and whether the last one saw the
    cancellation, which no turn before it did. *)
Inductive turns : list LockerInput -> LockerLoop -> LState -> list OrderRequest -> bool ->
    LockerLoop -> LState -> Prop :=
| turns_none l s : turns [] l s [] false l s
| turns_stop i l s dropped l' s' :
    sees_cancellation i l s -> turn_drops i l s dropped -> turn i l s l' s' ->
    turns [i] l s dropped true l' s'
| turns_more i inputs l s l1 s1 dropped dropped' stopped l' s' :
    ~ sees_cancellation i l s -> turn_drops i l s dropped -> turn i l s l1 s1 ->
    turns inputs l1 s1 dropped' stopped l' s' ->
    turns (i :: inputs) l s (dropped ++ dropped') stopped l' s'.

(** What became of the orders of a run from [s] to [s']: completions and
    inserts in the log, orders kept for a retry, orders dropped. *)
Definition accounted (orders kept dropped : list OrderRequest) (s s' : LState) : Prop :=
  exists events,
    s'.1 = s.1 ++ events /\ (event_order <$> events) ++ kept ++ dropped ≡ₚ orders
    /\ Forall skip_or_accept events.

Lemma env_inv {E A} f (m : ste W E A) s a s' :
  env f m s = (Ok a, s') -> exists w, m s.2 = (Ok a, w) /\ s' = (s.1, w).
Proof.
  destruct s as [log w]. unfold env. simpl. destruct (m w) as [[x|e|] w']; naive_solver.
Qed.

Lemma env_st_inv {A} (m : st W A) s a s' :
  env_st m s = (Ok a, s') -> exists w, m s.2 = (a, w) /\ s' = (s.1, w).
Proof. destruct s as [log w]. unfold env_st. simpl. destruct (m w). naive_solver. Qed.

(** The gas check finds nothing exactly when the committed orders overrun. *)
Lemma apply_gas_limits_None config orders s res s' :
  apply_gas_limits config orders s = (Ok res, s') -> (res = None <-> overrun s).
Proof.
  unfold apply_gas_limits. intros Hr.
  bind_step Hr gp s1 E1. apply env_inv in E1 as (w1 & E1 & ->).
  bind_step Hr bal s2 E2.
  assert (exists w2, s2 = (s.1, w2) /\ if listen_only then bal = umax 256 /\ w2 = w1
                     else get_balance w1 = (Ok bal, w2)) as (w2 & -> & Hb).
  { destruct listen_only; [injection E2 as <- <-; eauto|].
    apply env_inv in E2 as (w2 & E2 & ->). eauto. }
  bind_step Hr co s3 E3. apply env_inv in E3 as (w3 & E3 & ->).
  bind_step Hr cg s4 E4. simpl in *.
  assert (overrun s <-> bal < wmul 256 gp cg) as ->.
  { split; [|intros Hlt; exists gp, w1, bal, w2, co, w3, cg, s4; by split_and!].
    intros (gp' & w1' & bal' & w2' & co' & w3' & cg' & s4' & R1 & R2 & R3 & R4 & Hlt).
    rewrite E1 in R1. injection R1 as <- <-.
    assert (bal' = bal /\ w2' = w2) as [-> ->].
    { destruct listen_only; [naive_solver|]. rewrite Hb in R2. by injection R2 as <- <-. }
    rewrite E3 in R3. injection R3 as <- <-. rewrite E4 in R4. by injection R4 as <- <-. }
  destruct (Z.ltb_spec bal (wmul 256 gp cg)) as [Hlt|Hge].
  - by injection Hr as <- <-.
  - bind_step Hr kept s5 E5. injection Hr as <- <-. split; [done|lia].
Qed.

Lemma process_orders_account config block_timestamp orders retry s retries s' :
  process_orders config block_timestamp orders retry s = (Ok retries, s') ->
  exists fresh dropped, retries = retry ++ fresh
    /\ round_drops config block_timestamp orders s dropped
    /\ accounted orders fresh dropped s s'.
Proof.
  unfold process_orders. intros Hr. bind_step Hr valid s1 E1. pose proof E1 as Ev.
  apply validate_orders_filtered, filtered_account in E1 as (ev1 & L1 & P1 & F1).
  destruct valid as [|v valid].
  { injection Hr as <- <-. exists [], []. rewrite app_nil_r. split_and!; [done|exists [], s1; eauto|].
    exists ev1. rewrite !app_nil_r in *. by split_and!. }
  bind_step Hr res s2 E2. pose proof (apply_gas_limits_None _ _ _ _ _ E2) as Hov.
  apply (apply_gas_limits_filtered (Rw := fun _ _ => True)) in E2.
  destruct res as [final|].
  2: { injection Hr as <- <-. exists [], (v :: valid). rewrite app_nil_r.
       split_and!; [done|exists (v :: valid), s1; naive_solver|].
       exists ev1. destruct E2 as [E2 _]. rewrite E2. by split_and!. }
  apply filtered_account in E2 as (ev2 & L2 & P2 & F2).
  assert (exists fresh ev3, retries = retry ++ fresh /\ s'.1 = s2.1 ++ ev3
            /\ (event_order <$> ev3) ++ fresh ≡ₚ final /\ Forall skip_or_accept ev3)
    as (fresh & ev3 & -> & L3 & P3 & F3).
  { destruct final as [|f final].
    - injection Hr as <- <-. exists [], []. by rewrite !app_nil_r.
    - bind_step Hr rs s3 E3. injection Hr as <- <-.
      apply lock_and_prove_orders_account in E3 as (ev3 & ? & ? & ?). by exists rs, ev3. }
  exists fresh, []. split_and!; [done|exists (v :: valid), s1; naive_solver|].
  exists (ev1 ++ ev2 ++ ev3). split_and!; [| |by rewrite !Forall_app].
  - by rewrite L3, L2, L1, <- !app_assoc.
  - by rewrite !fmap_app, app_nil_r, <- !app_assoc, P3, P2.
Qed.

Lemma accounted_quiet orders s : accounted orders orders [] s s.
Proof. exists []. by rewrite !app_nil_r. Qed.

Lemma accounted_trans in1 in2 kept1 kept2 d1 d2 s1 s2 s3 :
  accounted in1 kept1 d1 s1 s2 -> accounted (kept1 ++ in2) kept2 d2 s2 s3 ->
  accounted (in1 ++ in2) kept2 (d1 ++ d2) s1 s3.
Proof.
  intros (ev1 & L1 & P1 & F1) (ev2 & L2 & P2 & F2).
  exists (ev1 ++ ev2). rewrite !Forall_app, L2, L1, <- app_assoc.
  split_and!; try done. rewrite fmap_app, <- P1, <- !app_assoc.
  apply Permutation_app_head. rewrite (Permutation_app_comm d1 in2), (Permutation_app_comm d1 d2).
  transitivity ((kept1 ++ in2) ++ d1); [by rewrite <- P2, <- !app_assoc|by rewrite <- app_assoc].
Qed.

Lemma follows_refresh_mode (Rw : relation W) `{!Respects Rw} write cached mode :
  (forall m w, Rw w (snd (write m w))) -> follows (Rw := Rw) (refresh_mode write cached mode).
Proof.
  intros Hw. unfold refresh_mode. destruct (match cached with Some _ => _ | None => _ end); [apply follows_ret|].
  apply follows_bind; [by apply follows_env_st|intros ?; apply follows_ret].
Qed.

Lemma refresh_mode_quiet write cached mode s g s' :
  refresh_mode write cached mode s = (Ok g, s') -> s'.1 = s.1.
Proof.
  intros Hr. by apply (follows_run (Rw := fun _ _ => True)) in Hr as [??];
    [|by apply (follows_refresh_mode _)].
Qed.

Lemma retry_turn_quiet l s config ts c s' : retry_turn l s config ts c s' -> s'.1 = s.1.
Proof.
  intros (b & w1 & gm & em & w2 & g & s3 & e & s4 & _ & _ & _ & E3%refresh_mode_quiet
    & E4%refresh_mode_quiet & _ & _ & ->). by rewrite E4, E3.
Qed.

Lemma retry_turn_det l s config ts c s1 config' ts' c' s1' :
  retry_turn l s config ts c s1 -> retry_turn l s config' ts' c' s1' ->
  c = c'.
Proof.
  intros (b & w1 & gm & em & w2 & g & s3 & e & s4 & R1 & _ & R2 & R3 & R4 & _ & R5 & _)
         (b' & w1' & gm' & em' & w2' & g' & s3' & e' & s4' & Q1 & _ & Q2 & Q3 & Q4 & _ & Q5 & _).
  rewrite R1 in Q1. injection Q1 as <- <- <-. rewrite R2 in Q2. injection Q2 as <- <- <- <-.
  rewrite R3 in Q3. injection Q3 as <- <-. rewrite R4 in Q4. injection Q4 as <- <-.
  rewrite R5 in Q5. by injection Q5.
Qed.

Lemma on_new_order_account o l s l' s' :
  on_new_order o l s = (Ok l', s') ->
  exists dropped, turn_drops (NewOrder o) l s dropped
    /\ accounted (retry_orders l ++ [o]) (retry_orders l') dropped s s'.
Proof.
  unfold on_new_order. intros Hr. bind_step Hr hd1 s1 E1. destruct hd1 as [n ts].
  bind_step Hr cfg s2 E2. destruct cfg as [[config m1] m2].
  bind_step Hr retries s3 E3. injection Hr as <- <-. simpl.
  apply process_orders_account in E3 as (fresh & d & -> & D & ev & L & P & F).
  apply env_inv in E1 as (w1 & E1 & ->), E2 as (w2 & E2 & ->). simpl in *.
  exists d. split; [exists n, ts, w1, config, m1, m2, w2; by split_and!|].
  exists ev. split_and!; [done| |done].
  rewrite <- P, !(assoc_L (++)). do 2 apply Permutation_app_tail. apply Permutation_app_comm.
Qed.

(** A tick either has nothing to retry, stops at the cancellation, or runs a
    round over the retry list. *)
Lemma on_tick_cases l s l' stop s' :
  on_tick l s = (Ok (l', stop), s') ->
  (forall config ts c s1, ~ retry_turn l s config ts c s1)
     /\ stop = false /\ retry_orders l' = retry_orders l /\ s'.1 = s.1
  \/ exists config ts s1, retry_turn l s config ts stop s1
     /\ if stop then retry_orders l' = [] /\ s' = s1
        else process_orders config ts (retry_orders l) [] s1 = (Ok (retry_orders l'), s').
Proof.
  unfold on_tick. intros Hr. bind_step Hr hd1 s1 E1. destruct hd1 as [n ts].
  apply env_inv in E1 as (w1 & E1 & ->).
  destruct (Z.eqb_spec n (last_block l)) as [->|Hn].
  { injection Hr as <- <- <-. left. split_and!; [|done..].
    intros config ts' c s1 (b & w1' & gm & em & w2 & g & s3 & e & s4 & Q1 & Hb & _).
    rewrite E1 in Q1. by injection Q1 as <- <- <-. }
  bind_step Hr cfg s2 E2. destruct cfg as [[config m1] m2]. apply env_inv in E2 as (w2 & E2 & ->).
  bind_step Hr g s3 E3. bind_step Hr e s4 E4. simpl in *.
  case_bool_decide as He.
  { injection Hr as <- <- <-. left. rewrite He. apply refresh_mode_quiet in E3, E4.
    split_and!; [|done..|by rewrite E4, E3].
    intros config' ts' c s1 (b & w1' & gm & em & w2' & g' & s3' & e' & s4' & _ & _ & _ & _ & _ & Hne & _).
    done. }
  bind_step Hr c s5 E5. apply env_st_inv in E5 as (w5 & E5 & ->). right.
  assert (retry_turn l s config ts c (s4.1, w5)) as HT.
  { exists n, w1, m1, m2, w2, g, s3, e, s4. by split_and!. }
  destruct c.
  - injection Hr as <- <- <-. eauto 8.
  - bind_step Hr rs s6 E6. injection Hr as <- <- <-. eauto 8.
Qed.

Lemma on_tick_account l s l' stop s' :
  on_tick l s = (Ok (l', stop), s') ->
  (stop = true <-> sees_cancellation Tick l s)
  /\ exists dropped, turn_drops Tick l s dropped
       /\ accounted (retry_orders l) (retry_orders l') dropped s s'.
Proof.
  intros [(Hno & -> & Hk & Hl)|(config & ts & s1 & HT & Hr)]%on_tick_cases.
  - split; [split; [done|intros (c & t & s1 & Hs); by apply Hno in Hs]|].
    exists []. split; [by right|]. exists []. by rewrite !app_nil_r, Hl, Hk.
  - split.
    { split; [intros ->; by exists config, ts, s1|].
      intros (c' & t' & s1' & HT'). by eapply (retry_turn_det _ _ _ _ _ _ _ _ _ _ HT). }
    pose proof (retry_turn_quiet _ _ _ _ _ _ HT) as HL. destruct stop.
    + destruct Hr as [Hk ->]. exists (retry_orders l). split; [left; by exists config, ts, true, s1|].
      exists []. by rewrite app_nil_r, Hk, HL.
    + apply process_orders_account in Hr as (fresh & d & Hk & D & A). simpl in Hk. subst fresh.
      exists d. split; [left; by exists config, ts, false, s1|].
      destruct A as (ev & L & P & F). exists ev. by rewrite L, HL.
Qed.

(** The orders that arrive in the inputs. *)
Definition arrivals (inputs : list LockerInput) : list OrderRequest :=
  omap (fun i => match i with NewOrder o => Some o | _ => None end) inputs.

(** C1. Over a run of the locker's loop that no error ends, every order that
    came in, or was waiting for a retry, has exactly one fate: one [Skipped]
    completion to the committer, one insert into the database, a place in the
    retry list at the end, or a place among the orders dropped without a
    message; in listen-only mode nothing is inserted.  The dropped orders are
    exactly those of its turns: the candidates of a round where, by what the
    round itself read, the committed orders alone cost more than the balance,
    and the retry list of a tick that saw the cancellation.  The loop leaves
    its inputs exactly at the first turn that sees the cancellation, and runs
    on as long as no turn sees it. *)
Theorem locker_loop_accounts inputs l s l' unread s' :
  locker_loop inputs l s = (Ok (l', unread), s') ->
  exists taken dropped, inputs = taken ++ default [] unread
    /\ turns taken l s dropped (bool_decide (is_Some unread)) l' s'
    /\ accounted (retry_orders l ++ arrivals taken) (retry_orders l') dropped s s'.
Proof.
  revert l s. induction inputs as [|[|o|] inputs IH]; simpl; intros l s Hr.
  - injection Hr as <- <- <-. exists [], []. split_and!; [done|constructor|].
    change (arrivals []) with (@nil OrderRequest). rewrite app_nil_r. by apply accounted_quiet.
  - injection Hr as <- <- <-. exists [Cancel], []. split_and!; [done|by constructor|].
    change (arrivals [Cancel]) with (@nil OrderRequest). rewrite app_nil_r. by apply accounted_quiet.
  - bind_step Hr l1 s1 E1. pose proof E1 as Et. apply on_new_order_account in E1 as (d & D & A1).
    apply IH in Hr as (dn & d' & -> & T & A). exists (NewOrder o :: dn), (d ++ d').
    split_and!; [done|by eapply turns_more; [auto|..]|].
    change (arrivals (NewOrder o :: dn)) with ([o] ++ arrivals dn). rewrite (assoc_L (++)).
    by eapply accounted_trans.
  - bind_step Hr x s1 E1. destruct x as [l1 stop]. pose proof E1 as Et.
    apply on_tick_account in E1 as (Hs & d & D & A1). destruct stop.
    + injection Hr as <- <- <-. exists [Tick], d.
      split_and!; [done|apply turns_stop; [by apply Hs|done|by exists true]|].
      change (arrivals [Tick]) with (@nil OrderRequest). by rewrite app_nil_r.
    + apply IH in Hr as (dn & d' & -> & T & A). exists (Tick :: dn), (d ++ d').
      split_and!; [done|eapply turns_more; [by intros ?%Hs|done|by exists false|done]|].
      change (arrivals (Tick :: dn)) with (arrivals dn). by eapply accounted_trans.
Qed.

(** ** The balance *)

Lemma committed_gas_fits committed s units s' :
  committed_gas committed s = (Ok units, s') -> fits 64 units.
Proof.
  destruct committed as [|o l]; simpl; intros Hr; [by injection Hr as <- <-|].
  bind_step Hr g s1 E1. bind_step Hr rest s2 E2. injection Hr as <- <-. by apply wrap_fits.
Qed.

Lemma order_cost_nonneg o gas_price s cost s' :
  calculate_order_gas_cost_wei o gas_price s = (Ok cost, s') -> fits 256 cost.
Proof.
  unfold calculate_order_gas_cost_wei. intros Hr.
  bind_step Hr fg s1 E1. bind_step Hr units s2 E2. injection Hr as <- <-. by apply wrap_fits.
Qed.

(** [cost] is what the service computed for [o] at some point of the round. *)
Definition priced_at (gas_price : Z) (o : OrderRequest) (cost : Z) : Prop :=
  exists s s', calculate_order_gas_cost_wei o gas_price s = (Ok cost, s').

Lemma gas_loop_budget config gas_price remaining orders s final s' :
  fits 256 remaining ->
  gas_loop config gas_price remaining orders s = (Ok final, s') ->
  exists costs, Forall2 (priced_at gas_price) final costs /\ foldr Z.add 0 costs <= remaining.
Proof.
  revert remaining s final s'.
  induction orders as [|o orders IH]; simpl; intros remaining s final s' Hf Hr.
  { injection Hr as <- <-. exists []. split; [constructor|simpl; unfold fits in Hf; lia]. }
  bind_step Hr cost s1 E1. destruct (Z.ltb_spec remaining cost) as [Hlt|Hge].
  - bind_step Hr u s2 E2. by apply IH in Hr.
  - bind_step Hr u s2 E2. bind_step Hr rest s3 E3. injection Hr as <- <-.
    pose proof (order_cost_nonneg _ _ _ _ _ E1) as Hc. unfold fits in Hf, Hc.
    rewrite wsub_small in E3 by (unfold fits; lia).
    apply IH in E3 as (costs & F & Hsum); [|unfold fits; lia].
    exists (cost :: costs). split; [|simpl; lia]. constructor; [by exists s, s1|done].
Qed.

(** The orders the locker goes on with are paid for: at the gas price of the
    round, the exact cost of fulfilling the committed orders and the costs
    computed for the orders it keeps add up to at most the balance of the
    signer (in listen-only mode, the largest balance). *)
Theorem apply_gas_limits_budget config orders s final s' :
  (forall w balance, fst (get_balance w) = Ok balance -> fits 256 balance) ->
  (forall w gas_price, fst (lk_current_gas_price w) = Ok gas_price -> fits 128 gas_price) ->
  apply_gas_limits config orders s = (Ok (Some final), s') ->
  exists gas_price balance w committed w' units s1 s2 costs,
    fst (lk_current_gas_price s.2) = Ok gas_price
    /\ (if listen_only then balance = umax 256 else fst (get_balance w) = Ok balance)
    /\ fst (db_get_committed_orders w') = Ok committed
    /\ committed_gas committed s1 = (Ok units, s2)
    /\ Forall2 (priced_at gas_price) final costs
    /\ gas_price * units + foldr Z.add 0 costs <= balance.
Proof.
  intros Hbal Hgp. unfold apply_gas_limits. intros Hr.
  bind_step Hr gp s1 E1. apply env_Ok in E1.
  bind_step Hr bal s2 E2. bind_step Hr co s3 E3. apply env_Ok in E3.
  bind_step Hr cg s4 E4. pose proof (committed_gas_fits _ _ _ _ E4) as Hcg.
  assert ((if listen_only then bal = umax 256 else fst (get_balance s1.2) = Ok bal)
          /\ fits 256 bal) as [Hb Hbf].
  { destruct listen_only.
    - injection E2 as <- <-. by split.
    - apply env_Ok in E2. eauto. }
  apply Hgp in E1 as Hg. unfold fits in Hg, Hcg, Hbf.
  rewrite wmul_small in Hr by (unfold fits; split; [nia|
    change (2 ^ 256) with (2 ^ 128 * 2 ^ 128); nia]).
  destruct (Z.ltb_spec bal (gp * cg)) as [?|Hle]; [done|].
  bind_step Hr kept s5 E5. injection Hr as <- <-.
  rewrite wsub_small in E5 by (unfold fits; nia).
  apply gas_loop_budget in E5 as (costs & F & Hsum); [|unfold fits; nia].
  exists gp, bal, s1.2, co, s2.2, cg, s3, s4, costs. split_and!; auto. lia.
Qed.

(** ** The lock *)

(** The gas check that guards a lock: switched off, without an estimate, or
    passed with the reward at the time of the check. *)
Definition gas_check_passed (o : OrderRequest) : Prop :=
  (exists w, fst (skip_gas_profitability_check w) = true)
  \/ gas_estimate o = None
  \/ exists units gas_price now reward w1 w2,
       gas_estimate o = Some units
       /\ fst (lk_current_gas_price w1) = Ok gas_price
       /\ fst (lk_now w2) = now
       /\ price_at (offer (request o)) now = Ok reward
       /\ wmul 256 gas_price units <= reward.

Lemma pre_lock_check_Ok o s u s' :
  pre_lock_check o s = (Ok u, s') -> gas_check_passed o.
Proof.
  unfold pre_lock_check, gas_check_passed. intros Hr.
  bind_step Hr skip s1 E1. apply env_st_Ok in E1.
  destruct skip; [by left; exists s.2|]. right.
  destruct (gas_estimate o) as [units|]; [right|by left].
  bind_step Hr gp s2 E2. apply env_Ok in E2.
  bind_step Hr now s3 E3. apply env_st_Ok in E3.
  bind_step Hr reward s4 E4. apply liftr_Ok in E4 as [E4 ->].
  destruct (Z.ltb_spec reward (wmul 256 gp units)); [done|].
  exists units, gp, now, reward, s1.2, s2.2. split_and!; auto.
  destruct (price_at _ _); naive_solver.
Qed.

(** A lock that succeeds was allowed: the market did not know the request,
    the database did not have it as locked, the collateral deposited covers
    the collateral of the lock, and the gas check passed; and the price it
    reports is the price of the offer at the timestamp of the block the lock
    transaction landed in. *)
Theorem lock_order_checked o s price s' :
  lock_order o s = (Ok price, s') ->
  fst (get_status (reqId (request o)) (expires_at (request o)) s.2) = Ok StUnknown
  /\ (exists w, fst (db_is_request_locked (reqId (request o)) w) = Ok false)
  /\ (exists w balance, fst (balance_of_collateral w) = Ok balance
                        /\ lockCollateral (offer (request o)) <= balance)
  /\ gas_check_passed o
  /\ exists w block w' timestamp,
       fst (lock_request (request o) (client_sig o) w) = Ok block
       /\ fst (lock_block_timestamp block w') = Ok timestamp
       /\ price_at (offer (request o)) timestamp = Ok price.
Proof.
  unfold lock_order. intros Hr.
  bind_step Hr stat s1 E1. apply env_Ok in E1. case_bool_decide as Hs; [done|].
  subst stat.
  bind_step Hr lk s2 E2. apply env_Ok in E2. destruct lk; [done|].
  bind_step Hr bal s3 E3. apply env_Ok in E3.
  destruct (Z.ltb_spec bal (lockCollateral (offer (request o)))); [done|].
  bind_step Hr u s4 E4. apply pre_lock_check_Ok in E4.
  bind_step Hr blk s5 E5. apply env_Ok in E5.
  bind_step Hr ts s6 E6. apply env_Ok in E6. apply liftr_Ok in Hr as [Hr ->].
  split_and!; eauto. exists s4.2, blk, s5.2, ts. split_and!; auto.
  destruct (price_at _ _); naive_solver.
Qed.

(** ** What is stored

    With a database that keeps the promises of [BrokerDbLaws], and a chain, a
    configuration and a clock that do not write to it. *)

Class LockerEnvLaws `{!BrokerDbLaws W} : Prop := {
  keep_now w : db_rows (snd (lk_now w)) = db_rows w;
  keep_status i t w : db_rows (snd (get_status i t w)) = db_rows w;
  keep_collateral w : db_rows (snd (balance_of_collateral w)) = db_rows w;
  keep_skip w : db_rows (snd (skip_gas_profitability_check w)) = db_rows w;
  keep_gas_price w : db_rows (snd (lk_current_gas_price w)) = db_rows w;
  keep_lock r sig w : db_rows (snd (lock_request r sig w)) = db_rows w;
  keep_timestamp b w : db_rows (snd (lock_block_timestamp b w)) = db_rows w;
  keep_fulfilled i w : db_rows (snd (market_is_fulfilled i w)) = db_rows w;
  keep_balance w : db_rows (snd (get_balance w)) = db_rows w;
  keep_gas r w : db_rows (snd (fulfillment_gas r w)) = db_rows w;
  keep_erc o w : db_rows (snd (lk_estimate_erc1271_gas o w)) = db_rows w;
  keep_config w : db_rows (snd (read_market_config w)) = db_rows w;
  keep_head w : db_rows (snd (current_chain_head w)) = db_rows w;
  keep_locker_config w : db_rows (snd (read_locker_config w)) = db_rows w;
  keep_gas_mode m w : db_rows (snd (write_gas_priority_mode m w)) = db_rows w;
  keep_estimation_mode m w : db_rows (snd (write_gas_estimation_priority_mode m w)) = db_rows w;
  keep_cancelled w : db_rows (snd (is_cancelled w)) = db_rows w
}.

Section Stored.
Context `{!BrokerDbLaws W} {Hkeep : LockerEnvLaws}.

Definition same_rows (w w' : W) : Prop := db_rows w' = db_rows w.

#[local] Instance respects_rows : Respects same_rows.
Proof.
  destruct Hkeep. constructor; unfold same_rows; auto using db_committed_law, db_is_locked_law,
    db_get_locked_law, db_is_fulfilled_law. congruence.
Qed.

(** The events of a run against the rows before and after it. *)
Record stored (events : list LockerEvent) (rows rows' : gmap string Order) : Prop := {
  st_accepted o p : Accepted o p true ∈ events ->
    exists row, rows' !! order_id o = Some row
                /\ status row = PendingProving /\ lock_price row = Some p;
  st_kept : rows ⊆ rows';
  st_only id row : rows' !! id = Some row ->
    rows !! id = Some row \/ exists o p, Accepted o p true ∈ events /\ order_id o = id;
  st_priced o p b : Accepted o p b ∈ events ->
    if bool_decide (fulfillment_type o = LockAndFulfill)
    then exists s s', lock_order o s = (Ok p, s') else p = 0
}.

Lemma stored_quiet events rows :
  (forall o p b, Accepted o p b ∉ events) -> stored events rows rows.
Proof. intros Hn. constructor; try naive_solver. Qed.

Lemma stored_app ev1 ev2 rows1 rows2 rows3 :
  stored ev1 rows1 rows2 -> stored ev2 rows2 rows3 -> stored (ev1 ++ ev2) rows1 rows3.
Proof.
  intros [A1 K1 O1 P1] [A2 K2 O2 P2]. constructor.
  - intros o p [Hin|Hin]%elem_of_app; [|by apply A2].
    apply A1 in Hin as (row & Hl & ?). exists row. split; [by eapply lookup_weaken|done].
  - by transitivity rows2.
  - intros id row [Hl|(o & p & ? & ?)]%O2; [apply O1 in Hl as [?|(o & p & ? & ?)]; [by left|]|];
      right; exists o, p; rewrite elem_of_app; auto.
  - intros o p b [Hin|Hin]%elem_of_app; [by apply P1 in Hin|by apply P2 in Hin].
Qed.

Lemma filtered_stored input output (s s' : LState) :
  filtered (Rw := same_rows) input output s s' ->
  exists evs, s'.1 = s.1 ++ evs /\ stored evs (db_rows s.2) (db_rows s'.2).
Proof.
  intros (sk & E & _ & R). eexists. split; [exact E|]. rewrite R. apply stored_quiet.
  intros o p b (x & ? & _)%list_elem_of_fmap. done.
Qed.

Lemma lock_and_prove_order_stored o (s : LState) b s' :
  lock_and_prove_order o s = (Ok b, s') ->
  exists evs, s'.1 = s.1 ++ evs /\ stored evs (db_rows s.2) (db_rows s'.2).
Proof.
  intros [(-> & E & R)|[(-> & E & R)|
    (-> & _ & p & s1 & r & w2 & [_ R] & Hp & Hi & ->)]]%(lock_and_prove_order_cases (Rw := same_rows)).
  - exists []. rewrite app_nil_r, R. split; [done|]. apply stored_quiet. set_solver.
  - eexists. split; [exact E|]. rewrite R. apply stored_quiet. set_solver.
  - exists [Accepted o p (is_ok r)]. split; [done|]. simpl. rewrite <- R.
    apply db_insert_law in Hi.
    assert (forall o' p' b', Accepted o' p' b' ∈ [Accepted o p (is_ok r)] ->
      if bool_decide (fulfillment_type o' = LockAndFulfill)
      then exists s0 s0', lock_order o' s0 = (Ok p', s0') else p' = 0) as HP.
    { intros o' p' b' [= -> -> ->]%list_elem_of_singleton. destruct (bool_decide _); eauto. }
    destruct r as [row|e|]; simpl in *.
    + destruct Hi as (Hn & -> & Hst & Hpr). constructor; [| | |exact HP].
      * intros o' p' [= -> ->]%list_elem_of_singleton. exists row. by rewrite lookup_insert_eq.
      * by apply insert_subseteq.
      * intros id row' Hl. destruct (decide (order_id o = id)) as [<-|Hne].
        { right. exists o, p. by rewrite list_elem_of_singleton. }
        rewrite lookup_insert_ne in Hl by done. by left.
    + rewrite Hi. constructor; [set_solver|done|auto|exact HP].
    + rewrite Hi. constructor; [set_solver|done|auto|exact HP].
Qed.

Lemma lock_and_prove_orders_stored orders (s : LState) retries s' :
  lock_and_prove_orders orders s = (Ok retries, s') ->
  exists evs, s'.1 = s.1 ++ evs /\ stored evs (db_rows s.2) (db_rows s'.2).
Proof.
  revert s retries s'. induction orders as [|o orders IH]; simpl; intros s retries s' Hr.
  { injection Hr as <- <-. exists []. rewrite app_nil_r. split; [done|].
    apply stored_quiet. set_solver. }
  bind_step Hr b s1 E1. bind_step Hr rest s2 E2. injection Hr as <- <-.
  apply lock_and_prove_order_stored in E1 as (ev1 & L1 & S1).
  apply IH in E2 as (ev2 & L2 & S2). exists (ev1 ++ ev2).
  split; [by rewrite L2, L1, <- app_assoc|by eapply stored_app].
Qed.

(** A round of the locker writes to the database exactly what it announces:
    an accepted order is stored for proving under its identifier with the
    price it was accepted at, which is the price its lock reported, or zero
    for an order that is not locked; the rows that were there stay as they
    were; and there are no other new rows. *)
Theorem process_orders_stores config block_timestamp orders retry (s : LState) retries s' :
  process_orders config block_timestamp orders retry s = (Ok retries, s') ->
  exists events, s'.1 = s.1 ++ events /\ stored events (db_rows s.2) (db_rows s'.2).
Proof.
  unfold process_orders. intros Hr. bind_step Hr valid s1 E1.
  apply (validate_orders_filtered (Rw := same_rows)), filtered_stored in E1 as (ev1 & L1 & S1).
  destruct valid as [|v valid]; [injection Hr as <- <-; eauto|].
  bind_step Hr res s2 E2. apply (apply_gas_limits_filtered (Rw := same_rows)) in E2.
  destruct res as [final|].
  2: { injection Hr as <- <-. destruct E2 as [E2 R2]. rewrite E2, R2. eauto. }
  apply filtered_stored in E2 as (ev2 & L2 & S2).
  pose proof (stored_app _ _ _ _ _ S1 S2) as S12. rewrite L1, <- app_assoc in L2.
  destruct final as [|f final]; [injection Hr as <- <-; eauto|].
  bind_step Hr rs s3 E3. injection Hr as <- <-.
  apply lock_and_prove_orders_stored in E3 as (ev3 & L3 & S3).
  exists ((ev1 ++ ev2) ++ ev3). split; [by rewrite L3, L2, <- !app_assoc|by eapply stored_app].
Qed.

End Stored.

End Locker.

(** ** Witnesses *)

(** A chain where every lock lands in block 7, at time 1010; the signer has
    [balance] wei and gas costs 1 wei. *)
Definition toy_locker_env (balance : Z) : LockerEnv Db := {|
  lk_now := fun w => (950, w);
  get_status := fun _ _ w => (Ok StUnknown, w);
  balance_of_collateral := fun w => (Ok 20000, w);
  skip_gas_profitability_check := fun w => (false, w);
  lk_current_gas_price := fun w => (Ok 1, w);
  lock_request := fun _ _ w => (Ok 7, w);
  lock_block_timestamp := fun _ w => (Ok 1010, w);
  market_is_fulfilled := fun _ w => (Ok false, w);
  get_balance := fun w => (Ok balance, w);
  fulfillment_gas := fun _ w => (Ok 1000, w);
  lk_estimate_erc1271_gas := fun _ w => (0, w);
  read_market_config := fun w => (Ok toy_config, w);
  current_chain_head := fun w => (Ok (6, 950), w);
  read_locker_config := fun w => (Ok (mkLockerConfig 10 (Some 100) 1000, ModeLow, ModeHigh), w);
  write_gas_priority_mode := fun _ w => (tt, w);
  write_gas_estimation_priority_mode := fun _ w => (tt, w);
  is_cancelled := fun w => (false, w);
  signer_address := "0xAa";
  prover_address := "0xAa"
|}.

Definition toy_locker_config : OrderLockerConfig := mkLockerConfig 10 (Some 100) 1000.
Definition toy_orders : list OrderRequest := [toy_order FulfillAfterLockExpire; toy_order LockAndFulfill].

#[local] Instance toy_broker_db : BrokerDb Db := @sqlite_broker_db toy_externals toy_engine 950.

Definition toy_round (balance : Z) (db : Db) :=
  @process_orders Db (toy_locker_env balance) _ false toy_locker_config 950 toy_orders [] ([], db).

Definition toy_locker_loop :=
  @locker_loop Db (toy_locker_env (10 ^ 18)) toy_broker_db false (Tick :: (NewOrder <$> toy_orders) ++ [Cancel; Tick])
    locker_loop_start ([], db_empty).

Lemma locker_loop_accounts_witness :
  exists l unread s' taken dropped, toy_locker_loop = (Ok (l, unread), s')
    /\ Tick :: (NewOrder <$> toy_orders) ++ [Cancel; Tick] = taken ++ default [] unread
    /\ @turns Db (toy_locker_env (10 ^ 18)) toy_broker_db false taken locker_loop_start
         ([], db_empty) dropped (bool_decide (is_Some unread)) l s'
    /\ @accounted Db false (arrivals taken) (retry_orders l) dropped ([], db_empty) s'.
Proof.
  assert (Hok : is_ok toy_locker_loop.1 = true) by (vm_compute; reflexivity).
  destruct toy_locker_loop as [[[l unread]|e|] s'] eqn:E; [|discriminate Hok|discriminate Hok].
  unfold toy_locker_loop in E.
  destruct (@locker_loop_accounts Db (toy_locker_env (10 ^ 18)) toy_broker_db false
    (Tick :: (NewOrder <$> toy_orders) ++ [Cancel; Tick]) locker_loop_start ([], db_empty) l unread s' E)
    as (dn & d & Ei & T & A).
  exists l, unread, s', dn, d. exact (conj eq_refl (conj Ei (conj T A))).
Defined.

(** Where the committed orders cost more than the balance, a round that ends
    without an error drops a valid order: it is not retried, and no completion
    tells the committer. *)
Lemma overrun_drops_orders :
  (toy_round 0 toy_db).1 = Ok [] /\ (toy_round 0 toy_db).2.1 = [].
Proof. split; by vm_compute. Qed.

Definition toy_limits :=
  @apply_gas_limits Db (toy_locker_env (10 ^ 18)) _ false toy_locker_config toy_orders ([], toy_db).

Lemma apply_gas_limits_budget_witness :
  exists final s' costs, toy_limits = (Ok (Some final), s')
    /\ Forall2 (@priced_at Db (toy_locker_env (10 ^ 18)) 1) final costs
    /\ foldr Z.add 0 costs <= 10 ^ 18.
Proof.
  assert (Hok : match toy_limits.1 with Ok (Some _) => true | _ => false end = true)
    by (vm_compute; reflexivity).
  destruct toy_limits as [[[final|]|e|] s'] eqn:E; try discriminate Hok.
  destruct (@apply_gas_limits_budget Db (toy_locker_env (10 ^ 18)) _ false toy_locker_config
    toy_orders ([], toy_db) final s') as (gp & bal & w & co & w' & un & s1 & s2 & costs & Eg & Eb & _ & Ec & F & Hle).
  - intros w b Hb. injection Hb as <-. unfold fits. lia.
  - intros w b Hb. injection Hb as <-. unfold fits. lia.
  - exact E.
  - injection Eg as <-. injection Eb as <-. apply committed_gas_fits in Ec as [? _].
    exists final, s', costs. split; [reflexivity|]. split; [exact F|lia].
Defined.

Lemma lock_order_checked_witness :
  exists price s', @lock_order Db (toy_locker_env 0) _ (toy_order LockAndFulfill) ([], db_empty)
                   = (Ok price, s') /\ price = 300
    /\ lockCollateral (offer (request (toy_order LockAndFulfill))) <= 20000.
Proof.
  exists 300, ([], db_empty).
  assert (E : @lock_order Db (toy_locker_env 0) _ (toy_order LockAndFulfill) ([], db_empty)
                = (Ok 300, ([], db_empty))) by (vm_compute; reflexivity).
  split; [exact E|]. split; [reflexivity|].
  destruct (@lock_order_checked Db (toy_locker_env 0) _ (toy_order LockAndFulfill)
    ([], db_empty) 300 ([], db_empty) E) as (_ & _ & (w & b & [= <-] & Hle) & _). exact Hle.
Defined.

Lemma toy_env_laws balance :
  @LockerEnvLaws Db toy_externals (toy_locker_env balance) _ (@sqlite_broker_db_laws toy_externals toy_engine 950).
Proof. by constructor. Qed.

Lemma process_orders_stores_witness :
  exists retries log w row,
    toy_round (10 ^ 18) db_empty = (Ok retries, (log, w))
    /\ orders w !! toy_id = Some row /\ lock_price row = Some 300.
Proof.
  assert (Hok : is_ok (toy_round (10 ^ 18) db_empty).1 = true) by (vm_compute; reflexivity).
  assert (Hin : existsb (fun e => match e with
      | Accepted o p true => bool_decide (@order_id toy_externals o = toy_id) && (p =? 300)
      | _ => false end) (toy_round (10 ^ 18) db_empty).2.1 = true) by (vm_compute; reflexivity).
  destruct (toy_round (10 ^ 18) db_empty) as [[retries|e|] [log w]] eqn:E;
    [|discriminate Hok|discriminate Hok].
  destruct (@process_orders_stores Db toy_externals (toy_locker_env (10 ^ 18)) _ false
    (@sqlite_broker_db_laws toy_externals toy_engine 950) (toy_env_laws (10 ^ 18)) toy_locker_config 950 toy_orders []
    ([], db_empty) retries (log, w) E) as (ev & L & [A _ _ _]).
  simpl in L, Hin. subst ev. apply existsb_exists in Hin as (e & He & Hb).
  destruct e as [|o p []]; try discriminate Hb.
  apply andb_prop in Hb as [Hid%bool_decide_eq_true Hp%Z.eqb_eq]. subst p.
  apply list_elem_of_In, A in He as (row & Hrow & _ & Hpr). rewrite Hid in Hrow.
  exists retries, log, w, row. exact (conj eq_refl (conj Hrow Hpr)).
Defined.
