(* ===== verification/FulfillTx.v ===== *)
(** * FulfillTx: the fulfillment transaction

    [Fulfillment] of the market contract and [FulfillmentTx] of
    [crates/boundless-market/src/contracts/boundless_market.rs], with its builder
    methods: what the submitter hands to the client of the market, and what the log
    of a service records of it. *)

From S2P Require Import Prelude Market.

Local Open Scope Z_scope.

(** The [Fulfillment] of the contract. *)
Record Fulfillment := mkFulfillment {
  claimDigest : bytes;
  fulfillmentDataType : FulfillmentDataType;
  fulfillmentData : bytes;
  f_seal : bytes
}.

Record UnlockedRequest := mkUnlocked {
  ur_request : ProofRequest;
  ur_client_sig : bytes
}.

Record Root := mkRoot {
  verifier_address : Z;
  root_digest : Z;
  root_seal : bytes
}.

Record FulfillmentTx := mkFulfillmentTx {
  tx_root : option Root;
  unlocked_requests : list UnlockedRequest;
  fulfilled : list ProofRequest;
  fulfillments : list Fulfillment;
  tx_assessor_seal : bytes;
  tx_prover : Z;
  tx_withdraw : bool
}.

Definition fulfillment_tx_new (requests : list ProofRequest) (fs : list Fulfillment)
    (seal : bytes) (prover : Z) : FulfillmentTx :=
  mkFulfillmentTx None [] requests fs seal prover false.

Definition with_submit_root (self : FulfillmentTx) (verifier root : Z) (seal : bytes)
    : FulfillmentTx :=
  mkFulfillmentTx (Some (mkRoot verifier root seal)) (unlocked_requests self) (fulfilled self)
    (fulfillments self) (tx_assessor_seal self) (tx_prover self) (tx_withdraw self).

Definition with_unlocked_requests (self : FulfillmentTx) (l : list UnlockedRequest)
    : FulfillmentTx :=
  mkFulfillmentTx (tx_root self) (unlocked_requests self ++ l) (fulfilled self)
    (fulfillments self) (tx_assessor_seal self) (tx_prover self) (tx_withdraw self).

Definition with_withdraw (self : FulfillmentTx) (b : bool) : FulfillmentTx :=
  mkFulfillmentTx (tx_root self) (unlocked_requests self) (fulfilled self)
    (fulfillments self) (tx_assessor_seal self) (tx_prover self) b.

(** Adds one request to be priced. *)
Definition with_unlocked_request (self : FulfillmentTx) (u : UnlockedRequest) : FulfillmentTx :=
  mkFulfillmentTx (tx_root self) (unlocked_requests self ++ [u]) (fulfilled self)
    (fulfillments self) (tx_assessor_seal self) (tx_prover self) (tx_withdraw self).
