(* ===== verification/Pipeline.v ===== *)
(** * Pipeline: what the services behind the locker share

    The order processor, the reaper, the batcher and the submitter run as
    concurrent tasks over one database.  This file holds their common ground:
    the world they run in, the calls to the database with the interference of
    the other tasks, the failure handling of
    [crates/broker/src/shared/errors.rs], and the retry loops of
    [crates/boundless-backend/src/futures_retry.rs].

    A task sees the database through [db_call]: before the statement runs, the
    other tasks have had their turn ([t_others], any function on the tables),
    and the engine may refuse the statement ([t_fault]).  What a task sends is
    kept in the log of the world: the completions for the committer, with the
    outcome of the non-blocking send, the fulfillment transactions, and the tasks
    it spawned.  The
    class [BrokerEnv] holds the clock, the configuration lock (of which a
    poisoned state reads as [None]) and the channel. *)

From S2P Require Import Prelude Market OrderPricing Db Committer FulfillTx.

Local Open Scope Z_scope.

(** ** Configuration *)

(** The fields of [ProverConfig], [BatcherConfig] and [MarketConfig] that the
    services read. *)
Record ServiceConfig := mkServiceConfig {
  cancel_proving_expired_orders : bool;
  proof_retry_count : Z;
  proof_retry_sleep_ms : Z;
  reaper_interval_secs : Z;
  reaper_grace_period_secs : Z;
  batch_max_time : Z;
  min_batch_size : Z;
  batch_max_journal_bytes : Z;
  batch_max_fees : option string;
  block_deadline_buffer_secs : Z;
  single_txn_fulfill : bool;
  withdraw : bool;
  max_submission_attempts : Z;
  submit_retry_delay_ms : Z;
  batch_poll_time_ms : option Z;
  sc_max_concurrent_proofs : Z
}.

Definition default_proof_retry_count : Z := 1.
Definition default_proof_retry_sleep_ms : Z := 500.

(** ** The world of a task *)

Inductive Event :=
| Notified (c : CommitmentComplete) (delivered : bool)
| FulfillSent (tx : FulfillmentTx) (accepted : bool)
| Spawned (order : Order).

(** The orders whose failure was sent, in order. *)
Definition failures_sent (l : list Event) : list string :=
  omap (fun e => match e with
                 | Notified (mkCompletion id _ OutcomeProvingFailed) _ => Some id
                 | _ => None end) l.

Record World (X : Type) := mkWorld {
  w_db : Db;
  w_ext : X;
  w_log : list Event
}.
Arguments mkWorld {X} _ _ _.
Arguments w_db {X} _.
Arguments w_ext {X} _.
Arguments w_log {X} _.

(** One turn at the database: what the other tasks did since the last one, the
    clock that the statement reads, and a failure of the engine. *)
Record DbTurn := mkTurn {
  t_others : Db -> Db;
  t_now : Z;
  t_fault : option DbError
}.

Class BrokerEnv (X : Type) := {
  db_turn : st X DbTurn;
  now_timestamp : st X Z;
  lock_all : st X (option ServiceConfig);
  sleep_ms : Z -> st X unit;
  channel_room : CommitmentComplete -> st X bool;
  db_error_text : DbError -> string
}.

(** How a service ends: the supervisor restarts it, or gives up. *)
Inductive SupervisorErr (E : Type) :=
| Recover (e : E)
| Fault (e : E).
Arguments Recover {E} e.
Arguments Fault {E} e.

(** [order.id()] hashes the request and unwraps. *)
Definition id_of `{Externals} {E} (o : Order) : result E string :=
  match db_order_id o with Ok id => Ok id | _ => Panic end.

(** [orders.map(|order| (order.id(), order)).collect()] into a [HashMap]. *)
Fixpoint by_id `{Externals} {E} (orders : list Order) (m : gmap string Order)
    : result E (gmap string Order) :=
  match orders with
  | [] => Ok m
  | order :: orders =>
      id ← id_of order;
      by_id orders (<[id := order]> m)
  end.

Section World.
Context {X : Type} `{BrokerEnv X}.

(** A call that touches neither the database nor the log. *)
Definition env {A} (m : st X A) : st (World X) A := fun w =>
  let (a, x) := m (w_ext w) in (a, mkWorld (w_db w) x (w_log w)).

Definition emit (e : Event) : st (World X) unit := fun w =>
  (tt, mkWorld (w_db w) (w_ext w) (w_log w ++ [e])).

(** [m] runs on the tables as the other tasks left them, or not at all. *)
Definition db_call {A} (m : Z -> ste Db DbError A) : ste (World X) DbError A := fun w =>
  let (turn, x) := db_turn (w_ext w) in
  let d := t_others turn (w_db w) in
  match t_fault turn with
  | Some e => (Err e, mkWorld d x (w_log w))
  | None => let (r, d') := m (t_now turn) d in (r, mkWorld d' x (w_log w))
  end.

(** [proving_completion_tx.try_send(..)]; its error is logged and dropped. *)
Definition send_completion (c : CommitmentComplete) : st (World X) unit :=
  room ← env (channel_room c);
  emit (Notified c room).

(** ** Failure handling *)

(** The outcome is for telemetry. *)
Inductive CompletionOutcome :=
| CoFulfilled
| CoExpiredWhileProving
| CoExpiredBeforeSubmission
| CoFulfilledBeforeSubmission
| CoTxFailed
| CoProvingFailed
| CoAggregationFailed
| CoLockFailed
| CoCancelled
| CoUnknown.

Record BrokerFailure := mkFailure {
  f_code : string;
  f_reason : string;
  f_outcome : CompletionOutcome
}.

Definition show_failure (f : BrokerFailure) : string :=
  f_code f +:+ " " +:+ f_reason f.

(** Both results are logged only. *)
Definition handle_order_failure (order_id : string) (failure : BrokerFailure) (chain_id : Z)
    : st (World X) unit :=
  _ ← attempt (db_call (fun now => Db.set_order_failure now order_id (show_failure failure)));
  send_completion (mkCompletion order_id chain_id OutcomeProvingFailed).

End World.

(** ** Retries

    A world in which a task can pause. *)
Class Sleep (W : Type) := sleep : Z -> st W unit.

Section Retries.
Context {W : Type} `{Sleep W}.

(** The loop [for attempt in 0..=retry_count]: the attempts to come and the
    error kept from the last one, with the [unwrap] behind the loop. *)
Fixpoint retry_attempts {E A} (retry_count : nat) (retry_sleep_ms : Z)
    (operation : ste W E A) (should_retry : option (E -> bool))
    (attempts : list nat) (last_error : option E) : ste W E A :=
  match attempts with
  | [] => match last_error with Some e => throw e | None => fun w => (Panic, w) end
  | attempt :: attempts => fun w =>
      match operation w with
      | (Ok a, w1) => (Ok a, w1)
      | (Panic, w1) => (Panic, w1)
      | (Err err, w1) =>
          if match should_retry with Some predicate => negb (predicate err) | None => false end
          then (Err err, w1)
          else if (attempt <? retry_count)%nat
          then let (_, w2) := sleep retry_sleep_ms w1 in
               retry_attempts retry_count retry_sleep_ms operation should_retry attempts
                 (Some err) w2
          else retry_attempts retry_count retry_sleep_ms operation should_retry attempts
                 (Some err) w1
      end
  end.

Definition retry_impl {E A} (retry_count retry_sleep_ms : Z)
    (operation : ste W E A) (should_retry : option (E -> bool))
    : ste W E A :=
  if retry_count =? 0 then operation else
  retry_attempts (Z.to_nat retry_count) retry_sleep_ms operation should_retry
    (seq 0 (S (Z.to_nat retry_count))) None.

(** The context of the two longer forms is only logged. *)
Definition retry {E A} (retry_count retry_sleep_ms : Z) (operation : ste W E A)
    : ste W E A :=
  retry_impl retry_count retry_sleep_ms operation None.

Definition retry_with_context {E A} (retry_count retry_sleep_ms : Z)
    (operation : ste W E A) : ste W E A :=
  retry_impl retry_count retry_sleep_ms operation None.

Definition retry_only {E A} (retry_count retry_sleep_ms : Z)
    (operation : ste W E A) (should_retry : E -> bool) : ste W E A :=
  retry_impl retry_count retry_sleep_ms operation (Some should_retry).

Definition retry_only_with_context {E A} (retry_count retry_sleep_ms : Z)
    (operation : ste W E A) (should_retry : E -> bool) : ste W E A :=
  retry_impl retry_count retry_sleep_ms operation (Some should_retry).

End Retries.

#[export] Instance world_sleep {X} `{BrokerEnv X} : Sleep (World X) := fun ms => env (sleep_ms ms).


(** The table holds the orders under their own names. *)
Lemma by_id_spec `{Externals} {E} (os : list Order) m :
  (forall o, o ∈ os -> exists id, db_order_id o = Ok id) ->
  exists m', by_id (E := E) os m = Ok m'
    /\ forall id o, m' !! id = Some o -> m !! id = Some o \/ (o ∈ os /\ db_order_id o = Ok id).
Proof.
  revert m. induction os as [|o os IH]; intros m Hid; [exists m; split; [done|by left]|].
  destruct (Hid o) as [id Ho]; [left|]. destruct (IH (<[id := o]> m)) as (m' & Hm' & Hspec).
  { intros o' Ho'. apply Hid. by right. }
  exists m'. split; [cbn [by_id]; unfold id_of; by rewrite Ho|].
  intros id' o' Hl. apply Hspec in Hl as [Hl|[Hin Hid']].
  - destruct (decide (id' = id)) as [->|Hne].
    + rewrite lookup_insert_eq in Hl. injection Hl as <-. right. split; [left|done].
    + rewrite lookup_insert_ne in Hl by done. by left.
  - right. split; [by right|done].
Qed.

Lemma by_id_elem `{Externals} {E} (os : list Order) (m m' : gmap string Order) id o :
  by_id (E := E) os m = Ok m' -> m' !! id = Some o -> m !! id = Some o \/ o ∈ os.
Proof.
  revert m. induction os as [|o' os IH]; intros m Ht El.
  - injection Ht as <-. by left.
  - cbn [by_id] in Ht. apply result_bind_Ok in Ht as (i & _ & Ht).
    destruct (IH _ Ht El) as [Hl|Hin]; [|right; by right].
    destruct (decide (i = id)) as [->|Hne].
    + rewrite lookup_insert_eq in Hl. injection Hl as <-. right. left.
    + rewrite lookup_insert_ne in Hl by done. by left.
Qed.

(** ** The retry loops return the result of their last attempt *)

Section RetrySpec.
Context {W : Type} `{Sleep W} {E A : Type}.
Variables (retry_count retry_sleep_ms : Z) (operation : ste W E A)
  (should_retry : option (E -> bool)).

(** The world in which attempt [k] starts when the ones before it failed: each
    is followed by a pause. *)
Fixpoint attempt_start (k : nat) (w : W) : W :=
  match k with
  | O => w
  | S k => snd (sleep retry_sleep_ms (snd (operation (attempt_start k w))))
  end.

(** A result that is tried again: an error that the predicate accepts. *)
Definition retryable (r : result E A) : bool :=
  match r with
  | Err e => match should_retry with Some predicate => predicate e | None => true end
  | _ => false
  end.

Lemma attempt_start_S k w :
  attempt_start (S k) w
  = attempt_start k (snd (sleep retry_sleep_ms (snd (operation w)))).
Proof. induction k as [|k IH]; [done|]. simpl in *. by rewrite IH. Qed.

Lemma retry_attempts_spec todo i last w :
  (i + todo = Z.to_nat retry_count)%nat ->
  exists k, (k <= todo)%nat
    /\ retry_attempts (Z.to_nat retry_count) retry_sleep_ms operation should_retry
         (seq i (S todo)) last w = operation (attempt_start k w)
    /\ (forall j, (j < k)%nat -> retryable (fst (operation (attempt_start j w))) = true)
    /\ (k < todo -> retryable (fst (operation (attempt_start k w))) = false)%nat.
Proof.
  revert i last w. induction todo as [|todo IH]; intros i last w Hi.
  - exists O. split_and!; [done| |lia|lia].
    simpl. destruct (operation w) as [[a|e|] w1]; [done| |done].
    rewrite (proj2 (Nat.ltb_ge _ _)) by lia. by case_match.
  - set (w2 := snd (sleep retry_sleep_ms (snd (operation w)))).
    destruct (retryable (fst (operation w))) eqn:Er.
    + destruct (IH (S i) match fst (operation w) with Err e => Some e | _ => None end w2)
        as (k & Hk & Heq & Hbefore & Hstop); [lia|].
      exists (S k). split_and!; [lia| | |].
      * rewrite attempt_start_S. fold w2. rewrite <- Heq. subst w2. clear -Er Hi.
        change (seq i (S (S todo))) with (i :: seq (S i) (S todo)). simpl retry_attempts at 1.
        unfold retryable in Er. destruct (operation w) as [[a|e|] w1]; [done| |done]. simpl in Er.
        rewrite (proj2 (Nat.ltb_lt _ _)) by lia.
        simpl snd. destruct should_retry; [rewrite Er|]; by destruct (sleep _ w1).
      * intros [|j] Hj; [done|]. rewrite attempt_start_S. apply Hbefore. lia.
      * intros Hlt. rewrite attempt_start_S. apply Hstop. lia.
    + exists O. split_and!; [lia| |lia|done].
      change (seq i (S (S todo))) with (i :: seq (S i) (S todo)). simpl.
      unfold retryable in Er. destruct (operation w) as [[a|e|] w1]; [done| |done]. simpl in Er.
      destruct should_retry; [by rewrite Er|done].
Qed.

End RetrySpec.

(** C35. A retry loop behaves as its operation run at one attempt [k] of at most
    [retry_count] repetitions, in the world that the failed attempts and the
    pauses between them have left: every attempt before [k] failed with an error
    that may be retried, and [k] is the first that did not, or the last allowed.
    In particular the [unwrap] behind the loop never panics. *)
Theorem retry_impl_equiv {W} `{Sleep W} {E A} retry_count retry_ms
    (operation : ste W E A) should_retry w :
  0 <= retry_count ->
  exists k, Z.of_nat k <= retry_count
    /\ retry_impl retry_count retry_ms operation should_retry w
       = operation (attempt_start retry_ms operation k w)
    /\ (forall j, (j < k)%nat ->
          retryable should_retry (fst (operation (attempt_start retry_ms operation j w))) = true)
    /\ (Z.of_nat k < retry_count ->
          retryable should_retry (fst (operation (attempt_start retry_ms operation k w))) = false).
Proof.
  intros Hc. unfold retry_impl. destruct (Z.eqb_spec retry_count 0) as [->|Hne].
  { exists O. split_and!; [done|done|lia|lia]. }
  destruct (retry_attempts_spec retry_count retry_ms operation should_retry
              (Z.to_nat retry_count) 0 None w eq_refl) as (k & Hk & Heq & Hb & Hs).
  exists k. split_and!; [lia|done|done|]. intros. apply Hs. lia.
Qed.

(** ** Total correctness

    [twp m Q R w]: the run of [m] from [w] returns, with a value and a world in
    [Q] or an error and a world in [R]. *)

Definition twp {W E A} (m : ste W E A) (Q : A -> W -> Prop) (R : E -> W -> Prop) (w : W)
    : Prop :=
  match m w with
  | (Ok a, w') => Q a w'
  | (Err e, w') => R e w'
  | (Panic, _) => False
  end.

Section Twp.
Context {W E F A B : Type}.
Implicit Types (w : W) (Q : A -> W -> Prop) (R : E -> W -> Prop).

Lemma twp_mono (m : ste W E A) Q Q' R R' w :
  twp m Q R w -> (forall a w', Q a w' -> Q' a w') -> (forall e w', R e w' -> R' e w') ->
  twp m Q' R' w.
Proof. unfold twp. destruct (m w) as [[] ?]; auto. Qed.

Lemma twp_bind (m : ste W E A) (f : A -> ste W E B) (Q : B -> W -> Prop) R w :
  twp m (fun a w' => twp (f a) Q R w') R w -> twp (m ≫= f) Q R w.
Proof. unfold twp, mbind, ste_bind. by destruct (m w) as [[] ?]. Qed.

Lemma twp_ret a Q R w : Q a w -> twp (mret a) Q R w.
Proof. done. Qed.

Lemma twp_throw e Q R w : R e w -> twp (throw e) Q R w.
Proof. done. Qed.

Lemma twp_lift (m : st W A) Q R w : Q (fst (m w)) (snd (m w)) -> twp (lift m) Q R w.
Proof. unfold twp, lift. by destruct (m w). Qed.

Lemma twp_liftr_ok (r : result E A) a Q R w : r = Ok a -> Q a w -> twp (liftr r) Q R w.
Proof. by intros ->. Qed.

Lemma twp_with_err (f : E -> F) (m : ste W E A) Q (R : F -> W -> Prop) w :
  twp m Q (fun e w' => R (f e) w') w -> twp (with_err f m) Q R w.
Proof. unfold twp, with_err. by destruct (m w) as [[] ?]. Qed.

Lemma twp_catch (m : ste W E A) (Q : E + A -> W -> Prop) (R : F -> W -> Prop) w :
  twp m (fun a => Q (inr a)) (fun e => Q (inl e)) w -> twp (catch m) Q R w.
Proof. unfold twp, catch. by destruct (m w) as [[] ?]. Qed.

(** A run that meets its specification, opened. *)
Lemma twp_elim (m : ste W E A) Q R w :
  twp m Q R w ->
  (exists a w', m w = (Ok a, w') /\ Q a w') \/ (exists e w', m w = (Err e, w') /\ R e w').
Proof. unfold twp. destruct (m w) as [[] ?]; naive_solver. Qed.
End Twp.

(** [pwp m Q I w]: a run of [m] from [w] that returns a value ends in [Q], and
    one that ends otherwise leaves a world in [I]. *)

Definition pwp {W E A} (m : ste W E A) (Q : A -> W -> Prop) (I : W -> Prop) (w : W) : Prop :=
  match m w with
  | (Ok a, w') => Q a w'
  | (_, w') => I w'
  end.

Section Pwp.
Context {W E F A B : Type}.
Implicit Types (w : W) (Q : A -> W -> Prop) (I : W -> Prop).

Lemma pwp_mono (m : ste W E A) Q Q' I I' w :
  pwp m Q I w -> (forall a w', Q a w' -> Q' a w') -> (forall w', I w' -> I' w') ->
  pwp m Q' I' w.
Proof. unfold pwp. destruct (m w) as [[] ?]; auto. Qed.

Lemma pwp_bind (m : ste W E A) (f : A -> ste W E B) (Q : B -> W -> Prop) I w :
  pwp m (fun a w' => pwp (f a) Q I w') I w -> pwp (m ≫= f) Q I w.
Proof. unfold pwp, mbind, ste_bind. by destruct (m w) as [[] ?]. Qed.

Lemma pwp_ret a Q I w : Q a w -> pwp (E := E) (mret a) Q I w.
Proof. done. Qed.

Lemma pwp_lift (m : st W A) Q I w :
  Q (fst (m w)) (snd (m w)) -> pwp (E := E) (lift m) Q I w.
Proof. unfold pwp, lift. by destruct (m w). Qed.

Lemma pwp_liftr (r : result E A) Q I w :
  (forall a, r = Ok a -> Q a w) -> I w -> pwp (liftr r) Q I w.
Proof. unfold pwp, liftr. destruct r; auto. Qed.

Lemma pwp_with_err (f : E -> F) (m : ste W E A) Q I w :
  pwp m Q I w -> pwp (with_err f m) Q I w.
Proof. unfold pwp, with_err. by destruct (m w) as [[] ?]. Qed.

Lemma pwp_catch (m : ste W E A) (Q : E + A -> W -> Prop) I w :
  pwp m (fun a => Q (inr a)) (fun w' => (forall e, Q (inl e) w') /\ I w') w ->
  pwp (E := F) (catch m) Q I w.
Proof. unfold pwp, catch. destruct (m w) as [[] ?]; naive_solver. Qed.
End Pwp.

(** Enter the first call of a sequence. *)
Ltac twp_step :=
  lazymatch goal with
  | |- twp (mbind _ _) _ _ _ => apply twp_bind
  | |- pwp (mbind _ _) _ _ _ => apply pwp_bind
  end.

(** ** Rules for retries *)

Section RetryRules.
Context {W : Type} `{Sleep W}.

(** An assertion that holds whenever an attempt starts holds of the last. *)
Lemma retry_impl_rule {E A} (I : W -> Prop) (Q : result E A -> W -> Prop)
    retry_count retry_ms (operation : ste W E A) should_retry w :
  0 <= retry_count -> I w ->
  (forall w, I w -> Q (fst (operation w)) (snd (operation w))) ->
  (forall w e, I w -> fst (operation w) = Err e ->
     I (snd (sleep retry_ms (snd (operation w))))) ->
  Q (fst (retry_impl retry_count retry_ms operation should_retry w))
    (snd (retry_impl retry_count retry_ms operation should_retry w)).
Proof.
  intros Hc Hw HQ HI. unfold retry_impl. destruct (retry_count =? 0); [by apply HQ|].
  destruct (retry_attempts_spec retry_count retry_ms operation should_retry
              (Z.to_nat retry_count) 0 None w eq_refl) as (k & _ & -> & Hb & _).
  apply HQ. clear -Hw HI Hb. induction k as [|k IH]; [done|]. simpl.
  pose proof (Hb k ltac:(lia)) as Hk. unfold retryable in Hk.
  destruct (fst (operation (attempt_start retry_ms operation k w))) as [|e|] eqn:Ee; [done| |done].
  apply (HI _ e); [|done]. apply IH. intros. apply Hb. lia.
Qed.

Lemma twp_retry {E A} (I : W -> Prop) (Q : A -> W -> Prop)
    (R : E -> W -> Prop) retry_count retry_ms (operation : ste W E A)
    should_retry w :
  0 <= retry_count -> I w ->
  (forall w, I w -> twp operation Q R w) ->
  (forall e w, R e w -> I (snd (sleep retry_ms w))) ->
  twp (retry_impl retry_count retry_ms operation should_retry) Q R w.
Proof.
  intros Hc Hw Hop Hagain.
  pose proof (retry_impl_rule I
    (fun r w' => match r with Ok a => Q a w' | Err e => R e w' | Panic => False end)
    retry_count retry_ms operation should_retry w Hc Hw) as Hrule.
  unfold twp. destruct (retry_impl _ _ _ _ w) as [r w']. simpl in Hrule.
  assert (match r with Ok a => Q a w' | Err e => R e w' | Panic => False end) as Hr.
  { apply Hrule.
    - intros w1 H1. specialize (Hop w1 H1). unfold twp in Hop.
      destruct (operation w1) as [[] ?]; done.
    - intros w1 e H1 He. specialize (Hop w1 H1). unfold twp in Hop.
      destruct (operation w1) as [[] ?]; simpl in *; try done. by eapply Hagain. }
  by destruct r.
Qed.

End RetryRules.

(** ** Rules for the tasks *)

Section Rules.
Context {X : Type} `{BrokerEnv X}.

Definition row (id : string) (w : World X) : option Order := orders (w_db w) !! id.

Lemma env_frame {A} (m : st X A) w :
  w_db (snd (env m w)) = w_db w /\ w_log (snd (env m w)) = w_log w.
Proof. unfold env. by destruct (m (w_ext w)). Qed.

Lemma twp_env {E A} (m : st X A) (Q : A -> World X -> Prop) (R : E -> World X -> Prop) w :
  (forall a x, m (w_ext w) = (a, x) -> Q a (mkWorld (w_db w) x (w_log w))) ->
  twp (lift (env m)) Q R w.
Proof. intros HQ. apply twp_lift. unfold env. destruct (m (w_ext w)). by apply HQ. Qed.

Lemma twp_send {E} c (Q : unit -> World X -> Prop) (R : E -> World X -> Prop) w :
  (forall room x, Q tt (mkWorld (w_db w) x (w_log w ++ [Notified c room]))) ->
  twp (lift (send_completion c)) Q R w.
Proof.
  intros HQ. apply twp_lift. unfold send_completion, mbind, st_bind, env.
  destruct (channel_room c (w_ext w)) as [room x]. apply HQ.
Qed.

(** The engine answers, and the other tasks leave the orders in [S] alone. *)
Class QuietDb (S : string -> Prop) := {
  quiet_fault x : t_fault (fst (db_turn x)) = None;
  quiet_rows x d id : S id -> orders (t_others (fst (db_turn x)) d) !! id = orders d !! id
}.

(** The other tasks leave the batches in [B] alone. *)
Class QuietBatches (B : Z -> Prop) := {
  quiet_batches x d bid : B bid -> batches (t_others (fst (db_turn x)) d) !! bid = batches d !! bid
}.

Context (S : string -> Prop) `{!QuietDb S}.

(** A call behaves as its statement on tables that agree on what is ours. *)
Lemma twp_db_call (B : Z -> Prop) `{!QuietBatches B} {A} (m : Z -> ste Db DbError A)
    (Q : A -> World X -> Prop) (R : DbError -> World X -> Prop) w :
  (forall now d x, (forall id, S id -> orders d !! id = row id w) ->
     (forall bid, B bid -> batches d !! bid = batches (w_db w) !! bid) ->
     twp (fun w' => let (r, d') := m now (w_db w') in (r, mkWorld d' (w_ext w') (w_log w'))) Q R
       (mkWorld d x (w_log w))) ->
  twp (db_call m) Q R w.
Proof.
  intros Hm. unfold twp, db_call. pose proof (quiet_fault (w_ext w)) as Hf.
  pose proof (quiet_rows (w_ext w) (w_db w)) as Hr.
  pose proof (quiet_batches (w_ext w) (w_db w)) as Hb.
  destruct (db_turn (w_ext w)) as [turn x]. simpl in *. rewrite Hf.
  specialize (Hm (t_now turn) (t_others turn (w_db w)) x Hr Hb). unfold twp in Hm. simpl in Hm.
  by destruct (m _ _) as [[] ?].
Qed.

Lemma db_call_quiet {A} (m : Z -> ste Db DbError A) w :
  exists now d x, (forall id, S id -> orders d !! id = row id w)
    /\ db_call m w = (fst (m now d), mkWorld (snd (m now d)) x (w_log w)).
Proof.
  unfold db_call, row. destruct (db_turn (w_ext w)) as [turn x] eqn:Et.
  pose proof (quiet_fault (w_ext w)) as Hf. pose proof (quiet_rows (w_ext w) (w_db w)) as Hr.
  rewrite Et in Hf, Hr. simpl in Hf, Hr. rewrite Hf.
  exists (t_now turn), (t_others turn (w_db w)), x. split; [done|]. by destruct (m _ _).
Qed.

(** Writing the row of an order that is there. *)
Lemma db_call_update id f w o :
  S id -> row id w = Some o ->
  exists now, fst (db_call (fun now => update_order id (f now)) w) = Ok tt
    /\ row id (snd (db_call (fun now => update_order id (f now)) w)) = Some (f now o)
    /\ (forall id', S id' -> id' <> id ->
          row id' (snd (db_call (fun now => update_order id (f now)) w)) = row id' w)
    /\ w_log (snd (db_call (fun now => update_order id (f now)) w)) = w_log w.
Proof.
  intros HS Ho. destruct (db_call_quiet (fun now => update_order id (f now)) w)
    as (now & d & x & Hd & ->).
  exists now. unfold update_order. rewrite (Hd id HS), Ho. simpl.
  split_and!; [done| | |done].
  - apply lookup_insert_eq.
  - intros id' HS' Hne. unfold row. simpl. rewrite lookup_insert_ne by done. by apply Hd.
Qed.

(** A query leaves the rows and the log. *)
Lemma db_call_read {A} (m : ste Db DbError A) w :
  (forall d, snd (m d) = d) ->
  w_log (snd (db_call (fun _ => m) w)) = w_log w
  /\ forall id, S id -> row id (snd (db_call (fun _ => m) w)) = row id w.
Proof.
  intros Hm. destruct (db_call_quiet (fun _ => m) w) as (now & d & x & Hd & ->).
  split; [done|]. intros id HS. unfold row at 1. simpl. rewrite Hm. by apply Hd.
Qed.

(** What [handle_order_failure] does to the order, to the others and to the
    log. *)
Lemma handle_order_failure_spec id failure chain w o :
  S id -> row id w = Some o ->
  let w' := snd (handle_order_failure id failure chain w) in
  (exists now, row id w' = Some (set_error_msg (show_failure failure) (set_status Failed now o)))
  /\ (forall id', S id' -> id' <> id -> row id' w' = row id' w)
  /\ exists delivered,
       w_log w' = w_log w ++ [Notified (mkCompletion id chain OutcomeProvingFailed) delivered].
Proof.
  intros HS Ho. unfold handle_order_failure, attempt.
  destruct (db_call_update id
    (fun now o => set_error_msg (show_failure failure) (set_status Failed now o)) w o HS Ho)
    as (now & _ & Hrow & Hother & Hlog).
  unfold mbind, st_bind, Db.set_order_failure.
  destruct (db_call _ w) as [r w1]. simpl in *.
  unfold send_completion, mbind, st_bind, env.
  destruct (channel_room _ _) as [room x]. simpl. split_and!.
  - by exists now.
  - intros id' HS' Hne. by apply Hother.
  - exists room. by rewrite Hlog.
Qed.

(** Whatever the order, only its row changes and one failure is sent. *)
Lemma handle_order_failure_frame id failure chain w :
  let w' := snd (handle_order_failure id failure chain w) in
  (forall id', S id' -> id' <> id -> row id' w' = row id' w)
  /\ exists delivered,
       w_log w' = w_log w ++ [Notified (mkCompletion id chain OutcomeProvingFailed) delivered].
Proof.
  unfold handle_order_failure, attempt, mbind, st_bind, Db.set_order_failure.
  set (f := fun now o => set_error_msg (show_failure failure) (set_status Failed now o)).
  destruct (db_call_quiet (fun now => update_order id (f now)) w) as (now & d & x & Hd & Heq).
  change (fun now => update_order id (fun o => set_error_msg _ (set_status Failed now o)))
    with (fun now => update_order id (f now)).
  rewrite Heq. unfold send_completion, mbind, st_bind, env.
  destruct (channel_room _ _) as [room x']. simpl. split; [|by exists room].
  intros id' HS Hne. rewrite <- (Hd id' HS). unfold row, update_order. simpl.
  destruct (orders d !! id); [|done]. simpl. by rewrite lookup_insert_ne.
Qed.

(** Two rows for the same job: only its progress differs. *)
Definition agrees (o o' : Order) : Prop :=
  o_market o' = o_market o /\ o_chain_id o' = o_chain_id o
  /\ o_fulfillment_type o' = o_fulfillment_type o /\ o_request o' = o_request o
  /\ o_image_id o' = o_image_id o /\ o_client_sig o' = o_client_sig o
  /\ lock_price o' = lock_price o /\ o_expire_timestamp o' = o_expire_timestamp o.

Lemma agrees_refl o : agrees o o.
Proof. by repeat split. Qed.

Lemma agrees_trans o1 o2 o3 : agrees o1 o2 -> agrees o2 o3 -> agrees o1 o3.
Proof. unfold agrees. naive_solver congruence. Qed.

(** [kept id o w0 w]: from [w0] to [w] nothing was sent, the other orders of
    [S] are as they were, and the row of [id] is there for the job [o]. *)
Record kept (id : string) (o : Order) (w0 w : World X) : Prop := mkKept {
  kept_log : w_log w = w_log w0;
  kept_rows id' : S id' -> id' <> id -> row id' w = row id' w0;
  kept_row : exists o', row id w = Some o' /\ agrees o o'
}.

Lemma kept_refl id o w : row id w = Some o -> kept id o w w.
Proof. intros Ho. split; [done|done|]. exists o. split; [done|apply agrees_refl]. Qed.

Lemma kept_ext id o w0 w x :
  kept id o w0 w -> kept id o w0 (mkWorld (w_db w) x (w_log w)).
Proof. by intros [Hl Hr Ho]. Qed.

Lemma kept_env {A} (m : st X A) id o w0 w :
  kept id o w0 w -> kept id o w0 (snd (env m w)).
Proof.
  unfold row, env. intros [Hl Hr Ho]. destruct (m (w_ext w)). by split.
Qed.

Lemma kept_read {A} (m : ste Db DbError A) id o w0 w :
  S id -> (forall d, snd (m d) = d) ->
  kept id o w0 w -> kept id o w0 (snd (db_call (fun _ => m) w)).
Proof.
  intros HS Hm [Hl Hr (o' & Ho & Ha)]. destruct (db_call_read m w Hm) as [Hl' Hr']. split.
  - by rewrite Hl'.
  - intros id' HS' Hne. rewrite Hr' by done. by apply Hr.
  - exists o'. by rewrite Hr'.
Qed.

Lemma kept_update id f o w0 w :
  S id -> (forall now o, agrees o (f now o)) -> kept id o w0 w ->
  twp (db_call (fun now => update_order id (f now)))
    (fun _ w' => kept id o w0 w' /\ exists now o', row id w' = Some (f now o')) 
    (fun _ _ => False) w.
Proof.
  intros HS Hf [Hl Hr (o' & Ho & Ha)].
  destruct (db_call_update id f w o' HS Ho) as (now & Hok & Hrow & Hother & Hlog).
  unfold twp. destruct (db_call _ w) as [r w']. simpl in *. subst r. split; [split|].
  - by rewrite Hlog.
  - intros id' HS' Hne. rewrite Hother by done. by apply Hr.
  - exists (f now o'). split; [done|]. by eapply agrees_trans.
  - by exists now, o'.
Qed.

End Rules.

(** ** Witnesses *)

Definition toy_service_config : ServiceConfig := {|
  cancel_proving_expired_orders := false; proof_retry_count := 2; proof_retry_sleep_ms := 500;
  reaper_interval_secs := 60; reaper_grace_period_secs := 10; batch_max_time := 100; min_batch_size := 1;
  batch_max_journal_bytes := 1000; batch_max_fees := None; block_deadline_buffer_secs := 20;
  single_txn_fulfill := true; withdraw := false; max_submission_attempts := 2;
  submit_retry_delay_ms := 100; batch_poll_time_ms := Some 1000; sc_max_concurrent_proofs := 4
|}.

(** The clock advances with every pause, and the channel is never full. *)
Definition toy_env : BrokerEnv Z := {|
  db_turn := fun t => (mkTurn id t None, t);
  now_timestamp := fun t => (t, t);
  lock_all := fun t => (Some toy_service_config, t);
  sleep_ms := fun ms t => (tt, t + ms / 100);
  channel_room := fun _ t => (true, t);
  db_error_text := fun _ => "database error"
|}.
#[export] Existing Instance toy_env | 100.

Definition toy_world : World Z := mkWorld toy_db 1000 [].

Lemma toy_quiet_batches B : QuietBatches (X := Z) B.
Proof. by split. Defined.

Lemma toy_quiet S : QuietDb (X := Z) S.
Proof. by split. Defined.

(** An operation that succeeds once the clock has passed 1007. *)
Definition toy_operation : ste (World Z) string Z := fun w =>
  if w_ext w <? 1007 then (Err "early", w) else (Ok (w_ext w), w).

Lemma retry_impl_equiv_witness :
  retry_impl 5 500 toy_operation None toy_world
  = toy_operation (attempt_start 500 toy_operation 2 toy_world).
Proof.
  destruct (retry_impl_equiv 5 500 toy_operation None toy_world ltac:(lia))
    as (k & Hk & -> & Hb & Hs).
  destruct k as [|[|[|k]]]; [| |done|].
  - assert (false = true) by (symmetry; apply Hs; lia). done.
  - assert (false = true) by (symmetry; apply Hs; lia). done.
  - pose proof (Hb 2%nat ltac:(lia)) as Hc. done.
Defined.
