(* ===== verification/Monitor.v ===== *)
(** * Monitor: the events of the market

    What the broker does with an event of the market contract
    ([crates/broker/src/market_monitor/service.rs], its [types.rs] and
    [error.rs]), the monitor that polls for events in chunks of blocks, and the
    monitor of the order stream
    ([crates/broker/src/offchain_market_monitor/service.rs]).

    The world [MonState] is the database, the environment and the log of the
    messages the monitor has sent: orders for the pricer and changes of state.
    The class [MarketAbi] has the topics of the events and alloy's decoding, the
    class [MonitorEnv] the node, the clock and the channels; a task of another
    service may change the database before each statement, as in [Pipeline].
    The endless loops run over the list of what wakes them. *)

From S2P Require Import Prelude Market OrderPricing Db Pipeline.

Local Open Scope Z_scope.

(** ** Data *)

Record RequestSubmitted := mkSubmitted {
  rs_requestId : Z;
  rs_request : ProofRequest;
  rs_clientSignature : bytes
}.

Record RequestLocked := mkLocked {
  rl_requestId : Z;
  rl_prover : Z;
  rl_request : ProofRequest;
  rl_clientSignature : bytes
}.

Record RequestFulfilled := mkFulfilled { rf_requestId : Z; rf_prover : Z }.

Inductive MarketEvent :=
| Submitted (e : RequestSubmitted)
| Locked (e : RequestLocked)
| Fulfilled (e : RequestFulfilled).

(** A log of alloy's RPC types. *)
Record Log := mkLog {
  log_address : Z;
  topics : list Z;
  log_data : bytes;
  log_block_number : option Z
}.

Class MarketAbi := {
  SUBMITTED_HASH : Z;
  LOCKED_HASH : Z;
  FULFILLED_HASH : Z;
  decode_submitted : Log -> option RequestSubmitted;
  decode_locked : Log -> option RequestLocked;
  decode_fulfilled : Log -> option RequestFulfilled;
  (** [Address::to_string] *)
  address_to_string : Z -> string
}.

Inductive MarketMonitorErr :=
| EventPollingErr
| LogProcessingFailed
| MmUnexpectedErr
| MmReceiverDropped.

Definition ERC1271_MAGIC_VALUE : Z := 0x1626ba7e.
Definition BLOCK_TIME_SAMPLE_SIZE : Z := 10.

Inductive TrySend := TrySent | TryFull | TryClosed.

Class MonitorEnv (X : Type) := {
  mon_db_turn : st X DbTurn;
  (** the clock that [OrderRequest::new] reads *)
  mon_now : st X Z;
  mon_cancelled : st X bool;
  (** calls to the node; [None] is an error *)
  market_get_status : Z -> option Z -> st X (option RequestStatus);
  isValidSignature : Z -> bytes -> bytes -> st X (option Z);
  new_order_try_send : OrderRequest -> st X TrySend;
  new_order_send : OrderRequest -> st X bool;
  order_state_send : OrderStateChange -> st X bool;
  (** the logs of the market in a range of blocks: those of [RequestSubmitted],
      up to the latest block if no end is given, and those of all three events *)
  get_submitted_logs : Z -> option Z -> st X (option (list Log));
  get_market_logs : Z -> Z -> st X (option (list Log));
  mon_block_number : st X (option Z);
  (** the timestamp of a block, which may be missing *)
  mon_block_timestamp : Z -> st X (option (option Z))
}.

(** The messages, with the answer of the channel. *)
Inductive Message :=
| OrderSent (o : OrderRequest) (delivered : bool)
| StateSent (sc : OrderStateChange) (received : bool).

Record MonState (X : Type) := mkMon { ms_db : Db; ms_ext : X; ms_log : list Message }.
Arguments mkMon {X} _ _ _.
Arguments ms_db {X} _.
Arguments ms_ext {X} _.
Arguments ms_log {X} _.

(** ** Decoding *)

Section Decode.
Context `{MarketAbi}.

Definition process_log (log : Log) : option (MarketEvent * Log) :=
  t ← head (topics log);
  if t =? SUBMITTED_HASH then e ← decode_submitted log; Some (Submitted e, log) else
  if t =? LOCKED_HASH then e ← decode_locked log; Some (Locked e, log) else
  if t =? FULFILLED_HASH then e ← decode_fulfilled log; Some (Fulfilled e, log) else
  None.
End Decode.

Section Monitor.
Context `{Externals} `{MarketAbi} {X : Type} `{MonitorEnv X}.
Variables (market_addr prover_addr mon_chain_id : Z).

Definition mon {A} (m : st X A) : st (MonState X) A := fun w =>
  let (a, x) := m (ms_ext w) in (a, mkMon (ms_db w) x (ms_log w)).

Definition mon_try {E A} (e : E) (m : st X (option A)) : ste (MonState X) E A := fun w =>
  let (a, x) := m (ms_ext w) in (ok_or e a, mkMon (ms_db w) x (ms_log w)).

Definition say (m : Message) : st (MonState X) unit := fun w =>
  (tt, mkMon (ms_db w) (ms_ext w) (ms_log w ++ [m])).

(** As [Pipeline.db_call], over this world. *)
Definition mon_db {A} (m : Z -> ste Db DbError A) : ste (MonState X) DbError A := fun w =>
  let (turn, x) := mon_db_turn (ms_ext w) in
  let d := t_others turn (ms_db w) in
  match t_fault turn with
  | Some e => (Err e, mkMon d x (ms_log w))
  | None => let (r, d') := m (t_now turn) d in (r, mkMon d' x (ms_log w))
  end.

(** [new_order_tx.send(..)] waits for room and fails when the receiver is gone. *)
Definition send_order (o : OrderRequest) : st (MonState X) bool :=
  delivered ← mon (new_order_send o);
  _ ← say (OrderSent o delivered);
  mret delivered.

Definition send_state (sc : OrderStateChange) : st (MonState X) unit :=
  received ← mon (order_state_send sc);
  say (StateSent sc received).

Definition new_order (r : ProofRequest) (sig : bytes) (ty : FulfillmentType)
    : st (MonState X) OrderRequest :=
  now ← mon mon_now;
  mret (order_request_new r sig ty market_addr mon_chain_id now).

(** ** The handlers of the events *)

Definition signature_accepted (event : RequestSubmitted)
    : ste (MonState X) RequestError bool :=
  let request_id := RequestId.from_lossy (rs_requestId event) in
  if RequestId.smart_contract_signed request_id then
    request_hash ← liftr (signing_hash (rs_request event) market_addr mon_chain_id);
    answer ← catch (mon_try tt (isValidSignature (RequestId.addr request_id) request_hash
                               (rs_clientSignature event)));
    mret (match answer with
          | inr magic_value => magic_value =? ERC1271_MAGIC_VALUE
          | inl _ => false
          end)
  else
    mret (is_ok (verify_signature (rs_request event) (rs_clientSignature event)
                   market_addr mon_chain_id)).

Definition process_order_submitted (event : RequestSubmitted)
    : ste (MonState X) RequestError unit :=
  accepted ← signature_accepted event;
  if negb accepted then mret tt else
  o ← lift (new_order (rs_request event) (rs_clientSignature event) LockAndFulfill);
  sent ← lift (mon (new_order_try_send o));
  match sent with
  | TrySent => lift (say (OrderSent o true))
  | TryFull => _ ← lift (send_order o); mret tt
  | TryClosed => lift (say (OrderSent o false))
  end.

Definition process_request_locked (event : RequestLocked) (block_number : Z)
    : ste (MonState X) RequestError unit :=
  _ ← catch (mon_db (fun _ => set_request_locked (rl_requestId event)
                        (address_to_string (rl_prover event)) block_number));
  _ ← lift (send_state (ScLocked (rl_requestId event) (rl_prover event) mon_chain_id));
  if negb (rl_prover event =? prover_addr) then
    o ← lift (new_order (rl_request event) (rl_clientSignature event) FulfillAfterLockExpire);
    _ ← lift (send_order o);
    mret tt
  else mret tt.

Definition process_request_fulfilled (event : RequestFulfilled) (block_number : Z)
    : ste (MonState X) RequestError unit :=
  _ ← catch (mon_db (fun _ => set_request_fulfilled (rf_requestId event) block_number));
  lift (send_state (ScFulfilled (rf_requestId event) mon_chain_id)).

(** The event of a log; the error of a handler is logged. *)
Definition dispatch_event {E} (event : MarketEvent) (block_number : Z)
    : ste (MonState X) E unit :=
  _ ← catch (match event with
             | Submitted event => process_order_submitted event
             | Locked event => process_request_locked event block_number
             | Fulfilled event => process_request_fulfilled event block_number
             end);
  mret tt.

(** ** The open orders of the past *)

(** The request of a log that is still open for bidding. *)
Definition open_order (event : RequestSubmitted)
    : ste (MonState X) MarketMonitorErr (option OrderRequest) :=
  req_status ← catch (mon_try tt (market_get_status (rs_requestId event)
                                 (Some (expires_at (rs_request event)))));
  match req_status with
  | inl _ => mret None
  | inr req_status =>
      if negb (bool_decide (req_status = StUnknown)) then mret None else
      let ty := match req_status with
                | StLocked => FulfillAfterLockExpire
                | _ => LockAndFulfill
                end in
      o ← lift (new_order (rs_request event) (rs_clientSignature event) ty);
      mret (Some o)
  end.

Fixpoint process_decoded_logs (events : list RequestSubmitted) (order_count : Z)
    : ste (MonState X) MarketMonitorErr Z :=
  match events with
  | [] => mret order_count
  | event :: events =>
      o ← open_order event;
      match o with
      | None => process_decoded_logs events order_count
      | Some o =>
          delivered ← lift (send_order o);
          if negb delivered then throw MmReceiverDropped else
          process_decoded_logs events (wadd 64 order_count 1)
      end
  end.

Definition process_new_logs (logs : list Log) : ste (MonState X) MarketMonitorErr Z :=
  process_decoded_logs (omap decode_submitted logs) 0.

(** ** Polling *)

Definition polling {A} : st X (option A) -> ste (MonState X) MarketMonitorErr A :=
  mon_try EventPollingErr.

Definition mm_unexpected {A} : st X (option A) -> ste (MonState X) MarketMonitorErr A :=
  mon_try MmUnexpectedErr.

Definition find_open_orders (lookback_blocks : Z) : ste (MonState X) MarketMonitorErr Z :=
  current_block ← mm_unexpected mon_block_number;
  let start_block := sat_sub current_block lookback_blocks in
  logs ← mm_unexpected (get_submitted_logs start_block None);
  process_new_logs logs.

(** A log of the stream: its block must be known. *)
Definition handle_log (item : MarketEvent * Log) : ste (MonState X) MarketMonitorErr unit :=
  let (event, log) := item in
  match event with
  | Submitted _ => dispatch_event event 0
  | Locked _ | Fulfilled _ =>
      block_number ← liftr (unwrap (log_block_number log));
      dispatch_event event block_number
  end.

(** The logs of a chunk are handled one by one; the loop may be cancelled before
    each, and says so. *)
Fixpoint handle_logs (items : list (MarketEvent * Log))
    : ste (MonState X) MarketMonitorErr bool :=
  match items with
  | [] => mret false
  | item :: items =>
      stop ← lift (mon mon_cancelled);
      if (stop : bool) then mret true else
      _ ← handle_log item;
      handle_logs items
  end.

Definition chunk_end (events_poll_blocks from_block to_block : Z) : Z :=
  Z.min (sat_add 64 from_block (sat_sub events_poll_blocks 1)) to_block.

(** The loop over the chunks; its value is the next block to poll, or [None] when
    the monitor was cancelled.  The fuel is an upper bound on the chunks. *)
Fixpoint poll_chunks (fuel : nat) (events_poll_blocks from_block to_block : Z)
    : ste (MonState X) MarketMonitorErr (option Z) :=
  if to_block <? from_block then mret (Some from_block) else
  match fuel with
  | O => liftr Panic
  | S fuel =>
      let to := chunk_end events_poll_blocks from_block to_block in
      logs ← polling (get_market_logs from_block to);
      stop ← handle_logs (omap process_log logs);
      if (stop : bool) then mret None else
      poll_chunks fuel events_poll_blocks (sat_add 64 to 1) to_block
  end.

Definition poll_fuel (from_block to_block : Z) : nat := Z.to_nat (to_block - from_block + 1).

(** A tick of the polling interval. *)
Definition poll_tick (events_poll_blocks from_block : Z)
    : ste (MonState X) MarketMonitorErr (option Z) :=
  to_block ← polling mon_block_number;
  poll_chunks (poll_fuel from_block to_block) events_poll_blocks from_block to_block.

Fixpoint poll_loop (ticks : nat) (events_poll_blocks from_block : Z)
    : ste (MonState X) MarketMonitorErr unit :=
  match ticks with
  | O => mret tt
  | S ticks =>
      next ← poll_tick events_poll_blocks from_block;
      match next with
      | None => mret tt
      | Some from_block => poll_loop ticks events_poll_blocks from_block
      end
  end.

Definition monitor_market (ticks : nat) (lookback_blocks events_poll_blocks : Z)
    : ste (MonState X) MarketMonitorErr unit :=
  current_block ← polling mon_block_number;
  poll_loop ticks events_poll_blocks (sat_sub current_block lookback_blocks).

Definition market_monitor_run (ticks : nat) (lookback_blocks events_poll_blocks : Z)
    : ste (MonState X) (SupervisorErr MarketMonitorErr) unit :=
  _ ← with_err Recover (find_open_orders lookback_blocks);
  with_err Recover (monitor_market ticks lookback_blocks events_poll_blocks).

(** ** The block time *)

Fixpoint block_timestamps (blocks : list Z) : ste (MonState X) MarketMonitorErr (list Z) :=
  match blocks with
  | [] => mret []
  | i :: blocks =>
      b ← mm_unexpected (mon_block_timestamp i);
      t ← liftr (ok_or MmUnexpectedErr b);
      ts ← block_timestamps blocks;
      mret (t :: ts)
  end.

(** The differences of neighbours, as [windows(2)] pairs them. *)
Fixpoint windows2 (f : Z -> Z -> Z) (l : list Z) : list Z :=
  match l with
  | a :: (b :: _) as l' => f a b :: windows2 f l'
  | _ => []
  end.

Definition get_block_times (current_block : Z) : ste (MonState X) MarketMonitorErr Z :=
  let sample_start := current_block - Z.min current_block BLOCK_TIME_SAMPLE_SIZE in
  timestamps ← block_timestamps (seqZ sample_start (current_block - sample_start));
  let block_times := stable_sort id (windows2 (fun a b => wsub 64 b a) timestamps) in
  liftr (unwrap (block_times !! (length block_times / 2)%nat)).

(** ** The order stream *)

Inductive OffchainMarketMonitorErr := WebSocketErr | OmReceiverDropped | OmUnexpectedErr.

(** An order of the stream. *)
Record OrderData := mkOrderData { od_request : ProofRequest; od_signature : bytes }.

(** What wakes the loop: an order, the end of the socket, or the cancellation. *)
Inductive StreamEvent := StreamOrder (d : OrderData) | StreamEnd | StreamCancelled.

Fixpoint monitor_orders (events : list StreamEvent)
    : ste (MonState X) OffchainMarketMonitorErr unit :=
  match events with
  | [] => mret tt
  | StreamOrder d :: events =>
      o ← lift (new_order (od_request d) (od_signature d) LockAndFulfill);
      delivered ← lift (send_order o);
      if negb delivered then throw OmReceiverDropped else monitor_orders events
  | StreamEnd :: _ => throw WebSocketErr
  | StreamCancelled :: _ => mret tt
  end.

(** [connected] is the answer of [connect_async]. *)
Definition offchain_run (connected : bool) (events : list StreamEvent)
    : ste (MonState X) (SupervisorErr OffchainMarketMonitorErr) unit :=
  with_err Recover (if connected then monitor_orders events else throw WebSocketErr).

End Monitor.

(** ** Polling in chunks is handling all logs of the range *)

Section Polling.
Context `{Externals} `{MarketAbi} {X : Type} `{MonitorEnv X}.
Variables (market_addr prover_addr mon_chain_id : Z).
Notation handle_logs := (handle_logs market_addr prover_addr mon_chain_id).
Notation poll_chunks := (poll_chunks market_addr prover_addr mon_chain_id).

Lemma handle_logs_app l1 l2 w :
  handle_logs (l1 ++ l2) w
  = (stop ← handle_logs l1; if (stop : bool) then mret true else handle_logs l2) w.
Proof.
  revert w. induction l1 as [|i l1 IH]; intros w; [done|]. simpl.
  unfold mbind, ste_bind in *. destruct (lift (mon mon_cancelled) w) as [[[]| |] w1]; [done| |done..].
  destruct (handle_log _ _ _ i w1) as [[[]| |] w2]; [|done..]. apply IH.
Qed.

(** The logs of a range of a chain whose blocks have the logs [block_logs]. *)
Definition range_logs (block_logs : Z -> list Log) (from to : Z) : list Log :=
  seqZ from (to - from + 1) ≫= block_logs.

Lemma range_logs_split block_logs from mid to :
  from <= mid + 1 -> mid <= to ->
  range_logs block_logs from to
  = range_logs block_logs from mid ++ range_logs block_logs (mid + 1) to.
Proof.
  intros Hm Ht. unfold range_logs. rewrite <- bind_app.
  replace (to - from + 1) with ((mid - from + 1) + (to - mid)) by lia.
  rewrite seqZ_app by lia. do 2 f_equal; f_equal; lia.
Qed.

(** Polling a range of blocks in chunks of any configured size handles exactly
    the events of the range, in order and each once, as if they had come in one
    query, and leaves the next block to poll behind the range: no chunk overlaps
    another, none is left out, and the loop ends. *)
Theorem poll_chunks_equiv block_logs fuel events_poll_blocks from to w :
  (forall a b x, a <= b -> get_market_logs a b x = (Some (range_logs block_logs a b), x)) ->
  0 <= from -> to < umax 64 -> 0 <= events_poll_blocks -> (poll_fuel from to <= fuel)%nat ->
  poll_chunks fuel events_poll_blocks from to w
  = (stop ← handle_logs (omap process_log (range_logs block_logs from to));
     mret (if (stop : bool) then None else Some (Z.max from (to + 1)))) w.
Proof.
  intros Hlogs Hfrom Hto Hn. revert from w Hfrom.
  induction fuel as [|fuel IH]; intros from w Hfrom Hfuel; unfold poll_fuel in *.
  - simpl. rewrite (proj2 (Z.ltb_lt _ _)) by lia. unfold range_logs.
    rewrite seqZ_nil by lia. simpl. by rewrite Z.max_l by lia.
  - simpl. destruct (Z.ltb_spec to from).
    { unfold range_logs. rewrite seqZ_nil by lia. simpl. by rewrite Z.max_l by lia. }
    set (c := chunk_end events_poll_blocks from to).
    assert (Hc : from <= c <= to) by (subst c; unfold chunk_end, sat_add, sat_sub, umax in *; lia).
    rewrite (range_logs_split block_logs from c to), omap_app by lia.
    unfold mbind at 1, ste_bind, polling, mon_try. rewrite Hlogs by lia. simpl.
    destruct w as [d x l]. simpl.
    unfold mbind, ste_bind. rewrite handle_logs_app. unfold mbind, ste_bind.
    destruct (handle_logs _ _) as [[[]| |] w1]; [done| |done..].
    replace (sat_add 64 c 1) with (c + 1) by (unfold sat_add; lia).
    rewrite IH by lia. unfold mbind, ste_bind.
    destruct (handle_logs _ w1) as [[[]| |] w2]; [done| |done..].
    by rewrite Z.max_r, Z.max_r by lia.
Qed.
End Polling.

(** ** The handlers *)

Section Handlers.
Context `{Externals} `{MarketAbi} {X : Type} `{MonitorEnv X}.
Variables (market_addr prover_addr mon_chain_id : Z).
Notation process_order_submitted := (process_order_submitted market_addr mon_chain_id).
Notation process_request_locked := (process_request_locked market_addr prover_addr mon_chain_id).
Notation process_new_logs := (process_new_logs market_addr mon_chain_id).

(** An order made from an event. *)
Definition order_made (r : ProofRequest) (sig : bytes) (ty : FulfillmentType) (o : OrderRequest)
    : Prop := exists now, o = order_request_new r sig ty market_addr mon_chain_id now.

(** What each call to the environment may answer. *)
Section Steps.
Context {E : Type} (d : Db) (x : X) (l : list Message).
Implicit Type R : E -> MonState X -> Prop.

Lemma twp_mon {A} (m : st X A) (Q : A -> MonState X -> Prop) R :
  (forall a x', Q a (mkMon d x' l)) -> twp (lift (mon m)) Q R (mkMon d x l).
Proof. intros HQ. apply twp_lift. unfold mon. simpl. destruct (m x). apply HQ. Qed.

Lemma twp_send_order o (Q : bool -> MonState X -> Prop) R :
  (forall delivered x', Q delivered (mkMon d x' (l ++ [OrderSent o delivered]))) ->
  twp (lift (send_order o)) Q R (mkMon d x l).
Proof.
  intros HQ. apply twp_lift. unfold send_order, mon, say, mbind, st_bind. simpl.
  destruct (new_order_send o x). apply HQ.
Qed.

Lemma twp_send_state sc (Q : unit -> MonState X -> Prop) R :
  (forall received x', Q tt (mkMon d x' (l ++ [StateSent sc received]))) ->
  twp (lift (send_state sc)) Q R (mkMon d x l).
Proof.
  intros HQ. apply twp_lift. unfold send_state, mon, say, mbind, st_bind. simpl.
  destruct (order_state_send sc x). apply HQ.
Qed.

Lemma twp_new_order r sig ty (Q : OrderRequest -> MonState X -> Prop) R :
  (forall o x', order_made r sig ty o -> Q o (mkMon d x' l)) ->
  twp (lift (new_order market_addr mon_chain_id r sig ty)) Q R (mkMon d x l).
Proof.
  intros HQ. apply twp_lift. unfold new_order, mon, mbind, st_bind. simpl.
  destruct (mon_now x). apply HQ. by eexists.
Qed.

(** A statement of the database runs on tables that the others have left, or the
    engine refuses it. *)
Lemma twp_mon_db {A} (m : Z -> ste Db DbError A) (Q : (DbError + A) -> MonState X -> Prop) R :
  (forall others fault now x', mon_db_turn x = (mkTurn others now fault, x') ->
     match fault with
     | Some e => Q (inl e) (mkMon (others d) x' l)
     | None => twp (m now) (fun a d' => Q (inr a) (mkMon d' x' l))
                 (fun e d' => Q (inl e) (mkMon d' x' l)) (others d)
     end) ->
  twp (catch (mon_db m)) Q R (mkMon d x l).
Proof.
  intros HQ. apply twp_catch. unfold twp, mon_db. simpl.
  destruct (mon_db_turn x) as [[others now fault] x'] eqn:Et. simpl.
  specialize (HQ _ _ _ _ eq_refl). destruct fault; [done|].
  unfold twp in HQ. by destruct (m now (others d)) as [[] ?].
Qed.
End Steps.

(** The signature of an event holds: the contract of the client says so, or the
    address in the request recovers from it. *)
Definition signed (event : RequestSubmitted) : Prop :=
  let request_id := RequestId.from_lossy (rs_requestId event) in
  if RequestId.smart_contract_signed request_id then
    exists hash x x', signing_hash (rs_request event) market_addr mon_chain_id = Ok hash
      /\ isValidSignature (RequestId.addr request_id) hash (rs_clientSignature event) x
         = (Some ERC1271_MAGIC_VALUE, x')
  else
    verify_signature (rs_request event) (rs_clientSignature event) market_addr mon_chain_id
    = Ok tt.

Lemma twp_signature_accepted event d x l (Q : bool -> MonState X -> Prop) R :
  (forall accepted x', (accepted = true -> signed event) -> Q accepted (mkMon d x' l)) ->
  twp (signature_accepted market_addr mon_chain_id event) Q R (mkMon d x l).
Proof.
  intros HQ. unfold signature_accepted, signed in *. destruct (RequestId.smart_contract_signed _).
  - unfold twp, signing_hash, mbind, ste_bind, liftr, catch, mon_try. simpl.
    destruct (isValidSignature _ _ _ x) as [[magic|] x'] eqn:Ev; simpl; apply HQ; [|done].
    intros ->%Z.eqb_eq. by do 3 eexists.
  - apply twp_ret, HQ. by destruct (verify_signature _ _ _ _) as [[]| |].
Qed.

(** At most one message follows, with an order of which [P] holds. *)
Definition at_most_one (P : OrderRequest -> Prop) (l l' : list Message) : Prop :=
  l' = l \/ exists o delivered, l' = l ++ [OrderSent o delivered] /\ P o.

(** A submitted request reaches the pricer at most once, and only when its
    signature holds: for a client that is a contract, the contract was asked about
    this very request, and for the others the signature recovers to the client.
    The order carries the request for locking.  The handler never fails, and a
    full channel delays the order without losing it. *)
Theorem process_order_submitted_signed event d x l :
  twp (process_order_submitted event)
    (fun _ w' => ms_db w' = d
       /\ at_most_one (fun o => signed event
            /\ order_made (rs_request event) (rs_clientSignature event) LockAndFulfill o)
            l (ms_log w'))
    (fun _ _ => False) (mkMon d x l).
Proof.
  unfold process_order_submitted, at_most_one. apply twp_bind, twp_signature_accepted.
  intros accepted x1 Hs. destruct accepted; simpl; [|apply twp_ret; auto].
  apply twp_bind, twp_new_order. intros o x2 Ho. apply twp_bind, twp_mon. intros sent x3.
  destruct sent.
  - apply twp_lift. simpl. eauto 10.
  - apply twp_bind, twp_send_order. intros delivered x4. apply twp_ret. simpl. eauto 10.
  - apply twp_lift. simpl. eauto 10.
Qed.

(** The first lock of a request is the one that is kept. *)
Definition locked_in (request_id : Z) (lock : string * Z) (d d' : Db) : Prop :=
  locked_requests d' !! request_key request_id
  = Some (default lock (locked_requests d !! request_key request_id)).

(** What the handler of a lock says, from the log [l] to the log [l']. *)
Definition lock_announced (event : RequestLocked) (l l' : list Message) : Prop :=
  exists received sent,
    l' = l ++ StateSent (ScLocked (rl_requestId event) (rl_prover event) mon_chain_id)
                received :: sent
    /\ if rl_prover event =? prover_addr then sent = []
       else exists o delivered, sent = [OrderSent o delivered]
            /\ order_made (rl_request event) (rl_clientSignature event)
                 FulfillAfterLockExpire o.

(** The handler of a lock never fails.  Unless the engine refuses the
    statement, the request is on record as locked afterwards, by the first prover
    that locked it; the change is broadcast in any case; and the request goes to
    the pricer, for fulfillment after the lock expires, exactly when another
    prover holds the lock. *)
Theorem process_request_locked_spec event block d x l :
  twp (process_request_locked event block)
    (fun _ w' => lock_announced event l (ms_log w')
       /\ let turn := fst (mon_db_turn x) in
          if t_fault turn then ms_db w' = t_others turn d
          else locked_in (rl_requestId event) (address_to_string (rl_prover event), block)
                 (t_others turn d) (ms_db w'))
    (fun _ _ => False) (mkMon d x l).
Proof.
  unfold process_request_locked. apply twp_bind.
  apply (twp_mono _ (fun _ w' => ms_log w' = l
           /\ let turn := fst (mon_db_turn x) in
              if t_fault turn then ms_db w' = t_others turn d
              else locked_in (rl_requestId event) (address_to_string (rl_prover event), block)
                     (t_others turn d) (ms_db w')) _ (fun _ _ => False)); [|clear|done].
  - apply twp_mon_db. intros others fault now x1 Et. rewrite Et. simpl.
    destruct fault as [e|]; [done|].
    unfold twp, set_request_locked, locked_in.
    destruct (locked_requests (others d) !! request_key (rl_requestId event)) eqn:El; simpl.
    + by rewrite El.
    + by rewrite lookup_insert_eq.
  - intros _ [d1 x1 l1] [Hl Hdb]. simpl in Hl. subst l1. unfold lock_announced.
    apply twp_bind, twp_send_state. intros received x2.
    destruct (rl_prover event =? prover_addr); simpl.
    + apply twp_ret. simpl. eauto 10.
    + apply twp_bind, twp_new_order. intros o x3 Ho.
      apply twp_bind, twp_send_order. intros delivered x4. apply twp_ret. simpl.
      split; [|exact Hdb]. rewrite <- app_assoc. eauto 10.
Qed.

(** No event stops the monitor. *)
Lemma dispatch_event_total {E} event block w :
  twp (E := E) (dispatch_event market_addr prover_addr mon_chain_id event block)
    (fun _ _ => True) (fun _ _ => False) w.
Proof.
  destruct w as [d x l]. unfold dispatch_event. apply twp_bind, twp_catch.
  apply (twp_mono _ (fun _ _ => True) _ (fun _ _ => False)); [|auto|done].
  destruct event as [e|e|e]; unfold Monitor.process_order_submitted, Monitor.process_request_locked,
    process_request_fulfilled.
  - apply twp_bind, twp_signature_accepted. intros [] x1 _; simpl; [|done].
    apply twp_bind, twp_new_order. intros o x2 _. apply twp_bind, twp_mon. intros [] x3; [done| |done].
    by apply twp_bind, twp_send_order.
  - apply twp_bind, twp_mon_db. intros others fault now x1 _.
    assert (Htail : forall d', twp (E := RequestError)
      (_ ← lift (send_state (ScLocked (rl_requestId e) (rl_prover e) mon_chain_id));
       if negb (rl_prover e =? prover_addr) then
         o ← lift (new_order market_addr mon_chain_id (rl_request e) (rl_clientSignature e)
                     FulfillAfterLockExpire);
         _ ← lift (send_order o); mret tt
       else mret tt) (fun _ _ => True) (fun _ _ => False) (mkMon d' x1 l)).
    { intros d'. apply twp_bind, twp_send_state. intros received x2. destruct (negb _); [|done].
      apply twp_bind, twp_new_order. intros o x3 _. by apply twp_bind, twp_send_order. }
    destruct fault; [apply Htail|]. unfold twp at 1, set_request_locked.
    destruct (locked_requests (others d) !! _); apply Htail.
  - apply twp_bind, twp_mon_db. intros others fault now x1 _.
    destruct fault; [by apply twp_send_state|]. unfold twp at 1, set_request_fulfilled.
    destruct (fulfilled_requests (others d) !! _); by apply twp_send_state.
Qed.

(** *** The open orders found at startup *)

(** A request that is locked already is left out, so that no order found at
    startup is for fulfillment after the lock. *)
Lemma twp_open_order event d x l (Q : option OrderRequest -> MonState X -> Prop) R :
  (forall x' r, fst (market_get_status (rs_requestId event)
                       (Some (expires_at (rs_request event))) x) = r ->
     match r with
     | Some StUnknown => forall o, order_made (rs_request event) (rs_clientSignature event)
                                     LockAndFulfill o -> Q (Some o) (mkMon d x' l)
     | _ => Q None (mkMon d x' l)
     end) ->
  twp (open_order market_addr mon_chain_id event) Q R (mkMon d x l).
Proof.
  intros HQ. unfold open_order. apply twp_bind, twp_catch. unfold twp at 1, mon_try. simpl.
  destruct (market_get_status _ _ x) as [[status|] x1]; simpl in *.
  - destruct status; simpl; try (apply twp_ret, (HQ _ _ eq_refl)).
    apply twp_bind, twp_new_order. intros o x2 Ho. apply twp_ret, (HQ x2 _ eq_refl o Ho).
  - apply twp_ret, (HQ _ _ eq_refl).
Qed.

(** The orders sent for the open requests: in the order of their events, each for
    locking. *)
Inductive open_sent : list RequestSubmitted -> list Message -> Prop :=
| OpenNil : open_sent [] []
| OpenSkip event events l : open_sent events l -> open_sent (event :: events) l
| OpenSend event events o l :
    order_made (rs_request event) (rs_clientSignature event) LockAndFulfill o ->
    open_sent events l -> open_sent (event :: events) (OrderSent o true :: l).

(** Either all of the events are done with, or the receiver is gone. *)
Lemma process_decoded_logs_spec events count d x l :
  0 <= count -> count + Z.of_nat (length events) < 2 ^ 64 ->
  twp (process_decoded_logs market_addr mon_chain_id events count)
    (fun n w' => exists sent, ms_db w' = d /\ ms_log w' = l ++ sent /\ open_sent events sent
                 /\ n = count + Z.of_nat (length sent))
    (fun e w' => exists done sent o, e = MmReceiverDropped /\ ms_db w' = d
                 /\ done `prefix_of` events /\ open_sent done sent
                 /\ ms_log w' = l ++ sent ++ [OrderSent o false])
    (mkMon d x l).
Proof.
  revert count x l. induction events as [|event events IH]; intros count x l Hc Hb.
  { apply twp_ret. exists []. rewrite app_nil_r. simpl. split_and!; try done; [constructor|lia]. }
  cbn [length] in Hb. cbn [process_decoded_logs]. apply twp_bind, twp_open_order.
  assert (Hskip : forall x', twp (process_decoded_logs market_addr mon_chain_id events count)
    (fun n w' => exists sent, ms_db w' = d /\ ms_log w' = l ++ sent
                 /\ open_sent (event :: events) sent /\ n = count + Z.of_nat (length sent))
    (fun e w' => exists done sent o, e = MmReceiverDropped /\ ms_db w' = d
                 /\ done `prefix_of` event :: events /\ open_sent done sent
                 /\ ms_log w' = l ++ sent ++ [OrderSent o false]) (mkMon d x' l)).
  { intros x'. eapply twp_mono; [apply IH; lia| |].
    - intros n w' (sent & ? & ? & ? & ?). exists sent. split_and!; [done..|by constructor|done].
    - intros e w' (evs & sent & o & ? & ? & ? & ? & ?). exists (event :: evs), sent, o.
      split_and!; [done..|by apply prefix_cons|by constructor|done]. }
  intros x1 r _. destruct r as [[]|]; try apply Hskip.
  intros o Ho. apply twp_bind, twp_send_order. intros [] x2; simpl.
  - rewrite wadd_small by (unfold fits; lia). eapply twp_mono; [apply IH; lia| |].
    + intros n w' (sent & ? & Hl & ? & ?). exists (OrderSent o true :: sent). rewrite Hl, <- app_assoc.
      split_and!; [done..|by constructor|]. cbn [length]. lia.
    + intros e w' (evs & sent & o' & ? & ? & ? & ? & Hl).
      exists (event :: evs), (OrderSent o true :: sent), o'. rewrite Hl, <- !app_assoc.
      split_and!; [done..|by apply prefix_cons|by constructor|done].
  - apply twp_throw. exists [], [], o. split_and!; [done..| |constructor|done]. by exists (event :: events).
Qed.

(** An open request that is found at startup is forwarded whatever its
    signature; [process_order_submitted] would have dropped it. *)
Lemma open_orders_unverified event d x l x' :
  market_get_status (rs_requestId event) (Some (expires_at (rs_request event))) x
  = (Some StUnknown, x') ->
  exists o w', open_order market_addr mon_chain_id event (mkMon d x l) = (Ok (Some o), w')
    /\ order_made (rs_request event) (rs_clientSignature event) LockAndFulfill o.
Proof.
  intros Hs.
  assert (Ht : twp (open_order market_addr mon_chain_id event)
    (fun r _ => exists o, r = Some o
       /\ order_made (rs_request event) (rs_clientSignature event) LockAndFulfill o)
    (fun _ _ => False) (mkMon d x l)).
  { apply twp_open_order. rewrite Hs. intros x1 r <-. simpl. eauto. }
  apply twp_elim in Ht as [(r & w' & Hr & o & -> & Ho)|(? & ? & ? & [])]. by exists o, w'.
Qed.

(** *** The block time *)

Lemma block_timestamps_ok (time : Z -> Z) blocks d x l :
  (forall i y, mon_block_timestamp i y = (Some (Some (time i)), y)) ->
  block_timestamps blocks (mkMon d x l) = (Ok (time <$> blocks), mkMon d x l).
Proof.
  intros Ht. induction blocks as [|i blocks IH]; [done|]. simpl.
  unfold mbind, ste_bind, mm_unexpected, mon_try. simpl. rewrite Ht. simpl. rewrite IH. done.
Qed.

Lemma length_windows2 f ts : length (windows2 f ts) = (length ts - 1)%nat.
Proof.
  induction ts as [|a [|b ts] IH]; [done..|].
  change (windows2 f (a :: b :: ts)) with (f a b :: windows2 f (b :: ts)). simpl in *. lia.
Qed.

(** The median over the last blocks, when there are two of them behind the
    current one; before that the index is out of range. *)
Lemma get_block_times_spec (time : Z -> Z) current d x l :
  (forall i y, mon_block_timestamp i y = (Some (Some (time i)), y)) -> 0 <= current ->
  let blocks := seqZ (current - Z.min current BLOCK_TIME_SAMPLE_SIZE)
                  (Z.min current BLOCK_TIME_SAMPLE_SIZE) in
  let gaps := windows2 (fun a b => wsub 64 b a) (time <$> blocks) in
  if current <=? 1 then get_block_times current (mkMon d x l) = (Panic, mkMon d x l)
  else exists t, get_block_times current (mkMon d x l) = (Ok t, mkMon d x l)
    /\ t ∈ gaps
    /\ (length (filter (fun g => (g < t)%Z) gaps) <= length gaps / 2
        < length (filter (fun g => (g <= t)%Z) gaps))%nat.
Proof.
  intros Ht Hc blocks gaps. unfold get_block_times.
  replace (current - (current - Z.min current BLOCK_TIME_SAMPLE_SIZE))
    with (Z.min current BLOCK_TIME_SAMPLE_SIZE) by lia.
  unfold mbind, ste_bind. rewrite (block_timestamps_ok time) by done. fold blocks gaps.
  assert (Hlen : length gaps = (Z.to_nat (Z.min current BLOCK_TIME_SAMPLE_SIZE) - 1)%nat).
  { subst gaps blocks. by rewrite length_windows2, length_fmap, length_seqZ. }
  assert (Hperm : length (stable_sort id gaps) = length gaps)
    by apply Permutation_length, stable_sort_perm.
  unfold BLOCK_TIME_SAMPLE_SIZE in *. destruct (Z.leb_spec current 1).
  - by rewrite (lookup_ge_None_2 (stable_sort id gaps)) by lia.
  - assert (Hi : (length gaps / 2 < length gaps)%nat) by (apply Nat.div_lt; lia).
    destruct (stable_sort_rank gaps (length gaps / 2) Hi) as [Hin Hrank].
    exists (nth (length gaps / 2) (stable_sort id gaps) 0). split; [|done].
    rewrite Hperm. destruct (nth_lookup_or_length (stable_sort id gaps) (length gaps / 2) 0)
      as [->|]; [done|lia].
Qed.
End Handlers.

(** ** Witnesses *)

Definition toy_request : ProofRequest := request (toy_order LockAndFulfill).

(** The topic of a log is its kind, and its data are not read. *)
Definition toy_abi : MarketAbi := {|
  SUBMITTED_HASH := 1; LOCKED_HASH := 2; FULFILLED_HASH := 3;
  decode_submitted := fun _ => Some (mkSubmitted (reqId toy_request) toy_request []);
  decode_locked := fun _ => Some (mkLocked (reqId toy_request) 9 toy_request []);
  decode_fulfilled := fun _ => Some (mkFulfilled (reqId toy_request) 9);
  address_to_string := fun _ => "0x9"
|}.

(** Block [n] has one log, of the kind [n mod 4]. *)
Definition toy_block_logs (n : Z) : list Log := [mkLog 1 [n mod 4] [] (Some n)].

Definition toy_market_env : MonitorEnv Z := {|
  mon_db_turn := fun t => (mkTurn id t None, t);
  mon_now := fun t => (t, t);
  mon_cancelled := fun t => (false, t);
  market_get_status := fun _ _ t => (Some StUnknown, t);
  isValidSignature := fun _ _ _ t => (Some ERC1271_MAGIC_VALUE, t);
  new_order_try_send := fun _ t => (TryFull, t);
  new_order_send := fun _ t => (true, t);
  order_state_send := fun _ t => (true, t);
  get_submitted_logs := fun _ _ t => (Some [], t);
  get_market_logs := fun a b t => (Some (range_logs toy_block_logs a b), t);
  mon_block_number := fun t => (Some 20, t);
  mon_block_timestamp := fun n t => (Some (Some (2 * n)), t)
|}.
#[export] Existing Instance toy_abi | 100.
#[export] Existing Instance toy_market_env | 100.

Definition toy_mon : MonState Z := mkMon toy_db 1000 [].

(** Ten blocks in chunks of three. *)
Lemma poll_chunks_equiv_witness :
  fst (@poll_chunks toy_externals toy_abi Z toy_market_env 1 5 1 10 3 11 20 toy_mon)
  = Ok (Some 21).
Proof.
  rewrite (@poll_chunks_equiv toy_externals toy_abi Z toy_market_env 1 5 1 toy_block_logs
    10 3 11 20 toy_mon); [|by intros|lia|unfold umax; lia|lia|unfold poll_fuel; lia].
  vm_compute. reflexivity.
Defined.
