(* ===== verification/ChainMonitor.v ===== *)
(** * ChainMonitor: following the chain block by block

    [crates/broker/src/chain_monitor_v2/service.rs] with its [types.rs] and
    [error.rs], and the older monitor of [legacy.rs].  The window of the gas
    prices is in [Gas], what is done with an event of the market in [Monitor].

    [CmState] adds to the state of [Monitor] the cells that the service shares
    with the readers of the chain head.  The headers and the receipts of a block are
    fetched by concurrent retries; they only read from the node, and are run one
    after the other.

    What a run does is specified by [follows]: a chain of calls to the node, in
    which the receipts that the node answers for a block are handed, event by event,
    to the handlers of [Monitor]. *)

From S2P Require Import Prelude Gas Market OrderPricing Db Pipeline Monitor.

Local Open Scope Z_scope.

(** ** Data *)

Record Header := mkHeader {
  h_number : Z;
  h_timestamp : Z;
  h_base_fee_per_gas : option Z
}.

Record Receipt := mkReceipt { effective_gas_price : Z; receipt_logs : list Log }.

Record ChainHead := mkChainHead { head_number : Z; head_timestamp : Z }.

Inductive ChainMonitorV2Err :=
| RpcErr
| ReceiptsMismatch
| CmLogProcessingFailed
| CmUnexpectedErr
| CmReceiverDropped.

(** The cells behind the [Arc]s of the service. *)
Record Cells := mkCells {
  head_block_number : Z;
  head_block_timestamp : Z;
  open_orders_found : bool;
  last_processed_block : Z;
  block_history : BlockHistory;
  gas_price : Z
}.

Record CmState (X : Type) := mkCm {
  cm_mon : MonState X;
  cm_cells : Cells
}.
Arguments mkCm {X} _ _.
Arguments cm_mon {X} _.
Arguments cm_cells {X} _.

(** The calls to the node: [None] is an error, and the answer may be empty. *)
Class ChainEnv (X : Type) := {
  get_latest_block : st X (option (option Header));
  get_header : Z -> st X (option (option Header));
  get_block_receipts : Z -> st X (option (option (list Receipt)));
  get_submitted_range : Z -> Z -> st X (option (list Log));
  gas_priority_mode : st X PriorityMode;
  cm_sleep : Z -> st X unit
}.

Section ChainMonitor.
Context `{Externals} `{MarketAbi} `{AlloyGas} {X : Type} `{MonitorEnv X} `{ChainEnv X}.
Variables (market_addr prover_addr cm_chain_id : Z).

Definition on_mon {E A} (m : ste (MonState X) E A) : ste (CmState X) E A := fun w =>
  let (r, s) := m (cm_mon w) in (r, mkCm s (cm_cells w)).

Definition cm_env {E A} (m : st X A) : ste (CmState X) E A := on_mon (lift (mon m)).

Definition cells {E} : ste (CmState X) E Cells := fun w => (Ok (cm_cells w), w).

Definition put {E} (f : Cells -> Cells) : ste (CmState X) E unit := fun w =>
  (Ok tt, mkCm (cm_mon w) (f (cm_cells w))).

#[global] Instance cm_state_sleep : Sleep (CmState X) := fun ms w =>
  let (_, s) := mon (cm_sleep ms) (cm_mon w) in (tt, mkCm s (cm_cells w)).

(** A call that must answer with something. *)
Definition cm_rpc {A} (m : st X (option (option A))) : ste (CmState X) ChainMonitorV2Err A :=
  r ← cm_env m;
  liftr (ok_or RpcErr (mjoin r)).

(** ** Setting the cells *)

Definition set_head (number timestamp : Z) (c : Cells) : Cells :=
  mkCells number timestamp (open_orders_found c) (last_processed_block c) (block_history c)
    (gas_price c).

Definition set_open_orders_found (c : Cells) : Cells :=
  mkCells (head_block_number c) (head_block_timestamp c) true (last_processed_block c)
    (block_history c) (gas_price c).

Definition set_last_processed (block : Z) (c : Cells) : Cells :=
  mkCells (head_block_number c) (head_block_timestamp c) (open_orders_found c) block
    (block_history c) (gas_price c).

(** A block enters the window; the price follows if there is an estimate. *)
Definition observe_fees (mode : PriorityMode) (entry : BlockHistoryEntry) (c : Cells) : Cells :=
  let history := history_push entry (block_history c) in
  mkCells (head_block_number c) (head_block_timestamp c) (open_orders_found c)
    (last_processed_block c) history
    (default (gas_price c) (estimate_gas_price mode history)).

(** ** Construction *)

Definition block_entry (b : Header) : BlockHistoryEntry :=
  mkEntry (h_number b) (h_base_fee_per_gas b) [].

Definition median_gap (timestamps : list Z) : Z :=
  let block_times := stable_sort id (windows2 (fun a b => sat_sub b a) timestamps) in
  default 0 (block_times !! (length block_times / 2)%nat).

Fixpoint fetch_blocks (blocks : list Z) : ste (CmState X) ChainMonitorV2Err (list Header) :=
  match blocks with
  | [] => mret []
  | n :: blocks =>
      b ← with_err (fun _ => CmUnexpectedErr) (cm_rpc (get_header n));
      bs ← fetch_blocks blocks;
      mret (b :: bs)
  end.

(** The value is the sampled block time; the poll interval is the block time, or
    two seconds. *)
Definition chain_monitor_new : ste (CmState X) ChainMonitorV2Err Z :=
  initial_block ← with_err (fun _ => CmUnexpectedErr) (cm_rpc get_latest_block);
  let initial_number := h_number initial_block in
  let sample_start := sat_sub initial_number EIP1559_FEE_ESTIMATION_PAST_BLOCKS in
  blocks ← fetch_blocks (seqZ sample_start (initial_number - sample_start));
  let blocks := blocks ++ [initial_block] in
  let history :=
    foldl (fun h b => history_push (block_entry b) h)
      (history_new (Z.to_nat EIP1559_FEE_ESTIMATION_PAST_BLOCKS)) blocks in
  mode ← cm_env gas_priority_mode;
  _ ← put (fun _ => mkCells initial_number (h_timestamp initial_block) false initial_number history
                      (default 0 (estimate_gas_price mode history)));
  mret (median_gap (h_timestamp <$> blocks)).

Definition poll_interval_secs (block_time : Z) : Z := if 0 <? block_time then block_time else 2.

(** ** The logs of the past *)

(** The loop of [adaptive_get_logs]: a range that the node refuses is halved until
    one is accepted, which fixes the size. *)
Fixpoint get_logs_loop (fuel : nat) (end_block chunk_size : Z) (chunk_found : bool) (from : Z)
    (all_logs : list Log) : ste (CmState X) ChainMonitorV2Err (list Log) :=
  if end_block <? from then mret all_logs else
  match fuel with
  | O => liftr Panic
  | S fuel =>
      let to := Z.min (wadd 64 from chunk_size) end_block in
      r ← cm_env (get_submitted_range from to);
      match r with
      | Some logs =>
          get_logs_loop fuel end_block chunk_size true (wadd 64 to 1) (all_logs ++ logs)
      | None =>
          if chunk_found then throw RpcErr else
          if chunk_size <=? 1 then throw RpcErr else
          get_logs_loop fuel end_block (chunk_size / 2) chunk_found from all_logs
      end
  end.

(** As many turns as there are blocks, and one for each time the range is
    halved. *)
Definition get_logs_fuel (total_range : Z) : nat :=
  Z.to_nat (total_range + 1 + Z.log2 (Z.max 1 total_range)).

Definition adaptive_get_logs (start_block end_block : Z)
    : ste (CmState X) ChainMonitorV2Err (list Log) :=
  if end_block <? start_block then mret [] else
  let total_range := end_block - start_block in
  get_logs_loop (get_logs_fuel total_range) end_block (Z.max 1 total_range) false start_block [].

Definition v2_find_open_orders (lookback_blocks : Z)
    : ste (CmState X) ChainMonitorV2Err unit :=
  c ← cells;
  let current_block := head_block_number c in
  let start_block := sat_sub current_block lookback_blocks in
  logs ← adaptive_get_logs start_block current_block;
  _ ← with_err (fun _ => RpcErr) (on_mon (process_new_logs market_addr cm_chain_id logs));
  mret tt.

(** ** The receipts of a block *)

Fixpoint walk_logs (logs : list Log) (block : Z) : ste (MonState X) ChainMonitorV2Err unit :=
  match logs with
  | [] => mret tt
  | log :: logs =>
      _ ← (if negb (log_address log =? market_addr) then mret tt else
           match process_log log with
           | None => mret tt
           | Some (event, _) => dispatch_event market_addr prover_addr cm_chain_id event block
           end);
      walk_logs logs block
  end.

Definition process_block_receipts (receipts : list Receipt) (block : Z)
    : ste (CmState X) ChainMonitorV2Err unit :=
  on_mon (walk_logs (receipts ≫= receipt_logs) block).

Definition block_priority_fees (base_fee : option Z) (receipts : list Receipt) : list Z :=
  match base_fee with
  | Some bf => filter (fun pf => 0 < pf) ((fun r => sat_sub (effective_gas_price r) bf) <$> receipts)
  | None => []
  end.

(** ** The walk over the new blocks *)

(** The base fee and the receipts; the header of the latest block is at hand. *)
Definition fetch_block (latest : Header) (block : Z)
    : ste (CmState X) ChainMonitorV2Err (option Z * list Receipt) :=
  if block =? h_number latest then
    receipts ← retry 3 500 (cm_rpc (get_block_receipts block));
    mret (h_base_fee_per_gas latest, receipts)
  else
    header_result ← catch (F := ChainMonitorV2Err) (retry 3 500 (cm_rpc (get_header block)));
    receipts_result ← catch (F := ChainMonitorV2Err)
                        (retry 3 500 (cm_rpc (get_block_receipts block)));
    match header_result, receipts_result with
    | inl e, _ => throw e
    | _, inl e => throw e
    | inr h, inr receipts => mret (h_base_fee_per_gas h, receipts)
    end.

Definition process_block (latest : Header) (block : Z)
    : ste (CmState X) ChainMonitorV2Err unit :=
  '(base_fee, receipts) ← fetch_block latest block;
  _ ← process_block_receipts receipts block;
  mode ← cm_env gas_priority_mode;
  _ ← put (observe_fees mode (mkEntry block base_fee (block_priority_fees base_fee receipts)));
  put (set_last_processed block).

(** The blocks of [last_processed + 1 ..= latest_number]; the value is the new
    [last_processed]. *)
Fixpoint walk_blocks (latest : Header) (blocks : list Z) (last_processed : Z)
    : ste (CmState X) ChainMonitorV2Err Z :=
  match blocks with
  | [] => mret last_processed
  | block :: blocks =>
      cancelled ← cm_env mon_cancelled;
      if (cancelled : bool) then mret last_processed else
      _ ← process_block latest block;
      walk_blocks latest blocks block
  end.

(** A tick of the polling interval. *)
Definition chain_tick (last_processed : Z) : ste (CmState X) ChainMonitorV2Err Z :=
  r ← cm_env get_latest_block;
  match r with
  | None => throw RpcErr
  | Some None => mret last_processed
  | Some (Some latest) =>
      c ← cells;
      if h_number latest <=? head_block_number c then mret last_processed else
      _ ← put (set_head (h_number latest) (h_timestamp latest));
      walk_blocks latest (seqZ (last_processed + 1) (h_number latest - last_processed))
        last_processed
  end.

(** What the [select!] of the loop wakes up for. *)
Inductive Wake := PollTick | CancelWake.

Fixpoint chain_loop (wakes : list Wake) (last_processed : Z)
    : ste (CmState X) ChainMonitorV2Err unit :=
  match wakes with
  | [] => mret tt
  | CancelWake :: _ => mret tt
  | PollTick :: wakes => last_processed ← chain_tick last_processed; chain_loop wakes last_processed
  end.

Definition monitor_chain (wakes : list Wake) : ste (CmState X) ChainMonitorV2Err unit :=
  c ← cells;
  chain_loop wakes (last_processed_block c).

Definition chain_monitor_run (lookback_blocks : Z) (wakes : list Wake)
    : ste (CmState X) (SupervisorErr ChainMonitorV2Err) unit :=
  c ← cells;
  _ ← (if negb (open_orders_found c) then
         _ ← with_err Recover (v2_find_open_orders lookback_blocks);
         put set_open_orders_found
       else mret tt);
  with_err Recover (monitor_chain wakes).

(** The readers. *)
Definition chain_head (c : Cells) : ChainHead :=
  mkChainHead (head_block_number c) (head_block_timestamp c).

Definition current_chain_head : ste (CmState X) ChainMonitorV2Err ChainHead :=
  c ← cells; mret (chain_head c).

Definition current_gas_price : ste (CmState X) ChainMonitorV2Err Z :=
  c ← cells; mret (gas_price c).

End ChainMonitor.

(** ** Fetching the logs of the past ends, and misses none *)

Section AdaptiveLogs.
Context `{Externals} `{MarketAbi} `{AlloyGas} {X : Type} `{MonitorEnv X} `{ChainEnv X}.
Variable block_logs : Z -> list Log.
Implicit Type w : CmState X.

(** What the node hands out for a range are the logs of its blocks. *)
Class ExactLogs : Prop :=
  exact_logs : forall a b x logs x',
    get_submitted_range a b x = (Some logs, x') -> logs = range_logs block_logs a b.

(** The node refuses ranges of more than [limit] blocks and no others. *)
Class RangeLimit (limit : Z) : Prop :=
  range_limit : forall a b x, a <= b ->
    is_Some (fst (get_submitted_range a b x)) <-> b - a + 1 <= limit.

(** The turns that are left: one for each block, and while no size is found one
    for each time the range can be halved. *)
Definition turns_left (end_block chunk_size : Z) (chunk_found : bool) (from : Z) : Z :=
  (end_block - from + 1) + (if chunk_found then 0 else Z.log2 chunk_size).

Lemma log2_half c : 1 < c -> Z.log2 (c / 2) = Z.log2 c - 1.
Proof.
  intros Hc. pose proof (Z.log2_spec c ltac:(lia)) as [Hl Hu].
  assert (1 <= Z.log2 c) by (apply Z.log2_le_pow2; lia).
  apply Z.log2_unique; [lia|]. replace (Z.log2 c) with (Z.succ (Z.log2 c - 1)) in Hl, Hu by lia.
  rewrite Z.pow_succ_r in Hl, Hu by lia. rewrite Z.pow_succ_r in Hu by lia.
  rewrite Z.pow_succ_r by lia. split.
  - apply Z.div_le_lower_bound; lia.
  - apply Z.div_lt_upper_bound; lia.
Qed.

(** A size that was found is accepted for the rest of the range. *)
Definition fitting (limit end_block chunk_size : Z) (chunk_found : bool) (from : Z) : Prop :=
  2 <= limit /\ (chunk_found = true -> from <= end_block -> chunk_size + 1 <= limit).

Context `{!ExactLogs}.

Lemma get_logs_loop_spec fuel end_block chunk_size chunk_found from all_logs start w :
  0 <= start <= from -> end_block < 2 ^ 63 -> 1 <= chunk_size < 2 ^ 63 -> from <= end_block + 1 ->
  turns_left end_block chunk_size chunk_found from <= Z.of_nat fuel ->
  all_logs = range_logs block_logs start (from - 1) ->
  exists r w', get_logs_loop fuel end_block chunk_size chunk_found from all_logs w = (r, w')
    /\ (r = Ok (range_logs block_logs start end_block) \/ r = Err RpcErr)
    /\ (forall limit, RangeLimit limit -> fitting limit end_block chunk_size chunk_found from ->
        r = Ok (range_logs block_logs start end_block)).
Proof.
  revert chunk_size chunk_found from all_logs w. unfold turns_left, fitting.
  induction fuel as [|fuel IH]; intros c found from all w Hs He Hc Hf Hfuel Hall;
    pose proof (Z.log2_nonneg c); cbn [get_logs_loop]; bcase.
  1, 3: replace end_block with (from - 1) by lia; subst all; eauto 10.
  - destruct found; lia.
  - set (to := Z.min (wadd 64 from c) end_block).
    assert (Hto : to = Z.min (from + c) end_block)
      by (subst to; rewrite wadd_small; [done|fits_lia]).
    unfold mbind, ste_bind, cm_env, on_mon, lift, mon. cbn.
    destruct (get_submitted_range from to (ms_ext (cm_mon w))) as [[logs|] x'] eqn:Eg; cbn.
    + rewrite (wadd_small 64 to 1) by fits_lia.
      destruct (IH c true (to + 1) (all ++ logs)
        (mkCm (mkMon (ms_db (cm_mon w)) x' (ms_log (cm_mon w))) (cm_cells w)))
        as (r & w' & Hr & Hres & Hlim); [lia..|destruct found; lia| |].
      { subst all. apply exact_logs in Eg as ->. replace (to + 1 - 1) with to by lia.
        symmetry. replace from with (from - 1 + 1) at 2 by lia. apply range_logs_split; lia. }
      exists r, w'. split_and!; [done..|]. intros limit Hl [Hl2 _]. apply (Hlim limit Hl).
      split; [done|]. intros _ Hto'.
      assert (to - from + 1 <= limit); [|lia].
      eapply (range_limit (RangeLimit := Hl) from to); [lia|]. rewrite Eg. by eexists.
    + assert (Hrefused : forall limit, RangeLimit limit -> limit < to - from + 1).
      { intros limit Hl. destruct (Z.ltb_spec limit (to - from + 1)); [done|].
        pose proof (proj2 (range_limit (RangeLimit := Hl) from to (ms_ext (cm_mon w)) ltac:(lia))
          ltac:(lia)) as Hsome. rewrite Eg in Hsome. by destruct Hsome. }
      destruct found; cbn.
      { do 2 eexists. split_and!; [done|by right|]. intros limit Hl [_ Hfit].
        specialize (Hrefused limit Hl). specialize (Hfit eq_refl ltac:(lia)). lia. }
      destruct (Z.leb_spec c 1); cbn.
      { do 2 eexists. split_and!; [done|by right|]. intros limit Hl [Hl2 _].
        specialize (Hrefused limit Hl). lia. }
      assert (1 <= c / 2) by (apply Z.div_le_lower_bound; lia).
      assert (c / 2 < c) by (apply Z.div_lt; lia).
      pose proof (log2_half c ltac:(lia)).
      destruct (IH (c / 2) false from all
        (mkCm (mkMon (ms_db (cm_mon w)) x' (ms_log (cm_mon w))) (cm_cells w)))
        as (r & w' & Hr & Hres & Hlim); [lia..|done|].
      exists r, w'. split_and!; [done..|]. intros limit Hl [Hl2 _]. by apply (Hlim limit Hl).
Qed.

(** Fetching the logs of a range ends within a turn for each block and one for
    each halving, whatever the node refuses: with the logs of exactly the blocks
    of the range, in order, or with the error of the node.  A node that refuses
    the ranges above some limit of at least two blocks, and no others, is always
    served: the size of the chunks adapts to its limit. *)
Theorem adaptive_get_logs_total start_block end_block w :
  0 <= start_block -> end_block < 2 ^ 63 ->
  exists r w', adaptive_get_logs start_block end_block w = (r, w')
    /\ (r = Ok (range_logs block_logs start_block end_block) \/ r = Err RpcErr)
    /\ (forall limit, RangeLimit limit -> 2 <= limit ->
        r = Ok (range_logs block_logs start_block end_block)).
Proof.
  intros Hs He. unfold adaptive_get_logs. bcase.
  - unfold range_logs. rewrite seqZ_nil by lia. do 2 eexists. split_and!; [done|by left|done].
  - set (range := end_block - start_block). assert (0 <= Z.log2 (Z.max 1 range)) by apply Z.log2_nonneg.
    destruct (get_logs_loop_spec (get_logs_fuel range) end_block (Z.max 1 range) false start_block
      [] start_block w) as (r & w' & Hr & Hres & Hlim); [lia..| | |].
    + unfold turns_left, get_logs_fuel. lia.
    + unfold range_logs. by rewrite seqZ_nil by lia.
    + exists r, w'. split_and!; [done..|]. intros limit Hl Hl2. apply (Hlim limit Hl).
      by split.
Qed.

(** A node that answers for single blocks only is never served: the smallest
    chunk spans two. *)
Lemma single_block_limit_fails start_block end_block w :
  RangeLimit 1 -> 0 <= start_block < end_block -> end_block < 2 ^ 63 ->
  fst (adaptive_get_logs start_block end_block w) = Err RpcErr.
Proof.
  intros Hlim Hs He. unfold adaptive_get_logs. rewrite (proj2 (Z.ltb_ge _ _)) by lia.
  assert (Hloop : forall fuel c w, 1 <= c < 2 ^ 63 -> Z.log2 c < Z.of_nat fuel ->
    fst (get_logs_loop fuel end_block c false start_block [] w) = Err RpcErr).
  { clear w. induction fuel as [|fuel IH]; intros c w Hc Hfuel; pose proof (Z.log2_nonneg c); [lia|].
    cbn [get_logs_loop]. rewrite (proj2 (Z.ltb_ge _ _)) by lia.
    rewrite (wadd_small 64 start_block c) by fits_lia.
    unfold mbind, ste_bind, cm_env, on_mon, lift, mon. cbn.
    pose proof (range_limit start_block (Z.min (start_block + c) end_block) (ms_ext (cm_mon w))
      ltac:(lia)) as Hr.
    destruct (get_submitted_range _ _ _) as [[logs|] x']; cbn.
    { assert (Hin : is_Some (Some logs)) by by eexists. apply Hr in Hin. lia. }
    destruct (Z.leb_spec c 1); [done|]. pose proof (log2_half c ltac:(lia)).
    assert (1 <= c / 2) by (apply Z.div_le_lower_bound; lia).
    assert (c / 2 < c) by (apply Z.div_lt; lia). apply IH; lia. }
  apply Hloop; [lia|]. unfold get_logs_fuel.
  pose proof (Z.log2_nonneg (Z.max 1 (end_block - start_block))). lia.
Qed.

End AdaptiveLogs.

(** ** Every block is walked once, in order, over all restarts *)

Section Follows.
Context `{Externals} `{MarketAbi} {X : Type} `{MonitorEnv X} `{ChainEnv X}.
Variables (market_addr prover_addr cm_chain_id : Z).

(** A call to the node or to the clock, whatever it answers. *)
Inductive asks : X -> X -> Prop :=
| ask_latest x : asks x (snd (get_latest_block x))
| ask_header b x : asks x (snd (get_header b x))
| ask_receipts b x : asks x (snd (get_block_receipts b x))
| ask_range a b x : asks x (snd (get_submitted_range a b x))
| ask_mode x : asks x (snd (gas_priority_mode x))
| ask_sleep ms x : asks x (snd (cm_sleep ms x))
| ask_cancelled x : asks x (snd (mon_cancelled x)).

Definition with_ext (x : X) (s : MonState X) : MonState X := mkMon (ms_db s) x (ms_log s).

(** The events of the market in the receipts of a block, in order. *)
Definition market_events (receipts : list Receipt) : list MarketEvent :=
  fst <$> omap process_log
            (filter (fun log => log_address log = market_addr) (receipts ≫= receipt_logs)).

(** Each event goes to its handler. *)
Definition handled (block : Z) (receipts : list Receipt) (s : MonState X) : MonState X :=
  foldl (fun s event => snd (dispatch_event (E := ChainMonitorV2Err) market_addr prover_addr
                               cm_chain_id event block s)) s (market_events receipts).

Inductive Activity :=
| Opening (logs : list Log)
| Walking (block : Z).

(** What the monitor does from one state to another: calls that change neither
    the database nor what was sent; the search for open orders in the logs of the
    past; and blocks, for which the node is asked for the receipts of that block and
    all the events in its answer are handled. *)
Inductive follows : list Activity -> MonState X -> MonState X -> Prop :=
| follows_stop s : follows [] s s
| follows_ask acts s x s' :
    asks (ms_ext s) x -> follows acts (with_ext x s) s' -> follows acts s s'
| follows_opening acts s logs s' :
    follows acts (snd (process_new_logs market_addr cm_chain_id logs s)) s' ->
    follows (Opening logs :: acts) s s'
| follows_block acts s block receipts x s' :
    get_block_receipts block (ms_ext s) = (Some (Some receipts), x) ->
    follows acts (handled block receipts (with_ext x s)) s' ->
    follows (Walking block :: acts) s s'.

Lemma follows_app acts1 acts2 s1 s2 s3 :
  follows acts1 s1 s2 -> follows acts2 s2 s3 -> follows (acts1 ++ acts2) s1 s3.
Proof. induction 1; simpl; eauto using follows. Qed.

Lemma follows_asks s x : asks (ms_ext s) x -> follows [] s (with_ext x s).
Proof. eauto using follows. Qed.
End Follows.

Section Walk.
Context `{Externals} `{MarketAbi} `{AlloyGas} {X : Type} `{MonitorEnv X} `{ChainEnv X}.
Variables (market_addr prover_addr cm_chain_id : Z).
Implicit Type w : CmState X.
Notation process_block := (process_block market_addr prover_addr cm_chain_id).
Notation chain_tick := (chain_tick market_addr prover_addr cm_chain_id).
Notation chain_monitor_run := (chain_monitor_run market_addr prover_addr cm_chain_id).
Notation follows := (follows market_addr prover_addr cm_chain_id).
Notation handled := (handled market_addr prover_addr cm_chain_id).

(** A computation that leaves the cells alone and only asks. *)
Definition queries {E A} (m : ste (CmState X) E A) : Prop :=
  forall w, cm_cells (snd (m w)) = cm_cells w /\ follows [] (cm_mon w) (cm_mon (snd (m w))).

Lemma queries_env {E A} (m : st X A) :
  (forall x, asks x (snd (m x))) -> queries (E := E) (cm_env m).
Proof.
  intros Hm w. specialize (Hm (ms_ext (cm_mon w))). unfold cm_env, on_mon, lift, mon.
  destruct (m (ms_ext (cm_mon w))) as [a x]. split; [done|]. by apply follows_asks.
Qed.

Lemma queries_pure {E A} (r : result E A) : queries (liftr r).
Proof. intros w. split; [done|constructor]. Qed.

Lemma queries_bind {E A B} (m : ste (CmState X) E A) (f : A -> ste (CmState X) E B) :
  queries m -> (forall a, queries (f a)) -> queries (m ≫= f).
Proof.
  intros Hm Hf w. unfold mbind, ste_bind. specialize (Hm w).
  destruct (m w) as [[a| |] w1]; simpl in *; [|done..].
  destruct Hm as [Hc Hm], (Hf a w1) as [-> Hf']. split; [done|].
  exact (follows_app _ _ _ [] [] _ _ _ Hm Hf').
Qed.

Lemma queries_catch {E F A} (m : ste (CmState X) E A) : queries m -> queries (catch (F := F) m).
Proof. intros Hm w. specialize (Hm w). unfold catch. by destruct (m w) as [[] ?]. Qed.

Lemma queries_cm_rpc {A} (m : st X (option (option A))) :
  (forall x, asks x (snd (m x))) -> queries (cm_rpc m).
Proof. intros Hm. apply queries_bind; [by apply queries_env|]. intros. apply queries_pure. Qed.

Lemma queries_sleep ms w :
  cm_cells (snd (sleep ms w)) = cm_cells w
  /\ follows [] (cm_mon w) (cm_mon (snd (sleep (W := CmState X) ms w))).
Proof.
  unfold sleep, cm_state_sleep, mon. pose proof (ask_sleep ms (ms_ext (cm_mon w))) as Ha.
  destruct (cm_sleep ms (ms_ext (cm_mon w))) as [u x]. split; [done|]. by apply follows_asks.
Qed.

(** A retried call has asked only, and its answer is that of its last attempt. *)
Lemma retry_queries {E A} count ms (m : ste (CmState X) E A) w :
  queries m ->
  let '(r, w') := retry count ms m w in
  cm_cells w' = cm_cells w /\ follows [] (cm_mon w) (cm_mon w')
  /\ forall a, r = Ok a -> exists w1, cm_cells w1 = cm_cells w
       /\ follows [] (cm_mon w) (cm_mon w1) /\ m w1 = (Ok a, w').
Proof.
  intros Hm. unfold retry, retry_impl. destruct (count =? 0).
  { pose proof (Hm w) as [Hc Hf]. destruct (m w) as [r w'] eqn:Em. split; [done|]. split; [done|].
    intros a ->. exists w. split; [done|]. split; [constructor|done]. }
  generalize (seq 0 (S (Z.to_nat count))) as attempts, (@None E) as last.
  intros attempts. revert w. induction attempts as [|i attempts IH]; intros w last;
    cbn [retry_attempts].
  { destruct last; (split; [done|]; split; [constructor|]; done). }
  pose proof (Hm w) as [Hc Hf]. destruct (m w) as [[a|e|] w1] eqn:Em; simpl in Hc, Hf.
  - split; [done|]. split; [done|]. intros a' [= <-]. exists w. split; [done|].
    split; [constructor|done].
  - assert (Hnext : forall w2, cm_cells w2 = cm_cells w -> follows [] (cm_mon w) (cm_mon w2) ->
      let '(r, w') := retry_attempts (Z.to_nat count) ms m None attempts (Some e) w2 in
      cm_cells w' = cm_cells w /\ follows [] (cm_mon w) (cm_mon w')
      /\ forall a, r = Ok a -> exists w3, cm_cells w3 = cm_cells w
           /\ follows [] (cm_mon w) (cm_mon w3) /\ m w3 = (Ok a, w')).
    { intros w2 Hc2 Hf2. specialize (IH w2 (Some e)).
      destruct (retry_attempts _ _ _ _ _ _ w2) as [r w']. destruct IH as (Hc3 & Hf3 & Hok).
      split; [congruence|]. split; [exact (follows_app _ _ _ [] [] _ _ _ Hf2 Hf3)|].
      intros a (w3 & Hc4 & Hf4 & Hr)%Hok. exists w3. split; [congruence|].
      split; [exact (follows_app _ _ _ [] [] _ _ _ Hf2 Hf4)|done]. }
    destruct (i <? Z.to_nat count)%nat; [|by apply Hnext].
    pose proof (queries_sleep ms w1) as [Hs1 Hs2]. destruct (sleep ms w1) as [u w2]. simpl in *.
    apply Hnext; [congruence|exact (follows_app _ _ _ [] [] _ _ _ Hf Hs2)].
  - by split.
Qed.

Lemma queries_retry {E A} count ms (m : ste (CmState X) E A) :
  queries m -> queries (retry count ms m).
Proof.
  intros Hm w. pose proof (retry_queries count ms m w Hm) as Hr.
  destruct (retry count ms m w) as [r w']. by destruct Hr as (? & ? & _).
Qed.

(** The receipts of a block are those that the node answered for it last. *)
Lemma receipts_answered count ms block w receipts w' :
  retry count ms (cm_rpc (get_block_receipts block)) w = (Ok receipts, w') ->
  exists s x, follows [] (cm_mon w) s
    /\ get_block_receipts block (ms_ext s) = (Some (Some receipts), x)
    /\ w' = mkCm (with_ext x s) (cm_cells w).
Proof.
  intros Hr. pose proof (retry_queries count ms (cm_rpc (get_block_receipts block)) w
    (queries_cm_rpc _ (ask_receipts block))) as Hq. rewrite Hr in Hq.
  destruct Hq as (_ & _ & Hok). destruct (Hok _ eq_refl) as (w1 & Hc & Hf & Hm).
  unfold cm_rpc, cm_env, on_mon, lift, mon, mbind, ste_bind in Hm.
  destruct (get_block_receipts block (ms_ext (cm_mon w1))) as [[[rs|]|] x] eqn:E; [|done..].
  injection Hm as <- <-. exists (cm_mon w1), x. by rewrite Hc.
Qed.

Lemma fetch_block_spec latest block w :
  let '(r, w') := fetch_block latest block w in
  cm_cells w' = cm_cells w /\ follows [] (cm_mon w) (cm_mon w')
  /\ forall base receipts, r = Ok (base, receipts) ->
       exists s x, follows [] (cm_mon w) s
         /\ get_block_receipts block (ms_ext s) = (Some (Some receipts), x)
         /\ cm_mon w' = with_ext x s.
Proof.
  assert (Hq : forall w, cm_cells (snd (retry 3 500 (cm_rpc (get_block_receipts block)) w)) = cm_cells w
    /\ follows [] (cm_mon w) (cm_mon (snd (retry 3 500 (cm_rpc (get_block_receipts block)) w))))
    by (apply queries_retry, queries_cm_rpc, ask_receipts).
  unfold fetch_block, mbind, ste_bind. destruct (block =? h_number latest).
  - pose proof (Hq w) as [Hc Hf].
    destruct (retry 3 500 (cm_rpc (get_block_receipts block)) w) as [[rs|e|] w1] eqn:E; simpl in *.
    + split; [done|]. split; [done|]. intros base receipts [= <- <-].
      apply receipts_answered in E as (s & x & ? & ? & ->). by exists s, x.
    + by split.
    + by split.
  - assert (Hh : queries (catch (F := ChainMonitorV2Err) (retry 3 500 (cm_rpc (get_header block)))))
      by (apply queries_catch, queries_retry, queries_cm_rpc, ask_header).
    specialize (Hh w) as [Hc Hf].
    destruct (catch (retry 3 500 (cm_rpc (get_header block))) w) as [[h|e|] w1]; simpl in *;
      [|by split..].
    unfold catch. pose proof (Hq w1) as [Hc1 Hf1].
    assert (Hf2 : forall w2, follows [] (cm_mon w1) (cm_mon w2) -> follows [] (cm_mon w) (cm_mon w2))
      by (intros w2; exact (follows_app _ _ _ [] [] _ _ _ Hf)).
    destruct (retry 3 500 (cm_rpc (get_block_receipts block)) w1) as [[rs|e|] w2] eqn:Er;
      destruct h as [eh|h]; simpl in *;
      (split; [congruence|]; split; [by apply Hf2|]); try done.
    intros base receipts [= <- <-]. apply receipts_answered in Er as (s & x & Hs & ? & ->).
    exists s, x. split; [exact (follows_app _ _ _ [] [] _ _ _ Hf Hs)|done].
Qed.

(** The walk over the logs of a block handles the events among them. *)
Lemma walk_logs_handles receipts block (s : MonState X) :
  walk_logs market_addr prover_addr cm_chain_id (receipts ≫= receipt_logs) block s
  = (Ok tt, handled block receipts s).
Proof.
  unfold ChainMonitor.handled, market_events. generalize (receipts ≫= receipt_logs) as logs.
  intros logs. revert s. induction logs as [|log logs IH]; intros s; [done|].
  cbn [walk_logs]. unfold mbind, ste_bind. rewrite filter_cons.
  destruct (Z.eqb_spec (log_address log) market_addr) as [Ha|Ha]; simpl;
    [rewrite decide_True by done|by rewrite decide_False].
  simpl. destruct (process_log log) as [[event l]|]; [|apply IH]. simpl.
  destruct (twp_elim _ _ _ _ (dispatch_event_total (E := ChainMonitorV2Err) market_addr prover_addr
    cm_chain_id event block s)) as [([] & s' & -> & _)|(? & ? & _ & [])]. apply IH.
Qed.

(** [advances w w']: the blocks after the last processed one of [w], up to that
    of [w'], were walked. *)
Record advances w w' : Prop := {
  av_last : last_processed_block (cm_cells w) <= last_processed_block (cm_cells w');
  av_open : open_orders_found (cm_cells w') = open_orders_found (cm_cells w);
  av_follows : follows (Walking <$> seqZ (last_processed_block (cm_cells w) + 1)
      (last_processed_block (cm_cells w') - last_processed_block (cm_cells w)))
    (cm_mon w) (cm_mon w')
}.

Lemma advances_quiet w w' :
  last_processed_block (cm_cells w') = last_processed_block (cm_cells w) ->
  open_orders_found (cm_cells w') = open_orders_found (cm_cells w) ->
  follows [] (cm_mon w) (cm_mon w') -> advances w w'.
Proof. intros Hl Ho Hf. split; [lia|done|]. by rewrite Hl, seqZ_nil by lia. Qed.

Lemma advances_trans w1 w2 w3 : advances w1 w2 -> advances w2 w3 -> advances w1 w3.
Proof.
  intros [L1 O1 F1] [L2 O2 F2]. split; [lia|congruence|].
  pose proof (follows_app _ _ _ _ _ _ _ _ F1 F2) as F. rewrite <- fmap_app in F.
  replace (last_processed_block (cm_cells w3) - last_processed_block (cm_cells w1))
    with (last_processed_block (cm_cells w2) - last_processed_block (cm_cells w1)
          + (last_processed_block (cm_cells w3) - last_processed_block (cm_cells w2))) by lia.
  rewrite seqZ_app by lia.
  by replace (last_processed_block (cm_cells w1) + 1
    + (last_processed_block (cm_cells w2) - last_processed_block (cm_cells w1)))
    with (last_processed_block (cm_cells w2) + 1) by lia.
Qed.

(** A block is walked and recorded as processed, or neither. *)
Lemma process_block_spec latest block w :
  block = last_processed_block (cm_cells w) + 1 ->
  let '(r, w') := process_block latest block w in
  chain_head (cm_cells w') = chain_head (cm_cells w) /\ advances w w'
  /\ last_processed_block (cm_cells w')
     = if is_ok r then block else last_processed_block (cm_cells w).
Proof.
  intros Hb. unfold ChainMonitor.process_block, mbind, ste_bind.
  pose proof (fetch_block_spec latest block w) as Hf.
  destruct (fetch_block latest block w) as [[[base receipts]|e|] w1];
    destruct Hf as (Hc & Hf & Hok);
    [|by (split; [by rewrite Hc|]; split; [apply advances_quiet; by rewrite ?Hc|by rewrite Hc])..].
  destruct (Hok _ _ eq_refl) as (s & x & Hs & Hr & Hw1).
  unfold process_block_receipts, on_mon. rewrite walk_logs_handles, Hw1. simpl.
  unfold cm_env, on_mon, lift, mon. simpl.
  pose proof (ask_mode (ms_ext (handled block receipts (with_ext x s)))) as Hmode.
  destruct (gas_priority_mode _) as [mode x']. simpl in *. rewrite Hc.
  split; [done|]. split; [|done]. split; simpl; [lia|done|].
  replace (block - last_processed_block (cm_cells w)) with 1 by lia.
  rewrite seqZ_cons, seqZ_nil, <- Hb by lia. simpl.
  apply (follows_app _ _ _ [] [Walking block] _ _ _ Hs).
  eapply follows_block; [done|]. by apply follows_asks.
Qed.

Lemma walk_blocks_spec latest n w :
  0 <= n ->
  let '(r, w') := walk_blocks market_addr prover_addr cm_chain_id latest
                    (seqZ (last_processed_block (cm_cells w) + 1) n)
                    (last_processed_block (cm_cells w)) w in
  advances w w' /\ chain_head (cm_cells w') = chain_head (cm_cells w)
  /\ forall l, r = Ok l -> l = last_processed_block (cm_cells w').
Proof.
  intros Hn. revert w. pattern n. apply natlike_ind; [| |done]; clear n Hn.
  { intros w. simpl. split; [by apply advances_quiet; [..|constructor]|]. split; [done|].
    by intros ? [= <-]. }
  cbv beta. intros n Hn IH w. rewrite seqZ_cons by lia. cbn [walk_blocks].
  replace (Z.succ (last_processed_block (cm_cells w) + 1))
    with (last_processed_block (cm_cells w) + 1 + 1) by lia.
  replace (Z.pred (Z.succ n)) with n by lia.
  unfold mbind at 1, ste_bind at 1, cm_env, on_mon, lift, mon. simpl.
  pose proof (ask_cancelled (ms_ext (cm_mon w))) as Hcan.
  destruct (mon_cancelled _) as [b x']. simpl in Hcan. set (w1 := mkCm _ (cm_cells w)).
  assert (Hw1 : advances w w1) by (apply advances_quiet; [done..|by apply follows_asks]).
  destruct b; [split; [done|]; split; [done|]; by intros ? [= <-]|].
  unfold mbind, ste_bind.
  pose proof (process_block_spec latest (last_processed_block (cm_cells w) + 1) w1 eq_refl) as Hp.
  destruct (process_block latest (last_processed_block (cm_cells w) + 1) w1) as [[[]|e|] w2];
    destruct Hp as (Hh & Ha & Hl); simpl in Hl;
    [|by (split; [by eapply advances_trans|]; done)..].
  specialize (IH w2). rewrite Hl in IH.
  destruct (walk_blocks _ _ _ _ _ _ w2) as [r w']. destruct IH as (Ha2 & Hh2 & Hlast).
  split; [|split; [by rewrite Hh2, Hh|done]].
  eapply advances_trans; [exact Hw1|]. by eapply advances_trans.
Qed.

Lemma chain_tick_spec w :
  let '(r, w') := chain_tick (last_processed_block (cm_cells w)) w in
  advances w w' /\ forall l, r = Ok l -> l = last_processed_block (cm_cells w').
Proof.
  unfold ChainMonitor.chain_tick, mbind, ste_bind, cm_env, on_mon, lift, mon. cbn.
  pose proof (ask_latest (ms_ext (cm_mon w))) as Hask.
  destruct (get_latest_block _) as [latest x']. simpl in Hask.
  assert (Hw1 : forall c, last_processed_block c = last_processed_block (cm_cells w) ->
    open_orders_found c = open_orders_found (cm_cells w) ->
    advances w (mkCm (with_ext x' (cm_mon w)) c))
    by (intros c ? ?; apply advances_quiet; [done..|by apply follows_asks]).
  destruct latest as [[latest|]|]; cbn.
  2: { split; [by apply Hw1|]. by intros ? [= <-]. }
  2: { split; [by apply Hw1|done]. }
  destruct (Z.leb_spec (h_number latest) (head_block_number (cm_cells w))); cbn.
  { split; [by apply Hw1|]. by intros ? [= <-]. }
  destruct (Z.le_gt_cases 0 (h_number latest - last_processed_block (cm_cells w))) as [Hn|Hn].
  - set (c := set_head _ _ _).
    pose proof (walk_blocks_spec latest _ (mkCm (with_ext x' (cm_mon w)) c) Hn) as Hwalk.
    change (last_processed_block (cm_cells (mkCm (with_ext x' (cm_mon w)) c)))
      with (last_processed_block (cm_cells w)) in Hwalk.
    destruct (walk_blocks _ _ _ _ _ _ _) as [r w']. destruct Hwalk as (Ha & _ & Hl).
    split; [|done]. eapply advances_trans; [by apply (Hw1 c)|done].
  - rewrite seqZ_nil by lia. split; [by apply Hw1|]. by intros ? [= <-].
Qed.

Lemma chain_loop_advances wakes w :
  advances w (snd (chain_loop market_addr prover_addr cm_chain_id wakes
                     (last_processed_block (cm_cells w)) w)).
Proof.
  revert w. induction wakes as [|[] wakes IH]; intros w;
    [by apply advances_quiet; [..|constructor]| |by apply advances_quiet; [..|constructor]].
  cbn [chain_loop]. unfold mbind, ste_bind. pose proof (chain_tick_spec w) as Ht.
  destruct (chain_tick _ w) as [[l| |] w1]; destruct Ht as [Hw1 Hl]; [|done..].
  rewrite (Hl l eq_refl). by eapply advances_trans.
Qed.

Lemma queries_get_logs_loop fuel end_block c found from all :
  queries (get_logs_loop (X := X) fuel end_block c found from all).
Proof.
  revert c found from all. induction fuel as [|fuel IH]; intros c found from all;
    cbn [get_logs_loop]; (destruct (end_block <? from); [apply queries_pure|]);
    [apply queries_pure|].
  apply queries_bind; [apply queries_env; intros x; apply ask_range|]. intros [logs|]; [apply IH|].
  destruct found; [apply queries_pure|]. destruct (c <=? 1); [apply queries_pure|apply IH].
Qed.

(** The search for open orders handles the logs it has fetched at most once. *)
Lemma find_open_orders_follows lookback w :
  let '(r, w') := v2_find_open_orders market_addr cm_chain_id lookback w in
  cm_cells w' = cm_cells w
  /\ exists opened, (length opened <= 1)%nat /\ follows (Opening <$> opened) (cm_mon w) (cm_mon w').
Proof.
  unfold v2_find_open_orders, mbind at 1, ste_bind at 1, cells.
  set (from := sat_sub _ _). set (to := head_block_number _).
  assert (Hq : queries (adaptive_get_logs (X := X) from to)).
  { unfold adaptive_get_logs. destruct (_ <? _); [apply queries_pure|].
    apply queries_get_logs_loop. }
  specialize (Hq w). unfold mbind, ste_bind.
  destruct (adaptive_get_logs _ _ w) as [[logs|e|] w1]; simpl in Hq; destruct Hq as [Hc Hf];
    [|split; [done|]; exists []; split; [simpl; lia|done]..].
  unfold with_err, on_mon.
  destruct (process_new_logs _ _ logs (cm_mon w1)) as [r s] eqn:E.
  assert (Ho : follows (Opening <$> [logs]) (cm_mon w) s).
  { apply (follows_app _ _ _ [] _ _ _ _ Hf). apply follows_opening. rewrite E. constructor. }
  destruct r; simpl; (split; [done|]; exists [logs]; split; [simpl; lia|done]).
Qed.

(** The searches come first, and none after one that succeeded. *)
Definition followed w w' : Prop :=
  exists opened n,
    (open_orders_found (cm_cells w) = true -> opened = [])
    /\ (open_orders_found (cm_cells w') = false -> n = 0)
    /\ (open_orders_found (cm_cells w) = true -> open_orders_found (cm_cells w') = true)
    /\ 0 <= n /\ last_processed_block (cm_cells w') = last_processed_block (cm_cells w) + n
    /\ follows ((Opening <$> opened) ++ (Walking <$> seqZ (last_processed_block (cm_cells w) + 1) n))
         (cm_mon w) (cm_mon w').

Lemma chain_monitor_run_follows lookback wakes w :
  followed w (snd (chain_monitor_run lookback wakes w)).
Proof.
  unfold ChainMonitor.chain_monitor_run, mbind at 1, ste_bind at 1, cells.
  assert (Hloop : forall w1, advances w1 (snd (with_err (F := SupervisorErr ChainMonitorV2Err) Recover
      (monitor_chain market_addr prover_addr cm_chain_id wakes) w1))).
  { intros w1. unfold monitor_chain, with_err, mbind, ste_bind, cells.
    pose proof (chain_loop_advances wakes w1) as Hl. by destruct (chain_loop _ _ _ _ _ _). }
  destruct (open_orders_found (cm_cells w)) eqn:Ho; simpl; unfold mbind, ste_bind.
  - destruct (Hloop w) as [Hl Hop Hf]. rewrite Ho in Hop. simpl.
    exists [], (last_processed_block (cm_cells (snd (with_err (F := SupervisorErr ChainMonitorV2Err)
      Recover (monitor_chain market_addr prover_addr cm_chain_id wakes) w)))
      - last_processed_block (cm_cells w)).
    split; [done|]. split; [by rewrite Hop|]. split; [done|]. split; [lia|]. split; [lia|done].
  - unfold with_err at 1. pose proof (find_open_orders_follows lookback w) as Hopen.
    destruct (v2_find_open_orders _ _ _ w) as [[[]|e|] w1]; destruct Hopen as (Hc & opened & _ & Hf);
      simpl.
    2, 3: exists opened, 0; rewrite Hc, Ho, seqZ_nil, app_nil_r by lia;
      split; [done|]; split; [done|]; split; [done|]; split; [lia|]; split; [lia|done].
    set (w2 := mkCm (cm_mon w1) (set_open_orders_found (cm_cells w1))).
    destruct (Hloop w2) as [Hl Hop Hf2].
    change (last_processed_block (cm_cells w2)) with (last_processed_block (cm_cells w1)) in *.
    rewrite Hc in *.
    exists opened, (last_processed_block (cm_cells (snd (with_err (F := SupervisorErr ChainMonitorV2Err)
      Recover (monitor_chain market_addr prover_addr cm_chain_id wakes) w2)))
      - last_processed_block (cm_cells w)).
    split; [by rewrite Ho|]. split; [by rewrite Hop|]. split; [by rewrite Ho|].
    split; [lia|]. split; [lia|]. by eapply follows_app.
Qed.

Lemma followed_trans w1 w2 w3 : followed w1 w2 -> followed w2 w3 -> followed w1 w3.
Proof.
  intros (op1 & n1 & A1 & B1 & C1 & D1 & E1 & F1) (op2 & n2 & A2 & B2 & C2 & D2 & E2 & F2).
  exists (op1 ++ op2), (n1 + n2).
  split; [intros Ho; by rewrite A1, (A2 (C1 Ho))|].
  split. { intros Ho. rewrite (B2 Ho), B1; [done|]. destruct (open_orders_found (cm_cells w2)); [|done].
           by rewrite C2 in Ho. }
  split; [by intros ?%C1%C2|]. split; [lia|]. split; [lia|].
  pose proof (follows_app _ _ _ _ _ _ _ _ F1 F2) as F.
  destruct (open_orders_found (cm_cells w2)) eqn:Ho.
  - rewrite (A2 eq_refl) in *. simpl in F. rewrite app_nil_r. rewrite seqZ_app, fmap_app by lia.
    rewrite <- app_assoc in F. by replace (last_processed_block (cm_cells w1) + 1 + n1)
      with (last_processed_block (cm_cells w2) + 1) by lia.
  - rewrite (B1 eq_refl) in *. rewrite seqZ_nil in F by lia. simpl in F. rewrite app_nil_r in F.
    rewrite app_assoc, <- fmap_app in F. by replace (last_processed_block (cm_cells w1))
      with (last_processed_block (cm_cells w2)) by lia.
Qed.

(** C36. However often the supervisor restarts the monitor, and wherever its runs
    end (an error of the node in the middle of a range, a cancellation, a head
    that falls behind), every block after the one it was started at, up to the
    block on record as processed, is walked exactly once and in order.  To walk a
    block is to take the receipts that the node answered, in this run, when it was
    asked for the receipts of that block, and to hand every event of the market in
    them to its handler, in order; nothing else that the monitor does changes the
    database or sends anything, but the searches for open orders in the logs of the
    past, which come before the first block, and are not repeated once one has
    succeeded. *)
Theorem chain_monitor_walks_once lookback restarts w :
  let start := last_processed_block (cm_cells w) in
  let w' := foldl (fun w wakes => snd (chain_monitor_run lookback wakes w)) w restarts in
  start <= last_processed_block (cm_cells w')
  /\ exists opened,
       (open_orders_found (cm_cells w) = true -> opened = [])
       /\ follows ((Opening <$> opened)
                   ++ (Walking <$> seqZ (start + 1) (last_processed_block (cm_cells w') - start)))
            (cm_mon w) (cm_mon w').
Proof.
  intros start w'. assert (Hw : followed w w').
  { subst w'. clear start. revert w. induction restarts as [|wakes restarts IH]; intros w; simpl.
    - exists [], 0. split; [done|]. split; [done|]. split; [done|]. split; [lia|]. split; [lia|].
      rewrite seqZ_nil by lia. constructor.
    - eapply followed_trans; [apply chain_monitor_run_follows|apply IH]. }
  destruct Hw as (opened & n & Hop & _ & _ & Hn & Hl & Hf). subst start. split; [lia|].
  exists opened. split; [done|].
  by replace (last_processed_block (cm_cells w') - last_processed_block (cm_cells w)) with n by lia.
Qed.

(** A node that answers, and no cancellation. *)
Class LiveNode : Prop := {
  live_cancelled x : fst (mon_cancelled x) = false;
  live_header b x : exists h x', get_header b x = (Some (Some h), x');
  live_receipts b x : exists rs x', get_block_receipts b x = (Some (Some rs), x')
}.

(** A call that answers is not repeated. *)
Lemma retry_rpc_live {A} (m : st X (option (option A))) w :
  (forall x, exists a x', m x = (Some (Some a), x')) ->
  exists a w', retry 3 500 (cm_rpc m) w = (Ok a, w').
Proof.
  intros Hm. destruct w as [[d x l] c]. destruct (Hm x) as (a & x' & Ha).
  exists a, (mkCm (mkMon d x' l) c). unfold retry, retry_impl. simpl.
  unfold cm_rpc, cm_env, on_mon, lift, mon, mbind, ste_bind. simpl. by rewrite Ha.
Qed.

Lemma fetch_block_live `{!LiveNode} latest block w :
  exists r w', fetch_block latest block w = (Ok r, w').
Proof.
  unfold fetch_block, catch, mbind, ste_bind. destruct (block =? h_number latest).
  - destruct (retry_rpc_live (get_block_receipts block) w (live_receipts block)) as (rs & w1 & ->).
    by do 2 eexists.
  - destruct (retry_rpc_live (get_header block) w (live_header block)) as (h & w1 & ->).
    destruct (retry_rpc_live (get_block_receipts block) w1 (live_receipts block)) as (rs & w2 & ->).
    by do 2 eexists.
Qed.

Lemma process_block_live `{!LiveNode} latest block w :
  fst (process_block latest block w) = Ok tt.
Proof.
  unfold ChainMonitor.process_block, mbind at 1, ste_bind at 1.
  destruct (fetch_block_live latest block w) as ([base receipts] & w1 & ->).
  unfold process_block_receipts, on_mon, mbind, ste_bind. simpl.
  rewrite walk_logs_handles. simpl. unfold cm_env, on_mon, lift, mon. simpl.
  by destruct (gas_priority_mode _).
Qed.

Lemma walk_blocks_live `{!LiveNode} latest n w :
  0 <= n -> let from := last_processed_block (cm_cells w) in
  fst (walk_blocks market_addr prover_addr cm_chain_id latest (seqZ (from + 1) n) from w)
  = Ok (from + n).
Proof.
  intros Hn. cbv zeta. revert w. pattern n. apply natlike_ind; [| |done]; clear n Hn.
  { intros w. simpl. by rewrite Z.add_0_r. }
  cbv beta. intros n Hn IH w. rewrite seqZ_cons by lia. cbn [walk_blocks].
  replace (Z.succ (last_processed_block (cm_cells w) + 1))
    with (last_processed_block (cm_cells w) + 1 + 1) by lia.
  replace (Z.pred (Z.succ n)) with n by lia.
  unfold mbind, ste_bind, cm_env, on_mon, lift, mon. simpl.
  pose proof (live_cancelled (ms_ext (cm_mon w))) as Hc.
  destruct (mon_cancelled _) as [b x']. simpl in *. subst b.
  set (w1 := mkCm _ (cm_cells w)).
  pose proof (process_block_spec latest (last_processed_block (cm_cells w) + 1) w1 eq_refl) as Hp.
  pose proof (process_block_live latest (last_processed_block (cm_cells w) + 1) w1) as Hok.
  destruct (process_block latest (last_processed_block (cm_cells w) + 1) w1) as [r w2].
  simpl in *. subst r. destruct Hp as (_ & _ & Hl). simpl in Hl. rewrite <- Hl, IH. f_equal. lia.
Qed.

(** While the node answers, a tick that sees a new head walks every block up
    to it: the monitor has caught up with the chain, and publishes the number and
    the timestamp of the head. *)
Theorem chain_tick_catches_up `{!LiveNode} latest x' w :
  get_latest_block (ms_ext (cm_mon w)) = (Some (Some latest), x') ->
  let from := last_processed_block (cm_cells w) in
  from <= head_block_number (cm_cells w) < h_number latest ->
  exists w', chain_tick from w = (Ok (h_number latest), w')
    /\ last_processed_block (cm_cells w') = h_number latest
    /\ chain_head (cm_cells w') = mkChainHead (h_number latest) (h_timestamp latest)
    /\ follows (Walking <$> seqZ (from + 1) (h_number latest - from)) (cm_mon w) (cm_mon w').
Proof.
  intros Hlatest from Hhead. subst from. pose proof (chain_tick_spec w) as Hspec.
  unfold ChainMonitor.chain_tick, mbind, ste_bind, cm_env, on_mon, lift, mon in Hspec |- *.
  cbn in Hspec |- *. rewrite Hlatest in Hspec |- *. cbn in Hspec |- *.
  destruct (Z.leb_spec (h_number latest) (head_block_number (cm_cells w))); [lia|]. cbn.
  set (w1 := mkCm _ _) in *.
  pose proof (walk_blocks_spec latest (h_number latest - last_processed_block (cm_cells w)) w1 ltac:(lia)) as Hwalk.
  pose proof (walk_blocks_live latest (h_number latest - last_processed_block (cm_cells w)) w1 ltac:(lia)) as Hlive.
  cbv zeta in *. change (last_processed_block (cm_cells w1)) with (last_processed_block (cm_cells w)) in *.
  destruct (walk_blocks _ _ _ _ _ _ w1) as [r w']. simpl in Hlive. subst r.
  destruct Hwalk as (_ & Hh & _), Hspec as [[_ _ Ha] Hl]. specialize (Hl _ eq_refl).
  replace (last_processed_block (cm_cells w) + (h_number latest - last_processed_block (cm_cells w))) with (h_number latest) in * by lia.
  exists w'. rewrite <- Hl in *. by split_and!.
Qed.

(** A head that is not new is skipped, so the blocks that a failed run left behind
    wait for the next one. *)
Lemma stale_head_waits latest x' w :
  get_latest_block (ms_ext (cm_mon w)) = (Some (Some latest), x') ->
  h_number latest <= head_block_number (cm_cells w) ->
  exists w', chain_tick (last_processed_block (cm_cells w)) w
             = (Ok (last_processed_block (cm_cells w)), w')
    /\ cm_cells w' = cm_cells w /\ cm_mon w' = with_ext x' (cm_mon w).
Proof.
  intros Hlatest Hhead. unfold ChainMonitor.chain_tick, mbind, ste_bind, cm_env, on_mon, lift, mon.
  cbn. rewrite Hlatest. cbn.
  destruct (Z.leb_spec (h_number latest) (head_block_number (cm_cells w))); [|lia]. by eexists.
Qed.
End Walk.

(** ** Witnesses *)

(** A node with a limit of four blocks; the head is block 25. *)
Definition toy_chain_env : ChainEnv Z := {|
  get_latest_block := fun t => (Some (Some (mkHeader 25 50 (Some 1000))), t);
  get_header := fun n t => (Some (Some (mkHeader n (2 * n) (Some 1000))), t);
  get_block_receipts := fun n t => (Some (Some [mkReceipt 1100 (toy_block_logs n)]), t);
  get_submitted_range := fun a b t =>
    (if b - a + 1 <=? 4 then Some (range_logs toy_block_logs a b) else None, t);
  gas_priority_mode := fun t => (ModeMedium, t);
  cm_sleep := fun _ t => (tt, t)
|}.
#[export] Existing Instance toy_chain_env | 100.

Definition toy_cm : CmState Z :=
  mkCm toy_mon (mkCells 20 40 true 20 (history_new 10) 0).

Lemma toy_exact_logs : ExactLogs (X := Z) toy_block_logs.
Proof. intros a b x logs x'. simpl. by destruct (_ <=? 4); intros [= <- <-]. Defined.

Lemma toy_range_limit : RangeLimit (X := Z) 4.
Proof.
  intros a b x _. simpl. destruct (Z.leb_spec (b - a + 1) 4); split; try done; try lia; by intros [? ?].
Defined.

Lemma adaptive_get_logs_total_witness :
  fst (adaptive_get_logs (X := Z) 3 40 toy_cm)
  = Ok (range_logs toy_block_logs 3 40).
Proof.
  destruct (adaptive_get_logs_total toy_block_logs (H4 := toy_exact_logs) 3 40 toy_cm
    ltac:(lia) ltac:(lia)) as (r & w' & Hr & _ & Hlim).
  rewrite Hr. exact (Hlim 4 toy_range_limit ltac:(lia)).
Defined.

Lemma toy_live_node : LiveNode (X := Z).
Proof. split; intros; simpl; eauto. Defined.

Lemma chain_tick_catches_up_witness :
  exists w', @chain_tick toy_externals toy_abi toy_alloy Z toy_market_env toy_chain_env 1 5 1 20
               toy_cm = (Ok 25, w')
    /\ @follows toy_externals toy_abi Z toy_market_env toy_chain_env 1 5 1 (Walking <$> [21; 22; 23; 24; 25]) (cm_mon toy_cm) (cm_mon w').
Proof.
  destruct (@chain_tick_catches_up toy_externals toy_abi toy_alloy Z toy_market_env toy_chain_env
    1 5 1 toy_live_node (mkHeader 25 50 (Some 1000)) 1000 toy_cm eq_refl ltac:(simpl; lia))
    as (w' & Hr & _ & _ & Hw).
  exists w'. split; [exact Hr|exact Hw].
Defined.

(** Two restarts: the second run sees no new head.  The blocks of the toy chain
    have events, which were handled. *)
Example toy_restarts :
  let w' := foldl (fun w wakes =>
              snd (@chain_monitor_run toy_externals toy_abi toy_alloy Z toy_market_env
                     toy_chain_env 1 5 1 10 wakes w)) toy_cm
              [[PollTick]; [PollTick; CancelWake]] in
  last_processed_block (cm_cells w') = 25 /\ ms_log (cm_mon w') <> [].
Proof. by vm_compute. Qed.
