(* ===== verification/MarketService.v ===== *)
(** * MarketService: the client of the market contract

    [BoundlessMarketService] of
    [crates/boundless-market/src/contracts/boundless_market.rs]: sending
    transactions and waiting for their receipts, locking, slashing and fulfilling,
    the status of a request, choosing its index, the balances, and the data of a fulfillment ([contracts/fulfillment_batch.rs]).  The searches through the
    events are in [EventQuery].

    A run has a state [MsState]: the world, the cached chain id and the log of the
    transactions that were sent and of the receipts that came back.  The class
    [MarketNode] holds the node: view calls, sending, receipts and the clock.  A
    failed call answers with the text of its error; the encoding of a call, the
    digests of its parts and the printing of an error are parameters.  Logs are
    not modelled, nor are the options of the transaction (nonce, fees), which the
    fillers of the provider set. *)

From S2P Require Import Prelude Market Auction OrderPricing FulfillTx Pipeline Monitor.
From Stdlib Require Import Strings.Byte.

Local Open Scope Z_scope.

(** ** Data *)

Inductive MarketError :=
| TxnError (e : string)
| MTxnConfirmationError (e : string)
| RequestNotFulfilled (request_id : Z)
| RequestHasExpired (request_id : Z)
| RequestIsSlashed (request_id : Z)
| MRequestError (e : RequestError)
| AddressMismatch (a b : Z)
| ProofNotFound (request_id from to : Z)
| RequestNotFound (request_id from to : Z)
| RequestAlreadyLocked (request_id : Z)
| LockRevert (txn_hash : Z)
| SlashRevert (txn_hash : Z)
| LogNotEmitted (txn_hash : Z) (e : string)
| MError (e : string)
| TimeoutReached (request_id : Z)
| PaymentRequirementsFailed (e : string)
| PaymentRequirementsFailedUnknownError (payload : bytes).

(** What the market binds a fill to, instead of the whole request. *)
Record SlimRequest := mkSlim {
  slim_id : Z;
  slim_predicate : RequestPredicate;
  slim_callback : Callback;
  slim_selector : Z;
  imageUrlHash : bytes;
  inputDigest : bytes;
  offerDigest : bytes
}.

(** The [FulfillmentBatch] and the [ProofRequestBatch] of the contract. *)
Record FillBatch := mkFillBatch {
  batch_requests : list SlimRequest;
  fills : list Fulfillment;
  assessorSeal : bytes;
  batch_prover : Z
}.

Record ProofRequestBatch := mkRequestBatch {
  price_requests : list ProofRequest;
  signatures : list bytes
}.

(** The entry points of the contract that the service sends transactions to. *)
Inductive Reveal :=
| RvFulfill (batches : list FillBatch)
| RvFulfillAndWithdraw (batches : list FillBatch)
| RvSubmitRootAndFulfill (root : Root) (batches : list FillBatch)
| RvSubmitRootAndFulfillAndWithdraw (root : Root) (batches : list FillBatch)
| RvPriceAndFulfill (requests : list ProofRequestBatch) (batches : list FillBatch)
| RvPriceAndFulfillAndWithdraw (requests : list ProofRequestBatch) (batches : list FillBatch)
| RvSubmitRootAndPriceAndFulfill (root : Root) (requests : list ProofRequestBatch)
    (batches : list FillBatch)
| RvSubmitRootAndPriceAndFulfillAndWithdraw (root : Root) (requests : list ProofRequestBatch)
    (batches : list FillBatch).

(** The deadline and the three parts of the signature of an EIP-2612 permit. *)
Record PermitArgs := mkPermitArgs {
  permit_deadline : Z;
  permit_v : Byte.byte;
  permit_r : bytes;
  permit_s : bytes
}.

Record Permit := mkPermit {
  owner : Z;
  spender : Z;
  permit_value : Z;
  nonce : Z;
  deadline : Z
}.

Inductive Call :=
| CallReveal (r : Reveal)
| CallCommit (commitment : bytes)
| CallSubmitRequest (r : ProofRequest) (sig : bytes) (value : Z)
| CallLockRequest (r : ProofRequest) (sig : bytes)
| CallLockRequestWithSignature (r : ProofRequest) (sig prover_sig : bytes)
| CallSlash (request_id : Z)
| CallDeposit (value : Z)
| CallDepositTo (to value : Z)
| CallWithdraw (amount : Z)
| CallApprove (token spender value : Z)
| CallDepositCollateral (value : Z)
| CallDepositCollateralTo (to value : Z)
| CallDepositCollateralWithPermit (value : Z) (permit : PermitArgs)
| CallDepositCollateralWithPermitTo (to value : Z) (permit : PermitArgs)
| CallWithdrawCollateral (value : Z).

Record TxReceipt := mkTxReceipt {
  transaction_hash : Z;
  tx_status : bool;
  block_number : option Z;
  tx_logs : list Log
}.

(** How waiting for a transaction ends. *)
Inductive PendingAnswer :=
| Confirmed (r : TxReceipt)
| NullResponse
| NotConfirmed (e : string).

Record ProverSlashed := mkProverSlashed {
  ps_requestId : Z;
  collateralBurned : Z;
  collateralTransferred : Z;
  collateralRecipient : Z
}.

Record ProofDelivered := mkProofDelivered {
  pd_requestId : Z;
  pd_prover : Z;
  pd_fulfillment : Fulfillment
}.

(** The block and the transaction of a log, where they are known. *)
Record LogMeta := mkLogMeta { lm_block_number : option Z; lm_transaction_hash : option Z }.

Record EventRetryConfig := mkEventRetry { retries : Z; retry_delay_ms : option Z }.

Record EventQueryConfig := mkEventQuery {
  block_range : Z;
  max_iterations : Z;
  retry_config : option EventRetryConfig
}.

Definition event_query_default : EventQueryConfig :=
  mkEventQuery 499 500 (Some (mkEventRetry 1 (Some 5000))).

Definition event_query_default_for_broker : EventQueryConfig := mkEventQuery 499 100 None.

(** [BoundlessMarketService]: the address of the contract, the sender, and the
    settings.  The confirmation timeout is part of the node's answers. *)
Record ServiceSettings := mkServiceSettings {
  market_address : Z;
  caller : Z;
  event_query_config : EventQueryConfig;
  receipt_retry_count : nat;
  receipt_retry_interval_ms : Z
}.

Definition service_new (address caller : Z) : ServiceSettings :=
  mkServiceSettings address caller event_query_default 10 500.

Definition service_new_for_broker (address caller : Z) : ServiceSettings :=
  mkServiceSettings address caller event_query_default_for_broker 10 500.

(** What the source leaves to alloy: the topics and the decoding of two events, the
    digests and encodings of the contract's types, and the printing of an error. *)
Class ServiceAbi := {
  REQUEST_SUBMITTED_HASH : Z;
  PROVER_SLASHED_HASH : Z;
  decode_request_submitted : Log -> option RequestSubmitted;
  decode_prover_slashed : Log -> option ProverSlashed;
  hash_url : string -> bytes;
  hash_input : RequestInput -> bytes;
  hash_offer : Offer -> bytes;
  (** the calldata of [fulfill] behind the selector *)
  encode_fulfill : list FillBatch -> bytes;
  (** [submitRequestCall::abi_decode] *)
  decode_submit_request : bytes -> option (ProofRequest * bytes);
  (** the message that a permit is signed as, in a domain *)
  permit_signing_hash : Permit -> bytes -> bytes;
  market_error_debug : MarketError -> string
}.

(** The node: view calls, the clock in milliseconds, transactions and logs. *)
Class MarketNode (W : Type) := {
  node_now_ms : st W Z;
  node_sleep : Z -> st W unit;
  node_chain_id : st W (string + Z);
  requestIsLocked : Z -> st W (string + bool);
  requestIsFulfilled : Z -> st W (string + bool);
  requestIsSlashed : Z -> st W (string + bool);
  requestDeadline : Z -> st W (string + Z);
  balanceOf : Z -> st W (string + Z);
  balanceOfCollateral : Z -> st W (string + Z);
  collateral_token : st W (string + Z);
  token_decimals : Z -> st W (string + Z);
  node_block_number : st W (string + Z);
  node_latest_timestamp : st W (string + option Z);
  node_nonce : Z -> st W (string + Z);
  random_u32 : st W Z;
  permit_nonces : Z -> Z -> st W (string + Z);
  DOMAIN_SEPARATOR : Z -> st W (string + bytes);
  (** [call.send()]: the hash of the transaction *)
  send_call : Call -> st W (string + Z);
  wait_receipt : Z -> st W PendingAnswer;
  (** waiting for a transaction without asking for its receipt *)
  watch : Z -> st W (string + Z);
  (** the input of a transaction *)
  get_transaction_by_hash : Z -> st W (string + option bytes);
  get_transaction_receipt : Z -> st W (string + option TxReceipt);
  (** the logs of an event of a request in a range of blocks, oldest first *)
  query_submitted : Z -> Z -> Z -> st W (string + list (RequestSubmitted * LogMeta));
  query_locked : Z -> Z -> Z -> st W (string + list (RequestLocked * LogMeta));
  query_fulfilled : Z -> Z -> Z -> st W (string + list (RequestFulfilled * LogMeta));
  query_delivered : Z -> Z -> Z -> st W (string + list (ProofDelivered * LogMeta));
  query_slashed : Z -> Z -> Z -> st W (string + list (ProverSlashed * LogMeta))
}.

(** A wallet: its address, and the signature of a hash. *)
Record Signer (W : Type) := mkSigner {
  signer_address : Z;
  sign_hash : bytes -> st W (string + bytes)
}.
Arguments signer_address {W} _.
Arguments sign_hash {W} _ _.

Inductive TxEvent :=
| Sent (c : Call) (hash : Z)
| Included (r : TxReceipt).

Record MsState (W : Type) := mkMs { ms_world : W; ms_chain_id : Z; ms_txs : list TxEvent }.
Arguments mkMs {W} _ _ _.
Arguments ms_world {W} _.
Arguments ms_chain_id {W} _.
Arguments ms_txs {W} _.

Section Service.
Context `{Externals} `{ServiceAbi} {W : Type} `{MarketNode W}.
Variable self : ServiceSettings.

Abbreviation ms A := (ste (MsState W) MarketError A).

Definition on_node {A} (m : st W A) : ms A := fun s =>
  let (a, w) := m (ms_world s) in (Ok a, mkMs w (ms_chain_id s) (ms_txs s)).

(** [call.await?]: the error becomes [MarketError::Error]. *)
Definition node_try {A} (m : st W (string + A)) : ms A :=
  r ← on_node m;
  match r with inr a => mret a | inl e => throw (MError e) end.

Definition record (e : TxEvent) : ms unit := fun s =>
  (Ok tt, mkMs (ms_world s) (ms_chain_id s) (ms_txs s ++ [e])).

(** [call.send().await?] and the hash of what was sent. *)
Definition send (c : Call) : ms Z :=
  hash ← node_try (send_call c);
  _ ← record (Sent c hash);
  mret hash.

(** ** Receipts *)

(** The loop that asks again for the receipt of a confirmed transaction. *)
Fixpoint poll_receipt (tx_hash : Z) (retry_count : nat) : ms TxReceipt :=
  match retry_count with
  | O => throw (MError "confirmed, but receipt was not found")
  | S retry_count =>
      r ← on_node (get_transaction_receipt tx_hash);
      match r with
      | inr (Some receipt) => _ ← record (Included receipt); mret receipt
      | _ =>
          _ ← on_node (node_sleep (receipt_retry_interval_ms self));
          poll_receipt tx_hash retry_count
      end
  end.

Definition get_receipt_with_retry (tx_hash : Z) : ms TxReceipt :=
  _ ← on_node (get_transaction_by_hash tx_hash);
  answer ← on_node (wait_receipt tx_hash);
  match answer with
  | Confirmed receipt => _ ← record (Included receipt); mret receipt
  | NullResponse => poll_receipt tx_hash (receipt_retry_count self)
  | NotConfirmed e => throw (MTxnConfirmationError e)
  end.

(** [pending_tx.with_timeout(..).get_receipt()] with its error as it is. *)
Definition get_receipt (tx_hash : Z) : ms TxReceipt :=
  answer ← on_node (wait_receipt tx_hash);
  match answer with
  | Confirmed receipt => _ ← record (Included receipt); mret receipt
  | NullResponse => throw (MTxnConfirmationError "failed to confirm tx")
  | NotConfirmed e => throw (MTxnConfirmationError e)
  end.

(** The one log of the receipt with the topic; a log that does not decode is an
    error, whatever the others are. *)
Definition extract_tx_log {E} (signature_hash : Z) (decode : Log -> option E)
    (receipt : TxReceipt) : result string E :=
  logs ← collect (fun log => ok_or "failed to decode event"%string (decode log))
    (List.filter (fun log => bool_decide (head (topics log) = Some signature_hash))
       (tx_logs receipt));
  match logs with
  | [log] => Ok log
  | [] => Err "transaction did not emit event"%string
  | _ => Err "transaction emitted more than one event"%string
  end.

(** It only logs. *)
Definition validate_fulfill_receipt (receipt : TxReceipt) : result MarketError unit := Ok tt.

(** ** Funds *)

Definition send_and_watch (c : Call) : ms unit :=
  hash ← send c;
  _ ← node_try (watch hash);
  mret tt.

Definition deposit (value : Z) : ms unit := send_and_watch (CallDeposit value).
Definition deposit_to (to value : Z) : ms unit := send_and_watch (CallDepositTo to value).
Definition market_withdraw (amount : Z) : ms unit := send_and_watch (CallWithdraw amount).
Definition balance_of (account : Z) : ms Z := node_try (balanceOf account).

Definition balance_of_collateral (account : Z) : ms Z := node_try (balanceOfCollateral account).

(** The thresholds decide which message is logged. *)
Definition check_collateral_balance : ms unit :=
  _ ← balance_of_collateral (caller self);
  mret tt.

Definition collateral_token_address : ms Z := node_try collateral_token.

Definition collateral_token_decimals : ms Z :=
  address ← collateral_token_address;
  node_try (token_decimals address).

Definition approve_deposit_collateral (value : Z) : ms unit :=
  token ← node_try collateral_token;
  send_and_watch (CallApprove token (market_address self) value).

Definition deposit_collateral (value : Z) : ms unit :=
  send_and_watch (CallDepositCollateral value).

Definition deposit_collateral_to (to value : Z) : ms unit :=
  send_and_watch (CallDepositCollateralTo to value).

Definition withdraw_collateral (value : Z) : ms unit :=
  _ ← send_and_watch (CallWithdrawCollateral value);
  check_collateral_balance.

(** The cell of the chain id, zero until an answer has been kept. *)
Definition load_chain_id : ms Z := fun s => (Ok (ms_chain_id s), s).
Definition store_chain_id (id : Z) : ms unit := fun s =>
  (Ok tt, mkMs (ms_world s) id (ms_txs s)).

Definition get_chain_id : ms Z :=
  id ← load_chain_id;
  if negb (id =? 0) then mret id else
  id ← node_try node_chain_id;
  _ ← store_chain_id id;
  mret id.

Definition market_eip712_domain : ms EIP712DomainSaltless :=
  chain_id ← get_chain_id;
  mret (eip712_domain (market_address self) chain_id).

Definition collateral_token_supports_permit (chain_id : Z) : bool :=
  (chain_id =? 1) || (chain_id =? 11155111) || (chain_id =? 31337) || (chain_id =? 1337).

(** [block.context(..)?.context(..)?] *)
Definition get_latest_block_timestamp : ms Z :=
  r ← node_try node_latest_timestamp;
  liftr (ok_or (MError "failed to get block") r).

Definition sign_collateral_permit (value : Z) (signer : Signer W) : ms PermitArgs :=
  chain_id ← get_chain_id;
  if negb (collateral_token_supports_permit chain_id)
  then throw (MError "Collateral token does not support permit") else
  token ← node_try collateral_token;
  nonce ← node_try (permit_nonces token (caller self));
  timestamp ← get_latest_block_timestamp;
  let deadline := wadd 64 timestamp 1000 in
  let permit := mkPermit (caller self) (market_address self) value nonce deadline in
  domain_separator ← node_try (DOMAIN_SEPARATOR token);
  sig ← node_try (sign_hash signer (permit_signing_hash permit domain_separator));
  v ← liftr (unwrap (sig !! 64%nat));
  mret (mkPermitArgs deadline v (take 32 sig) (take 32 (drop 32 sig))).

Definition deposit_collateral_with_permit (value : Z) (signer : Signer W) : ms unit :=
  permit ← sign_collateral_permit value signer;
  send_and_watch (CallDepositCollateralWithPermit value permit).

Definition deposit_collateral_with_permit_to (to value : Z) (signer : Signer W) : ms unit :=
  permit ← sign_collateral_permit value signer;
  send_and_watch (CallDepositCollateralWithPermitTo to value permit).

(** ** Submitting, locking and slashing *)

(** [ProofRequest::sign_request]. *)
Definition sign_request (request : ProofRequest) (signer : Signer W) (contract_addr chain_id : Z)
    : ste W RequestError bytes :=
  hash ← liftr (signing_hash request contract_addr chain_id);
  r ← lift (sign_hash signer hash);
  match r with inr sig => mret sig | inl _ => throw SignatureError end.

Definition submitted_id (receipt : TxReceipt) : result MarketError Z :=
  match extract_tx_log REQUEST_SUBMITTED_HASH decode_request_submitted receipt with
  | Ok log => Ok (rs_requestId log)
  | Err e => Err (LogNotEmitted (transaction_hash receipt) e)
  | Panic => Panic
  end.

Definition submit_request_with_signature (request : ProofRequest) (signature : bytes) : ms Z :=
  hash ← send (CallSubmitRequest request signature 0);
  receipt ← get_receipt_with_retry hash;
  liftr (submitted_id receipt).

Definition submit_request_with_value (request : ProofRequest) (signer : Signer W) (value : Z)
    : ms Z :=
  if negb (client_address request =? signer_address signer)
  then throw (AddressMismatch (client_address request) (signer_address signer)) else
  chain_id ← get_chain_id;
  sig ← (fun s =>
    let (r, w) := sign_request request signer (market_address self) chain_id (ms_world s) in
    (map_err (fun _ => MError "failed to sign request") r,
     mkMs w (ms_chain_id s) (ms_txs s)));
  hash ← send (CallSubmitRequest request sig value);
  receipt ← get_receipt_with_retry hash;
  liftr (submitted_id receipt).

Definition submit_request (request : ProofRequest) (signer : Signer W) : ms Z :=
  balance ← balance_of (signer_address signer);
  let max_price := maxPrice (offer request) in
  let value := if max_price <? balance then 0 else wsub 256 max_price balance in
  submit_request_with_value request signer value.

Definition receipt_block (receipt : TxReceipt) : ms Z :=
  liftr (ok_or (MError "TXN Receipt missing block number") (block_number receipt)).

Definition lock_request (request : ProofRequest) (client_sig : bytes) : ms Z :=
  is_locked_in ← node_try (requestIsLocked (reqId request));
  if (is_locked_in : bool) then throw (RequestAlreadyLocked (reqId request)) else
  hash ← send (CallLockRequest request client_sig);
  receipt ← get_receipt_with_retry hash;
  if negb (tx_status receipt) then throw (LockRevert (transaction_hash receipt)) else
  _ ← check_collateral_balance;
  receipt_block receipt.

Definition lock_request_with_signature (request : ProofRequest) (client_sig prover_sig : bytes)
    : ms Z :=
  is_locked_in ← node_try (requestIsLocked (reqId request));
  if (is_locked_in : bool) then throw (RequestAlreadyLocked (reqId request)) else
  hash ← send (CallLockRequestWithSignature request client_sig prover_sig);
  receipt ← get_receipt_with_retry hash;
  if negb (tx_status receipt) then throw (LockRevert (transaction_hash receipt)) else
  receipt_block receipt.

Definition is_locked (request_id : Z) : ms bool := node_try (requestIsLocked request_id).
Definition is_fulfilled (request_id : Z) : ms bool := node_try (requestIsFulfilled request_id).
Definition is_slashed (request_id : Z) : ms bool := node_try (requestIsSlashed request_id).

Definition slash (request_id : Z) : ms ProverSlashed :=
  slashed ← is_slashed request_id;
  if (slashed : bool) then throw (RequestIsSlashed request_id) else
  hash ← send (CallSlash request_id);
  receipt ← get_receipt_with_retry hash;
  if negb (tx_status receipt) then throw (SlashRevert (transaction_hash receipt)) else
  match extract_tx_log PROVER_SLASHED_HASH decode_prover_slashed receipt with
  | Ok log => mret log
  | Err e => throw (LogNotEmitted (transaction_hash receipt) e)
  | Panic => liftr Panic
  end.

(** ** Fulfilling *)

Definition commit_fulfillment (commitment : bytes) : ms unit :=
  hash ← send (CallCommit commitment);
  _ ← get_receipt_with_retry hash;
  mret tt.

(** The entry points with a receipt that is polled, and those without. *)
Definition send_reveal (r : Reveal) : ms unit :=
  hash ← send (CallReveal r);
  receipt ← get_receipt_with_retry hash;
  liftr (validate_fulfill_receipt receipt).

Definition send_reveal_once (r : Reveal) : ms unit :=
  hash ← send (CallReveal r);
  receipt ← get_receipt hash;
  liftr (validate_fulfill_receipt receipt).

Definition _fulfill (fb : list FillBatch) : ms unit := send_reveal (RvFulfill fb).

Definition fulfill_and_withdraw (fb : list FillBatch) : ms unit :=
  send_reveal (RvFulfillAndWithdraw fb).

Definition submit_root_and_fulfill (root : Root) (fb : list FillBatch) : ms unit :=
  send_reveal (RvSubmitRootAndFulfill root fb).

Definition submit_root_and_fulfill_and_withdraw (root : Root) (fb : list FillBatch) : ms unit :=
  send_reveal (RvSubmitRootAndFulfillAndWithdraw root fb).

Definition price_and_fulfill (rb : list ProofRequestBatch) (fb : list FillBatch) : ms unit :=
  send_reveal (RvPriceAndFulfill rb fb).

Definition price_and_fulfill_and_withdraw (rb : list ProofRequestBatch) (fb : list FillBatch)
    : ms unit :=
  send_reveal (RvPriceAndFulfillAndWithdraw rb fb).

Definition submit_root_and_price_fulfill (root : Root) (rb : list ProofRequestBatch)
    (fb : list FillBatch) : ms unit :=
  send_reveal_once (RvSubmitRootAndPriceAndFulfill root rb fb).

Definition submit_root_and_price_fulfill_and_withdraw (root : Root)
    (rb : list ProofRequestBatch) (fb : list FillBatch) : ms unit :=
  send_reveal_once (RvSubmitRootAndPriceAndFulfillAndWithdraw root rb fb).

(** [SlimRequest::from_request]. *)
Definition from_request (request : ProofRequest) : SlimRequest :=
  mkSlim (reqId request) (predicate (requirements request)) (callback (requirements request))
    (selector (requirements request)) (hash_url (imageUrl request)) (hash_input (input request))
    (hash_offer (offer request)).

Definition fulfillment_batches (tx : FulfillmentTx) : list FillBatch :=
  [mkFillBatch (map from_request (fulfilled tx)) (fulfillments tx) (tx_assessor_seal tx)
     (tx_prover tx)].

(** Whether there are requests to price. *)
Definition needs_price (tx : FulfillmentTx) : bool :=
  match unlocked_requests tx with [] => false | _ => true end.

Definition request_batches (tx : FulfillmentTx) : list ProofRequestBatch :=
  if needs_price tx
  then [mkRequestBatch (map ur_request (unlocked_requests tx))
          (map ur_client_sig (unlocked_requests tx))]
  else [].

Definition reveal (tx : FulfillmentTx) : ms unit :=
  let fb := fulfillment_batches tx in
  let rb := request_batches tx in
  match tx_root tx with
  | None =>
      match needs_price tx, tx_withdraw tx with
      | false, false => _fulfill fb
      | false, true => fulfill_and_withdraw fb
      | true, false => price_and_fulfill rb fb
      | true, true => price_and_fulfill_and_withdraw rb fb
      end
  | Some root =>
      match needs_price tx, tx_withdraw tx with
      | false, false => submit_root_and_fulfill root fb
      | false, true => submit_root_and_fulfill_and_withdraw root fb
      | true, false => submit_root_and_price_fulfill root rb fb
      | true, true => submit_root_and_price_fulfill_and_withdraw root rb fb
      end
  end.

(** The reveal is tried again when the market has not seen the commitment yet, until
    the deadline has passed; the clock is read only then. *)
Fixpoint reveal_loop (fuel : nat) (tx : FulfillmentTx) (deadline : Z) (s : MsState W)
    : option (result MarketError unit * MsState W) :=
  match fuel with
  | O => None
  | S fuel =>
      match reveal tx s with
      | (Err err, s1) =>
          if needs_price tx && contains "MissingFulfillmentCommitment" (market_error_debug err)
          then
            let (now, w2) := node_now_ms (ms_world s1) in
            let s2 := mkMs w2 (ms_chain_id s1) (ms_txs s1) in
            if now <? deadline
            then
              let (_, w3) := node_sleep 500 (ms_world s2) in
              reveal_loop fuel tx deadline (mkMs w3 (ms_chain_id s2) (ms_txs s2))
            else Some (Err err, s2)
          else Some (Err err, s1)
      | r => Some r
      end
  end.

Definition commit_if_priced (tx : FulfillmentTx) : ms unit :=
  if needs_price tx
  then commit_fulfillment (keccak256 (encode_fulfill (fulfillment_batches tx)))
  else mret tt.

(** [None] when the fuel of the loop does not suffice. *)
Definition fulfill (fuel : nat) (tx : FulfillmentTx) (s : MsState W)
    : option (result MarketError unit * MsState W) :=
  match commit_if_priced tx s with
  | (Ok _, s1) =>
      let (now, w2) := node_now_ms (ms_world s1) in
      reveal_loop fuel tx (now + 15 * 1000) (mkMs w2 (ms_chain_id s1) (ms_txs s1))
  | (Err e, s1) => Some (Err e, s1)
  | (Panic, s1) => Some (Panic, s1)
  end.

(** ** Status and index of a request *)

Definition get_status (request_id : Z) (expires_at : option Z) : ms RequestStatus :=
  timestamp ← get_latest_block_timestamp;
  fulfilled ← is_fulfilled request_id;
  if (fulfilled : bool) then mret StFulfilled else
  if match expires_at with Some expires_at => expires_at <? timestamp | None => false end
  then mret StExpired else
  locked ← is_locked request_id;
  if (locked : bool) then
    deadline ← node_try (requestDeadline request_id);
    if (deadline <? timestamp) && (0 <? deadline) then mret StExpired else mret StLocked
  else mret StUnknown.

Definition index_in_use : MarketError := MError "index already in use".

(** The index is the nonce of the caller, which has to fit 32 bits. *)
Definition index_from_nonce : ms Z :=
  nonce ← node_try (node_nonce (caller self));
  if 2 ^ 32 <=? nonce then throw (MError "Failed to convert nonce to u32") else
  status ← get_status (RequestId.u256 (caller self) nonce) None;
  if bool_decide (status = StUnknown) then mret nonce else throw index_in_use.

Definition request_id_from_nonce : ms Z :=
  index ← index_from_nonce;
  mret (RequestId.u256 (caller self) index).

Fixpoint index_attempts (attempts : nat) : ms Z :=
  match attempts with
  | O => throw (MError "failed to generate a unique index")
  | S attempts =>
      id ← on_node random_u32;
      status ← get_status (RequestId.u256 (caller self) id) None;
      if bool_decide (status = StUnknown) then mret id else index_attempts attempts
  end.

Definition index_from_rand : ms Z := index_attempts 10.

Definition request_id_from_rand : ms Z :=
  index ← index_from_rand;
  mret (RequestId.u256 (caller self) index).

End Service.

(** * Theorems *)

(** ** What a call of the service sends

    [appends m Q]: every run of [m] adds to the log of the transactions a list
    that stands in [Q] to its result. *)

Definition appends {W A} (m : ste (MsState W) MarketError A)
    (Q : result MarketError A -> list TxEvent -> Prop) : Prop :=
  forall s r s', m s = (r, s') -> exists l, ms_txs s' = ms_txs s ++ l /\ Q r l.

Section Appends.
Context `{Externals} `{ServiceAbi} {W : Type} `{MarketNode W}.
Variable self : ServiceSettings.

Lemma appends_weaken {A} (m : ste (MsState W) MarketError A) (P Q : _ -> _ -> Prop) :
  appends m P -> (forall r l, P r l -> Q r l) -> appends m Q.
Proof. intros Hm HPQ s r s' Hr. destruct (Hm _ _ _ Hr) as (l & Hl & HP). eauto. Qed.

Lemma appends_bind {A B} (m : ste (MsState W) MarketError A)
    (f : A -> ste (MsState W) MarketError B) P (Q : _ -> _ -> Prop) :
  appends m P ->
  (forall a l, P (Ok a) l -> appends (f a) (fun r l' => Q r (l ++ l'))) ->
  (forall e l, P (Err e) l -> Q (Err e) l) ->
  (forall l, P Panic l -> Q Panic l) ->
  appends (m ≫= f) Q.
Proof.
  intros Hm Hf He Hp s r s' Hr. unfold mbind, ste_bind in Hr.
  destruct (m s) as [[a|e|] s1] eqn:Em; destruct (Hm _ _ _ Em) as (l & Hl & HP).
  - destruct (Hf _ _ HP _ _ _ Hr) as (l' & Hl' & HQ).
    exists (l ++ l'). by rewrite Hl', Hl, app_assoc.
  - injection Hr as <- <-. eauto.
  - injection Hr as <- <-. eauto.
Qed.

(** The common case: a step that sends nothing. *)
Lemma appends_quiet {A B} (m : ste (MsState W) MarketError A)
    (f : A -> ste (MsState W) MarketError B) P (Q : _ -> _ -> Prop) :
  appends m (fun r l => l = [] /\ P r) ->
  (forall a, P (Ok a) -> appends (f a) Q) ->
  (forall e, P (Err e) -> Q (Err e) []) ->
  (P Panic -> Q Panic []) ->
  appends (m ≫= f) Q.
Proof.
  intros Hm Hf He Hp. eapply appends_bind; [exact Hm| | |].
  - intros a l [-> HP]. by apply Hf.
  - intros e l [-> HP]. by apply He.
  - intros l [-> HP]. by apply Hp.
Qed.

Lemma appends_ret {A} (a : A) (Q : _ -> _ -> Prop) :
  Q (Ok a) [] -> appends (W := W) (mret a) Q.
Proof. intros HQ s r s' [= <- <-]. exists []. by rewrite app_nil_r. Qed.

Lemma appends_throw {A} e (Q : _ -> _ -> Prop) :
  Q (Err e) [] -> appends (W := W) (A := A) (throw e) Q.
Proof. intros HQ s r s' [= <- <-]. exists []. by rewrite app_nil_r. Qed.

Lemma appends_liftr {A} (x : result MarketError A) (Q : _ -> _ -> Prop) :
  Q x [] -> appends (W := W) (liftr x) Q.
Proof. intros HQ s r s' [= <- <-]. exists []. by rewrite app_nil_r. Qed.

Lemma appends_node {A} (m : st W A) :
  appends (on_node m) (fun r l => l = [] /\ exists a, r = Ok a).
Proof.
  intros s r s' Hr. unfold on_node in Hr. destruct (m (ms_world s)) as [a w].
  injection Hr as <- <-. exists []. rewrite app_nil_r. eauto.
Qed.

Lemma appends_node_try {A} (m : st W (string + A)) :
  appends (node_try m)
    (fun r l => l = [] /\ match r with Ok _ => True | Err e => exists t, e = MError t | Panic => False end).
Proof.
  eapply appends_quiet; [apply appends_node| |by intros e [? ?]|by intros [? ?]].
  intros [t|a] _; [apply appends_throw|apply appends_ret]; eauto.
Qed.

Lemma appends_record e :
  appends (W := W) (record e) (fun r l => r = Ok tt /\ l = [e]).
Proof. intros s r s' [= <- <-]. by exists [e]. Qed.

Lemma appends_send c :
  appends (send c)
    (fun r l => (exists h, r = Ok h /\ l = [Sent c h]) \/ (exists t, r = Err (MError t) /\ l = [])).
Proof.
  eapply appends_quiet; [apply appends_node_try| |naive_solver|naive_solver].
  intros h _. eapply appends_bind; [apply appends_record| |naive_solver|naive_solver].
  intros _ l [_ ->]. apply appends_ret. left. by exists h.
Qed.

(** A receipt, or an error. *)
Definition received (r : result MarketError TxReceipt) (l : list TxEvent) : Prop :=
  (exists rc, r = Ok rc /\ l = [Included rc])
  \/ (exists e, r = Err e /\ l = []
        /\ ((exists t, e = MError t) \/ (exists t, e = MTxnConfirmationError t))).

Lemma appends_included rc :
  appends (W := W) (_ ← record (Included rc); mret rc) received.
Proof.
  eapply appends_bind; [apply appends_record| |naive_solver|naive_solver].
  intros _ l [_ ->]. apply appends_ret. left. by exists rc.
Qed.

Lemma appends_poll_receipt h n : appends (poll_receipt self h n) received.
Proof.
  induction n as [|n IH]; cbn [poll_receipt].
  - apply appends_throw. right. eauto 6.
  - eapply appends_quiet; [apply appends_node| |by intros e [? ?]|by intros [? ?]].
    intros a _.
    assert (Hagain : appends (_ ← on_node (node_sleep (receipt_retry_interval_ms self));
                              poll_receipt self h n) received).
    { eapply appends_quiet; [apply appends_node|done|by intros e [? ?]|by intros [? ?]]. }
    destruct a as [t|[rc|]]; [done|apply appends_included|done].
Qed.

Lemma appends_receipt_retry h : appends (get_receipt_with_retry self h) received.
Proof.
  eapply appends_quiet; [apply appends_node| |by intros e [? ?]|by intros [? ?]].
  intros _ _. eapply appends_quiet; [apply appends_node| |by intros e [? ?]|by intros [? ?]].
  intros [rc| |t] _; [apply appends_included|apply appends_poll_receipt|].
  apply appends_throw. right. eauto 6.
Qed.

Lemma appends_receipt_once h : appends (get_receipt (W := W) h) received.
Proof.
  eapply appends_quiet; [apply appends_node| |by intros e [? ?]|by intros [? ?]].
  intros [rc| |t] _; [apply appends_included|apply appends_throw..]; right; eauto 6.
Qed.

(** Sending a transaction and waiting for its receipt, then a step that sends
    nothing. *)
Lemma appends_transact {B} c (get : Z -> ste (MsState W) MarketError TxReceipt)
    (f : TxReceipt -> ste (MsState W) MarketError B) (Q : _ -> _ -> Prop) :
  (forall h, appends (get h) received) ->
  (forall h rc, appends (f rc) (fun r l => Q r (Sent c h :: Included rc :: l))) ->
  (forall t, Q (Err (MError t)) []) ->
  (forall e h, (exists t, e = MError t) \/ (exists t, e = MTxnConfirmationError t) ->
     Q (Err e) [Sent c h]) ->
  appends (h ← send c; rc ← get h; f rc) Q.
Proof.
  intros Hget Hf Hn He. eapply appends_bind; [apply appends_send| | |].
  - intros h l [(h' & [= <-] & ->)|(t & [=] & _)].
    eapply appends_bind; [apply Hget| | |].
    + intros rc l [(rc' & [= <-] & ->)|(e & [=] & _)]. apply Hf.
    + intros e l [(rc' & [=] & _)|(e' & [= <-] & -> & Ht)]. by apply He.
    + intros l [(rc' & [=] & _)|(e' & [=] & _)].
  - intros e l [(h' & [=] & _)|(t & [= ->] & ->)]. apply Hn.
  - intros l [(h' & [=] & _)|(t & [=] & _)].
Qed.

End Appends.

(** ** Fulfilling commits first *)

(** What an entry point is given. *)
Definition reveal_root (r : Reveal) : option Root :=
  match r with
  | RvSubmitRootAndFulfill root _ | RvSubmitRootAndFulfillAndWithdraw root _
  | RvSubmitRootAndPriceAndFulfill root _ _
  | RvSubmitRootAndPriceAndFulfillAndWithdraw root _ _ => Some root
  | _ => None
  end.

Definition reveal_priced (r : Reveal) : list ProofRequestBatch :=
  match r with
  | RvPriceAndFulfill rb _ | RvPriceAndFulfillAndWithdraw rb _
  | RvSubmitRootAndPriceAndFulfill _ rb _
  | RvSubmitRootAndPriceAndFulfillAndWithdraw _ rb _ => rb
  | _ => []
  end.

Definition reveal_batches (r : Reveal) : list FillBatch :=
  match r with
  | RvFulfill fb | RvFulfillAndWithdraw fb | RvSubmitRootAndFulfill _ fb
  | RvSubmitRootAndFulfillAndWithdraw _ fb | RvPriceAndFulfill _ fb
  | RvPriceAndFulfillAndWithdraw _ fb | RvSubmitRootAndPriceAndFulfill _ _ fb
  | RvSubmitRootAndPriceAndFulfillAndWithdraw _ _ fb => fb
  end.

Definition reveal_withdraws (r : Reveal) : bool :=
  match r with
  | RvFulfillAndWithdraw _ | RvSubmitRootAndFulfillAndWithdraw _ _
  | RvPriceAndFulfillAndWithdraw _ _ | RvSubmitRootAndPriceAndFulfillAndWithdraw _ _ _ => true
  | _ => false
  end.

Section Fulfil.
Context `{Externals} `{ServiceAbi} {W : Type} `{MarketNode W}.
Variable self : ServiceSettings.

(** A call that stands for the fulfillment [tx]: its root, its batch, its choice to
    withdraw, and all of its unlocked requests with their signatures. *)
Definition stands_for (tx : FulfillmentTx) (rv : Reveal) : Prop :=
  reveal_root rv = tx_root tx
  /\ reveal_batches rv = fulfillment_batches tx
  /\ reveal_withdraws rv = tx_withdraw tx
  /\ mjoin (map (fun b => zip (price_requests b) (signatures b)) (reveal_priced rv))
     = map (fun u => (ur_request u, ur_client_sig u)) (unlocked_requests tx).

(** One attempt: a call that fails, or is sent without a receipt, or is included. *)
Definition attempted (tx : FulfillmentTx) (r : result MarketError unit) (l : list TxEvent) : Prop :=
  (l = [] /\ exists e, r = Err e)
  \/ exists rv h, stands_for tx rv
      /\ ((l = [Sent (CallReveal rv) h] /\ exists e, r = Err e)
          \/ exists rc, l = [Sent (CallReveal rv) h; Included rc] /\ r = Ok tt).

Lemma appends_send_reveal tx rv get :
  (forall h, appends (W := W) (get h) received) ->
  stands_for tx rv ->
  appends (hash ← send (CallReveal rv); receipt ← get hash;
           liftr (validate_fulfill_receipt receipt)) (attempted tx).
Proof.
  intros Hget Hf. apply appends_transact; [done| |left; eauto|].
  - intros h rc. apply appends_liftr. right. exists rv, h. eauto 6.
  - intros e h _. right; exists rv, h; eauto 6.
Qed.

Lemma request_batches_zip tx :
  mjoin (map (fun b => zip (price_requests b) (signatures b)) (request_batches tx))
  = map (fun u => (ur_request u, ur_client_sig u)) (unlocked_requests tx).
Proof.
  unfold request_batches, needs_price. destruct (unlocked_requests tx) as [|u us]; [done|].
  simpl. rewrite app_nil_r. f_equal. induction us as [|v us IH]; [done|]. simpl. by rewrite IH.
Qed.

Lemma appends_reveal tx : appends (reveal self tx) (attempted tx).
Proof.
  pose proof (request_batches_zip tx) as Hzip.
  unfold reveal, request_batches in *. unfold needs_price in *.
  destruct (tx_root tx) as [root|] eqn:Er, (unlocked_requests tx) as [|u us] eqn:Eu,
    (tx_withdraw tx) eqn:Ew;
    (apply appends_send_reveal;
      [apply appends_receipt_retry || apply appends_receipt_once
      |unfold stands_for; rewrite Er, Ew, Eu; done]).
Qed.

(** The events of the reveals of a fulfillment: any number of failed attempts, then
    the one that ended the loop. *)
Inductive reveals (tx : FulfillmentTx) : result MarketError unit -> list TxEvent -> Prop :=
| reveals_last r l : attempted tx r l -> reveals tx r l
| reveals_again e l r l' :
    needs_price tx = true -> attempted tx (Err e) l -> reveals tx r l' -> reveals tx r (l ++ l').

Lemma reveal_loop_reveals fuel tx deadline s r s' :
  reveal_loop self fuel tx deadline s = Some (r, s') ->
  exists l, ms_txs s' = ms_txs s ++ l /\ reveals tx r l.
Proof.
  revert s. induction fuel as [|fuel IH]; intros s Hr; [done|]. cbn [reveal_loop] in Hr.
  destruct (reveal self tx s) as [r1 s1] eqn:E1.
  destruct (appends_reveal tx _ _ _ E1) as (l & Hl & Ha).
  destruct r1 as [a|err|].
  - injection Hr as <- <-. eauto using reveals_last.
  - destruct (needs_price tx && _) eqn:Eg; [|injection Hr as <- <-; eauto using reveals_last].
    destruct (node_now_ms (ms_world s1)) as [now w2].
    destruct (now <? deadline); [|injection Hr as <- <-; eauto using reveals_last].
    destruct (node_sleep 500 _) as [[] w3]. apply IH in Hr as (l' & Hl' & Hr).
    exists (l ++ l'). simpl in Hl'. rewrite Hl', Hl, app_assoc. split; [done|].
    apply andb_prop in Eg as [Ep _]. eauto using reveals_again.
  - injection Hr as <- <-. eauto using reveals_last.
Qed.

Lemma reveals_stand_for tx r l :
  reveals tx r l ->
  (forall c h, Sent c h ∈ l -> exists rv, c = CallReveal rv /\ stands_for tx rv)
  /\ (r = Ok tt -> exists l' rv h rc, l = l' ++ [Sent (CallReveal rv) h; Included rc])
  /\ (needs_price tx = false -> (length l <= 2)%nat).
Proof.
  assert (Hone : forall r l, attempted tx r l ->
    (forall c h, Sent c h ∈ l -> exists rv, c = CallReveal rv /\ stands_for tx rv)
    /\ (r = Ok tt -> exists l' rv h rc, l = l' ++ [Sent (CallReveal rv) h; Included rc])
    /\ (length l <= 2)%nat).
  { intros r' l' [(-> & e & ->)|(rv & h & Hf & [(-> & e & ->)|(rc & -> & ->)])];
      (split_and!; [|try done|simpl; lia]).
    - intros c h' Hin. by apply elem_of_nil in Hin.
    - intros c h' Hin%list_elem_of_singleton. injection Hin as -> ->. eauto.
    - intros c h' [Hin|Hin%list_elem_of_singleton]%elem_of_cons; [|done].
      injection Hin as -> ->. eauto.
    - intros _. by exists [], rv, h, rc. }
  induction 1 as [r l Ha|e l r l' Hp Ha Hrs (IH1 & IH2 & IH3)]; [naive_solver|].
  split_and!.
  - intros c h [Hin|Hin]%elem_of_app; [apply (Hone _ _ Ha) in Hin|apply IH1 in Hin]; done.
  - intros (l2 & rv & h & rc & ->)%IH2. exists (l ++ l2), rv, h, rc. by rewrite app_assoc.
  - congruence.
Qed.

End Fulfil.

(** C7. Before a fulfillment with unlocked requests is revealed, its commitment is on
    the chain: whatever the node answers and however often the reveal is tried, the
    transactions that [fulfill] sends are the commitment to the digest of the encoded
    batches (when there is something to price, and never otherwise) followed by
    reveals, and a reveal is only sent once the receipt of the commitment has come
    back.  Every reveal carries the root, the batch, the withdrawal and the unlocked
    requests with their signatures of the given fulfillment, so the right one of the
    eight entry points is used.  A success ends with a receipt, and without unlocked
    requests the reveal is sent at most once. *)
Theorem fulfill_commits_first `{Externals} `{ServiceAbi} {W} `{MarketNode W} self fuel tx
    (s s' : MsState W) r :
  fulfill self fuel tx s = Some (r, s') ->
  exists commit rest,
    ms_txs s' = ms_txs s ++ commit ++ rest
    /\ (forall c h, Sent c h ∈ rest -> exists rv, c = CallReveal rv /\ stands_for tx rv)
    /\ (unlocked_requests tx = [] -> commit = [] /\ (length rest <= 2)%nat)
    /\ (unlocked_requests tx <> [] -> rest <> [] ->
        exists h rc, commit
          = [Sent (CallCommit (keccak256 (encode_fulfill (fulfillment_batches tx)))) h;
             Included rc])
    /\ (r = Ok tt -> exists l rv h rc, rest = l ++ [Sent (CallReveal rv) h; Included rc]).
Proof.
  intros Hr. unfold fulfill in Hr.
  assert (Hn : needs_price tx = false <-> unlocked_requests tx = [])
    by (unfold needs_price; by destruct (unlocked_requests tx)).
  destruct (commit_if_priced self tx s) as [rc1 s1] eqn:Ec.
  assert (Hc : appends (commit_if_priced self tx) (fun r l =>
    (r = Ok tt /\ l = [] /\ needs_price tx = false)
    \/ (needs_price tx = true /\ exists h rc, r = Ok tt /\ l =
          [Sent (CallCommit (keccak256 (encode_fulfill (fulfillment_batches tx)))) h; Included rc])
    \/ (needs_price tx = true /\ exists e, r = Err e))).
  { unfold commit_if_priced. destruct (needs_price tx); [|apply appends_ret; eauto].
    apply appends_transact; [apply appends_receipt_retry| |by right; right; eauto|].
    - intros h rc. apply appends_ret. right. left. eauto.
    - intros e h _. right; right; eauto. }
  apply Hc in Ec as (l & Hl & Hcase). clear Hc. destruct rc1 as [[]|e|].
  - destruct (node_now_ms (ms_world s1)) as [now w2].
    apply reveal_loop_reveals in Hr as (l' & Hl' & Hr). simpl in Hl'.
    apply reveals_stand_for in Hr as (H1' & H2' & H3').
    exists l, l'. rewrite Hl', Hl, app_assoc.
    split_and!; [done|done| | |done].
    + intros Hu%Hn. destruct Hcase as [(_ & -> & _)|[[Hp _]|[Hp _]]]; [|congruence..]. auto.
    + intros Hu _. destruct Hcase as [(_ & _ & Hp%Hn)|[(_ & h & rc & _ & ->)|(_ & e & [=])]];
        [done|eauto].
  - injection Hr as <- <-. exists l, []. rewrite app_nil_r.
    split_and!; [done|by intros ? ? ?%elem_of_nil| |done|done].
    intros Hu%Hn. destruct Hcase as [([=] & _)|[(? & ? & ? & [=] & _)|(Hp & _)]]. congruence.
  - destruct Hcase as [([=] & _)|[(? & ? & ? & [=] & _)|(? & ? & [=])]].
Qed.

(** ** The loop of the reveals ends *)

(** A clock behind the node: it never goes back, it is what [Instant::now] reads,
    and a sleep lets at least its length pass. *)
Class NodeClock (W : Type) `{MarketNode W} := {
  clock : W -> Z;
  now_reads : forall w, fst (node_now_ms w) = clock w;
  now_mono : forall w, clock w <= clock (snd (node_now_ms w));
  sleep_passes : forall ms w, clock w + ms <= clock (snd (node_sleep ms w));
  send_mono : forall c w, clock w <= clock (snd (send_call c w));
  wait_mono : forall h w, clock w <= clock (snd (wait_receipt h w));
  receipt_mono : forall h w, clock w <= clock (snd (get_transaction_receipt h w));
  by_hash_mono : forall h w, clock w <= clock (snd (get_transaction_by_hash h w))
}.

Section Ends.
Context `{Externals} `{ServiceAbi} {W : Type} `{NodeClock W}.
Variable self : ServiceSettings.
Hypothesis interval_nonneg : 0 <= receipt_retry_interval_ms self.

Definition forward {A} (m : ste (MsState W) MarketError A) : Prop :=
  forall s, clock (ms_world s) <= clock (ms_world (snd (m s))).

Lemma forward_bind {A B} (m : ste (MsState W) MarketError A) (f : A -> ste _ _ B) :
  forward m -> (forall a, forward (f a)) -> forward (m ≫= f).
Proof.
  intros Hm Hf s. unfold mbind, ste_bind. specialize (Hm s).
  destruct (m s) as [[a|e|] s1]; [|done..]. etrans; [exact Hm|apply Hf].
Qed.

Lemma forward_pure {A} (m : ste (MsState W) MarketError A) :
  (forall s, ms_world (snd (m s)) = ms_world s) -> forward m.
Proof. intros Hm s. by rewrite Hm. Qed.

Lemma forward_node {A} (m : st W A) :
  (forall w, clock w <= clock (snd (m w))) -> forward (on_node m).
Proof. intros Hm s. unfold on_node. specialize (Hm (ms_world s)). by destruct (m (ms_world s)). Qed.

Lemma forward_node_try {A} (m : st W (string + A)) :
  (forall w, clock w <= clock (snd (m w))) -> forward (node_try m).
Proof.
  intros Hm. apply forward_bind; [by apply forward_node|].
  intros [t|a]; by apply forward_pure.
Qed.

Lemma forward_sleep ms : 0 <= ms -> forall w, clock w <= clock (snd (node_sleep ms w)).
Proof. intros Hms w. pose proof (sleep_passes ms w). lia. Qed.

Lemma forward_send c : forward (send c).
Proof.
  apply forward_bind; [apply forward_node_try, send_mono|].
  intros h. apply forward_bind; [|intros _]; by apply forward_pure.
Qed.

Lemma forward_included rc : forward (_ ← record (Included rc); mret rc).
Proof. apply forward_bind; [|intros _]; by apply forward_pure. Qed.

Lemma forward_poll h n : forward (poll_receipt self h n).
Proof.
  induction n as [|n IH]; cbn [poll_receipt]; [by apply forward_pure|].
  apply forward_bind; [apply forward_node, receipt_mono|].
  intros [t|[rc|]]; [|apply forward_included|];
    (apply forward_bind; [by apply forward_node, forward_sleep|done]).
Qed.

Lemma forward_receipt h : forward (get_receipt_with_retry self h).
Proof.
  apply forward_bind; [apply forward_node, by_hash_mono|intros _].
  apply forward_bind; [apply forward_node, wait_mono|].
  intros [rc| |t]; [apply forward_included|apply forward_poll|by apply forward_pure].
Qed.

Lemma forward_receipt_once h : forward (get_receipt (W := W) h).
Proof.
  apply forward_bind; [apply forward_node, wait_mono|].
  intros [rc| |t]; [apply forward_included|by apply forward_pure..].
Qed.

Lemma forward_reveal tx : forward (reveal self tx).
Proof.
  unfold reveal.
  destruct (tx_root tx), (needs_price tx), (tx_withdraw tx);
    (apply forward_bind; [apply forward_send|intros h];
     apply forward_bind; [apply forward_receipt || apply forward_receipt_once|
       intros rc; by apply forward_pure]).
Qed.

Lemma reveal_loop_S fuel tx deadline (s : MsState W) :
  reveal_loop self (S fuel) tx deadline s
  = match reveal self tx s with
    | (Err err, s1) =>
        if needs_price tx && contains "MissingFulfillmentCommitment" (market_error_debug err)
        then
          let (now, w2) := node_now_ms (ms_world s1) in
          let s2 := mkMs w2 (ms_chain_id s1) (ms_txs s1) in
          if now <? deadline
          then
            let (_, w3) := node_sleep 500 (ms_world s2) in
            reveal_loop self fuel tx deadline (mkMs w3 (ms_chain_id s2) (ms_txs s2))
          else Some (Err err, s2)
        else Some (Err err, s1)
    | r => Some r
    end.
Proof. done. Qed.

Lemma reveal_loop_ends fuel tx deadline (s : MsState W) :
  deadline - clock (ms_world s) <= 500 * Z.of_nat fuel ->
  exists r s', reveal_loop self (S fuel) tx deadline s = Some (r, s').
Proof.
  revert s. induction fuel as [|fuel IH]; intros s Hd.
  all: pose proof (forward_reveal tx s) as Hf.
  all: rewrite reveal_loop_S.
  all: destruct (reveal self tx s) as [[a|err|] s1]; [by eauto| |by eauto].
  all: destruct (needs_price tx && _); [|by eauto].
  all: pose proof (now_reads (ms_world s1)) as Hr; pose proof (now_mono (ms_world s1)) as Hm.
  all: destruct (node_now_ms (ms_world s1)) as [now w2]; simpl in *; subst now.
  all: destruct (Z.ltb_spec (clock (ms_world s1)) deadline) as [Hlt|]; [|by eauto].
  - lia.
  - pose proof (sleep_passes 500 w2) as Hs. destruct (node_sleep 500 w2) as [[] w3].
    simpl in Hs. apply (IH (mkMs w3 (ms_chain_id s1) (ms_txs s1))). simpl. lia.
Qed.

End Ends.

(** C23. The loop of the reveals terminates: when the clock does not go back and a sleep
    lasts as long as asked, [fulfill] ends with a result after at most 31 attempts to
    reveal (a deadline of 15 s, pauses of 500 ms), even if the market answers
    every one of them with [MissingFulfillmentCommitment]. *)
Theorem fulfill_terminates `{Externals} `{ServiceAbi} {W} `{NodeClock W} self tx (s : MsState W) :
  0 <= receipt_retry_interval_ms self ->
  exists r s', fulfill self 31 tx s = Some (r, s').
Proof.
  intros Hi. unfold fulfill.
  destruct (commit_if_priced self tx s) as [[[]|e|] s1]; [|by eauto..].
  pose proof (now_reads (ms_world s1)) as Hr. pose proof (now_mono (ms_world s1)) as Hm.
  destruct (node_now_ms (ms_world s1)) as [now w2]. simpl in *. subst now.
  apply (reveal_loop_ends self Hi 30). simpl. lia.
Qed.

(** ** Locking, submitting, indices *)

Lemma let_pair {A B} (p : A * B) (P : A -> B -> Prop) :
  (forall a b, p = (a, b) -> P a b) -> (let (a, b) := p in P a b).
Proof. destruct p. eauto. Qed.

Section Transact.
Context `{Externals} `{ServiceAbi} {W : Type} `{MarketNode W}.
Variable self : ServiceSettings.

(** The runs of the lock behind its first check. *)
Definition lock_outcome (c : Call) (r : result MarketError Z) (l : list TxEvent) : Prop :=
  match r with
  | Ok b => exists h rc, l = [Sent c h; Included rc] /\ tx_status rc = true
                         /\ block_number rc = Some b
  | Err (LockRevert hash) => exists h rc, l = [Sent c h; Included rc] /\ tx_status rc = false
                         /\ transaction_hash rc = hash
  | Err (MTxnConfirmationError _) => exists h, l = [Sent c h]
  | Err (MError _) =>
      l = [] \/ (exists h, l = [Sent c h])
      \/ (exists h rc, l = [Sent c h; Included rc] /\ tx_status rc = true)
  | _ => False
  end.

Lemma node_try_run {A} (m : st W (string + A)) (s : MsState W) :
  node_try m s
  = (match fst (m (ms_world s)) with inr a => Ok a | inl e => Err (MError e) end,
     mkMs (snd (m (ms_world s))) (ms_chain_id s) (ms_txs s)).
Proof.
  unfold node_try, mbind, ste_bind, on_node.
  by destruct (m (ms_world s)) as [[t|a] w].
Qed.

(** A receipt whose status is true stands for the given block. *)
Lemma lock_sent c (check : ste (MsState W) MarketError unit) :
  appends check
    (fun r l => l = [] /\ match r with Ok _ => True | Err e => exists t, e = MError t | Panic => False end) ->
  appends (hash ← send c; receipt ← get_receipt_with_retry self hash;
           if negb (tx_status receipt) then throw (LockRevert (transaction_hash receipt)) else
           _ ← check; receipt_block receipt)
    (lock_outcome c).
Proof.
  intros Hcheck.
  apply appends_transact; [apply appends_receipt_retry| |simpl; eauto|].
  - intros h rc. destruct (tx_status rc) eqn:Es; simpl; [|apply appends_throw; simpl; eauto].
    eapply appends_quiet; [exact Hcheck| |intros e [t ->]; simpl; eauto 8|done].
    intros [] _. apply appends_liftr.
    destruct (block_number rc) as [b|] eqn:Eb; simpl; eauto 8.
  - intros e h [[t ->]|[t ->]]; simpl; eauto 8.
Qed.

Lemma appends_check_balance :
  appends (check_collateral_balance (W := W) self)
    (fun r l => l = [] /\ match r with Ok _ => True | Err e => exists t, e = MError t | Panic => False end).
Proof.
  eapply appends_quiet; [apply appends_node_try| |by intros e [t ->]; eauto|done].
  intros a _. by apply appends_ret.
Qed.

End Transact.

(** C38. Locking a request: when the market says that it is locked already, that is the
    error and nothing is sent.  Otherwise one transaction is sent at most, and a
    block is answered only if its receipt came back, says that it succeeded, and
    names that block; a revert is reported as such, with the hash of the
    receipt.  Of the other errors, some come after the request was locked. *)
Theorem lock_request_spec `{Externals} `{ServiceAbi} {W} `{MarketNode W} self request client_sig
    (s : MsState W) :
  let (r, s') := lock_request self request client_sig s in
  match fst (requestIsLocked (reqId request) (ms_world s)) with
  | inr true => r = Err (RequestAlreadyLocked (reqId request)) /\ ms_txs s' = ms_txs s
  | _ => exists l, ms_txs s' = ms_txs s ++ l
                   /\ lock_outcome (CallLockRequest request client_sig) r l
  end.
Proof.
  apply let_pair. intros r s' Hr. unfold lock_request, mbind, ste_bind at 1 in Hr.
  rewrite node_try_run in Hr. destruct (fst (requestIsLocked _ _)) as [t|[]].
  - injection Hr as <- <-. exists []. rewrite app_nil_r. split; [done|]. simpl. auto.
  - by injection Hr as <- <-.
  - apply (lock_sent self _ _ (appends_check_balance self)) in Hr. exact Hr.
Qed.

Section Submit.
Context `{Externals} `{ServiceAbi} {W : Type} `{MarketNode W}.
Variables (self : ServiceSettings) (request : ProofRequest) (signer : Signer W).

(** The runs of a submission with the value [value]. *)
Definition submit_outcome (value : Z) (r : result MarketError Z) (l : list TxEvent) : Prop :=
  (length l <= 2)%nat
  /\ (forall c h, Sent c h ∈ l ->
      client_address request = signer_address signer
      /\ exists sig, c = CallSubmitRequest request sig value)
  /\ (forall id, r = Ok id -> exists c h rc,
        l = [Sent c h; Included rc]
        /\ exists ev, extract_tx_log REQUEST_SUBMITTED_HASH decode_request_submitted rc = Ok ev
                      /\ rs_requestId ev = id).

Lemma submit_outcome_nil value e : submit_outcome value (Err e) [].
Proof. split_and!; [simpl; lia|by intros c h ?%elem_of_nil|done]. Qed.

Lemma appends_chain_id :
  appends (get_chain_id (W := W)) (fun r l => l = [] /\ r <> Panic).
Proof.
  eapply (appends_quiet _ _ (fun r => exists a, r = Ok a));
    [|intros id _|by intros e [? ?]|by intros [? ?]].
  { intros s r s' [= <- <-]. exists []. rewrite app_nil_r. eauto. }
  destruct (negb _); [by apply appends_ret|].
  eapply appends_quiet; [apply appends_node_try|intros id' _|done|done].
  intros s r s' [= <- <-]. exists []. by rewrite app_nil_r.
Qed.

Lemma appends_submit_with_value value :
  appends (submit_request_with_value self request signer value) (submit_outcome value).
Proof.
  unfold submit_request_with_value.
  destruct (Z.eqb_spec (client_address request) (signer_address signer)) as [He|]; simpl;
    [|apply appends_throw, submit_outcome_nil].
  eapply appends_quiet; [apply appends_chain_id|intros chain_id _|intros e _; apply submit_outcome_nil|done].
  eapply (appends_quiet _ _ (fun r => r <> Panic));
    [|intros sig _|intros e _; apply submit_outcome_nil|done].
  { intros s r s' Hr. exists []. rewrite app_nil_r. revert Hr.
    unfold sign_request, signing_hash, liftr, lift, mbind, ste_bind. simpl.
    destruct (sign_hash signer _ (ms_world s)) as [[t|sig] w]; by intros [= <- <-]. }
  apply appends_transact; [apply appends_receipt_retry| |intros t; apply submit_outcome_nil|].
  - intros h rc. apply appends_liftr. split_and!; [simpl; lia| |].
    + intros c h' [Hin|Hin%list_elem_of_singleton]%elem_of_cons; [|done].
      injection Hin as -> ->. eauto.
    + intros id Hid. unfold submitted_id in Hid.
      destruct (extract_tx_log _ _ _) as [ev|e|] eqn:Ex; [|done..].
      injection Hid as <-. eauto 8.
  - intros e h _. split_and!; [simpl; lia| |done].
    intros c h' Hin%list_elem_of_singleton. injection Hin as -> ->. eauto.
Qed.

End Submit.

(** Submitting a request: the transaction carries what the client's balance falls
    short of the maximum price, and nothing if the balance covers it; it is sent at
    most once, by the client that the request names; and the id that is answered is
    that of the one event of its receipt. *)
Theorem submit_request_spec `{Externals} `{ServiceAbi} {W} `{MarketNode W} self request signer
    (s : MsState W) :
  fits 256 (maxPrice (offer request)) ->
  (forall a b, fst (balanceOf a (ms_world s)) = inr b -> 0 <= b) ->
  let (r, s') := submit_request self request signer s in
  exists l, ms_txs s' = ms_txs s ++ l
    /\ match fst (balanceOf (signer_address signer) (ms_world s)) with
       | inr balance =>
           submit_outcome request signer (Z.max 0 (maxPrice (offer request) - balance)) r l
       | inl t => r = Err (MError t) /\ l = []
       end.
Proof.
  intros Hmax Hbal. apply let_pair. intros r s' Hr.
  unfold submit_request, balance_of, mbind, ste_bind in Hr. rewrite node_try_run in Hr.
  destruct (fst (balanceOf _ _)) as [t|balance] eqn:Eb.
  - injection Hr as <- <-. exists []. by rewrite app_nil_r.
  - apply Hbal in Eb. apply appends_submit_with_value in Hr.
    assert (Hv : (if maxPrice (offer request) <? balance then 0
                  else wsub 256 (maxPrice (offer request)) balance)
                 = Z.max 0 (maxPrice (offer request) - balance)).
    { bcase; [lia|]. rewrite wsub_small by fits_lia. lia. }
    rewrite Hv in Hr. exact Hr.
Qed.

(** A random index is answered when the market has neither fulfilled nor locked a
    request under it; a fixed number of draws is made. *)
Lemma get_status_unknown `{Externals} `{ServiceAbi} {W} `{MarketNode W} request_id
    expires_at (s s' : MsState W) :
  get_status request_id expires_at s = (Ok StUnknown, s') ->
  exists w1 w2, fst (requestIsFulfilled request_id w1) = inr false
    /\ fst (requestIsLocked request_id w2) = inr false.
Proof.
  unfold get_status. intros Hr. bind_step Hr ts s1 E1. bind_step Hr f s2 E2.
  unfold is_fulfilled in E2. rewrite node_try_run in E2.
  destruct (fst (requestIsFulfilled _ _)) as [|f'] eqn:Ef; [done|]. injection E2 as <- <-.
  destruct f'; [done|]. destruct (match expires_at with Some e => _ | None => _ end); [done|].
  bind_step Hr l s3 E3. unfold is_locked in E3. rewrite node_try_run in E3.
  destruct (fst (requestIsLocked _ _)) as [|l'] eqn:El; [done|]. injection E3 as <- <-.
  destruct l'; [|eauto]. bind_step Hr d s4 E4. by destruct (_ && _).
Qed.

Lemma index_from_rand_free `{Externals} `{ServiceAbi} {W} `{MarketNode W} self id
    (s s' : MsState W) :
  index_from_rand self s = (Ok id, s') ->
  exists w w1 w2, fst (random_u32 w) = id
    /\ fst (requestIsFulfilled (RequestId.u256 (caller self) id) w1) = inr false
    /\ fst (requestIsLocked (RequestId.u256 (caller self) id) w2) = inr false.
Proof.
  unfold index_from_rand. generalize 10%nat. intros n. revert s.
  induction n as [|n IH]; intros s Hr; [done|]. cbn [index_attempts] in Hr.
  bind_step Hr i s1 E1. bind_step Hr status s2 E2. case_bool_decide as Hs; [|by apply IH in Hr].
  injection Hr as <- <-. subst status. apply get_status_unknown in E2 as (w1 & w2 & ? & ?).
  unfold on_node in E1. destruct (random_u32 (ms_world s)) as [a w] eqn:Er. injection E1 as <- <-.
  exists (ms_world s), w1, w2. by rewrite Er.
Qed.

(** A fulfillment whose transaction reverted is reported as done: the status of the
    receipt is not read. *)
Lemma reverted_fulfillment_ok `{Externals} `{ServiceAbi} {W} `{MarketNode W} self rc h
    (s : MsState W) tx :
  needs_price tx = false -> tx_root tx = None -> tx_withdraw tx = false ->
  (forall w, fst (send_call (CallReveal (RvFulfill (fulfillment_batches tx))) w) = inr h) ->
  (forall w, fst (wait_receipt h w) = Confirmed rc) ->
  tx_status rc = false ->
  exists s', fulfill self 1 tx s = Some (Ok tt, s').
Proof.
  intros Hp Hroot Hwd Hsend Hwait _. unfold fulfill, commit_if_priced. rewrite Hp.
  unfold mret, ste_ret. destruct (node_now_ms (ms_world s)) as [now w2]. cbn [reveal_loop].
  unfold reveal, _fulfill, send_reveal, send, get_receipt_with_retry. rewrite Hroot, Hp, Hwd.
  unfold mbind, ste_bind, mret, ste_ret. rewrite node_try_run, Hsend.
  unfold on_node, record, liftr. simpl.
  destruct (get_transaction_by_hash h _) as [a w3].
  specialize (Hwait (ms_world (mkMs w3 (ms_chain_id s) []))). simpl in *.
  destruct (wait_receipt h w3) as [a' w4]. simpl in Hwait. subst a'. simpl. eauto.
Qed.

(** ** A node for concrete runs

    The world is a clock in milliseconds.  Every transaction is sent and included in
    a block with a good status; a reveal with requests to price is refused before
    1200 ms have passed. *)

Module ToyNode.

Definition toy_externals : Externals := Market.toy_externals.

Definition abi : ServiceAbi := {|
  REQUEST_SUBMITTED_HASH := 1;
  PROVER_SLASHED_HASH := 2;
  decode_request_submitted := fun _ => Some (mkSubmitted 5 sample_request []);
  decode_prover_slashed := fun _ => None;
  hash_url := fun _ => [];
  hash_input := fun _ => [];
  hash_offer := fun _ => [];
  encode_fulfill := fun _ => [];
  decode_submit_request := fun _ => None;
  permit_signing_hash := fun _ _ => [];
  market_error_debug := fun e => match e with MError t => t | _ => ""%string end
|}.

Definition answer {A} (a : A) : st Z A := fun w => (a, w).

Definition toy_send (c : Call) : st Z (string + Z) := fun w =>
  match c with
  | CallReveal (RvPriceAndFulfill _ _) =>
      if w <? 1200 then (inl "MissingFulfillmentCommitment()"%string, w + 1) else (inr 7, w + 1)
  | _ => (inr 7, w + 1)
  end.

Definition receipt : TxReceipt :=
  mkTxReceipt 7 true (Some 100) [Monitor.mkLog 0 [1] [] None].

Definition node : MarketNode Z := {|
  node_now_ms := fun w => (w, w);
  node_sleep := fun ms w => (tt, w + Z.max 0 ms);
  node_chain_id := answer (inr 8453);
  requestIsLocked := fun _ => answer (inr false);
  requestIsFulfilled := fun _ => answer (inr false);
  requestIsSlashed := fun _ => answer (inr false);
  requestDeadline := fun _ => answer (inr 0);
  balanceOf := fun _ => answer (inr 3);
  balanceOfCollateral := fun _ => answer (inr 0);
  collateral_token := answer (inr 9);
  token_decimals := fun _ => answer (inr 18);
  node_block_number := answer (inr 100);
  node_latest_timestamp := answer (inr (Some 1));
  node_nonce := fun _ => answer (inr 4);
  random_u32 := answer 6;
  permit_nonces := fun _ _ => answer (inr 0);
  DOMAIN_SEPARATOR := fun _ => answer (inr []);
  send_call := toy_send;
  wait_receipt := fun _ => answer (Confirmed receipt);
  watch := fun _ => answer (inr 7);
  get_transaction_by_hash := fun _ => answer (inr None);
  get_transaction_receipt := fun _ => answer (inr (Some receipt));
  query_submitted := fun _ _ _ => answer (inr []);
  query_locked := fun _ _ _ => answer (inr []);
  query_fulfilled := fun _ _ _ => answer (inr []);
  query_delivered := fun _ _ _ => answer (inr []);
  query_slashed := fun _ _ _ => answer (inr [])
|}.

Lemma toy_send_mono c w : w <= snd (toy_send c w).
Proof.
  unfold toy_send. destruct c as [r| | | | | | | | | | | | | |]; simpl; try lia.
  destruct r; simpl; try lia. destruct (w <? 1200); simpl; lia.
Qed.

Definition toy_clock : @NodeClock Z node.
Proof.
  refine {| clock := (fun w => w) : Z -> Z |}; intros; cbn; try lia.
  apply toy_send_mono.
Defined.

Definition settings : ServiceSettings := service_new 11 12.

Definition tx : FulfillmentTx :=
  mkFulfillmentTx None [mkUnlocked sample_request []] [sample_request] [] [] 12 false.

Definition start : MsState Z := mkMs 0 0 [].

End ToyNode.

(** The commitment, then a reveal that is sent at the fourth attempt. *)
Lemma toy_run_done : exists s',
  @fulfill ToyNode.toy_externals ToyNode.abi Z ToyNode.node ToyNode.settings 31
    ToyNode.tx ToyNode.start = Some (Ok tt, s').
Proof. eexists. vm_compute. reflexivity. Qed.

Lemma fulfill_commits_first_witness :
  exists s' h rc rest,
    @fulfill ToyNode.toy_externals ToyNode.abi Z ToyNode.node ToyNode.settings 31
    ToyNode.tx ToyNode.start = Some (Ok tt, s')
    /\ ms_txs s'
       = [Sent (CallCommit (@keccak256 ToyNode.toy_externals [])) h; Included rc] ++ rest
    /\ rest <> [].
Proof.
  destruct toy_run_done as [s' E].
  pose proof (@fulfill_commits_first ToyNode.toy_externals ToyNode.abi Z ToyNode.node
    ToyNode.settings 31 ToyNode.tx ToyNode.start s' (Ok tt) E)
    as (commit & rest & Hl & _ & _ & Hc & Hr).
  destruct (Hr eq_refl) as (l & rv & h & rc & Hrest).
  assert (Hne : rest <> []) by (subst rest; destruct l; discriminate).
  destruct (Hc ltac:(discriminate) Hne) as (h' & rc' & Hcommit).
  exists s', h', rc', rest. subst commit. split_and!; [exact E|exact Hl|exact Hne].
Defined.

Lemma fulfill_terminates_witness :
  0 <= receipt_retry_interval_ms ToyNode.settings
  /\ exists r s', @fulfill ToyNode.toy_externals ToyNode.abi Z ToyNode.node ToyNode.settings 31
                    ToyNode.tx ToyNode.start = Some (r, s').
Proof.
  split; [discriminate|].
  apply (@fulfill_terminates ToyNode.toy_externals ToyNode.abi Z ToyNode.node ToyNode.toy_clock
           ToyNode.settings ToyNode.tx ToyNode.start). discriminate.
Defined.

Lemma submit_request_spec_witness :
  let signer := mkSigner Z 77 (fun _ => ToyNode.answer (inr [])) in
  fits 256 (maxPrice (offer sample_request))
  /\ let (r, s') := @submit_request ToyNode.toy_externals ToyNode.abi Z ToyNode.node
                      ToyNode.settings sample_request signer ToyNode.start in
     exists l, ms_txs s' = l /\ submit_outcome (H0 := ToyNode.abi) sample_request signer 1097 r l.
Proof.
  intros signer. split; [split; [discriminate|reflexivity]|].
  apply (@submit_request_spec ToyNode.toy_externals ToyNode.abi Z ToyNode.node ToyNode.settings
           sample_request signer ToyNode.start).
  - split; [discriminate|reflexivity].
  - intros a b [= <-]. discriminate.
Defined.
