(* ===== verification/EventQuery.v ===== *)
(** * EventQuery: searching the events of a request

    The searches of [BoundlessMarketService]
    ([crates/boundless-market/src/contracts/boundless_market.rs]): from an upper
    block backwards through ranges of blocks, for the first event or for all of them,
    with the retries around it and the functions that use it.

    The node answers the events of one kind and request in a range of blocks, oldest
    first.  The block numbers are [u64]: the product that bounds the search and the
    difference of the bounds wrap. *)

From S2P Require Import Prelude Market Auction OrderPricing FulfillTx Pipeline Monitor MarketService.

Local Open Scope Z_scope.

(** ** Data *)

Record RequestSubmittedEventData := mkSubmittedData {
  sd_request : ProofRequest;
  client_signature : bytes;
  sd_block_number : Z;
  sd_tx_hash : Z
}.

(** [RequestLockedEventData], [RequestFulfilledEventData], [ProofDeliveredEventData]
    and [ProverSlashedEventData]. *)
Record EventData (E : Type) := mkEventData {
  event : E;
  ed_block_number : Z;
  ed_tx_hash : Z
}.
Arguments mkEventData {E} _ _ _.
Arguments event {E} _.
Arguments ed_block_number {E} _.
Arguments ed_tx_hash {E} _.

Definition event_data {E} (x : E * LogMeta) : EventData E :=
  mkEventData (fst x) (default 0 (lm_block_number (snd x)))
    (default 0 (lm_transaction_hash (snd x))).

Section EventQuery.
Context `{Externals} `{ServiceAbi} {W : Type} `{MarketNode W}.
Variable self : ServiceSettings.

Abbreviation ms A := (ste (MsState W) MarketError A).

(** ** Retries *)

(** The loop [for attempt in 0..=retries], with the [unwrap] behind it. *)
Fixpoint query_attempts {A} (retries : nat) (retry_delay_ms : option Z) (query_fn : ms A)
    (attempts : list nat) (last_error : option MarketError) : ms A :=
  match attempts with
  | [] => match last_error with Some e => throw e | None => liftr Panic end
  | attempt :: attempts =>
      r ← catch query_fn;
      match r with
      | inr result => mret result
      | inl err =>
          if (attempt <? retries)%nat
          then
            _ ← match retry_delay_ms with
                | Some delay_ms => on_node (node_sleep delay_ms)
                | None => mret tt
                end;
            query_attempts retries retry_delay_ms query_fn attempts (Some err)
          else query_attempts retries retry_delay_ms query_fn attempts (Some err)
      end
  end.

Definition retry_query {A} (config : EventQueryConfig) (query_fn : ms A) : ms A :=
  match retry_config config with
  | None => query_fn
  | Some rc =>
      if retries rc =? 0 then query_fn else
      query_attempts (Z.to_nat (retries rc)) (retry_delay_ms rc) query_fn
        (seq 0 (S (Z.to_nat (retries rc)))) None
  end.

(** ** The search *)

Definition get_latest_block_number : ms Z := node_try node_block_number.

Section Search.
Context {E : Type}.
(** the events of the request in a range of blocks *)
Variable query : Z -> Z -> st W (string + list (E * LogMeta)).

(** One range per iteration; [final_block_checked] is for the error. *)
Fixpoint search (block_range start_block : Z) (return_first_only : bool) (iterations : nat)
    (upper_block final_block_checked : Z) (all_events : list (E * LogMeta))
    : ms (list (E * LogMeta) * Z * bool) :=
  match iterations with
  | O => mret (all_events, final_block_checked, false)
  | S iterations =>
      if upper_block <=? start_block then mret (all_events, final_block_checked, false) else
      let lower_block := sat_sub upper_block block_range in
      logs ← node_try (query lower_block upper_block);
      match return_first_only, logs with
      | true, first :: _ => mret ([first], final_block_checked, true)
      | true, [] =>
          search block_range start_block return_first_only iterations (sat_sub lower_block 1)
            lower_block all_events
      | false, _ =>
          search block_range start_block return_first_only iterations (sat_sub lower_block 1)
            lower_block (all_events ++ logs)
      end
  end.

Definition query_events_backwards (config : EventQueryConfig) (request_id : Z)
    (lower_bound upper_bound : option Z) (error_fn : Z -> Z -> Z -> MarketError)
    (return_first_only : bool) : ms (list (E * LogMeta)) :=
  latest ← get_latest_block_number;
  let upper_block := default latest upper_bound in
  let start_block :=
    default (sat_sub upper_block (wmul 64 (block_range config) (max_iterations config)))
      lower_bound in
  iterations ←
    match lower_bound with
    | Some _ =>
        q ← liftr (checked_quot (wsub 64 upper_block start_block) (block_range config));
        mret (sat_add 64 q 1)
    | None => mret (max_iterations config)
    end;
  '(events, final_block_checked, found) ←
    search (block_range config) start_block return_first_only (Z.to_nat iterations)
      upper_block upper_block [];
  if (found : bool) then mret events else
  match events with
  | [] =>
      if return_first_only then throw (error_fn request_id upper_block final_block_checked)
      else mret events
  | _ => mret events
  end.

Definition query_event_backwards (config : EventQueryConfig) (request_id : Z)
    (lower_bound upper_bound : option Z) (error_fn : Z -> Z -> Z -> MarketError)
    : ms (E * LogMeta) :=
  events ← query_events_backwards config request_id lower_bound upper_bound error_fn true;
  liftr (ok_or (RequestNotFound request_id 0 0) (head events)).

End Search.

(** ** The events of a request *)

Definition query_fulfilled_event (request_id : Z) (lower_bound upper_bound : option Z)
    : ms ProofDelivered :=
  retry_query (event_query_config self)
    (x ← query_event_backwards (query_delivered request_id) (event_query_config self) request_id
           lower_bound upper_bound ProofNotFound;
     mret (fst x)).

Definition query_request_submitted_event (request_id : Z) (lower_bound upper_bound : option Z)
    : ms RequestSubmittedEventData :=
  retry_query (event_query_config self)
    (x ← query_event_backwards (query_submitted request_id) (event_query_config self) request_id
           lower_bound upper_bound RequestNotFound;
     mret (mkSubmittedData (rs_request (fst x)) (rs_clientSignature (fst x))
             (default 0 (lm_block_number (snd x))) (default 0 (lm_transaction_hash (snd x))))).

Definition query_request_locked_event (request_id : Z) (lower_bound upper_bound : option Z)
    : ms (EventData RequestLocked) :=
  retry_query (event_query_config self)
    (x ← query_event_backwards (query_locked request_id) (event_query_config self) request_id
           lower_bound upper_bound RequestNotFound;
     mret (event_data x)).

Definition query_request_fulfilled_event (request_id : Z) (lower_bound upper_bound : option Z)
    : ms (EventData RequestFulfilled) :=
  retry_query (event_query_config self)
    (x ← query_event_backwards (query_fulfilled request_id) (event_query_config self) request_id
           lower_bound upper_bound RequestNotFound;
     mret (event_data x)).

(** Its error function is unreachable: it is only used by the search for the first. *)
Definition query_all_proof_delivered_events (request_id : Z) (lower_bound upper_bound : option Z)
    : ms (list (EventData ProofDelivered)) :=
  retry_query (event_query_config self)
    (events ← query_events_backwards (query_delivered request_id) (event_query_config self)
                request_id lower_bound upper_bound RequestNotFound false;
     mret (map event_data events)).

Definition query_prover_slashed_event (request_id : Z) (lower_bound upper_bound : option Z)
    : ms (EventData ProverSlashed) :=
  retry_query (event_query_config self)
    (x ← query_event_backwards (query_slashed request_id) (event_query_config self) request_id
           lower_bound upper_bound RequestNotFound;
     mret (event_data x)).

Definition when_fulfilled {A} (request_id : Z) (lower_bound upper_bound : option Z)
    (f : ProofDelivered -> A) : ms A :=
  status ← get_status request_id None;
  match status with
  | StExpired => throw (RequestHasExpired request_id)
  | StFulfilled =>
      event ← query_fulfilled_event request_id lower_bound upper_bound;
      mret (f event)
  | _ => throw (RequestNotFulfilled request_id)
  end.

Definition get_request_fulfillment (request_id : Z) (lower_bound upper_bound : option Z)
    : ms Fulfillment :=
  when_fulfilled request_id lower_bound upper_bound pd_fulfillment.

Definition get_request_fulfillment_prover (request_id : Z) (lower_bound upper_bound : option Z)
    : ms Z :=
  when_fulfilled request_id lower_bound upper_bound pd_prover.

(** From the input of the transaction if its hash is known, else from the event. *)
Definition get_submitted_request (request_id : Z) (tx_hash : option Z)
    (lower_bound upper_bound : option Z) : ms (ProofRequest * bytes) :=
  match tx_hash with
  | Some tx_hash =>
      r ← node_try (get_transaction_by_hash tx_hash);
      inputs ← liftr (ok_or (MError "Transaction not found") r);
      liftr (ok_or (MError "Failed to decode input") (decode_submit_request inputs))
  | None =>
      data ← query_request_submitted_event request_id lower_bound upper_bound;
      mret (sd_request data, client_signature data)
  end.

(** Polls until the request is fulfilled or expired; [None] when the fuel does not
    suffice. *)
Fixpoint wait_for_request_fulfillment (fuel : nat) (request_id retry_interval expires_at : Z)
    (s : MsState W) : option (result MarketError Fulfillment * MsState W) :=
  match fuel with
  | O => None
  | S fuel =>
      match get_status request_id (Some expires_at) s with
      | (Ok StExpired, s1) => Some (Err (RequestHasExpired request_id), s1)
      | (Ok StFulfilled, s1) =>
          Some ((event ← query_fulfilled_event request_id None None;
                 mret (pd_fulfillment event)) s1)
      | (Ok _, s1) =>
          let (_, w) := node_sleep retry_interval (ms_world s1) in
          wait_for_request_fulfillment fuel request_id retry_interval expires_at
            (mkMs w (ms_chain_id s1) (ms_txs s1))
      | (Err e, s1) => Some (Err e, s1)
      | (Panic, s1) => Some (Panic, s1)
      end
  end.

End EventQuery.

(** * Theorems *)

(** ** The search covers its range *)

Section Complete.
Context {W : Type} `{MarketNode W} {E : Type}.
Variables (chain : list (E * LogMeta)) (block : E * LogMeta -> Z).
Variable query : Z -> Z -> st W (string + list (E * LogMeta)).

(** The events of the chain between two blocks. *)
Definition between (lo hi : Z) : list (E * LogMeta) :=
  filter (fun e => lo <= block e <= hi) chain.

(** A node that answers from the chain. *)
Hypothesis query_between : forall lo hi w, query lo hi w = (inr (between lo hi), w).

Lemma between_split lo mid hi :
  lo <= mid <= hi + 1 -> between mid hi ++ between lo (mid - 1) ≡ₚ between lo hi.
Proof.
  intros Hm. unfold between. induction chain as [|e l IH]; [done|].
  rewrite !filter_cons. repeat case_decide; try lia; simpl.
  - by rewrite IH.
  - by rewrite <- Permutation_middle, IH.
  - done.
Qed.

Lemma between_empty lo hi : hi < lo -> between lo hi = [].
Proof.
  intros Hlt. unfold between. induction chain as [|e l IH]; [done|].
  rewrite filter_cons_False by lia. done.
Qed.

Lemma query_run lo hi (s : MsState W) : node_try (query lo hi) s = (Ok (between lo hi), s).
Proof. rewrite node_try_run, query_between. by destruct s. Qed.

Lemma elem_of_between lo hi e : e ∈ between lo hi <-> (lo <= block e <= hi) /\ e ∈ chain.
Proof. unfold between. by rewrite list_elem_of_filter. Qed.

Variables (range start : Z).
Hypothesis range_pos : 0 < range.
Hypothesis start_nonneg : 0 <= start.

(** The search is over once it has reached its start. *)
Lemma search_stops n first upper fin acc (s : MsState W) :
  upper <= start ->
  search query range start first n upper fin acc s = (Ok (acc, fin, false), s).
Proof. intros Hle. destruct n; cbn [search]; [done|]. by rewrite (proj2 (Z.leb_le _ _)). Qed.

Lemma search_all n upper fin acc (s : MsState W) :
  0 <= upper -> upper - start <= Z.of_nat n * (range + 1) ->
  exists low fin' found,
    search query range start false n upper fin acc s = (Ok (acc ++ found, fin', false), s)
    /\ found ≡ₚ between low upper /\ low <= upper + 1 /\ low <= start + 1
    /\ Z.min upper (start - range) < low.
Proof.
  revert upper fin acc. induction n as [|n IH]; intros upper fin acc Hu Hn;
    (destruct (Z.leb_spec upper start) as [Hle|Hgt];
      [exists (upper + 1), fin, []; rewrite search_stops, app_nil_r, between_empty by lia;
       split_and!; (done || lia)|]); [lia|].
  cbn [search]. rewrite (proj2 (Z.leb_gt _ _)) by done.
  unfold mbind at 1, ste_bind at 1. rewrite query_run.
  set (lower := sat_sub upper range).
  assert (Hlow : lower = Z.max 0 (upper - range)) by done.
  destruct (Z.leb_spec lower 0) as [Hz|Hz].
  - exists 0, lower, (between lower upper).
    rewrite search_stops by (unfold sat_sub; lia).
    split_and!; [done|by replace 0 with lower by lia|lia..].
  - assert (Hnext : sat_sub lower 1 = lower - 1) by (unfold sat_sub; lia).
    destruct (IH (sat_sub lower 1) lower (acc ++ between lower upper))
      as (low & fin' & found & Hs & Hp & Hl & Hl1 & Hl2); [lia..|].
    rewrite Hnext in *. exists low, fin', (between lower upper ++ found).
    rewrite app_assoc. split_and!; [exact Hs| |lia..].
    rewrite Hp. apply between_split. lia.
Qed.

(** The first event of the newest range that has one. *)
Lemma search_first n upper fin (s : MsState W) :
  0 <= upper -> upper - start <= Z.of_nat n * (range + 1) ->
  exists evs fin' found,
    search query range start true n upper fin [] s = (Ok (evs, fin', found), s)
    /\ match evs with
       | [] => found = false /\ between (start + 1) upper = []
       | [e] => found = true /\ e ∈ chain /\ start - range < block e <= upper
                /\ forall e', e' ∈ between (start + 1) upper -> block e' <= block e + range
       | _ => False
       end.
Proof.
  revert upper fin. induction n as [|n IH]; intros upper fin Hu Hn;
    (destruct (Z.leb_spec upper start) as [Hle|Hgt];
      [exists [], fin, false; rewrite search_stops by done; split_and!;
       [done|done|apply between_empty; lia]|]); [lia|].
  cbn [search]. rewrite (proj2 (Z.leb_gt _ _)) by done.
  unfold mbind at 1, ste_bind at 1. rewrite query_run.
  set (lower := sat_sub upper range).
  assert (Hlow : lower = Z.max 0 (upper - range)) by done.
  destruct (between lower upper) as [|e logs] eqn:Eb.
  - destruct (IH (sat_sub lower 1) lower) as (evs & fin' & found & Hs & Hev);
      [unfold sat_sub; lia..|].
    assert (Hsub : forall e', e' ∈ between (start + 1) upper ->
                              e' ∈ between (start + 1) (sat_sub lower 1)).
    { intros e' [Hb Hin]%elem_of_between. apply elem_of_between. split; [|done].
      destruct (Z.le_gt_cases lower (block e')); [|unfold sat_sub; lia].
      exfalso. assert (Hc : e' ∈ between lower upper) by (apply elem_of_between; split; [lia|done]).
      rewrite Eb in Hc. by apply elem_of_nil in Hc. }
    exists evs, fin', found. split; [exact Hs|].
    destruct evs as [|e1 [|]]; [|split_and!; try apply Hev|done].
    + split; [apply Hev|]. destruct (between (start + 1) upper) as [|e' l] eqn:Ec; [done|].
      specialize (Hsub e' ltac:(left)). rewrite (proj2 Hev) in Hsub. by apply elem_of_nil in Hsub.
    + destruct Hev as (_ & _ & Hb & _). unfold sat_sub in Hb. lia.
    + intros e' He'%Hsub. by apply Hev.
  - assert (Hin : e ∈ between lower upper) by (rewrite Eb; left).
    apply elem_of_between in Hin as [Hb Hin].
    exists [e], fin, true. split_and!; [done|done|done|lia|lia|].
    intros e' [Hb' _]%elem_of_between. lia.
Qed.

End Complete.

(** ** The number of iterations suffices *)

Lemma iterations_suffice d range :
  0 < range -> fits 64 d ->
  d <= Z.of_nat (Z.to_nat (sat_add 64 (d / range) 1)) * (range + 1).
Proof.
  intros Hr [Hd Hd64]. unfold sat_add, umax.
  pose proof (Z.div_mod d range ltac:(lia)) as Hdm.
  pose proof (Z.mod_pos_bound d range Hr). pose proof (Z.div_pos d range Hd Hr).
  rewrite Z2Nat.id by lia. destruct (Z.le_gt_cases (d / range + 1) (2 ^ 64 - 1)).
  - rewrite Z.min_r by lia. nia.
  - rewrite Z.min_l by lia. nia.
Qed.

(** The bounds of a search, as the code computes them. *)
Definition search_upper (latest : Z) (upper_bound : option Z) : Z := default latest upper_bound.
Definition search_start (config : EventQueryConfig) (lower_bound : option Z) (upper : Z) : Z :=
  default (sat_sub upper (block_range config * max_iterations config)) lower_bound.

Section Covers.
Context {W : Type} `{MarketNode W} {E : Type}.
Variables (chain : list (E * LogMeta)) (block : E * LogMeta -> Z).
Variable query : Z -> Z -> st W (string + list (E * LogMeta)).
Variables (latest : Z) (config : EventQueryConfig) (request_id : Z)
  (lower_bound upper_bound : option Z) (error_fn : Z -> Z -> Z -> MarketError).

Definition search_iterations : result MarketError Z :=
  match lower_bound with
  | Some start =>
      q ← checked_quot (wsub 64 (search_upper latest upper_bound) start) (block_range config);
      Ok (sat_add 64 q 1)
  | None => Ok (max_iterations config)
  end.

Hypothesis latest_answer : forall w, node_block_number w = (inr latest, w).
Hypothesis range_pos : 0 < block_range config.
Hypothesis iterations_nonneg : 0 <= max_iterations config.
Hypothesis product_fits : fits 64 (block_range config * max_iterations config).
Hypothesis latest_fits : fits 64 latest.
Hypothesis lower_fits : forall b, lower_bound = Some b -> fits 64 b.
Hypothesis upper_fits : forall b, upper_bound = Some b -> fits 64 b.

Let upper := search_upper latest upper_bound.
Let start := search_start config lower_bound upper.

Lemma search_upper_fits : fits 64 upper.
Proof. unfold upper, search_upper. destruct upper_bound as [b|]; [by apply upper_fits|done]. Qed.

Lemma search_start_nonneg : 0 <= start.
Proof.
  unfold start, search_start. destruct lower_bound as [b|]; [by apply (lower_fits b)|].
  apply sat_sub_nonneg.
Qed.

Lemma search_iterations_Ok :
  exists n, search_iterations = Ok n
    /\ upper - start <= Z.of_nat (Z.to_nat n) * (block_range config + 1).
Proof.
  pose proof search_upper_fits as [Hu1 Hu2]. unfold search_iterations, start, search_start.
  fold upper. destruct lower_bound as [b|]; simpl.
  - destruct (lower_fits b eq_refl) as [Hb1 Hb2]. rewrite checked_quot_pos by done. simpl.
    eexists. split; [done|]. destruct (Z.le_gt_cases b upper).
    + rewrite wsub_small by fits_lia. apply iterations_suffice; [done|fits_lia].
    + lia.
  - eexists. split; [done|]. unfold sat_sub. nia.
Qed.

(** The search with its bounds computed. *)
Lemma query_events_run first (s : MsState W) :
  query_events_backwards query config request_id lower_bound upper_bound error_fn first s
  = (n ← liftr search_iterations;
     '(events, final_block_checked, found) ←
       search query (block_range config) start first (Z.to_nat n) upper upper [];
     if (found : bool) then mret events else
     match events with
     | [] => if first then throw (error_fn request_id upper final_block_checked) else mret events
     | _ => mret events
     end) s.
Proof.
  unfold query_events_backwards, get_latest_block_number.
  unfold mbind at 1, ste_bind at 1. rewrite node_try_run, latest_answer. simpl fst. cbn iota.
  replace (mkMs _ _ _) with s by (by destruct s).
  unfold search_iterations. subst start. unfold search_start. fold (search_upper latest upper_bound).
  fold upper. unfold wmul. rewrite wrap_small by done.
  destruct lower_bound as [b|]; [|done]. simpl.
  unfold checked_quot. by destruct (_ =? 0).
Qed.

End Covers.

(** A search for the events of a request covers the range it is asked for: over a
    node that answers from a fixed chain, with bounds of 64 bits and a positive
    range, the search for all events answers every event above the start and up to
    the upper block exactly once (and possibly some at or below the start, less than a range
    away), and the search for one event fails only if there is none above the start,
    and answers otherwise an event of the newest range that has any.  The start is
    the lower bound or, without one, [block_range * max_iterations] blocks below the
    upper block, which is the given one or the latest. *)
Theorem query_events_backwards_covers {W} `{MarketNode W} {E}
    (chain : list (E * LogMeta)) block query latest config request_id lower_bound upper_bound
    error_fn (s : MsState W) :
  (forall lo hi w, query lo hi w = (inr (between chain block lo hi), w)) ->
  (forall w, node_block_number w = (inr latest, w)) ->
  0 < block_range config -> 0 <= max_iterations config ->
  fits 64 (block_range config * max_iterations config) -> fits 64 latest ->
  (forall b, lower_bound = Some b -> fits 64 b) -> (forall b, upper_bound = Some b -> fits 64 b) ->
  let upper := search_upper latest upper_bound in
  let start := search_start config lower_bound upper in
  (exists low evs,
     query_events_backwards query config request_id lower_bound upper_bound error_fn false s
     = (Ok evs, s)
     /\ evs ≡ₚ between chain block low upper
     /\ low <= start + 1 /\ Z.min upper (start - block_range config) < low)
  /\ (exists r,
     query_events_backwards query config request_id lower_bound upper_bound error_fn true s
     = (r, s)
     /\ match r with
        | Ok [e] =>
            e ∈ chain /\ start - block_range config < block e <= upper
            /\ forall e', e' ∈ between chain block (start + 1) upper ->
                 block e' <= block e + block_range config
        | Err e =>
            between chain block (start + 1) upper = [] /\ exists last, e = error_fn request_id upper last
        | _ => False
        end).
Proof.
  intros Hq Hl Hr Hi Hp Hlf Hlb Hub upper start.
  destruct (search_iterations_Ok latest config lower_bound upper_bound) as (n & Hn & Hle);
    [done..|].
  pose proof (search_start_nonneg latest config lower_bound upper_bound Hlb) as Hs.
  assert (Hu : 0 <= upper) by (unfold upper; by eapply search_upper_fits).
  rewrite !(query_events_run query latest) by done. rewrite Hn. fold upper start.
  split.
  - destruct (search_all chain block query Hq _ start Hr Hs (Z.to_nat n) upper upper [] s Hu Hle)
      as (low & fin & found & Hsearch & Hperm & _ & Hl1 & Hl2).
    exists low, found. unfold mbind, ste_bind, liftr. rewrite Hsearch.
    split; [by destruct found|]. done.
  - destruct (search_first chain block query Hq _ start Hr Hs (Z.to_nat n) upper upper s Hu Hle)
      as (evs & fin & found & Hsearch & Hev).
    unfold mbind, ste_bind, liftr. rewrite Hsearch.
    destruct evs as [|e [|]]; [| |done].
    + destruct Hev as [-> Hnone]. eexists. split; [done|]. simpl. eauto.
    + destruct Hev as (-> & Hev). eexists. split; [done|]. exact Hev.
Qed.

(** A lower bound is not always searched: the ranges step by one more than
    [block_range], and the search is over when it has reached its start. *)
Lemma lower_bound_block_missed :
  exists (chain : list (unit * LogMeta)),
    let block := fun e => default 0 (lm_block_number (snd e)) in
    let config := mkEventQuery 10 100 None in
    between chain block 5 16 <> []
    /\ fst (@query_events_backwards Z ToyNode.node unit
              (fun lo hi w => (inr (between chain block lo hi), w)) config 1
              (Some 5) (Some 16) RequestNotFound false ToyNode.start) = Ok [].
Proof. exists [(tt, mkLogMeta (Some 5) None)]. split; [discriminate|vm_compute; reflexivity]. Qed.

Lemma query_events_backwards_covers_witness :
  let chain := [(tt, mkLogMeta (Some 40) None); (tt, mkLogMeta (Some 7) None)] in
  let block := fun e : unit * LogMeta => default 0 (lm_block_number (snd e)) in
  exists evs,
    fst (@query_events_backwards Z ToyNode.node unit
           (fun lo hi w => (inr (between chain block lo hi), w)) (mkEventQuery 10 100 None) 1
           (Some 5) None RequestNotFound false ToyNode.start) = Ok evs
    /\ exists low, low <= 6 /\ evs ≡ₚ between chain block low 100.
Proof.
  intros chain block.
  destruct (@query_events_backwards_covers Z ToyNode.node unit
    chain block (fun lo hi w => (inr (between chain block lo hi), w)) 100
    (mkEventQuery 10 100 None) 1 (Some 5) None RequestNotFound ToyNode.start)
    as [(low & evs & Hrun & Hp & Hlow & _) _].
  - intros lo hi w. reflexivity.
  - intros w. reflexivity.
  - reflexivity.
  - discriminate.
  - split; [discriminate|reflexivity].
  - split; [discriminate|reflexivity].
  - intros b [= <-]. split; [discriminate|reflexivity].
  - intros b [=].
  - exists evs. rewrite Hrun. split; [reflexivity|]. exists low. split; [exact Hlow|exact Hp].
Defined.
