(* ===== verification/Processor.v ===== *)
(** * Processor: proving the orders, and giving up on the expired ones

    [crates/broker/src/order_processor/service.rs] with its [error.rs], the
    commands of [crates/boundless-backend/src/types.rs] it sends, and the reaper
    of [crates/broker/src/utils/reaper.rs].

    The [select!] of [monitor_proof_with_timeout] races the backend, the expiry
    of the request and the broadcast of fulfillments.  Which branch is ready
    next is the parameter [schedule]: a list of ticks, one per turn of the
    loop.  A schedule that ends before the loop returns stands for a future
    that is never ready again, and has the value [Panic], as a task that
    unwinds: nothing after it runs.  [LiveBackend] states the fairness under
    which that does not happen.  Telemetry is not modelled. *)

From S2P Require Import Prelude Market OrderPricing Db Committer Pipeline.

Local Open Scope Z_scope.

(** ** Errors *)

Inductive ProvingErr :=
| ProvingFailed (e : string)
| CancelFulfilledByAnother
| CancelExpired
| CompletedFulfilledByAnother
| CompletedExpired
| UnexpectedError (e : string).

Definition proving_code (e : ProvingErr) : string :=
  match e with
  | ProvingFailed _ => "[B-PRO-501]"
  | CancelFulfilledByAnother => "[B-PRO-502]"
  | CancelExpired => "[B-PRO-503]"
  | CompletedFulfilledByAnother => "[B-PRO-505]"
  | CompletedExpired => "[B-PRO-506]"
  | UnexpectedError _ => "[B-PRO-500]"
  end.

Definition show_proving_err (e : ProvingErr) : string :=
  proving_code e +:+
  match e with
  | ProvingFailed e => " Proving failed after retries: " +:+ e
  | CancelFulfilledByAnother =>
      " Cancelled: secondary fulfillment order was fulfilled by another prover"
  | CancelExpired => " Cancelled: order expired during proving"
  | CompletedFulfilledByAnother =>
      " Proof completed but secondary fulfillment order was fulfilled by another prover"
  | CompletedExpired => " Proof completed but order expired"
  | UnexpectedError e => " Unexpected error: " +:+ e
  end.

Definition completion_outcome (e : ProvingErr) : CompletionOutcome :=
  match e with
  | ProvingFailed _ | UnexpectedError _ => CoProvingFailed
  | CancelExpired | CompletedExpired => CoExpiredWhileProving
  | CancelFulfilledByAnother | CompletedFulfilledByAnother => CoCancelled
  end.

(** The failure that an error is reported as. *)
Definition failure_of (e : ProvingErr) : BrokerFailure :=
  mkFailure (proving_code e) (show_proving_err e) (completion_outcome e).

(** An error with its context, as [{:#}] prints it. *)
Definition context (c e : string) : string := c +:+ ": " +:+ e.

(** ** Commands and answers *)

Record ProcessOrder := mkProcessOrder {
  po_order_id : string;
  po_request : ProofRequest;
  po_image_id : option string;
  po_input_id : option string;
  po_backend_state : option bytes
}.

Record CancelOrder := mkCancelOrder {
  co_order_id : string;
  co_selector : Z;
  co_backend_state : option bytes;
  is_proving : bool
}.

Inductive SubmissionPath := Batched | Direct.

Record ProcessedOrder := mkProcessed {
  pr_backend_id : string;
  pr_order_id : string;
  submission_path : SubmissionPath;
  compressed : bool
}.

Inductive OrderProcessProgress :=
| InProgress (state : bytes)
| Completed (p : ProcessedOrder).

(** A branch of the [select!] that is ready: the backend answered, the timeout
    fired, or the channel delivered a change ([None] when it lagged or is
    closed). *)
Inductive Tick :=
| BackendReady
| TimeoutFired
| StateReceived (recv : option OrderStateChange).

Class ProcessorEnv (X : Type) := {
  process_order : ProcessOrder -> st X (string + OrderProcessProgress);
  cancel_order : CancelOrder -> st X (string + unit);
  is_fulfilled : Z -> st X (string + bool);
  schedule : st X (list Tick)
}.

Definition process_order_cmd `{Externals} {E} (o : Order) : result E ProcessOrder :=
  order_id ← id_of o;
  mret (mkProcessOrder order_id (o_request o) (o_image_id o) (o_input_id o) (backend_state o)).

Definition cancel_order_cmd `{Externals} {E} (o : Order) : result E CancelOrder :=
  order_id ← id_of o;
  mret (mkCancelOrder order_id (selector (requirements (o_request o))) (backend_state o)
          (bool_decide (status o = Proving))).

(** [order.backend_state = Some(state)], on the copy in memory. *)
Definition with_backend_state (s : bytes) (o : Order) : Order :=
  set_backend_state s (updated_at o) o.

Section Processor.
Context `{Externals} `{SqlEngine} {X : Type} `{BrokerEnv X} `{ProcessorEnv X}.
Variable chain_id : Z.

Notation W := (World X).

Definition ask_backend {E} (f : string -> E) (cmd : ProcessOrder)
    : ste W E OrderProcessProgress :=
  answer ← lift (env (process_order cmd));
  liftr match answer with inr p => Ok p | inl e => Err (f e) end.

(** One turn of the loop of [monitor_proof_internal]: the order to go on with,
    or the finished proof. *)
Definition monitor_proof_internal (order : Order) : ste W string (Order + ProcessedOrder) :=
  cmd ← liftr (process_order_cmd order);
  progress ← ask_backend (context "Failed to process order proof") cmd;
  match progress with
  | InProgress state =>
      order_id ← liftr (id_of order);
      _ ← with_err
            (fun e => context ("Failed to persist backend state for " +:+ order_id)
                        (db_error_text e))
            (db_call (fun now => set_order_backend_state now order_id state));
      mret (inl (with_backend_state state order))
  | Completed processed => mret (inr processed)
  end.

(** Whether an external fulfillment leaves nothing to do for this order. *)
Definition is_not_actionable (order : Order) : st W bool :=
  match o_fulfillment_type order with
  | FulfillAfterLockExpire => mret true
  | LockAndFulfill =>
      now ← env now_timestamp;
      mret (lock_expires_at (o_request order) <=? now)
  | FulfillWithoutLocking => mret true
  end.

(** The [select!] loop.  [order] is the monitored order, [task] the copy that
    the pinned monitor task has advanced. *)
Fixpoint monitor_loop (order_id : string) (order task : Order) (should_cancel : bool)
    (ticks : list Tick) (not_actionable_variant : option ProvingErr)
    : ste W ProvingErr ProcessedOrder :=
  match ticks with
  | [] => fun w => (Panic, w)
  | BackendReady :: ticks =>
      turn ← with_err
               (fun e => ProvingFailed
                  (context ("Monitoring proof failed for order " +:+ order_id) e))
               (monitor_proof_internal task);
      match turn with
      | inl task => monitor_loop order_id order task should_cancel ticks not_actionable_variant
      | inr processed =>
          match not_actionable_variant with
          | Some variant => throw variant
          | None => mret processed
          end
      end
  | TimeoutFired :: ticks =>
      if should_cancel then throw CancelExpired
      else monitor_loop order_id order task should_cancel ticks (Some CompletedExpired)
  | StateReceived recv :: ticks =>
      let continue := monitor_loop order_id order task should_cancel ticks in
      match recv with
      | Some sc =>
          if negb (sc_chain_id sc =? chain_id) then continue not_actionable_variant else
          match sc with
          | ScFulfilled fulfilled_request_id _ =>
              if fulfilled_request_id =? reqId (o_request order) then
                not_actionable ← lift (is_not_actionable order);
                if not_actionable : bool then
                  if should_cancel then throw CancelFulfilledByAnother
                  else continue (Some CompletedFulfilledByAnother)
                else continue not_actionable_variant
              else continue not_actionable_variant
          | ScLocked _ _ _ => continue not_actionable_variant
          end
      | None => continue not_actionable_variant
      end
  end.

(** Whether the request was fulfilled before monitoring started; asked when
    another prover may fulfill it. *)
Definition already_fulfilled (order : Order) : ste W ProvingErr bool :=
  relevant ←
    match o_fulfillment_type order with
    | FulfillAfterLockExpire => mret true
    | _ =>
        expire ← liftr (unwrap (o_expire_timestamp order));
        now ← lift (env now_timestamp);
        mret (expire <? now)
    end;
  if relevant : bool then
    answer ← catch (db_call (fun _ => is_request_fulfilled (reqId (o_request order))));
    mret match answer with inr b => b | inl _ => false end
  else mret false.

Definition monitor_proof_with_timeout (order : Order) : ste W ProvingErr ProcessedOrder :=
  order_id ← liftr (id_of order);
  _ ← liftr (ok_or (UnexpectedError "Order should have backend state before monitoring")
               (backend_state order));
  cfg ← lift (env lock_all);
  let should_cancel := match cfg with Some c => cancel_proving_expired_orders c
                       | None => false end in
  _ ← lift (env now_timestamp);
  fulfilled ← already_fulfilled order;
  if fulfilled && should_cancel then throw CancelFulfilledByAnother else
  ticks ← lift (env schedule);
  monitor_loop order_id order order should_cancel ticks
    (if fulfilled : bool then Some CompletedFulfilledByAnother else None).

(** The closure retried before monitoring: the backend must start a session. *)
Definition start_session (order_id : string) (order : Order) : ste W string bytes :=
  cmd ← liftr (process_order_cmd order);
  progress ← ask_backend id cmd;
  match progress with
  | InProgress state => mret state
  | Completed _ =>
      throw ("backend reported order " +:+ order_id
             +:+ " complete before proof start; expected InProgress")
  end.

Definition next_status (p : ProcessedOrder) : OrderStatus :=
  match submission_path p with Batched => ReadyForBatch | Direct => ReadyForSubmission end.

(** The last sanity check before an order goes on. *)
Definition missed_fulfillment (order : Order) : st W bool :=
  match o_fulfillment_type order with
  | FulfillAfterLockExpire =>
      answer ← env (is_fulfilled (reqId (o_request order)));
      mret match answer with inr b => b | inl _ => false end
  | _ => mret false
  end.

(** The [match result] at the end of [prove_and_update_db]. *)
Definition settle_order (order_id : string) (order : Order)
    (result : ProvingErr + ProcessedOrder) : ste W unit unit :=
  match result with
  | inr processed =>
      missed ← lift (missed_fulfillment order);
      if missed : bool
      then lift (handle_order_failure order_id (failure_of CancelFulfilledByAnother) chain_id)
      else
        _ ← catch (db_call (fun now =>
              set_order_batch_status now order_id (next_status processed)
                (pr_backend_id processed)));
        mret tt
  | inl ((CancelFulfilledByAnother | CancelExpired) as err) =>
      cmd ← liftr (cancel_order_cmd order);
      _ ← lift (env (cancel_order cmd));
      lift (handle_order_failure order_id (failure_of err) chain_id)
  | inl err => lift (handle_order_failure order_id (failure_of err) chain_id)
  end.

Definition prove_and_update_db (order : Order) : ste W unit unit :=
  order_id ← liftr (id_of order);
  cfg ← lift (env lock_all);
  let '(retry_count, retry_sleep_ms) :=
    match cfg with
    | Some c => (proof_retry_count c, proof_retry_sleep_ms c)
    | None => (default_proof_retry_count, default_proof_retry_sleep_ms)
    end in
  started ←
    match backend_state order with
    | Some _ => mret (Some order)
    | None =>
        session ← catch (retry_with_context retry_count retry_sleep_ms
                           (start_session order_id order));
        match session with
        | inr state =>
            _ ← catch (db_call (fun now => set_order_backend_state now order_id state));
            mret (Some (with_backend_state state order))
        | inl err =>
            _ ← lift (handle_order_failure order_id
                        (mkFailure (proving_code (ProvingFailed err))
                           "Proving session create failed"
                           (completion_outcome (ProvingFailed err))) chain_id);
            mret None
        end
    end;
  match started with
  | None => mret tt
  | Some order =>
      result ← catch (retry_with_context retry_count retry_sleep_ms
                        (monitor_proof_with_timeout order));
      settle_order order_id order result
  end.

(** The helper of the same name in [service.rs]. *)
Definition set_order_failure (order_id failure_reason : string) : st W unit :=
  _ ← attempt (db_call (fun now => Db.set_order_failure now order_id failure_reason));
  send_completion (mkCompletion order_id chain_id OutcomeProvingFailed).

(** The loop over the proofs of an earlier run. *)
Fixpoint resume_proofs (current : list Order) : ste W ProvingErr unit :=
  match current with
  | [] => mret tt
  | order :: current =>
      order_id ← liftr (id_of order);
      match backend_state order with
      | None =>
          _ ← lift (set_order_failure order_id "Proving status missing backend state");
          resume_proofs current
      | Some _ =>
          _ ← lift (emit (Spawned order));
          resume_proofs current
      end
  end.

Definition find_and_monitor_proofs : ste W ProvingErr unit :=
  current ← with_err
              (fun e => UnexpectedError (context "Failed to get active proofs" (db_error_text e)))
              (db_call (fun _ => get_active_proofs));
  resume_proofs current.

(** The loop of [run]: one reading of the cancellation token per turn. *)
Fixpoint run_turns (cancelled : list bool) : ste W (SupervisorErr ProvingErr) unit :=
  match cancelled with
  | [] | true :: _ => mret tt
  | false :: cancelled =>
      next ← with_err
               (fun e => Recover (UnexpectedError
                  (context "Failed to get proving order" (db_error_text e))))
               (db_call get_proving_order);
      _ ← match next with
          | Some order => lift (emit (Spawned order))
          | None => mret tt
          end;
      _ ← lift (env (sleep_ms 500));
      run_turns cancelled
  end.

Definition run (cancelled : list bool) : ste W (SupervisorErr ProvingErr) unit :=
  _ ← with_err Fault find_and_monitor_proofs;
  run_turns cancelled.

(** ** The reaper *)

Inductive ReaperError :=
| ReaperDbError (e : DbError)
| ReaperConfigReadErr.

Definition reaper_failure : BrokerFailure :=
  mkFailure "[B-REAP-003]" "Order expired in reaper" CoExpiredWhileProving.

Definition read_config {E} (e : E) : ste W E ServiceConfig :=
  cfg ← lift (env lock_all);
  liftr (ok_or e cfg).

(** The loop of [check_expired_orders]. *)
Fixpoint reap_orders (expired : list Order) : ste W ReaperError unit :=
  match expired with
  | [] => mret tt
  | order :: expired =>
      order_id ← liftr (id_of order);
      _ ← lift (handle_order_failure order_id reaper_failure chain_id);
      cfg ← read_config ReaperConfigReadErr;
      _ ← (if cancel_proving_expired_orders cfg then
             cmd ← liftr (cancel_order_cmd order);
             _ ← lift (env (cancel_order cmd));
             mret tt
           else mret tt);
      reap_orders expired
  end.

Definition check_expired_orders : ste W ReaperError unit :=
  cfg ← read_config ReaperConfigReadErr;
  expired ← with_err ReaperDbError
              (db_call (fun now => get_expired_committed_orders now (reaper_grace_period_secs cfg)));
  reap_orders expired.

(** The loop of the reaper: it waits first, and an error is only logged. *)
Fixpoint reaper_turns (interval : Z) (cancelled : list bool) : ste W ReaperError unit :=
  match cancelled with
  | [] | true :: _ => mret tt
  | false :: cancelled =>
      _ ← lift (env (sleep_ms (interval * 1000)));
      _ ← catch check_expired_orders;
      reaper_turns interval cancelled
  end.

Definition run_reaper_loop (cancelled : list bool) : ste W ReaperError unit :=
  cfg ← read_config ReaperConfigReadErr;
  reaper_turns (reaper_interval_secs cfg) cancelled.

End Processor.

(** ** Every order that is taken up is settled *)

Section Settled.
Context `{Externals} `{SqlEngine} {X : Type} `{BrokerEnv X} `{ProcessorEnv X}.

Fixpoint backend_ticks (ticks : list Tick) : nat :=
  match ticks with
  | [] => O
  | BackendReady :: ticks => S (backend_ticks ticks)
  | _ :: ticks => backend_ticks ticks
  end.

(** The fairness of the environment: the backend reports progress only
    [left_over] more times in a row, and the loop gets to hear it more often
    than that.  The retry count is unsigned. *)
Class LiveBackend := {
  left_over : X -> nat;
  left_over_turn x : (left_over (snd (db_turn x)) <= left_over x)%nat;
  left_over_clock x : (left_over (snd (now_timestamp x)) <= left_over x)%nat;
  left_over_progress cmd x state x' :
    process_order cmd x = (inr (InProgress state), x') -> (left_over x' < left_over x)%nat;
  schedule_fair x : (left_over (snd (schedule x)) < backend_ticks (fst (schedule x)))%nat;
  retry_count_unsigned x c : fst (lock_all x) = Some c -> 0 <= proof_retry_count c
}.

(** The backend finished a proof with [p]. *)
Definition reported (p : ProcessedOrder) : Prop :=
  exists cmd x x', process_order cmd x = (inr (Completed p), x').

Context (S : string -> Prop) `{!QuietDb S} `{!LiveBackend} (chain_id : Z).

Lemma id_of_backend_state {E} s o :
  id_of (E := E) (with_backend_state s o) = id_of o.
Proof. done. Qed.

(** One turn with the backend. *)
Lemma monitor_turn_spec id o w0 w task :
  S id -> id_of (E := unit) task = Ok id -> kept S id o w0 w ->
  twp (monitor_proof_internal task)
    (fun turn w' => kept S id o w0 w' /\
       match turn with
       | inl task' => id_of (E := unit) task' = Ok id
                      /\ (left_over (w_ext w') < left_over (w_ext w))%nat
       | inr p => reported p
       end)
    (fun _ w' => kept S id o w0 w') w.
Proof.
  intros HS Hid Hk. unfold monitor_proof_internal, process_order_cmd.
  assert (forall E, id_of (E := E) task = Ok id) as Hid'.
  { intros E. unfold id_of in *. by destruct (db_order_id task) as [?| |]; [injection Hid as ->| |]. }
  rewrite !Hid'. twp_step. eapply twp_liftr_ok; [done|].
  twp_step. unfold ask_backend. twp_step.
  set (cmd := mkProcessOrder _ _ _ _ _). apply twp_env. intros answer x1 Ep.
  pose proof (kept_ext S _ _ _ _ x1 Hk) as Hk1.
  destruct answer as [e|[state|p]]; [exact Hk1| |].
  - apply (twp_liftr_ok _ (InProgress state)); [done|]. twp_step.
    eapply twp_liftr_ok; [done|]. twp_step. apply twp_with_err.
    pose proof (kept_update S id (fun now => set_backend_state state now) o w0
      (mkWorld (w_db w) x1 (w_log w)) HS ltac:(intros; by repeat split) Hk1) as Hu.
    unfold set_order_backend_state.
    unfold twp in Hu |- *. unfold db_call in Hu |- *. simpl in Hu |- *.
    pose proof (left_over_turn x1) as Hl. pose proof (left_over_progress _ _ _ _ Ep) as Hp.
    destruct (db_turn x1) as [turn x2]. simpl in Hl. pose proof (quiet_fault (S := S) x1).
    destruct (t_fault turn); [done|]. destruct (update_order _ _ _) as [[] ?]; [|done..].
    simpl. destruct Hu as [Hu _]. split; [done|]. split; [exact (Hid' unit)|]. lia.
  - apply (twp_liftr_ok _ (Completed p)); [done|]. split; [done|]. by exists cmd, (w_ext w), x1.
Qed.

Lemma monitor_loop_spec id o w0 order should_cancel ticks task variant w :
  S id -> id_of (E := unit) task = Ok id -> kept S id o w0 w ->
  (left_over (w_ext w) < backend_ticks ticks)%nat ->
  twp (monitor_loop chain_id id order task should_cancel ticks variant)
    (fun p w' => kept S id o w0 w' /\ reported p) (fun _ w' => kept S id o w0 w') w.
Proof.
  intros HS. revert task variant w.
  induction ticks as [|t ticks IH]; intros task variant w Hid Hk Hleft; simpl.
  { simpl in Hleft. lia. }
  destruct t as [| |recv].
  - twp_step. apply twp_with_err.
    eapply twp_mono; [apply (monitor_turn_spec id o w0 w task HS Hid Hk)| |done].
    intros [task'|p] w' [Hk' Hturn].
    + destruct Hturn as [Hid' Hlt]. apply IH; [done|done|]. simpl in Hleft. lia.
    + by destruct variant.
  - destruct should_cancel; [done|]. by apply IH.
  - assert (forall v, twp (monitor_loop chain_id id order task should_cancel ticks v)
      (fun p w' => kept S id o w0 w' /\ reported p) (fun _ w' => kept S id o w0 w') w) as Hgo.
    { intros v. by apply IH. }
    destruct recv as [sc|]; [|done]. destruct (negb _); [done|].
    destruct sc as [|rid c]; [done|]. destruct (rid =? _); [|done].
    twp_step. apply twp_lift. unfold is_not_actionable.
    assert (forall (b : bool) w1, w_db w1 = w_db w -> w_log w1 = w_log w ->
      (left_over (w_ext w1) <= left_over (w_ext w))%nat ->
      twp (if b then if should_cancel then throw CancelFulfilledByAnother
                     else monitor_loop chain_id id order task should_cancel ticks
                            (Some CompletedFulfilledByAnother)
           else monitor_loop chain_id id order task should_cancel ticks variant)
        (fun p w' => kept S id o w0 w' /\ reported p) (fun _ w' => kept S id o w0 w') w1) as Hb.
    { intros b w1 Hd Hl Hx. assert (kept S id o w0 w1) as Hk1.
      { destruct Hk as [K1 K2 K3]. unfold row in *. split; unfold row; by rewrite ?Hd, ?Hl. }
      simpl in Hleft.
      destruct b; [destruct should_cancel; [done|]|]; apply IH; try done; lia. }
    destruct (o_fulfillment_type order); [|by apply (Hb true)..].
    unfold mbind, st_bind, env. pose proof (left_over_clock (w_ext w)) as Hc.
    destruct (now_timestamp (w_ext w)) as [now x]. by apply Hb.
Qed.

Lemma already_fulfilled_spec id o w0 w order :
  S id -> kept S id o w0 w ->
  (o_fulfillment_type order = FulfillAfterLockExpire \/ is_Some (o_expire_timestamp order)) ->
  twp (already_fulfilled order) (fun _ w' => kept S id o w0 w') (fun _ w' => False) w.
Proof.
  intros HS Hk Hexp. unfold already_fulfilled. twp_step.
  assert (forall (b : bool) w1, kept S id o w0 w1 ->
    twp (if b then answer ← catch (F := ProvingErr)
                     (db_call (fun _ => is_request_fulfilled (reqId (o_request order))));
                   mret match answer with inr b => b | inl _ => false end
         else mret false) (fun _ w' => kept S id o w0 w') (fun _ w' => False) w1) as Hquery.
  { intros [] w1 Hk1; [|done]. twp_step. apply twp_catch.
    pose proof (kept_read S (is_request_fulfilled (reqId (o_request order))) id o w0 w1 HS
                  ltac:(done) Hk1) as Hr.
    destruct (db_call_quiet S (fun _ => is_request_fulfilled (reqId (o_request order))) w1)
      as (now & d & x & _ & Heq). unfold twp. rewrite Heq in Hr |- *. exact Hr. }
  assert (o_fulfillment_type order = FulfillAfterLockExpire
          \/ exists e, o_expire_timestamp order = Some e) as [->|[e He]] by done.
  - by apply (Hquery true).
  - destruct (o_fulfillment_type order); [|by apply (Hquery true)|];
      rewrite He; twp_step; apply (twp_liftr_ok _ e); try done;
      twp_step; apply twp_env; intros now x _; apply Hquery; by apply kept_ext.
Qed.

Lemma monitor_proof_spec id o w0 w order :
  S id -> id_of (E := unit) order = Ok id -> is_Some (backend_state order) ->
  (o_fulfillment_type order = FulfillAfterLockExpire \/ is_Some (o_expire_timestamp order)) ->
  kept S id o w0 w ->
  twp (monitor_proof_with_timeout chain_id order)
    (fun p w' => kept S id o w0 w' /\ reported p) (fun _ w' => kept S id o w0 w') w.
Proof.
  intros HS Hid [st Hst] Hexp Hk. unfold monitor_proof_with_timeout.
  twp_step. apply (twp_liftr_ok _ id).
  { unfold id_of in *. destruct (db_order_id order); [by injection Hid as ->|done..]. }
  rewrite Hst. twp_step. apply (twp_liftr_ok _ st); [done|].
  twp_step. apply twp_env. intros cfg x1 _.
  twp_step. apply twp_env. intros now x2 _. simpl.
  set (cancel := match cfg with Some c => _ | None => _ end).
  twp_step. eapply twp_mono; [apply (already_fulfilled_spec id o w0 _ order HS)| |done].
  { by apply (kept_ext S). } { done. }
  intros fulfilled w1 Hk1. destruct (fulfilled && cancel); [done|].
  twp_step. apply twp_env. intros ticks x3 Hs.
  apply monitor_loop_spec; [done..|by apply kept_ext|].
  pose proof (schedule_fair (w_ext w1)) as Hf. by rewrite Hs in Hf.
Qed.

(** How a job may end.  Either the backend has finished the proof and the order
    is ready for the next stage, with nothing sent; or the order is failed, and
    the committer was told so once. *)
Record settled (id : string) (o : Order) (w0 w : World X) : Prop := mkSettled {
  settled_rows id' : S id' -> id' <> id -> row id' w = row id' w0;
  settled_row : exists o', row id w = Some o' /\ agrees o o'
    /\ ((exists p, reported p /\ status o' = next_status p
           /\ backend_id o' = Some (pr_backend_id p) /\ w_log w = w_log w0)
        \/ (status o' = Failed /\ is_Some (error_msg o')
            /\ exists delivered, w_log w = w_log w0
                 ++ [Notified (mkCompletion id chain_id OutcomeProvingFailed) delivered]))
}.

Lemma handle_failure_settles id o w0 w failure :
  S id -> kept S id o w0 w ->
  settled id o w0 (snd (handle_order_failure id failure chain_id w)).
Proof.
  intros HS [Hl Hr (o' & Ho & Ha)].
  destruct (handle_order_failure_spec S id failure chain_id w o' HS Ho)
    as ([now Hrow] & Hother & [delivered Hlog]).
  split.
  - intros id' HS' Hne. rewrite Hother by done. by apply Hr.
  - eexists. split; [exact Hrow|]. split; [by eapply agrees_trans|].
    right. split_and!; [done|by eexists|]. exists delivered. by rewrite Hlog, Hl.
Qed.

Lemma settle_order_spec id o w0 w order outcome :
  S id -> id_of (E := unit) order = Ok id -> kept S id o w0 w ->
  match outcome with inr p => reported p | inl _ => True end ->
  twp (settle_order chain_id id order outcome)
    (fun _ w' => settled id o w0 w') (fun _ _ => False) w.
Proof.
  intros HS Hid Hk Hout. destruct outcome as [err|p]; simpl.
  - assert (forall e w1, kept S id o w0 w1 ->
      twp (lift (handle_order_failure id (failure_of e) chain_id))
        (fun (_ : unit) w' => settled id o w0 w') (fun (_ : unit) _ => False) w1) as Hfail.
    { intros e w1 Hk1. apply twp_lift. by apply handle_failure_settles. }
    destruct err; try by apply Hfail.
    all: unfold cancel_order_cmd; rewrite Hid; twp_step; eapply twp_liftr_ok; [done|];
      twp_step; apply twp_env; intros r x _; apply Hfail; by apply kept_ext.
  - twp_step. apply twp_lift. unfold missed_fulfillment.
    assert (forall (b : bool) w1, kept S id o w0 w1 ->
      twp (if b then lift (handle_order_failure id (failure_of CancelFulfilledByAnother) chain_id)
           else _ ← catch (db_call (fun now =>
                     set_order_batch_status now id (next_status p) (pr_backend_id p))); mret tt)
        (fun (_ : unit) w' => settled id o w0 w') (fun (_ : unit) _ => False) w1) as Hend.
    { intros [] w1 Hk1; [apply twp_lift; by apply handle_failure_settles|].
      twp_step. apply twp_catch. unfold set_order_batch_status.
      eapply twp_mono.
      - apply (kept_update S id
          (fun now o => set_status (next_status p) now (set_backend_id (pr_backend_id p) o))
          o w0 w1 HS); [by repeat split|done].
      - intros _ w' [[Hl Hr (o1 & Ho1 & Ha1)] (now & o2 & Hrow)]. split; [done|].
        rewrite Hrow in Ho1. injection Ho1 as <-. eexists. split; [exact Hrow|].
        split; [done|]. left. by exists p.
      - done. }
    destruct (o_fulfillment_type order); [by apply (Hend false)| |by apply (Hend false)].
    unfold mbind, st_bind, env. destruct (is_fulfilled _ _) as [answer x]. simpl.
    apply Hend. by apply kept_ext.
Qed.

Lemma start_session_spec id o w0 w order :
  S id -> id_of (E := unit) order = Ok id -> kept S id o w0 w ->
  twp (start_session id order) (fun _ w' => kept S id o w0 w') (fun _ w' => kept S id o w0 w') w.
Proof.
  intros HS Hid Hk. unfold start_session, process_order_cmd.
  assert (id_of (E := string) order = Ok id) as ->.
  { unfold id_of in *. destruct (db_order_id order); [by injection Hid as ->|done..]. }
  twp_step. eapply twp_liftr_ok; [done|]. twp_step. unfold ask_backend.
  twp_step. apply twp_env. intros answer x _. pose proof (kept_ext S _ _ _ _ x Hk) as Hk1.
  destruct answer as [e|[state|p]]; exact Hk1.
Qed.

Lemma start_phase_spec id o w0 w order retry_count retry_ms :
  S id -> id_of (E := unit) order = Ok id -> kept S id o w0 w -> 0 <= retry_count ->
  twp (session ← catch (F := unit) (retry_with_context retry_count retry_ms
                                      (start_session id order));
       match session with
       | inr state =>
           _ ← catch (db_call (fun now => set_order_backend_state now id state));
           mret (Some (with_backend_state state order))
       | inl err =>
           _ ← lift (handle_order_failure id
                       (mkFailure (proving_code (ProvingFailed err))
                          "Proving session create failed"
                          (completion_outcome (ProvingFailed err))) chain_id);
           mret None
       end)
    (fun started w' =>
       match started with
       | Some order' => kept S id o w0 w' /\ exists state, order' = with_backend_state state order
       | None => settled id o w0 w'
       end) (fun _ _ => False) w.
Proof.
  intros HS Hid Hk Hc. twp_step. apply twp_catch. eapply twp_mono.
  - apply (twp_retry (kept S id o w0)
      (fun _ w' => kept S id o w0 w') (fun _ w' => kept S id o w0 w')); [done|done| |].
    + intros w1 Hk1. by apply start_session_spec.
    + intros e w1 Hk1. by apply kept_env.
  - intros state w1 Hk1. twp_step. apply twp_catch. unfold set_order_backend_state.
    eapply twp_mono.
    + apply (kept_update S id (fun now => set_backend_state state now) o w0 w1 HS);
        [by repeat split|done].
    + intros _ w2 [Hk2 _]. split; [done|]. by exists state.
    + done.
  - intros e w1 Hk1. twp_step. apply twp_lift. by apply handle_failure_settles.
Qed.

Lemma monitor_phase_spec id o w0 w order retry_count retry_ms :
  S id -> id_of (E := unit) order = Ok id -> is_Some (backend_state order) ->
  (o_fulfillment_type order = FulfillAfterLockExpire \/ is_Some (o_expire_timestamp order)) ->
  kept S id o w0 w -> 0 <= retry_count ->
  twp (result ← catch (retry_with_context retry_count retry_ms
                         (monitor_proof_with_timeout chain_id order));
       settle_order chain_id id order result)
    (fun _ w' => settled id o w0 w') (fun _ _ => False) w.
Proof.
  intros HS Hid Hst Hexp Hk Hc. twp_step. apply twp_catch.
  eapply twp_mono; [apply (twp_retry (kept S id o w0)
    (fun p w' => kept S id o w0 w' /\ reported p) (fun _ w' => kept S id o w0 w'))|..]; try done.
  - intros w1 Hk1. by apply monitor_proof_spec.
  - intros e w1 Hk1. by apply kept_env.
  - intros p w1 [Hk1 Hp]. by apply settle_order_spec.
  - intros e w1 Hk1. by apply settle_order_spec.
Qed.

End Settled.

(** C24. Proving an order always ends, and ends well: under a fair schedule, a
    backend that does not report progress forever, an answering database and no
    other task on the same order, [prove_and_update_db] returns; the row of the
    order is then ready for batching or submission, as the finished proof asks
    and with nothing sent to the committer, or it is failed with its reason and
    exactly one failure was sent; no other order changed. *)
Theorem prove_and_update_db_settles `{Externals} `{SqlEngine} {X} `{BrokerEnv X}
    `{ProcessorEnv X} `{!LiveBackend} (S : string -> Prop) `{!QuietDb S} chain_id id order o w :
  S id -> db_order_id order = Ok id -> row id w = Some o ->
  (o_fulfillment_type order = FulfillAfterLockExpire \/ is_Some (o_expire_timestamp order)) ->
  exists w', prove_and_update_db chain_id order w = (Ok tt, w') /\ settled S chain_id id o w w'.
Proof.
  intros HS Hid Hrow Hexp.
  assert (forall E, id_of (E := E) order = Ok id) as Hid' by (intros; unfold id_of; by rewrite Hid).
  pose proof (kept_refl S id o w Hrow) as Hk.
  assert (twp (prove_and_update_db chain_id order)
            (fun _ w' => settled S chain_id id o w w') (fun _ _ => False) w) as Hmain.
  { unfold prove_and_update_db. rewrite Hid'. twp_step. eapply twp_liftr_ok; [done|].
    twp_step. apply twp_env. intros cfg x Hcfg.
    assert (0 <= match cfg with Some c => proof_retry_count c | None => default_proof_retry_count
                 end) as Hc.
    { destruct cfg as [c|]; [|unfold default_proof_retry_count; lia].
      apply (retry_count_unsigned (w_ext w)). by rewrite Hcfg. }
    destruct (match cfg with Some c => (_, _) | None => _ end) as [count ms] eqn:Ec.
    assert (0 <= count) as Hcount by (by destruct cfg; injection Ec as <- <-). clear Hc Ec.
    apply (kept_ext S _ _ _ _ x) in Hk.
    twp_step. destruct (backend_state order) as [st|] eqn:Est.
    - apply twp_ret. by apply (monitor_phase_spec S).
    - eapply twp_mono; [apply (start_phase_spec S chain_id id o w); done| |done].
      intros [order'|] w1; [|done]. intros [Hk1 [state ->]]. by apply (monitor_phase_spec S). }
  apply twp_elim in Hmain as [([] & w' & Heq & Hs)|(e & w' & _ & Hs)]; [|done].
  by exists w'.
Qed.

(** ** The reaper *)

(** What the reaper looks for. *)
Definition overdue (now grace : Z) (o : Order) : bool :=
  has_status [PendingProving; Proving; ReadyForBatch; ReadyForSubmission; PendingSubmission] o
  && match o_expire_timestamp o with Some e => e <? now - grace | None => false end.

Section Reaper.
Context `{Externals} `{SqlEngine} {X : Type} `{BrokerEnv X} `{ProcessorEnv X}.
Context (S : string -> Prop) `{!QuietDb S} (chain_id : Z).
Hypothesis config_readable : forall x, is_Some (fst (lock_all x)).

(** The part of an iteration after the failure is recorded. *)
Lemma reap_tail_spec order id (Q : unit -> World X -> Prop) (R : ReaperError -> World X -> Prop) w
    (rest : ste (World X) ReaperError unit) :
  db_order_id order = Ok id ->
  (forall x, twp rest Q R (mkWorld (w_db w) x (w_log w))) ->
  twp (cfg ← read_config ReaperConfigReadErr;
       _ ← (if cancel_proving_expired_orders cfg then
              cmd ← liftr (cancel_order_cmd order);
              _ ← lift (env (cancel_order cmd));
              mret tt
            else mret tt);
       rest) Q R w.
Proof.
  intros Hid Hrest. unfold read_config. twp_step. twp_step. apply twp_env. intros cfg x Hc.
  destruct (config_readable (w_ext w)) as [c Hc']. rewrite Hc in Hc'. simpl in Hc'. subst cfg.
  apply (twp_liftr_ok _ c); [done|]. twp_step.
  destruct (cancel_proving_expired_orders c); [|apply twp_ret, Hrest].
  unfold cancel_order_cmd, id_of. rewrite Hid.
  twp_step. eapply twp_liftr_ok; [done|]. twp_step. apply twp_env. intros r x' _.
  apply twp_ret, Hrest.
Qed.

Lemma reap_orders_spec ids expired w :
  Forall2 (fun id o => db_order_id o = Ok id) ids expired -> NoDup ids ->
  (forall id, id ∈ ids -> S id -> is_Some (row id w)) ->
  twp (reap_orders chain_id expired)
    (fun _ w' => exists new, w_log w' = w_log w ++ new /\ failures_sent new = ids
       /\ forall id, S id ->
            if decide (id ∈ ids)
            then exists o now, row id w = Some o /\ row id w' =
                   Some (set_error_msg (show_failure reaper_failure) (set_status Failed now o))
            else row id w' = row id w)
    (fun _ _ => False) w.
Proof.
  intros Hids. revert w.
  induction Hids as [|id order ids expired Hid Hids IH]; intros w Hnd Hrows; cbn [reap_orders].
  { exists []. rewrite app_nil_r. split_and!; [done|done|].
    intros id _. destruct (decide (id ∈ [])) as [Hin|]; [by apply not_elem_of_nil in Hin|done]. }
  apply NoDup_cons in Hnd as [Hnin Hnd].
  unfold id_of. rewrite Hid. twp_step. eapply twp_liftr_ok; [done|].
  twp_step. apply twp_lift.
  destruct (handle_order_failure_frame S id reaper_failure chain_id w) as [Hother [dl Hlog]].
  assert (S id -> exists o now, row id w = Some o /\
    row id (snd (handle_order_failure id reaper_failure chain_id w)) =
      Some (set_error_msg (show_failure reaper_failure) (set_status Failed now o))) as Hthis.
  { intros HS. destruct (Hrows id) as [o Ho]; [left|done|].
    destruct (handle_order_failure_spec S id reaper_failure chain_id w o HS Ho) as ([now Hr] & _).
    by exists o, now. }
  destruct (handle_order_failure id reaper_failure chain_id w) as [u w1]. simpl in *.
  eapply reap_tail_spec; [done|]. intros x. eapply twp_mono; [apply IH| |done].
  - done.
  - intros id' Hin HS'. change (is_Some (row id' w1)). rewrite Hother; [|done|set_solver].
    apply Hrows; [by right|done].
  - intros _ w' (new & Hnew & Hsent & Hfin). simpl in Hnew.
    exists (Notified (mkCompletion id chain_id OutcomeProvingFailed) dl :: new).
    rewrite Hnew, Hlog, <- app_assoc. simpl. rewrite Hsent. split_and!; [done|done|].
    intros id' HS'. specialize (Hfin id' HS'). change (row id' (mkWorld _ x _)) with (row id' w1) in Hfin.
    destruct (decide (id' = id)) as [->|Hne].
    + rewrite decide_False in Hfin by done. rewrite decide_True by set_solver.
      destruct (Hthis HS') as (o & now & Ho & Hr). exists o, now. by rewrite Hfin.
    + rewrite Hother in Hfin by done. destruct (decide (id' ∈ ids)).
      * by rewrite decide_True by set_solver.
      * by rewrite decide_False by set_solver.
Qed.

End Reaper.

(** The identifiers of selected rows. *)
Lemma select_orders_ids `{Externals} `{SqlEngine} P d :
  db_ok d ->
  Forall2 (fun id o => db_order_id o = Ok id) (select_orders P d).*1 (select_orders P d).*2.
Proof.
  intros Hok. apply Forall2_fmap, Forall_Forall2_diag, Forall_forall.
  intros [id o] Hin. apply select_orders_spec in Hin as [Ho _].
  by apply (Hok id o).
Qed.

(** One pass of the reaper, over a readable configuration and an answering
    database, fails every overdue order, each exactly once: at one reading of the
    clock, the rows past their expiry by more than the grace period that are not
    being batched get the reaper's error and status [Failed] and one failure is
    sent for each, while the row of every other order stays as it is. *)
Theorem check_expired_orders_spec `{Externals} `{SqlEngine} {X} `{BrokerEnv X}
    `{ProcessorEnv X} (S : string -> Prop) `{!QuietDb S} chain_id w :
  (forall x, is_Some (fst (lock_all x))) ->
  (forall x d, db_ok d -> db_ok (t_others (fst (db_turn x)) d)) ->
  db_ok (w_db w) ->
  exists w' new now cfg,
    check_expired_orders chain_id w = (Ok tt, w')
    /\ fst (lock_all (w_ext w)) = Some cfg
    /\ w_log w' = w_log w ++ new /\ NoDup (failures_sent new)
    /\ forall id, S id ->
         match row id w with
         | Some o =>
             if overdue now (reaper_grace_period_secs cfg) o
             then id ∈ failures_sent new /\ exists t, row id w' =
                    Some (set_error_msg (show_failure reaper_failure) (set_status Failed t o))
             else id ∉ failures_sent new /\ row id w' = Some o
         | None => id ∉ failures_sent new /\ row id w' = None
         end.
Proof.
  intros Hcfg Hothers Hok. destruct (Hcfg (w_ext w)) as [cfg Ec].
  destruct (lock_all (w_ext w)) as [c x1] eqn:El. simpl in Ec. subst c.
  set (w1 := mkWorld (w_db w) x1 (w_log w)).
  destruct (db_turn x1) as [turn x2] eqn:Et.
  set (d := t_others turn (w_db w)).
  assert (db_ok d) as Hd by (specialize (Hothers x1 _ Hok); by rewrite Et in Hothers).
  assert (forall id, S id -> orders d !! id = row id w) as Hrow.
  { intros id HS. pose proof (quiet_rows (S := S) x1 (w_db w) id HS) as Hq. by rewrite Et in Hq. }
  pose proof (quiet_fault (S := S) x1) as Hf. rewrite Et in Hf. simpl in Hf.
  set (P := fun (_ : string) o => overdue (t_now turn) (reaper_grace_period_secs cfg) o).
  set (w2 := mkWorld d x2 (w_log w)).
  pose proof (reap_orders_spec S chain_id Hcfg (select_orders P d).*1 (select_orders P d).*2 w2
    (select_orders_ids P d Hd) (select_orders_NoDup P d)) as Hreap.
  assert (forall id, S id -> id ∈ (select_orders P d).*1
            <-> exists o, row id w = Some o /\ P id o = true) as Hsel.
  { intros id HS. rewrite list_elem_of_fmap. rewrite <- (Hrow id HS). split.
    - intros ([id' o] & -> & Hin). apply select_orders_spec in Hin. by exists o.
    - intros (o & Ho). exists (id, o). split; [done|]. by apply select_orders_spec. }
  assert (check_expired_orders chain_id w = reap_orders chain_id (select_orders P d).*2 w2) as Heq.
  { unfold check_expired_orders, read_config, mbind, ste_bind, lift, env, liftr.
    rewrite El. cbn. unfold with_err, db_call. cbn. rewrite Et, Hf. done. }
  rewrite Heq. apply twp_elim in Hreap as [([] & w' & Hr & new & Hnew & Hsent & Hrows)|(e & w' & _ & [])].
  - exists w', new, (t_now turn), cfg. rewrite Hsent. split_and!; [done..|apply select_orders_NoDup|].
    intros id HS. specialize (Hrows id HS). change (row id w2) with (orders d !! id) in Hrows.
    rewrite (Hrow id HS) in Hrows. specialize (Hsel id HS).
    destruct (decide (id ∈ (select_orders P d).*1)) as [Hin|Hnin].
    + pose proof (proj1 Hsel Hin) as (o & Ho & HP). rewrite Ho in *. unfold P in HP. rewrite HP.
      split; [done|]. destruct Hrows as (o' & t & [= <-] & Hr'). by exists t.
    + rewrite Hrows. destruct (row id w) as [o|] eqn:Ho; [|done].
      destruct (overdue (t_now turn) (reaper_grace_period_secs cfg) o) eqn:Ev; [|done].
      exfalso. apply Hnin, Hsel. by exists o.
  - intros id Hin HS. unfold row. simpl. rewrite (Hrow id HS).
    apply (proj1 (Hsel id HS)) in Hin as (o & -> & _). done.
Qed.

(** ** Witnesses *)

Definition toy_processed : ProcessedOrder := mkProcessed "b" toy_id Batched false.

(** A backend that reports progress until the clock reaches 1005. *)
Definition toy_processor : ProcessorEnv Z := {|
  process_order := fun _ t =>
    (inr (if t <? 1005 then InProgress [] else Completed toy_processed), t + 1);
  cancel_order := fun _ t => (inr tt, t);
  is_fulfilled := fun _ t => (inr false, t);
  schedule := fun t => (StateReceived None :: replicate (S (Z.to_nat (1005 - t))) BackendReady, t)
|}.
#[export] Existing Instance toy_processor | 100.

Lemma backend_ticks_replicate n : backend_ticks (replicate n BackendReady) = n.
Proof. induction n; simpl; congruence. Qed.

Lemma toy_live : LiveBackend (X := Z).
Proof.
  refine {| left_over := fun t : Z => Z.to_nat (1005 - t) |}; simpl; try done.
  - intros _ x s x' [= E <-]. destruct (Z.ltb_spec x 1005); [lia|done].
  - intros x. rewrite backend_ticks_replicate. lia.
  - intros x c [= <-]. done.
Defined.

(** The row of [toy_id] with the expiry that pricing records. *)
Definition expiring (e : Z) (o : Order) : Order :=
  {| o_market := o_market o; o_chain_id := o_chain_id o;
     o_fulfillment_type := o_fulfillment_type o; o_request := o_request o; status := status o;
     updated_at := updated_at o; o_total_cycles := o_total_cycles o;
     o_journal_bytes := o_journal_bytes o; o_target_timestamp := o_target_timestamp o;
     proving_started_at := proving_started_at o; o_image_id := o_image_id o;
     o_input_id := o_input_id o; backend_state := backend_state o; backend_id := backend_id o;
     o_expire_timestamp := Some e; o_client_sig := o_client_sig o; lock_price := lock_price o;
     error_msg := error_msg o |}.

Definition expiring_db : Db := run_db (update_order toy_id (expiring 1100)) toy_db.
Definition toy_row : option Order := orders expiring_db !! toy_id.

Lemma expiring_db_ok : @db_ok toy_externals expiring_db.
Proof. apply db_ok_of_rows. by vm_compute. Qed.

Definition proving_world : World Z := mkWorld expiring_db 1000 [].

Lemma prove_and_update_db_settles_witness :
  exists o w', toy_row = Some o
    /\ @prove_and_update_db toy_externals Z toy_env toy_processor 1 o proving_world = (Ok tt, w')
    /\ @settled Z toy_processor (fun id => id = toy_id) 1 toy_id o proving_world w'.
Proof.
  assert (Hr : match toy_row with
               | Some o => @db_order_id toy_externals o = Ok toy_id /\ is_Some (o_expire_timestamp o)
               | None => False end) by (vm_compute; split; [reflexivity|by eexists]).
  destruct toy_row as [o|] eqn:Eo; [|destruct Hr]. destruct Hr as [Hid Hexp].
  destruct (@prove_and_update_db_settles toy_externals toy_engine Z toy_env toy_processor toy_live
    (fun id => id = toy_id) (toy_quiet _) 1 toy_id o o proving_world eq_refl Hid Eo (or_intror Hexp))
    as (w' & Hw & Hs).
  exists o, w'. split; [reflexivity|]. split; [exact Hw|exact Hs].
Defined.

(** The same table long after the expiry. *)
Definition late_world : World Z := mkWorld expiring_db 2000 [].

Lemma check_expired_orders_spec_witness :
  exists w' new, @check_expired_orders toy_externals toy_engine Z toy_env toy_processor 1 late_world
                   = (Ok tt, w')
    /\ w_log w' = new /\ NoDup (failures_sent new) /\ toy_id ∈ failures_sent new.
Proof.
  destruct (@check_expired_orders_spec toy_externals toy_engine Z toy_env toy_processor
    (fun _ => True) (toy_quiet _) 1 late_world) as (w' & new & now & cfg & Hrun & Hc & Hl & Hn & Hrows).
  { intros x. by eexists. } { done. } { exact expiring_db_ok. }
  exists w', new. split; [exact Hrun|]. split; [exact Hl|]. split; [exact Hn|].
  assert (Hf : bool_decide (toy_id ∈ failures_sent (w_log (snd
    (@check_expired_orders toy_externals toy_engine Z toy_env toy_processor 1 late_world)))) = true)
    by (vm_compute; reflexivity).
  rewrite Hrun in Hf. simpl in Hf. rewrite Hl in Hf. by apply bool_decide_eq_true in Hf.
Defined.
