(* ===== verification/Batcher.v ===== *)
(** * Batcher: filling, finalizing and closing the batches

    [crates/broker/src/batcher/service.rs] with its [error.rs] and the batch
    commands of [crates/boundless-backend/src/types.rs].

    The class [BatcherEnv] holds the backends: their identifiers, the pure
    resolution of an assessor group, and the calls that estimate, update and
    close a batch; and [parse_ether].  Errors of [anyhow] are strings, of which
    only the outermost context is kept.  Telemetry is not modelled. *)

From S2P Require Import Prelude Market OrderPricing Db Committer Pipeline.

Local Open Scope Z_scope.

Inductive BatcherErr :=
| CompressionErr (e : string)
| BatUnexpectedErr (e : string).

Record OrderProvingData := mkProvingData {
  pd_order_id : string;
  pd_request : ProofRequest;
  pd_client_sig : bytes;
  pd_image_id : option string;
  pd_backend_state : option bytes
}.

Record BatchSizeEstimateRequest := mkEstimate {
  es_state : option bytes;
  es_existing_orders : list OrderProvingData;
  es_pending_orders : list OrderProvingData
}.

Record BatchOrder := mkBatchOrder {
  bo_proving : OrderProvingData;
  bo_expiration : Z;
  bo_fee : Z;
  bo_type : FulfillmentType;
  bo_request_id : Z;
  bo_lock_expiration : Z
}.

Record UpdateBatch := mkUpdateBatch {
  ub_batch_id : Z;
  ub_existing_orders : list OrderProvingData;
  ub_state : option bytes;
  ub_new_orders : list BatchOrder;
  ub_finalize : bool
}.

(** The durations are for telemetry. *)
Record BatchUpdate := mkBatchUpdate {
  bu_state : bytes;
  bu_finalize : bool
}.

Record CloseBatch := mkCloseBatch {
  cb_batch_id : Z;
  cb_order_ids : list string;
  cb_state : option bytes
}.

Record BatchClose := mkBatchClose {
  bc_state : bytes
}.

Class BatcherEnv (X : Type) := {
  backend_ids : list string;
  assessor_group : string -> Z -> string + option Z;
  estimate_batch_size : string -> BatchSizeEstimateRequest -> st X (string + Z);
  backend_update_batch : string -> UpdateBatch -> st X (string + BatchUpdate);
  backend_close_batch : string -> CloseBatch -> st X (string + BatchClose);
  utc_now : st X Z;
  parse_ether : string -> option Z
}.

Definition order_proving_data `{Externals} {E} (order : Order) : result E OrderProvingData :=
  order_id ← id_of order;
  mret (mkProvingData order_id (o_request order) (o_client_sig order) (o_image_id order)
          (backend_state order)).

Notation Resolved := (BatchReadyOrder * OrderStatus * option Z)%type.

Section Batcher.
Context `{Externals} `{SqlEngine} {X : Type} `{BrokerEnv X} `{BatcherEnv X}.
Variable chain_id : Z.

Notation W := (World X).

(** A database call whose error gets a context. *)
Definition db_ctx (c : string) {A} (m : Z -> ste Db DbError A) : ste W BatcherErr A :=
  with_err (fun e => BatUnexpectedErr (c +:+ ": " +:+ db_error_text e)) (db_call m).

Definition backend_call {A} (m : st X (string + A)) : ste W BatcherErr A :=
  answer ← lift (env m);
  liftr match answer with inr a => Ok a | inl e => Err (BatUnexpectedErr e) end.

Definition locked_config : ste W BatcherErr ServiceConfig :=
  cfg ← lift (env lock_all);
  liftr (ok_or (BatUnexpectedErr "Failed to lock config") cfg).

Definition fetch_proving_data (ids : list string) : ste W BatcherErr (list OrderProvingData) :=
  orders ← db_ctx "Failed to load orders for batch" (fun _ => get_orders ids);
  table ← liftr (by_id orders ∅);
  liftr (collect (fun id =>
    match table !! id with
    | Some order => order_proving_data order
    | None => Err (BatUnexpectedErr ("Order " +:+ id +:+ " missing from DB while assembling batch"))
    end) ids).

(** The minimum of the deadlines: [chain(batch.deadline).reduce(u64::min)]. *)
Definition min_deadline (pending : list BatchReadyOrder) (deadline : option Z) : option Z :=
  match (expiration <$> pending) ++ option_list deadline with
  | [] => None
  | d :: ds => Some (foldl Z.min d ds)
  end.

Definition check_finalize (backend : string) (batch : Batch) (pending : list BatchReadyOrder)
    : ste W BatcherErr bool :=
  cfg ← locked_config;
  conf_batch_fees ←
    liftr match batch_max_fees cfg with
          | Some elm => match parse_ether elm with
                        | Some fees => Ok (Some fees)
                        | None => Err (BatUnexpectedErr "Failed to parse batch max fees")
                        end
          | None => Ok None
          end;
  let conf_batch_size := if sc_max_concurrent_proofs cfg <? min_batch_size cfg
                         then sc_max_concurrent_proofs cfg else min_batch_size cfg in
  if bool_decide (b_backend_state batch = None) && bool_decide (pending = []) then mret false else
  if conf_batch_size <=? Z.of_nat (length (b_orders batch) + length pending) then mret true else
  existing ← fetch_proving_data (b_orders batch);
  pending_data ← fetch_proving_data (order_id' <$> pending);
  size ← backend_call (estimate_batch_size backend
           (mkEstimate (b_backend_state batch) existing pending_data));
  if batch_max_journal_bytes cfg <=? size then mret true else
  now_utc ← lift (env utc_now);
  if batch_max_time cfg <=? wrap 64 (now_utc - b_start_time batch) then mret true else
  if match conf_batch_fees with
     | Some target => target <=? foldl (wadd 256) (b_fees batch) (fee <$> pending)
     | None => false
     end then mret true else
  cfg' ← locked_config;
  now ← lift (env now_timestamp);
  mret match min_deadline pending (b_deadline batch) with
       | Some deadline => sat_sub deadline now <=? block_deadline_buffer_secs cfg'
       | None => false
       end.

(** The failure of an order in the filters; both errors are only logged. *)
Definition drop_order (order_id reason : string) : st W unit :=
  _ ← attempt (db_call (fun now => set_order_failure now order_id reason));
  send_completion (mkCompletion order_id chain_id OutcomeProvingFailed).

Definition should_check_fulfilled (current_time : Z) (o : BatchReadyOrder) : bool :=
  match ready_type o with
  | LockAndFulfill => lock_expiration o <=? current_time
  | FulfillAfterLockExpire | FulfillWithoutLocking => true
  end.

Fixpoint filter_non_actionable_orders (orders : list (BatchReadyOrder * OrderStatus))
    (current_time : Z) : ste W BatcherErr (list (BatchReadyOrder * OrderStatus)) :=
  match orders with
  | [] => mret []
  | (order, status) :: orders =>
      if expiration order <? current_time then
        _ ← lift (drop_order (order_id' order) "Expired before backend batch processing");
        filter_non_actionable_orders orders current_time
      else
        fulfilled ←
          (if should_check_fulfilled current_time order then
             answer ← catch (db_call (fun _ => is_request_fulfilled (ready_request_id order)));
             mret match answer with inr b => b | inl _ => false end
           else mret false);
        if fulfilled : bool then
          _ ← lift (drop_order (order_id' order) "Fulfilled before backend batch processing");
          filter_non_actionable_orders orders current_time
        else
          valid ← filter_non_actionable_orders orders current_time;
          mret ((order, status) :: valid)
  end.

Definition batch_assessor_group (backend : string) (batch : Batch)
    : ste W BatcherErr (option Z) :=
  match b_orders batch with
  | [] => mret None
  | first :: _ =>
      orders ← fetch_proving_data [first];
      match orders with
      | [] => throw (BatUnexpectedErr ("Order " +:+ first +:+ " of the open batch is missing"))
      | order :: _ =>
          liftr match assessor_group backend (selector (requirements (pd_request order))) with
                | inr group => Ok group
                | inl _ => Err (BatUnexpectedErr
                             "Failed to resolve the open batch's assessor group")
                end
      end
  end.

Fixpoint resolve_assessor_groups (backend : string) (orders : list (BatchReadyOrder * OrderStatus))
    : st W (list Resolved) :=
  match orders with
  | [] => mret []
  | (order, status) :: orders =>
      match assessor_group backend (ready_selector order) with
      | inr group =>
          rest ← resolve_assessor_groups backend orders;
          mret ((order, status, group) :: rest)
      | inl _ =>
          _ ← drop_order (order_id' order) "No resolvable assessor group";
          resolve_assessor_groups backend orders
      end
  end.

Definition in_target (target group : option Z) : bool :=
  bool_decide (target = None) || bool_decide (group = target).

(** The first loop of [claim_batch_group]. *)
Fixpoint match_group (backend : string) (target : option Z) (resolved : list Resolved)
    : ste W BatcherErr (list BatchReadyOrder) :=
  match resolved with
  | [] => mret []
  | (order, status, group) :: resolved =>
      if in_target target group then
        rest ← match_group backend target resolved;
        mret (order :: rest)
      else if bool_decide (status = Batching) then
        _ ← db_ctx "Failed to requeue order" (fun now =>
              set_order_batch_status now (order_id' order) ReadyForBatch backend);
        match_group backend target resolved
      else match_group backend target resolved
  end.

Definition claim_batch_group (backend : string) (target : option Z) (resolved : list Resolved)
    : ste W BatcherErr (list BatchReadyOrder) :=
  matching ← match_group backend target resolved;
  claimed ← db_ctx "Failed to bulk-claim batch orders" (fun now =>
              claim_orders_for_batch now (order_id' <$> matching) backend);
  mret (filter (fun o => order_id' o ∈ claimed) matching).

Definition filter_direct_target_group (target : option Z) (resolved : list Resolved)
    : list BatchReadyOrder :=
  (fun r => r.1.1) <$> filter (fun r => in_target target r.2 = true) resolved.

(** [resolved.iter().find_map(|(_, _, group)| *group)]. *)
Definition first_group (resolved : list Resolved) : option Z :=
  head (omap (fun r => r.2) resolved).

(** The first half of [select_open_batch_orders]: peek, drop what is not
    actionable, resolve the groups. *)
Definition resolve_ready_orders (backend : string)
    : ste W BatcherErr (list Resolved * list Resolved) :=
  current_time ← lift (env now_timestamp);
  batch_peek ← db_ctx "Failed to peek pending backend batch orders" (fun _ =>
                 peek_pending_batch_orders backend);
  direct_peek ← db_ctx "Failed to peek pending direct-submit orders" (fun _ =>
                  peek_pending_direct_submission_orders backend);
  batch_ready ← filter_non_actionable_orders batch_peek current_time;
  direct_ready ← filter_non_actionable_orders direct_peek current_time;
  resolved_batch ← lift (resolve_assessor_groups backend batch_ready);
  resolved_direct ← lift (resolve_assessor_groups backend direct_ready);
  mret (resolved_batch, resolved_direct).

(** The second half: pick the target group and claim its orders. *)
Definition select_open_batch_orders (backend : string) (batch : Batch)
    : ste W BatcherErr (list BatchReadyOrder * list BatchReadyOrder) :=
  '(resolved_batch, resolved_direct) ← resolve_ready_orders backend;
  held ← batch_assessor_group backend batch;
  let target := match held with
                | Some group => Some group
                | None => first_group (resolved_batch ++ resolved_direct)
                end in
  kept_update ← claim_batch_group backend target resolved_batch;
  mret (kept_update, filter_direct_target_group target resolved_direct).

Definition batch_order (proving : OrderProvingData) (ready : BatchReadyOrder) : BatchOrder :=
  mkBatchOrder proving (expiration ready) (fee ready) (ready_type ready)
    (ready_request_id ready) (lock_expiration ready).

Definition update_backend_batch (backend : string) (batch_id : Z) (batch : Batch)
    (batch_update_orders direct_submit_orders : list BatchReadyOrder) (finalize : bool)
    : ste W BatcherErr BatchUpdate :=
  let ready := batch_update_orders ++ direct_submit_orders in
  proving ← fetch_proving_data (order_id' <$> ready);
  let new_orders := zip_with batch_order proving ready in
  existing ← (if finalize then fetch_proving_data (b_orders batch) else mret []);
  update ← backend_call (backend_update_batch backend
             (mkUpdateBatch batch_id existing (b_backend_state batch) new_orders finalize));
  _ ← db_ctx "Failed to update batch in the DB" (fun now =>
        update_batch now batch_id (bu_state update) ready (bu_finalize update));
  mret update.

(** The part of [process_backend_batch] that closes a finalized batch. *)
Definition close_current_batch (backend : string) (batch_id : Z) : ste W BatcherErr unit :=
  batch ← db_ctx "Failed to get batch" (fun _ => get_batch batch_id);
  answer ← lift (env (backend_close_batch backend
             (mkCloseBatch batch_id (b_orders batch) (b_backend_state batch))));
  match answer with
  | inl err =>
      _ ← with_err (fun e => BatUnexpectedErr (db_error_text e))
            (db_call (fun _ => set_batch_failure batch_id err));
      throw (CompressionErr err)
  | inr close =>
      db_ctx "Failed to set batch as complete" (fun _ => complete_batch batch_id (bc_state close))
  end.

Definition process_backend_batch (backend : string) : ste W BatcherErr unit :=
  batch_id ← db_ctx "Failed to get current batch" (fun now => get_current_batch now backend);
  batch ← db_ctx "Failed to get batch" (fun _ => get_batch batch_id);
  match b_status batch with
  | BsOpen =>
      '(batch_update_orders, direct_submit_orders) ← select_open_batch_orders backend batch;
      finalize ← check_finalize backend batch (batch_update_orders ++ direct_submit_orders);
      if negb finalize && bool_decide (batch_update_orders = []) then mret tt else
      _ ← update_backend_batch backend batch_id batch batch_update_orders direct_submit_orders
            finalize;
      if finalize : bool then close_current_batch backend batch_id else mret tt
  | BsPendingCompression => close_current_batch backend batch_id
  | _ => throw (BatUnexpectedErr "Unexpected batch status")
  end.

(** An error on one backend is only logged. *)
Fixpoint process_batches (backends : list string) : ste W BatcherErr unit :=
  match backends with
  | [] => mret tt
  | backend :: backends =>
      _ ← catch (process_backend_batch backend);
      process_batches backends
  end.

Fixpoint run (cancelled : list bool) : ste W (SupervisorErr BatcherErr) unit :=
  match cancelled with
  | [] | true :: _ => mret tt
  | false :: cancelled =>
      cfg ← with_err Recover locked_config;
      _ ← with_err Recover (process_batches backend_ids);
      _ ← lift (env (sleep_ms (default 1000 (batch_poll_time_ms cfg))));
      run cancelled
  end.

End Batcher.

(** ** A batch holds a single assessor class *)

(** What every step but the filling of a batch leaves: rows stay, with their
    requests; batches stay, with their orders; new batches are empty. *)
Record evolves (d d' : Db) : Prop := mkEvolves {
  ev_rows id o : orders d !! id = Some o ->
    exists o', orders d' !! id = Some o' /\ o_request o' = o_request o;
  ev_batches bid b : batches d !! bid = Some b ->
    exists b', batches d' !! bid = Some b' /\ b_orders b' = b_orders b
      /\ b_backend_id b' = b_backend_id b;
  ev_new bid b' : batches d' !! bid = Some b' ->
    is_Some (batches d !! bid) \/ b_orders b' = [];
  ev_ids : batch_ids_ok d -> batch_ids_ok d'
}.

#[export] Instance evolves_preorder : PreOrder evolves.
Proof.
  split.
  - intros d. split; [|..|done].
    + intros id o Ho. by exists o.
    + intros bid b Hb. by exists b.
    + intros bid b Hb. left. by exists b.
  - intros d1 d2 d3 [R1 B1 N1 I1] [R2 B2 N2 I2]. split; [|..|by auto].
    + intros id o Ho. destruct (R1 id o Ho) as (o2 & Ho2 & E2).
      destruct (R2 id o2 Ho2) as (o3 & Ho3 & E3). exists o3. by rewrite E3, E2.
    + intros bid b Hb. destruct (B1 bid b Hb) as (b2 & Hb2 & E2 & F2).
      destruct (B2 bid b2 Hb2) as (b3 & Hb3 & E3 & F3). exists b3. by rewrite E3, E2, F3, F2.
    + intros bid b3 Hb3. destruct (N2 bid b3 Hb3) as [[b2 Hb2]|He]; [|by right].
      destruct (N1 bid b2 Hb2) as [Hs|He]; [by left|].
      destruct (B2 bid b2 Hb2) as (b3' & Hb3' & E3 & _). rewrite Hb3 in Hb3'.
      injection Hb3' as <-. right. by rewrite E3.
Qed.

(** Statements that only touch rows, or only the progress of a batch. *)
Lemma evolves_orders d m :
  (forall id o, orders d !! id = Some o -> exists o', m !! id = Some o' /\ o_request o' = o_request o) ->
  evolves d (with_orders m d).
Proof.
  intros Hm. split; simpl; [done|..|done].
  - intros bid b Hb. by exists b.
  - intros bid b Hb. left. by exists b.
Qed.

Lemma evolves_update_order id f d :
  (forall o, o_request (f o) = o_request o) -> evolves d (snd (update_order id f d)).
Proof.
  intros Hf. unfold update_order. destruct (orders d !! id) as [o|] eqn:Ho; [|done].
  apply evolves_orders. intros id' o' Ho'. destruct (decide (id' = id)) as [->|Hne].
  - rewrite Ho in Ho'. injection Ho' as <-. exists (f o). by rewrite lookup_insert_eq.
  - exists o'. by rewrite lookup_insert_ne.
Qed.

Lemma evolves_update_where P f d :
  (forall o, o_request (f o) = o_request o) ->
  evolves d (with_orders (update_where P f (orders d)) d).
Proof.
  intros Hf. apply evolves_orders. intros id o Ho. rewrite lookup_update_where, Ho. simpl.
  eexists. split; [done|]. by destruct (P id o).
Qed.

Lemma evolves_batch_row bid f d :
  (forall b, b_orders (f b) = b_orders b /\ b_backend_id (f b) = b_backend_id b) ->
  evolves d (snd (update_batch_row bid f d)).
Proof.
  intros Hf. unfold update_batch_row. destruct (batches d !! bid) as [b|] eqn:Hb; [|done].
  split; simpl.
  - intros id o Ho. by exists o.
  - intros bid' b' Hb'. destruct (decide (bid' = bid)) as [->|Hne].
    + rewrite Hb in Hb'. injection Hb' as <-. exists (f b). by rewrite lookup_insert_eq.
    + exists b'. by rewrite lookup_insert_ne.
  - intros bid' b' Hb'. left. destruct (decide (bid' = bid)) as [->|Hne]; [by eexists|].
    rewrite lookup_insert_ne in Hb' by done. by eexists.
  - intros [Hl Hids]. split; [done|]. simpl. intros bid' Hs. apply Hids.
    destruct (decide (bid' = bid)) as [->|Hne]; [by eexists|]. by rewrite lookup_insert_ne in Hs.
Qed.

(** The current batch, found or new, belongs to the backend. *)
Lemma get_current_batch_evolves `{SqlEngine} now backend d :
  batch_ids_ok d ->
  evolves d (snd (get_current_batch now backend d))
  /\ forall bid, fst (get_current_batch now backend d) = Ok bid ->
       exists b, batches (snd (get_current_batch now backend d)) !! bid = Some b
         /\ b_backend_id b = backend.
Proof.
  intros [Hlast Hids].
  assert (evolves d (snd (new_batch now backend d))
    /\ forall bid, fst (new_batch now backend d) = Ok bid ->
         exists b, batches (snd (new_batch now backend d)) !! bid = Some b
           /\ b_backend_id b = backend) as Hnew.
  { unfold new_batch. simpl. assert (batches d !! (last_batch_id d + 1) = None) as Hfresh.
    { apply eq_None_not_Some. intros Hs. apply Hids in Hs. lia. }
    split; [split; simpl|].
    - intros id o Ho. by exists o.
    - intros bid b Hb. exists b. rewrite lookup_insert_ne; [done|]. intros <-. congruence.
    - intros bid b. destruct (decide (bid = last_batch_id d + 1)) as [->|Hne].
      + rewrite lookup_insert_eq. intros [= <-]. by right.
      + rewrite lookup_insert_ne by done. intros Hb. left. by eexists.
    - intros _. split; simpl; [lia|]. intros bid.
      destruct (decide (bid = last_batch_id d + 1)) as [->|Hne]; [lia|].
      rewrite lookup_insert_ne by done. intros Hs. apply Hids in Hs. lia.
    - intros bid [= <-]. rewrite lookup_insert_eq. by eexists. }
  unfold get_current_batch. case_bool_decide; [done|].
  destruct (select_batches (current_of backend) d) as [|[i b] l] eqn:E; [done|].
  split; [done|]. intros bid [= <-]. simpl.
  assert ((i, b) ∈ select_batches (current_of backend) d) as Hin by (rewrite E; left).
  apply select_batches_spec in Hin as [Hb Hc]. exists b. split; [done|].
  unfold current_of in Hc. apply andb_prop in Hc as [_ Hc]. by apply bool_decide_eq_true in Hc.
Qed.

Section OneClass.
Context `{Externals} `{SqlEngine} {X : Type} `{BrokerEnv X} `{BatcherEnv X}.
Variable chain_id : Z.

(** The other tasks neither remove rows nor fill batches. *)
Class PoliteTasks := {
  polite x d : evolves d (t_others (fst (db_turn x)) d)
}.

Definition order_selector (o : Order) : Z := selector (requirements (o_request o)).

(** All orders of each batch are stored and resolve to one assessor group. *)
Definition one_class (d : Db) : Prop :=
  forall bid b, batches d !! bid = Some b ->
    exists g, forall id, id ∈ b_orders b -> exists o, orders d !! id = Some o
      /\ assessor_group (b_backend_id b) (order_selector o) = inr g.

Lemma one_class_evolves d d' : evolves d d' -> one_class d -> one_class d'.
Proof.
  intros Hev Hone bid b' Hb'. destruct (ev_new _ _ Hev bid b' Hb') as [[b Hb]|He].
  - destruct (ev_batches _ _ Hev bid b Hb) as (b2 & Hb2 & Eo & Eb). rewrite Hb' in Hb2.
    injection Hb2 as <-. destruct (Hone bid b Hb) as [g Hg]. exists g. rewrite Eo, Eb.
    intros id Hin. destruct (Hg id Hin) as (o & Ho & Hgr).
    destruct (ev_rows _ _ Hev id o Ho) as (o' & Ho' & Er). exists o'. split; [done|].
    unfold order_selector in *. by rewrite Er.
  - exists None. rewrite He. intros id Hin. by apply not_elem_of_nil in Hin.
Qed.

Context `{!PoliteTasks}.

(** [moved w w']: from [w] to [w'] the tables have evolved. *)
Definition moved (w w' : World X) : Prop := evolves (w_db w) (w_db w').

#[export] Instance moved_preorder : PreOrder moved.
Proof.
  split; unfold moved; [intros w; reflexivity|]. intros w1 w2 w3. by apply transitivity.
Qed.

(** A statement that lets the tables evolve. *)
Definition calm {A} (m : Z -> ste Db DbError A) : Prop :=
  forall now d, batch_ids_ok d -> evolves d (snd (m now d)).

Lemma moved_ids w w' : moved w w' -> batch_ids_ok (w_db w) -> batch_ids_ok (w_db w').
Proof. apply ev_ids. Qed.

Lemma pwp_db_call {A} (m : Z -> ste Db DbError A) w :
  calm m -> batch_ids_ok (w_db w) ->
  pwp (db_call m)
    (fun a w' => moved w w' /\ exists now d, evolves (w_db w) d /\ m now d = (Ok a, w_db w'))
    (fun w' => moved w w') w.
Proof.
  intros Hm Hids. unfold pwp, db_call, moved.
  pose proof (polite (w_ext w) (w_db w)) as Hp.
  destruct (db_turn (w_ext w)) as [turn x]. simpl in Hp. destruct (t_fault turn); [done|].
  pose proof (Hm (t_now turn) _ (ev_ids _ _ Hp Hids)) as Hc.
  destruct (m (t_now turn) _) as [r d'] eqn:Em. simpl in Hc.
  assert (evolves (w_db w) d') as Hev by (by etrans).
  destruct r as [a|e|]; simpl; [|done|done]. split; [done|].
  by exists (t_now turn), (t_others turn (w_db w)).
Qed.

Lemma pwp_db_ctx c {A} (m : Z -> ste Db DbError A) w :
  calm m -> batch_ids_ok (w_db w) ->
  pwp (db_ctx c m)
    (fun a w' => moved w w' /\ exists now d, evolves (w_db w) d /\ m now d = (Ok a, w_db w'))
    (fun w' => moved w w') w.
Proof. intros. by apply pwp_with_err, pwp_db_call. Qed.

Lemma pwp_env {E A} (m : st X A) (Q : A -> World X -> Prop) (I : World X -> Prop) w :
  (forall a x, m (w_ext w) = (a, x) -> Q a (mkWorld (w_db w) x (w_log w))) ->
  pwp (E := E) (lift (env m)) Q I w.
Proof. intros HQ. apply pwp_lift. unfold env. destruct (m (w_ext w)). by apply HQ. Qed.

Lemma pwp_backend_call {A} (m : st X (string + A)) w :
  pwp (backend_call m) (fun _ w' => moved w w') (fun w' => moved w w') w.
Proof.
  unfold backend_call. twp_step. apply pwp_env. intros a x _.
  apply pwp_liftr; intros; unfold moved; reflexivity.
Qed.

Lemma pwp_locked_config w :
  pwp locked_config (fun _ w' => moved w w') (fun w' => moved w w') w.
Proof.
  unfold locked_config. twp_step. apply pwp_env. intros a x _.
  apply pwp_liftr; intros; unfold moved; reflexivity.
Qed.

Lemma calm_read {A} (m : ste Db DbError A) : (forall d, snd (m d) = d) -> calm (fun _ => m).
Proof. intros Hm now d _. rewrite Hm. reflexivity. Qed.

Lemma get_orders_read ids d : snd (get_orders ids d) = d.
Proof. unfold get_orders. by destruct ids. Qed.

(** What a row tells about an order, for as long as the tables evolve. *)
Definition has_request (d : Db) (id : string) (rq : ProofRequest) : Prop :=
  exists o, orders d !! id = Some o /\ o_request o = rq.

Lemma has_request_evolves d d' id rq : evolves d d' -> has_request d id rq -> has_request d' id rq.
Proof.
  intros Hev (o & Ho & <-). destruct (ev_rows _ _ Hev id o Ho) as (o' & Ho' & E). by exists o'.
Qed.

Lemma collect_elem {E A B} (f : A -> result E B) l bs y :
  collect f l = Ok bs -> y ∈ bs -> exists a, a ∈ l /\ f a = Ok y.
Proof.
  revert bs. induction l as [|a l IH]; intros bs Hc Hy.
  - injection Hc as <-. by apply not_elem_of_nil in Hy.
  - simpl in Hc. apply result_bind_Ok in Hc as (b & Hb & Hc).
    apply result_bind_Ok in Hc as (bs' & Hbs & Hc). injection Hc as <-.
    apply elem_of_cons in Hy as [->|Hy]; [exists a; split; [left|done]|].
    destruct (IH bs' Hbs Hy) as (a' & Ha' & Hf). exists a'. split; [by right|done].
Qed.

(** The proving data of one order carries the request of its row. *)
Lemma fetch_proving_data_spec ids w :
  batch_ids_ok (w_db w) ->
  pwp (fetch_proving_data ids)
    (fun data w' => moved w w' /\ forall pd, pd ∈ data ->
       exists id, id ∈ ids /\ has_request (w_db w') id (pd_request pd))
    (fun w' => moved w w') w.
Proof.
  intros Hids. unfold fetch_proving_data. twp_step.
  eapply pwp_mono; [apply (pwp_db_ctx _ (fun _ => get_orders ids)); [|done]| |done].
  { apply calm_read, get_orders_read. }
  intros os w' [Hm (now & d & Hev & Hget)]. twp_step. apply pwp_liftr; [|done].
  intros table Ht. apply pwp_liftr; [|done]. intros data Hdata. split; [done|].
  intros pd Hpd. destruct (collect_elem _ _ _ _ Hdata Hpd) as (id & Hin & Hf).
  destruct (table !! id) as [order|] eqn:El; [|done].
  unfold order_proving_data in Hf. apply result_bind_Ok in Hf as (oid & _ & Hf).
  injection Hf as <-. simpl.
  assert (order ∈ os) as Hos.
  { by destruct (by_id_elem os ∅ table id order Ht El). }
  pose proof (get_orders_read ids d) as Hd. rewrite Hget in Hd. simpl in Hd. rewrite Hd.
  unfold get_orders in Hget. destruct ids as [|i ids]; [by apply not_elem_of_nil in Hin|].
  injection Hget as <- _. apply list_elem_of_fmap in Hos as ([k o] & -> & Hsel).
  apply select_orders_spec in Hsel as [Ho Hk]. apply bool_decide_eq_true in Hk.
  exists k. split; [done|]. by exists o.
Qed.

Lemma drop_order_moved id reason w :
  batch_ids_ok (w_db w) -> moved w (snd (drop_order chain_id id reason w)).
Proof.
  intros Hids. unfold drop_order, attempt, mbind, st_bind.
  pose proof (pwp_db_call (fun now => set_order_failure now id reason) w) as Hp.
  unfold pwp in Hp. destruct (db_call _ w) as [r w1].
  assert (moved w w1) as Hm.
  { assert (calm (fun now => set_order_failure now id reason)) as Hc
      by (intros now d _; by apply evolves_update_order).
    specialize (Hp Hc Hids). by destruct r; [destruct Hp|..]. }
  unfold send_completion, mbind, st_bind, env. by destruct (channel_room _ _) as [room x].
Qed.

(** *** Choosing the orders *)

Definition has_selector (d : Db) (r : BatchReadyOrder) : Prop :=
  exists o, orders d !! order_id' r = Some o /\ order_selector o = ready_selector r.

Lemma has_selector_evolves d d' r : evolves d d' -> has_selector d r -> has_selector d' r.
Proof.
  intros Hev (o & Ho & Hs). destruct (ev_rows _ _ Hev _ o Ho) as (o' & Ho' & E).
  exists o'. split; [done|]. unfold order_selector in *. by rewrite E.
Qed.

(** What a peek returns are rows with their selectors. *)
Lemma peek_selectors P d l r s :
  collect with_row_status (select_orders P d) = Ok l -> (r, s) ∈ l -> has_selector d r.
Proof.
  intros Hc Hr. destruct (collect_elem _ _ _ _ Hc Hr) as ([id o] & Hin & Hf).
  apply select_orders_spec in Hin as [Ho _]. unfold with_row_status in Hf.
  apply result_bind_Ok in Hf as (r' & Hb & Hf). injection Hf as <- _.
  unfold batch_ready_order in Hb. apply result_bind_Ok in Hb as (price & _ & Hb).
  injection Hb as <-. by exists o.
Qed.

Lemma filter_non_actionable_spec l t w :
  batch_ids_ok (w_db w) ->
  pwp (filter_non_actionable_orders chain_id l t)
    (fun valid w' => moved w w' /\ forall x, x ∈ valid -> x ∈ l) (fun w' => moved w w') w.
Proof.
  revert w. induction l as [|[r s] l IH]; intros w Hids; cbn [filter_non_actionable_orders].
  { split; [reflexivity|done]. }
  assert (forall w1, moved w w1 ->
    pwp (filter_non_actionable_orders chain_id l t)
      (fun valid w' => moved w w' /\ forall x, x ∈ valid -> x ∈ l) (fun w' => moved w w') w1) as Hgo.
  { intros w1 Hm. eapply pwp_mono; [apply IH; by eapply moved_ids|..].
    - intros v w' [Hm' Hv]. split; [by etrans|done].
    - intros w' Hm'. by etrans. }
  assert (forall reason w1, moved w w1 ->
    pwp (_ ← lift (drop_order chain_id (order_id' r) reason);
         filter_non_actionable_orders chain_id l t)
      (fun valid w' => moved w w' /\ forall x, x ∈ valid -> x ∈ (r, s) :: l)
      (fun w' => moved w w') w1) as Hdrop.
  { intros reason w1 Hm. twp_step. apply pwp_lift. eapply pwp_mono; [apply Hgo| |done].
    - etrans; [exact Hm|]. apply drop_order_moved. by eapply moved_ids.
    - intros v w' [Hm' Hv]. split; [done|]. intros x Hx. right. by apply Hv. }
  destruct (expiration r <? t); [apply Hdrop; reflexivity|].
  twp_step. eapply (pwp_mono _ (fun _ w' => moved w w') _ (fun w' => moved w w')); [|intros b w1 Hm|done].
  - destruct (should_check_fulfilled t r); [|apply pwp_ret; reflexivity].
    twp_step. apply pwp_catch. eapply pwp_mono; [apply pwp_db_call; [by apply calm_read|done]|..].
    + by intros a w' [Hm _].
    + by intros w' Hm.
  - destruct b; [by apply Hdrop|]. twp_step. eapply pwp_mono; [by apply Hgo| |done].
    intros v w' [Hm' Hv]. split; [done|].
    intros x [->|Hx]%elem_of_cons; [left|right; by apply Hv].
Qed.

Lemma resolve_groups_spec backend l w :
  batch_ids_ok (w_db w) ->
  moved w (snd (resolve_assessor_groups chain_id backend l w))
  /\ forall r s g, (r, s, g) ∈ fst (resolve_assessor_groups chain_id backend l w) ->
       (r, s) ∈ l /\ assessor_group backend (ready_selector r) = inr g.
Proof.
  revert w. induction l as [|[r s] l IH]; intros w Hids; cbn [resolve_assessor_groups].
  { split; [unfold moved; reflexivity|]. intros r s g Hin. by apply not_elem_of_nil in Hin. }
  destruct (assessor_group backend (ready_selector r)) as [e|g] eqn:Eg; unfold mbind, st_bind.
  - pose proof (drop_order_moved (order_id' r) "No resolvable assessor group" w Hids) as Hm.
    destruct (drop_order chain_id (order_id' r) "No resolvable assessor group" w) as [u w1].
    simpl in Hm. destruct (IH w1 (moved_ids _ _ Hm Hids)) as [Hm' Hr]. split; [by etrans|].
    intros r' s' g' Hin. destruct (Hr r' s' g' Hin). split; [by right|done].
  - destruct (IH w Hids) as [Hm Hr]. destruct (resolve_assessor_groups chain_id backend l w) as [rest w1].
    simpl in *. split; [done|]. intros r' s' g' [Heq|Hin]%elem_of_cons.
    + injection Heq as -> -> ->. split; [left|done].
    + destruct (Hr r' s' g' Hin). split; [by right|done].
Qed.

Lemma batch_group_spec backend b w :
  batch_ids_ok (w_db w) ->
  pwp (batch_assessor_group backend b)
    (fun g w' => moved w w' /\
       match b_orders b with
       | [] => g = None
       | first :: _ => exists rq, has_request (w_db w') first rq
                         /\ assessor_group backend (selector (requirements rq)) = inr g
       end) (fun w' => moved w w') w.
Proof.
  intros Hids. unfold batch_assessor_group. destruct (b_orders b) as [|first rest].
  { split; [unfold moved; reflexivity|done]. }
  twp_step. eapply pwp_mono; [by apply fetch_proving_data_spec| |done].
  intros data w' [Hm Hd]. destruct data as [|pd data]; [done|].
  apply pwp_liftr; [|done]. intros g Hg. split; [done|].
  destruct (Hd pd) as (id & Hin & Hrq); [left|]. apply list_elem_of_singleton in Hin as ->.
  exists (pd_request pd). split; [done|]. destruct (assessor_group _ _); [done|]. by injection Hg as ->.
Qed.

Lemma match_group_spec backend target l w :
  batch_ids_ok (w_db w) ->
  pwp (match_group backend target l)
    (fun kept w' => moved w w' /\ forall r, r ∈ kept ->
       exists s g, (r, s, g) ∈ l /\ in_target target g = true) (fun w' => moved w w') w.
Proof.
  revert w. induction l as [|[[r s] g] l IH]; intros w Hids; cbn [match_group].
  { split; [unfold moved; reflexivity|]. intros r Hr. by apply not_elem_of_nil in Hr. }
  assert (forall w1, moved w w1 ->
    pwp (match_group backend target l)
      (fun kept w' => moved w w' /\ forall x, x ∈ kept ->
         exists s' g', (x, s', g') ∈ (r, s, g) :: l /\ in_target target g' = true)
      (fun w' => moved w w') w1) as Hgo.
  { intros w1 Hm. eapply pwp_mono; [apply IH; by eapply moved_ids|..].
    - intros v w' [Hm' Hv]. split; [by etrans|]. intros x Hx.
      destruct (Hv x Hx) as (s' & g' & Hin & Ht). exists s', g'. split; [by right|done].
    - intros w' Hm'. by etrans. }
  destruct (in_target target g) eqn:Et.
  - twp_step. eapply pwp_mono; [apply Hgo; reflexivity| |done]. intros v w' [Hm Hv].
    split; [done|]. intros x [->|Hx]%elem_of_cons; [|by apply Hv].
    exists s, g. split; [left|done].
  - case_bool_decide; [|apply Hgo; reflexivity]. twp_step.
    eapply pwp_mono; [apply pwp_db_ctx; [|done]| |done].
    + intros now d _. by apply evolves_update_order.
    + intros _ w1 [Hm _]. by apply Hgo.
Qed.

Lemma claim_group_spec backend target l w :
  batch_ids_ok (w_db w) ->
  pwp (claim_batch_group backend target l)
    (fun kept w' => moved w w' /\ forall r, r ∈ kept ->
       exists s g, (r, s, g) ∈ l /\ in_target target g = true) (fun w' => moved w w') w.
Proof.
  intros Hids. unfold claim_batch_group. twp_step.
  eapply pwp_mono; [by apply match_group_spec| |done]. intros kept w1 [Hm Hk].
  twp_step. eapply pwp_mono; [apply pwp_db_ctx|..].
  - intros now d _. unfold claim_orders_for_batch. destruct (order_id' <$> kept); [reflexivity|].
    by apply evolves_update_where.
  - by eapply moved_ids.
  - intros claimed w' [Hm' _]. split; [by etrans|]. intros r Hr.
    apply list_elem_of_filter in Hr as [_ Hr]. by apply Hk.
  - intros w' Hm'. by etrans.
Qed.

Lemma first_group_Some l t : first_group l = Some t -> exists r s, (r, s, Some t) ∈ l.
Proof.
  unfold first_group. intros Ht. apply head_Some_elem_of, list_elem_of_omap in Ht
    as ([[r s] g] & Hin & Hg). simpl in Hg. subst g. by exists r, s.
Qed.

Lemma first_group_None l r s g : first_group l = None -> (r, s, g) ∈ l -> g = None.
Proof.
  unfold first_group. intros Hn Hin. destruct g as [t|]; [|done]. exfalso.
  apply head_None in Hn. assert (t ∈ omap (fun r : Resolved => r.2) l) as Ht.
  { apply list_elem_of_omap. by exists (r, s, Some t). }
  rewrite Hn in Ht. by apply not_elem_of_nil in Ht.
Qed.

(** The chosen orders: stored with their selectors, in the target group; and
    the group that the batch already holds is the target, if there is one. *)
Record chosen (backend : string) (b : Batch) (d : Db) (kept : list BatchReadyOrder) : Prop :=
  mkChosen {
  ch_rows r : r ∈ kept -> has_selector d r;
  ch_target : exists target,
    (forall r, r ∈ kept -> exists g, assessor_group backend (ready_selector r) = inr g
       /\ match target with Some _ => g = target | None => g = None end)
    /\ match b_orders b with
       | [] => True
       | first :: _ => exists rq g, has_request d first rq
           /\ assessor_group backend (selector (requirements rq)) = inr g
           /\ (g = None \/ g = target)
       end
}.

Lemma resolve_ready_spec backend w :
  batch_ids_ok (w_db w) ->
  pwp (resolve_ready_orders chain_id backend)
    (fun '(rb, rd) w' => moved w w' /\ forall r s g, (r, s, g) ∈ rb ++ rd ->
       has_selector (w_db w') r /\ assessor_group backend (ready_selector r) = inr g)
    (fun w' => moved w w') w.
Proof.
  intros Hids. unfold resolve_ready_orders. twp_step. apply pwp_env. intros t x _.
  set (w0 := mkWorld (w_db w) x (w_log w)). change (moved w) with (moved w0).
  change (batch_ids_ok (w_db w0)) in Hids. clearbody w0. clear w x. rename w0 into w.
  twp_step. eapply pwp_mono; [apply (pwp_db_ctx _ (fun _ => peek_pending_batch_orders backend));
    [by apply calm_read|done]| |done].
  intros bp w1 [M1 (n1 & d1 & _ & Hbp)]. injection Hbp as Hbp Ed1.
  twp_step. eapply pwp_mono; [apply (pwp_db_ctx _ (fun _ =>
    peek_pending_direct_submission_orders backend)); [by apply calm_read|by eapply moved_ids]| |
    intros w' M; by etrans].
  intros dp w2 [M12 (n2 & d2 & _ & Hdp)]. injection Hdp as Hdp Ed2.
  assert (forall r s, (r, s) ∈ bp \/ (r, s) ∈ dp -> has_selector (w_db w2) r) as Hsel.
  { intros r s [Hr|Hr].
    - apply (has_selector_evolves _ _ _ M12). rewrite <- Ed1. by eapply peek_selectors.
    - rewrite <- Ed2. by eapply peek_selectors. }
  assert (moved w w2) as M2 by (by etrans). clear M1 M12 Hbp Hdp Ed1 Ed2 w1 d1 d2 n1 n2.
  twp_step. eapply pwp_mono; [apply filter_non_actionable_spec; by eapply moved_ids| |
    intros w' M; by etrans].
  intros br w3 [M3 Hbr]. twp_step. assert (moved w w3) as M03 by (by etrans).
  eapply pwp_mono; [apply filter_non_actionable_spec; by eapply moved_ids| |
    intros w' M; by etrans].
  intros dr w4 [M4 Hdr]. assert (moved w w4) as M04 by (by etrans).
  twp_step. apply pwp_lift.
  destruct (resolve_groups_spec backend br w4 (moved_ids _ _ M04 Hids)) as [M5 Hrb].
  destruct (resolve_assessor_groups chain_id backend br w4) as [rb w5]. simpl in *.
  assert (moved w w5) as M05 by (by etrans). twp_step. apply pwp_lift.
  destruct (resolve_groups_spec backend dr w5 (moved_ids _ _ M05 Hids)) as [M6 Hrd].
  destruct (resolve_assessor_groups chain_id backend dr w5) as [rd w6]. simpl in *.
  assert (moved w2 w6) as M26 by (do 4 (etrans; [eassumption|]); reflexivity).
  apply pwp_ret. split; [by etrans|]. intros r s g Hin.
  assert (((r, s) ∈ bp \/ (r, s) ∈ dp) /\ assessor_group backend (ready_selector r) = inr g)
    as [Hp Hg].
  { apply elem_of_app in Hin as [Hin|Hin];
      [destruct (Hrb _ _ _ Hin)|destruct (Hrd _ _ _ Hin)]; naive_solver. }
  split; [|done]. apply (has_selector_evolves _ _ _ M26). by apply (Hsel r s).
Qed.

Lemma select_spec backend b w :
  batch_ids_ok (w_db w) ->
  pwp (select_open_batch_orders chain_id backend b)
    (fun '(upd, dir) w' => moved w w' /\ chosen backend b (w_db w') (upd ++ dir))
    (fun w' => moved w w') w.
Proof.
  intros Hids. unfold select_open_batch_orders. twp_step.
  eapply pwp_mono; [by apply resolve_ready_spec| |done].
  intros [rb rd] w6 [M06 Hres].
  twp_step. eapply pwp_mono; [apply batch_group_spec; exact (moved_ids _ _ M06 Hids)| |
    intros w' M; by etrans].
  intros held w7 [M7 Hheld]. assert (moved w w7) as M07 by (by etrans). cbv zeta.
  set (target := match held with Some _ => _ | None => _ end).
  assert (forall r s g, (r, s, g) ∈ rb ++ rd -> in_target target g = true ->
    match target with Some _ => g = target | None => g = None end) as Htarget.
  { intros r s g Hin Hin_t. destruct target as [t'|] eqn:Et.
    - unfold in_target in Hin_t. simpl in Hin_t. by apply bool_decide_eq_true in Hin_t.
    - subst target. destruct held; [done|]. by eapply first_group_None. }
  twp_step. eapply pwp_mono; [apply claim_group_spec; exact (moved_ids _ _ M07 Hids)| |
    intros w' M; by etrans].
  intros upd w8 [M8 Hupd]. apply pwp_ret. split; [by etrans|].
  assert (forall r, r ∈ upd ++ filter_direct_target_group target rd ->
    exists s g, (r, s, g) ∈ rb ++ rd /\ in_target target g = true) as Hk.
  { intros r [Hr|Hr]%elem_of_app.
    - destruct (Hupd r Hr) as (s & g & Hin & Ht). exists s, g. split; [apply elem_of_app; by left|done].
    - unfold filter_direct_target_group in Hr. apply list_elem_of_fmap in Hr
        as ([[r' s] g] & -> & [Ht Hin]%list_elem_of_filter).
      exists s, g. split; [apply elem_of_app; by right|done]. }
  split.
  - intros r Hr. destruct (Hk r Hr) as (s & g & Hin & _). apply Hres in Hin as [Hs _].
    apply (has_selector_evolves (w_db w6)); [|done]. by transitivity (w_db w7).
  - exists target. split.
    + intros r Hr. destruct (Hk r Hr) as (s & g & Hin & Ht). exists g.
      split; [by apply (Hres r s g)|by apply (Htarget r s)].
    + destruct (b_orders b) as [|first rest]; [done|]. destruct Hheld as (rq & Hrq & Hg).
      exists rq, held. split; [by apply (has_request_evolves _ _ _ _ M8)|]. split; [done|].
      subst target. destruct held; auto.
Qed.

(** *** Filling the batch *)

(** Whether an order has a group does not depend on its selector: a backend
    groups its orders or it does not. *)
Definition uniform (backend : string) : Prop :=
  forall s1 s2 g, assessor_group backend s1 = inr None -> assessor_group backend s2 = inr g ->
    g = None.

Lemma chosen_evolves backend b d d' kept :
  evolves d d' -> chosen backend b d kept -> chosen backend b d' kept.
Proof.
  intros Hev [Hr (target & Hk & Hb)]. split.
  - intros r Hin. by apply (has_selector_evolves d), Hr.
  - exists target. split; [done|]. destruct (b_orders b) as [|first rest]; [done|].
    destruct Hb as (rq & g & Hrq & Hg). exists rq, g. split; [|done].
    by apply (has_request_evolves d).
Qed.

(** The chosen orders and those of the batch share a group. *)
Lemma chosen_class backend bid b b0 d kept :
  uniform backend -> one_class d -> batches d !! bid = Some b -> b_backend_id b = backend ->
  b_orders b = b_orders b0 -> chosen backend b0 d kept ->
  exists g, (forall r, r ∈ kept -> has_selector d r
               /\ assessor_group backend (ready_selector r) = inr g)
    /\ forall id, id ∈ b_orders b -> exists o, orders d !! id = Some o
         /\ assessor_group backend (order_selector o) = inr g.
Proof.
  intros Hu Hone Hb Hbe Eo [Hrows (target & Hk & Hheld)]. rewrite <- Eo in Hheld.
  destruct (Hone bid b Hb) as [gb Hgb]. rewrite Hbe in Hgb.
  destruct (b_orders b) as [|first rest].
  - exists target. split; [|intros id Hin; by apply not_elem_of_nil in Hin].
    intros r Hr. split; [by apply Hrows|]. destruct (Hk r Hr) as (g & -> & Ht).
    by destruct target; subst g.
  - destruct Hheld as (rq & g & (o & Ho & <-) & Hg & Hgt).
    destruct (Hgb first) as (o' & Ho' & Hg'); [left|]. rewrite Ho in Ho'. injection Ho' as <-.
    unfold order_selector in Hg'. rewrite Hg in Hg'. injection Hg' as <-.
    exists g. split; [|done]. intros r Hr. split; [by apply Hrows|].
    destruct (Hk r Hr) as (gr & Hgr & Ht). rewrite Hgr. f_equal.
    destruct Hgt as [->| ->]; [|by destruct target].
    by eapply Hu.
Qed.

Definition good (d : Db) : Prop := batch_ids_ok d /\ one_class d.

Lemma update_batch_good backend bid b b0 d kept now state fin :
  uniform backend -> good d -> batches d !! bid = Some b -> b_backend_id b = backend ->
  b_orders b = b_orders b0 -> chosen backend b0 d kept ->
  good (snd (update_batch now bid state kept fin d)).
Proof.
  intros Hu [Hids Hone] Hb Hbe Eo Hch.
  destruct (chosen_class backend bid b b0 d kept Hu Hone Hb Hbe Eo Hch) as (g & Hk & Hg).
  destruct (update_batch_run now bid state kept fin d b Hb) as [Hrun _].
  destruct Hrun as (d' & -> & [(b' & Hbs & Eo' & _ & _ & _ & _ & Ebe) Hos (_ & _ & Hlast)]).
  { apply Forall_forall. intros r Hr. destruct (Hk r Hr) as [(o & -> & _) _]. done. }
  simpl. assert (forall id o, orders d !! id = Some o -> exists o', orders d' !! id = Some o'
    /\ order_selector o' = order_selector o) as Hrow.
  { intros id o Ho. rewrite Hos. unfold submit_all. rewrite lookup_update_where, Ho. simpl.
    eexists. split; [done|]. by case_bool_decide. }
  split.
  - destruct Hids as [Hl Hids]. split; [by rewrite Hlast|]. rewrite Hlast, Hbs. intros i Hi.
    apply Hids. destruct (decide (i = bid)) as [->|Hne]; [by eexists|].
    by rewrite lookup_insert_ne in Hi.
  - intros i bi. rewrite Hbs. destruct (decide (i = bid)) as [->|Hne].
    + rewrite lookup_insert_eq. intros [= <-]. exists g. rewrite Eo', Ebe, Hbe.
      assert (forall id, id ∈ b_orders b ++ (order_id' <$> kept) -> exists o,
        orders d !! id = Some o /\ assessor_group backend (order_selector o) = inr g) as Hall.
      { intros id [Hin|Hin]%elem_of_app; [by apply Hg|].
        apply list_elem_of_fmap in Hin as (r & -> & Hr).
        destruct (Hk r Hr) as [(o & Ho & Hs) Hgr]. exists o. by rewrite Hs. }
      intros id Hin. destruct (Hall id Hin) as (o & Ho & Hgo).
      destruct (Hrow id o Ho) as (o' & Ho' & Es). exists o'. by rewrite Es.
    + rewrite lookup_insert_ne by done. intros Hi. destruct (Hone i bi Hi) as [gi Hgi].
      exists gi. intros id Hin. destruct (Hgi id Hin) as (o & Ho & Hgo).
      destruct (Hrow id o Ho) as (o' & Ho' & Es). exists o'. by rewrite Es.
Qed.

Lemma good_moved w w' : moved w w' -> good (w_db w) -> good (w_db w').
Proof. intros M [Hi Ho]. split; [by eapply moved_ids|by eapply one_class_evolves]. Qed.

Lemma pwp_then {A B} (m : ste (World X) BatcherErr A) (f : A -> ste (World X) BatcherErr B) w0 w :
  moved w0 w -> batch_ids_ok (w_db w0) ->
  (batch_ids_ok (w_db w) -> pwp m (fun _ w' => moved w w') (fun w' => moved w w') w) ->
  (forall a w', moved w0 w' ->
     pwp (f a) (fun _ w'' => moved w0 w'') (fun w'' => moved w0 w'') w') ->
  pwp (m ≫= f) (fun _ w' => moved w0 w') (fun w' => moved w0 w') w.
Proof.
  intros M Hids Hm Hf. twp_step. eapply pwp_mono; [apply Hm; by eapply moved_ids|..].
  - intros a w' M'. apply Hf. by etrans.
  - intros w' M'. by etrans.
Qed.

(** An early return of a value. *)
Ltac pwp_if :=
  lazymatch goal with
  | |- pwp (if ?c then mret _ else _) _ _ _ => destruct c; [by apply pwp_ret|]
  end.

Lemma check_finalize_moved backend b pending w :
  batch_ids_ok (w_db w) ->
  pwp (check_finalize backend b pending) (fun _ w' => moved w w') (fun w' => moved w w') w.
Proof.
  intros Hids. unfold check_finalize.
  assert (forall l w1, batch_ids_ok (w_db w1) ->
    pwp (fetch_proving_data l) (fun _ w' => moved w1 w') (fun w' => moved w1 w') w1) as Hfetch.
  { intros l w1 Hi. eapply pwp_mono; [by apply fetch_proving_data_spec|by intros ? ? []|done]. }
  assert (forall (f : st X Z) w1, pwp (lift (E := BatcherErr) (env f)) (fun _ w' => moved w1 w')
    (fun w' => moved w1 w') w1) as Henv.
  { intros f w1. apply pwp_env. intros a x _. unfold moved. reflexivity. }
  apply pwp_then; [reflexivity|done|intros _; apply pwp_locked_config|].
  intros cfg w1 M1. twp_step. apply pwp_liftr; [|done]. intros fees _. cbv zeta.
  pwp_if. pwp_if.
  apply pwp_then; [done|done|apply Hfetch|]. intros existing w2 M2.
  apply pwp_then; [done|done|apply Hfetch|]. intros pd w3 M3.
  apply pwp_then; [done|done|intros _; apply pwp_backend_call|]. intros size w4 M4.
  pwp_if.
  apply pwp_then; [done|done|intros _; apply Henv|]. intros now w5 M5.
  pwp_if. pwp_if.
  apply pwp_then; [done|done|intros _; apply pwp_locked_config|]. intros cfg' w6 M6.
  apply pwp_then; [done|done|intros _; apply Henv|]. intros t w7 M7. by apply pwp_ret.
Qed.

Lemma close_moved backend bid w :
  batch_ids_ok (w_db w) ->
  pwp (close_current_batch backend bid) (fun _ w' => moved w w') (fun w' => moved w w') w.
Proof.
  intros Hids. unfold close_current_batch.
  assert (forall c A (m : Z -> ste Db DbError A) w1, calm m -> batch_ids_ok (w_db w1) ->
    pwp (db_ctx c m) (fun _ w' => moved w1 w') (fun w' => moved w1 w') w1) as Hdb.
  { intros c A m w1 Hm Hi. eapply pwp_mono; [by apply pwp_db_ctx|by intros ? ? []|done]. }
  apply pwp_then; [reflexivity|done|intros Hi; apply Hdb; [|done]|].
  { apply calm_read. intros d. unfold get_batch. by destruct (batches d !! bid). }
  intros b w1 M1. twp_step. apply pwp_env. intros answer x _.
  destruct answer as [err|close].
  - twp_step. apply pwp_with_err. eapply pwp_mono; [apply pwp_db_call|..].
    + intros now d _. by apply evolves_batch_row.
    + exact (moved_ids _ _ M1 Hids).
    + intros _ w' [M' _]. change (moved w w'). by transitivity w1.
    + intros w' M'. by transitivity w1.
  - eapply pwp_mono; [apply Hdb|..].
    + intros now d _. by apply evolves_batch_row.
    + exact (moved_ids _ _ M1 Hids).
    + intros ? w' M'. by transitivity w1.
    + intros w' M'. by transitivity w1.
Qed.

(** The orders that [select_open_batch_orders] chose keep the invariant. *)
Lemma update_backend_batch_good backend bid b b0 upd dir fin w :
  uniform backend -> good (w_db w) -> batches (w_db w) !! bid = Some b ->
  b_backend_id b = backend -> b_orders b = b_orders b0 ->
  chosen backend b0 (w_db w) (upd ++ dir) ->
  pwp (update_backend_batch backend bid b0 upd dir fin)
    (fun _ w' => good (w_db w')) (fun w' => good (w_db w')) w.
Proof.
  intros Hu Hgood Hb Hbe Eo Hch. unfold update_backend_batch. cbv zeta.
  destruct Hgood as [Hids Hone].
  assert (forall w', moved w w' -> good (w_db w')) as Hgm.
  { intros w' M. by apply (good_moved w). }
  twp_step. eapply pwp_mono; [by apply fetch_proving_data_spec| |done]. intros pd w1 [M1 _].
  twp_step. eapply (pwp_mono _ (fun _ w' => moved w w') _ (fun w' => moved w w')); [|intros ex w2 M2|done].
  { destruct fin; [|by apply pwp_ret]. eapply pwp_mono; [apply fetch_proving_data_spec|..].
    - by eapply moved_ids.
    - intros ? w' [M' _]. by etrans.
    - intros w' M'. by etrans. }
  twp_step. eapply pwp_mono; [apply pwp_backend_call|..].
  2: { intros w' M'. apply Hgm. by etrans. }
  intros update w3 M3. assert (moved w w3) as M03 by (by etrans). twp_step.
  apply pwp_with_err. unfold pwp, db_call. pose proof (polite (w_ext w3) (w_db w3)) as Hp.
  destruct (db_turn (w_ext w3)) as [turn x]. simpl in Hp.
  assert (evolves (w_db w) (t_others turn (w_db w3))) as Hev by (by transitivity (w_db w3)).
  assert (good (t_others turn (w_db w3))) as Hgd.
  { split; [by apply (ev_ids _ _ Hev)|by apply (one_class_evolves _ _ Hev)]. }
  destruct (t_fault turn); [done|].
  destruct (ev_batches _ _ Hev bid b Hb) as (b' & Hb' & Eo' & Eb').
  pose proof (update_batch_good backend bid b' b0 (t_others turn (w_db w3)) (upd ++ dir)
    (t_now turn) (bu_state update) (bu_finalize update) Hu Hgd Hb'
    ltac:(by rewrite Eb') ltac:(by rewrite Eo')
    (chosen_evolves _ _ _ _ _ Hev Hch)) as Hfin.
  by destruct (update_batch _ _ _ _ _ _) as [[] ?].
Qed.

End OneClass.

(** C30. A batch carries one assessor seal, and its orders stay in one assessor
    class: whatever a pass of the batcher does, ends with, or is interrupted by,
    a database in which the orders of each batch are stored and resolve to the
    same assessor group has this property afterwards.  The backend groups all
    of its orders or none, and the other tasks do not fill batches. *)
Theorem process_backend_batch_one_class `{Externals} `{SqlEngine} {X} `{BrokerEnv X}
    `{BatcherEnv X} `{!PoliteTasks} chain_id backend w :
  uniform backend -> batch_ids_ok (w_db w) -> one_class (w_db w) ->
  let d' := w_db (snd (process_backend_batch chain_id backend w)) in
  batch_ids_ok d' /\ one_class d'.
Proof.
  intros Hu Hids Hone. assert (good (w_db w)) as Hg by done.
  enough (pwp (process_backend_batch chain_id backend) (fun _ w' => good (w_db w'))
            (fun w' => good (w_db w')) w) as Hp.
  { unfold pwp in Hp. by destruct (process_backend_batch chain_id backend w) as [[] ?]. }
  assert (forall w', moved w w' -> good (w_db w')) as Hgm by (intros w' M; by apply (good_moved w)).
  unfold process_backend_batch. twp_step. eapply pwp_mono; [apply pwp_db_ctx; [|done]| |done].
  { intros now d Hd. by apply get_current_batch_evolves. }
  intros bid w1 [M1 (now & d & Hd & Hget)].
  destruct (get_current_batch_evolves now backend d (ev_ids _ _ Hd Hids)) as [_ Hcur].
  rewrite Hget in Hcur. destruct (Hcur bid eq_refl) as (b1 & Hb1 & Hbe). simpl in Hb1.
  twp_step. eapply pwp_mono; [apply pwp_db_ctx; [|by eapply moved_ids]|..].
  { apply calm_read. intros d'. unfold get_batch. by destruct (batches d' !! bid). }
  2: { intros w' M'. apply Hgm. by etrans. }
  intros b w2 [M2 (now' & d2 & Hd2 & Hgb)]. assert (moved w w2) as M02 by (by etrans).
  assert (batches (w_db w2) !! bid = Some b) as Hb.
  { unfold get_batch in Hgb. destruct (batches d2 !! bid) eqn:E; [|done]. by injection Hgb as -> <-. }
  assert (b_backend_id b = backend) as Hbb.
  { destruct (ev_batches _ _ M2 bid b1 Hb1) as (b' & Hb' & _ & E). rewrite Hb in Hb'.
    injection Hb' as <-. congruence. }
  assert (forall w3, good (w_db w3) ->
    pwp (close_current_batch backend bid) (fun _ w' => good (w_db w')) (fun w' => good (w_db w')) w3)
    as Hclose.
  { intros w3 Hg3. eapply pwp_mono; [apply close_moved; by destruct Hg3|..]; intros; by apply (good_moved w3). }
  destruct (b_status b); [|by apply Hclose, Hgm|by apply Hgm..].
  twp_step. eapply pwp_mono; [exact (select_spec chain_id backend b w2 (moved_ids _ _ M02 Hids))| |].
  2: { intros w' M'. apply Hgm. by etrans. }
  intros [upd dir] w3 [M3 Hch]. assert (moved w w3) as M03 by (by etrans).
  twp_step. eapply pwp_mono; [exact (check_finalize_moved _ b _ w3 (moved_ids _ _ M03 Hids))| |].
  2: { intros w' M'. apply Hgm. by transitivity w3. }
  intros fin w4 M4. assert (moved w w4) as M04 by (by transitivity w3).
  assert (moved w2 w4) as M24 by (by transitivity w3).
  destruct (negb fin && bool_decide (upd = [])); [by apply Hgm|].
  destruct (ev_batches _ _ M24 bid b Hb) as (b' & Hb' & Eo & Ebe).
  twp_step. eapply pwp_mono; [apply (update_backend_batch_good backend bid b' b)|..]; try done.
  - by apply Hgm.
  - by rewrite Ebe.
  - by apply (chosen_evolves _ _ _ _ _ M4).
  - intros ? w5 Hg5. destruct fin; [by apply Hclose|by apply pwp_ret].
Qed.

(** ** When a batch waits *)

Lemma min_deadline_le pending dl m :
  min_deadline pending dl = Some m ->
  (forall o, o ∈ pending -> m <= expiration o) /\ (forall d, dl = Some d -> m <= d).
Proof.
  unfold min_deadline. set (l := (expiration <$> pending) ++ option_list dl).
  assert (forall x, x ∈ l -> min_deadline pending dl = Some m -> m <= x) as Hl.
  { unfold min_deadline. fold l. destruct l as [|d ds]; [done|]. intros x Hx [= <-].
    assert (foldl Z.min d ds <= d /\ forall y, y ∈ ds -> foldl Z.min d ds <= y) as [H1 H2].
    { clear. revert d. induction ds as [|e ds IH]; intros d; simpl.
      - split; [lia|]. by intros y Hy%not_elem_of_nil.
      - destruct (IH (Z.min d e)) as [H1 H2]. split; [lia|].
        intros y [->|Hy]%elem_of_cons; [lia|by apply H2]. }
    apply elem_of_cons in Hx as [->|Hx]; auto. }
  intros Hm. split.
  - intros o Ho. apply Hl; [|done]. apply elem_of_app. left. apply list_elem_of_fmap. by exists o.
  - intros d ->. apply Hl; [|done]. apply elem_of_app. right. by left.
Qed.

(** A batch that is not finalized has nothing in it, or is below its target
    size and has no order, old or new, whose expiry is within the buffer. *)
Lemma check_finalize_waits `{Externals} `{SqlEngine} {X} `{BrokerEnv X} `{BatcherEnv X}
    backend b pending w w' :
  check_finalize backend b pending w = (Ok false, w') ->
  (b_backend_state b = None /\ pending = [])
  \/ exists cfg cfg' now,
       Z.of_nat (length (b_orders b) + length pending) < min_batch_size cfg
       /\ Z.of_nat (length (b_orders b) + length pending) < sc_max_concurrent_proofs cfg
       /\ (forall o, o ∈ pending -> 0 <= now -> 0 <= block_deadline_buffer_secs cfg' ->
             now + block_deadline_buffer_secs cfg' < expiration o)
       /\ (forall d, b_deadline b = Some d -> 0 <= now -> 0 <= block_deadline_buffer_secs cfg' ->
             now + block_deadline_buffer_secs cfg' < d).
Proof.
  unfold check_finalize. intros Hc.
  bind_step Hc cfg w1 E1. bind_step Hc fees w2 E2. cbv zeta in Hc.
  destruct (bool_decide (b_backend_state b = None) && bool_decide (pending = [])) eqn:Ei.
  { left. apply andb_prop in Ei as [Ea Eb]. by rewrite !bool_decide_eq_true in Ea, Eb. }
  right. destruct (_ <=? Z.of_nat (length (b_orders b) + length pending)) eqn:Es; [done|].
  bind_step Hc old w3 E3. bind_step Hc pds w4 E4. bind_step Hc sz w5 E5.
  destruct (batch_max_journal_bytes cfg <=? sz); [done|]. bind_step Hc utc w6 E6.
  destruct (batch_max_time cfg <=? _); [done|].
  destruct (match fees with Some _ => _ | None => _ end); [done|].
  bind_step Hc cfg' w7 E7. bind_step Hc now w8 E8. injection Hc as Hc _.
  exists cfg, cfg', now. apply Z.leb_gt in Es.
  destruct (Z.ltb_spec (sc_max_concurrent_proofs cfg) (min_batch_size cfg));
    (split; [lia|]; split; [lia|]).
  all: destruct (min_deadline pending (b_deadline b)) as [m|] eqn:Em.
  all: try (apply min_deadline_le in Em as [Hp Hd]; apply Z.leb_gt in Hc; unfold sat_sub in Hc;
    split; [intros o Ho; specialize (Hp o Ho); lia|intros d Hd'; specialize (Hd d Hd'); lia]).
  all: unfold min_deadline in Em; destruct pending as [|o l]; [|done];
    destruct (b_deadline b); [done|]; split; [by intros o Ho%not_elem_of_nil|done].
Qed.

(** ** Witnesses *)

(** A configuration that does not finalize small batches. *)
Definition patient_config : ServiceConfig := {|
  cancel_proving_expired_orders := false; proof_retry_count := 2; proof_retry_sleep_ms := 500;
  reaper_interval_secs := 60; reaper_grace_period_secs := 10; batch_max_time := 1000;
  min_batch_size := 10; batch_max_journal_bytes := 1000; batch_max_fees := None;
  block_deadline_buffer_secs := 20; single_txn_fulfill := true; withdraw := false;
  max_submission_attempts := 2; submit_retry_delay_ms := 100; batch_poll_time_ms := Some 1000;
  sc_max_concurrent_proofs := 10
|}.

(** The other tasks act once, before the turn [k] at the database, with [f]. *)
Definition turn_env (k : nat) (f : Db -> Db) : BrokerEnv (Z * nat) := {|
  db_turn := fun '(t, n) => (mkTurn (if (n =? k)%nat then f else id) t None, (t, S n));
  now_timestamp := fun '(t, n) => (t, (t, n));
  lock_all := fun x => (Some patient_config, x);
  sleep_ms := fun _ x => (tt, x);
  channel_room := fun _ x => (true, x);
  db_error_text := fun _ => "database error"
|}.

Definition toy_batcher : BatcherEnv (Z * nat) := {|
  backend_ids := ["b"];
  assessor_group := fun _ _ => inr (Some 9);
  estimate_batch_size := fun _ _ x => (inr 0, x);
  backend_update_batch := fun _ cmd x => (inr (mkBatchUpdate [] (ub_finalize cmd)), x);
  backend_close_batch := fun _ _ x => (inr (mkBatchClose []), x);
  utc_now := fun '(t, n) => (t, (t, n));
  parse_ether := fun _ => None
|}.

(** One order for the batch and one for direct submission. *)
Definition two_ready_db : Db :=
  run_db (set_order_batch_status 981 toy_id2 ReadyForSubmission "b") ready_db.

Definition status_in (id : string) (d : Db) : option OrderStatus := status <$> orders d !! id.

Definition pass (k : nat) (f : Db -> Db) (d : Db) : Db :=
  w_db (snd (@process_backend_batch toy_externals toy_engine (Z * nat) (turn_env k f) toy_batcher 1
               "b" (mkWorld d (985, O) []))).

Lemma process_backend_batch_one_class_witness :
  batch_ids_ok (pass 0 id two_ready_db)
  /\ @one_class (Z * nat) toy_batcher (pass 0 id two_ready_db)
  /\ b_orders <$> batches (pass 0 id two_ready_db) !! 1 = Some [toy_id; toy_id2].
Proof.
  assert (Hp : @PoliteTasks (Z * nat) (turn_env 0 id)).
  { split. intros [t n] d. simpl. destruct (n =? 0)%nat; reflexivity. }
  assert (He : batches two_ready_db = ∅) by (vm_compute; reflexivity).
  assert (Hl : last_batch_id two_ready_db = 0) by (vm_compute; reflexivity).
  destruct (@process_backend_batch_one_class toy_externals toy_engine (Z * nat) (turn_env 0 id)
    toy_batcher Hp 1 "b" (mkWorld two_ready_db (985, O) [])) as [Hi Ho].
  - intros s1 s2 g Hs. discriminate Hs.
  - split; cbn [w_db]; [rewrite Hl; lia|]. rewrite He. intros i [x Hx]. discriminate Hx.
  - intros i b Hb. cbn [w_db] in Hb. rewrite He in Hb. discriminate Hb.
  - split; [exact Hi|]. split; [exact Ho|]. vm_compute. reflexivity.
Defined.

(** ** Orders for direct submission *)

(** A pass that adds orders takes those for direct submission along although it
    does not finalize the batch, which stays open. *)
Lemma direct_orders_join_open_batch :
  let d' := pass 0 id two_ready_db in
  status_in toy_id2 two_ready_db = Some ReadyForSubmission
  /\ status_in toy_id2 d' = Some PendingSubmission
  /\ b_status <$> batches d' !! 1 = Some BsOpen.
Proof. vm_compute. split_and!; reflexivity. Qed.

(** Orders for direct submission are not claimed: one that another task fails
    after the peek is written back as pending submission and stays in the
    batch. *)
Lemma failed_direct_order_resurrected :
  let reap := run_db (set_order_failure 986 toy_id2 "Order expired in reaper") in
  let d' := pass 9 reap two_ready_db in
  status_in toy_id2 (reap two_ready_db) = Some Failed
  /\ orders d' !! toy_id2 ≫= error_msg = Some "Order expired in reaper"
  /\ status_in toy_id2 d' = Some PendingSubmission
  /\ b_orders <$> batches d' !! 1 = Some [toy_id; toy_id2].
Proof. vm_compute. split_and!; reflexivity. Qed.
