(* ===== verification/Submitter.v ===== *)
(** * Submitter: fulfilling the complete batches

    [crates/broker/src/submitter/service.rs] with its [error.rs], the
    fulfillment data of [crates/boundless-backend/src/types.rs] and
    [FulfillmentTx] of [contracts/boundless_market.rs].

    The class [SubmitterEnv] holds the calls to the backend (the construction of
    the fulfillments and the updates of the verifier) and to the market
    contract.  A fulfillment transaction is recorded in the log of the world
    with its outcome.  The text of an error that is only printed is reduced to
    the data it is made from; [submitter_debug] stands for the printing of the
    one that is stored.  Telemetry is not modelled. *)

From S2P Require Import Prelude Market Auction OrderPricing Db Committer FulfillTx Pipeline MarketService.
From Stdlib Require Import Strings.Byte.

Local Open Scope Z_scope.

(** ** Errors *)

Inductive SubmitterErr :=
| BatchSubmissionFailed (errs : list SubmitterErr)
| BatchSubmissionFailedTimeouts (errs : list SubmitterErr)
| TxnConfirmationError (e : MarketError)
| AllRequestsExpiredBeforeSubmission (orders : list Order)
| SomeRequestsExpiredBeforeSubmission (orders : list Order)
| SubMarketError (e : MarketError)
| SubUnexpectedErr (e : string).

Definition submitter_code (e : SubmitterErr) : string :=
  match e with
  | SubUnexpectedErr _ => "[B-SUB-500]"
  | AllRequestsExpiredBeforeSubmission _ => "[B-SUB-001]"
  | SomeRequestsExpiredBeforeSubmission _ => "[B-SUB-005]"
  | SubMarketError _ => "[B-SUB-002]"
  | BatchSubmissionFailed _ => "[B-SUB-004]"
  | BatchSubmissionFailedTimeouts _ => "[B-SUB-003]"
  | TxnConfirmationError _ => "[B-SUB-006]"
  end.

(** ** Fulfillments *)

Record FulfillmentOrder := mkFulfillmentOrder {
  fo_order_id : string;
  fo_request : ProofRequest;
  fo_program_id : bytes;
  fo_backend_state : option bytes
}.

Record FulfillmentBatch := mkFulfillmentBatch {
  fb_backend_id : string;
  fb_state : option bytes;
  fb_domain : EIP712DomainSaltless;
  fb_orders : list FulfillmentOrder
}.

Inductive VerifierUpdate := SubmitMerkleRoot (verifier root : Z) (seal : bytes).

Inductive VerifierUpdateError :=
| VuTxnConfirmation (e : string)
| VuOther (e : string).

Record OrderFulfillmentArtifact := mkArtifact {
  art_order_id : string;
  art_request : ProofRequest;
  art_fulfillment : Fulfillment
}.

Record FailedFulfillmentOrder := mkFailedOrder {
  ff_order_id : string;
  ff_error : string
}.

(** The assessor artifact is reduced to the seal, the only part that is read. *)
Record SubmissionPlan := mkPlan {
  verifier_updates : list VerifierUpdate;
  failed_orders : list FailedFulfillmentOrder;
  plan_orders : list OrderFulfillmentArtifact;
  assessor_seal : bytes
}.

Class SubmitterEnv (X : Type) := {
  market_domain : st X (MarketError + EIP712DomainSaltless);
  build_fulfillments : FulfillmentBatch -> st X (string + SubmissionPlan);
  verifier_update_applied : string -> VerifierUpdate -> st X (string + bool);
  apply_verifier_update : string -> VerifierUpdate -> st X (VerifierUpdateError + unit);
  market_fulfill : FulfillmentTx -> st X (MarketError + unit);
  collateral_token_decimals : st X (MarketError + Z);
  get_request_fulfillment_prover : Z -> st X (MarketError + Z);
  (** [hex::decode] *)
  hex_decode : string -> option bytes;
  (** the decimals for which [format_units] does not fail *)
  units_supported : Z -> bool;
  (** [format!("{err:?}")] *)
  submitter_debug : SubmitterErr -> string
}.

(** What the loop over the orders of a batch collects. *)
Record Prep := mkPrep {
  requests_to_price : list UnlockedRequest;
  order_prices : gmap string (Z * Z);
  fulfillment_orders : list FulfillmentOrder;
  skipped_done_orders : list string
}.

Definition prep_empty : Prep := mkPrep [] ∅ [] [].

Definition skip_done (id : string) (p : Prep) : Prep :=
  mkPrep (requests_to_price p) (order_prices p) (fulfillment_orders p)
    (skipped_done_orders p ++ [id]).

Section Submitter.
Context `{Externals} `{SqlEngine} {X : Type} `{BrokerEnv X} `{SubmitterEnv X}.
Variables (chain_id prover_address : Z).

Notation W := (World X).

(** [call.await?] of an environment call that returns an error value. *)
Definition call {E F A} (f : E -> F) (m : st X (E + A)) : ste W F A :=
  answer ← lift (env m);
  liftr match answer with inr a => Ok a | inl e => Err (f e) end.

(** [.context(..)?] on a database call. *)
Definition db_or (c : string) {A} (m : Z -> ste Db DbError A) : ste W SubmitterErr A :=
  with_err (fun e => SubUnexpectedErr (c +:+ ": " +:+ db_error_text e)) (db_call m).

Definition submit_failure (code reason : string) (o : CompletionOutcome) : BrokerFailure :=
  mkFailure code reason o.

(** The loop of [handle_expired_requests_error]. *)
Fixpoint fail_expired (orders : list Order) : ste W SubmitterErr unit :=
  match orders with
  | [] => mret tt
  | order :: orders =>
      order_id ← liftr (id_of order);
      _ ← lift (handle_order_failure order_id
                  (submit_failure "[B-SUB-001]" "Expired before submission"
                     CoExpiredBeforeSubmission) chain_id);
      fail_expired orders
  end.

Definition handle_expired_requests_error (orders : list Order) : ste W SubmitterErr unit :=
  _ ← fail_expired orders;
  throw (AllRequestsExpiredBeforeSubmission orders).

Definition classify_fulfillment_error (err : MarketError) : SubmitterErr :=
  match err with
  | MTxnConfirmationError _ => TxnConfirmationError err
  | _ => SubMarketError err
  end.

(** The [async] block: everything that may fail comes before the pushes. *)
Definition prepare_order (orders_by_id : gmap string Order) (id : string) (prep : Prep)
    : ste W string Prep :=
  '(request, client_sig, image_id, price, ty) ←
    with_err (fun e => "Failed to get order from DB for submission, order NOT finalized: "
                       +:+ db_error_text e)
      (db_call (fun _ => get_submission_order id));
  raw ← liftr (ok_or "Failed to decode order image ID" (hex_decode image_id));
  program_id ← liftr (if bool_decide (length raw = 32%nat) then Ok raw
                      else Err "Order image ID must be 32 bytes");
  '(to_price, reward) ←
    match ty with
    | FulfillAfterLockExpire =>
        reward ← liftr (collateral_reward_if_locked_and_not_fulfilled (offer request));
        mret (requests_to_price prep ++ [mkUnlocked request client_sig], reward)
    | _ => mret (requests_to_price prep, 0)
    end;
  mret (mkPrep to_price (<[id := (price, reward)]> (order_prices prep))
          (fulfillment_orders prep
           ++ [mkFulfillmentOrder id request program_id (orders_by_id !! id ≫= backend_state)])
          (skipped_done_orders prep)).

Definition unexpected_code : string := "[B-SUB-500]".

(** The loop over [batch.orders]. *)
Fixpoint prepare_orders (orders_by_id : gmap string Order) (ids : list string) (prep : Prep)
    : ste W SubmitterErr Prep :=
  match ids with
  | [] => mret prep
  | id :: ids =>
      if bool_decide (status <$> orders_by_id !! id = Some Done)
      then prepare_orders orders_by_id ids (skip_done id prep)
      else if bool_decide (status <$> orders_by_id !! id = Some Failed)
      then prepare_orders orders_by_id ids prep
      else
        res ← catch (prepare_order orders_by_id id prep);
        match res with
        | inr prep' => prepare_orders orders_by_id ids prep'
        | inl _ =>
            _ ← lift (handle_order_failure id
                        (submit_failure unexpected_code "Failed to submit" CoProvingFailed)
                        chain_id);
            prepare_orders orders_by_id ids prep
        end
  end.

Fixpoint fail_unbuilt (failed : list FailedFulfillmentOrder) : st W unit :=
  match failed with
  | [] => mret tt
  | f :: failed =>
      _ ← handle_order_failure (ff_order_id f)
            (submit_failure unexpected_code "Failed to submit" CoProvingFailed) chain_id;
      fail_unbuilt failed
  end.

Definition fulfillment_to_order_id (arts : list OrderFulfillmentArtifact) : gmap Z string :=
  foldl (fun m a => <[reqId (art_request a) := art_order_id a]> m) ∅ arts.

(** The names of the orders, for a message; the lookup unwraps. *)
Definition order_names {E} (to_order : gmap Z string) (request_ids : list Z)
    : result E (list string) :=
  collect (fun id => unwrap (to_order !! id)) request_ids.

Definition update_market_error (e : VerifierUpdateError) : MarketError :=
  match e with
  | VuTxnConfirmation e => MTxnConfirmationError e
  | VuOther e => MError e
  end.

(** The loop over the verifier updates. *)
Fixpoint run_verifier_updates (backend : string) (single_txn : bool) (to_order : gmap Z string)
    (request_ids : list Z) (updates : list VerifierUpdate) (tx : FulfillmentTx)
    : ste W SubmitterErr FulfillmentTx :=
  match updates with
  | [] => mret tx
  | (SubmitMerkleRoot verifier root seal) as update :: updates =>
      if single_txn then
        run_verifier_updates backend single_txn to_order request_ids updates
          (with_submit_root tx verifier root seal)
      else
        answer ← lift (env (verifier_update_applied backend update));
        if match answer with inr applied => applied | inl _ => false end
        then run_verifier_updates backend single_txn to_order request_ids updates tx
        else
          res ← lift (env (apply_verifier_update backend update));
          match res with
          | inr _ => run_verifier_updates backend single_txn to_order request_ids updates tx
          | inl err =>
              _ ← liftr (order_names to_order request_ids);
              throw (classify_fulfillment_error (update_market_error err))
          end
  end.

(** [self.market.fulfill(tx)], with the transaction and its outcome recorded. *)
Definition fulfill (tx : FulfillmentTx) : st W (MarketError + unit) :=
  answer ← env (market_fulfill tx);
  _ ← emit (FulfillSent tx (match answer with inr _ => true | inl _ => false end));
  mret answer.

(** The loop after the transaction has succeeded. *)
Fixpoint complete_orders (to_order : gmap Z string) (prices : gmap string (Z * Z))
    (request_ids : list Z) : ste W SubmitterErr unit :=
  match request_ids with
  | [] => mret tt
  | request_id :: request_ids =>
      order_id ← liftr (unwrap (to_order !! request_id));
      stored ← catch (db_call (fun now => set_order_complete now order_id));
      match stored with
      | inl _ => complete_orders to_order prices request_ids
      | inr _ =>
          _ ← lift (send_completion (mkCompletion order_id chain_id OutcomeProvingCompleted));
          let '(_, reward) := default (0, 0) (prices !! order_id) in
          decimals ← call SubMarketError collateral_token_decimals;
          _ ← liftr (if units_supported decimals then Ok tt else Panic);
          _ ← (if 0 <? reward then
                 _ ← lift (env (get_request_fulfillment_prover request_id)); mret tt
               else mret tt);
          complete_orders to_order prices request_ids
      end
  end.

(** The part of [submit_batch] after the fulfillments are built. *)
Definition send_fulfillments (batch : Batch) (prep : Prep) (plan : SubmissionPlan)
    : ste W SubmitterErr unit :=
  match plan_orders plan with
  | [] => throw (SubUnexpectedErr "No fulfillments to submit for batch")
  | arts =>
      cfg ← lift (env lock_all);
      cfg ← liftr (ok_or (SubUnexpectedErr "Failed to read config") cfg);
      let to_order := fulfillment_to_order_id arts in
      let request_ids := (fun a => reqId (art_request a)) <$> arts in
      let tx := with_unlocked_requests
                  (with_withdraw
                     (fulfillment_tx_new (art_request <$> arts) (art_fulfillment <$> arts)
                        (assessor_seal plan) prover_address) (withdraw cfg))
                  (requests_to_price prep) in
      tx ← run_verifier_updates (b_backend_id batch) (single_txn_fulfill cfg) to_order
             request_ids (verifier_updates plan) tx;
      sent ← lift (fulfill tx);
      match sent with
      | inl err =>
          _ ← liftr (order_names to_order request_ids);
          throw (classify_fulfillment_error err)
      | inr _ => complete_orders to_order (order_prices prep) request_ids
      end
  end.

Definition submit_batch (batch : Batch) : ste W SubmitterErr unit :=
  now ← lift (env now_timestamp);
  orders ← db_or "Failed to get orders" (fun _ => get_orders (b_orders batch));
  let expired := filter (fun o => expires_at (o_request o) < now) orders in
  if bool_decide (length expired = length orders)
  then handle_expired_requests_error orders
  else
    orders_by_id ← liftr (by_id orders ∅);
    prep ← prepare_orders orders_by_id (b_orders batch) prep_empty;
    match fulfillment_orders prep with
    | [] =>
        if bool_decide (length (skipped_done_orders prep) = length (b_orders batch))
        then mret tt
        else throw (SubUnexpectedErr "No fulfillments to submit for batch")
    | _ =>
        domain ← call SubMarketError market_domain;
        plan ← call SubUnexpectedErr
                 (build_fulfillments (mkFulfillmentBatch (b_backend_id batch)
                    (b_backend_state batch) domain (fulfillment_orders prep)));
        _ ← lift (fail_unbuilt (failed_orders plan));
        send_fulfillments batch prep plan
    end.

(** Every error is retried except those about payment. *)
Definition should_resubmit (err : SubmitterErr) : bool :=
  match err with
  | SubMarketError (PaymentRequirementsFailed _ | PaymentRequirementsFailedUnknownError _) => false
  | _ => true
  end.

(** The loop that fails the orders of a batch once the retries are spent. *)
Fixpoint fail_batch_orders (err : SubmitterErr) (ids : list string) : ste W SubmitterErr unit :=
  match ids with
  | [] => mret tt
  | id :: ids =>
      found ← catch (db_call (fun _ => get_order id));
      if match found with
         | inr (Some o) => bool_decide (status o ∈ [Done; Failed])
         | _ => false
         end
      then fail_batch_orders err ids
      else
        _ ← lift (handle_order_failure id
                    (submit_failure (submitter_code err) "Failed to submit batch"
                       CoProvingFailed) chain_id);
        fail_batch_orders err ids
  end.

(** [process_next_batch] once a batch was taken. *)
Definition process_batch (batch_id : Z) (batch : Batch) : ste W SubmitterErr unit :=
  cfg ← lift (env lock_all);
  cfg ← liftr (ok_or (SubUnexpectedErr "Failed to read config") cfg);
  res ← catch (retry_only_with_context (sat_sub (max_submission_attempts cfg) 1)
                 (submit_retry_delay_ms cfg) (submit_batch batch) should_resubmit);
  match res with
  | inr _ => db_or "Failed to set batch submitted" (fun _ => set_batch_submitted batch_id)
  | inl err =>
      _ ← fail_batch_orders err (b_orders batch);
      stored ← catch (db_call (fun _ => set_batch_failure batch_id (submitter_debug err)));
      match stored with
      | inl _ => throw (SubUnexpectedErr "Failed to set batch failure in db")
      | inr _ =>
          throw match err with
                | TxnConfirmationError _ => BatchSubmissionFailedTimeouts [err]
                | _ => BatchSubmissionFailed [err]
                end
      end
  end.

Definition process_next_batch : ste W SubmitterErr unit :=
  next ← db_or "Failed to get complete batch" (fun _ => get_complete_batch);
  match next with
  | None => mret tt
  | Some (batch_id, batch) => process_batch batch_id batch
  end.

(** The loop of [run]; only unexpected errors end the service. *)
Fixpoint run (cancelled : list bool) : ste W (SupervisorErr SubmitterErr) unit :=
  match cancelled with
  | [] | true :: _ => mret tt
  | false :: cancelled =>
      res ← catch process_next_batch;
      _ ← match res with
          | inl ((BatchSubmissionFailed _ | BatchSubmissionFailedTimeouts _)) | inr _ => mret tt
          | inl err => throw (Recover err)
          end;
      _ ← lift (env (sleep_ms 1000));
      run cancelled
  end.

End Submitter.

(** ** The batch and its orders are settled *)

(** A fulfillment that the request's predicate can be checked against: it carries
    the claim digest that the requestor named, or else the image id and the journal
    of a claim. *)
Definition answers_request (r : ProofRequest) (f : Fulfillment) : Prop :=
  let pred := predicate (requirements r) in
  match predicateType pred with
  | PtClaimDigestMatch =>
      claimDigest f = predicateData pred /\ fulfillmentDataType f = FdtNone
      /\ fulfillmentData f = []
  | PtPrefixMatch | PtDigestMatch => fulfillmentDataType f = FdtImageIdAndJournal
  | PtInvalid => False
  end.

(** What the backend promises about a plan: every order is built or reported,
    and every artifact is for an order that was asked for and answers its
    request. *)
Class PlanLaws (X : Type) `{SubmitterEnv X} := {
  plan_covers fb x plan x' fo :
    build_fulfillments fb x = (inr plan, x') -> fo ∈ fb_orders fb ->
    fo_order_id fo ∈ (ff_order_id <$> failed_orders plan)
    \/ fo_order_id fo ∈ (art_order_id <$> plan_orders plan);
  plan_sound fb x plan x' a :
    build_fulfillments fb x = (inr plan, x') -> a ∈ plan_orders plan ->
    exists fo, fo ∈ fb_orders fb /\ art_order_id a = fo_order_id fo
      /\ art_request a = fo_request fo
      /\ answers_request (art_request a) (art_fulfillment a);
  decimals_supported x n x' :
    collateral_token_decimals x = (inr n, x') -> units_supported n = true
}.

Section Jobs.
Context `{Externals} `{SqlEngine} {X : Type} `{BrokerEnv X} `{SubmitterEnv X} `{!PlanLaws X}.
Context (S : string -> Prop) `{!QuietDb S}.
Variables (chain_id prover_address bid : Z) (b : Batch) (w1 : World X).
Context `{!QuietBatches (eq bid)}.

(** The rows of the batch when it was taken up: stored under their identifiers,
    with collateral in range, and for distinct requests. *)
Record submittable : Prop := mkSubmittable {
  sub_rows id : id ∈ b_orders b -> S id /\ exists o, row id w1 = Some o
    /\ db_order_id o = Ok id /\ fits 256 (lockCollateral (offer (o_request o)));
  sub_distinct id1 id2 o1 o2 :
    id1 ∈ b_orders b -> id2 ∈ b_orders b -> row id1 w1 = Some o1 -> row id2 w1 = Some o2 ->
    reqId (o_request o1) = reqId (o_request o2) -> id1 = id2
}.
Hypothesis Hsub : submittable.

(** The transaction that the market was sent has the request among the fulfilled
    ones, and at the same place a fulfillment that answers it. *)
Definition pays (r : ProofRequest) (tx : FulfillmentTx) : Prop :=
  exists i f, fulfilled tx !! i = Some r /\ fulfillments tx !! i = Some f
    /\ answers_request r f.

(** The service has sent the market such a transaction, and the market has
    accepted that very transaction. *)
Definition paid (r : ProofRequest) (w : World X) : Prop :=
  exists tx, FulfillSent tx true ∈ w_log w /\ pays r tx
    /\ exists x x', market_fulfill tx x = (inr tt, x').

Definition terminal (id : string) (w : World X) : Prop :=
  exists o, row id w = Some o /\ (status o = Done \/ status o = Failed).

(** The rows of the batch are still those jobs, an order is done only when it
    was or when it is paid, and the batch is being submitted. *)
Record jobs (w : World X) : Prop := mkJobs {
  jobs_row id : id ∈ b_orders b ->
    exists o o', row id w1 = Some o /\ row id w = Some o' /\ agrees o o'
      /\ (status o' = Done -> status o = Done \/ paid (o_request o) w);
  jobs_batch : batches (w_db w) !! bid = Some b
}.

(** Progress: the jobs are kept, and what is settled stays settled. *)
Record grows (w w' : World X) : Prop := mkGrows {
  grows_jobs : jobs w';
  grows_terminal id : id ∈ b_orders b -> terminal id w -> terminal id w';
  grows_paid r : paid r w -> paid r w'
}.

Lemma grows_refl w : jobs w -> grows w w.
Proof. by split. Qed.

Lemma grows_trans w w' w'' : grows w w' -> grows w' w'' -> grows w w''.
Proof. intros [] []. split; eauto. Qed.

Lemma agrees_id o o' : agrees o o' -> db_order_id o' = db_order_id o.
Proof.
  unfold agrees, db_order_id. intros (Hm & Hc & Ht & Hr & _). by rewrite Hm, Hc, Ht, Hr.
Qed.

Lemma paid_log r w d x l : paid r w -> paid r (mkWorld d x (w_log w ++ l)).
Proof.
  intros (tx & Hin & Hr). exists tx. split; [|done]. simpl. apply elem_of_app. by left.
Qed.

(** The tables as the other tasks leave them, with a longer log. *)
Lemma grows_turn w d x l :
  jobs w -> (forall id, S id -> orders d !! id = row id w) ->
  batches d !! bid = batches (w_db w) !! bid ->
  grows w (mkWorld d x (w_log w ++ l)).
Proof.
  intros [Hrow Hb] Hd Hbd.
  assert (forall r, paid r w -> paid r (mkWorld d x (w_log w ++ l))) as Hpaid
    by (intros r; apply paid_log).
  split; [split| |done].
  - intros id Hin. destruct (sub_rows Hsub id Hin) as [HS _].
    destruct (Hrow id Hin) as (o & o' & Ho & Ho' & Ha & Hdone).
    exists o, o'. unfold row at 2. simpl. rewrite (Hd id HS). split_and!; [done..|].
    intros Hs. destruct (Hdone Hs); auto.
  - simpl. by rewrite Hbd.
  - intros id Hin (o & Ho & Hs). destruct (sub_rows Hsub id Hin) as [HS _].
    exists o. unfold row. simpl. by rewrite (Hd id HS).
Qed.

Lemma grows_ext w x : jobs w -> grows w (mkWorld (w_db w) x (w_log w)).
Proof. intros Hj. rewrite <- (app_nil_r (w_log w)). by apply grows_turn. Qed.

(** Writing one row, of the batch or not. *)
Lemma grows_update w id f x l :
  jobs w -> (forall o, agrees o (f o)) ->
  (forall o, status (f o) = Done \/ status (f o) = Failed) ->
  (forall o, row id w1 = Some o -> status (f o) = Done -> paid (o_request o) w) ->
  (forall o o', agrees o o' -> status (f o) = status (f o')) ->
  let w' := mkWorld (snd (update_order id f (w_db w))) x (w_log w ++ l) in
  grows w w' /\ (id ∈ b_orders b -> terminal id w').
Proof.
  intros [Hrow Hb] Hf Hterm Hdone Hst w'.
  assert (forall r, paid r w -> paid r w') as Hpaid by (intros r; apply paid_log).
  assert (forall id', id' <> id -> row id' w' = row id' w) as Hne.
  { intros id' Hne. unfold row. subst w'. unfold update_order. simpl.
    destruct (orders (w_db w) !! id); [|done]. simpl. by rewrite lookup_insert_ne. }
  assert (forall o', row id w = Some o' -> row id w' = Some (f o')) as Heq.
  { intros o' Ho'. unfold row in *. subst w'. unfold update_order. simpl. rewrite Ho'. simpl.
    by rewrite lookup_insert_eq. }
  assert (id ∈ b_orders b -> terminal id w') as Ht.
  { intros Hin. destruct (Hrow id Hin) as (o & o' & _ & Ho' & _). exists (f o'). auto. }
  split; [split; [split| |done]|done].
  - intros id' Hin. destruct (Hrow id' Hin) as (o & o' & Ho & Ho' & Ha & Hd).
    destruct (decide (id' = id)) as [->|Hn].
    + exists o, (f o'). split_and!; [done|by apply Heq|by eapply agrees_trans|].
      intros Hs. right. apply Hpaid, (Hdone o); [done|]. by rewrite (Hst _ _ Ha).
    + exists o, o'. rewrite (Hne id' Hn). split_and!; [done..|].
      intros Hs. destruct (Hd Hs); auto.
  - subst w'. unfold update_order. by destruct (orders (w_db w) !! id).
  - intros id' Hin (o & Ho & Hs). destruct (decide (id' = id)) as [->|Hn]; [by apply Ht|].
    exists o. by rewrite (Hne id' Hn).
Qed.

(** [handle_order_failure] settles its order. *)
Lemma grows_failure w id failure :
  jobs w ->
  let w' := snd (handle_order_failure id failure chain_id w) in
  grows w w' /\ (id ∈ b_orders b -> terminal id w').
Proof.
  intros Hj. unfold handle_order_failure, attempt, mbind, st_bind.
  set (m := fun now => Db.set_order_failure now id (show_failure failure)).
  assert (twp (catch (F := unit) (db_call m))
    (fun _ w' => grows w w' /\ (id ∈ b_orders b -> terminal id w')) (fun _ _ => False) w) as Hm.
  { apply twp_catch. apply (twp_db_call S (eq bid)). intros now d x Hd Hb.
    assert (grows w (mkWorld d x (w_log w))) as Hg.
    { rewrite <- (app_nil_r (w_log w)). apply grows_turn; [done|done|by apply Hb]. }
    destruct (grows_update (mkWorld d x (w_log w)) id
      (fun o => set_error_msg (show_failure failure) (set_status Failed now o)) x []
      (grows_jobs _ _ Hg)) as [Hu Ht]; try done.
    { by intros o; right. }
    unfold twp, m, Db.set_order_failure. simpl in *. rewrite app_nil_r in Hu, Ht.
    destruct (update_order _ _ d) as [r d'] eqn:Eu. simpl in *.
    unfold update_order in Eu. destruct (orders d !! id); injection Eu as <- <-;
      (split; [by eapply grows_trans|done]). }
  unfold twp, catch in Hm. destruct (db_call m w) as [r w2].
  assert (grows w w2 /\ (id ∈ b_orders b -> terminal id w2)) as [Hg Ht] by (by destruct r).
  unfold send_completion, mbind, st_bind, env. destruct (channel_room _ _) as [room x]. simpl.
  split; [|done]. eapply grows_trans; [done|]. apply (grows_turn w2); [by destruct Hg|done|done].
Qed.

(** A query sees the rows of the batch and changes nothing. *)
Lemma twp_query {A} (m : ste Db DbError A) (Q : A -> World X -> Prop)
    (R : DbError -> World X -> Prop) w :
  jobs w -> (forall d, snd (m d) = d) -> (forall d, fst (m d) <> Panic) ->
  (forall w' a, grows w w' -> (forall id, S id -> row id w' = row id w) ->
     fst (m (w_db w')) = Ok a -> Q a w') ->
  (forall w' e, grows w w' -> R e w') ->
  twp (db_call (fun _ => m)) Q R w.
Proof.
  intros Hj Hm Hp HQ HR. apply (twp_db_call S (eq bid)). intros now d x Hd Hb.
  assert (grows w (mkWorld d x (w_log w))) as Hg.
  { rewrite <- (app_nil_r (w_log w)). apply grows_turn; [done|done|by apply Hb]. }
  unfold twp. simpl. specialize (Hm d). specialize (Hp d).
  specialize (HQ (mkWorld d x (w_log w))). simpl in HQ.
  destruct (m d) as [[a|e|] d']; simpl in *; subst d'; [|by apply HR|done].
  by apply HQ.
Qed.

Lemma twp_call {E F A} (f : E -> F) (m : st X (E + A)) (Q : A -> World X -> Prop)
    (R : F -> World X -> Prop) w :
  (forall a x, m (w_ext w) = (inr a, x) -> Q a (mkWorld (w_db w) x (w_log w))) ->
  (forall e x, m (w_ext w) = (inl e, x) -> R (f e) (mkWorld (w_db w) x (w_log w))) ->
  twp (call f m) Q R w.
Proof.
  intros HQ HR. unfold call. twp_step. apply twp_env. intros [e|a] x Hm.
  - unfold twp, liftr. by apply HR.
  - by eapply twp_liftr_ok; [|apply HQ].
Qed.

Lemma jobs_known w id :
  jobs w -> id ∈ b_orders b ->
  exists o o', row id w1 = Some o /\ row id w = Some o' /\ o_request o' = o_request o
    /\ db_order_id o' = Ok id /\ fits 256 (lockCollateral (offer (o_request o))).
Proof.
  intros [Hrow _] Hin. destruct (Hrow id Hin) as (o & o' & Ho & Ho' & Ha & _).
  destruct (sub_rows Hsub id Hin) as [_ (o2 & Ho2 & Hid & Hfit)]. rewrite Ho in Ho2.
  injection Ho2 as <-. exists o, o'. rewrite (agrees_id _ _ Ha). unfold agrees in Ha. naive_solver.
Qed.

(** *** The expired batch *)

Lemma fail_expired_spec orders w :
  jobs w -> (forall o, o ∈ orders -> exists id, db_order_id o = Ok id) ->
  twp (fail_expired chain_id orders) (fun _ w' => grows w w') (fun _ _ => False) w.
Proof.
  revert w. induction orders as [|o orders IH]; intros w Hj Hid; simpl.
  { by apply grows_refl. }
  destruct (Hid o) as [id Ho]; [left|]. unfold id_of. rewrite Ho.
  twp_step. eapply twp_liftr_ok; [done|]. twp_step. apply twp_lift.
  destruct (grows_failure w id (submit_failure "[B-SUB-001]" "Expired before submission"
    CoExpiredBeforeSubmission) Hj) as [Hg _].
  eapply twp_mono; [apply IH; [by destruct Hg|]| |done].
  - intros o' Ho'. apply Hid. by right.
  - intros ? w' Hw'. by eapply grows_trans.
Qed.

(** *** The orders to fulfill *)

(** The fulfillment orders that are collected are jobs of the batch. *)
Definition prep_ok (p : Prep) : Prop :=
  forall fo, fo ∈ fulfillment_orders p ->
    fo_order_id fo ∈ b_orders b /\ exists o, row (fo_order_id fo) w1 = Some o
      /\ fo_request fo = o_request o.

Definition prepared (id : string) (p : Prep) : Prop :=
  exists fo, fo ∈ fulfillment_orders p /\ fo_order_id fo = id.

Lemma get_submission_order_query id d :
  snd (get_submission_order id d) = d /\ fst (get_submission_order id d) <> Panic
  /\ forall rq sg im pr ty, fst (get_submission_order id d) = Ok (rq, sg, im, pr, ty) ->
       exists o, orders d !! id = Some o /\ rq = o_request o.
Proof.
  unfold get_submission_order, get_order, mbind, ste_bind. simpl.
  destruct (orders d !! id) as [o|]; [|by split_and!].
  case_bool_decide; [by split_and!|]. unfold liftr, ok_or.
  destruct (o_image_id o); [|by split_and!]. destruct (lock_price o); [|by split_and!].
  split_and!; [done|done|]. simpl. intros rq sg im pr ty [= <- <- <- <- <-]. by exists o.
Qed.

Lemma prepare_order_spec snap id prep w :
  jobs w -> id ∈ b_orders b -> prep_ok prep ->
  twp (prepare_order snap id prep)
    (fun p' w' => grows w w' /\ prep_ok p' /\ prepared id p'
       /\ forall id', prepared id' prep -> prepared id' p')
    (fun _ w' => grows w w') w.
Proof.
  intros Hj Hin Hp. unfold prepare_order. twp_step. apply twp_with_err.
  apply twp_query; [done|intros; apply get_submission_order_query..| |done].
  intros w' [[[[rq sg] im] pr] ty] Hg Hrows Hq.
  apply get_submission_order_query in Hq as (o' & Ho' & ->).
  destruct (jobs_known w' id (grows_jobs _ _ Hg) Hin) as (o & o2 & Ho & Ho2 & Hreq & _ & Hfit).
  unfold row in Ho2. rewrite Ho' in Ho2. injection Ho2 as <-. rewrite Hreq.
  twp_step. destruct (hex_decode im) as [raw|]; [|done]. apply (twp_liftr_ok _ raw); [done|].
  twp_step. case_bool_decide; [|done]. apply (twp_liftr_ok _ raw); [done|].
  assert (forall to_price reward,
    grows w w' /\ prep_ok (mkPrep to_price (<[id := (pr, reward)]> (order_prices prep))
      (fulfillment_orders prep
       ++ [mkFulfillmentOrder id (o_request o) raw (snap !! id ≫= backend_state)])
      (skipped_done_orders prep))
    /\ prepared id (mkPrep to_price (<[id := (pr, reward)]> (order_prices prep))
      (fulfillment_orders prep
       ++ [mkFulfillmentOrder id (o_request o) raw (snap !! id ≫= backend_state)])
      (skipped_done_orders prep))
    /\ forall id', prepared id' prep -> prepared id' (mkPrep to_price
        (<[id := (pr, reward)]> (order_prices prep))
      (fulfillment_orders prep
       ++ [mkFulfillmentOrder id (o_request o) raw (snap !! id ≫= backend_state)])
      (skipped_done_orders prep))) as Hend.
  { intros to_price reward. split_and!; [done| | |].
    - intros fo Hfo. simpl in Hfo. apply elem_of_app in Hfo as [Hfo|Hfo]; [by apply Hp|].
      apply list_elem_of_singleton in Hfo as ->. split; [done|]. by exists o.
    - eexists. split; [simpl; apply elem_of_app; right; by apply list_elem_of_singleton|done].
    - intros id' (fo & Hfo & Hid'). exists fo. split; [|done]. simpl. apply elem_of_app. by left. }
  twp_step. destruct ty; [apply twp_ret, twp_ret, Hend| |apply twp_ret, twp_ret, Hend].
  twp_step. rewrite (collateral_reward_half _ Hfit). eapply twp_liftr_ok; [done|].
  apply twp_ret, twp_ret, Hend.
Qed.

Lemma prepare_orders_spec snap ids prep w :
  jobs w -> (forall id, id ∈ ids -> id ∈ b_orders b) -> prep_ok prep ->
  (forall id o, id ∈ b_orders b -> snap !! id = Some o ->
     status o = Done \/ status o = Failed -> terminal id w) ->
  twp (prepare_orders chain_id snap ids prep)
    (fun p' w' => grows w w' /\ prep_ok p' /\ (forall id, prepared id prep -> prepared id p')
       /\ forall id, id ∈ ids -> terminal id w' \/ prepared id p')
    (fun _ _ => False) w.
Proof.
  revert prep w. induction ids as [|id ids IH]; intros prep w Hj Hids Hp Hsnap; cbn [prepare_orders].
  { split_and!; [by apply grows_refl|done|done|]. intros id Hin. by apply not_elem_of_nil in Hin. }
  assert (id ∈ b_orders b) as Hin by (apply Hids; left).
  assert (forall prep' w2, grows w w2 -> prep_ok prep' ->
    (forall id', prepared id' prep -> prepared id' prep') ->
    terminal id w2 \/ prepared id prep' ->
    twp (prepare_orders chain_id snap ids prep')
    (fun p' w' => grows w w' /\ prep_ok p' /\ (forall id, prepared id prep -> prepared id p')
       /\ forall id', id' ∈ id :: ids -> terminal id' w' \/ prepared id' p')
    (fun _ _ => False) w2) as Hgo.
  { intros prep' w2 Hg Hp' Hkeep Hthis. eapply twp_mono; [apply (IH prep' w2)| |done].
    - by destruct Hg.
    - intros id' Hin'. apply Hids. by right.
    - done.
    - intros id' o Hin' Ho Hs. apply (grows_terminal _ _ Hg); [done|]. by eapply Hsnap.
    - intros p' w' (Hg' & Hp'' & Hk' & Hall). split_and!; [by eapply grows_trans|done|auto|].
      intros id' [->|Hin']%elem_of_cons; [|by apply Hall].
      destruct Hthis as [Ht|Hpr]; [left; by apply (grows_terminal _ _ Hg')|right; auto]. }
  case_bool_decide as HD.
  { apply Hgo; [by apply grows_refl|done|done|]. left.
    destruct (snap !! id) as [o|] eqn:Eo; [|done]. injection HD as HD. apply (Hsnap id o); auto. }
  case_bool_decide as HF.
  { apply Hgo; [by apply grows_refl|done|done|]. left.
    destruct (snap !! id) as [o|] eqn:Eo; [|done]. injection HF as HF. apply (Hsnap id o); auto. }
  twp_step. apply twp_catch. eapply twp_mono; [by apply (prepare_order_spec snap id prep w)| |].
  - intros p' w2 (Hg & Hp' & Hpr & Hkeep). apply Hgo; auto.
  - intros e w2 Hg. twp_step. apply twp_lift.
    destruct (grows_failure w2 id (submit_failure unexpected_code "Failed to submit"
      CoProvingFailed) (grows_jobs _ _ Hg)) as [Hg2 Ht].
    apply Hgo; [exact (grows_trans _ _ _ Hg Hg2)|done|done|left; auto].
Qed.

Lemma fail_unbuilt_spec failed w :
  jobs w ->
  let w' := snd (fail_unbuilt chain_id failed w) in
  grows w w' /\ forall id, id ∈ ff_order_id <$> failed -> id ∈ b_orders b -> terminal id w'.
Proof.
  revert w. induction failed as [|f failed IH]; intros w Hj; cbn [fail_unbuilt].
  { split; [by apply grows_refl|]. intros id Hin. by apply not_elem_of_nil in Hin. }
  destruct (grows_failure w (ff_order_id f) (submit_failure unexpected_code "Failed to submit"
    CoProvingFailed) Hj) as [Hg Ht].
  unfold mbind, st_bind. destruct (handle_order_failure _ _ _ w) as [u w2]. simpl in Hg, Ht.
  destruct (IH w2 (grows_jobs _ _ Hg)) as [Hg2 Hrest]. split; [by eapply grows_trans|].
  intros id [->|Hin]%elem_of_cons Hid; [|by apply Hrest].
  apply (grows_terminal _ _ Hg2); auto.
Qed.

(** *** The transaction *)

(** Artifacts for the jobs of the batch. *)
Definition arts_ok (arts : list OrderFulfillmentArtifact) : Prop :=
  forall a, a ∈ arts -> art_order_id a ∈ b_orders b /\ exists o,
    row (art_order_id a) w1 = Some o /\ art_request a = o_request o
      /\ answers_request (art_request a) (art_fulfillment a).

Lemma to_order_foldl arts (m : gmap Z string) rid id :
  foldl (fun m a => <[reqId (art_request a) := art_order_id a]> m) m arts !! rid = Some id ->
  m !! rid = Some id \/ exists a, a ∈ arts /\ reqId (art_request a) = rid /\ art_order_id a = id.
Proof.
  revert m. induction arts as [|a arts IH]; intros m Hl; [by left|]. simpl in Hl.
  apply IH in Hl as [Hl|(a' & Hin & Ha)].
  - destruct (decide (reqId (art_request a) = rid)) as [<-|Hne].
    + rewrite lookup_insert_eq in Hl. injection Hl as <-. right. exists a. split; [left|done].
    + rewrite lookup_insert_ne in Hl by done. by left.
  - right. exists a'. split; [by right|done].
Qed.

Lemma to_order_dom arts (m : gmap Z string) rid :
  is_Some (m !! rid) \/ rid ∈ (fun a => reqId (art_request a)) <$> arts ->
  is_Some (foldl (fun m a => <[reqId (art_request a) := art_order_id a]> m) m arts !! rid).
Proof.
  revert m. induction arts as [|a arts IH]; intros m Hl; simpl.
  { destruct Hl as [Hl|Hl]; [done|by apply not_elem_of_nil in Hl]. }
  apply IH. destruct (decide (reqId (art_request a) = rid)) as [<-|Hne].
  - left. by rewrite lookup_insert_eq.
  - rewrite lookup_insert_ne by done. destruct Hl as [Hl|Hl]; [by left|].
    right. by apply elem_of_cons in Hl as [->|Hl].
Qed.

(** With distinct requests the table leads back to the order of an artifact. *)
Lemma to_order_spec arts a :
  arts_ok arts -> a ∈ arts ->
  fulfillment_to_order_id arts !! reqId (art_request a) = Some (art_order_id a).
Proof.
  intros Hok Hin. unfold fulfillment_to_order_id.
  destruct (to_order_dom arts ∅ (reqId (art_request a))) as [id Hid].
  { right. apply list_elem_of_fmap. by exists a. }
  rewrite Hid. apply to_order_foldl in Hid as [Hid|(a' & Hin' & Hr & <-)]; [done|].
  destruct (Hok a Hin) as [Hb (o & Ho & Hrq & _)].
  destruct (Hok a' Hin') as [Hb' (o' & Ho' & Hrq' & _)].
  f_equal. apply (sub_distinct Hsub _ _ o' o); try done. by rewrite <- Hrq, <- Hrq'.
Qed.

Lemma order_names_ok {E} m ids :
  (forall id, id ∈ ids -> is_Some (m !! id)) -> exists l, order_names (E := E) m ids = Ok l.
Proof.
  induction ids as [|id ids IH]; intros Hm; [by exists []|].
  destruct (Hm id) as [o Ho]; [left|]. destruct IH as [l Hl]; [intros; apply Hm; by right|].
  exists (o :: l). unfold order_names in *. simpl. by rewrite Ho, Hl.
Qed.

Lemma run_verifier_updates_spec backend single m ids updates tx w :
  jobs w -> (forall id, id ∈ ids -> is_Some (m !! id)) ->
  twp (run_verifier_updates backend single m ids updates tx)
    (fun tx' w' => grows w w' /\ fulfilled tx' = fulfilled tx
       /\ fulfillments tx' = fulfillments tx) (fun _ w' => grows w w') w.
Proof.
  intros Hj Hm. revert tx w Hj.
  induction updates as [|[v r sl] updates IH]; intros tx w Hj; cbn [run_verifier_updates].
  { split_and!; [by apply grows_refl|done|done]. }
  assert (forall x, twp (run_verifier_updates backend single m ids updates tx)
    (fun tx' w' => grows w w' /\ fulfilled tx' = fulfilled tx
       /\ fulfillments tx' = fulfillments tx) (fun _ w' => grows w w')
    (mkWorld (w_db w) x (w_log w))) as Hgo.
  { intros x. pose proof (grows_ext w x Hj) as Hg.
    eapply twp_mono; [apply IH; by destruct Hg|..].
    - intros tx' w' [Hw' Htx]. split; [by eapply grows_trans|done].
    - intros ? w' Hw'; by eapply grows_trans. }
  destruct single; [exact (IH (with_submit_root tx v r sl) w Hj)|]. twp_step. apply twp_env. intros answer x _.
  destruct (match answer with inr applied => applied | inl _ => false end); [apply Hgo|].
  twp_step. apply twp_env. intros res x' _. destruct res as [e|]; [|apply Hgo].
  destruct (order_names_ok (E := SubmitterErr) m ids Hm) as [l Hl]. rewrite Hl.
  twp_step. eapply twp_liftr_ok; [done|]. apply twp_throw. exact (grows_ext w x' Hj).
Qed.

Lemma set_complete_spec w id o :
  jobs w -> id ∈ b_orders b -> row id w1 = Some o -> paid (o_request o) w ->
  twp (db_call (fun now => set_order_complete now id))
    (fun _ w' => grows w w' /\ terminal id w') (fun _ _ => False) w.
Proof.
  intros Hj Hb Ho Hpaid. apply (twp_db_call S (eq bid)). intros now d x Hd Hbd.
  assert (grows w (mkWorld d x (w_log w))) as Hg1.
  { rewrite <- (app_nil_r (w_log w)). apply grows_turn; [done|done|by apply Hbd]. }
  destruct (grows_update (mkWorld d x (w_log w)) id (set_status Done now) x []
    (grows_jobs _ _ Hg1)) as [Hu Ht]; try done.
  { by intros o'; left. }
  { intros o' Ho' _. rewrite Ho in Ho'. injection Ho' as <-. by apply (grows_paid _ _ Hg1). }
  unfold twp. cbn [w_db w_ext w_log]. unfold set_order_complete. simpl in Hu, Ht.
  rewrite app_nil_r in Hu, Ht.
  assert (exists d', update_order id (set_status Done now) d = (Ok tt, d')) as [d' Hd'].
  { unfold update_order. destruct (sub_rows Hsub _ Hb) as [HS _]. rewrite (Hd _ HS).
    destruct (jobs_row _ Hj _ Hb) as (? & o' & _ & -> & _). by eexists. }
  rewrite Hd' in *. split; [by eapply grows_trans|by apply Ht].
Qed.

Lemma complete_orders_spec arts prices ids w :
  jobs w -> arts_ok arts -> ids ⊆ ((fun a => reqId (art_request a)) <$> arts) ->
  (forall a, a ∈ arts -> paid (art_request a) w) ->
  twp (complete_orders chain_id (fulfillment_to_order_id arts) prices ids)
    (fun _ w' => grows w w' /\ forall a, a ∈ arts -> reqId (art_request a) ∈ ids ->
       terminal (art_order_id a) w')
    (fun _ w' => grows w w') w.
Proof.
  intros Hj Hok. revert w Hj. induction ids as [|rid ids IH]; intros w Hj Hsub' Hpaid;
    cbn [complete_orders].
  { split; [by apply grows_refl|]. intros a _ Hin. by apply not_elem_of_nil in Hin. }
  assert (exists a, a ∈ arts /\ reqId (art_request a) = rid) as (a & Ha & Hrid).
  { assert (rid ∈ (fun a => reqId (art_request a)) <$> arts) as Hin by (apply Hsub'; left).
    apply list_elem_of_fmap in Hin as (a & -> & Ha). by exists a. }
  destruct (Hok a Ha) as [Hb (o & Ho & Hrq & _)].
  pose proof (to_order_spec arts a Hok Ha) as Hto. rewrite Hrid in Hto. rewrite Hto.
  assert (forall w2, grows w w2 -> terminal (art_order_id a) w2 ->
    twp (complete_orders chain_id (fulfillment_to_order_id arts) prices ids)
    (fun _ w' => grows w w' /\ forall a, a ∈ arts -> reqId (art_request a) ∈ rid :: ids ->
       terminal (art_order_id a) w')
    (fun _ w' => grows w w') w2) as Hgo.
  { intros w2 Hg Ht. eapply twp_mono; [apply (IH w2)|..].
    - by destruct Hg.
    - intros r Hr. apply Hsub'. by right.
    - intros a' Ha'. by apply (grows_paid _ _ Hg), Hpaid.
    - intros _ w' [Hg' Hall]. split; [by eapply grows_trans|].
      intros a' Ha' [Heq|Hin]%elem_of_cons; [|by apply Hall].
      assert (art_order_id a' = art_order_id a) as ->.
      { pose proof (to_order_spec arts a' Hok Ha') as Hto'. rewrite Heq, Hto in Hto'.
        by injection Hto'. }
      by apply (grows_terminal _ _ Hg').
    - intros e w' Hg'. by eapply grows_trans. }
  twp_step. eapply twp_liftr_ok; [done|]. twp_step. apply twp_catch.
  eapply twp_mono; [apply (set_complete_spec w _ o)| |done]; try done.
  { rewrite <- Hrq. by apply Hpaid. }
  intros _ w2 [Hg2 Ht]. twp_step. apply twp_send. intros room x.
  destruct (default (0, 0) (prices !! art_order_id a)) as [price reward].
  set (c := Notified _ room).
  assert (forall x, grows w (mkWorld (w_db w2) x (w_log w2 ++ [c]))
    /\ terminal (art_order_id a) (mkWorld (w_db w2) x (w_log w2 ++ [c]))) as Hall.
  { intros x'. split; [|done]. eapply grows_trans; [exact Hg2|].
    apply (grows_turn w2); [by destruct Hg2|done|done]. }
  twp_step. apply twp_call; [|intros e x' _; apply Hall].
  intros n x' Hn. simpl in Hn. rewrite (decimals_supported _ _ _ Hn).
  twp_step. apply (twp_liftr_ok _ tt); [done|]. simpl.
  twp_step. destruct (0 <? reward); [|apply twp_ret, Hgo; apply Hall].
  twp_step. apply twp_env. intros pv x4 _. apply twp_ret, Hgo; apply Hall.
Qed.

Lemma twp_fulfill {E} tx (Q : MarketError + unit -> World X -> Prop)
    (R : E -> World X -> Prop) w :
  (forall sent x, market_fulfill tx (w_ext w) = (sent, x) ->
     Q sent (mkWorld (w_db w) x (w_log w
       ++ [FulfillSent tx (match sent with inr _ => true | inl _ => false end)]))) ->
  twp (lift (fulfill tx)) Q R w.
Proof.
  intros HQ. apply twp_lift. unfold fulfill, emit, mbind, st_bind, env.
  destruct (market_fulfill tx (w_ext w)) as [sent x]. by apply HQ.
Qed.

(** The transaction that is built from artifacts pays each of their requests. *)
Lemma pays_arts arts tx a :
  arts_ok arts -> fulfilled tx = art_request <$> arts ->
  fulfillments tx = art_fulfillment <$> arts -> a ∈ arts -> pays (art_request a) tx.
Proof.
  intros Hok Hr Hf Hin. destruct (Hok a Hin) as (_ & o & _ & _ & Hans).
  apply list_elem_of_lookup in Hin as [i Hi]. exists i, (art_fulfillment a).
  by rewrite Hr, Hf, !list_lookup_fmap, Hi.
Qed.

Definition all_terminal (w : World X) : Prop := forall id, id ∈ b_orders b -> terminal id w.

Lemma send_fulfillments_spec prep plan w :
  jobs w -> arts_ok (plan_orders plan) ->
  (forall id, id ∈ b_orders b ->
     terminal id w \/ id ∈ art_order_id <$> plan_orders plan) ->
  twp (send_fulfillments chain_id prover_address b prep plan)
    (fun _ w' => grows w w' /\ all_terminal w') (fun _ w' => grows w w') w.
Proof.
  intros Hj Hok Hcov. unfold send_fulfillments.
  destruct (plan_orders plan) as [|a0 arts0]; [by apply grows_refl|].
  set (arts := a0 :: arts0) in *. clearbody arts.
  twp_step. apply twp_env. intros cfg x _. pose proof (grows_ext w x Hj) as Hg.
  twp_step. destruct cfg as [c|]; [|done]. apply (twp_liftr_ok _ c); [done|]. cbv zeta.
  set (ids := (fun a => reqId (art_request a)) <$> arts).
  set (m := fulfillment_to_order_id arts).
  assert (forall id, id ∈ ids -> is_Some (m !! id)) as Hm.
  { intros id Hin. apply to_order_dom. by right. }
  twp_step. eapply twp_mono; [apply run_verifier_updates_spec; [by destruct Hg|done]|..];
    [|by intros e w' Hg'; eapply grows_trans].
  intros tx w2 (Hg2 & Htxr & Htxf). pose proof (grows_trans _ _ _ Hg Hg2) as Hg3. clear Hg Hg2.
  twp_step. apply twp_fulfill. intros sent x2 Hsent.
  set (ev := FulfillSent tx _).
  assert (grows w (mkWorld (w_db w2) x2 (w_log w2 ++ [ev]))) as Hg4.
  { eapply grows_trans; [exact Hg3|]. apply (grows_turn w2); [by destruct Hg3|done|done]. }
  destruct sent as [err|[]].
  - destruct (order_names_ok (E := SubmitterErr) m ids Hm) as [l Hl]. rewrite Hl.
    twp_step. eapply twp_liftr_ok; [done|]. by apply twp_throw.
  - eapply twp_mono; [apply complete_orders_spec; [by destruct Hg4|done|done|]| |].
    + intros a Ha. exists tx. split_and!; [|by apply (pays_arts arts)|by exists (w_ext w2), x2].
      simpl. apply elem_of_app. right. by apply list_elem_of_singleton.
    + intros _ w' [Hg' Hall]. split; [by eapply grows_trans|]. intros id Hin.
      destruct (Hcov id Hin) as [Ht|(a & -> & Ha)%list_elem_of_fmap].
      * apply (grows_terminal _ _ Hg'); [done|]. by apply (grows_terminal _ _ Hg4).
      * apply Hall; [done|]. apply list_elem_of_fmap. by exists a.
    + intros e w' Hg'. by eapply grows_trans.
Qed.

(** *** The whole of [submit_batch] *)

Lemma get_orders_rows ids d o :
  fst (get_orders ids d) = Ok o ->
  forall r, r ∈ o -> exists id, id ∈ ids /\ orders d !! id = Some r.
Proof.
  unfold get_orders. destruct ids as [|i ids]; intros [= <-] r Hr; [by apply not_elem_of_nil in Hr|].
  apply list_elem_of_fmap in Hr as ([id o'] & -> & Hin).
  apply select_orders_spec in Hin as [Ho Hp]. exists id. by apply bool_decide_eq_true in Hp.
Qed.

(** The step between the collected orders and the transaction. *)
Lemma build_and_send_spec prep w :
  jobs w -> prep_ok prep ->
  (forall id, id ∈ b_orders b -> terminal id w \/ prepared id prep) ->
  twp (domain ← call SubMarketError market_domain;
       plan ← call SubUnexpectedErr
                (build_fulfillments (mkFulfillmentBatch (b_backend_id b)
                   (b_backend_state b) domain (fulfillment_orders prep)));
       _ ← lift (fail_unbuilt chain_id (failed_orders plan));
       send_fulfillments chain_id prover_address b prep plan)
    (fun _ w' => grows w w' /\ all_terminal w') (fun _ w' => grows w w') w.
Proof.
  intros Hj Hp Hcov. twp_step. apply twp_call; [|intros e x _; by apply grows_ext].
  intros dom x _. twp_step. apply twp_call; simpl; [|intros e x' _; exact (grows_ext w x' Hj)].
  intros plan x' Hplan. pose proof (grows_ext w x' Hj) as Hg.
  twp_step. apply twp_lift.
  destruct (fail_unbuilt_spec (failed_orders plan) _ (grows_jobs _ _ Hg)) as [Hg2 Hfail].
  pose proof (grows_trans _ _ _ Hg Hg2) as Hg3.
  destruct (fail_unbuilt chain_id (failed_orders plan) _) as [u w2]. simpl in *.
  eapply twp_mono; [apply send_fulfillments_spec; [by destruct Hg3|..]|..].
  - intros a Ha. destruct (plan_sound _ _ _ _ a Hplan Ha) as (fo & Hfo & -> & Hrq & Hans).
    destruct (Hp _ Hfo) as [Hb (o & Ho & Hfr)]. split; [done|]. exists o. by rewrite Hrq at 1.
  - intros id Hin. destruct (Hcov id Hin) as [Ht|(fo & Hfo & <-)].
    + left. by apply (grows_terminal _ _ Hg3).
    + destruct (plan_covers _ _ _ _ fo Hplan Hfo) as [Hf|Ha]; [left; by apply Hfail|by right].
  - intros _ w' [Hg' Hall]. split; [by eapply grows_trans|done].
  - intros e w' Hg'. by eapply grows_trans.
Qed.

Lemma submit_batch_spec w :
  jobs w ->
  twp (submit_batch chain_id prover_address b)
    (fun _ w' => grows w w' /\ all_terminal w') (fun _ w' => grows w w') w.
Proof.
  intros Hj. unfold submit_batch, db_or. twp_step. apply twp_env. intros now x _.
  pose proof (grows_ext w x Hj) as Hg0.
  twp_step. apply twp_with_err.
  apply twp_query; [by destruct Hg0|..].
  { intros d. unfold get_orders. by destruct (b_orders b). }
  { intros d. unfold get_orders. by destruct (b_orders b). }
  2: { intros w' e Hg. by eapply grows_trans. }
  intros w2 os Hg _ Hos. pose proof (grows_trans _ _ _ Hg0 Hg) as Hg2. clear Hg0 Hg.
  assert (forall r, r ∈ os -> exists id, id ∈ b_orders b /\ row id w2 = Some r
            /\ db_order_id r = Ok id) as Hrows.
  { intros r Hr. destruct (get_orders_rows _ _ _ Hos r Hr) as (id & Hin & Hrow).
    destruct (jobs_known w2 id (grows_jobs _ _ Hg2) Hin) as (o & o' & _ & Ho' & _ & Hid & _).
    exists id. unfold row in *. rewrite Hrow in Ho'. injection Ho' as <-. done. }
  assert (forall r, r ∈ os -> exists id, db_order_id r = Ok id) as Hids.
  { intros r Hr. destruct (Hrows r Hr) as (id & _ & _ & Hid). by exists id. }
  cbv zeta. case_bool_decide.
  { unfold handle_expired_requests_error. twp_step.
    eapply twp_mono; [apply fail_expired_spec; [by destruct Hg2|done]| |done].
    intros ? w' Hg'. apply twp_throw. by eapply grows_trans. }
  destruct (by_id_spec (E := SubmitterErr) os ∅ Hids) as (snap & Hsnap & Hspec). rewrite Hsnap.
  twp_step. eapply twp_liftr_ok; [done|]. twp_step.
  eapply twp_mono; [apply (prepare_orders_spec snap (b_orders b) prep_empty w2)| |done].
  - by destruct Hg2.
  - done.
  - intros fo Hfo. by apply not_elem_of_nil in Hfo.
  - intros id o Hin Ho Hst. apply Hspec in Ho as [Ho|[Ho Hid]]; [done|].
    destruct (Hrows o Ho) as (id' & _ & Hrow & Hid'). rewrite Hid in Hid'. injection Hid' as <-.
    by exists o.
  - intros prep w3 (Hg3 & Hp & _ & Hcov). pose proof (grows_trans _ _ _ Hg2 Hg3) as Hg4.
    destruct (fulfillment_orders prep) as [|fo fos] eqn:Ef.
    + case_bool_decide; [|done]. split; [done|]. intros id Hin.
      destruct (Hcov id Hin) as [Ht|(fo & Hfo & _)]; [done|].
      rewrite Ef in Hfo. by apply not_elem_of_nil in Hfo.
    + rewrite <- Ef. eapply twp_mono; [apply build_and_send_spec; [by destruct Hg4|done|done]|..].
      * intros ? w' [Hg' Hall]. split; [by eapply grows_trans|done].
      * intros e w' Hg'. by eapply grows_trans.
Qed.

(** *** Failing the rest *)

Lemma fail_batch_orders_spec err ids w :
  jobs w -> (forall id, id ∈ ids -> id ∈ b_orders b) ->
  twp (fail_batch_orders chain_id err ids)
    (fun _ w' => grows w w' /\ forall id, id ∈ ids -> terminal id w') (fun _ _ => False) w.
Proof.
  revert w. induction ids as [|id ids IH]; intros w Hj Hids; cbn [fail_batch_orders].
  { split; [by apply grows_refl|]. intros id Hin. by apply not_elem_of_nil in Hin. }
  assert (id ∈ b_orders b) as Hin by (apply Hids; left).
  assert (forall w2, grows w w2 -> terminal id w2 ->
    twp (fail_batch_orders chain_id err ids)
      (fun _ w' => grows w w' /\ forall id', id' ∈ id :: ids -> terminal id' w')
      (fun _ _ => False) w2) as Hgo.
  { intros w2 Hg Ht. eapply twp_mono; [apply (IH w2); [by destruct Hg|]| |done].
    - intros id' Hin'. apply Hids. by right.
    - intros ? w' [Hg' Hall]. split; [by eapply grows_trans|].
      intros id' [->|Hin']%elem_of_cons; [by apply (grows_terminal _ _ Hg')|by apply Hall]. }
  assert (forall w2, grows w w2 ->
    twp (_ ← lift (handle_order_failure id (submit_failure (submitter_code err)
               "Failed to submit batch" CoProvingFailed) chain_id);
         fail_batch_orders chain_id err ids)
      (fun _ w' => grows w w' /\ forall id', id' ∈ id :: ids -> terminal id' w')
      (fun _ _ => False) w2) as Hfail.
  { intros w2 Hg. twp_step. apply twp_lift.
    destruct (grows_failure w2 id (submit_failure (submitter_code err) "Failed to submit batch"
      CoProvingFailed) (grows_jobs _ _ Hg)) as [Hg2 Ht].
    apply Hgo; [exact (grows_trans _ _ _ Hg Hg2)|by apply Ht]. }
  twp_step. apply twp_catch. apply twp_query; [done|done|done| |].
  - intros w2 found Hg _ Hf. unfold get_order in Hf. injection Hf as <-.
    destruct (orders (w_db w2) !! id) as [o|] eqn:Ho; [|by apply Hfail].
    case_bool_decide as Hs; [|by apply Hfail]. apply Hgo; [done|].
    exists o. split; [done|]. apply elem_of_cons in Hs as [Hs|Hs]; [by left|].
    apply list_elem_of_singleton in Hs. by right.
  - intros w2 e Hg. by apply Hfail.
Qed.

End Jobs.

Section Settle.
Context `{Externals} `{SqlEngine} {X : Type} `{BrokerEnv X} `{SubmitterEnv X} `{!PlanLaws X}.
Context (S : string -> Prop) `{!QuietDb S}.
Variables (chain_id prover_address bid : Z) (b : Batch) (w1 : World X).
Context `{!QuietBatches (eq bid)}.
Hypothesis Hsub : submittable S b w1.
Hypothesis config_readable : forall x, is_Some (fst (lock_all x)).

(** Every order of the batch is done or failed, and done only when paid. *)
Definition orders_settled (w : World X) : Prop :=
  forall id, id ∈ b_orders b ->
    exists o o', row id w1 = Some o /\ row id w = Some o' /\ agrees o o'
      /\ (status o' = Done \/ status o' = Failed)
      /\ (status o' = Done -> status o = Done \/ paid (o_request o) w).

Lemma settled_of_jobs w : jobs bid b w1 w -> all_terminal b w -> orders_settled w.
Proof.
  intros [Hrow _] Ht id Hin. destruct (Hrow id Hin) as (o & o' & Ho & Ho' & Ha & Hd).
  destruct (Ht id Hin) as (o2 & Ho2 & Hs). rewrite Ho' in Ho2. injection Ho2 as <-.
  by exists o, o'.
Qed.

(** The final statement on the batch. *)
Lemma close_batch_spec f w :
  jobs bid b w1 w -> all_terminal b w ->
  twp (db_call (fun _ => update_batch_row bid f))
    (fun _ w' => orders_settled w' /\ batches (w_db w') !! bid = Some (f b)) (fun _ _ => False) w.
Proof.
  intros Hj Ht. apply (twp_db_call S (eq bid)). intros now d x Hd Hb.
  unfold twp, update_batch_row. simpl. rewrite (Hb bid eq_refl), (jobs_batch _ _ _ _ Hj).
  split; [|simpl; by rewrite lookup_insert_eq].
  intros id Hin. destruct (settled_of_jobs w Hj Ht id Hin) as (o & o' & Ho & Ho' & Hrest).
  exists o, o'. split; [done|]. split; [|done]. unfold row. simpl.
  destruct (sub_rows _ _ _ Hsub id Hin) as [HS _]. by rewrite (Hd id HS).
Qed.

Lemma process_batch_spec :
  jobs bid b w1 w1 ->
  twp (process_batch chain_id prover_address bid b)
    (fun _ w' => orders_settled w' /\ batches (w_db w') !! bid = Some (set_b_status BsSubmitted b))
    (fun err w' => orders_settled w' /\ exists err',
       (err = BatchSubmissionFailed [err'] \/ err = BatchSubmissionFailedTimeouts [err'])
       /\ batches (w_db w') !! bid
          = Some (set_b_error (submitter_debug err') (set_b_status BsFailed b))) w1.
Proof.
  intros Hj. unfold process_batch. twp_step. apply twp_env. intros cfg x Hc.
  destruct (config_readable (w_ext w1)) as [c Hc']. rewrite Hc in Hc'. simpl in Hc'. subst cfg.
  twp_step. apply (twp_liftr_ok _ c); [done|]. twp_step. apply twp_catch.
  pose proof (grows_ext S bid b w1 Hsub w1 x Hj) as Hg.
  eapply twp_mono; [apply (twp_retry (jobs bid b w1)
    (fun _ w' => jobs bid b w1 w' /\ all_terminal b w') (fun _ w' => jobs bid b w1 w'))|..].
  - apply sat_sub_nonneg.
  - by destruct Hg.
  - intros w2 Hj2. eapply twp_mono; [by apply (submit_batch_spec S)|..].
    + intros _ w' [[] ?]. done.
    + intros e w' []. done.
  - intros e w2 Hj2. unfold sleep, world_sleep, env. destruct (sleep_ms _ (w_ext w2)) as [u x2].
    by destruct (grows_ext S bid b w1 Hsub w2 x2 Hj2).
  - intros _ w2 [Hj2 Ht]. unfold db_or. apply twp_with_err.
    by eapply twp_mono; [apply (close_batch_spec _ w2)| |].
  - intros err w2 Hj2. twp_step.
    eapply twp_mono; [by apply (fail_batch_orders_spec S _ bid b w1)| |done].
    intros _ w3 [Hg3 Ht]. twp_step. apply twp_catch.
    eapply twp_mono; [apply (close_batch_spec _ w3); [by destruct Hg3|done]| |done].
    intros _ w4 [Hs Hb]. apply twp_throw. split; [done|]. exists err. split; [|done].
    destruct err; auto.
Qed.

End Settle.

(** What [get_complete_batch] hands out is in the table. *)
Lemma get_complete_batch_row `{SqlEngine} d bid b d' :
  get_complete_batch d = (Ok (Some (bid, b)), d') -> batches d' !! bid = Some b.
Proof.
  unfold get_complete_batch. destruct (select_batches _ d) as [|[i b0] ?]; [done|].
  intros [= <- <- <-]. simpl. apply lookup_insert_eq.
Qed.

(** C2. A batch that the submitter takes up is settled with all its orders, in
    whatever way the backend and the market answer: [process_next_batch] returns,
    the batch is submitted (and the result a success) or failed with the error of
    the last attempt, every order of it is done or failed, and an order becomes
    done only when the market was sent, and accepted, a transaction with the
    order's request among those it fulfills and, at the same place, a fulfillment
    that answers it.  This is under conditions: the database answers every call
    while the batch is processed and the other tasks leave its rows (those of [S])
    and its batch alone, which are [QuietDb] and [QuietBatches]; the configuration
    can be read; the batch holds stored orders with distinct requests; and the
    backend builds or reports each order ([PlanLaws]). *)
Theorem process_next_batch_settles `{Externals} `{SqlEngine} {X} `{BrokerEnv X}
    `{SubmitterEnv X} `{!PlanLaws X} (S : string -> Prop) `{!QuietDb S}
    chain_id prover bid b w w1 `{!QuietBatches (eq bid)} :
  db_call (fun _ => get_complete_batch) w = (Ok (Some (bid, b)), w1) ->
  submittable S b w1 -> (forall x, is_Some (fst (lock_all x))) ->
  exists r w', process_next_batch chain_id prover w = (r, w')
    /\ orders_settled b w1 w'
    /\ match r with
       | Ok _ => batches (w_db w') !! bid = Some (set_b_status BsSubmitted b)
       | Err err => exists err',
           (err = BatchSubmissionFailed [err'] \/ err = BatchSubmissionFailedTimeouts [err'])
           /\ batches (w_db w') !! bid
              = Some (set_b_error (submitter_debug err') (set_b_status BsFailed b))
       | Panic => False
       end.
Proof.
  intros Hget Hsub Hcfg.
  assert (jobs bid b w1 w1) as Hj.
  { split.
    - intros id Hin. destruct (sub_rows _ _ _ Hsub id Hin) as [_ (o & Ho & _)].
      exists o, o. split_and!; [done|done|apply agrees_refl|by left].
    - unfold db_call in Hget. destruct (db_turn (w_ext w)) as [turn x].
      destruct (t_fault turn); [done|].
      destruct (get_complete_batch _) as [r d'] eqn:Eg. injection Hget as -> <-.
      by apply get_complete_batch_row in Eg. }
  pose proof (process_batch_spec S chain_id prover bid b w1 Hsub Hcfg Hj) as Hp.
  assert (process_next_batch chain_id prover w = process_batch chain_id prover bid b w1) as Heq.
  { unfold process_next_batch, db_or, mbind, ste_bind, with_err. by rewrite Hget. }
  apply twp_elim in Hp as [(u & w' & Hr & Hs & Hb)|(err & w' & Hr & Hs & Hb)].
  - exists (Ok u), w'. by rewrite Heq.
  - exists (Err err), w'. by rewrite Heq.
Qed.

(** ** Witnesses *)

Definition toy_order2 : OrderRequest :=
  order_request_new
    (mkProofRequest (RequestId.u256 77 4)
       (requirements_new (predicate_into (PrefixMatch (repeat x01 32) [x02])))
       "https://host/image" (mkRequestInput InputInline [])
       (mkOffer 100 1100 1000 50 60 90 20000)) [] LockAndFulfill 1 1 900.
Definition toy_id3 : string := @order_id toy_externals toy_order2.

(** A row that waits for its submission. *)
Definition waiting (r : OrderRequest) : Order :=
  let o := proving_order_from_request 950 r 620 in
  {| o_market := o_market o; o_chain_id := o_chain_id o;
     o_fulfillment_type := o_fulfillment_type o; o_request := o_request o;
     status := PendingSubmission; updated_at := updated_at o; o_total_cycles := o_total_cycles o;
     o_journal_bytes := o_journal_bytes o; o_target_timestamp := o_target_timestamp o;
     proving_started_at := proving_started_at o; o_image_id := Some "00";
     o_input_id := o_input_id o; backend_state := backend_state o; backend_id := Some "b";
     o_expire_timestamp := o_expire_timestamp o; o_client_sig := o_client_sig o;
     lock_price := lock_price o; error_msg := error_msg o |}.

Definition toy_batch (s : BatchStatus) : Batch :=
  mkBatch "b" s [toy_id; toy_id3] None 900 None 0 None.
Definition toy_batch_db : Db :=
  mkDb (<[toy_id := waiting (toy_order LockAndFulfill)]> (<[toy_id3 := waiting toy_order2]> ∅))
    (<[7 := toy_batch BsReadyToSubmit]> ∅) 7 ∅ ∅.
Definition toy_batch_world : World Z := mkWorld toy_batch_db 1000 [].

(** A fulfillment by the claim digest where the request names one, and with some
    journal otherwise. *)
Definition toy_fulfillment (r : ProofRequest) : Fulfillment :=
  let pred := predicate (requirements r) in
  match predicateType pred with
  | PtClaimDigestMatch => mkFulfillment (predicateData pred) FdtNone [] []
  | _ => mkFulfillment [] FdtImageIdAndJournal [x02] []
  end.

Definition toy_artifact (fo : FulfillmentOrder) : OrderFulfillmentArtifact :=
  mkArtifact (fo_order_id fo) (fo_request fo) (toy_fulfillment (fo_request fo)).

Definition toy_buildable (fo : FulfillmentOrder) : bool :=
  negb (bool_decide (predicateType (predicate (requirements (fo_request fo))) = PtInvalid)).

Definition toy_plan (fb : FulfillmentBatch) : SubmissionPlan :=
  mkPlan [] ((fun fo => mkFailedOrder (fo_order_id fo) "invalid predicate")
               <$> List.filter (fun fo => negb (toy_buildable fo)) (fb_orders fb))
    (toy_artifact <$> List.filter toy_buildable (fb_orders fb)) [].

(** A backend that builds every order with a valid predicate and a market that answers [answer]; the
    decimals of the token are unknown for the first [outage] readings. *)
Definition toy_submitter (answer : Z -> MarketError + unit) (outage : Z) : SubmitterEnv Z := {|
  market_domain := fun t => (inr (mkDomain "market" "1" 1 1), t);
  build_fulfillments := fun fb t => (inr (toy_plan fb), t);
  verifier_update_applied := fun _ _ t => (inr true, t);
  apply_verifier_update := fun _ _ t => (inr tt, t);
  market_fulfill := fun _ t => (answer t, t + 1);
  collateral_token_decimals := fun t =>
    (if t <? 1000 + outage then inl (MError "rpc") else inr 18, t + 1);
  get_request_fulfillment_prover := fun _ t => (inr 5, t);
  hex_decode := fun _ => Some (repeat x01 32);
  units_supported := fun n => n <=? 77;
  submitter_debug := fun e => submitter_code e
|}.

Lemma toy_plan_laws answer outage : @PlanLaws Z (toy_submitter answer outage).
Proof.
  split.
  - intros fb x plan x' fo [= <- <-] Hin. simpl. rewrite <- !list_fmap_compose.
    destruct (toy_buildable fo) eqn:E; [right|left]; apply list_elem_of_fmap; exists fo;
      (split; [done|]); apply list_elem_of_In, filter_In; apply list_elem_of_In in Hin; by rewrite E.
  - intros fb x plan x' a [= <- <-] Ha. simpl in Ha.
    apply list_elem_of_fmap in Ha as (fo & -> & [Hin E]%list_elem_of_In%filter_In).
    exists fo. rewrite list_elem_of_In. split_and!; [done..|].
    apply negb_true_iff, bool_decide_eq_false in E. unfold answers_request. simpl. unfold toy_fulfillment.
    revert E. by destruct (predicateType (predicate (requirements (fo_request fo)))).
  - intros x n x'. simpl. case_match; [done|]. by intros [= <- _].
Defined.

Definition happy : SubmitterEnv Z := toy_submitter (fun _ => inr tt) 0.

Definition taken_world : World Z :=
  snd (@db_call Z toy_env _ (fun _ => @get_complete_batch toy_engine) toy_batch_world).

Lemma toy_taken :
  @db_call Z toy_env _ (fun _ => @get_complete_batch toy_engine) toy_batch_world
  = (Ok (Some (7, toy_batch BsPendingSubmission)), taken_world).
Proof. by vm_compute. Qed.

Lemma two_cases {A} (x a b : A) : x ∈ [a; b] -> x = a \/ x = b.
Proof. set_solver. Qed.

Lemma toy_submittable :
  @submittable toy_externals Z (fun _ => True) (toy_batch BsPendingSubmission) taken_world.
Proof.
  assert (Hr : row toy_id taken_world = Some (waiting (toy_order LockAndFulfill)))
    by (vm_compute; reflexivity).
  assert (Hr3 : row toy_id3 taken_world = Some (waiting toy_order2)) by (vm_compute; reflexivity).
  assert (Hids : @db_order_id toy_externals (waiting (toy_order LockAndFulfill)) = Ok toy_id
          /\ @db_order_id toy_externals (waiting toy_order2) = Ok toy_id3)
    by (split; vm_compute; reflexivity).
  assert (Hne : reqId (o_request (waiting (toy_order LockAndFulfill)))
                <> reqId (o_request (waiting toy_order2))) by (vm_compute; discriminate).
  destruct Hids as [Hi Hi3]. split.
  - intros id Hin. apply two_cases in Hin as [->| ->];
      (split; [exact I|]); eexists; (split; [eassumption|]); (split; [assumption|]);
      unfold fits; simpl; lia.
  - intros id1 id2 o1 o2 H1 H2 Ho1 Ho2 Hreq.
    apply two_cases in H1 as [->| ->]; apply two_cases in H2 as [->| ->]; [reflexivity|..|reflexivity].
    + rewrite Hr in Ho1. rewrite Hr3 in Ho2. injection Ho1 as <-. injection Ho2 as <-.
      destruct (Hne Hreq).
    + rewrite Hr3 in Ho1. rewrite Hr in Ho2. injection Ho1 as <-. injection Ho2 as <-.
      destruct (Hne (eq_sym Hreq)).
Qed.

Lemma process_next_batch_settles_witness :
  exists r w', @process_next_batch toy_externals toy_engine Z toy_env happy 1 5 toy_batch_world = (r, w')
    /\ @orders_settled Z happy (toy_batch BsPendingSubmission) taken_world w'.
Proof.
  destruct (@process_next_batch_settles toy_externals toy_engine Z toy_env happy
    (toy_plan_laws (fun _ => inr tt) 0) (fun _ => True) (toy_quiet (fun _ => True)) 1 5 7 (toy_batch BsPendingSubmission)
    toy_batch_world taken_world (toy_quiet_batches (eq 7)) toy_taken toy_submittable)
    as (r & w' & Hr & Hs & _).
  { intros x. by eexists. }
  exists r, w'. split; [exact Hr|exact Hs].
Defined.

(** ** What the retries do to finished orders *)

Definition status_of (id : string) (w : World Z) : option OrderStatus := status <$> row id w.

Definition failures_of (id : string) (w : World Z) : nat :=
  length (filter (fun i => i = id) (failures_sent (w_log w))).

(** An order that is done, in a batch whose requests have all expired, is
    overwritten as failed; and since the error of an expired batch is retried,
    every order is failed once per attempt. *)
Definition done_world : World Z :=
  mkWorld (run_db (set_order_complete 960 toy_id) toy_batch_db) 5000 [].

Lemma expired_batch_fails_done_orders :
  let w' := snd (@process_next_batch toy_externals toy_engine Z toy_env happy 1 5 done_world) in
  status_of toy_id done_world = Some Done /\ status_of toy_id w' = Some Failed
  /\ failures_of toy_id w' = 2%nat.
Proof. vm_compute. split_and!; reflexivity. Qed.

(** The token's decimals are read for a message only, but when that call fails
    after the market has accepted the batch, the remaining orders are not
    completed: here the second attempt is refused and an order that was
    fulfilled on chain ends as failed. *)
Definition outage : SubmitterEnv Z :=
  toy_submitter (fun t => if t <? 1001 then inr tt else inl (MError "already fulfilled")) 5.

(** The transaction of the first attempt. *)
Definition toy_tx : FulfillmentTx :=
  let rs := [request (toy_order LockAndFulfill); request toy_order2] in
  mkFulfillmentTx None [] rs (toy_fulfillment <$> rs) [] 5 false.

Lemma decimals_outage_fails_fulfilled_order :
  let w' := snd (@process_next_batch toy_externals toy_engine Z toy_env outage 1 5 toy_batch_world) in
  @paid Z outage (request toy_order2) w' /\ status_of toy_id w' = Some Done
  /\ status_of toy_id3 w' = Some Failed.
Proof.
  split_and!; [|vm_compute; reflexivity..].
  exists toy_tx. split_and!.
  - assert (exists l, w_log (snd (@process_next_batch toy_externals toy_engine Z toy_env outage 1 5
      toy_batch_world)) = FulfillSent toy_tx true :: l) as [l ->];
      [eexists; vm_compute; reflexivity|left].
  - exists 1%nat, (toy_fulfillment (request toy_order2)). by split_and!.
  - by exists 1000, 1001.
Qed.

(** Orders are tracked by request after the transaction.  Two orders for one
    request, which differ in their fulfillment type, are both sent, but only the
    one built last is completed: the other waits forever in a submitted batch. *)
Definition same_request_world : World Z :=
  mkWorld
    (mkDb (<[toy_id := waiting (toy_order LockAndFulfill)]>
             (<[toy_id2 := waiting (toy_order FulfillAfterLockExpire)]> ∅))
       (<[7 := mkBatch "b" BsReadyToSubmit [toy_id; toy_id2] None 900 None 0 None]> ∅) 7 ∅ ∅) 1000 [].

Lemma same_request_order_left_pending :
  let w' := snd (@process_next_batch toy_externals toy_engine Z toy_env happy 1 5 same_request_world) in
  b_status <$> batches (w_db w') !! 7 = Some BsSubmitted
  /\ status_of toy_id w' = Some PendingSubmission /\ status_of toy_id2 w' = Some Done.
Proof. vm_compute. split_and!; reflexivity. Qed.
