(* ===== verification/Router.v ===== *)
(** * Router: which backend and which assessor serve a selector

    The snapshot of the on-chain router
    ([crates/boundless-market/src/contracts/router_registry.rs] and its loading in
    [boundless_market.rs]), the policy that a backend derives from it
    ([crates/boundless-backend/src/router_policy.rs]), and the table of the
    backends that the broker dispatches through
    ([crates/boundless-backend/src/router.rs]).

    A selector, [FixedBytes<4>], is its 32-bit number.  The hash maps are [gmap]s;
    what is collected from the keys of a map is in the order of the [gmap], and the
    theorems speak of members only. *)

From S2P Require Import Prelude Market Selector Auction OrderPricing Db FulfillTx Pipeline Monitor MarketService Processor Batcher Submitter.

Local Open Scope Z_scope.

(** ** The snapshot *)

Record RouterEntry := mkRouterEntry {
  implementation : Z;
  class_id : Z;
  gas_limit : Z
}.

Record RouterRegistry := mkRegistry {
  default_class_id : Z;
  entries : gmap Z RouterEntry;
  required_assessor_classes : gmap Z Z
}.

(** [RouterRegistry::from_parts]. *)
Definition from_parts (default_class_id : Z) (entries : gmap Z RouterEntry)
    (required : gmap Z Z) : RouterRegistry :=
  mkRegistry default_class_id entries required.

Definition resolve_verifier_class (self : RouterRegistry) (signed : Z) : option Z :=
  if signed =? UNSPECIFIED_SELECTOR then
    if negb (default_class_id self =? 0) then Some (default_class_id self) else None
  else
    match entries self !! signed with
    | Some entry => Some (class_id entry)
    | None =>
        if bool_decide (is_Some (required_assessor_classes self !! signed)) then Some signed else None
    end.

Definition required_assessor_class (self : RouterRegistry) (class_id : Z) : option Z :=
  class ← required_assessor_classes self !! class_id;
  if negb (class =? 0) then Some class else None.

Definition entry (self : RouterRegistry) (sel : Z) : option RouterEntry := entries self !! sel.

(** ** Loading it from the chain *)

(** The two views of the router: an entry, and the interface tag and the required
    assessor class of a class. *)
Class RouterView (W : Type) := {
  ROUTER : st W (string + Z);
  view_default_class : Z -> st W (string + Z);
  view_entry : Z -> Z -> st W (string + RouterEntry);
  view_class : Z -> Z -> st W (string + (Z * Z))
}.

Section Load.
Context {W : Type} `{RouterView W}.

Abbreviation ms A := (ste (MsState W) MarketError A).

Definition router_address : ms Z := node_try ROUTER.

Definition router_entry_impl (sel : Z) : ms Z :=
  router ← router_address;
  e ← node_try (view_entry router sel);
  mret (implementation e).

Definition router_entry_class_id (sel : Z) : ms Z :=
  router ← router_address;
  e ← node_try (view_entry router sel);
  mret (class_id e).

Definition router_default_class_id : ms Z :=
  router ← router_address;
  node_try (view_default_class router).

Definition router_required_assessor_class (class : Z) : ms Z :=
  router ← router_address;
  meta ← node_try (view_class router class);
  mret (snd meta).

(** The entries that are registered, and the classes they name. *)
Fixpoint load_entries (router : Z) (selectors_of_interest : list Z)
    (es : gmap Z RouterEntry) (class_ids : gset Z) : ms (gmap Z RouterEntry * gset Z) :=
  match selectors_of_interest with
  | [] => mret (es, class_ids)
  | sel :: rest =>
      if sel =? UNSPECIFIED_SELECTOR then load_entries router rest es class_ids else
      e ← node_try (view_entry router sel);
      if negb (implementation e =? 0)
      then load_entries router rest (<[sel := e]> es) ({[class_id e]} ∪ class_ids)
      else load_entries router rest es class_ids
  end.

Fixpoint load_classes (router : Z) (class_ids : list Z) (required : gmap Z Z) : ms (gmap Z Z) :=
  match class_ids with
  | [] => mret required
  | class :: rest =>
      meta ← node_try (view_class router class);
      if negb (fst meta =? 0)
      then load_classes router rest (<[class := snd meta]> required)
      else load_classes router rest required
  end.

Definition load_router_registry (selectors_of_interest : list Z) : ms RouterRegistry :=
  router ← router_address;
  default_class ← node_try (view_default_class router);
  let class_ids : gset Z := if negb (default_class =? 0) then {[default_class]} else ∅ in
  '(es, class_ids) ← load_entries router selectors_of_interest ∅ class_ids;
  required ← load_classes router (elements class_ids) ∅;
  mret (from_parts default_class es required).

End Load.

(** ** The policy of a backend *)

Record RouterPolicy := mkPolicy {
  registry : RouterRegistry;
  assessor_priority : list Z;
  producible : gmap Z Z;
  class_to_producible : gmap Z Z;
  supported_classes : list Z
}.

(** The highest-priority candidate that is registered in the required class. *)
Definition assessor_for_class (reg : RouterRegistry) (assessor_priority : list Z)
    (verifier_class : Z) : option Z :=
  assessor_class ← required_assessor_class reg verifier_class;
  List.find (fun sel => match entry reg sel with
                        | Some e => class_id e =? assessor_class
                        | None => false
                        end) assessor_priority.

Definition assessor_for_verifier_class (self : RouterPolicy) (verifier_class : Z) : option Z :=
  assessor_for_class (registry self) (assessor_priority self) verifier_class.

(** The loop of [RouterPolicy::new]: the first pair of a class is kept. *)
Fixpoint collect_producible (reg : RouterRegistry) (pairs : list (Z * Z))
    (prod classes : gmap Z Z) : gmap Z Z * gmap Z Z :=
  match pairs with
  | [] => (prod, classes)
  | (sel, produced) :: pairs =>
      match entry reg sel with
      | Some e =>
          collect_producible reg pairs (<[sel := produced]> prod)
            (match classes !! class_id e with
             | Some _ => classes
             | None => <[class_id e := produced]> classes
             end)
      | None => collect_producible reg pairs prod classes
      end
  end.

Definition policy_new (reg : RouterRegistry) (producible_entries : list (Z * Z))
    (assessor_priority : list Z) : RouterPolicy :=
  let (prod, classes) := collect_producible reg producible_entries ∅ ∅ in
  let supported :=
    List.filter (fun class => bool_decide (is_Some (assessor_for_class reg assessor_priority class)))
      (map fst (map_to_list classes)) in
  mkPolicy reg assessor_priority prod classes supported.

Definition producible_selector (self : RouterPolicy) (signed : Z) : option Z :=
  match producible self !! signed with
  | Some p => Some p
  | None => class_to_producible self !! signed
  end.

Definition producible_selectors (self : RouterPolicy) : list Z :=
  map fst (map_to_list (producible self)).

Definition assessor_selector_for_signed (self : RouterPolicy) (signed : Z) : option Z :=
  verifier_class ← resolve_verifier_class (registry self) signed;
  assessor_for_verifier_class self verifier_class.

Definition policy_supported_selectors (self : RouterPolicy) : list Z :=
  List.filter (fun sel => bool_decide (is_Some (assessor_selector_for_signed self sel)))
    (producible_selectors self)
  ++ supported_classes self
  ++ (if bool_decide (default_class_id (registry self) ∈ supported_classes self)
      then [UNSPECIFIED_SELECTOR] else []).

Definition policy_entry (self : RouterPolicy) (sel : Z) : option RouterEntry :=
  entry (registry self) sel.

(** ** The table of backends

    A backend is the record of its operations. *)

Record BatchProcessor (W : Type) := mkBatchProcessor {
  bp_estimate_batch_size : BatchSizeEstimateRequest -> ste W string Z;
  bp_update_batch : UpdateBatch -> ste W string BatchUpdate;
  bp_close_batch : CloseBatch -> ste W string BatchClose
}.
Arguments bp_estimate_batch_size {W} _ _.
Arguments bp_update_batch {W} _ _.
Arguments bp_close_batch {W} _ _.

Record Backend (W : Type) := mkBackend {
  bk_id : string;
  bk_supported_selectors : list Z;
  bk_proof_type : Z -> option ProofType;
  bk_assessor_group : Z -> result string (option Z);
  bk_fulfillment_gas : ProofRequest -> result string Z;
  bk_additional_proof_cycles : ProofRequest -> result string Z;
  bk_evaluate_request :
    EvaluationRequest -> EvaluationLimits -> ste W OrderPricingError RequestEvaluation;
  bk_process_order : ProcessOrder -> ste W string OrderProcessProgress;
  bk_cancel_order : CancelOrder -> ste W string unit;
  bk_batch_processor : option (BatchProcessor W);
  bk_build_fulfillments : FulfillmentBatch -> ste W string SubmissionPlan;
  bk_verifier_update_applied : VerifierUpdate -> ste W string bool;
  bk_apply_verifier_update : VerifierUpdate -> ste W VerifierUpdateError unit
}.
Arguments bk_id {W} _.
Arguments bk_supported_selectors {W} _.
Arguments bk_proof_type {W} _ _.
Arguments bk_assessor_group {W} _ _.
Arguments bk_fulfillment_gas {W} _ _.
Arguments bk_additional_proof_cycles {W} _ _.
Arguments bk_evaluate_request {W} _ _ _.
Arguments bk_process_order {W} _ _.
Arguments bk_cancel_order {W} _ _.
Arguments bk_batch_processor {W} _.
Arguments bk_build_fulfillments {W} _ _.
Arguments bk_verifier_update_applied {W} _ _.
Arguments bk_apply_verifier_update {W} _ _.

Record BackendEntry (W : Type) := mkBackendEntry {
  be_id : string;
  be_selectors : list Z;
  be_backend : Backend W
}.
Arguments mkBackendEntry {W} _ _ _.
Arguments be_id {W} _.
Arguments be_selectors {W} _.
Arguments be_backend {W} _.

(** [BackendEntry::new]. *)
Definition backend_entry_new {W} (backend : Backend W) : BackendEntry W :=
  mkBackendEntry (bk_id backend) (bk_supported_selectors backend) backend.

Record BackendRouter (W : Type) := mkRouter {
  backends : gmap string (BackendEntry W);
  routes : gmap Z string
}.
Arguments mkRouter {W} _ _.
Arguments backends {W} _.
Arguments routes {W} _.

Definition router_new {W} : BackendRouter W := mkRouter ∅ ∅.

Section Table.
Context {W : Type}.

(** The validation of all selectors before anything is changed. *)
Fixpoint check_selectors (e : BackendEntry W) (routes : gmap Z string) (seen : gset Z)
    (sels : list Z) : result string unit :=
  match sels with
  | [] => Ok tt
  | sel :: sels =>
      if bool_decide (sel ∈ seen) then Err "selector is listed more than once"%string else
      match routes !! sel with
      | Some _ => Err "selector is already registered"%string
      | None =>
          _ ← ok_or "backend did not classify selector"%string (bk_proof_type (be_backend e) sel);
          check_selectors e routes ({[sel]} ∪ seen) sels
      end
  end.

Definition register_backend (self : BackendRouter W) (e : BackendEntry W)
    : result string (BackendRouter W) :=
  match be_selectors e with
  | [] => Err "must register at least one selector"%string
  | _ =>
      match backends self !! be_id e with
      | Some _ => Err "backend is already registered"%string
      | None =>
          _ ← check_selectors e (routes self) ∅ (be_selectors e);
          Ok (mkRouter (<[be_id e := e]> (backends self))
                (foldl (fun m sel => <[sel := be_id e]> m) (routes self) (be_selectors e)))
      end
  end.

(** The loop of [supported_selectors]. *)
Fixpoint add_supported (self : BackendRouter W) (rs : list (Z * string))
    (supported : SupportedSelectors) : SupportedSelectors :=
  match rs with
  | [] => supported
  | (sel, id) :: rs =>
      match e ← backends self !! id; bk_proof_type (be_backend e) sel with
      | Some ty => add_supported self rs (add_selector supported sel ty)
      | None => add_supported self rs supported
      end
  end.

Definition router_supported_selectors (self : BackendRouter W) : SupportedSelectors :=
  add_supported self (map_to_list (routes self)) supported_new.

Definition backend_for_id (self : BackendRouter W) (id : string) : result string (Backend W) :=
  ok_or "backend is not registered"%string (be_backend <$> backends self !! id).

Definition backend_for_selector (self : BackendRouter W) (sel : Z) : result string (Backend W) :=
  id ← ok_or "no backend registered for selector"%string (routes self !! sel);
  backend_for_id self id.

(** [String] orders by bytes; the ids in that order. *)
Fixpoint insert_id (x : string) (l : list string) : list string :=
  match l with
  | [] => [x]
  | y :: l' => if String.leb x y then x :: l else y :: insert_id x l'
  end.

Definition router_backend_ids (self : BackendRouter W) : list string :=
  foldr insert_id [] (map fst (map_to_list (backends self))).

Definition router_assessor_group (self : BackendRouter W) (id : string) (sel : Z)
    : result string (option Z) :=
  backend ← backend_for_id self id;
  bk_assessor_group backend sel.

Definition router_fulfillment_gas (self : BackendRouter W) (request : ProofRequest)
    : result string Z :=
  backend ← backend_for_selector self (selector (requirements request));
  bk_fulfillment_gas backend request.

Definition router_additional_proof_cycles (self : BackendRouter W) (request : ProofRequest)
    : result string Z :=
  backend ← backend_for_selector self (selector (requirements request));
  bk_additional_proof_cycles backend request.

Definition router_evaluate_request (self : BackendRouter W) (rq : EvaluationRequest)
    (limits : EvaluationLimits) : ste W OrderPricingError RequestEvaluation :=
  backend ← liftr (map_err (fun _ => UnexpectedErr) (backend_for_selector self (ev_selector rq)));
  bk_evaluate_request backend rq limits.

Definition router_process_order (self : BackendRouter W) (cmd : ProcessOrder)
    : ste W string OrderProcessProgress :=
  backend ← liftr (backend_for_selector self (selector (requirements (po_request cmd))));
  bk_process_order backend cmd.

Definition router_cancel_order (self : BackendRouter W) (cmd : CancelOrder) : ste W string unit :=
  backend ← liftr (backend_for_selector self (co_selector cmd));
  bk_cancel_order backend cmd.

Definition batch_processor_for_id (self : BackendRouter W) (id : string)
    : result string (BatchProcessor W) :=
  backend ← backend_for_id self id;
  ok_or "backend does not support batching"%string (bk_batch_processor backend).

Definition router_estimate_batch_size (self : BackendRouter W) (id : string)
    (cmd : BatchSizeEstimateRequest) : ste W string Z :=
  bp ← liftr (batch_processor_for_id self id);
  bp_estimate_batch_size bp cmd.

Definition router_update_batch (self : BackendRouter W) (id : string) (cmd : UpdateBatch)
    : ste W string BatchUpdate :=
  bp ← liftr (batch_processor_for_id self id);
  bp_update_batch bp cmd.

Definition router_close_batch (self : BackendRouter W) (id : string) (cmd : CloseBatch)
    : ste W string BatchClose :=
  bp ← liftr (batch_processor_for_id self id);
  bp_close_batch bp cmd.

Definition router_build_fulfillments (self : BackendRouter W) (cmd : FulfillmentBatch)
    : ste W string SubmissionPlan :=
  backend ← liftr (backend_for_id self (fb_backend_id cmd));
  bk_build_fulfillments backend cmd.

Definition router_verifier_update_applied (self : BackendRouter W) (id : string)
    (update : VerifierUpdate) : ste W string bool :=
  backend ← liftr (backend_for_id self id);
  bk_verifier_update_applied backend update.

Definition router_apply_verifier_update (self : BackendRouter W) (id : string)
    (update : VerifierUpdate) : ste W VerifierUpdateError unit :=
  backend ← liftr (map_err VuOther (backend_for_id self id));
  bk_apply_verifier_update backend update.

End Table.

(** * Theorems *)

(** ** The snapshot is exact *)

Section LoadExact.
Context {W : Type} `{RouterView W}.
Variables (router dflt : Z) (ent : Z -> RouterEntry) (cls : Z -> Z * Z).
Hypothesis router_answer : forall w, ROUTER w = (inr router, w).
Hypothesis default_answer : forall w, view_default_class router w = (inr dflt, w).
Hypothesis entry_answer : forall sel w, view_entry router sel w = (inr (ent sel), w).
Hypothesis class_answer : forall class w, view_class router class w = (inr (cls class), w).

(** A selector of interest with an implementation behind it. *)
Definition registered (sels : list Z) (sel : Z) : Prop :=
  sel ∈ sels /\ sel <> 0 /\ implementation (ent sel) <> 0.

Lemma node_answer {A} (m : st W (string + A)) a (s : MsState W) :
  m (ms_world s) = (inr a, ms_world s) -> node_try m s = (Ok a, s).
Proof. intros Hm. rewrite node_try_run, Hm. by destruct s. Qed.

Lemma load_entries_run sels es cids (s : MsState W) :
  exists es' cids', load_entries router sels es cids s = (Ok (es', cids'), s)
    /\ (forall k, es' !! k = Some (ent k) /\ registered sels k
                  \/ es' !! k = es !! k /\ ~ registered sels k)
    /\ (forall c, c ∈ cids' <-> c ∈ cids \/ exists k, registered sels k /\ class_id (ent k) = c).
Proof.
  revert es cids. induction sels as [|sel sels IH]; intros es cids; cbn [load_entries].
  - exists es, cids. split; [done|]. split.
    + intros k. right. split; [done|]. by intros [?%elem_of_nil _].
    + intros c. split; [by left|]. intros [|(k & [?%elem_of_nil _] & _)]; done.
  - assert (Hskip : (sel = 0 \/ implementation (ent sel) = 0) ->
      forall k, registered (sel :: sels) k <-> registered sels k).
    { intros Hs k. unfold registered. rewrite elem_of_cons. naive_solver. }
    unfold UNSPECIFIED_SELECTOR. destruct (Z.eqb_spec sel 0) as [Hz|Hz].
    { destruct (IH es cids) as (es' & cids' & Hr & He & Hc). exists es', cids'.
      split; [done|]. setoid_rewrite (Hskip (or_introl Hz)). done. }
    unfold mbind, ste_bind. rewrite (node_answer _ (ent sel)) by apply entry_answer.
    destruct (Z.eqb_spec (implementation (ent sel)) 0) as [Hi|Hi]; simpl negb; cbn iota.
    { destruct (IH es cids) as (es' & cids' & Hr & He & Hc). exists es', cids'.
      split; [done|]. setoid_rewrite (Hskip (or_intror Hi)). done. }
    destruct (IH (<[sel := ent sel]> es) ({[class_id (ent sel)]} ∪ cids))
      as (es' & cids' & Hr & He & Hc). exists es', cids'. split; [done|]. split.
    + intros k. destruct (decide (k = sel)) as [->|Hne].
      * left. split; [|by repeat split; [left|..]].
        destruct (He sel) as [[Hl _]|[Hl _]]; [done|by rewrite Hl, lookup_insert_eq].
      * assert (Hreg : registered (sel :: sels) k <-> registered sels k)
          by (unfold registered; rewrite elem_of_cons; naive_solver).
        rewrite Hreg. destruct (He k) as [Hl|[Hl Hn]]; [by left|right].
        by rewrite Hl, lookup_insert_ne.
    + intros c. rewrite Hc, elem_of_union, elem_of_singleton. split.
      * intros [[->|Hin]|(k & Hk & <-)]; [right|by left|right].
        { exists sel. split; [|done]. by repeat split; [left|..]. }
        exists k. split; [|done]. destruct Hk as (? & ? & ?). by repeat split; [right|..].
      * intros [Hin|(k & (Hin & Hk0 & Hki) & <-)]; [by left; right|].
        apply elem_of_cons in Hin as [->|Hin]; [by left; left|right].
        by exists k.
Qed.

Lemma load_classes_run cs required (s : MsState W) :
  exists required', load_classes router cs required s = (Ok required', s)
    /\ forall c, required' !! c = Some (snd (cls c)) /\ c ∈ cs /\ fst (cls c) <> 0
                 \/ required' !! c = required !! c /\ ~ (c ∈ cs /\ fst (cls c) <> 0).
Proof.
  revert required. induction cs as [|c0 cs IH]; intros required; cbn [load_classes].
  - exists required. split; [done|]. intros c. right. split; [done|]. by intros [?%elem_of_nil _].
  - unfold mbind, ste_bind. rewrite (node_answer _ (cls c0)) by apply class_answer.
    destruct (Z.eqb_spec (fst (cls c0)) 0) as [Ht|Ht]; simpl negb; cbn iota.
    + destruct (IH required) as (r' & Hr & Hc). exists r'. split; [done|]. intros c.
      rewrite elem_of_cons. specialize (Hc c). naive_solver.
    + destruct (IH (<[c0 := snd (cls c0)]> required)) as (r' & Hr & Hc). exists r'.
      split; [done|]. intros c. rewrite elem_of_cons. specialize (Hc c).
      destruct (decide (c = c0)) as [->|Hne].
      * rewrite lookup_insert_eq in Hc. naive_solver.
      * rewrite lookup_insert_ne in Hc by done. naive_solver.
Qed.

(** The loaded registry, in terms of the router. *)
Definition snapshot_of (sels : list Z) (reg : RouterRegistry) : Prop :=
  default_class_id reg = dflt
  /\ (forall k e, entries reg !! k = Some e <-> registered sels k /\ e = ent k)
  /\ (forall c a, required_assessor_classes reg !! c = Some a <->
        (c = dflt /\ dflt <> 0 \/ exists k e, entries reg !! k = Some e /\ class_id e = c)
        /\ fst (cls c) <> 0 /\ a = snd (cls c)).

Lemma load_snapshot sels (s : MsState W) :
  exists reg, load_router_registry sels s = (Ok reg, s) /\ snapshot_of sels reg.
Proof.
  unfold load_router_registry, router_address, mbind, ste_bind.
  rewrite (node_answer _ router) by apply router_answer.
  rewrite (node_answer _ dflt) by apply default_answer.
  set (cids := if negb (dflt =? 0) then _ else _).
  destruct (load_entries_run sels ∅ cids s) as (es & cids' & -> & He & Hc).
  destruct (load_classes_run (elements cids') ∅ s) as (required & -> & Hr).
  eexists. split; [done|]. split; [done|].
  assert (Hent : forall k e, es !! k = Some e <-> registered sels k /\ e = ent k).
  { intros k e. destruct (He k) as [[Hl Hreg]|[Hl Hn]]; rewrite Hl; [naive_solver|].
    rewrite lookup_empty. naive_solver. }
  split; [exact Hent|]. intros c a. cbn [required_assessor_classes entries from_parts].
  assert (Hmem : c ∈ elements cids'
    <-> (c = dflt /\ dflt <> 0 \/ exists k e, es !! k = Some e /\ class_id e = c)).
  { rewrite elem_of_elements, Hc. subst cids. setoid_rewrite Hent.
    destruct (Z.eqb_spec dflt 0); simpl; [|rewrite elem_of_singleton]; set_solver. }
  rewrite <- Hmem. destruct (Hr c) as [(Hl & Hin & Ht)|[Hl Hn]]; rewrite Hl.
  - naive_solver.
  - rewrite lookup_empty. naive_solver.
Qed.

End LoadExact.

(** ** What a backend advertises, it can serve *)

(** What the router guarantees of its registry: the sentinel is neither an entry nor
    the class of one, and the namespaces of the class ids and of the entry selectors
    are disjoint. *)
Record registry_wf (reg : RouterRegistry) : Prop := mkRegistryWf {
  wf_no_sentinel : entries reg !! 0 = None;
  wf_default : entries reg !! default_class_id reg = None;
  wf_class k e : entries reg !! k = Some e -> class_id e <> 0 /\ entries reg !! class_id e = None
}.

Section Policy.
Variables (reg : RouterRegistry) (pairs : list (Z * Z)) (priority : list Z).

(** The pairs that the registry covers. *)
Definition covered (class : Z) (p : Z * Z) : bool :=
  match entries reg !! fst p with Some e => class_id e =? class | None => false end.

Lemma collect_producible_spec prod classes prod' classes' :
  collect_producible reg pairs prod classes = (prod', classes') ->
  (forall k, is_Some (prod' !! k) <->
     is_Some (prod !! k) \/ (is_Some (entries reg !! k) /\ k ∈ map fst pairs))
  /\ (forall c, classes' !! c = match classes !! c with
                               | Some p => Some p
                               | None => snd <$> List.find (covered c) pairs
                               end).
Proof.
  revert prod classes. induction pairs as [|[sel produced] l IH]; intros prod classes Hr;
    cbn [collect_producible] in Hr.
  - injection Hr as <- <-. split; [|by intros c; destruct (classes !! c)].
    intros k. split; [by left|]. intros [|[_ ?%elem_of_nil]]; done.
  - unfold entry in Hr. destruct (entries reg !! sel) as [e|] eqn:Ee.
    + apply IH in Hr as [Hp Hc]. split.
      * intros k. rewrite Hp. simpl. rewrite elem_of_cons.
        destruct (decide (k = sel)) as [->|Hne];
          [rewrite lookup_insert_eq, Ee; naive_solver|rewrite lookup_insert_ne by done; naive_solver].
      * intros c. rewrite Hc. simpl. unfold covered at 2. simpl. rewrite Ee.
        destruct (Z.eqb_spec (class_id e) c) as [<-|Hne].
        -- destruct (classes !! class_id e) eqn:Ec; [by rewrite Ec|].
           by rewrite lookup_insert_eq.
        -- destruct (classes !! class_id e); [done|]. by rewrite lookup_insert_ne.
    + apply IH in Hr as [Hp Hc]. split.
      * intros k. rewrite Hp. simpl. rewrite elem_of_cons.
        split; [naive_solver|]. intros [|[Hs [->|]]]; [by left| |by right].
        rewrite Ee in Hs. by destruct Hs.
      * intros c. rewrite Hc. simpl. unfold covered at 2. simpl. by rewrite Ee.
Qed.

Abbreviation policy := (policy_new reg pairs priority).

Lemma policy_maps :
  (forall k, is_Some (producible policy !! k)
     <-> is_Some (entries reg !! k) /\ k ∈ map fst pairs)
  /\ (forall c, class_to_producible policy !! c = snd <$> List.find (covered c) pairs)
  /\ (forall c, c ∈ supported_classes policy
     <-> is_Some (class_to_producible policy !! c) /\ is_Some (assessor_for_class reg priority c)).
Proof.
  unfold policy_new. destruct (collect_producible reg pairs ∅ ∅) as [prod classes] eqn:Ec.
  apply collect_producible_spec in Ec as [Hp Hc]. cbn [producible class_to_producible supported_classes].
  split_and!.
  - intros k. rewrite Hp, lookup_empty. split; [intros [[? [=]]|]; done|by right].
  - intros c. by rewrite Hc, lookup_empty.
  - intros c. rewrite list_elem_of_In, filter_In, <- list_elem_of_In, bool_decide_eq_true.
    rewrite list_elem_of_fmap. split.
    + intros [([k p] & -> & Hin) Ha]. apply elem_of_map_to_list in Hin. simpl. by rewrite Hin.
    + intros [[p Hl] Ha]. split; [|done]. exists (c, p). split; [done|].
      by apply elem_of_map_to_list.
Qed.

Lemma policy_assessor sel :
  assessor_selector_for_signed policy sel
  = (c ← resolve_verifier_class reg sel; assessor_for_class reg priority c).
Proof.
  unfold assessor_selector_for_signed, assessor_for_verifier_class, policy_new.
  by destruct (collect_producible _ _ _ _).
Qed.

Lemma policy_registry : registry policy = reg.
Proof. unfold policy_new. by destruct (collect_producible _ _ _ _). Qed.

Lemma policy_supported_iff sel :
  sel ∈ policy_supported_selectors policy
  <-> (is_Some (producible policy !! sel) /\ is_Some (assessor_selector_for_signed policy sel))
      \/ (is_Some (class_to_producible policy !! sel)
          /\ is_Some (assessor_for_class reg priority sel))
      \/ (sel = 0 /\ is_Some (class_to_producible policy !! default_class_id reg)
          /\ is_Some (assessor_for_class reg priority (default_class_id reg))).
Proof.
  destruct policy_maps as (_ & _ & Hs).
  unfold policy_supported_selectors. rewrite !elem_of_app, Hs, policy_registry.
  rewrite list_elem_of_In, filter_In, <- list_elem_of_In, bool_decide_eq_true.
  assert (Hkey : sel ∈ producible_selectors policy <-> is_Some (producible policy !! sel)).
  { unfold producible_selectors. rewrite list_elem_of_fmap. split.
    - intros ([k p] & -> & Hin). apply elem_of_map_to_list in Hin. simpl. by rewrite Hin.
    - intros [p Hl]. exists (sel, p). by rewrite elem_of_map_to_list. }
  rewrite Hkey. case_bool_decide as Hd; rewrite Hs in Hd.
  - rewrite list_elem_of_singleton. unfold UNSPECIFIED_SELECTOR. tauto.
  - rewrite elem_of_nil. tauto.
Qed.

Context (Hwf : registry_wf reg).

(** A class with a producible entry is not the sentinel and no entry itself. *)
Lemma producible_class c :
  is_Some (class_to_producible policy !! c) -> c <> 0 /\ entries reg !! c = None.
Proof.
  destruct policy_maps as (_ & Hc & _). intros [p Hl]. rewrite Hc in Hl.
  destruct (List.find (covered c) pairs) as [[s' p']|] eqn:Ef; [|done].
  apply find_some in Ef as [_ Hcov]. unfold covered in Hcov. simpl in Hcov.
  destruct (entries reg !! s') as [e|] eqn:Ee; [|done]. apply Z.eqb_eq in Hcov as <-.
  by eapply wf_class.
Qed.

Lemma producible_entry sel :
  is_Some (producible policy !! sel) -> is_Some (entries reg !! sel).
Proof. destruct policy_maps as (Hp & _). intros Hs. by apply Hp. Qed.

(** Such a class resolves to itself, if it has an assessor. *)
Lemma class_assessor c :
  is_Some (class_to_producible policy !! c) ->
  (is_Some (assessor_selector_for_signed policy c)
   <-> is_Some (assessor_for_class reg priority c)).
Proof.
  intros [Hz Hnone]%producible_class. rewrite policy_assessor.
  unfold resolve_verifier_class, UNSPECIFIED_SELECTOR.
  rewrite (proj2 (Z.eqb_neq _ _)) by done. rewrite Hnone.
  case_bool_decide as Hr; [done|]. simpl. split; [by intros [? [=]]|].
  intros [a Ha]. exfalso. apply Hr. unfold assessor_for_class, required_assessor_class in Ha.
  destruct (required_assessor_classes reg !! c); [by eexists|done].
Qed.

End Policy.

(** A backend advertises exactly the selectors that it can both produce and seal.
    For the policy of any well-formed registry and any capabilities: a selector other
    than the sentinel is among the supported ones iff the policy maps it to a
    selector to emit and some assessor is registered for its verifier class; the
    sentinel is iff there is a default class, of which the same holds. *)
Theorem supported_selectors_serveable reg pairs priority sel :
  registry_wf reg ->
  let policy := policy_new reg pairs priority in
  sel ∈ policy_supported_selectors policy
  <-> is_Some (assessor_selector_for_signed policy sel)
      /\ is_Some (producible_selector policy
                   (if sel =? UNSPECIFIED_SELECTOR then default_class_id reg else sel)).
Proof.
  intros Hwf policy.
  pose proof (producible_class reg pairs priority Hwf) as Hclass.
  pose proof (producible_entry reg pairs priority) as Hentry.
  unfold policy. rewrite policy_supported_iff. unfold producible_selector, UNSPECIFIED_SELECTOR.
  destruct (Z.eqb_spec sel 0) as [->|Hne].
  - rewrite policy_assessor. unfold resolve_verifier_class, UNSPECIFIED_SELECTOR. simpl.
    destruct (producible (policy_new reg pairs priority) !! 0) eqn:E0.
    { destruct (Hentry 0) as [? He]; [by eexists|]. by rewrite (wf_no_sentinel _ Hwf) in He. }
    destruct (producible (policy_new reg pairs priority) !! default_class_id reg) eqn:Ed.
    { destruct (Hentry (default_class_id reg)) as [? He]; [by eexists|].
      by rewrite (wf_default _ Hwf) in He. }
    destruct (Z.eqb_spec (default_class_id reg) 0) as [Hd|Hd]; simpl.
    + split; [|by intros [[? [=]] _]].
      intros [[[? [=]] _]|[[Hc _]|(_ & Hc & _)]]; apply Hclass in Hc as [? _]; done.
    + split; [|tauto]. intros [[[? [=]] _]|[[Hc _]|(_ & Hc & Ha)]]; [|done].
      by apply Hclass in Hc as [? _].
  - destruct (producible (policy_new reg pairs priority) !! sel) as [p|] eqn:Ep.
    + assert (Hn : ~ is_Some (class_to_producible (policy_new reg pairs priority) !! sel)).
      { intros Hc. apply Hclass in Hc as [_ Hnone].
        destruct (Hentry sel) as [? He]; [by eexists|]. by rewrite Hnone in He. }
      naive_solver.
    + pose proof (class_assessor reg pairs priority Hwf sel) as Hca.
      split; [|naive_solver]. intros [[[? [=]] _]|[[Hc Ha]|[? _]]]; [|done].
      by rewrite Hca.
Qed.

(** The snapshot of a router whose namespaces are disjoint is well formed. *)
Lemma snapshot_wf dflt ent cls sels reg :
  snapshot_of dflt ent cls sels reg ->
  (forall k, registered ent sels k -> class_id (ent k) <> 0
             /\ ~ registered ent sels (class_id (ent k)) /\ k <> dflt) ->
  registry_wf reg.
Proof.
  intros (Hd & He & _) Hns. assert (Hnone : forall k, ~ registered ent sels k -> entries reg !! k = None).
  { intros k Hk. destruct (entries reg !! k) eqn:El; [|done]. by apply He in El as [? _]. }
  split.
  - apply Hnone. by intros (_ & ? & _).
  - apply Hnone. rewrite Hd. intros Hr. by apply Hns in Hr as (_ & _ & ?).
  - intros k e Hl. apply He in Hl as [Hr ->]. destruct (Hns _ Hr) as (Hz & Hn & _). auto.
Qed.

(** ** Every selector is routed to the backend that registered it *)

Section TableLaws.
Context {W : Type}.

(** All backends in turn. *)
Fixpoint register_all (self : BackendRouter W) (es : list (BackendEntry W))
    : result string (BackendRouter W) :=
  match es with
  | [] => Ok self
  | e :: es => r ← register_backend self e; register_all r es
  end.

(** The table agrees with the backends that were registered. *)
Record routed (es : list (BackendEntry W)) (r : BackendRouter W) : Prop := mkRouted {
  rt_backends id e : backends r !! id = Some e <-> e ∈ es /\ be_id e = id;
  rt_routes sel id : routes r !! sel = Some id <-> exists e, e ∈ es /\ be_id e = id /\ sel ∈ be_selectors e;
  rt_classified e sel : e ∈ es -> sel ∈ be_selectors e -> is_Some (bk_proof_type (be_backend e) sel)
}.

Lemma check_selectors_Ok (e : BackendEntry W) rs seen sels :
  check_selectors e rs seen sels = Ok tt ->
  forall sel, sel ∈ sels -> rs !! sel = None /\ is_Some (bk_proof_type (be_backend e) sel).
Proof.
  revert seen. induction sels as [|s sels IH]; intros seen Hr sel; [by intros ?%elem_of_nil|].
  cbn [check_selectors] in Hr. case_bool_decide; [done|].
  destruct (rs !! s) eqn:Es; [done|]. apply result_bind_Ok in Hr as (ty & Hty & Hr).
  intros [->|Hin]%elem_of_cons; [|by eapply IH].
  split; [done|]. destruct (bk_proof_type _ s); [by eexists|done].
Qed.

Lemma insert_routes_lookup (id : string) sels (m : gmap Z string) sel :
  foldl (fun m sel => <[sel := id]> m) m sels !! sel
  = if bool_decide (sel ∈ sels) then Some id else m !! sel.
Proof.
  revert m. induction sels as [|s sels IH]; intros m; cbn [foldl].
  - rewrite bool_decide_eq_false_2; [done|]. by intros ?%elem_of_nil.
  - rewrite IH. case_bool_decide as Hin.
    + rewrite bool_decide_eq_true_2; [done|by right].
    + destruct (decide (sel = s)) as [->|Hne].
      * rewrite lookup_insert_eq, bool_decide_eq_true_2; [done|left].
      * rewrite lookup_insert_ne by done. rewrite bool_decide_eq_false_2; [done|].
        by intros [->|]%elem_of_cons.
Qed.

Lemma register_routed es r e r' :
  routed es r -> register_backend r e = Ok r' -> routed (e :: es) r'.
Proof.
  intros [Hb Hr Hc] Hreg. unfold register_backend in Hreg.
  destruct (be_selectors e) as [|s0 sels] eqn:Esel; [done|]. rewrite <- Esel in Hreg.
  destruct (backends r !! be_id e) eqn:Eb; [done|].
  apply result_bind_Ok in Hreg as ([] & Hcheck & [= <-]).
  pose proof (check_selectors_Ok _ _ _ _ Hcheck) as Hsel. split; simpl.
  - intros id e'. rewrite elem_of_cons. destruct (decide (id = be_id e)) as [->|Hne].
    + rewrite lookup_insert_eq. split; [naive_solver|].
      intros [[->|Hin] Hid]; [done|]. exfalso.
      assert (backends r !! be_id e = Some e') by (by apply Hb). congruence.
    + rewrite lookup_insert_ne by done. rewrite Hb. naive_solver.
  - intros sel id. rewrite insert_routes_lookup. setoid_rewrite elem_of_cons. case_bool_decide as Hin.
    + split; [intros [= <-]; exists e; auto|].
      intros (e' & [->|Hin'] & Hid & Hs); [by subst|]. exfalso.
      assert (routes r !! sel = Some id) by (apply Hr; eauto).
      destruct (Hsel _ Hin). congruence.
    + rewrite Hr. naive_solver.
  - intros e' sel [->|Hin]%elem_of_cons Hs; [by apply Hsel|by eapply Hc].
Qed.

Lemma register_all_routed es es0 r r' :
  routed es0 r -> register_all r es = Ok r' -> routed (reverse es ++ es0) r'.
Proof.
  revert es0 r. induction es as [|e es IH]; intros es0 r Hrt Hr; [by injection Hr as <-|].
  cbn [register_all] in Hr. apply result_bind_Ok in Hr as (r1 & H1 & Hr).
  rewrite reverse_cons, <- app_assoc. eapply IH; [|exact Hr]. by eapply register_routed.
Qed.

Lemma add_supported_lookup (r : BackendRouter W) rs supported sel :
  NoDup (map fst rs) ->
  selectors (add_supported r rs supported) !! sel
  = match List.find (fun p => fst p =? sel) rs with
    | Some (_, id) =>
        match e ← backends r !! id; bk_proof_type (be_backend e) sel with
        | Some ty => Some ty
        | None => selectors supported !! sel
        end
    | None => selectors supported !! sel
    end.
Proof.
  revert supported. induction rs as [|[s id] rs IH]; intros supported Hnd; [done|].
  apply NoDup_cons in Hnd as [Hni Hnd]. cbn [add_supported List.find].
  destruct (Z.eqb_spec s sel) as [->|Hne]; cbn [fst].
  - rewrite (proj2 (Z.eqb_eq sel sel)) by done.
    assert (Hf : List.find (fun p : Z * string => fst p =? sel) rs = None).
    { destruct (List.find _ rs) as [p|] eqn:Ef; [|done]. apply find_some in Ef as [Hin Heq].
      apply Z.eqb_eq in Heq as <-. destruct Hni. apply list_elem_of_fmap.
      exists p. split; [done|]. by apply list_elem_of_In. }
    destruct (e ← _; _) as [ty|]; rewrite IH, Hf by done; [|done].
    simpl. by rewrite lookup_insert_eq.
  - rewrite (proj2 (Z.eqb_neq s sel)) by done.
    destruct (e ← backends r !! id; _) as [ty|]; rewrite IH by done; [|done].
    simpl. by rewrite lookup_insert_ne.
Qed.

End TableLaws.

(** The table of backends routes each selector to the one backend that registered
    it: after any sequence of successful registrations, a selector that a backend
    lists is served by that backend, is advertised with the proof type that the
    backend gives it, and is listed by no other one; every other selector is neither
    routed nor advertised. *)
Theorem register_all_routes {W} (es : list (BackendEntry W)) r sel :
  register_all router_new es = Ok r ->
  (forall e, e ∈ es -> sel ∈ be_selectors e ->
     backend_for_selector r sel = Ok (be_backend e)
     /\ proof_type (router_supported_selectors r) sel = bk_proof_type (be_backend e) sel
     /\ is_Some (bk_proof_type (be_backend e) sel)
     /\ forall e', e' ∈ es -> sel ∈ be_selectors e' -> e' = e)
  /\ ((forall e, e ∈ es -> sel ∉ be_selectors e) ->
      backend_for_selector r sel = Err "no backend registered for selector"%string
      /\ is_supported (router_supported_selectors r) sel = false).
Proof.
  intros Hreg.
  assert (Hrt : routed (W := W) [] router_new).
  { unfold router_new. split; cbn [backends routes];
      [intros ? ?|intros ? ?|by intros ? ? ?%elem_of_nil].
    - split; [by intros ?%lookup_empty_Some|]. by intros [?%elem_of_nil _].
    - split; [by intros ?%lookup_empty_Some|]. by intros (? & ?%elem_of_nil & _). }
  apply (register_all_routed _ _ _ _ Hrt) in Hreg as [Hb Hr Hc]. rewrite app_nil_r in *.
  setoid_rewrite elem_of_reverse in Hb. setoid_rewrite elem_of_reverse in Hr.
  setoid_rewrite elem_of_reverse in Hc.
  assert (Hsup : selectors (router_supported_selectors r) !! sel
    = (id ← routes r !! sel; e ← backends r !! id; bk_proof_type (be_backend e) sel)).
  { unfold router_supported_selectors. rewrite add_supported_lookup by apply NoDup_fst_map_to_list.
    cbn [selectors supported_new]. rewrite lookup_empty.
    destruct (List.find _ _) as [[s id]|] eqn:Ef.
    - apply find_some in Ef as [Hin Heq]. apply Z.eqb_eq in Heq. simpl in Heq. subst s.
      apply list_elem_of_In, elem_of_map_to_list in Hin. rewrite Hin. simpl.
      by destruct (e ← _; _).
    - destruct (routes r !! sel) as [id|] eqn:El; [|done].
      apply elem_of_map_to_list, list_elem_of_In in El.
      apply (find_none _ _ Ef) in El. simpl in El. by rewrite Z.eqb_refl in El. }
  assert (Hone : forall e, e ∈ es -> sel ∈ be_selectors e ->
                 routes r !! sel = Some (be_id e) /\ backends r !! be_id e = Some e).
  { intros e He Hs. split; [apply Hr; eauto|by apply Hb]. }
  split.
  - intros e He Hs. destruct (Hone e He Hs) as [Hrs Hbs].
    unfold backend_for_selector, backend_for_id, proof_type. rewrite Hsup, Hrs. simpl.
    rewrite Hbs. simpl. split_and!; [done|done|by eapply Hc|].
    intros e' He' Hs'. destruct (Hone e' He' Hs') as [Hrs' Hbs']. congruence.
  - intros Hnone. assert (Hn : routes r !! sel = None).
    { destruct (routes r !! sel) eqn:El; [|done]. apply Hr in El as (e & He & _ & Hs).
      by apply Hnone in Hs. }
    unfold backend_for_selector, is_supported. rewrite Hsup, Hn. split; [done|].
    by apply bool_decide_eq_false_2; intros [? [=]].
Qed.

(** ** Concrete runs *)

Module ToyRouter.

(** A verifier class 16 with two entries, and an assessor class 32 with one. *)
Definition toy_registry : RouterRegistry :=
  from_parts 16 (list_to_map [(17, mkRouterEntry 1 16 0); (18, mkRouterEntry 2 16 0);
                              (34, mkRouterEntry 3 32 0)])
    (list_to_map [(16, 32); (32, 0)]).

Definition toy_pairs : list (Z * Z) := [(18, 18); (17, 17)].

Definition policy : RouterPolicy := policy_new toy_registry toy_pairs [34].

Definition backend (id : string) (sels : list Z) : Backend unit :=
  mkBackend unit id sels (fun _ => Some PfAny) (fun _ => Ok None) (fun _ => Ok 0) (fun _ => Ok 0)
    (fun _ _ => throw UnexpectedErr) (fun _ => throw "no"%string) (fun _ => throw "no"%string) None
    (fun _ => throw "no"%string) (fun _ => throw "no"%string) (fun _ => throw (VuOther "no")).

Definition entries : list (BackendEntry unit) :=
  [backend_entry_new (backend "a" [1; 2]); backend_entry_new (backend "b" [3])].

End ToyRouter.

(** A class id is served with the version that the backend prefers. *)
Example preferred_version :
  producible_selector ToyRouter.policy 16 = Some 18
  /\ producible_selector ToyRouter.policy 17 = Some 17
  /\ assessor_selector_for_signed ToyRouter.policy 0 = Some 34.
Proof. split_and!; reflexivity. Qed.

Lemma toy_registry_wf : registry_wf ToyRouter.toy_registry.
Proof.
  split; [reflexivity|reflexivity|]. intros k e Hl.
  apply elem_of_list_to_map_2 in Hl. rewrite !elem_of_cons, elem_of_nil in Hl.
  destruct Hl as [[= -> ->]|[[= -> ->]|[[= -> ->]|[]]]]; split; try discriminate; reflexivity.
Qed.

Lemma supported_selectors_serveable_witness :
  registry_wf ToyRouter.toy_registry
  /\ 0 ∈ policy_supported_selectors ToyRouter.policy.
Proof.
  split; [exact toy_registry_wf|].
  apply (supported_selectors_serveable ToyRouter.toy_registry ToyRouter.toy_pairs [34] 0
           toy_registry_wf).
  split; [exists 34; reflexivity|exists 18; reflexivity].
Defined.

Lemma register_all_routes_witness :
  exists r, register_all router_new ToyRouter.entries = Ok r
    /\ backend_for_selector r 3 = Ok (ToyRouter.backend "b" [3]).
Proof.
  destruct (register_all router_new ToyRouter.entries) as [r|e|] eqn:E;
    [|vm_compute in E; discriminate..].
  exists r. split; [reflexivity|].
  apply (proj1 (register_all_routes ToyRouter.entries r 3 E)
           (backend_entry_new (ToyRouter.backend "b" [3]))).
  - right. left.
  - left.
Defined.
