(* ===== verification/Assessor.v ===== *)
(** * The assessor

    [crates/assessor/src/lib.rs] and its guest,
    [crates/guest/assessor/assessor-guest/src/main.rs]: the program whose proof tells the
    market that requests were signed and that their requirements are met.  The guest
    checks every fill, commits to each, and puts the root of the tree of the commitments
    in its journal. *)

From S2P Require Import Prelude Market.
From Stdlib Require Import Strings.Byte.

Local Open Scope Z_scope.

(** ** Data *)

(** [Fulfillment]: what the assessor is shown of one request. *)
Record AssessorFill := mkFill {
  fill_request : ProofRequest;
  fill_signature : bytes;
  fill_data : FulfillmentData
}.

Record AssessorInput := mkAssessorInput {
  ai_fills : list AssessorFill;
  ai_domain : EIP712DomainSaltless;
  ai_prover_address : Z
}.

Inductive AssessorError :=
| AlloySignatureError
| SignatureVerificationError (recovered_addr expected_addr : Z)
| FillNonCanonicalError
| RequirementsEvaluationError
| FillPredicateError (e : PredicateError).

(** Solidity structs of the market. *)
Record AssessorCommitment := mkCommitment {
  ac_index : Z;
  ac_id : Z;
  ac_request_digest : bytes;
  ac_claim_digest : bytes;
  ac_fulfillment_data_digest : bytes
}.

Record AssessorCallback := mkAssessorCallback {
  acb_index : Z;
  acb_addr : Z;
  acb_gas_limit : Z
}.

Record AssessorSelector := mkAssessorSelector { asl_index : Z; asl_value : Z }.

Record AssessorJournal := mkAssessorJournal {
  aj_callbacks : list AssessorCallback;
  aj_selectors : list AssessorSelector;
  aj_root : bytes;
  aj_prover : Z
}.

(** The encodings that other crates make. *)
Class AssessorCodec := {
  postcard_decode : bytes -> option AssessorInput;
  (** the type hash and the five words that [eip712_hash_struct] hashes *)
  commitment_encode : AssessorCommitment -> bytes;
  journal_abi_encode : AssessorJournal -> bytes
}.

Section Assessor.
Context `{Externals}.

(** ** Fills *)

Definition fill_verify_signature (self : AssessorFill) (domain : EIP712DomainSaltless)
    : result AssessorError bytes :=
  let hash := eip712_signing_hash domain (fill_request self) in
  signature ← ok_or AlloySignatureError (sig_parse (fill_signature self));
  if sig_noncanonical signature then Err FillNonCanonicalError else
  recovered ← ok_or AlloySignatureError (sig_recover signature hash);
  let client_addr := client_address (fill_request self) in
  if negb (recovered =? client_addr)
  then Err (SignatureVerificationError recovered client_addr)
  else Ok hash.

Definition evaluate_requirements (self : AssessorFill) : result AssessorError bytes :=
  p ← map_err FillPredicateError
        (predicate_try_from (predicate (requirements (fill_request self))));
  ok_or RequirementsEvaluationError (predicate_eval p (fill_data self)).

(** ** The tree of commitments *)

(** The order of byte slices. *)
Fixpoint bytes_ltb (a b : bytes) : bool :=
  match a, b with
  | [], [] => false
  | [], _ :: _ => true
  | _ :: _, [] => false
  | x :: a, y :: b =>
      (Byte.to_N x <? Byte.to_N y)%N || (Byte.eqb x y && bytes_ltb a b)
  end.

Definition commutative_keccak256 (a b : bytes) : bytes :=
  keccak256 (if bytes_ltb a b then a ++ b else b ++ a).

(** The loop over the pairs of a level, in place: [todo] pairs, from the pair [i]. *)
Fixpoint hash_pairs {E} (todo i : nat) (leaves : list bytes) : result E (list bytes) :=
  match todo with
  | O => Ok leaves
  | S todo =>
      a ← unwrap (leaves !! (2 * i)%nat);
      b ← unwrap (leaves !! (2 * i + 1)%nat);
      hash_pairs todo (S i) (<[i := commutative_keccak256 a b]> leaves)
  end.

(** The [while] loop; [n] is the length of the level. *)
Fixpoint tree_levels {E} (fuel n : nat) (leaves : list bytes) : result E (list bytes) :=
  match fuel with
  | O => Panic
  | S fuel =>
      if (n <=? 1)%nat then Ok leaves else
      let next_level_length := ((n + 1) / 2)%nat in
      leaves ← hash_pairs (n / 2) 0 leaves;
      leaves ← (if (n mod 2 =? 1)%nat
                then last ← unwrap (leaves !! (n - 1)%nat);
                     mret (<[(next_level_length - 1)%nat := last]> leaves)
                else mret leaves);
      tree_levels fuel next_level_length leaves
  end.

(** A level is shorter than the one before, so that the number of leaves is enough
    fuel. *)
Definition process_tree {E} (values : list bytes) : result E bytes :=
  let n := length values in
  if (n =? 0)%nat then Panic else
  if (n =? 1)%nat then unwrap (values !! 0%nat) else
  leaves ← tree_levels n n values;
  unwrap (leaves !! 0%nat).

(** ** The guest

    Everything it refuses is a panic, that is, an execution without a journal. *)

Context `{AssessorCodec}.

Definition expect {E F A} (m : result F A) : result E A :=
  match m with Ok a => Ok a | _ => Panic end.

Definition eip712_hash_struct (c : AssessorCommitment) : bytes := keccak256 (commitment_encode c).

Record GuestState := mkGuest {
  g_leaves : list bytes;
  g_callbacks : list AssessorCallback;
  g_selectors : list AssessorSelector
}.

Definition u16_try_into {E} (index : nat) : result E Z :=
  if Z.of_nat index <? 2 ^ 16 then Ok (Z.of_nat index) else Panic.

(** One turn of the loop over the fills. *)
Definition guest_fill {E} (domain : EIP712DomainSaltless) (index : nat) (fill : AssessorFill)
    (g : GuestState) : result E GuestState :=
  let r := fill_request fill in
  _ ← expect (request_id_try_from (reqId r));
  _ ← expect (validate r);
  request_digest ← (if is_smart_contract_signed r then Ok (eip712_signing_hash domain r)
                    else expect (fill_verify_signature fill domain));
  claim_digest ← expect (evaluate_requirements fill);
  fulfillment_data_digest ← expect (fulfillment_data_digest (fill_data fill));
  let commit := eip712_hash_struct
    (mkCommitment (Z.of_nat index) (reqId r) request_digest claim_digest
       fulfillment_data_digest) in
  let leaves := g_leaves g ++ [commit] in
  let cb := callback (requirements r) in
  callbacks ← (if negb (cbAddr cb =? 0) then
                 _ ← match fill_data fill with
                     | FdImageIdAndJournal _ _ => Ok tt
                     | FdNone => Panic
                     end;
                 i ← u16_try_into index;
                 mret (g_callbacks g ++ [mkAssessorCallback i (cbAddr cb) (gasLimit cb)])
               else Ok (g_callbacks g));
  selectors ← (if negb (selector (requirements r) =? UNSPECIFIED_SELECTOR) then
                 i ← u16_try_into index;
                 mret (g_selectors g ++ [mkAssessorSelector i (selector (requirements r))])
               else Ok (g_selectors g));
  mret (mkGuest leaves callbacks selectors).

Fixpoint guest_fills {E} (domain : EIP712DomainSaltless) (index : nat)
    (fills : list AssessorFill) (g : GuestState) : result E GuestState :=
  match fills with
  | [] => Ok g
  | fill :: fills => g ← guest_fill domain index fill g; guest_fills domain (S index) fills g
  end.

Definition guest_journal {E} (inp : AssessorInput) : result E AssessorJournal :=
  if (Z.of_nat (length (ai_fills inp)) <? umax 16) then
    g ← guest_fills (ai_domain inp) 0 (ai_fills inp) (mkGuest [] [] []);
    root ← process_tree (g_leaves g);
    mret (mkAssessorJournal (g_callbacks g) (g_selectors g) root (ai_prover_address inp))
  else Panic.

(** The bytes that the guest reads, and those it commits. *)
Definition guest_main {E} (frame : bytes) : result E bytes :=
  inp ← unwrap (postcard_decode frame);
  journal ← guest_journal inp;
  mret (journal_abi_encode journal).
End Assessor.

(** ** The root as the hash of a tree *)

Inductive hash_tree := Leaf (d : bytes) | Node (l r : hash_tree).

(** A level over another: neighbours are paired, an odd one moves up. *)
Fixpoint next_level (ts : list hash_tree) : list hash_tree :=
  match ts with
  | a :: b :: ts => Node a b :: next_level ts
  | ts => ts
  end.

Fixpoint levels_up (fuel : nat) (ts : list hash_tree) : list hash_tree :=
  match fuel with
  | O => ts
  | S fuel => if (length ts <=? 1)%nat then ts else levels_up fuel (next_level ts)
  end.

Fixpoint leaves_of (t : hash_tree) : list bytes :=
  match t with Leaf d => [d] | Node l r => leaves_of l ++ leaves_of r end.

Lemma tree_pairs_ind (P : list hash_tree -> Prop) :
  P [] -> (forall a, P [a]) -> (forall a b ts, P ts -> P (a :: b :: ts)) -> forall ts, P ts.
Proof.
  intros H0 H1 H2 ts. enough (P ts /\ forall a, P (a :: ts)) by tauto.
  induction ts as [|b ts [IH1 IH2]]; [done|]. split; [apply IH2|]. intros a. by apply H2.
Qed.

Lemma next_level_length ts : length (next_level ts) = ((length ts + 1) / 2)%nat.
Proof.
  induction ts as [|a|a b ts IH] using tree_pairs_ind; [done..|].
  cbn [next_level length]. rewrite IH.
  replace (S (S (length ts)) + 1)%nat with (length ts + 1 + 1 * 2)%nat by lia.
  rewrite Nat.div_add by lia. lia.
Qed.

Lemma next_level_lookup ts k :
  next_level ts !! k
  = match ts !! (2 * k)%nat, ts !! (2 * k + 1)%nat with
    | Some a, Some b => Some (Node a b)
    | Some a, None => Some a
    | None, _ => None
    end.
Proof.
  revert k. induction ts as [|a|a b ts IH] using tree_pairs_ind; intros k.
  - by rewrite !lookup_nil.
  - destruct k as [|k]; [done|]. simpl. rewrite lookup_nil.
    by replace (k + S (k + 0))%nat with (S (2 * k))%nat by lia.
  - destruct k as [|k]; [done|]. cbn [next_level]. rewrite lookup_cons, IH.
    replace (2 * S k)%nat with (S (S (2 * k))) by lia.
    by replace (S (S (2 * k)) + 1)%nat with (S (S (2 * k + 1))) by lia.
Qed.

Lemma next_level_leaves ts :
  concat (map leaves_of (next_level ts)) = concat (map leaves_of ts).
Proof.
  induction ts as [|a|a b ts IH] using tree_pairs_ind; [done..|].
  simpl. by rewrite IH, <- app_assoc.
Qed.

Lemma levels_up_spec fuel ts :
  (length ts <= fuel)%nat -> ts <> [] ->
  exists t, levels_up fuel ts = [t] /\ leaves_of t = concat (map leaves_of ts).
Proof.
  revert ts. induction fuel as [|fuel IH]; intros ts Hf Hne.
  { destruct ts; [done|simpl in Hf; lia]. }
  cbn [levels_up]. destruct (Nat.leb_spec (length ts) 1) as [Hle|Hgt].
  - destruct ts as [|t [|]]; simpl in Hle; [done| |lia]. exists t. split; [done|].
    simpl. by rewrite app_nil_r.
  - rewrite <- next_level_leaves. pose proof (next_level_length ts) as Hl. apply IH.
    + rewrite Hl. assert ((length ts + 1) / 2 < length ts)%nat; [|lia].
      apply Nat.Div0.div_lt_upper_bound. lia.
    + intros E. rewrite E in Hl. cbn [length] in Hl.
      assert (1 <= (length ts + 1) / 2)%nat; [|lia]. apply Nat.div_le_lower_bound; lia.
Qed.

Section Tree.
Context `{Externals}.

Fixpoint tree_hash (t : hash_tree) : bytes :=
  match t with
  | Leaf d => d
  | Node l r => commutative_keccak256 (tree_hash l) (tree_hash r)
  end.

(** The pairs are read before they are overwritten. *)
Lemma hash_pairs_spec {E} todo i (orig leaves : list bytes) :
  (forall k, (i <= k)%nat -> leaves !! k = orig !! k) -> length leaves = length orig ->
  (2 * (i + todo) <= length orig)%nat ->
  exists leaves', @hash_pairs _ E todo i leaves = Ok leaves'
  /\ length leaves' = length orig
  /\ (forall k, (k < i)%nat -> leaves' !! k = leaves !! k)
  /\ (forall k, (i <= k < i + todo)%nat ->
        exists a b, orig !! (2 * k)%nat = Some a /\ orig !! (2 * k + 1)%nat = Some b
               /\ leaves' !! k = Some (commutative_keccak256 a b))
  /\ (forall k, (i + todo <= k)%nat -> leaves' !! k = orig !! k).
Proof.
  revert i leaves. induction todo as [|todo IH]; intros i leaves Hsame Hlen Hb.
  { exists leaves. split_and!; [done..| |]; intros k Hk; [lia|]. apply Hsame. lia. }
  cbn [hash_pairs].
  destruct (lookup_lt_is_Some_2 orig (2 * i)%nat ltac:(lia)) as [a Ha].
  destruct (lookup_lt_is_Some_2 orig (2 * i + 1)%nat ltac:(lia)) as [b Hb'].
  rewrite (Hsame (2 * i)%nat), (Hsame (2 * i + 1)%nat), Ha, Hb' by lia. simpl.
  destruct (IH (S i) (<[i := commutative_keccak256 a b]> leaves)) as (l' & E1 & E2 & E3 & E4 & E5).
  - intros k Hk. rewrite list_lookup_insert_ne by lia. apply Hsame. lia.
  - by rewrite length_insert.
  - lia.
  - exists l'. split_and!; [done|done|..].
    + intros k Hk. rewrite E3 by lia. by rewrite list_lookup_insert_ne by lia.
    + intros k Hk. destruct (decide (k = i)) as [->|Hne].
      * exists a, b. split_and!; [done|done|]. rewrite E3 by lia.
        apply list_lookup_insert_eq. lia.
      * apply E4. lia.
    + intros k Hk. apply E5. lia.
Qed.

(** The first [n] entries are the hashes of the trees. *)
Definition holds_level (ts : list hash_tree) (leaves : list bytes) : Prop :=
  (length ts <= length leaves)%nat
  /\ forall k t, ts !! k = Some t -> leaves !! k = Some (tree_hash t).

Lemma half_double (n : nat) : (2 * (n / 2) <= n /\ n < 2 * (n / 2) + 2)%nat.
Proof. pose proof (Nat.div_mod_eq n 2). pose proof (Nat.mod_upper_bound n 2). lia. Qed.

Lemma level_step {E} ts leaves :
  holds_level ts leaves -> (1 < length ts)%nat ->
  exists leaves',
  (leaves1 ← @hash_pairs _ E (length ts / 2) 0 leaves;
   if (length ts mod 2 =? 1)%nat
   then last ← unwrap (leaves1 !! (length ts - 1)%nat);
        mret (<[((length ts + 1) / 2 - 1)%nat := last]> leaves1)
   else mret leaves1) = Ok leaves'
  /\ holds_level (next_level ts) leaves'.
Proof.
  intros [Hlen Hl] Hn. set (n := length ts) in *.
  pose proof (half_double n) as Hh.
  destruct (@hash_pairs_spec E (n / 2) 0 leaves leaves) as (l1 & E1 & E2 & _ & E4 & E5);
    [done|done|lia|].
  rewrite E1. cbn [mbind result_bind].
  assert (Hpair : forall k t, (k < n / 2)%nat -> next_level ts !! k = Some t ->
            l1 !! k = Some (tree_hash t)).
  { intros k t Hk. rewrite next_level_lookup.
    destruct (E4 k ltac:(lia)) as (a & b & Ha & Hb & ->).
    destruct (ts !! (2 * k)%nat) as [ta|] eqn:Ta; [|done].
    destruct (ts !! (2 * k + 1)%nat) as [tb|] eqn:Tb;
      [|apply lookup_ge_None_1 in Tb; lia].
    intros [= <-]. rewrite (Hl _ _ Ta) in Ha. rewrite (Hl _ _ Tb) in Hb. simpl. congruence. }
  pose proof (next_level_length ts) as Hnl. fold n in Hnl.
  assert (Hup : ((n + 1) / 2 <= n)%nat) by (apply Nat.Div0.div_le_upper_bound; lia).
  destruct (Nat.eqb_spec (n mod 2) 1) as [Hodd|Heven].
  - assert (Hn2 : (n = 2 * (n / 2) + 1)%nat) by (pose proof (Nat.div_mod_eq n 2); lia).
    assert (Hup2 : ((n + 1) / 2 = n / 2 + 1)%nat).
    { replace (n + 1)%nat with ((n / 2 + 1) * 2)%nat by lia. by rewrite Nat.div_mul. }
    destruct (lookup_lt_is_Some_2 ts (n - 1)%nat ltac:(lia)) as [tl Htl].
    rewrite E5, (Hl _ _ Htl) by lia. cbn [unwrap mbind result_bind]. eexists. split; [reflexivity|].
    split; [rewrite length_insert; lia|]. intros k t Hk.
    destruct (decide (k = n / 2)%nat) as [->|Hne].
    + replace ((n + 1) / 2 - 1)%nat with (n / 2)%nat by lia.
      rewrite list_lookup_insert_eq by lia. rewrite next_level_lookup in Hk.
      replace (2 * (n / 2))%nat with (n - 1)%nat in Hk by lia. rewrite Htl in Hk.
      rewrite (proj2 (lookup_ge_None ts (n - 1 + 1)%nat)) in Hk by lia. congruence.
    + pose proof (lookup_lt_Some _ _ _ Hk). rewrite list_lookup_insert_ne by lia.
      apply Hpair; [lia|done].
  - eexists. split; [done|]. split; [lia|]. intros k t Hk.
    pose proof (lookup_lt_Some _ _ _ Hk). apply Hpair; [|done].
    assert (n mod 2 = 0)%nat by (pose proof (Nat.mod_upper_bound n 2); lia).
    assert ((n + 1) / 2 = n / 2)%nat; [|lia].
    rewrite (Nat.div_mod_eq n 2) at 1. symmetry.
    apply (Nat.div_unique _ 2 _ 1); lia.
Qed.

Lemma tree_levels_spec {E} fuel ts leaves :
  holds_level ts leaves -> (length ts <= fuel)%nat -> ts <> [] ->
  exists leaves', @tree_levels _ E fuel (length ts) leaves = Ok leaves'
  /\ holds_level (levels_up fuel ts) leaves'.
Proof.
  revert ts leaves. induction fuel as [|fuel IH]; intros ts leaves Hl Hf Hne.
  { destruct ts; [done|simpl in Hf; lia]. }
  cbn [tree_levels levels_up].
  destruct (Nat.leb_spec (length ts) 1) as [Hle|Hgt]; [by exists leaves|].
  destruct (@level_step E ts leaves Hl Hgt) as (l' & E1 & Hl').
  pose proof (next_level_length ts) as Hnl.
  destruct (IH (next_level ts) l' Hl') as (l2 & E2 & Hl2).
  - rewrite Hnl. assert ((length ts + 1) / 2 < length ts)%nat; [|lia].
    apply Nat.Div0.div_lt_upper_bound. lia.
  - intros E0. rewrite E0 in Hnl. cbn [length] in Hnl.
    assert (1 <= (length ts + 1) / 2)%nat; [|lia]. apply Nat.div_le_lower_bound; lia.
  - exists l2. split; [|done]. rewrite <- E2, Hnl. revert E1. cbv zeta.
    destruct (hash_pairs _ 0 leaves) as [l1| |]; cbn [mbind result_bind]; [|done..].
    intros ->. done.
Qed.

(** The root of the leaves is the hash of a tree over them. *)
Lemma process_tree_spec {E} (values : list bytes) :
  values <> [] ->
  exists t, @process_tree _ E values = Ok (tree_hash t) /\ leaves_of t = values
    /\ levels_up (length values) (map Leaf values) = [t].
Proof.
  intros Hne. unfold process_tree.
  assert (Hv : forall vs, concat (map leaves_of (map Leaf vs)) = vs).
  { intros vs. induction vs as [|v vs IH]; [done|]. simpl. by rewrite IH. }
  destruct (Nat.eqb_spec (length values) 0) as [E0|_]; [by destruct values|].
  destruct (Nat.eqb_spec (length values) 1) as [E1|_].
  { destruct values as [|v [|]]; [done| |done]. by exists (Leaf v). }
  assert (Hlv : holds_level (map Leaf values) values).
  { split; [by rewrite length_map|]. intros k t Hk.
    apply list_lookup_fmap_Some in Hk as (v & -> & Hv'). done. }
  destruct (@tree_levels_spec E (length values) (map Leaf values) values Hlv) as (l & E2 & Hl).
  { by rewrite length_map. }
  { by destruct values. }
  destruct (levels_up_spec (length values) (map Leaf values)) as (t & Et & Hlt).
  { by rewrite length_map. }
  { by destruct values. }
  rewrite length_map in E2. cbv zeta. rewrite E2. cbn [mbind result_bind].
  rewrite Et in Hl. destruct Hl as [_ Hl]. rewrite (Hl 0%nat t eq_refl). simpl.
  exists t. split_and!; [done|by rewrite Hlt, Hv|done].
Qed.
End Tree.

(** ** The root binds the leaves *)

(** Documented behaviour of the hashes and encodings: their lengths, and that a
    commitment can be read back from its encoding. *)
Class DigestLaws `{Externals} `{AssessorCodec} := {
  keccak_length : forall m, length (keccak256 m) = 32%nat;
  signing_hash_length : forall d r, length (eip712_signing_hash d r) = 32%nat;
  claim_digest_length : forall i j, length (receipt_claim_digest i j) = 32%nat;
  commitment_length : forall c, length (commitment_encode c) = 192%nat;
  commitment_encode_inj : forall c c',
    fits 256 (ac_index c) -> fits 256 (ac_id c) -> digest_wf (ac_request_digest c) ->
    digest_wf (ac_claim_digest c) -> digest_wf (ac_fulfillment_data_digest c) ->
    fits 256 (ac_index c') -> fits 256 (ac_id c') -> digest_wf (ac_request_digest c') ->
    digest_wf (ac_claim_digest c') -> digest_wf (ac_fulfillment_data_digest c') ->
    commitment_encode c = commitment_encode c' -> c = c'
}.

(** Two different messages among [msgs] with the same hash. *)
Definition collision_in `{Externals} (msgs : list bytes) : Prop :=
  exists x y, x ∈ msgs /\ y ∈ msgs /\ x <> y /\ keccak256 x = keccak256 y.

(** The message that is hashed for a pair, and those for the inner nodes of a tree. *)
Definition ordered_pair (a b : bytes) : bytes := if bytes_ltb a b then a ++ b else b ++ a.

Fixpoint tree_messages `{Externals} (t : hash_tree) : list bytes :=
  match t with
  | Leaf _ => []
  | Node l r => ordered_pair (tree_hash l) (tree_hash r) :: tree_messages l ++ tree_messages r
  end.

Section Binding.
Context `{DigestLaws}.
Variable msgs : list bytes.

Lemma keccak_inj x y :
  x ∈ msgs -> y ∈ msgs -> keccak256 x = keccak256 y -> x = y \/ collision_in msgs.
Proof. intros Hx Hy E. destruct (decide (x = y)); [by left|right; by exists x, y]. Qed.

(** The leaves are hashes of messages that are not two digests long. *)
Definition hashed (d : bytes) : Prop :=
  exists m, m ∈ msgs /\ d = keccak256 m /\ length m <> 64%nat.

Lemma tree_hash_length t : Forall hashed (leaves_of t) -> length (tree_hash t) = 32%nat.
Proof.
  destruct t as [d|l r]; simpl; [|intros _; apply keccak_length].
  intros [(m & _ & -> & _) _]%Forall_cons. apply keccak_length.
Qed.

Lemma leaf_not_node d l r :
  hashed d -> Forall hashed (leaves_of l) -> Forall hashed (leaves_of r) ->
  tree_messages (Node l r) ⊆ msgs -> d = tree_hash (Node l r) -> collision_in msgs.
Proof.
  intros (m & Hin & -> & Hm) Hl%tree_hash_length Hr%tree_hash_length Hs E. simpl in E.
  unfold commutative_keccak256 in E. apply keccak_inj in E as [E|]; [|done|done|apply Hs; by left].
  exfalso. apply Hm. rewrite E. case_match; rewrite length_app; lia.
Qed.

Lemma commutative_inj a b c d :
  length a = 32%nat -> length b = 32%nat -> length c = 32%nat -> length d = 32%nat ->
  ordered_pair a b ∈ msgs -> ordered_pair c d ∈ msgs ->
  commutative_keccak256 a b = commutative_keccak256 c d ->
  (a = c /\ b = d) \/ (a = d /\ b = c) \/ collision_in msgs.
Proof.
  intros La Lb Lc Ld Hab Hcd E. apply keccak_inj in E as [E|]; [|tauto|done|done].
  repeat case_match; apply app_inj_1 in E as [-> ->]; try congruence; tauto.
Qed.

(** Trees with the same hash have the same leaves, in some order. *)
Lemma tree_hash_binds t t' :
  Forall hashed (leaves_of t) -> Forall hashed (leaves_of t') ->
  tree_messages t ⊆ msgs -> tree_messages t' ⊆ msgs -> tree_hash t = tree_hash t' ->
  leaves_of t ≡ₚ leaves_of t' \/ collision_in msgs.
Proof.
  revert t'. induction t as [d|l IHl r IHr]; intros t' Ht Ht' Hs Hs' E.
  - destruct t' as [d'|l' r']; [left; simpl in *; by subst|right].
    apply Forall_app in Ht' as [Hl Hr]. apply Forall_cons in Ht as [Hd _].
    by apply (leaf_not_node d l' r').
  - apply Forall_app in Ht as [Hl Hr]. destruct t' as [d'|l' r'].
    + right. apply Forall_cons in Ht' as [Hd _]. by apply (leaf_not_node d' l r).
    + apply Forall_app in Ht' as [Hl' Hr']. simpl in *.
      assert (tree_messages l ⊆ msgs /\ tree_messages r ⊆ msgs) as [Sl Sr] by set_solver.
      assert (tree_messages l' ⊆ msgs /\ tree_messages r' ⊆ msgs) as [Sl' Sr'] by set_solver.
      destruct (commutative_inj _ _ _ _ (tree_hash_length _ Hl) (tree_hash_length _ Hr)
        (tree_hash_length _ Hl') (tree_hash_length _ Hr') (Hs _ ltac:(by left))
        (Hs' _ ltac:(by left)) E) as [[El Er]|[[El Er]|]]; [| |by right].
      * destruct (IHl l' Hl Hl' Sl Sl' El) as [Pl|]; [|by right].
        destruct (IHr r' Hr Hr' Sr Sr' Er) as [Pr|]; [|by right]. left. by rewrite Pl, Pr.
      * destruct (IHl r' Hl Hr' Sl Sr' El) as [Pl|]; [|by right].
        destruct (IHr l' Hr Hl' Sr Sl' Er) as [Pr|]; [|by right]. left. rewrite Pl, Pr.
        apply Permutation_app_comm.
Qed.
End Binding.

(** ** What the guest checks *)

(** The fill [fill], at position [index], has passed every check and is committed to
    as [c]. *)
Record fill_checked `{Externals} (domain : EIP712DomainSaltless) (index : nat)
    (fill : AssessorFill) (c : AssessorCommitment) : Prop := {
  fc_id : is_Some (match request_id_try_from (reqId (fill_request fill)) with
                   | Ok i => Some i | _ => None end);
  fc_valid : validate (fill_request fill) = Ok tt;
  fc_index : ac_index c = Z.of_nat index;
  fc_request : ac_id c = reqId (fill_request fill);
  fc_digest : ac_request_digest c = eip712_signing_hash domain (fill_request fill);
  fc_signed : is_smart_contract_signed (fill_request fill) = true
    \/ exists s, sig_parse (fill_signature fill) = Some s /\ sig_noncanonical s = false
         /\ sig_recover s (ac_request_digest c) = Some (client_address (fill_request fill));
  fc_claim : exists p, predicate_try_from (predicate (requirements (fill_request fill))) = Ok p
         /\ satisfies p (fill_data fill) (ac_claim_digest c);
  fc_data : fulfillment_data_digest (fill_data fill) = Ok (ac_fulfillment_data_digest c);
  fc_callback : cbAddr (callback (requirements (fill_request fill))) <> 0 ->
    fill_data fill <> FdNone
}.

(** The callback and the selector that a fill asks for. *)
Definition callback_of (index : nat) (fill : AssessorFill) : list AssessorCallback :=
  let cb := callback (requirements (fill_request fill)) in
  if cbAddr cb =? 0 then []
  else [mkAssessorCallback (Z.of_nat index) (cbAddr cb) (gasLimit cb)].

Definition selector_of (index : nat) (fill : AssessorFill) : list AssessorSelector :=
  let s := selector (requirements (fill_request fill)) in
  if s =? UNSPECIFIED_SELECTOR then [] else [mkAssessorSelector (Z.of_nat index) s].

Lemma expect_Ok {E F A} (m : result F A) (a : A) :
  @expect E F A m = Ok a <-> m = Ok a.
Proof. destruct m; simpl; split; congruence. Qed.

Lemma bind_Ok_iff {E A B} (m : result E A) (f : A -> result E B) b :
  (x ← m; f x) = Ok b <-> exists a, m = Ok a /\ f a = Ok b.
Proof. destruct m; simpl; naive_solver. Qed.

Lemma fill_verify_spec `{Externals} fill domain h :
  fill_verify_signature fill domain = Ok h
  <-> h = eip712_signing_hash domain (fill_request fill)
      /\ exists s, sig_parse (fill_signature fill) = Some s /\ sig_noncanonical s = false
           /\ sig_recover s h = Some (client_address (fill_request fill)).
Proof.
  unfold fill_verify_signature. destruct (sig_parse _) as [s|]; simpl; [|naive_solver].
  destruct (sig_noncanonical s) eqn:En; [naive_solver congruence|].
  destruct (sig_recover s _) as [a|] eqn:Er; simpl; [|naive_solver congruence].
  destruct (Z.eqb_spec a (client_address (fill_request fill))) as [->|Hne]; simpl.
  - naive_solver congruence.
  - split; [done|]. intros (-> & s' & [= <-] & _ & E). congruence.
Qed.

Lemma evaluate_spec `{Externals} fill d :
  evaluate_requirements fill = Ok d
  <-> exists p, predicate_try_from (predicate (requirements (fill_request fill))) = Ok p
       /\ satisfies p (fill_data fill) d.
Proof.
  unfold evaluate_requirements. destruct (predicate_try_from _) as [p|e|]; simpl;
    [|naive_solver..].
  rewrite ok_or_Ok, predicate_eval_spec. naive_solver.
Qed.

Section Guest.
Context `{Externals} `{AssessorCodec}.

Lemma callback_spec {E} index fill (l l' : list AssessorCallback) :
  Z.of_nat index < 2 ^ 16 ->
  (if negb (cbAddr (callback (requirements (fill_request fill))) =? 0) then
     _ ← match fill_data fill with FdImageIdAndJournal _ _ => Ok tt | FdNone => Panic end;
     i ← u16_try_into index;
     mret (l ++ [mkAssessorCallback i (cbAddr (callback (requirements (fill_request fill))))
                   (gasLimit (callback (requirements (fill_request fill))))])
   else Ok l) = @Ok E _ l'
  <-> l' = l ++ callback_of index fill
      /\ (cbAddr (callback (requirements (fill_request fill))) <> 0 -> fill_data fill <> FdNone).
Proof.
  intros Hi. unfold callback_of, u16_try_into.
  destruct (Z.eqb_spec (cbAddr (callback (requirements (fill_request fill)))) 0); simpl.
  - rewrite app_nil_r. split; [by intros [= <-]|by intros [-> _]].
  - destruct (Z.ltb_spec (Z.of_nat index) (2 ^ 16)); [|lia].
    destruct (fill_data fill); simpl; split.
    + done.
    + by intros [_ Hn]; destruct Hn.
    + by intros [= <-].
    + by intros [-> _].
Qed.

Lemma selector_spec {E} index fill (l l' : list AssessorSelector) :
  Z.of_nat index < 2 ^ 16 ->
  (if negb (selector (requirements (fill_request fill)) =? UNSPECIFIED_SELECTOR) then
     i ← u16_try_into index;
     mret (l ++ [mkAssessorSelector i (selector (requirements (fill_request fill)))])
   else Ok l) = @Ok E _ l'
  <-> l' = l ++ selector_of index fill.
Proof.
  intros Hi. unfold selector_of, u16_try_into.
  destruct (Z.eqb_spec (selector (requirements (fill_request fill))) UNSPECIFIED_SELECTOR); simpl.
  - rewrite app_nil_r. split; [by intros [= <-]|by intros ->].
  - destruct (Z.ltb_spec (Z.of_nat index) (2 ^ 16)); [|lia]. simpl.
    split; [by intros [= <-]|by intros ->].
Qed.

Lemma guest_fill_spec {E} domain index fill g g' :
  Z.of_nat index < 2 ^ 16 ->
  @guest_fill _ _ E domain index fill g = Ok g'
  <-> exists c, fill_checked domain index fill c
      /\ g' = mkGuest (g_leaves g ++ [eip712_hash_struct c])
                (g_callbacks g ++ callback_of index fill)
                (g_selectors g ++ selector_of index fill).
Proof.
  intros Hi. unfold guest_fill. cbv zeta.
  setoid_rewrite bind_Ok_iff. setoid_rewrite bind_Ok_iff. setoid_rewrite bind_Ok_iff.
  setoid_rewrite bind_Ok_iff. setoid_rewrite bind_Ok_iff. setoid_rewrite bind_Ok_iff.
  setoid_rewrite bind_Ok_iff.
  setoid_rewrite expect_Ok. split.
  - intros (i & Hid & u & Hv & h & Hh & d & Hd & fd & Hfd & cbs & Hcb & sels & Hsel & [= <-]).
    apply callback_spec in Hcb as [-> Hcb]; [|done]. apply selector_spec in Hsel as ->; [|done].
    exists (mkCommitment (Z.of_nat index) (reqId (fill_request fill)) h d fd). split; [|done].
    apply evaluate_spec in Hd.
    assert (Hs : h = eip712_signing_hash domain (fill_request fill)
                 /\ (is_smart_contract_signed (fill_request fill) = true
                     \/ exists s, sig_parse (fill_signature fill) = Some s
                          /\ sig_noncanonical s = false
                          /\ sig_recover s h = Some (client_address (fill_request fill)))).
    { destruct (is_smart_contract_signed (fill_request fill)) eqn:Es.
      - injection Hh as <-. by split; [|left].
      - apply expect_Ok, fill_verify_spec in Hh as [-> Hh]. by split; [|right]. }
    destruct Hs as [-> Hs]. destruct u.
    split; first [reflexivity|assumption|idtac]. rewrite Hid. by exists i.
  - intros (c & [F1 F2 F3 F4 F5 F6 F7 F8 F9] & ->).
    destruct (request_id_try_from _) as [i| |] eqn:Ei; [|by destruct F1..].
    exists i. split; [done|]. exists tt. split; [done|].
    exists (ac_request_digest c). split.
    { rewrite F5. destruct (is_smart_contract_signed (fill_request fill)) eqn:Es; [done|].
      apply expect_Ok, fill_verify_spec. split; [done|]. rewrite F5 in F6.
      by destruct F6. }
    exists (ac_claim_digest c). split; [by apply evaluate_spec|].
    exists (ac_fulfillment_data_digest c). split; [done|].
    exists (g_callbacks g ++ callback_of index fill). split; [by apply callback_spec|].
    exists (g_selectors g ++ selector_of index fill). split; [by apply selector_spec|].
    destruct c. simpl in *. by subst.
Qed.
End Guest.

(** Each fill has passed every check, in its place. *)
Definition certified `{Externals} (domain : EIP712DomainSaltless) (fills : list AssessorFill)
    (cs : list AssessorCommitment) : Prop :=
  length cs = length fills
  /\ forall i fill c, fills !! i = Some fill -> cs !! i = Some c -> fill_checked domain i fill c.

Section Guest.
Context `{Externals} `{AssessorCodec}.

Lemma guest_fills_spec {E} domain index fills g g' :
  Z.of_nat (index + length fills) <= 2 ^ 16 ->
  @guest_fills _ _ E domain index fills g = Ok g'
  <-> exists cs, length cs = length fills
      /\ (forall i fill c, fills !! i = Some fill -> cs !! i = Some c ->
            fill_checked domain (index + i) fill c)
      /\ g' = mkGuest (g_leaves g ++ map eip712_hash_struct cs)
                (g_callbacks g ++ concat (imap (fun i => callback_of (index + i)) fills))
                (g_selectors g ++ concat (imap (fun i => selector_of (index + i)) fills)).
Proof.
  revert index g. induction fills as [|fill fills IH]; intros index g Hi; cbn [guest_fills].
  - split.
    + intros [= <-]. exists []. split; [done|]. split; [by intros i ? ?; rewrite lookup_nil|].
      simpl. rewrite !app_nil_r. by destruct g.
    + intros (cs & Hcs & _ & ->). destruct cs; [|done]. simpl. rewrite !app_nil_r. by destruct g.
  - cbn [length] in Hi.
    assert (Hshift : forall A (f : nat -> AssessorFill -> list A),
      concat (imap (fun i => f (index + i)%nat) (fill :: fills))
      = f index fill ++ concat (imap (fun i => f (S index + i)%nat) fills)).
    { intros A f. cbn [imap concat]. rewrite Nat.add_0_r. do 2 f_equal. apply imap_ext.
      intros i x _. simpl. f_equal. lia. }
    rewrite bind_Ok_iff. setoid_rewrite guest_fill_spec; [|lia]. rewrite !Hshift. split.
    + intros (g1 & (c & Hc & ->) & Hg). apply IH in Hg as (cs & Hl & Hcs & ->); [|lia].
      exists (c :: cs). split; [simpl; lia|]. split.
      * intros [|i] fill' c' Hf Hc'; simplify_eq/=; [by rewrite Nat.add_0_r|].
        rewrite <- Nat.add_succ_comm. by apply Hcs.
      * simpl. by rewrite <- !app_assoc.
    + intros (cs & Hl & Hcs & ->). destruct cs as [|c cs]; [done|]. eexists. split.
      * exists c. split; [|reflexivity]. pose proof (Hcs 0%nat fill c eq_refl eq_refl) as Hc.
        by rewrite Nat.add_0_r in Hc.
      * apply IH; [lia|]. exists cs. split; [simpl in Hl; lia|]. split.
        -- intros i fill' c' Hf Hc'. rewrite Nat.add_succ_comm.
           by apply (Hcs (S i) fill' c').
        -- simpl. by rewrite <- !app_assoc.
Qed.

Lemma guest_journal_spec {E} inp j :
  @guest_journal _ _ E inp = Ok j
  <-> exists cs root, 0 < Z.of_nat (length (ai_fills inp)) < 65535
      /\ certified (ai_domain inp) (ai_fills inp) cs
      /\ @process_tree _ E (map eip712_hash_struct cs) = Ok root
      /\ j = mkAssessorJournal (concat (imap callback_of (ai_fills inp)))
               (concat (imap selector_of (ai_fills inp))) root (ai_prover_address inp).
Proof.
  unfold guest_journal. change (umax 16) with 65535.
  destruct (Z.ltb_spec (Z.of_nat (length (ai_fills inp))) 65535); [|split; [done|]; naive_solver lia].
  rewrite bind_Ok_iff. setoid_rewrite guest_fills_spec; [|simpl; lia].
  setoid_rewrite bind_Ok_iff. split.
  - intros (g & (cs & Hl & Hcs & ->) & root & Hr & [= <-]). exists cs, root. split; [|done].
    split; [|done]. destruct (ai_fills inp) as [|]; [|simpl; lia].
    destruct cs; [|done]. unfold process_tree in Hr. simpl in Hr. done.
  - intros (cs & root & _ & [Hl Hcs] & Hr & ->). eexists. split; [by exists cs|].
    by exists root.
Qed.

(** C11. what a proof of the assessor means.  The guest commits a journal exactly when its
    input decodes, it has between one and 65534 fills, and every fill passes: its
    identifier and its request are valid, the client signed the request, in canonical
    form, unless the client is a contract, the data satisfies the predicate for the claim
    that is committed to, and a fill that asks for a callback comes with data.  The
    journal then lists exactly the callbacks and selectors that are asked for, under the
    positions of their fills, and the root of the tree of the commitments. *)
Theorem assessor_accepts_iff {E} (frame out : bytes) :
  @guest_main _ _ E frame = Ok out
  <-> exists inp cs root,
      postcard_decode frame = Some inp
      /\ 0 < Z.of_nat (length (ai_fills inp)) < 65535
      /\ certified (ai_domain inp) (ai_fills inp) cs
      /\ @process_tree _ E (map eip712_hash_struct cs) = Ok root
      /\ out = journal_abi_encode
                 (mkAssessorJournal (concat (imap callback_of (ai_fills inp)))
                    (concat (imap selector_of (ai_fills inp))) root (ai_prover_address inp)).
Proof.
  unfold guest_main. destruct (postcard_decode frame) as [inp|]; simpl; [|naive_solver].
  rewrite bind_Ok_iff. setoid_rewrite guest_journal_spec. split.
  - intros (j & (cs & root & H1 & H2 & H3 & ->) & [= <-]). by exists inp, cs, root.
  - intros (inp' & cs & root & [= <-] & H1 & H2 & H3 & ->). eexists. split; [|done].
    by exists cs, root.
Qed.
End Guest.

(** ** The root binds the fills *)

(** What the guest hashes for the root over commitments: their encodings, and the pairs
    of the tree over the hashes of these. *)
Definition root_messages `{Externals} `{AssessorCodec} (cs : list AssessorCommitment) : list bytes :=
  map commitment_encode cs
  ++ concat (map tree_messages (levels_up (length cs) (map Leaf (map eip712_hash_struct cs)))).

Section Binds.
Context `{DigestLaws}.
Variable msgs : list bytes.

Lemma claim_wf fill c domain i :
  fill_checked domain i fill c -> digest_wf (ac_claim_digest c).
Proof.
  intros Hc. destruct (fc_claim _ _ _ _ Hc) as (p & Hp & Hs).
  destruct p as [im j|im pre|d]; simpl in Hs.
  - destruct Hs as (fi & fj & _ & -> & _). apply claim_digest_length.
  - destruct Hs as (fj & _ & _ & ->). apply claim_digest_length.
  - destruct Hs as [-> _]. by apply predicate_encode_decode in Hp as [Hwf _].
Qed.

Lemma request_id_fits v i : request_id_try_from v = Ok i -> fits 256 v.
Proof.
  unfold request_id_try_from. destruct (Z.eqb_spec (Z.shiftr v 193) 0) as [E|]; [|done].
  intros _. rewrite Z.shiftr_div_pow2 in E by lia.
  pose proof (Z.div_mod v (2 ^ 193) ltac:(lia)). pose proof (Z.mod_pos_bound v (2 ^ 193) ltac:(lia)).
  unfold fits. rewrite E in *. change (2 ^ 256) with (2 ^ 193 * 2 ^ 63). lia.
Qed.

Lemma commitment_wf d i f c :
  Z.of_nat i < 2 ^ 16 -> fill_checked d i f c ->
  fits 256 (ac_index c) /\ fits 256 (ac_id c) /\ digest_wf (ac_request_digest c)
  /\ digest_wf (ac_claim_digest c) /\ digest_wf (ac_fulfillment_data_digest c).
Proof.
  intros Hi Hc. pose proof (claim_wf _ _ _ _ Hc) as Hcl.
  destruct Hc as [F1 F2 F3 F4 F5 F6 F7 F8 F9]. split_and!.
  - rewrite F3. unfold fits. change (2 ^ 256) with (2 ^ 16 * 2 ^ 240). lia.
  - rewrite F4. destruct (request_id_try_from _) as [r| |] eqn:Er; [|by destruct F1..].
    by apply (request_id_fits _ r).
  - rewrite F5. apply signing_hash_length.
  - done.
  - unfold fulfillment_data_digest in F8. destruct (fill_data f); injection F8 as <-;
      apply keccak_length.
Qed.

(** Equal hashes of two commitments of checked fills. *)
Lemma commitment_binds d d' i i' f f' c c' :
  Z.of_nat i < 2 ^ 16 -> Z.of_nat i' < 2 ^ 16 ->
  fill_checked d i f c -> fill_checked d' i' f' c' ->
  commitment_encode c ∈ msgs -> commitment_encode c' ∈ msgs ->
  eip712_hash_struct c = eip712_hash_struct c' -> c = c' \/ collision_in msgs.
Proof.
  intros Hi Hi' Hc Hc' Hm Hm' E. apply (keccak_inj msgs) in E as [E|]; [left|by right|done|done].
  destruct (commitment_wf _ _ _ _ Hi Hc) as (? & ? & ? & ? & ?).
  destruct (commitment_wf _ _ _ _ Hi' Hc') as (? & ? & ? & ? & ?).
  by apply commitment_encode_inj.
Qed.

Lemma certified_nth domain fills cs c :
  certified domain fills cs -> c ∈ cs ->
  exists i fill, cs !! i = Some c /\ fills !! i = Some fill /\ fill_checked domain i fill c.
Proof.
  intros [Hl Hc] [i Hi]%list_elem_of_lookup_1.
  destruct (lookup_lt_is_Some_2 fills i) as [fill Hf]; [pose proof (lookup_lt_Some _ _ _ Hi); lia|].
  exists i, fill. split_and!; [done..|]. by apply Hc.
Qed.

Lemma all_or_collision (P : AssessorCommitment -> Prop) (cs : list AssessorCommitment) :
  (forall c, c ∈ cs -> P c \/ collision_in msgs) -> (forall c, c ∈ cs -> P c) \/ collision_in msgs.
Proof.
  induction cs as [|c cs IH]; intros Hc; [left; by intros c []%elem_of_nil|].
  destruct (Hc c ltac:(by left)) as [Hp|]; [|by right].
  destruct IH as [IH|]; [by intros c' Hin; apply Hc; right| |by right].
  left. intros c' [->|Hin]%elem_of_cons; [done|by apply IH].
Qed.

(** Commitments of checked fills with the same root, in the order of their indices. *)
Lemma commitments_bind d d' fills fills' cs cs' :
  Z.of_nat (length fills) < 65535 -> Z.of_nat (length fills') < 65535 ->
  certified d fills cs -> certified d' fills' cs' ->
  map commitment_encode cs ⊆ msgs -> map commitment_encode cs' ⊆ msgs ->
  map eip712_hash_struct cs ≡ₚ map eip712_hash_struct cs' -> cs = cs' \/ collision_in msgs.
Proof.
  intros Hn Hn' Hc Hc' Hm Hm' HP.
  destruct (all_or_collision (fun c => c ∈ cs') cs) as [Hin|]; [| |by right].
  - intros c Hcin. destruct (certified_nth _ _ _ _ Hc Hcin) as (i & f & Hi & Hf & Hck).
    assert (eip712_hash_struct c ∈ map eip712_hash_struct cs') as Hin'.
    { rewrite <- HP. by apply list_elem_of_fmap_2. }
    apply list_elem_of_fmap in Hin' as (c' & E & Hc'in).
    destruct (certified_nth _ _ _ _ Hc' Hc'in) as (i' & f' & Hi' & Hf' & Hck').
    pose proof (lookup_lt_Some _ _ _ Hf). pose proof (lookup_lt_Some _ _ _ Hf').
    destruct (commitment_binds d d' i i' f f' c c') as [-> |]; [lia|lia|done|done|
      apply Hm; by apply list_elem_of_fmap_2|apply Hm'; by apply list_elem_of_fmap_2|done| |by right].
    by left.
  - left. apply list_eq_same_length with (length cs'); [done|..].
    + apply Permutation_length in HP. by rewrite !length_map in HP.
    + intros i x y Hi Hx Hy.
      destruct (certified_nth _ _ _ _ Hc' (Hin x (list_elem_of_lookup_2 _ _ _ Hx)))
        as (k & fk & Hk & _ & Hck).
      destruct Hc as [Hl Hc]. destruct (lookup_lt_is_Some_2 fills i) as [f Hf];
        [pose proof (lookup_lt_Some _ _ _ Hx); lia|].
      pose proof (fc_index _ _ _ _ (Hc i f x Hf Hx)) as E1.
      pose proof (fc_index _ _ _ _ Hck) as E2.
      assert (k = i) as -> by lia. congruence.
Qed.
End Binds.

(** C8. the root of an assessor journal says which requests were fulfilled.  When the
    guest accepts two inputs and the roots of their journals are equal, the commitments
    that certify the one, in their order, are those that certify the other: as many
    fills, and in each place the same request, claim and data; or else two different
    messages with the same Keccak hash are among the finitely many that the guest hashed
    in these two runs, the encodings of the commitments and the pairs of the trees over
    them. *)
Theorem assessor_root_binds `{DigestLaws} {E} (inp inp' : AssessorInput)
    (j j' : AssessorJournal) :
  @guest_journal _ _ E inp = Ok j -> @guest_journal _ _ E inp' = Ok j' ->
  aj_root j = aj_root j' ->
  exists cs cs', certified (ai_domain inp) (ai_fills inp) cs
    /\ certified (ai_domain inp') (ai_fills inp') cs'
    /\ (cs = cs' \/ collision_in (root_messages cs ++ root_messages cs')).
Proof.
  rewrite !guest_journal_spec.
  intros (cs & root & Hn & Hc & Hr & ->) (cs' & root' & Hn' & Hc' & Hr' & ->) E0.
  cbn [aj_root] in E0. subst root'. exists cs, cs'. split_and!; [done|done|].
  assert (Hne : forall (fills : list AssessorFill) (ks : list AssessorCommitment) d,
    0 < Z.of_nat (length fills) -> certified d fills ks -> map eip712_hash_struct ks <> []).
  { intros fills ks d Hpos [Hl _] Enil. apply map_eq_nil in Enil as ->. simpl in Hl. lia. }
  destruct (@process_tree_spec _ E _ (Hne _ _ _ (proj1 Hn) Hc)) as (t & Et & Hlt & Hup).
  destruct (@process_tree_spec _ E _ (Hne _ _ _ (proj1 Hn') Hc')) as (t' & Et' & Hlt' & Hup').
  set (msgs := root_messages cs ++ root_messages cs').
  assert (Hmsgs : forall ks u, levels_up (length (map eip712_hash_struct ks))
      (map Leaf (map eip712_hash_struct ks)) = [u] ->
    root_messages ks = map commitment_encode ks ++ tree_messages u).
  { intros ks u Hu. unfold root_messages. rewrite length_map in Hu. rewrite Hu. simpl.
    by rewrite app_nil_r. }
  assert (map commitment_encode cs ⊆ msgs /\ tree_messages t ⊆ msgs
    /\ map commitment_encode cs' ⊆ msgs /\ tree_messages t' ⊆ msgs) as (S1 & S2 & S3 & S4).
  { subst msgs. rewrite (Hmsgs _ _ Hup), (Hmsgs _ _ Hup'). split_and!; set_solver. }
  assert (Hh : forall ks, map commitment_encode ks ⊆ msgs ->
    Forall (hashed msgs) (map eip712_hash_struct ks)).
  { intros ks Hs. apply Forall_forall. intros x (c & -> & Hin)%list_elem_of_fmap.
    exists (commitment_encode c). split_and!; [apply Hs; by apply list_elem_of_fmap_2|done|].
    by rewrite commitment_length. }
  destruct (tree_hash_binds msgs t t') as [HP|];
    [rewrite Hlt; by apply Hh|rewrite Hlt'; by apply Hh|done|done|congruence| |by right].
  rewrite Hlt, Hlt' in HP.
  by apply (commitments_bind msgs _ _ _ _ _ _ (proj2 Hn) (proj2 Hn') Hc Hc').
Qed.

(** ** An instance, and a fill that passes *)

Definition byte_of (z : Z) : byte := default x00 (Byte.of_N (Z.to_N (z mod 256))).

Lemma byte_of_inj z z' : byte_of z = byte_of z' -> z mod 256 = z' mod 256.
Proof.
  assert (Hb : forall v, Z.of_N (Byte.to_N (byte_of v)) = v mod 256).
  { intros v. unfold byte_of. pose proof (Z.mod_pos_bound v 256 ltac:(lia)).
    destruct (Byte.of_N (Z.to_N (v mod 256))) as [b|] eqn:E; simpl.
    - apply Byte.to_of_N in E. rewrite E. lia.
    - apply Byte.of_N_None_iff in E. lia. }
  intros E. by rewrite <- !Hb, E.
Qed.

Fixpoint word (n : nat) (z : Z) : bytes :=
  match n with O => [] | S n => byte_of z :: word n (z / 256) end.

Lemma word_length n z : length (word n z) = n.
Proof. revert z. induction n as [|n IH]; intros z; simpl; [done|]. by rewrite IH. Qed.

Lemma word_inj n z z' :
  0 <= z < 256 ^ Z.of_nat n -> 0 <= z' < 256 ^ Z.of_nat n -> word n z = word n z' -> z = z'.
Proof.
  revert z z'. induction n as [|n IH]; intros z z' Hz Hz' E.
  - change (256 ^ Z.of_nat 0) with 1 in *. lia.
  - injection E as E1%byte_of_inj E2. rewrite Nat2Z.inj_succ, Z.pow_succ_r in Hz, Hz' by lia.
    rewrite (Z.div_mod z 256), (Z.div_mod z' 256), E1 by lia. f_equal. f_equal.
    apply IH; [..|done]; (split; [apply Z.div_pos; lia|apply Z.div_lt_upper_bound; lia]).
Qed.

Definition pad32 (d : bytes) : bytes := take 32 (d ++ repeat x00 32).

Lemma pad32_length d : length (pad32 d) = 32%nat.
Proof. unfold pad32. rewrite length_take, length_app, repeat_length. lia. Qed.

Lemma pad32_wf d : digest_wf d -> pad32 d = d.
Proof. intros Hd. unfold pad32. by rewrite take_app_length'. Qed.

Definition sample_fill : AssessorFill :=
  mkFill sample_request (repeat x00 77) (FdImageIdAndJournal (repeat x01 32) [x02; x03]).

Definition sample_input : AssessorInput :=
  mkAssessorInput [sample_fill; sample_fill] (eip712_domain 9 1) 8.

Definition assessor_externals : Externals := {|
  url_parse := fun s => bool_decide (s <> ""%string);
  receipt_claim_digest := fun i j => pad32 (i ++ j);
  receipt_claim_digest_pruned := fun i d => pad32 (i ++ d);
  abi_encode_fd := fun x => x.1 ++ x.2;
  abi_decode_fd := fun _ => None;
  keccak256 := pad32;
  eip712_signing_hash := fun _ _ => repeat x05 32;
  sig_parse := fun s => Some (Z.of_nat (length s));
  sig_noncanonical := fun _ => false;
  sig_recover := fun s _ => Some s
|}.

Definition assessor_codec : AssessorCodec := {|
  postcard_decode := fun frame => match frame with [] => Some sample_input | _ => None end;
  commitment_encode := fun c =>
    repeat x07 32 ++ word 32 (ac_index c) ++ word 32 (ac_id c) ++ pad32 (ac_request_digest c)
    ++ pad32 (ac_claim_digest c) ++ pad32 (ac_fulfillment_data_digest c);
  journal_abi_encode := fun j => aj_root j
|}.

Lemma assessor_laws : @DigestLaws assessor_externals assessor_codec.
Proof.
  split.
  - apply pad32_length.
  - intros d r. apply repeat_length.
  - intros i j. apply pad32_length.
  - intros c. cbn [commitment_encode assessor_codec]. rewrite !length_app, !word_length, !pad32_length, repeat_length. done.
  - intros [i q rd cd fd] [i' q' rd' cd' fd'].
    cbn [commitment_encode assessor_codec ac_index ac_id ac_request_digest ac_claim_digest
         ac_fulfillment_data_digest]. intros H1 H2 H3 H4 H5 H1' H2' H3' H4' H5' E.
    apply app_inv_head in E. unfold fits in *.
    apply app_inj_1 in E as [E1 E]; [|by rewrite !word_length].
    apply app_inj_1 in E as [E2 E]; [|by rewrite !word_length].
    apply app_inj_1 in E as [E3 E]; [|by rewrite !pad32_length].
    apply app_inj_1 in E as [E4 E5]; [|by rewrite !pad32_length].
    rewrite !pad32_wf in E3, E4, E5 by done. apply word_inj in E1, E2; [by subst|..]; done.
Qed.

Definition sample_run : result unit AssessorJournal :=
  @guest_journal assessor_externals assessor_codec _ sample_input.

Lemma assessor_accepts_iff_sample :
  is_ok (@guest_main assessor_externals assessor_codec unit []) = true
  /\ is_ok (@guest_main assessor_externals assessor_codec unit [x00]) = false.
Proof. by vm_compute. Qed.

Lemma assessor_root_binds_witness :
  exists j, sample_run = Ok j
  /\ exists cs cs',
       @certified assessor_externals (ai_domain sample_input) (ai_fills sample_input) cs
       /\ @certified assessor_externals (ai_domain sample_input) (ai_fills sample_input) cs'
       /\ (cs = cs' \/ @collision_in assessor_externals
            (@root_messages assessor_externals assessor_codec cs
             ++ @root_messages assessor_externals assessor_codec cs')).
Proof.
  destruct sample_run as [j|e|] eqn:E.
  - exists j. split; [done|].
    exact (@assessor_root_binds assessor_externals assessor_codec assessor_laws unit
             sample_input sample_input j j E E eq_refl).
  - exfalso. assert (is_ok sample_run = true) as H by by vm_compute. by rewrite E in H.
  - exfalso. assert (is_ok sample_run = true) as H by by vm_compute. by rewrite E in H.
Defined.
