(* ===== verification/Risc0.v ===== *)
(** * Risc0: the backend that proves

    [Risc0Backend] of [crates/risc0-backend/src/lib.rs], its batch processor and its
    seals ([batch.rs]), and the verification of compressed receipts
    ([provers/mod.rs]): how an order is proved step by step, how proofs are
    aggregated into a batch, and how the fulfillments of a batch are built.  The
    provers themselves (Bonsai and the default prover) and the evaluation of
    requests are not modelled here.

    The class [Risc0Lib] stands for the zkVM, aggregation and serialization
    libraries: receipts, the state of the set builder, merkle paths, JSON and
    bincode.  The class [Risc0Env] holds the two provers, the downloads and the set
    verifier; a failed call answers with the text of its error.  Durations and cycle
    counts are for telemetry. *)

From S2P Require Import Prelude Market Selector Auction OrderPricing Db FulfillTx Pipeline Monitor MarketService Processor Batcher Submitter Router Assessor.
From Stdlib Require Import Strings.Byte.

Local Open Scope Z_scope.

(** ** Data *)

Record Risc0CostModel := mkCostModel {
  direct_fulfill_gas : Z;
  batched_fulfill_gas : Z;
  direct_additional_proof_cycles : Z;
  batched_additional_proof_cycles : Z
}.

Definition cost_model_default : Risc0CostModel :=
  mkCostModel 400000 420000 0 (2000000 + 270000).

Definition RISC0_ORDER_STATE_VERSION : Z := 1.
Definition RISC0_BATCH_STATE_VERSION : Z := 1.
Definition RISC0_V3_BACKEND_ID : string := "risc0_v3".

Record Risc0OrderState := mkOrderState {
  os_version : Z;
  os_proof_id : string;
  os_compressed_proof_id : option string
}.

#[export] Instance Risc0OrderState_eq_dec : EqDecision Risc0OrderState.
Proof. solve_decision. Defined.

Definition order_state_default : Risc0OrderState :=
  mkOrderState RISC0_ORDER_STATE_VERSION "" None.

Record Risc0BatchState (G : Type) := mkBatchState {
  bs_version : Z;
  guest_state : G;
  claim_digests : list bytes;
  bs_proof_id : option string;
  bs_compressed_proof_id : option string;
  assessor_proof_id : option string
}.
Arguments mkBatchState {G} _ _ _ _ _ _.
Arguments bs_version {G} _.
Arguments guest_state {G} _.
Arguments claim_digests {G} _.
Arguments bs_proof_id {G} _.
Arguments bs_compressed_proof_id {G} _.
Arguments assessor_proof_id {G} _.

Inductive CompressionType := CtNone | CtGroth16 | CtBlake3Groth16.

#[export] Instance CompressionType_eq_dec : EqDecision CompressionType.
Proof. solve_decision. Defined.

(** [MaybePruned]: a value, or its digest. *)
Inductive MaybePruned (A : Type) := Value (a : A) | Pruned (digest : bytes).
Arguments Value {A} a.
Arguments Pruned {A} digest.

(** The output of a claim, and its other fields as they are. *)
Record Output := mkOutput { out_journal : MaybePruned bytes; out_assumptions : bytes }.
Record ReceiptClaim := mkClaim { rc_output : MaybePruned (option Output); rc_rest : bytes }.

(** One of the two provers of the backend. *)
Inductive WhichProver := MainProver | SnarkProver.

(** The libraries: [G] is the state of the set builder, [I] its input, [R] a receipt
    and [B] a Blake3 one. *)
Class Risc0Lib (G I R B : Type) := {
  sha256 : bytes -> bytes;
  digest_to_string : bytes -> string;
  digest_from_hex : string -> option bytes;
  compute_image_id : bytes -> option bytes;
  guest_env_decode : bytes -> option bytes;
  url_text : bytes -> option string;
  (** the claim [ReceiptClaim::ok] of an image and the digest of a journal *)
  claim_ok : bytes -> bytes -> ReceiptClaim;
  claim_digest : ReceiptClaim -> bytes;
  receipt_claim : R -> option (MaybePruned ReceiptClaim);
  receipt_journal : R -> bytes;
  verify_integrity : R -> bool;
  receipt_verify : R -> bytes -> bool;
  receipt_deserialize : bytes -> option R;
  blake3_deserialize : bytes -> option B;
  blake3_verify_integrity : B -> bool;
  blake3_into : B -> R;
  encode_seal : R -> option bytes;
  gs_initial : bytes -> G;
  gs_into_input : G -> list ReceiptClaim -> bool -> option I;
  gs_decode : bytes -> option G;
  mmr_is_finalized : G -> bool;
  mmr_finalized_root : G -> option bytes;
  merkle_root : list bytes -> bytes;
  merkle_path : list bytes -> nat -> list bytes;
  (** the encoded seal of a set inclusion receipt: claim, path, parameters *)
  inclusion_seal : ReceiptClaim -> list bytes -> bytes -> option bytes;
  inclusion_params_digest : bytes -> bytes;
  encode_input : I -> option bytes;
  assessor_stdin : AssessorInput -> bytes;
  (** whether the journal of the assessor decodes; its contents are not used *)
  assessor_journal_decodes : bytes -> bool;
  order_state_from_json : bytes -> option Risc0OrderState;
  order_state_to_json : Risc0OrderState -> option bytes;
  batch_state_from_json : bytes -> option (Risc0BatchState G);
  batch_state_to_json : Risc0BatchState G -> option bytes;
  FulfillmentBatchAuth_hash : EIP712DomainSaltless -> Z -> list bytes -> list bytes -> bytes;
  bytes_to_u256 : bytes -> Z;
  selector_bytes : Z -> bytes
}.

Class Risc0Env (R X : Type) := {
  has_image : WhichProver -> string -> st X (string + bool);
  upload_image : WhichProver -> string -> bytes -> st X (string + unit);
  upload_input : WhichProver -> bytes -> st X (string + string);
  prove_stark : string -> string -> list string -> st X (string + string);
  prove_and_monitor_stark_high : string -> string -> list string -> st X (string + string);
  wait_for_stark : string -> st X (string + unit);
  cancel_stark : string -> st X (string + unit);
  prover_compress : string -> st X (string + string);
  prover_compress_high : string -> st X (string + string);
  prover_compress_blake3 : string -> st X (string + string);
  get_journal : WhichProver -> string -> st X (string + option bytes);
  get_receipt_of : string -> st X (string + option R);
  get_compressed_receipt : string -> st X (string + option bytes);
  get_blake3_groth16_receipt : string -> st X (string + option bytes);
  download : string -> st X (string + bytes);
  download_with_limit : string -> Z -> st X (string + bytes);
  priority_check : Z -> bool;
  proof_retry : st X (Z * Z);
  risc0_sleep : Z -> st X unit;
  contains_root : Z -> st X (string + bool);
  submit_merkle_root : Z -> bytes -> st X (string + unit)
}.

(** ** Selectors *)

Definition SELECTOR_GROTH16_V3_0 : Z := selector_as_u32 Groth16V3_0.
Definition SELECTOR_BLAKE3_GROTH16_V0_1 : Z := selector_as_u32 Blake3Groth16V0_1.
Definition SELECTOR_FAKE_RECEIPT : Z := selector_as_u32 FakeReceipt.
Definition SELECTOR_FAKE_BLAKE3_GROTH16 : Z := selector_as_u32 FakeBlake3Groth16.

Definition ASSESSOR_PRIORITY : list Z := [ONCHAIN_ASSESSOR_SELECTOR; R0_ASSESSOR_SELECTOR].

(** [Risc0Backend::producible]. *)
Definition risc0_producible (set_inclusion_selector : Z) (dev_mode : bool) : list (Z * Z) :=
  (if dev_mode
   then [(SELECTOR_FAKE_RECEIPT, SELECTOR_FAKE_RECEIPT);
         (SELECTOR_FAKE_BLAKE3_GROTH16, SELECTOR_FAKE_BLAKE3_GROTH16)]
   else [])
  ++ [(SELECTOR_GROTH16_V3_0, SELECTOR_GROTH16_V3_0);
      (SELECTOR_BLAKE3_GROTH16_V0_1, SELECTOR_BLAKE3_GROTH16_V0_1);
      (set_inclusion_selector, UNSPECIFIED_SELECTOR)].

Definition risc0_router_policy (registry : RouterRegistry) (set_inclusion_selector : Z)
    (dev_mode : bool) : RouterPolicy :=
  policy_new registry (risc0_producible set_inclusion_selector dev_mode) ASSESSOR_PRIORITY.

Definition selectors_of_interest (set_inclusion_selector : Z) (dev_mode : bool) : list Z :=
  map fst (risc0_producible set_inclusion_selector dev_mode) ++ ASSESSOR_PRIORITY.

Definition proof_type_for_selector (sel : Z) : option ProofType :=
  if (sel =? UNSPECIFIED_SELECTOR) || (sel =? SELECTOR_FAKE_RECEIPT) then Some PfAny else
  if sel =? SELECTOR_GROTH16_V3_0 then Some PfGroth16 else
  if (sel =? SELECTOR_BLAKE3_GROTH16_V0_1) || (sel =? SELECTOR_FAKE_BLAKE3_GROTH16)
  then Some PfBlake3Groth16 else
  None.

Definition submission_path_for_risc0_selector (sel : Z) : SubmissionPath :=
  if (sel =? SELECTOR_GROTH16_V3_0) || (sel =? SELECTOR_BLAKE3_GROTH16_V0_1)
     || (sel =? SELECTOR_FAKE_RECEIPT) || (sel =? SELECTOR_FAKE_BLAKE3_GROTH16)
  then Direct else Batched.

Definition compression_type_for_selector (sel : Z) : CompressionType :=
  if (sel =? SELECTOR_GROTH16_V3_0) || (sel =? SELECTOR_FAKE_RECEIPT) then CtGroth16 else
  if (sel =? SELECTOR_BLAKE3_GROTH16_V0_1) || (sel =? SELECTOR_FAKE_BLAKE3_GROTH16)
  then CtBlake3Groth16 else
  CtNone.

(** ** Claims *)

Section Claims.
Context {G I R B : Type} `{Risc0Lib G I R B}.

Definition prune_receipt_claim_journal (claim : ReceiptClaim) : ReceiptClaim :=
  match rc_output claim with
  | Value (Some output) =>
      match out_journal output with
      | Value journal =>
          mkClaim (Value (Some (mkOutput (Pruned (sha256 journal)) (out_assumptions output))))
            (rc_rest claim)
      | Pruned _ => claim
      end
  | _ => claim
  end.

(** [Risc0OrderState::decode] and [encode], and those of the batch. *)
Definition order_state_decode (state : bytes) : result string Risc0OrderState :=
  decoded ← ok_or "Failed to decode RISC0 order state"%string (order_state_from_json state);
  if os_version decoded <=? RISC0_ORDER_STATE_VERSION then Ok decoded
  else Err "RISC0 order state schema version is newer than this broker supports"%string.

Definition order_state_encode (state : Risc0OrderState) : result string bytes :=
  ok_or "Failed to encode RISC0 order state"%string (order_state_to_json state).

Definition from_backend_state (state : bytes) : result string (Risc0BatchState G) :=
  decoded ← ok_or "Failed to decode RISC0 batch state"%string (batch_state_from_json state);
  if bs_version decoded <=? RISC0_BATCH_STATE_VERSION then Ok decoded
  else Err "RISC0 batch state schema version is newer than this broker supports"%string.

Definition into_backend_state (state : Risc0BatchState G) : result string bytes :=
  ok_or "Failed to encode RISC0 batch state"%string (batch_state_to_json state).

End Claims.

(** ** The seal of the on-chain assessor ([contracts/fulfillment_batch.rs]) *)

Section Assessor.
Context `{Externals} {G I R B : Type} `{Risc0Lib G I R B} {X : Type}.

(** The selector in front of the seal of its class. *)
Definition assessor_seal_bytes (sel : Z) (inner_seal : bytes) : bytes :=
  selector_bytes sel ++ inner_seal.

Definition onchain_assessor_eip712_domain (address chain_id : Z) : EIP712DomainSaltless :=
  mkDomain "OnChainAssessor" "1" chain_id address.

Definition fulfillment_batch_auth_signing_hash (domain : EIP712DomainSaltless) (prover : Z)
    (request_digests digests : list bytes) : bytes :=
  FulfillmentBatchAuth_hash domain prover request_digests digests.

Definition sign_fulfillment_batch_auth (signer : Signer X) (domain : EIP712DomainSaltless)
    (prover : Z) (request_digests digests : list bytes) : ste X string bytes :=
  r ← lift (sign_hash signer
              (fulfillment_batch_auth_signing_hash domain prover request_digests digests));
  match r with inr sig => mret sig | inl e => throw e end.

Definition build_onchain_assessor_seal (signer : Signer X) (sel assessor_address chain_id : Z)
    (market_domain : EIP712DomainSaltless) (prover : Z) (requests : list ProofRequest)
    (fs : list Fulfillment) : ste X string bytes :=
  let request_digests := map (eip712_signing_hash market_domain) requests in
  let domain := onchain_assessor_eip712_domain assessor_address chain_id in
  signature ← sign_fulfillment_batch_auth signer domain prover request_digests (map claimDigest fs);
  mret (assessor_seal_bytes sel signature).

End Assessor.

(** The backend, once it is constructed; the batch processor is part of it. *)
Record Risc0Backend (X : Type) := mkRisc0 {
  r0_id : string;
  set_builder_program_id : option bytes;
  set_verifier_addr : option Z;
  prover_signer : option (Signer X);
  prover_addr : option Z;
  r0_chain_id : Z;
  router_policy : RouterPolicy;
  cost_model : Risc0CostModel;
  (** the batch processor: the two guests, the market and the prover *)
  batch_processor : option (bytes * bytes * Z * Z);
  r0_dev_mode : bool
}.
Arguments mkRisc0 {X} _ _ _ _ _ _ _ _ _ _.
Arguments r0_id {X} _.
Arguments set_builder_program_id {X} _.
Arguments set_verifier_addr {X} _.
Arguments prover_signer {X} _.
Arguments prover_addr {X} _.
Arguments r0_chain_id {X} _.
Arguments router_policy {X} _.
Arguments cost_model {X} _.
Arguments batch_processor {X} _.
Arguments r0_dev_mode {X} _.

Section Risc0.
Context `{Externals} {G I R B : Type} `{Risc0Lib G I R B} {X : Type} `{Risc0Env R X}.
Variable self : Risc0Backend X.

Definition rpc {A} (m : st X (string + A)) : ste X string A :=
  r ← lift m;
  match r with inr a => mret a | inl e => throw e end.

(** An answer that has to be there. *)
Definition rpc_some {A} (missing : string) (m : st X (string + option A)) : ste X string A :=
  r ← rpc m;
  liftr (ok_or missing r).

#[local] Instance risc0_world_sleep : Sleep X := risc0_sleep.

(** ** Selectors as the policy maps them *)

Definition normalize_selector (signed : Z) : Z :=
  default signed (producible_selector (router_policy self) signed).

Definition risc0_proof_type (sel : Z) : option ProofType :=
  proof_type_for_selector (normalize_selector sel).

Definition risc0_assessor_group (sel : Z) : result string (option Z) :=
  group ← ok_or "signed verifier selector resolves to no supported assessor"%string
            (assessor_selector_for_signed (router_policy self) sel);
  Ok (Some group).

Definition fulfillment_gas (request : ProofRequest) : result string Z :=
  match submission_path_for_risc0_selector (normalize_selector (selector (requirements request))) with
  | Direct => Ok (direct_fulfill_gas (cost_model self))
  | Batched => Ok (batched_fulfill_gas (cost_model self))
  end.

Definition additional_proof_cycles (request : ProofRequest) : result string Z :=
  match submission_path_for_risc0_selector (normalize_selector (selector (requirements request))) with
  | Direct => Ok (direct_additional_proof_cycles (cost_model self))
  | Batched => Ok (batched_additional_proof_cycles (cost_model self))
  end.

(** ** Proving an order *)

Definition verify_groth16_receipt (proof_id : string) : ste X string unit :=
  receipt_bytes ← rpc_some "Groth16 receipt not found" (get_compressed_receipt proof_id);
  receipt ← liftr (ok_or "Failed to deserialize receipt"%string (receipt_deserialize receipt_bytes));
  if verify_integrity receipt then mret tt else throw "Groth16 verification failed"%string.

Definition verify_blake3_groth16_receipt (proof_id : string) : ste X string unit :=
  receipt_bytes ← rpc_some "Blake3 Groth16 receipt not found" (get_blake3_groth16_receipt proof_id);
  receipt ← liftr (ok_or "Failed to deserialize receipt"%string (blake3_deserialize receipt_bytes));
  if blake3_verify_integrity receipt then mret tt else throw "Blake3 Groth16 verification failed"%string.

Definition upload_order_image (request : ProofRequest) : ste X string string :=
  predicate ← liftr (map_err (fun _ => "Failed to parse predicate"%string)
                       (predicate_try_from (predicate (requirements request))));
  let required := predicate_image_id predicate in
  cached ← match required with
           | Some id => rpc (has_image MainProver (digest_to_string id))
           | None => mret false
           end;
  match required, (cached : bool) with
  | Some id, true => mret (digest_to_string id)
  | _, _ =>
      image_data ← rpc (download (imageUrl request));
      image_id ← liftr (ok_or "Failed to compute image ID"%string (compute_image_id image_data));
      _ ← match required with
          | Some id =>
              required_image_id ←
                liftr (ok_or "invalid digest"%string (digest_from_hex (digest_to_string id)));
              if bool_decide (image_id = required_image_id) then mret tt
              else throw "image ID does not match requirements"%string
          | None => mret tt
          end;
      _ ← rpc (upload_image MainProver (digest_to_string image_id) image_data);
      mret (digest_to_string image_id)
  end.

Definition usize_max : Z := 2 ^ 64 - 1.

Definition upload_order_input (request : ProofRequest) : ste X string string :=
  match inputType (input request) with
  | InputInline =>
      stdin ← liftr (ok_or "Failed to decode input"%string (guest_env_decode (inputData (input request))));
      rpc (upload_input MainProver stdin)
  | InputUrl =>
      uri ← liftr (ok_or "input url is not utf8"%string (url_text (inputData (input request))));
      data ← if priority_check (client_address request)
             then rpc (download_with_limit uri usize_max)
             else rpc (download uri);
      stdin ← liftr (ok_or "Failed to decode input from URI"%string (guest_env_decode data));
      rpc (upload_input MainProver stdin)
  | InputInvalid => throw "Invalid input type"%string
  end.

Definition start_order (order : ProcessOrder) : ste X string string :=
  image_id ← match po_image_id order with
             | Some val => mret val
             | None => upload_order_image (po_request order)
             end;
  input_id ← match po_input_id order with
             | Some val => mret val
             | None => upload_order_input (po_request order)
             end;
  rpc (prove_stark image_id input_id []).

Definition compress_order_proof (stark_proof_id : string) (compression_type : CompressionType)
    : ste X string string :=
  proof_id ← match compression_type with
             | CtGroth16 => rpc (prover_compress stark_proof_id)
             | CtBlake3Groth16 => rpc (prover_compress_blake3 stark_proof_id)
             | CtNone => liftr Panic
             end;
  _ ← match compression_type with
      | CtGroth16 => verify_groth16_receipt proof_id
      | CtBlake3Groth16 => verify_blake3_groth16_receipt proof_id
      | CtNone => liftr Panic
      end;
  mret proof_id.

Definition risc0_process_order (cmd : ProcessOrder) : ste X string OrderProcessProgress :=
  match po_backend_state cmd with
  | None =>
      proof_id ← start_order cmd;
      state ← liftr (order_state_encode (mkOrderState RISC0_ORDER_STATE_VERSION proof_id None));
      mret (InProgress state)
  | Some raw =>
      state ← liftr (order_state_decode raw);
      _ ← rpc (wait_for_stark (os_proof_id state));
      let sel := normalize_selector (selector (requirements (po_request cmd))) in
      let compression_type := compression_type_for_selector sel in
      if negb (bool_decide (compression_type = CtNone))
         && bool_decide (os_compressed_proof_id state = None)
      then
        compressed ← compress_order_proof (os_proof_id state) compression_type;
        state' ← liftr (order_state_encode
                          (mkOrderState (os_version state) (os_proof_id state) (Some compressed)));
        mret (InProgress state')
      else
        mret (Completed (mkProcessed (r0_id self) (po_order_id cmd)
                           (submission_path_for_risc0_selector sel)
                           (bool_decide (is_Some (os_compressed_proof_id state)))))
  end.

Definition risc0_cancel_order (cmd : CancelOrder) : ste X string unit :=
  match co_backend_state cmd with
  | Some raw =>
      state ← liftr (order_state_decode raw);
      if is_proving cmd then rpc (cancel_stark (os_proof_id state)) else mret tt
  | None => mret tt
  end.
End Risc0.

(** ** The batch processor ([batch.rs]) *)

Record Risc0BatchProcessor := mkR0Batch {
  set_builder_guest_id : bytes;
  assessor_guest_id : bytes;
  bp_market_addr : Z;
  bp_prover_addr : Z;
  bp_chain_id : Z;
  bp_router_policy : RouterPolicy
}.

Section BatchOps.
Context `{Externals} {G I R B : Type} `{Risc0Lib G I R B} {X : Type} `{Risc0Env R X}.
Variable self : Risc0BatchProcessor.

#[local] Instance risc0_batch_sleep : Sleep X := risc0_sleep.

(** Any order of the batch decides; an empty batch does not skip. *)
Definition skip_assessor_guest (cmd : UpdateBatch) : result string bool :=
  let signed :=
    match ub_new_orders cmd with
    | o :: _ => Some (selector (requirements (pd_request (bo_proving o))))
    | [] => (fun o => selector (requirements (pd_request o))) <$> head (ub_existing_orders cmd)
    end in
  match signed with
  | None => Ok false
  | Some signed =>
      sel ← ok_or "signed verifier selector resolves to no supported assessor"%string
              (assessor_selector_for_signed (bp_router_policy self) signed);
      Ok (sel =? ONCHAIN_ASSESSOR_SELECTOR)
  end.

(** [claim.value()]. *)
Definition claim_value (c : MaybePruned ReceiptClaim) : option ReceiptClaim :=
  match c with Value a => Some a | Pruned _ => None end.

Definition validate_and_extract_claim (proof_id : string) : ste X string ReceiptClaim :=
  receipt ← rpc_some "Receipt not found" (get_receipt_of proof_id);
  if negb (verify_integrity receipt) then throw "Receipt verification failed"%string else
  pruned ← liftr (ok_or "Failed to get claim"%string (receipt_claim receipt));
  claim ← liftr (ok_or "Failed to extract claim value"%string (claim_value pruned));
  mret (prune_receipt_claim_journal claim).

(** The proofs that are not valid are left out. *)
Fixpoint valid_claims (proofs : list string) : ste X string (list (string * ReceiptClaim)) :=
  match proofs with
  | [] => mret []
  | proof_id :: proofs =>
      r ← catch (validate_and_extract_claim proof_id);
      rest ← valid_claims proofs;
      match r with
      | inr claim => mret ((proof_id, claim) :: rest)
      | inl _ => mret rest
      end
  end.

(** The operation that is retried: the proof of the set builder and its journal. *)
Definition prove_and_get_journal (input_id : string) (assumptions : list string)
    : ste X string (string * bytes) :=
  id ← rpc (prove_and_monitor_stark_high (digest_to_string (set_builder_guest_id self)) input_id
              assumptions);
  receipt ← rpc_some "Receipt missing for set-builder" (get_receipt_of id);
  if receipt_verify receipt (set_builder_guest_id self)
  then mret (id, receipt_journal receipt)
  else throw "Set builder proof produced invalid receipt"%string.

Definition state_option (backend_state : option bytes) : result string (option (Risc0BatchState G)) :=
  match backend_state with
  | Some state => s ← from_backend_state state; Ok (Some s)
  | None => Ok None
  end.

Definition prove_set_builder (backend_state : option bytes) (proofs : list string)
    (finalize : bool) : ste X string bytes :=
  aggregation_state ← liftr (state_option backend_state);
  valid ← valid_claims proofs;
  let claims := map snd valid in
  match claims with
  | [] => throw "No valid proofs found in batch"%string
  | _ =>
      let gs := match aggregation_state with
                | Some s => guest_state s
                | None => gs_initial (set_builder_guest_id self)
                end in
      inp ← liftr (ok_or "Failed to build set builder input"%string
                     (gs_into_input gs claims finalize));
      let assumption_ids :=
        match aggregation_state ≫= bs_proof_id with Some id => [id] | None => [] end
        ++ map fst valid in
      input_data ← liftr (ok_or "Failed to encode set-builder proof input"%string (encode_input inp));
      input_id ← rpc (upload_input SnarkProver input_data);
      policy ← lift proof_retry;
      '(proof_id, journal) ←
        retry_with_context (fst policy) (snd policy) (prove_and_get_journal input_id assumption_ids);
      gs' ← liftr (ok_or "Failed to decode guest output"%string (gs_decode journal));
      let digests := match aggregation_state with Some s => claim_digests s | None => [] end
                     ++ map claim_digest claims in
      liftr (into_backend_state
               (mkBatchState RISC0_BATCH_STATE_VERSION gs' digests (Some proof_id) None None))
  end.

(** What the assessor has to be shown of an order. *)
Definition assessor_fill (order : OrderProvingData) : ste X string AssessorFill :=
  raw ← liftr (ok_or "Missing backend state for order"%string (pd_backend_state order));
  state ← liftr (order_state_decode raw);
  journal ← rpc_some "journal missing" (get_journal SnarkProver (os_proof_id state));
  data ← match predicateType (predicate (requirements (pd_request order))) with
         | PtClaimDigestMatch => mret FdNone
         | _ =>
             image_id ← liftr (ok_or "Missing image_id for order"%string (pd_image_id order));
             image_id ← liftr (ok_or "invalid digest"%string (digest_from_hex image_id));
             mret (FdImageIdAndJournal image_id journal)
         end;
  mret (mkFill (pd_request order) (pd_client_sig order) data).

Fixpoint assessor_fills (orders : list OrderProvingData) : ste X string (list AssessorFill) :=
  match orders with
  | [] => mret []
  | order :: orders => fill ← assessor_fill order; fills ← assessor_fills orders; mret (fill :: fills)
  end.

Definition prove_assessor (orders : list OrderProvingData) : ste X string string :=
  fills ← assessor_fills orders;
  let inp := mkAssessorInput fills (eip712_domain (bp_market_addr self) (bp_chain_id self))
               (bp_prover_addr self) in
  input_id ← rpc (upload_input SnarkProver (assessor_stdin inp));
  rpc (prove_and_monitor_stark_high (digest_to_string (assessor_guest_id self)) input_id []).

Definition compress_batch_proof (aggregation_proof_id : string) : ste X string string :=
  policy ← lift proof_retry;
  retry_with_context (fst policy) (snd policy)
    (proof_id ← rpc (prover_compress_high aggregation_proof_id);
     _ ← verify_groth16_receipt proof_id;
     mret proof_id).

(** The journals of the orders, except those whose calldata has none. *)
Fixpoint journals_size (orders : list OrderProvingData) (size : Z) : ste X string Z :=
  match orders with
  | [] => mret size
  | order :: orders =>
      raw ← liftr (ok_or "Missing backend state for order"%string (pd_backend_state order));
      state ← liftr (order_state_decode raw);
      journal ← rpc_some "Journal missing" (get_journal SnarkProver (os_proof_id state));
      journals_size orders
        (if bool_decide (predicateType (predicate (requirements (pd_request order)))
                         = PtClaimDigestMatch)
         then size else size + Z.of_nat (length journal))
  end.

Definition risc0_estimate_batch_size (cmd : BatchSizeEstimateRequest) : ste X string Z :=
  journals_size (es_existing_orders cmd ++ es_pending_orders cmd) 0.

(** The proofs that the set builder has to aggregate: those of the new orders that
    are not compressed on their own. *)
Fixpoint batched_proofs (orders : list BatchOrder) : result string (list string) :=
  match orders with
  | [] => Ok []
  | order :: orders =>
      raw ← ok_or "Order missing backend state at update_batch"%string
              (pd_backend_state (bo_proving order));
      state ← order_state_decode raw;
      rest ← batched_proofs orders;
      Ok (match os_compressed_proof_id state with
          | None => os_proof_id state :: rest
          | Some _ => rest
          end)
  end.

(** The state of a batch that aggregates nothing. *)
Definition carried_state (state : option bytes) : result string bytes :=
  s ← match state with
      | Some state => from_backend_state state
      | None =>
          Ok (mkBatchState RISC0_BATCH_STATE_VERSION (gs_initial (set_builder_guest_id self)) []
                None None None)
      end;
  into_backend_state s.

Definition with_assessor_proof (s : Risc0BatchState G) (id : option string) : Risc0BatchState G :=
  mkBatchState (bs_version s) (guest_state s) (claim_digests s) (bs_proof_id s)
    (bs_compressed_proof_id s) id.

Definition risc0_update_batch (cmd : UpdateBatch) : ste X string BatchUpdate :=
  skip ← liftr (skip_assessor_guest cmd);
  assessor ←
    (if ub_finalize cmd && negb skip
     then
       id ← prove_assessor (ub_existing_orders cmd ++ map bo_proving (ub_new_orders cmd));
       mret (Some id)
     else mret None);
  proofs ← liftr (batched_proofs (ub_new_orders cmd));
  let proofs := proofs ++ match assessor with Some id => [id] | None => [] end in
  state ← match proofs with
          | [] => liftr (carried_state (ub_state cmd))
          | _ => prove_set_builder (ub_state cmd) proofs (ub_finalize cmd)
          end;
  decoded ← liftr (from_backend_state state);
  state ← liftr (into_backend_state (with_assessor_proof decoded assessor));
  mret (mkBatchUpdate state (ub_finalize cmd)).

Definition with_compressed_proof (s : Risc0BatchState G) (id : string) : Risc0BatchState G :=
  mkBatchState (bs_version s) (guest_state s) (claim_digests s) (bs_proof_id s) (Some id)
    (assessor_proof_id s).

Definition risc0_close_batch (cmd : CloseBatch) : ste X string BatchClose :=
  raw ← liftr (ok_or "Batch has no recorded backend state at close-batch time"%string (cb_state cmd));
  state ← liftr (from_backend_state raw);
  state ← match bs_proof_id state with
          | Some proof_id =>
              compressed ← compress_batch_proof proof_id;
              mret (with_compressed_proof state compressed)
          | None => mret state
          end;
  state ← liftr (into_backend_state state);
  mret (mkBatchClose state).

End BatchOps.

(** ** Building the fulfillments *)

Section Build.
Context `{Externals} {G I R B : Type} `{Risc0Lib G I R B} {X : Type} `{Risc0Env R X}.
Variable self : Risc0Backend X.

Definition encode_groth16_seal (proof_id : string) : ste X string bytes :=
  raw ← rpc_some "Groth16 receipt missing" (get_compressed_receipt proof_id);
  receipt ← liftr (ok_or "Failed to deserialize g16 receipt"%string (receipt_deserialize raw));
  liftr (ok_or "Failed to encode g16 receipt seal"%string (encode_seal receipt)).

Definition fake_selector : bytes := [xff; xff; x00; x00].

(** In dev mode the first four bytes of the seal are replaced; [splice] panics on a
    shorter one. *)
Definition encode_blake3_groth16_seal (proof_id : string) : ste X string bytes :=
  raw ← rpc_some "Blake3 Groth16 receipt missing" (get_blake3_groth16_receipt proof_id);
  receipt ← liftr (ok_or "Failed to deserialize Blake3 Groth16 receipt"%string
                     (blake3_deserialize raw));
  seal ← liftr (ok_or "Failed to encode Blake3 Groth16 receipt seal"%string
                  (encode_seal (blake3_into receipt)));
  if r0_dev_mode self
  then if (length seal <? 4)%nat then liftr Panic else mret (fake_selector ++ drop 4 seal)
  else mret seal.

Definition encode_seal_for_selector (sel : Z) (proof_id : string) : ste X string bytes :=
  match compression_type_for_selector sel with
  | CtGroth16 => encode_groth16_seal proof_id
  | CtBlake3Groth16 => encode_blake3_groth16_seal proof_id
  | CtNone => throw "selector does not identify a compressed proof seal"%string
  end.

(** The digest of the claim of the assessor's receipt; its journal has to decode. *)
Definition assessor_receipt (proof_id : string) : ste X string bytes :=
  receipt ← rpc_some "Assessor receipt missing" (get_receipt_of proof_id);
  pruned ← liftr (ok_or "Receipt for assessor missing claim"%string (receipt_claim receipt));
  claim ← liftr (ok_or "Receipt for assessor claims pruned"%string (claim_value pruned));
  if assessor_journal_decodes (receipt_journal receipt)
  then mret (claim_digest claim)
  else throw "Failed to decode assessor journal"%string.

(** [iter().position(..)] *)
Definition position (d : bytes) (digests : list bytes) : option nat :=
  fst <$> list_find (fun c => c = d) digests.

(** The seal of a claim that is a leaf of the batch. *)
Definition path_seal (state : Risc0BatchState G) (params : bytes) (leaf : bytes)
    (claim : ReceiptClaim) : result string bytes :=
  idx ← ok_or "Failed to find claim in aggregated claims"%string
          (position leaf (claim_digests state));
  ok_or "Failed to encode seal"%string
    (inclusion_seal claim (merkle_path (claim_digests state) idx) params).

(** The root of a batch that has been compressed. *)
Definition root_updates (state : Risc0BatchState G) (set_verifier : Z)
    : ste X string (list VerifierUpdate) :=
  match bs_compressed_proof_id state with
  | None => mret []
  | Some groth16_proof_id =>
      if bool_decide (claim_digests state = []) then throw "Cannot submit batch with no claim digests"%string else
      if negb (mmr_is_finalized (guest_state state))
      then throw "Cannot submit guest state that is not finalized"%string else
      let batch_root := merkle_root (claim_digests state) in
      finalized_root ← liftr (unwrap (mmr_finalized_root (guest_state state)));
      if negb (bool_decide (finalized_root = batch_root))
      then throw "Guest state finalized root is inconsistent with claim digests"%string else
      seal ← encode_groth16_seal groth16_proof_id;
      mret [SubmitMerkleRoot set_verifier (bytes_to_u256 batch_root) seal]
  end.

(** The states of the orders that have one. *)
Fixpoint decode_order_states (orders : list FulfillmentOrder) (m : gmap string Risc0OrderState)
    : result string (gmap string Risc0OrderState) :=
  match orders with
  | [] => Ok m
  | o :: orders =>
      match fo_backend_state o with
      | None => decode_order_states orders m
      | Some raw => s ← order_state_decode raw; decode_order_states orders (<[fo_order_id o := s]> m)
      end
  end.

(** The body of the loop, one order. *)
Definition build_order (state : Risc0BatchState G) (params : bytes)
    (states : gmap string Risc0OrderState) (order : FulfillmentOrder)
    : ste X string OrderFulfillmentArtifact :=
  order_state ← liftr (ok_or "missing DB row or backend state"%string (states !! fo_order_id order));
  journal ← rpc_some "Order proof journal missing" (get_journal MainProver (os_proof_id order_state));
  let claim := claim_ok (fo_program_id order) (sha256 journal) in
  let sel := normalize_selector self (selector (requirements (fo_request order))) in
  seal ← (if is_groth16_selector sel || is_blake3_groth16_selector sel
          then
            compressed ← liftr (ok_or "Order missing compressed proof ID for submission"%string
                                  (os_compressed_proof_id order_state));
            encode_seal_for_selector sel compressed
          else liftr (path_seal state params (claim_digest claim) claim));
  let pred := predicate (requirements (fo_request order)) in
  '(digest, data, data_type) ←
    match predicateType pred with
    | PtClaimDigestMatch =>
        d ← liftr (ok_or "claim digest predicate has invalid length"%string
                     (digest_try_from (predicateData pred)));
        mret (d, [], FdtNone)
    | PtPrefixMatch | PtDigestMatch =>
        mret (claim_digest claim, abi_encode_fd (fo_program_id order, journal), FdtImageIdAndJournal)
    | PtInvalid => throw "Invalid predicate type"%string
    end;
  mret (mkArtifact (fo_order_id order) (fo_request order) (mkFulfillment digest data_type data seal)).

(** Orders that cannot be built are set aside. *)
Fixpoint build_orders (state : Risc0BatchState G) (params : bytes)
    (states : gmap string Risc0OrderState) (orders : list FulfillmentOrder)
    : ste X string (list OrderFulfillmentArtifact * list FailedFulfillmentOrder) :=
  match orders with
  | [] => mret ([], [])
  | order :: orders =>
      r ← catch (build_order state params states order);
      '(built, failed) ← build_orders state params states orders;
      match r with
      | inr artifact => mret (artifact :: built, failed)
      | inl error => mret (built, mkFailedOrder (fo_order_id order) error :: failed)
      end
  end.

(** The digest with which a claim is replaced in an inclusion seal. *)
Definition ZERO_digest : bytes := repeat x00 32.

Definition batch_assessor_seal (state : Risc0BatchState G) (params : bytes)
    (domain : EIP712DomainSaltless) (signed : Z) (built : list OrderFulfillmentArtifact)
    : ste X string bytes :=
  assessor_selector ← liftr (ok_or "signed verifier selector resolves to no supported assessor"%string
                               (assessor_selector_for_signed (router_policy self) signed));
  if assessor_selector =? ONCHAIN_ASSESSOR_SELECTOR then
    signer ← liftr (ok_or "no prover signer configured"%string (prover_signer self));
    prover ← liftr (ok_or "no prover address configured"%string (prover_addr self));
    address ← liftr (ok_or "its adapter address is unknown"%string
                       (implementation <$> policy_entry (router_policy self) assessor_selector));
    build_onchain_assessor_seal signer assessor_selector address (r0_chain_id self) domain prover
      (map art_request built) (map art_fulfillment built)
  else
    proof_id ← liftr (ok_or "Cannot submit batch with no assessor receipt"%string
                        (assessor_proof_id state));
    assessor_claim ← assessor_receipt proof_id;
    inner ← liftr (path_seal state params assessor_claim (claim_ok ZERO_digest ZERO_digest));
    mret (assessor_seal_bytes assessor_selector inner).

Definition risc0_build_fulfillments (cmd : FulfillmentBatch) : ste X string SubmissionPlan :=
  if negb (bool_decide (fb_backend_id cmd = r0_id self))
  then throw "backend cannot build fulfillments for backend"%string else
  backend_state ← liftr (ok_or "Cannot submit batch with no recorded backend state"%string
                           (fb_state cmd));
  state ← liftr (from_backend_state backend_state);
  program_id ← liftr (ok_or "RISC0 backend is missing set-builder program id"%string
                        (set_builder_program_id self));
  set_verifier ← liftr (ok_or "RISC0 backend is missing set-verifier address"%string
                          (set_verifier_addr self));
  let params := inclusion_params_digest program_id in
  updates ← root_updates state set_verifier;
  states ← liftr (decode_order_states (fb_orders cmd) ∅);
  '(built, failed) ← build_orders state params states (fb_orders cmd);
  signed ← liftr (ok_or "cannot select assessor for an empty batch"%string
                    ((fun o => selector (requirements (fo_request o))) <$> head (fb_orders cmd)));
  seal ← batch_assessor_seal state params (fb_domain cmd) signed built;
  mret (mkPlan updates failed built seal).

(** ** The set verifier *)

Definition require_set_verifier (verifier : Z) : result string unit :=
  _ ← ok_or "RISC0 backend is missing set verifier"%string (set_verifier_addr self);
  if bool_decide (set_verifier_addr self = Some verifier) then Ok tt
  else Err "verifier update targets another set verifier"%string.

(** The cause chain of the error tells whether the confirmation was not observed. *)
Definition classify_verifier_update_error (err : string) : VerifierUpdateError :=
  if contains "failed to confirm tx" err then VuTxnConfirmation err else VuOther err.

Definition risc0_verifier_update_applied (update : VerifierUpdate) : ste X string bool :=
  match update with
  | SubmitMerkleRoot verifier root _ =>
      _ ← liftr (require_set_verifier verifier);
      rpc (contains_root root)
  end.

Definition risc0_apply_verifier_update (update : VerifierUpdate) : ste X VerifierUpdateError unit :=
  match update with
  | SubmitMerkleRoot verifier root seal =>
      _ ← liftr (map_err VuOther (require_set_verifier verifier));
      with_err classify_verifier_update_error (rpc (submit_merkle_root root seal))
  end.

(** ** The backend as the router sees it *)

Definition processor_of : option Risc0BatchProcessor :=
  '(set_builder, assessor, market, prover) ← batch_processor self;
  Some (mkR0Batch set_builder assessor market prover (r0_chain_id self) (router_policy self)).

Definition risc0_backend
    (evaluate : EvaluationRequest -> EvaluationLimits -> ste X OrderPricingError RequestEvaluation)
    : Backend X :=
  mkBackend X (r0_id self)
    (policy_supported_selectors (router_policy self))
    (risc0_proof_type self)
    (risc0_assessor_group self)
    (fulfillment_gas self)
    (additional_proof_cycles self)
    evaluate
    (risc0_process_order self)
    risc0_cancel_order
    ((fun bp => mkBatchProcessor X risc0_estimate_batch_size
                  (risc0_update_batch bp) risc0_close_batch) <$> processor_of)
    risc0_build_fulfillments
    risc0_verifier_update_applied
    risc0_apply_verifier_update.

End Build.

(** * Theorems *)

(** ** Selectors *)

Lemma direct_compressed sel :
  submission_path_for_risc0_selector sel = Direct <-> compression_type_for_selector sel <> CtNone.
Proof.
  unfold submission_path_for_risc0_selector, compression_type_for_selector.
  destruct (sel =? SELECTOR_GROTH16_V3_0), (sel =? SELECTOR_BLAKE3_GROTH16_V0_1),
    (sel =? SELECTOR_FAKE_RECEIPT), (sel =? SELECTOR_FAKE_BLAKE3_GROTH16); done.
Qed.

(** The selectors that the policy emits are all classified. *)
Lemma producible_classified si dev sel produced :
  In (sel, produced) (risc0_producible si dev) -> is_Some (proof_type_for_selector produced).
Proof.
  unfold risc0_producible. intros Hin. apply in_app_iff in Hin.
  assert (Hp : produced ∈ [SELECTOR_FAKE_RECEIPT; SELECTOR_FAKE_BLAKE3_GROTH16;
                           SELECTOR_GROTH16_V3_0; SELECTOR_BLAKE3_GROTH16_V0_1;
                           UNSPECIFIED_SELECTOR]).
  { rewrite list_elem_of_In. destruct dev; simpl in *; naive_solver. }
  repeat (apply elem_of_cons in Hp as [->|Hp]; [by eexists|]). by apply elem_of_nil in Hp.
Qed.

Lemma producible_selector_pair reg pairs priority sel p :
  producible_selector (policy_new reg pairs priority) sel = Some p ->
  exists s, In (s, p) pairs.
Proof.
  unfold policy_new. destruct (collect_producible reg pairs ∅ ∅) as [prod classes] eqn:E.
  unfold producible_selector. cbn [producible class_to_producible].
  assert (Hinv : forall prod0 classes0,
    (forall k q, prod0 !! k = Some q -> exists s, In (s, q) pairs) ->
    (forall k q, classes0 !! k = Some q -> exists s, In (s, q) pairs) ->
    forall l prod1 classes1, (forall x, In x l -> In x pairs) ->
    collect_producible reg l prod0 classes0 = (prod1, classes1) ->
    (forall k q, prod1 !! k = Some q -> exists s, In (s, q) pairs) /\
    (forall k q, classes1 !! k = Some q -> exists s, In (s, q) pairs)).
  { intros prod0 classes0 Hp Hc l. revert prod0 classes0 Hp Hc.
    induction l as [|[s q] l IH]; intros prod0 classes0 Hp Hc prod1 classes1 Hl Hr;
      cbn [collect_producible] in Hr; [injection Hr as <- <-; auto|].
    assert (Hs : exists s0, In (s0, q) pairs) by (exists s; apply Hl; by left).
    destruct (entry reg s) as [e|]; (eapply IH; [| | |exact Hr]);
      try (intros x Hx; apply Hl; by right); try done.
    - intros k q' [[<- <-]|[_ Hk]]%lookup_insert_Some; [done|by eapply Hp].
    - destruct (classes0 !! class_id e); [done|].
      intros k q' [[<- <-]|[_ Hk]]%lookup_insert_Some; [done|by eapply Hc]. }
  destruct (Hinv ∅ ∅) with (l := pairs) (prod1 := prod) (classes1 := classes) as [Hp Hc];
    [by intros ? ? ?%lookup_empty_Some..|done|done|].
  destruct (prod !! sel) eqn:Ep; [intros [= <-]; by eapply Hp|by apply Hc].
Qed.

Lemma NoDup_list_filter {A} (f : A -> bool) (l : list A) : NoDup l -> NoDup (List.filter f l).
Proof.
  induction 1 as [|x l Hx Hl IH]; simpl; [constructor|]. destruct (f x); [|done].
  constructor; [|done]. intros Hin%list_elem_of_In. apply filter_In in Hin as [Hin _].
  by apply Hx, list_elem_of_In.
Qed.

(** What the policy supports has no repetitions. *)
Lemma policy_supported_nodup reg pairs priority :
  registry_wf reg -> NoDup (policy_supported_selectors (policy_new reg pairs priority)).
Proof.
  intros Hwf. unfold policy_supported_selectors.
  destruct (policy_maps reg pairs priority) as (_ & _ & Hs).
  pose proof (producible_class reg pairs priority Hwf) as Hclass.
  pose proof (producible_entry reg pairs priority) as Hentry.
  assert (Hnd1 : NoDup (producible_selectors (policy_new reg pairs priority)))
    by apply NoDup_fst_map_to_list.
  assert (Hnd2 : NoDup (supported_classes (policy_new reg pairs priority))).
  { unfold policy_new. destruct (collect_producible _ _ _ _) as [prod classes].
    apply NoDup_list_filter, NoDup_fst_map_to_list. }
  assert (Hkey : forall k, k ∈ producible_selectors (policy_new reg pairs priority) ->
                 is_Some (entries reg !! k)).
  { intros k Hk. apply Hentry. unfold producible_selectors in Hk.
    apply list_elem_of_fmap in Hk as ([k' p] & -> & Hin). apply elem_of_map_to_list in Hin.
    by exists p. }
  apply NoDup_app. split; [by apply NoDup_list_filter|]. split.
  - intros k Hk. apply list_elem_of_In, filter_In in Hk as [Hk _].
    apply list_elem_of_In, Hkey in Hk as [e He].
    rewrite elem_of_app, Hs. intros [[Hc _]|Hz].
    + apply Hclass in Hc as [_ Hn]. congruence.
    + case_bool_decide; [|by apply elem_of_nil in Hz].
      apply list_elem_of_singleton in Hz as ->.
      pose proof (wf_no_sentinel _ Hwf). unfold UNSPECIFIED_SELECTOR in He. congruence.
  - apply NoDup_app. split; [done|]. split.
    + intros k [Hc _]%Hs Hz. apply Hclass in Hc as [Hne _].
      case_bool_decide; [|by apply elem_of_nil in Hz]. by apply list_elem_of_singleton in Hz.
    + case_bool_decide; [apply NoDup_singleton|apply NoDup_nil_2].
Qed.

(** ** The backend can be registered *)

Section Register.
Context `{Externals} {G I R B : Type} `{Risc0Lib G I R B} {X : Type} `{Risc0Env R X}.
Variables (self : Risc0Backend X) (reg : RouterRegistry) (set_inclusion : Z) (dev : bool).
Hypothesis policy_eq : router_policy self = risc0_router_policy reg set_inclusion dev.
Hypothesis Hwf : registry_wf reg.

Lemma emitted_classified sel p :
  producible_selector (router_policy self) sel = Some p -> is_Some (proof_type_for_selector p).
Proof.
  rewrite policy_eq. intros (s & Hin)%producible_selector_pair. by eapply producible_classified.
Qed.

Lemma supported_classified sel :
  sel ∈ policy_supported_selectors (router_policy self) -> is_Some (risc0_proof_type self sel).
Proof.
  intros Hs. unfold risc0_proof_type, normalize_selector.
  destruct (producible_selector (router_policy self) sel) as [p|] eqn:Ep;
    [by apply emitted_classified in Ep|].
  rewrite policy_eq in Hs, Ep. apply policy_supported_iff in Hs. unfold producible_selector in Ep.
  destruct (producible _ !! sel) eqn:E1; [done|].
  destruct Hs as [[[? [=]] _]|[[Hc _]|(-> & _)]]; [|by eexists].
  unfold risc0_router_policy in Ep. rewrite Ep in Hc. by destruct Hc.
Qed.

Lemma check_selectors_pass (e : BackendEntry X) sels seen :
  NoDup sels -> (forall sel, sel ∈ sels -> sel ∉ seen) ->
  (forall sel, sel ∈ sels -> is_Some (bk_proof_type (be_backend e) sel)) ->
  check_selectors e ∅ seen sels = Ok tt.
Proof.
  intros Hnd. revert seen. induction Hnd as [|s sels Hs Hnd IH]; intros seen Hseen Hc; [done|].
  cbn [check_selectors]. rewrite bool_decide_eq_false_2 by (apply Hseen; left).
  rewrite lookup_empty. destruct (Hc s) as [ty Hty]; [left|]. rewrite Hty. simpl.
  apply IH.
  - intros sel Hin [->%elem_of_singleton|Hin']%elem_of_union; [done|].
    apply (Hseen sel); [by right|done].
  - intros sel Hin. apply Hc. by right.
Qed.

End Register.

(** The backend passes its own registration: over any well-formed registry in which
    it supports something, with any set-inclusion selector and in either mode, the
    selectors that its policy advertises are distinct and each has a proof type, so
    [register_backend] accepts it into a table that does not have it yet. *)
Theorem risc0_registers `{Externals} {G I R B} `{Risc0Lib G I R B} {X} `{Risc0Env R X}
    (self : Risc0Backend X) reg set_inclusion dev evaluate :
  router_policy self = risc0_router_policy reg set_inclusion dev ->
  registry_wf reg ->
  policy_supported_selectors (router_policy self) <> [] ->
  exists r, register_backend router_new (backend_entry_new (risc0_backend self evaluate)) = Ok r
            /\ forall sel, routes r !! sel = Some (r0_id self)
                          <-> sel ∈ policy_supported_selectors (router_policy self).
Proof.
  intros Hp Hwf Hne. unfold register_backend. cbn [backend_entry_new be_selectors be_id backends routes router_new
    bk_supported_selectors risc0_backend bk_id].
  pose proof (supported_classified self reg set_inclusion dev Hp) as Hc.
  assert (Hnd : NoDup (policy_supported_selectors (router_policy self)))
    by (rewrite Hp; by apply policy_supported_nodup).
  remember (policy_supported_selectors (router_policy self)) as sels eqn:Es.
  destruct sels as [|s0 sels']; [done|]. rewrite lookup_empty.
  rewrite check_selectors_pass; [|done|by intros ? _ ?%elem_of_empty|exact Hc]. simpl.
  eexists. split; [done|]. intros sel. cbn [routes].
  rewrite (insert_routes_lookup (r0_id self) sels'). rewrite elem_of_cons.
  destruct (decide (sel = s0)) as [->|Hne'].
  - rewrite lookup_insert_eq. case_bool_decide; naive_solver.
  - rewrite lookup_insert_ne by done. case_bool_decide; [naive_solver|].
    split; [by intros ?%lookup_empty_Some|naive_solver].
Qed.

(** ** Proving an order takes at most three steps *)

(** JSON keeps a state. *)
Class OrderStateCodec {G I R B} `{Risc0Lib G I R B} :=
  order_state_codec s raw : order_state_to_json s = Some raw -> order_state_from_json raw = Some s.

Class BatchStateCodec {G I R B} `{Risc0Lib G I R B} :=
  batch_state_codec (s : Risc0BatchState G) raw :
    batch_state_to_json s = Some raw -> batch_state_from_json raw = Some s.

Section Progress.
Context {G I R B : Type} `{OrderStateCodec G I R B} {X : Type} `{Risc0Env R X}.
Variable self : Risc0Backend X.

Definition with_order_state (cmd : ProcessOrder) (raw : bytes) : ProcessOrder :=
  mkProcessOrder (po_order_id cmd) (po_request cmd) (po_image_id cmd) (po_input_id cmd) (Some raw).

(** The calls that the order processor makes, each with the state that the one before it has
    answered. *)
Fixpoint drive (fuel : nat) (cmd : ProcessOrder) (x : X)
    : option (result string ProcessedOrder * X) :=
  match fuel with
  | O => None
  | S fuel =>
      match risc0_process_order self cmd x with
      | (Ok (InProgress raw), x') => drive fuel (with_order_state cmd raw) x'
      | (Ok (Completed p), x') => Some (Ok p, x')
      | (Err e, x') => Some (Err e, x')
      | (Panic, x') => Some (Panic, x')
      end
  end.

Definition order_compression (cmd : ProcessOrder) : CompressionType :=
  compression_type_for_selector
    (normalize_selector self (selector (requirements (po_request cmd)))).

(** The steps that an order still needs. *)
Definition steps_left (cmd : ProcessOrder) : nat :=
  match po_backend_state cmd with
  | None => if decide (order_compression cmd = CtNone) then 1 else 2
  | Some raw =>
      match order_state_decode raw with
      | Ok s =>
          if decide (order_compression cmd = CtNone) then 0 else
          if decide (os_compressed_proof_id s = None) then 1 else 0
      | _ => 0
      end
  end.

Lemma order_state_roundtrip s raw :
  os_version s <= RISC0_ORDER_STATE_VERSION ->
  order_state_encode s = Ok raw -> order_state_decode raw = Ok s.
Proof.
  intros Hv. unfold order_state_encode, order_state_decode.
  destruct (order_state_to_json s) as [b|] eqn:E; [|done]. intros [= <-].
  rewrite (order_state_codec _ _ E). simpl. by rewrite (proj2 (Z.leb_le _ _) Hv).
Qed.

Lemma order_state_decode_version raw s :
  order_state_decode raw = Ok s -> os_version s <= RISC0_ORDER_STATE_VERSION.
Proof.
  unfold order_state_decode. intros (d & _ & Hd)%result_bind_Ok.
  destruct (Z.leb_spec (os_version d) RISC0_ORDER_STATE_VERSION); [by injection Hd as <-|done].
Qed.

Lemma pfree_rpc {A} (m : st X (string + A)) x : pfree (rpc m) x.
Proof.
  apply pfree_bind; [apply pfree_lift|]. intros [e|a] x' _; [apply pfree_throw|apply pfree_ret].
Qed.

Lemma pfree_rpc_some {A} missing (m : st X (string + option A)) x : pfree (rpc_some missing m) x.
Proof.
  apply pfree_bind; [apply pfree_rpc|]. intros r x' _. apply pfree_liftr. by destruct r.
Qed.

Lemma pfree_ok_or {E A} (e : E) (o : option A) (x : X) : pfree (liftr (ok_or e o)) x.
Proof. apply pfree_liftr. by destruct o. Qed.

Lemma order_state_decode_pfree raw (x : X) : pfree (liftr (order_state_decode raw)) x.
Proof.
  apply pfree_liftr. unfold order_state_decode.
  destruct (order_state_from_json raw); simpl; [|done]. by destruct (_ <=? _).
Qed.

Lemma verify_groth16_pfree id x : pfree (verify_groth16_receipt id) x.
Proof.
  apply pfree_bind; [apply pfree_rpc_some|]. intros b x1 _.
  apply pfree_bind; [apply pfree_ok_or|]. intros r x2 _.
  destruct (verify_integrity r); [apply pfree_ret|apply pfree_throw].
Qed.

Lemma verify_blake3_pfree id x : pfree (verify_blake3_groth16_receipt id) x.
Proof.
  apply pfree_bind; [apply pfree_rpc_some|]. intros b x1 _.
  apply pfree_bind; [apply pfree_ok_or|]. intros r x2 _.
  destruct (blake3_verify_integrity r); [apply pfree_ret|apply pfree_throw].
Qed.

Lemma compress_pfree id ct x : ct <> CtNone -> pfree (compress_order_proof id ct) x.
Proof.
  intros Hct. destruct ct; [done| |];
    (apply pfree_bind; [apply pfree_rpc|]; intros p x1 _;
     apply pfree_bind; [apply verify_groth16_pfree || apply verify_blake3_pfree|];
     intros u x2 _; apply pfree_ret).
Qed.

Lemma predicate_try_from_pfree p : predicate_try_from p <> Panic.
Proof.
  unfold predicate_try_from. destruct (predicateType p); [| | |done].
  - destruct (split_at_checked _ _) as [[i j]|]; [|done]. simpl.
    destruct (digest_try_from i); [|done]. simpl. by destruct (digest_try_from j).
  - destruct (split_at_checked _ _) as [[i j]|]; [|done]. simpl. by destruct (digest_try_from i).
  - simpl. by destruct (digest_try_from _).
Qed.

Lemma upload_image_pfree rq x : pfree (upload_order_image rq) x.
Proof.
  unfold upload_order_image. apply pfree_bind.
  { apply pfree_liftr. pose proof (predicate_try_from_pfree (predicate (requirements rq))).
    by destruct (predicate_try_from _). }
  intros p x1 _. apply pfree_bind.
  { destruct (predicate_image_id p); [apply pfree_rpc|apply pfree_ret]. }
  intros cached x2 _.
  assert (Hup : pfree
    (image_data ← rpc (download (imageUrl rq));
     image_id ← liftr (ok_or "Failed to compute image ID"%string (compute_image_id image_data));
     _ ← match predicate_image_id p with
         | Some id =>
             required_image_id ←
               liftr (ok_or "invalid digest"%string (digest_from_hex (digest_to_string id)));
             if bool_decide (image_id = required_image_id) then mret tt
             else throw "image ID does not match requirements"%string
         | None => mret tt
         end;
     _ ← rpc (upload_image MainProver (digest_to_string image_id) image_data);
     mret (digest_to_string image_id)) x2).
  { apply pfree_bind; [apply pfree_rpc|]. intros d x3 _.
    apply pfree_bind; [apply pfree_ok_or|]. intros i x4 _.
    apply pfree_bind.
    { destruct (predicate_image_id p); [|apply pfree_ret].
      apply pfree_bind; [apply pfree_ok_or|]. intros r x5 _.
      case_bool_decide; [apply pfree_ret|apply pfree_throw]. }
    intros u x5 _. apply pfree_bind; [apply pfree_rpc|]. intros v x6 _. apply pfree_ret. }
  destruct (predicate_image_id p), cached; [apply pfree_ret|exact Hup..].
Qed.

Lemma upload_input_pfree rq x : pfree (upload_order_input rq) x.
Proof.
  unfold upload_order_input. destruct (inputType (input rq)); [| |apply pfree_throw].
  - apply pfree_bind; [apply pfree_ok_or|]. intros s x1 _. apply pfree_rpc.
  - apply pfree_bind; [apply pfree_ok_or|]. intros uri x1 _. apply pfree_bind.
    { destruct (priority_check _); apply pfree_rpc. }
    intros d x2 _. apply pfree_bind; [apply pfree_ok_or|]. intros s x3 _. apply pfree_rpc.
Qed.

Lemma process_order_pfree cmd x : pfree (risc0_process_order self cmd) x.
Proof.
  unfold risc0_process_order. destruct (po_backend_state cmd) as [raw|].
  - apply pfree_bind; [apply order_state_decode_pfree|]. intros s x1 _.
    apply pfree_bind; [apply pfree_rpc|]. intros u x2 _.
    destruct (negb _ && _) eqn:Eb; [|apply pfree_ret].
    apply andb_prop in Eb as [Ec%negb_true_iff _]. apply bool_decide_eq_false in Ec.
    apply pfree_bind; [by apply compress_pfree|]. intros c x3 _.
    apply pfree_bind; [apply pfree_ok_or|]. intros s' x4 _. apply pfree_ret.
  - apply pfree_bind.
    { apply pfree_bind; [destruct (po_image_id cmd); [apply pfree_ret|apply upload_image_pfree]|].
      intros i x1 _.
      apply pfree_bind; [destruct (po_input_id cmd); [apply pfree_ret|apply upload_input_pfree]|].
      intros j x2 _. apply pfree_rpc. }
    intros p x1 _. apply pfree_bind; [apply pfree_ok_or|]. intros s x2 _. apply pfree_ret.
Qed.

(** A step that answers a state leaves fewer of them. *)
Lemma progress_decreases cmd x raw x' :
  risc0_process_order self cmd x = (Ok (InProgress raw), x') ->
  (steps_left (with_order_state cmd raw) < steps_left cmd)%nat.
Proof.
  unfold risc0_process_order, steps_left at 2. destruct (po_backend_state cmd) as [raw0|]; intros Hr.
  - bind_step Hr s x1 Es. apply liftr_Ok in Es as [Es ->]. bind_step Hr u x2 Eu. rewrite Es.
    unfold order_compression.
    destruct (negb _ && _) eqn:Eb; [|done].
    apply andb_prop in Eb as [Ec%negb_true_iff Eo]. apply bool_decide_eq_false in Ec.
    apply bool_decide_eq_true in Eo.
    bind_step Hr c x3 Ecp. bind_step Hr s' x4 Esc. apply liftr_Ok in Esc as [Esc ->].
    injection Hr as -> ->. apply order_state_roundtrip in Esc;
      [|exact (order_state_decode_version _ _ Es)].
    unfold steps_left. cbn [with_order_state po_backend_state].
    rewrite Esc. cbn [os_compressed_proof_id].
    repeat case_decide; (done || lia).
  - bind_step Hr p x1 Ep. bind_step Hr s' x2 Esc. apply liftr_Ok in Esc as [Esc ->].
    injection Hr as -> ->. apply order_state_roundtrip in Esc; [|done].
    unfold steps_left. cbn [with_order_state po_backend_state]. rewrite Esc.
    unfold order_compression. cbn [po_request with_order_state].
    repeat case_decide; (done || lia).
Qed.

(** What a completed order says. *)
Definition completed_right (cmd : ProcessOrder) (p : ProcessedOrder) : Prop :=
  pr_backend_id p = r0_id self /\ pr_order_id p = po_order_id cmd
  /\ (submission_path p = Direct <-> order_compression cmd <> CtNone)
  /\ (submission_path p = Direct -> compressed p = true).

Lemma completed_spec cmd x p x' :
  risc0_process_order self cmd x = (Ok (Completed p), x') -> completed_right cmd p.
Proof.
  unfold risc0_process_order. destruct (po_backend_state cmd) as [raw0|]; intros Hr.
  - bind_step Hr s x1 Es. bind_step Hr u x2 Eu.
    destruct (negb _ && _) eqn:Eb.
    { bind_step Hr c x3 Ecp. by bind_step Hr s' x4 Esc. }
    injection Hr as <- <-. unfold completed_right, order_compression.
    cbn [pr_backend_id pr_order_id submission_path compressed].
    split_and!; [done|done|apply direct_compressed|].
    intros Hd%direct_compressed. apply andb_false_iff in Eb as [Eb|Eb].
    + apply negb_false_iff, bool_decide_eq_true in Eb. done.
    + apply bool_decide_eq_false in Eb. apply bool_decide_eq_true.
      destruct (os_compressed_proof_id s); [by eexists|done].
  - bind_step Hr p' x1 Ep. by bind_step Hr s' x2 Esc.
Qed.

Lemma drive_ends n cmd x :
  (steps_left cmd <= n)%nat ->
  exists r x', drive (S n) cmd x = Some (r, x') /\ r <> Panic
    /\ (forall p, r = Ok p -> completed_right cmd p).
Proof.
  revert cmd x. induction n as [|n IH]; intros cmd x Hs; cbn [drive];
    pose proof (process_order_pfree cmd x) as Hp;
    destruct (risc0_process_order self cmd x) as [[[raw|p]|e|] x'] eqn:Er.
  all: try (by eexists _, _; split_and!; [done|done|done]).
  all: try (by destruct (Hp x')).
  all: try (eexists _, _; split_and!; [done|done|]; intros p' [= <-]; by eapply completed_spec).
  - apply progress_decreases in Er. lia.
  - apply progress_decreases in Er.
    destruct (IH (with_order_state cmd raw) x') as (r & x2 & Hd & Hnp & Hok); [lia|].
    exists r, x2. split_and!; [exact Hd|done|]. intros p Hp'. by apply Hok in Hp'.
Qed.

Lemma steps_left_2 cmd : (steps_left cmd <= 2)%nat.
Proof.
  unfold steps_left. destruct (po_backend_state cmd) as [raw|].
  - destruct (order_state_decode raw); repeat case_decide; lia.
  - case_decide; lia.
Qed.

End Progress.

(** C27. Proving an order comes to an end: whatever state it is taken up in, after three
    calls of [process_order] (start the proof, wait and compress, wait and report)
    the backend has answered a completed order or an error, and it never panics.  A
    completed order is the one asked for, goes straight to the market exactly when
    its selector needs a compressed proof, and then has one. *)
Theorem risc0_order_completes {G I R B} `{OrderStateCodec G I R B} {X}
    `{Risc0Env R X} (self : Risc0Backend X) cmd x :
  exists r x', drive self 3 cmd x = Some (r, x') /\ r <> Panic
    /\ (forall p, r = Ok p -> completed_right self cmd p).
Proof. apply drive_ends, steps_left_2. Qed.

(** ** The plan accounts for every order *)

Section BuildSpec.
Context `{Externals} {G I R B : Type} `{Risc0Lib G I R B} {X : Type} `{Risc0Env R X}.
Variable self : Risc0Backend X.

(** The state of the order [id] in a command: that of the last order under this
    identifier that has one. *)
Definition order_state_of (orders : list FulfillmentOrder) (id : string) (os : Risc0OrderState)
    : Prop :=
  exists before fo after raw, orders = before ++ fo :: after /\ fo_order_id fo = id
    /\ fo_backend_state fo = Some raw /\ order_state_decode raw = Ok os
    /\ forall fo', fo' ∈ after -> fo_order_id fo' = id -> fo_backend_state fo' = None.

(** The fulfillment of an order in state [os] whose proof has the given journal, which
    the prover answered just before [x]. *)
Definition fulfillment_right (state : Risc0BatchState G) (params : bytes) (os : Risc0OrderState)
    (journal : bytes) (x : X) (fo : FulfillmentOrder) (f : Fulfillment) : Prop :=
  let claim := claim_ok (fo_program_id fo) (sha256 journal) in
  let pred := predicate (requirements (fo_request fo)) in
  let sel := normalize_selector self (selector (requirements (fo_request fo))) in
  match predicateType pred with
  | PtClaimDigestMatch =>
      claimDigest f = predicateData pred /\ digest_wf (claimDigest f)
      /\ fulfillmentDataType f = FdtNone /\ fulfillmentData f = []
  | PtPrefixMatch | PtDigestMatch =>
      claimDigest f = claim_digest claim /\ fulfillmentDataType f = FdtImageIdAndJournal
      /\ fulfillmentData f = abi_encode_fd (fo_program_id fo, journal)
  | PtInvalid => False
  end
  /\ (if is_groth16_selector sel || is_blake3_groth16_selector sel
      then exists compressed x', os_compressed_proof_id os = Some compressed
             /\ encode_seal_for_selector self sel compressed x = (Ok (f_seal f), x')
      else exists idx, claim_digests state !! idx = Some (claim_digest claim)
             /\ inclusion_seal claim (merkle_path (claim_digests state) idx) params
                = Some (f_seal f)).

(** In a run of the loop over [orders] from [x0], the turn of [fo] comes in [x1]. *)
Definition turn_of (state : Risc0BatchState G) (params : bytes)
    (states : gmap string Risc0OrderState) (orders : list FulfillmentOrder) (x0 : X)
    (fo : FulfillmentOrder) (x1 : X) : Prop :=
  exists before after built failed, orders = before ++ fo :: after
    /\ build_orders self state params states before x0 = (Ok (built, failed), x1).

(** The artifact of an order: from the journal of the proof in the order's own state,
    as the prover answered it in the order's turn. *)
Definition artifact_right (state : Risc0BatchState G) (params : bytes)
    (states : gmap string Risc0OrderState) (orders : list FulfillmentOrder) (x0 : X)
    (fo : FulfillmentOrder) (a : OrderFulfillmentArtifact) : Prop :=
  art_order_id a = fo_order_id fo /\ art_request a = fo_request fo
  /\ exists os journal x1 x2,
       order_state_of orders (fo_order_id fo) os
       /\ turn_of state params states orders x0 fo x1
       /\ get_journal MainProver (os_proof_id os) x1 = (inr (Some journal), x2)
       /\ fulfillment_right state params os journal x2 fo (art_fulfillment a).

Lemma decode_order_states_Ok orders m states id os :
  decode_order_states orders m = Ok states -> states !! id = Some os ->
  order_state_of orders id os
  \/ m !! id = Some os
     /\ forall fo, fo ∈ orders -> fo_order_id fo = id -> fo_backend_state fo = None.
Proof.
  revert m. induction orders as [|o orders IH]; intros m Hd Hl; cbn [decode_order_states] in Hd.
  { injection Hd as <-. right. split; [done|]. by intros fo ?%not_elem_of_nil. }
  assert (order_state_of orders id os -> order_state_of (o :: orders) id os) as Hcons.
  { intros (p & fo & q & raw & -> & Hrest). by exists (o :: p), fo, q, raw. }
  destruct (fo_backend_state o) as [raw|] eqn:Eo.
  - apply result_bind_Ok in Hd as (s & Hs & Hd).
    destruct (IH _ Hd Hl) as [|[Hm Hno]]; [auto|].
    destruct (decide (fo_order_id o = id)) as [<-|Hne].
    + rewrite lookup_insert_eq in Hm. injection Hm as ->. left.
      by exists [], o, orders, raw.
    + rewrite lookup_insert_ne in Hm by done. right. split; [done|].
      intros fo [->|Hin]%elem_of_cons Hid; [done|auto].
  - destruct (IH _ Hd Hl) as [|[Hm Hno]]; [auto|]. right. split; [done|].
    intros fo [->|Hin]%elem_of_cons Hid; auto.
Qed.

Lemma call_Ok {A} (m : st X (string + A)) x a x' :
  rpc m x = (Ok a, x') -> m x = (inr a, x').
Proof.
  unfold rpc, lift, mbind, ste_bind. destruct (m x) as [[e|b] x1]; [done|].
  by intros [= -> ->].
Qed.

Lemma rpc_some_Ok {A} missing (m : st X (string + option A)) x a x' :
  rpc_some missing m x = (Ok a, x') -> m x = (inr (Some a), x').
Proof.
  unfold rpc_some. intros Hr. bind_step Hr r x1 Er. apply call_Ok in Er.
  apply liftr_Ok in Hr as [Hr ->]. by destruct r; [injection Hr as ->|].
Qed.

Lemma liftr_ok_or {E A} (e : E) (o : option A) (x : X) a x' :
  liftr (ok_or e o) x = (Ok a, x') -> o = Some a /\ x' = x.
Proof. intros [Hr ->]%liftr_Ok. by destruct o; [injection Hr as ->|]. Qed.

Lemma position_lookup d ds idx : position d ds = Some idx -> ds !! idx = Some d.
Proof.
  unfold position. destruct (list_find _ ds) as [[i y]|] eqn:E; [|done]. intros [= <-].
  apply list_find_Some in E as (Hl & -> & _). done.
Qed.

Lemma path_seal_Ok state params leaf claim (x : X) seal x' :
  liftr (path_seal state params leaf claim) x = (Ok seal, x') ->
  exists idx, claim_digests state !! idx = Some leaf
    /\ inclusion_seal claim (merkle_path (claim_digests state) idx) params = Some seal.
Proof.
  intros [Hr _]%liftr_Ok. unfold path_seal in Hr.
  apply result_bind_Ok in Hr as (idx & Hidx & Hr).
  destruct (position leaf _) as [i|] eqn:Ep; [|done]. injection Hidx as ->.
  exists idx. split; [by apply position_lookup|].
  by destruct (inclusion_seal _ _ _); [injection Hr as ->|].
Qed.

Lemma build_order_Ok state params states fo x a x' :
  build_order self state params states fo x = (Ok a, x') ->
  art_order_id a = fo_order_id fo /\ art_request a = fo_request fo
  /\ exists os journal x2, states !! fo_order_id fo = Some os
       /\ get_journal MainProver (os_proof_id os) x = (inr (Some journal), x2)
       /\ fulfillment_right state params os journal x2 fo (art_fulfillment a).
Proof.
  unfold build_order. intros Hr.
  bind_step Hr os x1 Eos. apply liftr_ok_or in Eos as [Eos ->].
  bind_step Hr journal x2 Ej. apply rpc_some_Ok in Ej.
  bind_step Hr sl x3 Es. bind_step Hr d x4 Ed. destruct d as [[digest data] ty].
  injection Hr as <- <-. split_and!; [done|done|].
  exists os, journal, x2. split_and!; [done|done|]. split; cbn [art_fulfillment claimDigest
    fulfillmentDataType fulfillmentData f_seal].
  - destruct (predicateType _).
    + by injection Ed as <- <- <- _.
    + by injection Ed as <- <- <- _.
    + bind_step Ed d x5 Ed1. apply liftr_ok_or in Ed1 as [Ed1 ->]. injection Ed as <- <- <- _.
      unfold digest_try_from in Ed1. case_decide as Hlen; [|done]. injection Ed1 as <-. done.
    + done.
  - destruct (is_groth16_selector _ || _); [|by apply path_seal_Ok in Es].
    bind_step Es cid x5 Ecid. apply liftr_ok_or in Ecid as [Ecid ->]. by exists cid, x3.
Qed.

Lemma turn_of_head state params states fo orders x :
  turn_of state params states (fo :: orders) x fo x.
Proof. by exists [], orders, [], []. Qed.

Lemma turn_of_cons state params states fo0 orders x r x1 fo y :
  catch (E := string) (F := string) (build_order self state params states fo0) x = (Ok r, x1) ->
  turn_of state params states orders x1 fo y ->
  turn_of state params states (fo0 :: orders) x fo y.
Proof.
  intros Hc (p & q & built & failed & -> & Hp).
  destruct r as [e|a]; eexists (fo0 :: p), q, _, _; (split; [done|]);
    cbn [build_orders]; unfold mbind, ste_bind; rewrite Hc; fold @build_orders; by rewrite Hp.
Qed.

(** What one order's turn made. *)
Definition made state params states orders x fo a : Prop :=
  art_order_id a = fo_order_id fo /\ art_request a = fo_request fo
  /\ exists os journal x1 x2, states !! fo_order_id fo = Some os
       /\ turn_of state params states orders x fo x1
       /\ get_journal MainProver (os_proof_id os) x1 = (inr (Some journal), x2)
       /\ fulfillment_right state params os journal x2 fo (art_fulfillment a).

Lemma made_cons state params states fo0 orders x r x1 fo a :
  catch (E := string) (F := string) (build_order self state params states fo0) x = (Ok r, x1) ->
  made state params states orders x1 fo a -> made state params states (fo0 :: orders) x fo a.
Proof.
  intros Hc (Hid & Hrq & os & j & y & y' & Hos & Ht & Hj & Hf). split_and!; [done..|].
  exists os, j, y, y'. split_and!; [done|by eapply turn_of_cons|done..].
Qed.

Lemma build_orders_Ok state params states orders x built failed x' :
  build_orders self state params states orders x = (Ok (built, failed), x') ->
  (length built + length failed = length orders)%nat
  /\ (forall fo, fo ∈ orders -> fo_order_id fo ∈ map ff_order_id failed
        \/ exists a, a ∈ built /\ made state params states orders x fo a)
  /\ (forall a, a ∈ built -> exists fo, fo ∈ orders /\ made state params states orders x fo a).
Proof.
  revert x built failed x'. induction orders as [|fo orders IH]; intros x built failed x' Hr;
    cbn [build_orders] in Hr.
  - injection Hr as <- <- _. split_and!; [done|by intros ? ?%elem_of_nil..].
  - bind_step Hr r x1 Er. bind_step Hr p x2 Ep. destruct p as [built' failed'].
    apply IH in Ep as (Hlen & Hc & Hs). pose proof Er as Ec. unfold catch in Er.
    destruct (build_order self state params states fo x) as [[a|e|] x3] eqn:Eb; [| |done];
      injection Er as <- <-; injection Hr as <- <- _.
    + apply build_order_Ok in Eb as (Hid & Hrq & os & j & y & Hos & Hj & Hf).
      assert (made state params states (fo :: orders) x fo a) as Hm.
      { split_and!; [done..|]. exists os, j, x, y. split_and!; [done|apply turn_of_head|done..]. }
      split_and!; [simpl; lia| |].
      * intros fo' [->|Hin]%elem_of_cons; [right; exists a; split; [left|done]|].
        destruct (Hc _ Hin) as [|(a' & Ha' & Hr')]; [by left|right].
        exists a'. split; [by right|by eapply made_cons].
      * intros a' [->|Hin]%elem_of_cons; [exists fo; split; [left|done]|].
        destruct (Hs _ Hin) as (fo' & Hfo' & Hr'). exists fo'. split; [by right|by eapply made_cons].
    + split_and!; [simpl; lia| |].
      * intros fo' [->|Hin]%elem_of_cons; [left; left|].
        destruct (Hc _ Hin) as [|(a' & Ha' & Hr')]; [left; by right|right].
        exists a'. split; [done|by eapply made_cons].
      * intros a' Hin. destruct (Hs _ Hin) as (fo' & Hfo' & Hr'). exists fo'.
        split; [by right|by eapply made_cons].
Qed.

(** The roots that go with a batch state. *)
Definition updates_right (state : Risc0BatchState G) (updates : list VerifierUpdate) : Prop :=
  match bs_compressed_proof_id state with
  | None => updates = []
  | Some _ => exists verifier seal,
      set_verifier_addr self = Some verifier
      /\ updates = [SubmitMerkleRoot verifier (bytes_to_u256 (merkle_root (claim_digests state))) seal]
      /\ claim_digests state <> []
      /\ mmr_is_finalized (guest_state state) = true
      /\ mmr_finalized_root (guest_state state) = Some (merkle_root (claim_digests state))
  end.

Lemma root_updates_Ok state verifier x updates x' :
  set_verifier_addr self = Some verifier ->
  root_updates state verifier x = (Ok updates, x') -> updates_right state updates.
Proof.
  intros Hv Hr. unfold root_updates in Hr. unfold updates_right.
  destruct (bs_compressed_proof_id state) as [id|]; [|by injection Hr].
  case_bool_decide as Hd; [done|]. destruct (mmr_is_finalized _) eqn:Ef; [|done]. simpl in Hr.
  bind_step Hr root x1 Er. apply liftr_Ok in Er as [Er ->].
  destruct (mmr_finalized_root (guest_state state)) as [root'|] eqn:Em; [|done].
  injection Er as <-. case_bool_decide as Hroot; [|done]. simpl in Hr.
  bind_step Hr sl x2 Es. injection Hr as <- _. exists verifier, sl. by rewrite <- Hroot.
Qed.

(** The plan of a command, for the batch state it carries. *)
Definition plan_right (cmd : FulfillmentBatch) (x : X) (plan : SubmissionPlan)
    (state : Risc0BatchState G) : Prop :=
  exists raw program_id verifier states x0,
    fb_backend_id cmd = r0_id self /\ fb_state cmd = Some raw
    /\ from_backend_state raw = Ok state
    /\ set_builder_program_id self = Some program_id
    /\ set_verifier_addr self = Some verifier
    /\ root_updates state verifier x = (Ok (verifier_updates plan), x0)
    /\ updates_right state (verifier_updates plan)
    /\ decode_order_states (fb_orders cmd) ∅ = Ok states
    /\ (length (plan_orders plan) + length (failed_orders plan) = length (fb_orders cmd))%nat
    /\ let right := artifact_right state (inclusion_params_digest program_id) states
                      (fb_orders cmd) x0 in
       (forall fo, fo ∈ fb_orders cmd -> fo_order_id fo ∈ map ff_order_id (failed_orders plan)
          \/ exists a, a ∈ plan_orders plan /\ right fo a)
       /\ (forall a, a ∈ plan_orders plan -> exists fo, fo ∈ fb_orders cmd /\ right fo a).

Lemma build_spec cmd x plan x' :
  risc0_build_fulfillments self cmd x = (Ok plan, x') ->
  exists state, plan_right cmd x plan state.
Proof.
  unfold risc0_build_fulfillments. intros Hr. case_bool_decide as Hid; [|done]. simpl in Hr.
  bind_step Hr raw x1 E1. apply liftr_ok_or in E1 as [E1 ->].
  bind_step Hr state x2 E2. apply liftr_Ok in E2 as [E2 ->].
  bind_step Hr program_id x3 E3. apply liftr_ok_or in E3 as [E3 ->].
  bind_step Hr verifier x4 E4. apply liftr_ok_or in E4 as [E4 ->].
  bind_step Hr updates x5 E5.
  bind_step Hr states x6 E6. apply liftr_Ok in E6 as [E6 ->].
  bind_step Hr p x7 E7. destruct p as [built failed].
  apply build_orders_Ok in E7 as (Hlen & Hcover & Hsound).
  bind_step Hr sgd x8 E8. bind_step Hr sl x9 E9. injection Hr as <- _.
  assert (forall fo a,
    made state (inclusion_params_digest program_id) states (fb_orders cmd) x5 fo a ->
    artifact_right state (inclusion_params_digest program_id) states (fb_orders cmd) x5 fo a)
    as Hmade.
  { intros fo a (? & ? & os & j & y & y' & Hos & Hrest). split_and!; [done..|].
    exists os, j, y, y'. split; [|done].
    by destruct (decode_order_states_Ok _ _ _ _ _ E6 Hos) as [|[Hm _]]. }
  exists state, raw, program_id, verifier, states, x5. cbn [verifier_updates plan_orders failed_orders].
  split_and!; try done; [by eapply root_updates_Ok|..].
  - intros fo Hin. destruct (Hcover fo Hin) as [|(a & Ha & Hm)]; [by left|right]. eauto.
  - intros a Ha. destruct (Hsound a Ha) as (fo & Hin & Hm). eauto.
Qed.

Lemma artifact_answers state params states orders x0 fo a :
  artifact_right state params states orders x0 fo a ->
  answers_request (art_request a) (art_fulfillment a).
Proof.
  intros (_ & -> & os & j & x1 & x2 & _ & _ & _ & Hf & _). unfold answers_request.
  destruct (predicateType _); naive_solver.
Qed.

End BuildSpec.

(** What the submitter relies on: the laws of plans of its interface. *)
Lemma risc0_plan_laws `{Externals} {G I R B} `{Risc0Lib G I R B} {X} `{Risc0Env R X}
    (self : Risc0Backend X) cmd x plan x' :
  risc0_build_fulfillments self cmd x = (Ok plan, x') ->
  (forall fo, fo ∈ fb_orders cmd ->
     fo_order_id fo ∈ (ff_order_id <$> failed_orders plan)
     \/ fo_order_id fo ∈ (art_order_id <$> plan_orders plan))
  /\ (forall a, a ∈ plan_orders plan ->
     exists fo, fo ∈ fb_orders cmd /\ art_order_id a = fo_order_id fo
       /\ art_request a = fo_request fo /\ answers_request (art_request a) (art_fulfillment a)).
Proof.
  intros (state & raw & pid & v & states & x0 & _ & _ & _ & _ & _ & _ & _ & _ & _ & Hc & Hs)%build_spec.
  split.
  - intros fo Hin. destruct (Hc _ Hin) as [|(a & Ha & Hid & _)]; [by left|right].
    rewrite <- Hid. by apply list_elem_of_fmap_2.
  - intros a (fo & Hfo & Hr)%Hs. pose proof Hr as Hans%artifact_answers.
    destruct Hr as (Hid & Hrq & _). eauto.
Qed.

(** ** What aggregation adds to a batch *)

Section Aggregate.
Context {G I R B : Type} `{BatchStateCodec G I R B} {X : Type} `{Risc0Env R X}.
Variable self : Risc0BatchProcessor.

(** The prover's answer about a proof is a receipt that verifies, with the claim. *)
Definition verified (answer : string + option R) (claim : ReceiptClaim) : Prop :=
  exists receipt, answer = inr (Some receipt) /\ verify_integrity receipt = true
    /\ receipt_claim receipt = Some (Value claim).

(** The claims of proofs, each as the prover answers in turn from [x] to [x']: the
    proofs whose receipt verifies are taken, with the journal of the claim pruned,
    and the others are passed over. *)
Inductive aggregated : list string -> X -> list (string * ReceiptClaim) -> X -> Prop :=
| aggregated_nil x : aggregated [] x [] x
| aggregated_taken id ids x answer x1 claim valid x' :
    get_receipt_of id x = (answer, x1) -> verified answer claim -> aggregated ids x1 valid x' ->
    aggregated (id :: ids) x ((id, prune_receipt_claim_journal claim) :: valid) x'
| aggregated_passed id ids x answer x1 valid x' :
    get_receipt_of id x = (answer, x1) -> (forall claim, ~ verified answer claim) ->
    aggregated ids x1 valid x' -> aggregated (id :: ids) x valid x'.

(** The proof that a new order brings into the aggregation: that of its state, unless
    it is compressed on its own. *)
Definition brings (o : BatchOrder) : option string :=
  raw ← pd_backend_state (bo_proving o);
  match order_state_decode raw with
  | Ok (mkOrderState _ proof_id None) => Some proof_id
  | _ => None
  end.

Definition batched_ids (orders : list BatchOrder) : list string := omap brings orders.

Lemma batched_proofs_ids orders proofs :
  batched_proofs orders = Ok proofs -> proofs = batched_ids orders.
Proof.
  revert proofs. induction orders as [|o orders IH]; intros proofs Hr; cbn [batched_proofs] in Hr.
  { by injection Hr as <-. }
  apply result_bind_Ok in Hr as (raw & Hraw & Hr). apply result_bind_Ok in Hr as (s & Hs & Hr).
  apply result_bind_Ok in Hr as (rest & Hrest & Hr). apply IH in Hrest as ->. injection Hr as <-.
  assert (brings o = match s with mkOrderState _ id None => Some id | _ => None end) as Hb.
  { unfold brings. destruct (pd_backend_state (bo_proving o)); [injection Hraw as ->|done].
    simpl. by rewrite Hs. }
  unfold batched_ids. cbn [omap list_omap]. rewrite Hb. by destruct s as [? ? [|]].
Qed.

Lemma batch_state_roundtrip (s : Risc0BatchState G) raw :
  bs_version s <= RISC0_BATCH_STATE_VERSION ->
  into_backend_state s = Ok raw -> from_backend_state raw = Ok s.
Proof.
  intros Hv. unfold into_backend_state, from_backend_state.
  destruct (batch_state_to_json s) as [b|] eqn:E; [|done]. intros [= <-].
  rewrite (batch_state_codec _ _ E). simpl. by rewrite (proj2 (Z.leb_le _ _) Hv).
Qed.

Lemma batch_state_version raw (s : Risc0BatchState G) :
  from_backend_state raw = Ok s -> bs_version s <= RISC0_BATCH_STATE_VERSION.
Proof.
  unfold from_backend_state. intros (d & _ & Hd)%result_bind_Ok.
  destruct (Z.leb_spec (bs_version d) RISC0_BATCH_STATE_VERSION); [by injection Hd as <-|done].
Qed.

Lemma validate_cases id x r x' :
  catch (E := string) (F := string) (validate_and_extract_claim id) x = (Ok r, x') ->
  exists answer, get_receipt_of id x = (answer, x')
    /\ match r with
       | inr c => exists claim, verified answer claim /\ c = prune_receipt_claim_journal claim
       | inl _ => forall claim, ~ verified answer claim
       end.
Proof.
  unfold validate_and_extract_claim, rpc_some, rpc, catch, lift, mbind, ste_bind, liftr, ok_or.
  destruct (get_receipt_of id x) as [[e|[receipt|]] x1]; simpl.
  - intros [= <- <-]. eexists. split; [done|]. by intros c (? & ? & _).
  - destruct (verify_integrity receipt) eqn:Ev; simpl.
    2: { intros [= <- <-]. eexists. split; [done|]. intros c (? & [= <-] & ? & _). congruence. }
    destruct (receipt_claim receipt) as [[claim|d]|] eqn:Ec; simpl; intros [= <- <-];
      (eexists; split; [done|]).
    + exists claim. split; [|done]. by exists receipt.
    + intros c (? & [= <-] & _ & ?). congruence.
    + intros c (? & [= <-] & _ & ?). congruence.
  - intros [= <- <-]. eexists. split; [done|]. by intros c (? & ? & _).
Qed.

Lemma valid_claims_Ok proofs x valid x' :
  valid_claims proofs x = (Ok valid, x') -> aggregated proofs x valid x'.
Proof.
  revert x valid x'. induction proofs as [|id proofs IH]; intros x valid x' Hr;
    cbn [valid_claims] in Hr; [injection Hr as <- <-; constructor|].
  bind_step Hr r x1 Er. bind_step Hr rest x2 Erest. apply IH in Erest.
  apply validate_cases in Er as (answer & Ha & Hv).
  destruct r as [e|c]; injection Hr as <- <-; [by eapply aggregated_passed|].
  destruct Hv as (claim & Hv & ->). by eapply aggregated_taken.
Qed.

(** The claims that a batch state has, if there is one. *)
Definition digests_of (state : option bytes) : list bytes :=
  match state_option state with
  | Ok (Some s) => claim_digests s
  | _ => []
  end.

Lemma prove_set_builder_Ok state proofs finalize x raw x' :
  prove_set_builder self state proofs finalize x = (Ok raw, x') ->
  exists s valid x1, from_backend_state raw = Ok s
    /\ aggregated proofs x valid x1
    /\ claim_digests s = digests_of state ++ map claim_digest (map snd valid)
    /\ is_Some (bs_proof_id s).
Proof.
  unfold prove_set_builder. intros Hr. bind_step Hr agg x1 E1. apply liftr_Ok in E1 as [E1 ->].
  bind_step Hr valid x2 E2. apply valid_claims_Ok in E2.
  destruct (map snd valid) as [|c0 cs] eqn:Ec; [done|]. rewrite <- Ec in Hr.
  bind_step Hr inp x3 E3. bind_step Hr data x4 E4. bind_step Hr iid x5 E5.
  bind_step Hr policy x6 E6. bind_step Hr pj x7 E7. destruct pj as [pid journal].
  bind_step Hr gs x8 E8. apply liftr_Ok in Hr as [Hr _].
  eexists _, valid, x2.
  split; [by apply batch_state_roundtrip; [|exact Hr]|]. cbn [claim_digests bs_proof_id].
  split_and!; [done| |by eexists].
  f_equal. unfold digests_of. rewrite E1. by destruct agg.
Qed.

Lemma update_batch_inv cmd x u x' :
  risc0_update_batch self cmd x = (Ok u, x') ->
  exists skip new s0 s raw assessor x1,
    skip_assessor_guest self cmd = Ok skip
    /\ batched_proofs (ub_new_orders cmd) = Ok new
    /\ (is_Some assessor <-> ub_finalize cmd = true /\ skip = false)
    /\ from_backend_state raw = Ok s0 /\ s = with_assessor_proof s0 assessor
    /\ from_backend_state (bu_state u) = Ok s /\ bu_finalize u = ub_finalize cmd
    /\ match assessor with
       | Some id =>
           prove_assessor self (ub_existing_orders cmd ++ map bo_proving (ub_new_orders cmd)) x
           = (Ok id, x1)
       | None => x1 = x
       end
    /\ match new ++ match assessor with Some id => [id] | None => [] end with
       | [] => carried_state self (ub_state cmd) = Ok raw
       | proofs => exists x2,
           prove_set_builder self (ub_state cmd) proofs (ub_finalize cmd) x1 = (Ok raw, x2)
       end.
Proof.
  unfold risc0_update_batch. intros Hr. bind_step Hr skip x1 E1. apply liftr_Ok in E1 as [E1 ->].
  bind_step Hr assessor x2 E2. bind_step Hr new x3 E3. apply liftr_Ok in E3 as [E3 ->].
  bind_step Hr raw x4 E4. bind_step Hr s0 x5 E5. apply liftr_Ok in E5 as [E5 ->].
  bind_step Hr raw' x6 E6. apply liftr_Ok in E6 as [E6 ->]. injection Hr as <- _.
  exists skip, new, s0, (with_assessor_proof s0 assessor), raw, assessor, x2.
  split_and!; try done.
  - destruct (ub_finalize cmd && negb skip) eqn:Eg.
    + bind_step E2 aid x7 E7. injection E2 as <- _.
      apply andb_prop in Eg as [Eg1 Eg2%negb_true_iff]. split; [done|by eexists].
    + injection E2 as <- _. apply andb_false_iff in Eg.
      split; [by intros [? [=]]|]. intros [Hf ->]. simpl in Eg. destruct Eg; congruence.
  - apply batch_state_roundtrip; [by apply batch_state_version in E5|done].
  - destruct (ub_finalize cmd && negb skip).
    + bind_step E2 aid x7 E7. by injection E2 as <- <-.
    + by injection E2 as <- <-.
  - destruct (new ++ _); [by apply liftr_Ok in E4 as [? _]|eauto].
Qed.

(** The carried state has the claims that were there. *)
Lemma carried_state_Ok state raw :
  carried_state self state = Ok raw ->
  exists s, from_backend_state raw = Ok s /\ claim_digests s = digests_of state
    /\ (forall raw0 s0, state = Some raw0 -> from_backend_state raw0 = Ok s0 -> s = s0).
Proof.
  unfold carried_state, digests_of, state_option. intros Hr.
  apply result_bind_Ok in Hr as (s & Hs & Hr). exists s.
  destruct state as [raw0|].
  - rewrite Hs. simpl. pose proof (batch_state_version _ _ Hs) as Hv.
    split; [by apply batch_state_roundtrip|]. split; [done|].
    intros raw1 s0 [= <-] Hs0. congruence.
  - injection Hs as <-. split; [by apply batch_state_roundtrip|done].
Qed.

(** The last call before a batch is submitted finds no proofs to aggregate. *)
Lemma finalize_without_proofs cmd x u x' raw s :
  risc0_update_batch self cmd x = (Ok u, x') ->
  ub_state cmd = Some raw -> from_backend_state raw = Ok s ->
  skip_assessor_guest self cmd = Ok true -> batched_proofs (ub_new_orders cmd) = Ok [] ->
  from_backend_state (bu_state u) = Ok (with_assessor_proof s None).
Proof.
  intros (skip & new & s0 & s' & raw0 & assessor & x1 & Hskip & Hnew & Ha & Hs0 & -> & Hs' & _ & _ & Hc)%update_batch_inv
    Hst Hs Hsk Hnil.
  rewrite Hskip in Hsk. injection Hsk as ->. rewrite Hnew in Hnil. injection Hnil as ->.
  destruct assessor as [a|]; [by destruct (proj1 Ha (mk_is_Some _ _ eq_refl))|].
  simpl in Hc. apply carried_state_Ok in Hc as (s1 & Hs1 & _ & Heq).
  rewrite Hs0 in Hs1. injection Hs1 as <-. by rewrite Hs', (Heq _ _ Hst Hs).
Qed.

Lemma close_batch_Ok cmd x c x' raw s :
  risc0_close_batch cmd x = (Ok c, x') ->
  cb_state cmd = Some raw -> from_backend_state raw = Ok s ->
  exists s', from_backend_state (bc_state c) = Ok s'
    /\ guest_state s' = guest_state s /\ claim_digests s' = claim_digests s
    /\ (is_Some (bs_proof_id s) -> is_Some (bs_compressed_proof_id s')).
Proof.
  unfold risc0_close_batch. intros Hr Hst Hs. rewrite Hst in Hr. simpl in Hr.
  bind_step Hr raw1 x1 E1. injection E1 as <- <-.
  bind_step Hr s1 x2 E2. apply liftr_Ok in E2 as [E2 ->]. rewrite Hs in E2. injection E2 as <-.
  pose proof (batch_state_version _ _ Hs) as Hv.
  bind_step Hr s2 x3 E3. bind_step Hr raw2 x4 E4. apply liftr_Ok in E4 as [E4 ->].
  injection Hr as <- _. cbn [bc_state].
  destruct (bs_proof_id s) as [pid|] eqn:Ep.
  - bind_step E3 cp x5 E5. injection E3 as <- _. eexists. split; [refine (batch_state_roundtrip _ _ _ E4); exact Hv|].
    split_and!; [done|done|by eexists].
  - injection E3 as <- _. eexists. split; [refine (batch_state_roundtrip _ _ _ E4); exact Hv|].
    split_and!; [done|done|]. by intros [? [=]].
Qed.

End Aggregate.

(** C15. The plan that the backend builds for a batch accounts for each of its orders:
    every order is either among the failed ones or has an artifact, their numbers
    add up, and every artifact is of one of the orders, for its own request.  Its
    claim digest and data are those of the journal that the prover answered, in the
    order's turn, for the proof in the order's own state (or the claim digest that
    the requestor named).  Its seal is the compressed proof of that state where the
    selector needs one, and otherwise a merkle path to the order's claim in the tree
    over the claims of the batch.  The plan submits the root of exactly that tree when
    the batch has a compressed proof of its aggregation, and then that root is the
    finalized one; it submits no root when the batch has none.  A batch that holds an
    aggregation proof and was closed by [close_batch] has the compressed proof, so
    that its root is submitted. *)
Theorem risc0_build_accounts `{Externals} {G I R B} `{Risc0Lib G I R B} {X} `{Risc0Env R X}
    (self : Risc0Backend X) cmd x plan x' :
  risc0_build_fulfillments self cmd x = (Ok plan, x') ->
  exists state, plan_right self cmd x plan state
    /\ (BatchStateCodec ->
        forall close y c y' raw s, risc0_close_batch close y = (Ok c, y') ->
          cb_state close = Some raw -> from_backend_state raw = Ok s ->
          is_Some (bs_proof_id s) -> fb_state cmd = Some (bc_state c) ->
          exists verifier seal, verifier_updates plan
            = [SubmitMerkleRoot verifier (bytes_to_u256 (merkle_root (claim_digests state))) seal]).
Proof.
  intros (state & Hp)%build_spec. exists state. split; [done|].
  intros Hcodec close y c y' raw s Hclose Hcb Hs Hpid Hfb.
  destruct Hp as (raw2 & pid & v & states & x0 & _ & Hraw & Hstate & _ & _ & _ & Hupd & _).
  destruct (close_batch_Ok _ _ _ _ _ _ Hclose Hcb Hs) as (s' & Hs' & _ & _ & Hc).
  rewrite Hfb in Hraw. injection Hraw as <-. rewrite Hs' in Hstate. injection Hstate as ->.
  unfold updates_right in Hupd. destruct (Hc Hpid) as [cid Hcid]. rewrite Hcid in Hupd.
  destruct Hupd as (ver & sl & _ & -> & _). by exists ver, sl.
Qed.

(** C32. Aggregation adds exactly the verified claims of the batch's proofs: after any
    successful [update_batch], the claims of the batch are those it had, in their
    order, followed by the claims of the proofs of the new orders that are not
    compressed on their own, and of the assessor's proof, in this order; each claim is
    that of the receipt that the prover answered for that proof and that verified, and
    a proof whose receipt did not verify adds none.  The assessor is proved over the
    old and the new orders exactly when the batch is finalized for the guest assessor,
    and the state then holds that proof and otherwise none. *)
Theorem update_batch_extends {G I R B} `{BatchStateCodec G I R B} {X}
    `{Risc0Env R X} (self : Risc0BatchProcessor) cmd x u x' :
  risc0_update_batch self cmd x = (Ok u, x') ->
  exists s skip assessor x1 valid x2,
    from_backend_state (bu_state u) = Ok s /\ bu_finalize u = ub_finalize cmd
    /\ skip_assessor_guest self cmd = Ok skip
    /\ match assessor with
       | Some id =>
           prove_assessor self (ub_existing_orders cmd ++ map bo_proving (ub_new_orders cmd)) x
           = (Ok id, x1)
       | None => x1 = x
       end
    /\ (is_Some assessor <-> ub_finalize cmd = true /\ skip = false)
    /\ assessor_proof_id s = assessor
    /\ aggregated (batched_ids (ub_new_orders cmd) ++ option_list assessor) x1 valid x2
    /\ claim_digests s
       = digests_of (ub_state cmd) ++ map (fun p => claim_digest (snd p)) valid.
Proof.
  intros (skip & new & s0 & s & raw & assessor & x1 & Hskip & Hnew%batched_proofs_ids & Ha & Hs0
    & -> & Hs & Hf & Hx & Hc)%update_batch_inv.
  subst new.
  assert (option_list assessor = match assessor with Some id => [id] | None => [] end) as Hol
    by (by destruct assessor). rewrite <- Hol in Hc.
  destruct (batched_ids (ub_new_orders cmd) ++ option_list assessor) as [|p ps] eqn:Ep.
  - apply carried_state_Ok in Hc as (s1 & Hs1 & Hd & _). rewrite Hs0 in Hs1. injection Hs1 as <-.
    exists (with_assessor_proof s0 assessor), skip, assessor, x1, [], x1.
    refine (conj Hs (conj Hf (conj Hskip (conj Hx (conj Ha (conj eq_refl (conj _ _))))))).
    + rewrite Ep. constructor.
    + by rewrite app_nil_r.
  - destruct Hc as (x2 & Hc). apply prove_set_builder_Ok in Hc as (s1 & valid & x3 & Hs1 & Hv & Hd & _).
    rewrite Hs0 in Hs1. injection Hs1 as <-. rewrite map_map in Hd.
    exists (with_assessor_proof s0 assessor), skip, assessor, x1, valid, x3.
    rewrite <- Ep in Hv.
    exact (conj Hs (conj Hf (conj Hskip (conj Hx (conj Ha (conj eq_refl (conj Hv Hd))))))).
Qed.

(** A batch that is finalized without new proofs to aggregate is not finalized in the
    aggregation: under the on-chain assessor the last update carries the state over as it
    is, closing it compresses that proof, and the plan is then refused whenever the
    state was left open by the update before. *)
Lemma unfinalized_batch_stuck `{Externals} {G I R B} `{BatchStateCodec G I R B} {X}
    `{Risc0Env R X} (self : Risc0Backend X) bp cmd cb fb raw s x x1 x2 x3 x4 u c :
  ub_state cmd = Some raw -> from_backend_state raw = Ok s ->
  is_Some (bs_proof_id s) -> mmr_is_finalized (guest_state s) = false ->
  skip_assessor_guest bp cmd = Ok true -> batched_proofs (ub_new_orders cmd) = Ok [] ->
  risc0_update_batch bp cmd x = (Ok u, x1) ->
  cb_state cb = Some (bu_state u) -> risc0_close_batch cb x2 = (Ok c, x3) ->
  fb_state fb = Some (bc_state c) ->
  ~ exists plan x5, risc0_build_fulfillments self fb x4 = (Ok plan, x5).
Proof.
  intros Hst Hs Hp Hm Hskip Hnil Hu Hcb Hclose Hfb (plan & x5 & Hbuild).
  pose proof (finalize_without_proofs _ _ _ _ _ _ _ Hu Hst Hs Hskip Hnil) as Hu'.
  destruct (close_batch_Ok _ _ _ _ _ _ Hclose Hcb Hu') as (s' & Hs' & Hg & _ & Hc').
  apply build_spec in Hbuild as (s2 & raw2 & pid & v0 & states & x0 & _ & Hraw2 & Hs2 & _ & _ & _ & Hupd & _).
  rewrite Hfb in Hraw2. injection Hraw2 as <-. rewrite Hs' in Hs2. injection Hs2 as <-.
  unfold updates_right in Hupd. destruct (Hc' Hp) as [cid Hcid]. rewrite Hcid in Hupd.
  destruct Hupd as (v & sl & _ & _ & _ & Hf & _). rewrite Hg in Hf. simpl in Hf. congruence.
Qed.

(** ** A library and an environment for concrete runs *)

Module ToyRisc0.

(** A state of the set builder is whether it is finalized; JSON is one of two codes
    for an order, and one for a batch. *)
Definition claim : ReceiptClaim := mkClaim (Pruned []) [].

Definition one_claim : Risc0BatchState bool :=
  mkBatchState 1 true [[x01]] (Some "p"%string) (Some "g"%string) (Some "a"%string).

Definition lib : Risc0Lib bool unit bytes bytes := {|
  sha256 := fun b => b;
  digest_to_string := fun _ => ""%string;
  digest_from_hex := fun _ => Some [];
  compute_image_id := fun _ => Some [];
  guest_env_decode := fun b => Some b;
  url_text := fun _ => Some ""%string;
  claim_ok := fun _ _ => claim;
  claim_digest := fun _ => [x01];
  receipt_claim := fun _ => Some (Value claim);
  receipt_journal := fun r => r;
  verify_integrity := fun _ => true;
  receipt_verify := fun _ _ => true;
  receipt_deserialize := fun b => Some b;
  blake3_deserialize := fun b => Some b;
  blake3_verify_integrity := fun _ => true;
  blake3_into := fun b => b;
  encode_seal := fun b => Some b;
  gs_initial := fun _ => false;
  gs_into_input := fun _ _ _ => Some tt;
  gs_decode := fun _ => Some true;
  mmr_is_finalized := fun g => g;
  mmr_finalized_root := fun _ => Some [x01];
  merkle_root := fun _ => [x01];
  merkle_path := fun _ _ => [];
  inclusion_seal := fun _ _ _ => Some [x02];
  inclusion_params_digest := fun b => b;
  encode_input := fun _ => Some [];
  assessor_stdin := fun _ => [];
  assessor_journal_decodes := fun _ => true;
  order_state_from_json := fun b =>
    match b with
    | [] => Some (mkOrderState 1 "p" None)
    | _ => Some (mkOrderState 1 "p" (Some "c"%string))
    end;
  order_state_to_json := fun s =>
    if decide (s = mkOrderState 1 "p" None) then Some []
    else if decide (s = mkOrderState 1 "p" (Some "c"%string)) then Some [x01] else None;
  batch_state_from_json := fun b =>
    match b with
    | [] => Some one_claim
    | _ => Some (mkBatchState 1 true [[x01]] (Some "q"%string) None None)
    end;
  batch_state_to_json := fun s =>
    match s with
    | mkBatchState v g d p c a =>
        if bool_decide (v = 1) && bool_decide (g = true) && bool_decide (d = [[x01]])
           && bool_decide (p = Some "q"%string) && bool_decide (c = None) && bool_decide (a = None)
        then Some [x01] else None
    end;
  FulfillmentBatchAuth_hash := fun _ _ _ _ => [];
  bytes_to_u256 := fun _ => 1;
  selector_bytes := fun _ => [x00; x00; x00; x22]
|}.

Definition answer {A} (a : A) : st unit (string + A) := fun x => (inr a, x).

Definition toy_env : Risc0Env bytes unit := {|
  has_image := fun _ _ => answer true;
  upload_image := fun _ _ _ => answer tt;
  upload_input := fun _ _ => answer "i"%string;
  prove_stark := fun _ _ _ => answer "p"%string;
  prove_and_monitor_stark_high := fun _ _ _ => answer "q"%string;
  wait_for_stark := fun _ => answer tt;
  cancel_stark := fun _ => answer tt;
  prover_compress := fun _ => answer "c"%string;
  prover_compress_high := fun _ => answer "g"%string;
  prover_compress_blake3 := fun _ => answer "c"%string;
  get_journal := fun _ _ => answer (Some [x03]);
  get_receipt_of := fun _ => answer (Some []);
  get_compressed_receipt := fun _ => answer (Some []);
  get_blake3_groth16_receipt := fun _ => answer (Some []);
  download := fun _ => answer [];
  download_with_limit := fun _ _ => answer [];
  priority_check := fun _ => false;
  proof_retry := fun x => ((0, 0), x);
  risc0_sleep := fun _ x => (tt, x);
  contains_root := fun _ => answer false;
  submit_merkle_root := fun _ _ => answer tt
|}.

Lemma order_codec : @OrderStateCodec bool unit bytes bytes lib.
Proof.
  intros s raw. cbn. case_decide as Hs; [intros [= <-]; by subst|].
  case_decide as Hs'; [intros [= <-]; by subst|done].
Qed.

Lemma batch_codec : @BatchStateCodec bool unit bytes bytes lib.
Proof.
  intros [v g d p c a] raw. cbn. destruct (_ && _) eqn:E; [|done]. intros [= <-].
  repeat (apply andb_prop in E as [E ?]). repeat match goal with
    | H : bool_decide _ = true |- _ => apply bool_decide_eq_true in H
    end. by subst.
Qed.

(** The on-chain assessor over the set-inclusion class. *)
Definition toy_registry : RouterRegistry :=
  from_parts 16 (list_to_map [(5, mkRouterEntry 1 16 0); (34, mkRouterEntry 3 32 0)])
    (list_to_map [(16, 32)]).

Definition backend : Risc0Backend unit :=
  mkRisc0 RISC0_V3_BACKEND_ID (Some []) (Some 9)
    (Some (mkSigner unit 12 (fun _ => answer [x04]))) (Some 12) 1
    (risc0_router_policy toy_registry 5 false) cost_model_default None false.

Definition order : ProcessOrder :=
  mkProcessOrder "o" sample_request (Some "img"%string) (Some "in"%string) None.

Definition processor : Risc0BatchProcessor := mkR0Batch [] [] 1 12 1 (router_policy backend).

Definition batch_order : BatchOrder :=
  mkBatchOrder (mkProvingData "o" sample_request [] None (Some [])) 0 0 LockAndFulfill 0 0.

Definition update : UpdateBatch := mkUpdateBatch 1 [] None [batch_order] true.

Definition fulfillment_cmd : FulfillmentBatch :=
  mkFulfillmentBatch RISC0_V3_BACKEND_ID (Some []) (eip712_domain 1 1)
    [mkFulfillmentOrder "o" sample_request [] (Some [])].

End ToyRisc0.

(** A groth16 order: proved, compressed and reported. *)
Example toy_order_runs :
  fst <$> @drive bool unit bytes bytes ToyRisc0.lib unit ToyRisc0.toy_env
            ToyRisc0.backend 3
            (mkProcessOrder "o"
               (mkProofRequest 1 (mkRequirements (predicate (requirements sample_request))
                                    callback_NONE SELECTOR_GROTH16_V3_0)
                  "" (input sample_request) (offer sample_request))
               (Some "img"%string) (Some "in"%string) None) tt
  = Some (Ok (mkProcessed RISC0_V3_BACKEND_ID "o" Direct true)).
Proof. vm_compute. reflexivity. Qed.

Lemma risc0_order_completes_witness :
  exists r x', @drive bool unit bytes bytes ToyRisc0.lib unit ToyRisc0.toy_env
                 ToyRisc0.backend 3 ToyRisc0.order tt = Some (r, x') /\ r <> Panic.
Proof.
  destruct (@risc0_order_completes bool unit bytes bytes ToyRisc0.lib
    ToyRisc0.order_codec unit ToyRisc0.toy_env ToyRisc0.backend ToyRisc0.order tt)
    as (r & x' & Hd & Hp & _).
  exists r, x'. split; [exact Hd|exact Hp].
Defined.

Lemma toy_risc0_wf : registry_wf ToyRisc0.toy_registry.
Proof.
  split; [reflexivity|reflexivity|]. intros k e Hl.
  apply elem_of_list_to_map_2 in Hl. rewrite !elem_of_cons, elem_of_nil in Hl.
  destruct Hl as [[= -> ->]|[[= -> ->]|[]]]; split; try discriminate; reflexivity.
Qed.

Lemma risc0_registers_witness :
  policy_supported_selectors (router_policy ToyRisc0.backend) <> []
  /\ exists r, register_backend router_new
       (backend_entry_new (@risc0_backend toy_externals bool unit bytes bytes ToyRisc0.lib unit
          ToyRisc0.toy_env ToyRisc0.backend (fun _ _ => throw UnexpectedErr))) = Ok r.
Proof.
  assert (Hne : policy_supported_selectors (router_policy ToyRisc0.backend) <> [])
    by (vm_compute; discriminate).
  split; [exact Hne|].
  destruct (@risc0_registers toy_externals bool unit bytes bytes ToyRisc0.lib unit ToyRisc0.toy_env
    ToyRisc0.backend ToyRisc0.toy_registry 5 false (fun _ _ => throw UnexpectedErr)
    eq_refl toy_risc0_wf Hne) as (r & Hr & _).
  exists r. exact Hr.
Defined.

Lemma toy_plan_built : exists plan x',
  @risc0_build_fulfillments toy_externals bool unit bytes bytes ToyRisc0.lib unit ToyRisc0.toy_env
    ToyRisc0.backend ToyRisc0.fulfillment_cmd tt = (Ok plan, x').
Proof. eexists _, _. vm_compute. reflexivity. Qed.

Lemma risc0_build_accounts_witness :
  exists plan x',
    @risc0_build_fulfillments toy_externals bool unit bytes bytes ToyRisc0.lib unit
      ToyRisc0.toy_env ToyRisc0.backend ToyRisc0.fulfillment_cmd tt = (Ok plan, x')
    /\ (length (plan_orders plan) + length (failed_orders plan) = 1)%nat.
Proof.
  destruct toy_plan_built as (plan & x' & E). exists plan, x'. split; [exact E|].
  destruct (@risc0_build_accounts toy_externals bool unit bytes bytes ToyRisc0.lib unit
    ToyRisc0.toy_env ToyRisc0.backend ToyRisc0.fulfillment_cmd tt plan x' E)
    as (state & (raw & pid & v & states & x0 & _ & _ & _ & _ & _ & _ & _ & _ & Hlen & _) & _).
  exact Hlen.
Defined.

Lemma toy_update_done : exists u x',
  @risc0_update_batch bool unit bytes bytes ToyRisc0.lib unit ToyRisc0.toy_env
    ToyRisc0.processor ToyRisc0.update tt = (Ok u, x').
Proof. eexists _, _. vm_compute. reflexivity. Qed.

Lemma update_batch_extends_witness :
  exists u x' s,
    @risc0_update_batch bool unit bytes bytes ToyRisc0.lib unit ToyRisc0.toy_env
      ToyRisc0.processor ToyRisc0.update tt = (Ok u, x')
    /\ @from_backend_state bool unit bytes bytes ToyRisc0.lib (bu_state u) = Ok s.
Proof.
  destruct toy_update_done as (u & x' & E).
  destruct (@update_batch_extends bool unit bytes bytes ToyRisc0.lib
    ToyRisc0.batch_codec unit ToyRisc0.toy_env ToyRisc0.processor ToyRisc0.update tt u x' E)
    as (s & skip & a & x1 & valid & x2 & Hs & _).
  exists u, x', s. split; [exact E|exact Hs].
Defined.
