(* ===== verification/Supervisor.v ===== *)
(** * Supervisor: restarting the services

    The supervisor of a service ([crates/broker/src/shared/task.rs]) and the choice
    of its policy ([crates/broker/src/shared/service_runner.rs]).

    At any time one task runs at most, so a run of the supervisor is a function of the
    ways in which the tasks ended, one after the other, with the time since the last
    spawn and the answer of the configuration.  Durations are nanoseconds; the
    multiplier is a binary64, and [mul_f64] goes through [as_secs_f64] and
    [from_secs_f64] as the standard library does. *)

From Stdlib Require Import SpecFloat.
From S2P Require Import Prelude Gas.

Local Open Scope Z_scope.

(** ** Durations *)

Definition NANOS_PER_SEC : Z := 1000000000.
Definition from_millis (ms : Z) : Z := ms * 1000000.
Definition from_secs (s : Z) : Z := s * NANOS_PER_SEC.

Definition f64_add : spec_float -> spec_float -> spec_float := SFadd 53 1024.

(** [as_secs_f64]: the seconds plus the fraction. *)
Definition as_secs_f64 (d : Z) : spec_float :=
  f64_add (f64_of_u64 (d / NANOS_PER_SEC))
    (f64_div (f64_of_u64 (d mod NANOS_PER_SEC)) (f64_of_u64 NANOS_PER_SEC)).

(** The quotient rounded to the nearest, and to even in the middle. *)
Definition div_half_even (a b : Z) : Z :=
  let q := a / b in
  match 2 * (a mod b) ?= b with
  | Lt => q
  | Gt => q + 1
  | Eq => if Z.even q then q else q + 1
  end.

(** [from_secs_f64] panics on a negative number, on one whose seconds do not fit 64
    bits, and on what is not a number. *)
Definition from_secs_f64 {E} (x : spec_float) : result E Z :=
  match x with
  | S754_zero _ => Ok 0
  | S754_finite false m e =>
      let nanos :=
        if 0 <=? e then Zpos m * 2 ^ e * NANOS_PER_SEC
        else div_half_even (Zpos m * NANOS_PER_SEC) (2 ^ (- e)) in
      if nanos <? 2 ^ 64 * NANOS_PER_SEC then Ok nanos else Panic
  | _ => Panic
  end.

Definition mul_f64 {E} (d : Z) (rhs : spec_float) : result E Z :=
  from_secs_f64 (f64_mul rhs (as_secs_f64 d)).

(** ** Policies *)

Record RetryPolicy := mkRetryPolicy {
  delay : Z;
  backoff_multiplier : spec_float;
  max_delay : Z;
  reset_after : option Z;
  critical : bool
}.

(** [1.5] *)
Definition ONE_AND_A_HALF : spec_float := f64_div (f64_of_u64 3) (f64_of_u64 2).

Definition retry_policy_default : RetryPolicy :=
  mkRetryPolicy (from_millis 500) ONE_AND_A_HALF (from_secs 60) (Some (from_secs (60 * 5))) false.

Definition CRITICAL_SERVICE : RetryPolicy :=
  mkRetryPolicy (from_millis 100) ONE_AND_A_HALF (from_secs 2) (Some (from_secs 60)) true.

Inductive Criticality := Critical | CriticalWithFastRetry | NonCritical.

(** [ServiceRunner::dispatch]: whether the service goes to the critical set, whose
    token is cancelled last, and its policy. *)
Definition dispatch (criticality : Criticality) : bool * RetryPolicy :=
  match criticality with
  | Critical => (true, retry_policy_default)
  | CriticalWithFastRetry => (true, CRITICAL_SERVICE)
  | NonCritical => (false, retry_policy_default)
  end.

(** ** The supervisor *)

(** How a task ended. *)
Inductive TaskEnd :=
| Clean
| RecoverErr
| FaultErr
| JoinCancelled
| JoinFailed.

(** One return of [join_next]: the end, the time since the last spawn, and
    [max_critical_task_retries], if the configuration can be read. *)
Record Joined := mkJoined {
  j_end : TaskEnd;
  j_elapsed : Z;
  j_max_retries : option Z
}.

Inductive SupErr := ConfigUnreadable | RetriesExceeded | HardFailure | JoinError.

Record SupState := mkSupState { retry_count : Z; current_delay : Z }.

(** What is done about an end: a restart after a delay, or the end of the loop. *)
Inductive Reaction :=
| Restart (after : Z)
| Finished (r : result SupErr unit).

Definition sup_init (p : RetryPolicy) : SupState := mkSupState 0 (delay p).

Definition reset_if_long (p : RetryPolicy) (elapsed : Z) (s : SupState) : SupState :=
  match reset_after p with
  | Some reset_duration =>
      if (reset_duration <=? elapsed) && (0 <? retry_count s)
      then mkSupState 0 (delay p) else s
  | None => s
  end.

(** A restart: the delay is used, then it grows. *)
Definition restart (p : RetryPolicy) (s : SupState) : Reaction * SupState :=
  match mul_f64 (E := unit) (current_delay s) (backoff_multiplier p) with
  | Ok d =>
      (Restart (current_delay s),
       mkSupState (wadd 32 (retry_count s) 1) (Z.min d (max_delay p)))
  | _ => (Finished Panic, s)
  end.

Definition sup_step (p : RetryPolicy) (j : Joined) (s : SupState) : Reaction * SupState :=
  let s := reset_if_long p (j_elapsed j) s in
  match j_end j with
  | Clean | JoinCancelled => (Finished (Ok tt), s)
  | FaultErr => (Finished (Err HardFailure), s)
  | JoinFailed => (Finished (Err JoinError), s)
  | RecoverErr =>
      if critical p then
        match j_max_retries j with
        | None => (Finished (Err ConfigUnreadable), s)
        | Some max_retries =>
            if max_retries <=? retry_count s then (Finished (Err RetriesExceeded), s)
            else restart p s
        end
      else restart p s
  end.

(** [Supervisor::spawn] over the ends of its tasks: the delays before the restarts,
    and the result once the loop is over. *)
Fixpoint supervise (p : RetryPolicy) (ends : list Joined) (s : SupState)
    : list Z * option (result SupErr unit) :=
  match ends with
  | [] => ([], None)
  | j :: ends =>
      match sup_step p j s with
      | (Finished r, _) => ([], Some r)
      | (Restart d, s') => let (ds, r) := supervise p ends s' in (d :: ds, r)
      end
  end.

(** * Theorems *)

(** ** The delays of the two policies *)

(** The delays that can occur: the first one, and what follows each by growing. *)
Fixpoint orbit (p : RetryPolicy) (n : nat) (d : Z) : list Z :=
  match n with
  | O => [d]
  | S n =>
      match mul_f64 (E := unit) d (backoff_multiplier p) with
      | Ok d' => d :: orbit p n (Z.min d' (max_delay p))
      | _ => [d]
      end
  end.

(** All delays between the first and the largest, and growing from each is one of them. *)
Definition orbit_closed (p : RetryPolicy) (l : list Z) : bool :=
  forallb (fun d => (delay p <=? d) && (d <=? max_delay p)
    && match mul_f64 (E := unit) d (backoff_multiplier p) with
       | Ok d' => (d <=? Z.min d' (max_delay p)) && bool_decide (Z.min d' (max_delay p) ∈ l)
       | _ => false
       end) l && bool_decide (delay p ∈ l).

Definition default_orbit : list Z := Eval vm_compute in orbit retry_policy_default 13 (from_millis 500).
Definition critical_orbit : list Z := Eval vm_compute in orbit CRITICAL_SERVICE 9 (from_millis 100).

Lemma default_closed : orbit_closed retry_policy_default default_orbit = true.
Proof. vm_compute. reflexivity. Qed.

Lemma critical_closed : orbit_closed CRITICAL_SERVICE critical_orbit = true.
Proof. vm_compute. reflexivity. Qed.

Section Delays.
Variables (p : RetryPolicy) (l : list Z).
Hypothesis closed : orbit_closed p l = true.

Lemma orbit_start : delay p ∈ l.
Proof. unfold orbit_closed in closed. apply andb_prop in closed as [_ Hd]. by apply bool_decide_eq_true in Hd. Qed.

Lemma orbit_next d :
  d ∈ l -> delay p <= d <= max_delay p
  /\ exists d', mul_f64 (E := unit) d (backoff_multiplier p) = Ok d'
       /\ Z.min d' (max_delay p) ∈ l /\ d <= Z.min d' (max_delay p).
Proof.
  intros Hd%list_elem_of_In. unfold orbit_closed in closed.
  apply andb_prop in closed as [Hall _]. rewrite forallb_forall in Hall. apply Hall in Hd.
  apply andb_prop in Hd as [Hb Hm]. breflect. split; [lia|].
  destruct (mul_f64 d _) as [d'| |]; [|done..]. apply andb_prop in Hm as [Hle Hin].
  apply bool_decide_eq_true in Hin. breflect. eauto.
Qed.

Lemma reset_in elapsed s : current_delay s ∈ l -> current_delay (reset_if_long p elapsed s) ∈ l.
Proof.
  intros Hs. unfold reset_if_long. destruct (reset_after p); [|done].
  destruct (_ && _); [apply orbit_start|done].
Qed.

Lemma restart_in s :
  current_delay s ∈ l ->
  exists d', restart p s = (Restart (current_delay s), mkSupState (wadd 32 (retry_count s) 1) d')
             /\ d' ∈ l /\ current_delay s <= d'.
Proof.
  intros Hs. destruct (orbit_next _ Hs) as (_ & d' & Hm & Hin & Hle).
  unfold restart. rewrite Hm. eauto.
Qed.

(** Every reaction waits for a delay of the orbit, or is the end the task asked for. *)
Lemma sup_step_spec j s :
  current_delay s ∈ l ->
  match sup_step p j s with
  | (Restart d, s') => d ∈ l /\ current_delay s' ∈ l /\ j_end j = RecoverErr
  | (Finished r, _) => r <> Panic
      /\ (j_end j = RecoverErr -> critical p = true
            /\ (r = Err RetriesExceeded \/ r = Err ConfigUnreadable))
  end.
Proof.
  intros Hs%(reset_in (j_elapsed j)). unfold sup_step.
  destruct (restart_in _ Hs) as (d' & Hr & Hin & _).
  destruct (j_end j); [by split| |by split..].
  destruct (critical p); [|by rewrite Hr].
  destruct (j_max_retries j); [|by repeat split; [|by right]].
  destruct (_ <=? _); [by repeat split; [|by left]|by rewrite Hr].
Qed.

Lemma supervise_spec ends s ds r :
  current_delay s ∈ l -> supervise p ends s = (ds, r) ->
  Forall (fun d => delay p <= d <= max_delay p) ds
  /\ r <> Some Panic
  /\ (critical p = false -> Forall (fun j => j_end j = RecoverErr) ends ->
      r = None /\ length ds = length ends).
Proof.
  revert s ds r. induction ends as [|j ends IH]; intros s ds r Hs Hr; cbn [supervise] in Hr.
  - injection Hr as <- <-. by repeat split; try constructor.
  - pose proof (sup_step_spec j s Hs) as Hstep.
    destruct (sup_step p j s) as [[d|r'] s'].
    + destruct (supervise p ends s') as [ds' r''] eqn:E. injection Hr as <- <-.
      destruct Hstep as (Hd & Hs' & _). destruct (IH _ _ _ Hs' E) as (Hds & Hp & Hc).
      split_and!; [constructor; [by apply orbit_next|done]|done|].
      intros Hcrit Hall. inversion Hall; subst. destruct (Hc Hcrit) as [-> Hlen]; [done|].
      split; [done|]. simpl. by rewrite Hlen.
    + injection Hr as <- <-. destruct Hstep as (Hp & Hrec). split_and!; [constructor|congruence|].
      intros Hcrit Hall. inversion Hall; subst. destruct Hrec as [Hcrit' _]; [done|congruence].
Qed.

(** Without a reset the restarts are counted up to the maximum. *)
Lemma supervise_counts reset m n ends s :
  critical p = true -> reset_after p = Some reset ->
  current_delay s ∈ l -> m < 2 ^ 32 -> retry_count s + Z.of_nat n = m -> 0 <= retry_count s ->
  (n < length ends)%nat ->
  Forall (fun j => j_end j = RecoverErr /\ j_elapsed j < reset /\ j_max_retries j = Some m) ends ->
  exists ds, supervise p ends s = (ds, Some (Err RetriesExceeded)) /\ length ds = n.
Proof.
  intros Hc Hreset. revert n s. induction ends as [|j ends IH]; intros n s Hs Hm Hn H0 Hlen Hall;
    [simpl in Hlen; lia|].
  inversion Hall as [|? ? (He & Hel & Hmax) Hall']; subst. cbn [supervise].
  assert (Hres : reset_if_long p (j_elapsed j) s = s).
  { unfold reset_if_long. rewrite Hreset. by rewrite (proj2 (Z.leb_gt _ _)) by lia. }
  unfold sup_step. rewrite Hres, He, Hc, Hmax. destruct n as [|n].
  - rewrite (proj2 (Z.leb_le _ _)) by lia. by exists [].
  - rewrite (proj2 (Z.leb_gt _ _)) by lia.
    destruct (restart_in _ Hs) as (d' & -> & Hin & _).
    assert (Hw : wadd 32 (retry_count s) 1 = retry_count s + 1) by (apply wadd_small; fits_lia).
    destruct (IH n (mkSupState (wadd 32 (retry_count s) 1) d')) as (ds & Hds & Hl);
      cbn [retry_count current_delay]; rewrite ?Hw; try lia; try done.
    { simpl in Hlen. lia. }
    rewrite Hw in Hds. rewrite Hds. exists (current_delay s :: ds). simpl. by rewrite Hl.
Qed.

End Delays.

Lemma dispatch_closed c :
  exists l, orbit_closed (snd (dispatch c)) l = true.
Proof.
  destruct c; [exists default_orbit; exact default_closed|exists critical_orbit; exact critical_closed
    |exists default_orbit; exact default_closed].
Qed.

(** Supervision of a service, of whatever criticality and however its tasks end: the
    delay before each restart lies between the first and the largest delay of its
    policy, and the supervisor does not panic (the growing delays, computed in
    binary64, stay in a finite orbit).  A service that does not have the policy of the
    critical services is restarted for as long as its errors are recoverable. *)
Theorem supervise_delays_bounded c ends ds r :
  supervise (snd (dispatch c)) ends (sup_init (snd (dispatch c))) = (ds, r) ->
  Forall (fun d => delay (snd (dispatch c)) <= d <= max_delay (snd (dispatch c))) ds
  /\ r <> Some Panic
  /\ (c <> CriticalWithFastRetry -> Forall (fun j => j_end j = RecoverErr) ends ->
      r = None /\ length ds = length ends).
Proof.
  intros Hr. destruct (dispatch_closed c) as [l Hl].
  destruct (supervise_spec _ _ Hl _ (sup_init (snd (dispatch c))) _ _ (orbit_start _ _ Hl) Hr)
    as (Hd & Hp & Hc).
  split_and!; [done|done|]. intros Hne. apply Hc. by destruct c.
Qed.

(** A crash loop of a critical service is given up: when each task ends in a
    recoverable error within the reset time, the supervisor restarts it exactly
    [max_critical_task_retries] times and then fails, whatever the tasks would do
    after that. *)
Theorem crash_loop_ends m ends :
  0 <= m < 2 ^ 32 -> m < Z.of_nat (length ends) ->
  Forall (fun j => j_end j = RecoverErr /\ j_elapsed j < from_secs 60 /\ j_max_retries j = Some m)
    ends ->
  exists ds, supervise (snd (dispatch CriticalWithFastRetry)) ends
               (sup_init (snd (dispatch CriticalWithFastRetry))) = (ds, Some (Err RetriesExceeded))
    /\ Z.of_nat (length ds) = m.
Proof.
  intros Hm Hlen Hall.
  destruct (supervise_counts CRITICAL_SERVICE critical_orbit critical_closed (from_secs 60) m
              (Z.to_nat m) ends (sup_init CRITICAL_SERVICE)) as (ds & Hds & Hl);
    [done|done|by apply orbit_start, critical_closed|lia|simpl; lia|done|lia|exact Hall|].
  exists ds. split; [exact Hds|]. lia.
Qed.

Lemma supervise_delays_bounded_witness :
  exists ds, supervise retry_policy_default
               [mkJoined RecoverErr 0 None; mkJoined RecoverErr 0 None; mkJoined Clean 0 None]
               (sup_init retry_policy_default) = (ds, Some (Ok tt))
    /\ Forall (fun d => from_millis 500 <= d <= from_secs 60) ds.
Proof.
  exists [500000000; 750000000].
  assert (E : supervise (snd (dispatch NonCritical))
               [mkJoined RecoverErr 0 None; mkJoined RecoverErr 0 None; mkJoined Clean 0 None]
               (sup_init (snd (dispatch NonCritical))) = ([500000000; 750000000], Some (Ok tt)))
    by (vm_compute; reflexivity).
  split; [exact E|]. exact (proj1 (supervise_delays_bounded NonCritical _ _ _ E)).
Defined.

Lemma crash_loop_ends_witness :
  let ends := replicate 5 (mkJoined RecoverErr 0 (Some 3)) in
  3 < Z.of_nat (length ends)
  /\ exists ds, supervise (snd (dispatch CriticalWithFastRetry)) ends
                 (sup_init (snd (dispatch CriticalWithFastRetry))) = (ds, Some (Err RetriesExceeded))
       /\ Z.of_nat (length ds) = 3.
Proof.
  intros ends. split; [reflexivity|].
  apply (crash_loop_ends 3 ends); [lia|reflexivity|].
  repeat constructor.
Defined.
