(* ===== verification/TaskDb.v ===== *)
(** * The task database of the prover

    [prover/crates/taskdb/src/redis_backend.rs]: the library of functions that Redis
    runs atomically, and the client that calls them.  The keys of one namespace are
    the fields of [Redis]: the streams, the jobs, the tasks and the sets and queues
    over them.  A function of the library is a function on [Redis].  A key made of
    several parts is their tuple; the number of seconds since the epoch is counted in
    parts of [TICKS], the precision of a double at that size (the text that is stored
    for the time of a start or an update has fewer digits).  The invariants of this
    state are in [TaskDbFacts] and [TaskDbCalls]. *)

From S2P Require Import Prelude.
From Stdlib Require Import QArith.QArith.

Local Open Scope Z_scope.

(** ** Data *)

(** [Cancelled] is a state of the library; the type of [lib.rs] has the other five. *)
Inductive TaskState := TsPending | TsReady | TsRunning | TsDone | TsFailed | TsCancelled.

#[export] Instance TaskState_eq_dec : EqDecision TaskState.
Proof. solve_decision. Defined.

#[export] Instance TaskState_countable : Countable TaskState.
Proof.
  refine (inj_countable'
    (fun s => match s with TsPending => 0 | TsReady => 1 | TsRunning => 2 | TsDone => 3
                         | TsFailed => 4 | TsCancelled => 5 end)%nat
    (fun n => match n with 0 => TsPending | 1 => TsReady | 2 => TsRunning | 3 => TsDone
                         | 4 => TsFailed | _ => TsCancelled end)%nat _).
  by intros [].
Defined.

Inductive JobState := JobRunning | JobDone | JobFailed.

#[export] Instance JobState_eq_dec : EqDecision JobState.
Proof. solve_decision. Defined.

Inductive Priority := High | Medium | Low.

(** [Priority::bucket]. *)
Definition bucket (p : Priority) : Z :=
  match p with High => 0 | Medium => 1 | Low => 2 end.

Inductive TaskDbErr :=
| RedisError (msg : string)
| NotFound (msg : string)
| InternalErr (msg : string)
| JsonErr
| InvalidBeMult.

Definition is_not_found (e : TaskDbErr) : bool :=
  match e with NotFound _ => true | _ => false end.

(** The precision of a time in seconds: a double between [2^30] and [2^31] has
    steps of [2^-22]. *)
Definition TICKS : Z := 2 ^ 22.

Record Stream := mkStream {
  sr_worker_type : string;
  sr_reserved : Z;
  sr_be_mult : Q;
  sr_user_id : string
}.

(** The fields of a job may be missing: [HSET] on a missing key makes a job with the
    fields it sets. *)
Record JobMeta := mkJob {
  jm_state : option JobState;
  jm_error : option string;
  jm_user_id : option string;
  jm_priority : option Z
}.

Record Task := mkTask {
  t_stream_id : string;
  t_worker_type : string;
  t_priority : Z;
  t_sort_seq : Z;
  t_task_def : string;
  t_prerequisites : list string;
  t_state : TaskState;
  t_created_at : Z;
  t_started_at : option Z;
  t_updated_at : Z;
  t_waiting_on : Z;
  t_progress : Q;
  t_retries : Z;
  t_max_retries : Z;
  t_timeout_secs : Z;
  t_output : string;
  t_error : string
}.

(** A job and one of its tasks: the compound name in queues. *)
Abbreviation TaskKey := (string * string)%type.

(** A sorted set: its members with their scores. *)
Abbreviation zset := (gmap TaskKey Z).

Record Redis := mkRedis {
  streams : gmap string Stream;
  stream_lookup : gmap string string;
  stream_priority : gmap string (gset string);
  jobs : gmap string JobMeta;
  jobs_running : gmap string (gset string);
  tasks : gmap TaskKey Task;
  tasks_by_job : gmap string (gset string);
  deps : gmap TaskKey (gset string);
  ready_queue : gmap (string * Z) zset;
  tasks_running : zset;
  task_sequence : Z;
  (** [None] until the counts have been initialised. *)
  task_counts : option (gmap (string * Z * TaskState) Z);
  notify : gmap string Z
}.

Definition redis_empty : Redis :=
  mkRedis ∅ ∅ ∅ ∅ ∅ ∅ ∅ ∅ ∅ ∅ 0 None ∅.

(** *** Commands: each replaces one key of the namespace *)

Definition with_streams m r := mkRedis m (stream_lookup r) (stream_priority r) (jobs r)
  (jobs_running r) (tasks r) (tasks_by_job r) (deps r) (ready_queue r) (tasks_running r)
  (task_sequence r) (task_counts r) (notify r).
Definition with_stream_lookup m r := mkRedis (streams r) m (stream_priority r) (jobs r)
  (jobs_running r) (tasks r) (tasks_by_job r) (deps r) (ready_queue r) (tasks_running r)
  (task_sequence r) (task_counts r) (notify r).
Definition with_stream_priority m r := mkRedis (streams r) (stream_lookup r) m (jobs r)
  (jobs_running r) (tasks r) (tasks_by_job r) (deps r) (ready_queue r) (tasks_running r)
  (task_sequence r) (task_counts r) (notify r).
Definition with_jobs m r := mkRedis (streams r) (stream_lookup r) (stream_priority r) m
  (jobs_running r) (tasks r) (tasks_by_job r) (deps r) (ready_queue r) (tasks_running r)
  (task_sequence r) (task_counts r) (notify r).
Definition with_jobs_running m r := mkRedis (streams r) (stream_lookup r) (stream_priority r)
  (jobs r) m (tasks r) (tasks_by_job r) (deps r) (ready_queue r) (tasks_running r)
  (task_sequence r) (task_counts r) (notify r).
Definition with_tasks m r := mkRedis (streams r) (stream_lookup r) (stream_priority r)
  (jobs r) (jobs_running r) m (tasks_by_job r) (deps r) (ready_queue r) (tasks_running r)
  (task_sequence r) (task_counts r) (notify r).
Definition with_tasks_by_job m r := mkRedis (streams r) (stream_lookup r) (stream_priority r)
  (jobs r) (jobs_running r) (tasks r) m (deps r) (ready_queue r) (tasks_running r)
  (task_sequence r) (task_counts r) (notify r).
Definition with_deps m r := mkRedis (streams r) (stream_lookup r) (stream_priority r)
  (jobs r) (jobs_running r) (tasks r) (tasks_by_job r) m (ready_queue r) (tasks_running r)
  (task_sequence r) (task_counts r) (notify r).
Definition with_ready m r := mkRedis (streams r) (stream_lookup r) (stream_priority r)
  (jobs r) (jobs_running r) (tasks r) (tasks_by_job r) (deps r) m (tasks_running r)
  (task_sequence r) (task_counts r) (notify r).
Definition with_running m r := mkRedis (streams r) (stream_lookup r) (stream_priority r)
  (jobs r) (jobs_running r) (tasks r) (tasks_by_job r) (deps r) (ready_queue r) m
  (task_sequence r) (task_counts r) (notify r).
Definition with_sequence n r := mkRedis (streams r) (stream_lookup r) (stream_priority r)
  (jobs r) (jobs_running r) (tasks r) (tasks_by_job r) (deps r) (ready_queue r)
  (tasks_running r) n (task_counts r) (notify r).
Definition with_counts c r := mkRedis (streams r) (stream_lookup r) (stream_priority r)
  (jobs r) (jobs_running r) (tasks r) (tasks_by_job r) (deps r) (ready_queue r)
  (tasks_running r) (task_sequence r) c (notify r).
Definition with_notify m r := mkRedis (streams r) (stream_lookup r) (stream_priority r)
  (jobs r) (jobs_running r) (tasks r) (tasks_by_job r) (deps r) (ready_queue r)
  (tasks_running r) (task_sequence r) (task_counts r) m.

(** [SMEMBERS]; the order of a listing is that of [elements]. *)
Definition members `{Countable K} (m : gmap K (gset string)) (k : K) : gset string :=
  default ∅ (m !! k).

Definition sadd `{Countable K} (k : K) (x : string) (m : gmap K (gset string))
    : gmap K (gset string) :=
  <[k := {[x]} ∪ members m k]> m.

Definition srem `{Countable K} (k : K) (x : string) (m : gmap K (gset string))
    : gmap K (gset string) :=
  <[k := members m k ∖ {[x]}]> m.

Definition queue (r : Redis) (q : string * Z) : zset := default ∅ (ready_queue r !! q).

Definition task_state (r : Redis) (k : TaskKey) : option TaskState :=
  t_state <$> tasks r !! k.

Definition job_state (r : Redis) (job_id : string) : option JobState :=
  jobs r !! job_id ≫= jm_state.

(** *** Fields of a task *)

Definition set_state s t := mkTask (t_stream_id t) (t_worker_type t) (t_priority t)
  (t_sort_seq t) (t_task_def t) (t_prerequisites t) s (t_created_at t) (t_started_at t)
  (t_updated_at t) (t_waiting_on t) (t_progress t) (t_retries t) (t_max_retries t)
  (t_timeout_secs t) (t_output t) (t_error t).
Definition set_started n t := mkTask (t_stream_id t) (t_worker_type t) (t_priority t)
  (t_sort_seq t) (t_task_def t) (t_prerequisites t) (t_state t) (t_created_at t) (Some n)
  (t_updated_at t) (t_waiting_on t) (t_progress t) (t_retries t) (t_max_retries t)
  (t_timeout_secs t) (t_output t) (t_error t).
Definition set_updated n t := mkTask (t_stream_id t) (t_worker_type t) (t_priority t)
  (t_sort_seq t) (t_task_def t) (t_prerequisites t) (t_state t) (t_created_at t)
  (t_started_at t) n (t_waiting_on t) (t_progress t) (t_retries t) (t_max_retries t)
  (t_timeout_secs t) (t_output t) (t_error t).
Definition set_waiting_on n t := mkTask (t_stream_id t) (t_worker_type t) (t_priority t)
  (t_sort_seq t) (t_task_def t) (t_prerequisites t) (t_state t) (t_created_at t)
  (t_started_at t) (t_updated_at t) n (t_progress t) (t_retries t) (t_max_retries t)
  (t_timeout_secs t) (t_output t) (t_error t).
Definition set_progress q t := mkTask (t_stream_id t) (t_worker_type t) (t_priority t)
  (t_sort_seq t) (t_task_def t) (t_prerequisites t) (t_state t) (t_created_at t)
  (t_started_at t) (t_updated_at t) (t_waiting_on t) q (t_retries t) (t_max_retries t)
  (t_timeout_secs t) (t_output t) (t_error t).
Definition set_retries n t := mkTask (t_stream_id t) (t_worker_type t) (t_priority t)
  (t_sort_seq t) (t_task_def t) (t_prerequisites t) (t_state t) (t_created_at t)
  (t_started_at t) (t_updated_at t) (t_waiting_on t) (t_progress t) n (t_max_retries t)
  (t_timeout_secs t) (t_output t) (t_error t).
Definition set_output s t := mkTask (t_stream_id t) (t_worker_type t) (t_priority t)
  (t_sort_seq t) (t_task_def t) (t_prerequisites t) (t_state t) (t_created_at t)
  (t_started_at t) (t_updated_at t) (t_waiting_on t) (t_progress t) (t_retries t)
  (t_max_retries t) (t_timeout_secs t) s (t_error t).
Definition set_error s t := mkTask (t_stream_id t) (t_worker_type t) (t_priority t)
  (t_sort_seq t) (t_task_def t) (t_prerequisites t) (t_state t) (t_created_at t)
  (t_started_at t) (t_updated_at t) (t_waiting_on t) (t_progress t) (t_retries t)
  (t_max_retries t) (t_timeout_secs t) (t_output t) s.

(** [HSET] on a task that exists. *)
Definition alter_task (k : TaskKey) (f : Task -> Task) (r : Redis) : Redis :=
  with_tasks (alter f k (tasks r)) r.

(** [HSET] on a job, which makes it if it is missing. *)
Definition hset_job (job_id : string) (f : JobMeta -> JobMeta) (r : Redis) : Redis :=
  with_jobs (<[job_id := f (default (mkJob None None None None) (jobs r !! job_id))]> (jobs r)) r.

Definition job_to (s : JobState) (m : JobMeta) : JobMeta :=
  mkJob (Some s) (jm_error m) (jm_user_id m) (jm_priority m).

Definition job_fails (err : string) (m : JobMeta) : JobMeta :=
  mkJob (Some JobFailed) (Some err) (jm_user_id m) (jm_priority m).

(** ** Helpers of the library *)

Definition notify_worker (worker_type : string) (r : Redis) : Redis :=
  with_notify (<[worker_type := Z.min 4096 (default 0 (notify r !! worker_type) + 1)]> (notify r)) r.

Definition is_counted_task_state (s : TaskState) : bool :=
  match s with TsReady | TsRunning | TsPending => true | _ => false end.

Definition adjust_task_state_count (worker_type : string) (priority : Z) (state : TaskState)
    (delta : Z) (r : Redis) : Redis :=
  match task_counts r with
  | None => r
  | Some c =>
      if negb (is_counted_task_state state) || (delta =? 0) then r else
      let field := (worker_type, priority, state) in
      let count := default 0 (c !! field) + delta in
      with_counts (Some (if count <=? 0 then delete field c else <[field := count]> c)) r
  end.

Definition adjust_opt (worker_type : string) (priority : Z) (state : option TaskState)
    (delta : Z) (r : Redis) : Redis :=
  match state with
  | Some s =>
      if is_counted_task_state s then adjust_task_state_count worker_type priority s delta r
      else r
  | None => r
  end.

Definition adjust_task_state_count_for_meta (worker_type : string) (priority : Z)
    (old_state new_state : option TaskState) (r : Redis) : Redis :=
  adjust_opt worker_type priority new_state 1
    (adjust_opt worker_type priority old_state (-1) r).

Definition adjust_task_state_count_for_task (k : TaskKey)
    (old_state new_state : option TaskState) (r : Redis) : Redis :=
  match tasks r !! k with
  | Some t =>
      adjust_task_state_count_for_meta (t_worker_type t) (t_priority t) old_state new_state r
  | None => r
  end.

(** The table that [bootstrap_task_state_counts] builds from all tasks. *)
Definition count_tasks (ts : gmap TaskKey Task) : gmap (string * Z * TaskState) Z :=
  map_fold (fun _ t c =>
    if is_counted_task_state (t_state t) then
      let field := (t_worker_type t, t_priority t, t_state t) in
      <[field := default 0 (c !! field) + 1]> c
    else c) ∅ ts.

Definition bootstrap_task_state_counts (r : Redis) : Redis :=
  match task_counts r with
  | Some _ => r
  | None => with_counts (Some (count_tasks (tasks r))) r
  end.

(** [ZADD NX] to the queue of the task. *)
Definition enqueue_task (k : TaskKey) (r : Redis) : Redis :=
  match tasks r !! k with
  | None => r
  | Some t =>
      if t_sort_seq t <=? 0 then r else
      let q := (t_worker_type t, t_priority t) in
      match queue r q !! k with
      | Some _ => r
      | None =>
          notify_worker (t_worker_type t)
            (with_ready (<[q := <[k := t_sort_seq t]> (queue r q)]> (ready_queue r)) r)
      end
  end.

Definition remove_task_from_ready (k : TaskKey) (r : Redis) : Redis :=
  match tasks r !! k with
  | None => r
  | Some t =>
      let q := (t_worker_type t, t_priority t) in
      with_ready (<[q := delete k (queue r q)]> (ready_queue r)) r
  end.

(** [ZPOPMIN]: the member with the smallest score; of several, the first in the
    order of their names. *)
Definition before (x y : TaskKey * Z) : bool :=
  (x.2 <? y.2)
  || ((x.2 =? y.2)
      && String.leb (x.1.1 ++ "|" ++ x.1.2)%string (y.1.1 ++ "|" ++ y.1.2)%string).

Definition precedes (x y : TaskKey * Z) : Prop := before x y = true.

#[export] Instance precedes_dec : RelDecision precedes.
Proof. intros x y. unfold precedes. apply _. Defined.

Definition pop_min (z : zset) : option (TaskKey * Z) :=
  foldr (fun x best => match best with
                       | Some y => if before x y then Some x else Some y
                       | None => Some x
                       end) None (map_to_list z).

(** ** The library *)

Definition create_stream (worker_type : string) (reserved : Z) (be_mult : Q)
    (user_id stream_id : string) (r : Redis) : string * Redis :=
  let lookup_key := (user_id ++ ":" ++ worker_type)%string in
  match stream_lookup r !! lookup_key with
  | Some existing => (existing, r)
  | None =>
      (stream_id,
       with_stream_priority (sadd worker_type stream_id (stream_priority r))
         (with_streams (<[stream_id := mkStream worker_type reserved be_mult user_id]> (streams r))
            (with_stream_lookup (<[lookup_key := stream_id]> (stream_lookup r)) r)))
  end.

Definition create_job (stream_id task_def : string) (max_retries timeout_secs : Z)
    (user_id job_id : string) (now priority : Z) (r : Redis) : result string string * Redis :=
  match streams r !! stream_id with
  | None => (Err "missing stream"%string, r)
  | Some stream =>
      let r := with_sequence (task_sequence r + 1) r in
      let r := with_jobs (<[job_id := mkJob (Some JobRunning) (Some ""%string) (Some user_id)
                                        (Some priority)]> (jobs r)) r in
      let r := with_jobs_running (sadd user_id job_id (jobs_running r)) r in
      let r := with_tasks (<[(job_id, "init"%string) :=
        mkTask stream_id (sr_worker_type stream) priority (task_sequence r) task_def [] TsReady
          now None now 0 0 0 max_retries timeout_secs ""%string ""%string]> (tasks r)) r in
      let r := with_tasks_by_job (sadd job_id "init"%string (tasks_by_job r)) r in
      let r := adjust_task_state_count_for_meta (sr_worker_type stream) priority None
                 (Some TsReady) r in
      (Ok job_id, enqueue_task (job_id, "init"%string) r)
  end.

(** The loop over the prerequisites; a missing one ends it, but the links that were
    made stay. *)
Fixpoint link_prerequisites (job_id task_id : string) (prereqs : list string) (waiting_on : Z)
    (r : Redis) : result string Z * Redis :=
  match prereqs with
  | [] => (Ok waiting_on, r)
  | pre :: prereqs =>
      match tasks r !! (job_id, pre) with
      | None => (Err "missing prerequisite task"%string, r)
      | Some t =>
          link_prerequisites job_id task_id prereqs
            (if bool_decide (t_state t = TsDone) then waiting_on else waiting_on + 1)
            (with_deps (sadd (job_id, pre) task_id (deps r)) r)
      end
  end.

Definition create_task (job_id task_id stream_id task_def : string) (prereqs : list string)
    (max_retries timeout_secs now : Z) (r : Redis) : result string unit * Redis :=
  match jobs r !! job_id, streams r !! stream_id with
  | None, _ => (Err "missing job"%string, r)
  | _, None => (Err "missing stream"%string, r)
  | Some meta, Some stream =>
      let priority := default 1 (jm_priority meta) in
      let r := with_sequence (task_sequence r + 1) r in
      match tasks r !! (job_id, task_id) with
      | Some _ => (Err "task already exists"%string, r)
      | None =>
          match link_prerequisites job_id task_id prereqs 0 r with
          | (Ok waiting, r) =>
              let (waiting_on, state) :=
                if waiting <=? 0 then (0, TsReady) else (waiting, TsPending) in
              let r := with_tasks (<[(job_id, task_id) :=
                mkTask stream_id (sr_worker_type stream) priority (task_sequence r) task_def
                  prereqs state now None now waiting_on 0 0 max_retries timeout_secs
                  ""%string ""%string]> (tasks r)) r in
              let r := with_tasks_by_job (sadd job_id task_id (tasks_by_job r)) r in
              let r := adjust_task_state_count_for_meta (sr_worker_type stream) priority None
                         (Some state) r in
              (Ok tt, if bool_decide (state = TsReady) then enqueue_task (job_id, task_id) r else r)
          | (Err e, r) => (Err e, r)
          | (Panic, r) => (Panic, r)
          end
      end
  end.

Record ReadyTask := mkReadyTask {
  rt_job_id : string;
  rt_task_id : string;
  rt_task_def : string;
  rt_prereqs : list string;
  rt_max_retries : Z
}.

(** The inner loop of [request_work] over one queue; every turn takes a member out, so
    that the size of the queue is enough fuel. *)
Fixpoint pop_ready (fuel : nat) (worker_type : string) (priority now : Z) (r : Redis)
    : option ReadyTask * Redis :=
  match fuel with
  | O => (None, r)
  | S fuel =>
      match pop_min (queue r (worker_type, priority)) with
      | None => (None, r)
      | Some (k, _) =>
          let r := with_ready (<[(worker_type, priority) :=
                     delete k (queue r (worker_type, priority))]> (ready_queue r)) r in
          match tasks r !! k with
          | Some t =>
              if bool_decide (t_state t = TsReady) then
                if bool_decide (job_state r k.1 = Some JobFailed) then
                  pop_ready fuel worker_type priority now
                    (adjust_task_state_count_for_meta worker_type priority (Some TsReady)
                       (Some TsCancelled)
                       (alter_task k (fun t => set_updated now (set_state TsCancelled t)) r))
                else
                  let r := alter_task k
                    (fun t => set_updated now (set_started now (set_state TsRunning t))) r in
                  let r := adjust_task_state_count_for_meta worker_type priority
                             (Some TsReady) (Some TsRunning) r in
                  let timeout := Z.max 0 (t_timeout_secs t) in
                  (Some (mkReadyTask k.1 k.2 (t_task_def t) (t_prerequisites t)
                           (t_max_retries t)),
                   with_running (<[k := now + timeout * TICKS]> (tasks_running r)) r)
              else pop_ready fuel worker_type priority now r
          | None => pop_ready fuel worker_type priority now r
          end
      end
  end.

Definition pop_queue (worker_type : string) (priority now : Z) (r : Redis)
    : option ReadyTask * Redis :=
  pop_ready (size (queue r (worker_type, priority))) worker_type priority now r.

Fixpoint request_work_from (worker_type : string) (priorities : list Z) (now : Z) (r : Redis)
    : option ReadyTask * Redis :=
  match priorities with
  | [] => (None, r)
  | priority :: priorities =>
      match pop_queue worker_type priority now r with
      | (Some t, r) => (Some t, r)
      | (None, r) => request_work_from worker_type priorities now r
      end
  end.

Definition request_work (worker_type : string) (now : Z) (r : Redis)
    : option ReadyTask * Redis :=
  request_work_from worker_type [0; 1; 2] now r.

(** One dependent of a task that is done. *)
Definition resolve_dependent (job_id : string) (now : Z) (r : Redis) (dep_tid : string) : Redis :=
  let dep := (job_id, dep_tid) in
  match tasks r !! dep with
  | None => r
  | Some t =>
      if bool_decide (t_state t = TsFailed) || bool_decide (t_state t = TsDone) then r else
      let remaining := t_waiting_on t - 1 in
      let r := alter_task dep (set_waiting_on remaining) r in
      if remaining <=? 0 then
        let r := alter_task dep
          (fun t => set_updated now (set_state TsReady (set_waiting_on 0 t))) r in
        enqueue_task dep
          (adjust_task_state_count_for_task dep (Some (t_state t)) (Some TsReady) r)
      else r
  end.

(** [SREM] from the running jobs of the user of the job, if it has one. *)
Definition leave_running (job_id : string) (r : Redis) : Redis :=
  match jobs r !! job_id ≫= jm_user_id with
  | Some job_user => with_jobs_running (srem job_user job_id (jobs_running r)) r
  | None => r
  end.

Definition all_done (job_id : string) (r : Redis) : bool :=
  forallb (fun tid => bool_decide (task_state r (job_id, tid) = Some TsDone))
    (elements (members (tasks_by_job r) job_id)).

Definition update_task_done (job_id task_id output : string) (now : Z) (r : Redis)
    : bool * Redis :=
  let k := (job_id, task_id) in
  match tasks r !! k with
  | None => (false, r)
  | Some t =>
      let state := t_state t in
      if negb (bool_decide (state = TsReady) || bool_decide (state = TsRunning))
      then (false, r) else
      let r := alter_task k (fun t =>
        set_updated now (set_progress 1 (set_output output (set_state TsDone t)))) r in
      let r := adjust_task_state_count_for_task k (Some state) (Some TsDone) r in
      let r := with_running (delete k (tasks_running r)) r in
      let r := if bool_decide (state = TsReady) then remove_task_from_ready k r else r in
      let r := foldl (resolve_dependent job_id now) r (elements (members (deps r) k)) in
      (true,
       if all_done job_id r
       then leave_running job_id (hset_job job_id (job_to JobDone) r)
       else r)
  end.

(** One sibling of a task that has failed. *)
Definition cancel_sibling (job_id task_id : string) (now : Z) (r : Redis) (tid : string) : Redis :=
  let sib := (job_id, tid) in
  if bool_decide (tid = task_id) then r else
  match tasks r !! sib with
  | None => r
  | Some t =>
      let state := t_state t in
      if bool_decide (state = TsReady) || bool_decide (state = TsPending) then
        let r := if bool_decide (state = TsReady) then remove_task_from_ready sib r else r in
        adjust_task_state_count_for_task sib (Some state) (Some TsCancelled)
          (alter_task sib (fun t => set_updated now (set_state TsCancelled t)) r)
      else r
  end.

Definition update_task_failed (job_id task_id err : string) (now : Z) (r : Redis)
    : bool * Redis :=
  let k := (job_id, task_id) in
  match tasks r !! k with
  | None => (false, r)
  | Some t =>
      let state := t_state t in
      if negb (is_counted_task_state state) then (false, r) else
      let r := alter_task k (fun t =>
        set_updated now (set_progress 1 (set_error err (set_state TsFailed t)))) r in
      let r := adjust_task_state_count_for_task k (Some state) (Some TsFailed) r in
      let r := if bool_decide (state = TsRunning)
               then with_running (delete k (tasks_running r)) r
               else if bool_decide (state = TsReady) then remove_task_from_ready k r else r in
      let r := leave_running job_id (hset_job job_id (job_fails err) r) in
      (true, foldl (cancel_sibling job_id task_id now) r
               (elements (members (tasks_by_job r) job_id)))
  end.

Definition update_task_progress (job_id task_id : string) (progress : Q) (now : Z) (r : Redis)
    : bool * Redis :=
  let k := (job_id, task_id) in
  match tasks r !! k with
  | None => (false, r)
  | Some t =>
      if negb (bool_decide (t_state t = TsReady) || bool_decide (t_state t = TsRunning))
      then (false, r) else
      let r := if Qle_bool progress (t_progress t) then r
               else alter_task k (set_progress progress) r in
      (true, alter_task k (set_updated now) r)
  end.

Definition update_task_retry (job_id task_id : string) (now : Z) (r : Redis) : bool * Redis :=
  let k := (job_id, task_id) in
  match tasks r !! k with
  | None => (false, r)
  | Some t =>
      if negb (bool_decide (t_state t = TsRunning)) then (false, r) else
      let retries := t_retries t + 1 in
      let r := alter_task k (set_retries retries) r in
      let r := with_running (delete k (tasks_running r)) r in
      if t_max_retries t <? retries then
        let r := alter_task k (fun t =>
          set_updated now (set_progress 1
            (set_error "retry max hit"%string (set_state TsFailed t)))) r in
        let r := adjust_task_state_count_for_task k (Some TsRunning) (Some TsFailed) r in
        (false, leave_running job_id (hset_job job_id (job_fails "retry max hit"%string) r))
      else
        let r := alter_task k (fun t =>
          set_updated now (set_progress 0 (set_error ""%string (set_state TsReady t)))) r in
        let r := adjust_task_state_count_for_task k (Some TsRunning) (Some TsReady) r in
        (true, enqueue_task k r)
  end.

(** One task of a job that is deleted; the first task is only left to expire. *)
Definition delete_task (job_id : string) (r : Redis) (tid : string) : Redis :=
  let k := (job_id, tid) in
  let state := task_state r k in
  let r := if bool_decide (state = Some TsReady) then remove_task_from_ready k r
           else if bool_decide (state = Some TsRunning)
                then with_running (delete k (tasks_running r)) r else r in
  let r := adjust_task_state_count_for_task k state None r in
  let prereqs := default [] (t_prerequisites <$> tasks r !! k) in
  let r := foldl (fun r pre => with_deps (srem (job_id, pre) tid (deps r)) r) r prereqs in
  let r := with_deps (delete k (deps r)) r in
  if bool_decide (tid = "init"%string) then r else with_tasks (delete k (tasks r)) r.

Definition delete_job (job_id : string) (r : Redis) : Redis :=
  let r := leave_running job_id r in
  let r := foldl (delete_task job_id) r (elements (members (tasks_by_job r) job_id)) in
  with_jobs (delete job_id (jobs r)) (with_tasks_by_job (delete job_id (tasks_by_job r)) r).

(** [EXPIRE]: the first task of a job that was deleted goes when its time is over. *)
Definition expire_init (job_id : string) (r : Redis) : Redis :=
  with_tasks (delete (job_id, "init"%string) (tasks r)) r.

Definition count_unresolved (job_id : string) (r : Redis) : Z :=
  Z.of_nat (length (filter (fun tid => task_state r (job_id, tid) <> Some TsDone)
                      (elements (members (tasks_by_job r) job_id)))).

Record StuckTaskInfo := mkStuck {
  stuck_job_id : string;
  stuck_task_id : string;
  stuck_worker_type : string;
  stuck_waiting_on : Z;
  stuck_actual_deps : Z;
  stuck_completed_deps : Z
}.

Definition completed_deps (r : Redis) (job_id : string) (prereqs : list string) : Z :=
  Z.of_nat (length (filter (fun pre => task_state r (job_id, pre) = Some TsDone) prereqs)).

Definition stuck_task (r : Redis) (job_id tid : string) : option StuckTaskInfo :=
  match tasks r !! (job_id, tid) with
  | None => None
  | Some t =>
      let actual := Z.of_nat (length (t_prerequisites t)) in
      let completed := completed_deps r job_id (t_prerequisites t) in
      if bool_decide (t_state t = TsPending) && (0 <? t_waiting_on t) && (actual <=? completed)
      then Some (mkStuck job_id tid (t_worker_type t) (t_waiting_on t) actual completed)
      else None
  end.

(** The scan ends as soon as there are [limit] results. *)
Definition find_stuck_pending (limit : nat) (r : Redis) : list StuckTaskInfo :=
  take limit
    (concat (map (fun '(job_id, tids) =>
       if bool_decide (job_state r job_id = Some JobRunning)
       then omap (stuck_task r job_id) (elements (tids : gset string))
       else []) (map_to_list (tasks_by_job r)))).

Definition count_task_states (r : Redis) : list (string * Z * TaskState * Z) * Redis :=
  let r := bootstrap_task_state_counts r in
  (map_to_list (default ∅ (task_counts r)), r).

(** ** The client ([RedisTaskDb]) *)

(** The connection: a function of the library runs as a whole, or the call fails, in
    which case it may have run or not; the clock, random identifiers, and the text of
    identifiers and of JSON. *)
Class TaskDbEnv (X : Type) := {
  fcall : forall {A : Type}, (Redis -> A * Redis) -> st X (TaskDbErr + A);
  now_seconds : st X Z;
  new_v4 : st X string;
  parse_uuid : string -> option string;
  valid_json : string -> bool
}.

Section Client.
Context {X : Type} `{TaskDbEnv X}.

Abbreviation db A := (ste X TaskDbErr A).

Definition run_fcall {A} (f : Redis -> A * Redis) : db A :=
  r ← lift (fcall f); match r with inr a => mret a | inl e => throw e end.

(** A function that can answer with an error reply. *)
Definition run_fcall_reply {A} (f : Redis -> result string A * Redis) : db A :=
  r ← run_fcall f;
  match r with Ok a => mret a | Err msg => throw (RedisError msg) | Panic => liftr Panic end.

Definition read {A} (f : Redis -> A) : db A := run_fcall (fun r => (f r, r)).

Definition parse_id (label raw : string) : result TaskDbErr string :=
  ok_or (InternalErr ("failed to parse " ++ label)%string) (parse_uuid raw).

Definition db_create_stream (worker_type : string) (reserved : Z) (be_mult : Q)
    (user_id : string) : db string :=
  if Qeq_bool be_mult 0 then throw InvalidBeMult else
  stream_id ← lift new_v4;
  created_id ← run_fcall (create_stream worker_type reserved be_mult user_id stream_id);
  liftr (parse_id "stream id" created_id).

Definition db_create_job_with_priority (stream_id task_def : string)
    (max_retries timeout_secs : Z) (user_id : string) (priority : Priority) : db string :=
  now ← lift now_seconds;
  job_id ← lift new_v4;
  created_id ← run_fcall_reply (create_job stream_id task_def max_retries timeout_secs user_id
                                  job_id now (bucket priority));
  liftr (parse_id "job id" created_id).

Definition db_create_job (stream_id task_def : string) (max_retries timeout_secs : Z)
    (user_id : string) : db string :=
  db_create_job_with_priority stream_id task_def max_retries timeout_secs user_id Medium.

Definition db_create_task (job_id task_id stream_id task_def : string) (prereqs : list string)
    (max_retries timeout_secs : Z) : db unit :=
  now ← lift now_seconds;
  run_fcall_reply (create_task job_id task_id stream_id task_def prereqs max_retries
                     timeout_secs now).

Definition db_request_work (worker_type : string) : db (option ReadyTask) :=
  now ← lift now_seconds;
  raw ← run_fcall (request_work worker_type now);
  match raw with
  | None => mret None
  | Some t =>
      job_id ← liftr (parse_id "job_id" (rt_job_id t));
      if valid_json (rt_task_def t)
      then mret (Some (mkReadyTask job_id (rt_task_id t) (rt_task_def t) (rt_prereqs t)
                         (rt_max_retries t)))
      else throw JsonErr
  end.

(** One turn of the loop of [request_work_blocking]: the deadline has passed, or the
    wait ended with or without a notification. *)
Inductive WaitTurn := DeadlinePassed | WaitEnded (notified : bool).

Fixpoint wait_for_work (turns : list WaitTurn) (worker_type : string) : db (option ReadyTask) :=
  match turns with
  | [] => liftr Panic
  | DeadlinePassed :: _ => mret None
  | WaitEnded notified :: turns =>
      task ← db_request_work worker_type;
      match task with
      | Some task => mret (Some task)
      | None => if notified then wait_for_work turns worker_type else mret None
      end
  end.

Definition db_request_work_blocking (turns : list WaitTurn) (worker_type : string)
    (timeout_secs : Z) : db (option ReadyTask) :=
  task ← db_request_work worker_type;
  match task with
  | Some task => mret (Some task)
  | None => if timeout_secs =? 0 then mret None else wait_for_work turns worker_type
  end.

Definition db_update_task_done (job_id task_id output : string) : db bool :=
  now ← lift now_seconds; run_fcall (update_task_done job_id task_id output now).

Definition db_update_task_failed (job_id task_id error : string) : db bool :=
  now ← lift now_seconds; run_fcall (update_task_failed job_id task_id error now).

Definition db_update_task_progress (job_id task_id : string) (progress : Q) : db bool :=
  now ← lift now_seconds; run_fcall (update_task_progress job_id task_id progress now).

Definition db_update_task_retry (job_id task_id : string) : db bool :=
  now ← lift now_seconds; run_fcall (update_task_retry job_id task_id now).

(** [ZRANGEBYSCORE -inf now LIMIT 0 limit]: the tasks whose deadline has passed, by
    deadline. *)
Definition expired_running (limit : nat) (now : Z) (r : Redis) : list TaskKey :=
  take limit (map fst (merge_sort precedes
    (filter (fun x => x.2 <= now) (map_to_list (tasks_running r))))).

Fixpoint retry_each (expired : list TaskKey) : db Z :=
  match expired with
  | [] => mret 0
  | (job_id, task_id) :: expired =>
      job_id ← liftr (parse_id "job_id" job_id);
      again ← db_update_task_retry job_id task_id;
      n ← retry_each expired;
      mret (if (again : bool) then n + 1 else n)
  end.

Definition requeue_tasks (limit : nat) : db Z :=
  now ← lift now_seconds;
  expired ← read (expired_running limit now);
  retry_each expired.

(** Fields are read by commands of their own, between which the database may change. *)
Definition get_job_state (job_id user_id : string) : db JobState :=
  job_user ← read (fun r => jobs r !! job_id ≫= jm_user_id);
  if bool_decide (job_user = Some user_id) then
    state ← read (fun r => job_state r job_id);
    match state with
    | Some s => mret s
    | None => throw (RedisError "no state")
    end
  else throw (NotFound "job not found for user").

Definition get_stream (user_id worker_type : string) : db (option string) :=
  found ← read (fun r => stream_lookup r !! (user_id ++ ":" ++ worker_type)%string);
  match found with
  | Some s => stream_id ← liftr (parse_id "stream id" s); mret (Some stream_id)
  | None => mret None
  end.

Definition get_job_unresolved (job_id : string) : db Z := read (count_unresolved job_id).

Definition get_concurrent_jobs (user_id : string) : db Z :=
  read (fun r => Z.of_nat (size (members (jobs_running r) user_id))).

Definition read_state (job_id task_id : string) : db (option TaskState) :=
  read (fun r => task_state r (job_id, task_id)).

Definition get_task_retries_running (job_id task_id : string) : db (option Z) :=
  state ← read_state job_id task_id;
  if bool_decide (state = Some TsRunning) then
    retries ← read (fun r => t_retries <$> tasks r !! (job_id, task_id));
    match retries with
    | Some n => mret (Some n)
    | None => throw (RedisError "no retries")
    end
  else mret None.

(** The first task of the job that has failed with a message. *)
Fixpoint failure_among (job_id : string) (task_ids : list string) : db string :=
  match task_ids with
  | [] => throw (NotFound "no failed task for job")
  | task_id :: task_ids =>
      state ← read_state job_id task_id;
      if bool_decide (state = Some TsFailed) then
        error ← read (fun r => t_error <$> tasks r !! (job_id, task_id));
        match error with
        | Some err => if bool_decide (err = ""%string) then failure_among job_id task_ids
                      else mret err
        | None => failure_among job_id task_ids
        end
      else failure_among job_id task_ids
  end.

Definition get_job_failure (job_id : string) : db string :=
  task_ids ← read (fun r => elements (members (tasks_by_job r) job_id));
  failure_among job_id task_ids.

Definition get_task_output (job_id task_id : string) : db string :=
  state ← read_state job_id task_id;
  if bool_decide (state = Some TsDone) then
    output ← read (fun r => t_output <$> tasks r !! (job_id, task_id));
    match output with
    | Some out =>
        if bool_decide (out = ""%string) then throw (InternalErr "task has no output") else
        if valid_json out then mret out else throw JsonErr
    | None => throw (InternalErr "task has no output")
    end
  else throw (NotFound "task is not done").

Definition db_delete_job (job_id : string) : db unit :=
  run_fcall (fun r => (tt, delete_job job_id r)).

Definition check_stuck_pending_tasks : db (list StuckTaskInfo) :=
  raw ← read (find_stuck_pending 100);
  liftr (collect (fun s =>
    job_id ← parse_id "stuck_task job_id" (stuck_job_id s);
    mret (mkStuck job_id (stuck_task_id s) (stuck_worker_type s) (stuck_waiting_on s)
            (stuck_actual_deps s) (stuck_completed_deps s))) raw).

Definition parse_priority (raw : Z) : result TaskDbErr Priority :=
  if raw =? 0 then Ok High else if raw =? 1 then Ok Medium else if raw =? 2 then Ok Low
  else Err (InternalErr "invalid priority value").

Definition get_task_state_counts : db (list (string * Priority * TaskState * Z)) :=
  raw ← run_fcall count_task_states;
  liftr (collect (fun '(worker_type, priority, state, count) =>
    priority ← parse_priority priority;
    mret (worker_type, priority, state, count)) raw).

Definition finished_jobs (r : Redis) : list string :=
  map fst (filter (fun x : string * JobMeta =>
             jm_state x.2 = Some JobDone \/ jm_state x.2 = Some JobFailed)
           (map_to_list (jobs r))).

Fixpoint delete_each (to_delete : list string) : db unit :=
  match to_delete with
  | [] => mret tt
  | job_id :: to_delete => _ ← db_delete_job job_id; delete_each to_delete
  end.

Definition clear_completed_jobs : db Z :=
  found ← read finished_jobs;
  to_delete ← liftr (collect (parse_id "job id") found);
  _ ← delete_each to_delete;
  mret (Z.of_nat (length to_delete)).
End Client.
