(* ===== verification/TaskDbFacts.v ===== *)
(** * The invariant of the task database

    The invariant of the states of [TaskDb], and its preservation by the functions that
    hand out, end and retry tasks: the queues and the running set are the tasks of those
    states, a task waits for its prerequisites that are not done, the counts are exact.
    [keeps] says how often a task can still be handed out. *)

From S2P Require Import Prelude TaskDb.
From Stdlib Require Import QArith.QArith.

Local Open Scope Z_scope.

(** ** Sorted sets *)

Lemma pop_min_list (l : list (TaskKey * Z)) :
  match foldr (fun x best => match best with
                             | Some y => if before x y then Some x else Some y
                             | None => Some x
                             end) None l with
  | None => l = []
  | Some x => x ∈ l /\ forall y, y ∈ l -> x.2 <= y.2
  end.
Proof.
  induction l as [|x l IH]; [done|]. simpl.
  destruct (foldr _ None l) as [y|].
  - destruct IH as [Hy Hmin]. unfold before.
    destruct (Z.ltb_spec x.2 y.2) as [Hlt|Hge]; simpl.
    + split; [left|]. intros z [->|Hz]%elem_of_cons; [lia|]. specialize (Hmin z Hz). lia.
    + destruct (Z.eqb_spec x.2 y.2) as [Heq|Hne]; simpl.
      * destruct (String.leb _ _); (split; [first [by left|by right]|]);
          (intros z [->|Hz]%elem_of_cons; [lia|]); specialize (Hmin z Hz); lia.
      * split; [by right|]. intros z [->|Hz]%elem_of_cons; [lia|by apply Hmin].
  - subst l. split; [left|]. intros y Hy. apply list_elem_of_singleton in Hy as ->. done.
Qed.

Lemma pop_min_Some z k s :
  pop_min z = Some (k, s) -> z !! k = Some s /\ forall k' s', z !! k' = Some s' -> s <= s'.
Proof.
  unfold pop_min. pose proof (pop_min_list (map_to_list z)) as H. intros E. rewrite E in H.
  destruct H as [Hin Hmin]. apply elem_of_map_to_list in Hin. split; [done|].
  intros k' s' Hl. apply (Hmin (k', s')). by apply elem_of_map_to_list.
Qed.

Lemma pop_min_None z : pop_min z = None -> z = ∅.
Proof.
  unfold pop_min. pose proof (pop_min_list (map_to_list z)) as H. intros E. rewrite E in H.
  by apply map_to_list_empty_iff.
Qed.

(** ** Sets *)

Lemma members_sadd `{Countable K} (m : gmap K (gset string)) k x k' :
  members (sadd k x m) k' = if decide (k' = k) then {[x]} ∪ members m k else members m k'.
Proof.
  unfold members at 1, sadd. case_decide as E; [subst; by rewrite lookup_insert_eq|].
  by rewrite lookup_insert_ne.
Qed.

Lemma members_srem `{Countable K} (m : gmap K (gset string)) k x k' :
  members (srem k x m) k' = if decide (k' = k) then members m k ∖ {[x]} else members m k'.
Proof.
  unfold members at 1, srem. case_decide as E; [subst; by rewrite lookup_insert_eq|].
  by rewrite lookup_insert_ne.
Qed.

Lemma members_delete `{Countable K} (m : gmap K (gset string)) k k' :
  members (delete k m) k' = if decide (k' = k) then ∅ else members m k'.
Proof.
  unfold members. case_decide as E; [subst; by rewrite lookup_delete_eq|].
  by rewrite lookup_delete_ne.
Qed.

(** ** Counting tasks by worker, priority and state *)

Definition matches (w : string) (p : Z) (s : TaskState) (t : Task) : bool :=
  bool_decide (t_worker_type t = w) && bool_decide (t_priority t = p)
  && bool_decide (t_state t = s).

Definition counted (ts : gmap TaskKey Task) (w : string) (p : Z) (s : TaskState) : Z :=
  Z.of_nat (size (filter (fun x : TaskKey * Task => matches w p s x.2 = true) ts)).

Definition bump (b : bool) : Z := if b then 1 else 0.

Definition match_opt (w : string) (p : Z) (s : TaskState) (o : option Task) : bool :=
  match o with Some t => matches w p s t | None => false end.

Lemma counted_insert ts k t w p s :
  counted (<[k := t]> ts) w p s
  = counted ts w p s - bump (match_opt w p s (ts !! k)) + bump (matches w p s t).
Proof.
  unfold counted.
  set (P := fun x : TaskKey * Task => matches w p s x.2 = true).
  assert (Hdel : size (filter P (delete k ts))
                 = (size (filter P ts) - (if match_opt w p s (ts !! k) then 1 else 0))%nat).
  { rewrite map_filter_delete. destruct (ts !! k) as [t0|] eqn:E; simpl.
    - destruct (matches w p s t0) eqn:Em.
      + rewrite map_size_delete_Some; [lia|]. exists t0.
        by apply map_lookup_filter_Some.
      + rewrite delete_id; [lia|]. apply map_lookup_filter_None. right.
        intros x Hx. unfold P. simpl. rewrite E in Hx. injection Hx as <-. by rewrite Em.
    - rewrite delete_id; [lia|]. apply map_lookup_filter_None. by left. }
  assert (Hle : ((if match_opt w p s (ts !! k) then 1 else 0) <= size (filter P ts))%nat).
  { case_match eqn:E; [|lia]. unfold match_opt in E. destruct (ts !! k) as [t0|] eqn:E0; [|done].
    assert (filter P ts !! k = Some t0) as Hl by by apply map_lookup_filter_Some.
    destruct (size (filter P ts)) eqn:Es; [|lia].
    apply map_size_empty_inv in Es. by rewrite Es, lookup_empty in Hl. }
  rewrite <- insert_delete_eq.
  assert (Hnone : delete k ts !! k = None) by apply lookup_delete_eq.
  destruct (matches w p s t) eqn:Em.
  - rewrite map_filter_insert_True by done.
    rewrite map_size_insert_None by (apply map_lookup_filter_None; by left).
    rewrite Hdel. unfold bump. case_match; lia.
  - rewrite map_filter_insert_False by (unfold P; simpl; by rewrite Em).
    rewrite delete_delete_eq, Hdel. unfold bump. case_match; lia.
Qed.

Lemma counted_pos ts k t w p s :
  ts !! k = Some t -> matches w p s t = true -> 1 <= counted ts w p s.
Proof.
  intros Hk Hm. unfold counted.
  set (P := fun x : TaskKey * Task => matches w p s x.2 = true).
  assert (filter P ts !! k = Some t) as Hl by by apply map_lookup_filter_Some.
  destruct (size (filter P ts)) eqn:Es; [|lia].
  apply map_size_empty_inv in Es. by rewrite Es, lookup_empty in Hl.
Qed.

Definition counts_ok (c : option (gmap (string * Z * TaskState) Z)) (ts : gmap TaskKey Task) : Prop :=
  match c with
  | None => True
  | Some c => forall w p s, is_counted_task_state s = true ->
                default 0 (c !! (w, p, s)) = counted ts w p s
  end.

Lemma with_counts_id r : with_counts (task_counts r) r = r.
Proof. by destruct r. Qed.

Lemma adjust_opt_frame w p o d r :
  adjust_opt w p o d r = with_counts (task_counts (adjust_opt w p o d r)) r.
Proof.
  unfold adjust_opt, adjust_task_state_count.
  repeat case_match; simpl; by rewrite ?with_counts_id.
Qed.

Definition hits (w : string) (p : Z) (o : option TaskState) (f : string * Z * TaskState) : bool :=
  bool_decide (f.1.1 = w) && bool_decide (f.1.2 = p) && bool_decide (o = Some f.2).

Lemma hits_None w p f : hits w p None f = false.
Proof. unfold hits. rewrite (bool_decide_eq_false_2 (None = _)) by done. apply andb_false_r. Qed.

Lemma adjust_opt_counts w p o d r c :
  task_counts r = Some c -> d <> 0 ->
  exists c', task_counts (adjust_opt w p o d r) = Some c'
  /\ forall f, is_counted_task_state f.2 = true ->
       default 0 (c' !! f) = if hits w p o f then Z.max 0 (default 0 (c !! f) + d)
                             else default 0 (c !! f).
Proof.
  intros Hc Hd. unfold adjust_opt.
  destruct o as [s|]; [destruct (is_counted_task_state s) eqn:Es|].
  - unfold adjust_task_state_count. rewrite Hc, Es. simpl.
    destruct (Z.eqb_spec d 0) as [|_]; [done|]. simpl. eexists. split; [done|].
    intros [[w' p'] s'] _. unfold hits. simpl.
    destruct (decide ((w, p, s) = (w', p', s'))) as [[= <- <- <-]|Hne].
    + rewrite !bool_decide_true by done. simpl.
      destruct (Z.leb_spec (default 0 (c !! (w, p, s)) + d) 0).
      * rewrite lookup_delete_eq. simpl. lia.
      * rewrite lookup_insert_eq. simpl. lia.
    + replace (_ && _) with false; [|symmetry; apply not_true_iff_false;
        rewrite !andb_true_iff, !bool_decide_eq_true; naive_solver].
      case_match; [by rewrite lookup_delete_ne|by rewrite lookup_insert_ne].
  - exists c. split; [done|]. intros [[w' p'] s'] Hs. unfold hits. simpl in *.
    rewrite (bool_decide_eq_false_2 (Some s = Some s')) by congruence.
    by rewrite andb_false_r.
  - exists c. split; [done|]. intros f _. by rewrite hits_None.
Qed.

Lemma adjust_meta_frame w p o n r :
  adjust_task_state_count_for_meta w p o n r
  = with_counts (task_counts (adjust_task_state_count_for_meta w p o n r)) r.
Proof.
  unfold adjust_task_state_count_for_meta. rewrite adjust_opt_frame at 1.
  by rewrite (adjust_opt_frame w p o (-1) r) at 2.
Qed.

(** A task moves from the state [o] to the state [n]; [None] is no task. *)
Lemma counts_adjust w p o n r ts ts' :
  counts_ok (task_counts r) ts ->
  (forall w' p' s', bump (hits w p o (w', p', s')) <= counted ts w' p' s') ->
  (forall w' p' s', counted ts' w' p' s'
     = counted ts w' p' s' - bump (hits w p o (w', p', s')) + bump (hits w p n (w', p', s'))) ->
  counts_ok (task_counts (adjust_task_state_count_for_meta w p o n r)) ts'.
Proof.
  intros Hok Hle Hts. unfold adjust_task_state_count_for_meta.
  destruct (task_counts r) as [c|] eqn:Hc.
  - destruct (adjust_opt_counts w p o (-1) r c Hc) as (c1 & Hc1 & H1); [done|].
    destruct (adjust_opt_counts w p n 1 _ c1 Hc1) as (c2 & Hc2 & H2); [done|].
    rewrite Hc2. intros w' p' s' Hs. rewrite H2, H1, Hts by done. simpl in Hok.
    rewrite (Hok w' p' s' Hs). specialize (Hle w' p' s').
    unfold bump in *. repeat case_match; lia.
  - assert (forall o d r, task_counts r = None -> task_counts (adjust_opt w p o d r) = None) as Hn.
    { intros o' d' r' Hr. unfold adjust_opt, adjust_task_state_count. rewrite Hr.
      by repeat case_match. }
    by rewrite Hn by by apply Hn.
Qed.

Lemma hits_matches t w p s :
  hits (t_worker_type t) (t_priority t) (Some (t_state t)) (w, p, s) = matches w p s t.
Proof.
  unfold hits, matches. simpl. apply eq_true_iff_eq.
  rewrite !andb_true_iff, !bool_decide_eq_true. naive_solver.
Qed.

(** The same for a task that is in the table. *)
Lemma counts_adjust_insert k t t' r :
  tasks r !! k = Some t -> t_worker_type t' = t_worker_type t -> t_priority t' = t_priority t ->
  counts_ok (task_counts r) (tasks r) ->
  counts_ok
    (task_counts (adjust_task_state_count_for_meta (t_worker_type t) (t_priority t)
                    (Some (t_state t)) (Some (t_state t')) r))
    (<[k := t']> (tasks r)).
Proof.
  intros Hk Hw Hp Hok. apply (counts_adjust _ _ _ _ _ (tasks r)); [done|..].
  - intros w p s. rewrite hits_matches. unfold bump. case_match eqn:E; [|unfold counted; lia].
    by apply (counted_pos _ k t).
  - intros w p s. rewrite counted_insert, Hk, hits_matches. simpl. by rewrite <- Hw, <- Hp, hits_matches.
Qed.

Lemma counts_adjust_new k t r :
  tasks r !! k = None -> counts_ok (task_counts r) (tasks r) ->
  counts_ok
    (task_counts (adjust_task_state_count_for_meta (t_worker_type t) (t_priority t)
                    None (Some (t_state t)) r))
    (<[k := t]> (tasks r)).
Proof.
  intros Hk Hok. apply (counts_adjust _ _ _ _ _ (tasks r)); [done|..].
  - intros w p s. rewrite hits_None. unfold counted. simpl. lia.
  - intros w p s. by rewrite counted_insert, Hk, hits_None, hits_matches.
Qed.

(** ** The invariant *)

(** The parts of a task that never change. *)
Definition same_task (t t' : Task) : Prop :=
  t_prerequisites t' = t_prerequisites t /\ t_sort_seq t' = t_sort_seq t
  /\ t_worker_type t' = t_worker_type t /\ t_priority t' = t_priority t.

(** The prerequisites that are not done. *)
Definition undone (r : Redis) (job_id : string) (prereqs : list string) : Z :=
  Z.of_nat (length (filter (fun p => task_state r (job_id, p) <> Some TsDone) prereqs)).

Definition state_ok (t : Task) : Prop :=
  match t_state t with
  | TsPending => 0 < t_waiting_on t
  | TsReady | TsRunning | TsDone => t_waiting_on t = 0
  | TsFailed | TsCancelled => True
  end.

Definition retries_ok (t : Task) : Prop :=
  0 <= t_retries t
  /\ (t_state t <> TsFailed -> t_retries t <= Z.max 0 (t_max_retries t)).

Definition settled (s : TaskState) : Prop := s = TsDone \/ s = TsFailed \/ s = TsCancelled.

(** What the state of a job says of its tasks. *)
Definition job_allows (js : option JobState) (s : TaskState) : Prop :=
  match js with
  | Some JobRunning => s <> TsFailed /\ s <> TsCancelled
  | Some JobDone => s = TsDone
  | Some JobFailed => True
  | None => False
  end.

(** One task of the table; those in [todo] have not yet been told of one prerequisite
    that is done. *)
Record task_ok (todo : list TaskKey) (r : Redis) (k : TaskKey) (t : Task) : Prop := {
  ok_seq : 0 < t_sort_seq t <= task_sequence r;
  ok_nodup : NoDup (t_prerequisites t);
  ok_prereq : forall p, p ∈ t_prerequisites t ->
    exists tp, tasks r !! (k.1, p) = Some tp /\ t_sort_seq tp < t_sort_seq t;
  ok_waiting : t_state t <> TsFailed ->
    t_waiting_on t = undone r k.1 (t_prerequisites t) + bump (bool_decide (k ∈ todo));
  ok_state : state_ok t;
  ok_retries : retries_ok t
}.

Record Inv (todo : list TaskKey) (r : Redis) : Prop := {
  inv_task : forall k t, tasks r !! k = Some t -> task_ok todo r k t;
  inv_seq : forall k k' t t', tasks r !! k = Some t -> tasks r !! k' = Some t' ->
    t_sort_seq t = t_sort_seq t' -> k = k';
  inv_live : forall k t, tasks r !! k = Some t ->
    k.2 ∈ members (tasks_by_job r) k.1
    \/ (k.2 = "init"%string /\ members (tasks_by_job r) k.1 = ∅ /\ jobs r !! k.1 = None
        /\ settled (t_state t) /\ t_prerequisites t = []);
  inv_exists : forall k, k.2 ∈ members (tasks_by_job r) k.1 -> is_Some (tasks r !! k);
  inv_queue : forall q k s, queue r q !! k = Some s
    <-> exists t, tasks r !! k = Some t /\ t_state t = TsReady
                  /\ q = (t_worker_type t, t_priority t) /\ s = t_sort_seq t;
  inv_running : forall k, is_Some (tasks_running r !! k) <-> task_state r k = Some TsRunning;
  inv_deps : forall k p, k.2 ∈ members (deps r) (k.1, p)
    <-> exists t, tasks r !! k = Some t /\ p ∈ t_prerequisites t;
  inv_counts : counts_ok (task_counts r) (tasks r);
  inv_job : forall k t, k.2 ∈ members (tasks_by_job r) k.1 -> tasks r !! k = Some t ->
    job_allows (job_state r k.1) (t_state t);
  inv_user : forall u j, j ∈ members (jobs_running r) u
    <-> exists m, jobs r !! j = Some m /\ jm_state m = Some JobRunning /\ jm_user_id m = Some u;
  inv_sequence : 0 <= task_sequence r
}.

Lemma undone_ext r r' j ps :
  (forall p, p ∈ ps -> (task_state r' (j, p) = Some TsDone <-> task_state r (j, p) = Some TsDone)) ->
  undone r' j ps = undone r j ps.
Proof.
  intros H. unfold undone. f_equal. f_equal.
  induction ps as [|p ps IH]; [done|]. rewrite !filter_cons.
  rewrite (IH ltac:(intros; apply H; by right)).
  specialize (H p ltac:(by left)). repeat case_decide; naive_solver.
Qed.

Lemma undone_zero r j ps :
  undone r j ps = 0 <-> forall p, p ∈ ps -> task_state r (j, p) = Some TsDone.
Proof.
  unfold undone. split.
  - intros H p Hp. destruct (decide (task_state r (j, p) = Some TsDone)) as [|Hn]; [done|].
    assert (p ∈ filter (fun p => task_state r (j, p) <> Some TsDone) ps) as Hin
      by by apply list_elem_of_filter.
    destruct (filter _ ps); [by apply elem_of_nil in Hin|done].
  - intros H. induction ps as [|p ps IH]; [done|]. rewrite filter_cons, decide_False.
    + apply IH. intros p' Hp'. apply H. by right.
    + rewrite H by (by left). naive_solver.
Qed.

Lemma undone_pos r j ps :
  0 < undone r j ps -> exists p, p ∈ ps /\ task_state r (j, p) <> Some TsDone.
Proof.
  unfold undone. destruct (filter _ ps) as [|p l] eqn:E; [done|]. intros _. exists p.
  assert (p ∈ filter (fun p => task_state r (j, p) <> Some TsDone) ps) as H
    by (rewrite E; by left).
  by apply list_elem_of_filter in H as [? ?].
Qed.

Lemma undone_nonneg r j ps : 0 <= undone r j ps.
Proof. unfold undone. lia. Qed.

Lemma task_state_insert r r' k t' k' :
  tasks r' = <[k := t']> (tasks r) ->
  task_state r' k' = if decide (k' = k) then Some (t_state t') else task_state r k'.
Proof.
  intros H. unfold task_state. rewrite H.
  case_decide as E; [subst; by rewrite lookup_insert_eq|by rewrite lookup_insert_ne].
Qed.

(** The invariant only says of [todo] which tasks are in it. *)
Lemma inv_todo todo todo' r :
  (forall k t, tasks r !! k = Some t -> t_state t <> TsFailed -> (k ∈ todo <-> k ∈ todo')) ->
  Inv todo r -> Inv todo' r.
Proof.
  intros Ht [H1 H2 H3 H4 H5 H6 H7 H8 H9 H10 H11]. split; try done.
  intros k t Hk. destruct (H1 k t Hk) as [A1 A2 A3 A4 A5 A6]. split; try done.
  intros Hs. rewrite (A4 Hs). do 2 f_equal. apply bool_decide_ext. by apply (Ht k t).
Qed.

Definition queue_of (t : Task) : string * Z := (t_worker_type t, t_priority t).

(** [moved r r' k t t']: the task [k] becomes [t'], and the queues, the running set and
    the counts follow. *)
Record moved (r r' : Redis) (k : TaskKey) (t t' : Task) : Prop := {
  mv_tasks : tasks r' = <[k := t']> (tasks r);
  mv_same : same_task t t';
  mv_by_job : tasks_by_job r' = tasks_by_job r;
  mv_deps : deps r' = deps r;
  mv_sequence : task_sequence r' = task_sequence r;
  mv_queue : forall q, queue r' q
    = if decide (q = queue_of t) then
        (if decide (t_state t' = TsReady) then <[k := t_sort_seq t]> (queue r q)
         else delete k (queue r q))
      else queue r q;
  mv_running : forall k', is_Some (tasks_running r' !! k')
    <-> if decide (k' = k) then t_state t' = TsRunning else is_Some (tasks_running r !! k');
  mv_counts : counts_ok (task_counts r) (tasks r) -> counts_ok (task_counts r') (tasks r')
}.

(** Decide the first equality of the goal. *)
Ltac on_key E :=
  match goal with |- context [@decide ?P ?H] => destruct (@decide P H) as [E|E] end; cbn iota.

Lemma inv_move todo todo' r r' k t t' :
  Inv todo r -> tasks r !! k = Some t -> k.2 ∈ members (tasks_by_job r) k.1 ->
  moved r r' k t t' ->
  (forall k1 t1, k1 <> k -> tasks r !! k1 = Some t1 -> t_state t1 <> TsFailed ->
     t_waiting_on t1 = undone r' k1.1 (t_prerequisites t1) + bump (bool_decide (k1 ∈ todo'))) ->
  (t_state t' <> TsFailed ->
     t_waiting_on t' = undone r' k.1 (t_prerequisites t) + bump (bool_decide (k ∈ todo'))) ->
  state_ok t' -> retries_ok t' ->
  (forall j, j <> k.1 -> jobs r' !! j = jobs r !! j) ->
  (forall k1 t1, k1.1 = k.1 -> k1.2 ∈ members (tasks_by_job r) k.1 -> tasks r' !! k1 = Some t1 ->
     job_allows (job_state r' k.1) (t_state t1)) ->
  (forall u j, j ∈ members (jobs_running r') u
    <-> exists m, jobs r' !! j = Some m /\ jm_state m = Some JobRunning /\ jm_user_id m = Some u) ->
  Inv todo' r'.
Proof.
  intros HI Hk Hlive [Mt (Sp & Ss & Sw & Spr) Mb Md Msq Mq Mr Mc] Hw Hw' Hst Hre Hj Hja Hu.
  assert (Hl : forall k1, tasks r' !! k1 = if decide (k1 = k) then Some t' else tasks r !! k1).
  { intros k1. rewrite Mt. on_key E;
      [rewrite E; by rewrite lookup_insert_eq|by rewrite lookup_insert_ne]. }
  destruct (inv_task _ _ HI k t Hk) as [A1 A2 A3 A4 A5 A6].
  split; rewrite ?Mb, ?Md.
  - intros k1 t1. rewrite Hl. on_key E.
    + intros [= <-]. subst k1. split; rewrite ?Sp, ?Ss, ?Msq; try done.
      intros p Hp. destruct (A3 p Hp) as (tp & Htp & Hlt). rewrite Hl. on_key E'.
      * exists t'. rewrite E', Hk in Htp. injection Htp as <-. by rewrite Ss.
      * by exists tp.
    + intros Hk1. destruct (inv_task _ _ HI k1 t1 Hk1) as [B1 B2 B3 B4 B5 B6].
      split; rewrite ?Msq; try done; [|by apply Hw].
      intros p Hp. destruct (B3 p Hp) as (tp & Htp & Hlt). rewrite Hl. on_key E'.
      * exists t'. rewrite E', Hk in Htp. injection Htp as <-. by rewrite Ss.
      * by exists tp.
  - assert (forall k1 t1, tasks r' !! k1 = Some t1 ->
              exists t0, tasks r !! k1 = Some t0 /\ t_sort_seq t0 = t_sort_seq t1) as Hs.
    { intros k1 t1. rewrite Hl. on_key E0; [intros [= <-]; subst; by exists t|by exists t1]. }
    intros k1 k2 t1 t2 (t1' & H1 & E1)%Hs (t2' & H2 & E2)%Hs E.
    apply (inv_seq _ _ HI k1 k2 t1' t2'); congruence.
  - intros k1 t1. rewrite Hl. on_key E; [subst; by left|]. intros Hk1.
    destruct (inv_live _ _ HI k1 t1 Hk1) as [|(E1 & E2 & E3)]; [by left|right].
    rewrite Hj; [done|]. intros Ej. rewrite Ej in E2. rewrite E2 in Hlive. set_solver.
  - intros k1 Hk1. rewrite Hl. on_key E0; [done|by apply (inv_exists _ _ HI)].
  - intros q k1 s. rewrite Mq, Hl. fold (queue_of t).
    pose proof (inv_queue _ _ HI q k1 s) as IQ.
    destruct (decide (k1 = k)) as [->|Hne]; cbn iota.
    + assert (queue_of t' = queue_of t) as Eq by (unfold queue_of; by rewrite Sw, Spr).
      on_key Hq; [subst q|].
      * on_key Er.
        -- rewrite lookup_insert_eq. split.
           ++ intros [= <-]. exists t'. by rewrite Ss.
           ++ intros (t1 & [= <-] & _ & _ & ->). by rewrite Ss.
        -- rewrite lookup_delete_eq. naive_solver.
      * rewrite IQ, Hk. split; intros (t1 & [= <-] & Hs & -> & _); [done|]. by rewrite <- Eq in Hq.
    + on_key Hq; [subst q|done]. on_key Er; [by rewrite lookup_insert_ne|by rewrite lookup_delete_ne].
  - intros k1. rewrite Mr, (task_state_insert r r' k t') by done.
    on_key E0; [split; congruence|]. apply (inv_running _ _ HI).
  - intros k1 p. rewrite (inv_deps _ _ HI), Hl. on_key E; [|done]. subst k1. rewrite Hk.
    split; intros (t1 & [= <-] & Hp); eexists; (split; [done|]); by rewrite ?Sp in *.
  - apply Mc, (inv_counts _ _ HI).
  - intros k1 t1 Hk1 Ht1. destruct (decide (k1.1 = k.1)) as [E|E].
    + rewrite E in *. by apply (Hja k1 t1).
    + unfold job_state. rewrite Hj by done. revert Ht1. rewrite Hl. on_key E0; [by subst|]. by apply (inv_job _ _ HI k1 t1).
  - done.
  - rewrite Msq. apply (inv_sequence _ _ HI).
Qed.

(** ** The helpers, as changes of single fields *)

Lemma alter_insert k (f : Task -> Task) r t :
  tasks r !! k = Some t -> alter_task k f r = with_tasks (<[k := f t]> (tasks r)) r.
Proof.
  intros Hk. unfold alter_task. f_equal. apply map_eq. intros k1.
  destruct (decide (k1 = k)) as [->|Hne].
  - by rewrite lookup_alter_eq, lookup_insert_eq, Hk.
  - by rewrite lookup_alter_ne, lookup_insert_ne.
Qed.

Lemma alter_twice k (f g : Task -> Task) r :
  alter_task k f (alter_task k g r) = alter_task k (fun t => f (g t)) r.
Proof.
  unfold alter_task, with_tasks. simpl. f_equal. apply map_eq. intros k1.
  destruct (decide (k1 = k)) as [->|Hne].
  - rewrite !lookup_alter_eq. by destruct (tasks r !! k).
  - by rewrite !lookup_alter_ne.
Qed.

Lemma counts_same c ts k t t' :
  ts !! k = Some t -> same_task t t' -> t_state t' = t_state t ->
  counts_ok c ts -> counts_ok c (<[k := t']> ts).
Proof.
  intros Hk (_ & _ & Sw & Sp) Hs. destruct c as [c|]; [|done]. intros Hok w p s Hc.
  rewrite (Hok w p s Hc), counted_insert, Hk. simpl.
  replace (matches w p s t') with (matches w p s t); [lia|].
  unfold matches. by rewrite Sw, Sp, Hs.
Qed.

Lemma adjust_opt_ext w p o d r r0 :
  task_counts r = task_counts r0 ->
  task_counts (adjust_opt w p o d r) = task_counts (adjust_opt w p o d r0).
Proof.
  intros Hc. unfold adjust_opt, adjust_task_state_count. rewrite <- Hc.
  destruct o as [s|]; [|done]. destruct (is_counted_task_state s); [|done].
  destruct (task_counts r) as [c|] eqn:E; [|congruence].
  destruct (_ || _); simpl; congruence.
Qed.

Lemma adjust_meta_ex r0 r k t t' :
  tasks r = <[k := t']> (tasks r0) -> tasks r0 !! k = Some t -> same_task t t' ->
  task_counts r = task_counts r0 ->
  exists c, adjust_task_state_count_for_meta (t_worker_type t) (t_priority t)
              (Some (t_state t)) (Some (t_state t')) r = with_counts c r
            /\ (counts_ok (task_counts r0) (tasks r0) -> counts_ok c (tasks r)).
Proof.
  intros Ht Hk (_ & _ & Sw & Sp) Hc. eexists. split; [apply adjust_meta_frame|].
  intros Hok. rewrite Ht. pose proof (counts_adjust_insert k t t' r0 Hk Sw Sp Hok) as H.
  revert H. unfold adjust_task_state_count_for_meta.
  by rewrite (adjust_opt_ext _ _ _ _ _ _ (adjust_opt_ext _ _ _ _ _ _ Hc)).
Qed.

Lemma adjust_task_ex r0 r k t t' :
  tasks r = <[k := t']> (tasks r0) -> tasks r0 !! k = Some t -> same_task t t' ->
  task_counts r = task_counts r0 ->
  exists c, adjust_task_state_count_for_task k (Some (t_state t)) (Some (t_state t')) r
            = with_counts c r
            /\ (counts_ok (task_counts r0) (tasks r0) -> counts_ok c (tasks r)).
Proof.
  intros Ht Hk Hs Hc. pose proof Hs as (_ & _ & Sw & Sp).
  unfold adjust_task_state_count_for_task. rewrite Ht, lookup_insert_eq, Sw, Sp, <- Ht.
  by apply (adjust_meta_ex r0 r k).
Qed.

Lemma enqueue_ex k t r :
  tasks r !! k = Some t -> 0 < t_sort_seq t -> queue r (queue_of t) !! k = None ->
  exists m n, enqueue_task k r = with_notify n (with_ready m r)
  /\ forall q, default ∅ (m !! q)
       = if decide (q = queue_of t) then <[k := t_sort_seq t]> (queue r q) else queue r q.
Proof.
  intros Hk Hs Hq. unfold enqueue_task. rewrite Hk.
  destruct (Z.leb_spec (t_sort_seq t) 0); [lia|]. fold (queue_of t). rewrite Hq.
  do 2 eexists. split; [reflexivity|]. intros q.
  destruct (decide (q = queue_of t)) as [->|Hne]; [by rewrite lookup_insert_eq|].
  by rewrite lookup_insert_ne.
Qed.

Lemma remove_ex k t r :
  tasks r !! k = Some t ->
  exists m, remove_task_from_ready k r = with_ready m r
  /\ forall q, default ∅ (m !! q)
       = if decide (q = queue_of t) then delete k (queue r q) else queue r q.
Proof.
  intros Hk. unfold remove_task_from_ready. rewrite Hk. eexists. split; [reflexivity|].
  intros q. fold (queue_of t).
  destruct (decide (q = queue_of t)) as [->|Hne]; [by rewrite lookup_insert_eq|].
  by rewrite lookup_insert_ne.
Qed.

Lemma running_same (z : zset) k s :
  z !! k = None -> s <> TsRunning ->
  forall k', is_Some (z !! k') <-> if decide (k' = k) then s = TsRunning else is_Some (z !! k').
Proof.
  intros Hz Hs k'. destruct (decide (k' = k)) as [->|]; [|done]. rewrite Hz.
  split; [intros [? [=]]|done].
Qed.

Lemma running_delete (z : zset) k s :
  s <> TsRunning ->
  forall k', is_Some (delete k z !! k')
    <-> if decide (k' = k) then s = TsRunning else is_Some (z !! k').
Proof.
  intros Hs k'. destruct (decide (k' = k)) as [->|]; [|by rewrite lookup_delete_ne].
  rewrite lookup_delete_eq. split; [intros [? [=]]|done].
Qed.

(** The queue of a task that is in no queue, and does not become ready. *)
Lemma queue_same r t s k :
  queue r (queue_of t) !! k = None -> s <> TsReady ->
  forall q, queue r q
    = if decide (q = queue_of t) then
        (if decide (s = TsReady) then <[k := t_sort_seq t]> (queue r q) else delete k (queue r q))
      else queue r q.
Proof.
  intros Hq Hs q. destruct (decide (q = queue_of t)) as [->|]; [|done].
  rewrite decide_False by done. by rewrite delete_id.
Qed.

Section Facts.
Context {todo : list TaskKey} {r : Redis}.
Hypothesis HI : Inv todo r.

Lemma not_queued k t q : tasks r !! k = Some t -> t_state t <> TsReady -> queue r q !! k = None.
Proof using HI.
  intros Hk Hs. apply eq_None_not_Some. intros [s (t1 & H1 & H2 & _)%(inv_queue _ _ HI)].
  congruence.
Qed.

Lemma not_running k t : tasks r !! k = Some t -> t_state t <> TsRunning -> tasks_running r !! k = None.
Proof using HI.
  intros Hk Hs. apply eq_None_not_Some. intros H%(inv_running _ _ HI).
  unfold task_state in H. rewrite Hk in H. simpl in H. congruence.
Qed.

(** A task that is not settled belongs to a job. *)
Lemma unsettled_live k t :
  tasks r !! k = Some t -> ~ settled (t_state t) -> k.2 ∈ members (tasks_by_job r) k.1.
Proof using HI. intros Hk Hs. destruct (inv_live _ _ HI k t Hk); naive_solver. Qed.

(** A change that makes no task done, in a job that stays as it is. *)
Lemma inv_step todo' r' k t t' :
  tasks r !! k = Some t -> k.2 ∈ members (tasks_by_job r) k.1 -> moved r r' k t t' ->
  jobs r' = jobs r -> jobs_running r' = jobs_running r ->
  (t_state t = TsDone <-> t_state t' = TsDone) ->
  (forall k1, k1 <> k -> (k1 ∈ todo <-> k1 ∈ todo')) ->
  (t_state t' <> TsFailed ->
     t_waiting_on t' = undone r k.1 (t_prerequisites t) + bump (bool_decide (k ∈ todo'))) ->
  state_ok t' -> retries_ok t' ->
  (job_allows (job_state r k.1) (t_state t) -> job_allows (job_state r k.1) (t_state t')) ->
  Inv todo' r'.
Proof using HI.
  intros Hk Hlive Hm Hj Hr Hdone Htodo Hw Hst Hre Hja.
  assert (Hs : forall k1, task_state r' k1 = Some TsDone <-> task_state r k1 = Some TsDone).
  { intros k1. rewrite (task_state_insert r r' k t') by apply Hm.
    destruct (decide (k1 = k)) as [->|]; [|done]. unfold task_state. rewrite Hk. simpl.
    split; intros [= E]; f_equal; by apply Hdone. }
  apply (inv_move todo todo' r r' k t t'); try done.
  - intros k1 t1 Hne H1 Hf. rewrite (undone_ext r) by done.
    rewrite (ok_waiting _ _ _ _ (inv_task _ _ HI k1 t1 H1) Hf).
    do 2 f_equal. apply bool_decide_ext. by apply Htodo.
  - intros Hf. rewrite (undone_ext r) by done. by apply Hw.
  - intros j _. by rewrite Hj.
  - intros k1 t1 E H1 Ht1. unfold job_state. rewrite Hj. fold (job_state r k.1).
    rewrite (mv_tasks _ _ _ _ _ Hm) in Ht1. destruct (decide (k1 = k)) as [->|Hne].
    + rewrite lookup_insert_eq in Ht1. injection Ht1 as <-. apply Hja.
      by apply (inv_job _ _ HI).
    + rewrite lookup_insert_ne in Ht1 by done. rewrite <- E.
      apply (inv_job _ _ HI); [by rewrite E|done].
  - rewrite Hj, Hr. apply (inv_user _ _ HI).
Qed.
End Facts.

(** ** How often a task can still be handed out *)

(** An upper bound on the times that a task has been handed out. *)
Definition allowance (t : Task) : Z :=
  t_retries t + match t_state t with TsRunning | TsDone => 1 | _ => 0 end.

Definition claim_rel (t t' : Task) : Prop :=
  t_max_retries t' = t_max_retries t
  /\ (t_state t' <> TsFailed -> t_state t <> TsFailed /\ allowance t <= allowance t').

(** No task is made, and none loses what it is known for. *)
Definition keeps (r r' : Redis) : Prop :=
  forall k t', tasks r' !! k = Some t' -> exists t, tasks r !! k = Some t /\ claim_rel t t'.

Lemma keeps_refl r r' : tasks r' = tasks r -> keeps r r'.
Proof. intros E k t Hk. rewrite E in Hk. by exists t. Qed.

Lemma keeps_trans r1 r2 r3 : keeps r1 r2 -> keeps r2 r3 -> keeps r1 r3.
Proof.
  intros H12 H23 k t3 Hk. destruct (H23 k t3 Hk) as (t2 & H2 & E2 & A2).
  destruct (H12 k t2 H2) as (t1 & H1 & E1 & A1). exists t1. split; [done|].
  split; [congruence|]. intros Hf. destruct (A2 Hf). destruct A1; [done|]. split; [done|lia].
Qed.

Lemma keeps_insert r r' k t t' :
  tasks r !! k = Some t -> tasks r' = <[k := t']> (tasks r) -> claim_rel t t' -> keeps r r'.
Proof.
  intros Hk E Hc k1 t1. rewrite E. destruct (decide (k1 = k)) as [->|Hne].
  - rewrite lookup_insert_eq. intros [= <-]. by exists t.
  - rewrite lookup_insert_ne by done. intros H1. by exists t1.
Qed.

(** ** Telling the dependents of a task that is done *)

Lemma in_later (j tid : string) l k :
  k <> (j, tid) -> (k ∈ map (pair j) (tid :: l) <-> k ∈ map (pair j) l).
Proof. intros Hne. simpl. rewrite elem_of_cons. naive_solver. Qed.

Lemma not_later (j tid : string) l : tid ∉ l -> (j, tid) ∉ map (pair j) l.
Proof. intros Hl (x & [= <-] & Hx)%list_elem_of_fmap. done. Qed.

(** The loops over the tasks of a job change none of these. *)
Definition same_jobs (r r' : Redis) : Prop :=
  tasks_by_job r' = tasks_by_job r /\ jobs r' = jobs r /\ jobs_running r' = jobs_running r.

Lemma same_jobs_trans r1 r2 r3 : same_jobs r1 r2 -> same_jobs r2 r3 -> same_jobs r1 r3.
Proof. unfold same_jobs. intuition congruence. Qed.

Lemma resolve_inv j now r tid l :
  Inv (map (pair j) (tid :: l)) r -> tid ∉ l -> tid ∈ members (tasks_by_job r) j ->
  let r' := resolve_dependent j now r tid in
  Inv (map (pair j) l) r' /\ keeps r r' /\ same_jobs r r'.
Proof.
  intros HI Hl Hlive. unfold resolve_dependent.
  assert (Hin : (j, tid) ∈ map (pair j) (tid :: l)) by (simpl; by left).
  destruct (tasks r !! (j, tid)) as [t|] eqn:Hk; [|by destruct (inv_exists _ _ HI (j, tid)); simplify_eq].
  destruct (decide (t_state t = TsFailed)) as [Hf|Hf].
  { rewrite bool_decide_eq_true_2 by done. simpl. split; [|split; [by apply keeps_refl|done]].
    apply (inv_todo (map (pair j) (tid :: l))); [|done].
    intros k t1 Ht Hs. apply in_later. intros ->. congruence. }
  rewrite bool_decide_eq_false_2 by done.
  destruct (inv_task _ _ HI _ _ Hk) as [A1 A2 A3 A4 A5 A6].
  specialize (A4 Hf). rewrite bool_decide_eq_true_2 in A4 by done. simpl in A4.
  pose proof (undone_nonneg r j (t_prerequisites t)) as Hun.
  assert (Hwas : t_state t = TsPending \/ t_state t = TsCancelled).
  { unfold state_ok in A5. destruct (t_state t); auto; try done; lia. }
  rewrite bool_decide_eq_false_2 by (destruct Hwas; congruence). simpl.
  pose proof (not_queued HI _ _ (queue_of t) Hk ltac:(destruct Hwas; congruence)) as Hq.
  pose proof (not_running HI _ _ Hk ltac:(destruct Hwas; congruence)) as Hrun.
  destruct (Z.leb_spec (t_waiting_on t - 1) 0) as [Hle|Hgt].
  - rewrite alter_twice, (alter_insert _ _ _ t) by done.
    set (t' := set_updated now _). set (r1 := with_tasks _ r).
    destruct (adjust_task_ex r r1 (j, tid) t t') as (c & Ec & Hc); [done..|].
    change (Some TsReady) with (Some (t_state t')). rewrite Ec.
    destruct (enqueue_ex (j, tid) t' (with_counts c r1)) as (m & n & En & Hm);
      [simpl; apply lookup_insert_eq|simpl; lia|exact Hq|]. rewrite En.
    split; [|split; [|done]].
    + apply (inv_step HI _ _ (j, tid) t t'); try done.
      * split; try done. by apply running_same.
      * simpl. destruct Hwas as [->| ->]; done.
      * intros k1 Hne. by apply (in_later j tid).
      * intros _. simpl. rewrite bool_decide_eq_false_2 by (by apply not_later). simpl. lia.
      * destruct A6 as [A6 A7]. split; [done|]. intros _. by apply A7.
      * unfold job_allows. destruct (job_state r (j, tid).1) as [[| |]|]; simpl; intros Ha;
          first [done|by split|destruct Hwas; congruence].
    + apply (keeps_insert _ _ (j, tid) t t'); [done..|]. split; [done|]. intros _. split; [done|].
      unfold allowance. simpl. destruct Hwas as [->| ->]; lia.
  - rewrite (alter_insert _ _ _ t) by done. set (t' := set_waiting_on _ t).
    split; [|split; [|done]].
    + apply (inv_step HI _ _ (j, tid) t t'); try done.
      * split; try done; [|by apply running_same; [|destruct Hwas as [E|E]; simpl; rewrite E]|].
        -- apply (queue_same r t (t_state t') (j, tid) Hq). simpl. destruct Hwas; congruence.
        -- by apply (counts_same _ _ _ t).
      * intros k1 Hne. by apply (in_later j tid).
      * intros _. simpl. rewrite bool_decide_eq_false_2 by (by apply not_later). simpl. lia.
      * unfold state_ok. simpl. destruct Hwas as [->| ->]; [lia|done].
    + apply (keeps_insert _ _ (j, tid) t t'); [done..|]. split; [done|]. intros _. split; [done|].
      unfold allowance. simpl. destruct Hwas as [->| ->]; lia.
Qed.

Lemma resolve_all j now l r :
  NoDup l -> (forall tid, tid ∈ l -> tid ∈ members (tasks_by_job r) j) -> Inv (map (pair j) l) r ->
  let r' := foldl (resolve_dependent j now) r l in
  Inv [] r' /\ keeps r r' /\ same_jobs r r'.
Proof.
  revert r. induction l as [|tid l IH]; intros r Hnd Hlive HI; simpl.
  - split; [done|]. split; [by apply keeps_refl|done].
  - apply NoDup_cons in Hnd as [Hl Hnd].
    destruct (resolve_inv j now r tid l HI Hl (Hlive tid ltac:(by left))) as (H1 & H2 & H3).
    destruct (IH (resolve_dependent j now r tid) Hnd) as (H4 & H5 & H6); [|done|].
    + intros tid' Hin. destruct H3 as (-> & _). apply Hlive. by right.
    + split; [done|]. split; [by eapply keeps_trans|by eapply same_jobs_trans].
Qed.

(** ** A task is done *)

Lemma undone_done r r' k t' j ps :
  tasks r' = <[k := t']> (tasks r) -> t_state t' = TsDone -> task_state r k <> Some TsDone ->
  NoDup ps ->
  undone r' j ps = undone r j ps - bump (bool_decide (j = k.1 /\ k.2 ∈ ps)).
Proof.
  intros Ht Hd Hk. unfold undone. induction ps as [|p ps IH]; intros Hnd.
  { by rewrite bool_decide_eq_false_2 by (intros [_ []%elem_of_nil]). }
  apply NoDup_cons in Hnd as [Hp Hnd]. specialize (IH Hnd). rewrite !filter_cons.
  rewrite (task_state_insert r r' k t') by done. rewrite Hd.
  destruct (decide ((j, p) = k)) as [<-|Hne].
  - rewrite decide_False by naive_solver. rewrite decide_True by done. simpl.
    rewrite bool_decide_eq_false_2 in IH by naive_solver.
    rewrite bool_decide_eq_true_2 by (split; [done|by left]). simpl in *. lia.
  - replace (bool_decide (j = k.1 /\ k.2 ∈ p :: ps)) with (bool_decide (j = k.1 /\ k.2 ∈ ps)).
    + on_key E; simpl length; lia.
    + apply bool_decide_ext. rewrite elem_of_cons. split; [naive_solver|].
      intros [-> [E|E]]; [|done]. destruct Hne. rewrite <- E. by destruct k.
Qed.

Lemma elem_of_dependents r k k1 :
  k1 ∈ map (pair k.1) (elements (members (deps r) k))
  <-> k1.1 = k.1 /\ k1.2 ∈ members (deps r) (k.1, k.2).
Proof.
  destruct k1 as [j1 tid1], k as [j tid]. simpl. rewrite list_elem_of_fmap. split.
  - intros (x & [= -> ->] & Hx%elem_of_elements). done.
  - intros [-> Hin]. exists tid1. split; [done|by apply elem_of_elements].
Qed.

Section Done.
Context {r : Redis}.
Hypothesis HI : Inv [] r.

Lemma waiting_now k t :
  tasks r !! k = Some t -> t_state t <> TsFailed ->
  t_waiting_on t = undone r k.1 (t_prerequisites t).
Proof using HI.
  intros Hk Hf. rewrite (ok_waiting _ _ _ _ (inv_task _ _ HI k t Hk) Hf).
  rewrite bool_decide_eq_false_2 by apply not_elem_of_nil. simpl. lia.
Qed.

(** A task is not its own prerequisite. *)
Lemma not_self k t : tasks r !! k = Some t -> k.2 ∉ t_prerequisites t.
Proof using HI.
  intros Hk Hin. destruct (ok_prereq _ _ _ _ (inv_task _ _ HI k t Hk) _ Hin) as (tp & Htp & Hlt).
  destruct k as [j tid]. simpl in *. rewrite Hk in Htp. injection Htp as <-. lia.
Qed.

(** The task [k] becomes [t'], which is done, before its dependents are told. *)
Lemma inv_done r' k t t' :
  tasks r !! k = Some t -> (t_state t = TsReady \/ t_state t = TsRunning) -> moved r r' k t t' ->
  jobs r' = jobs r -> jobs_running r' = jobs_running r ->
  t_state t' = TsDone -> t_waiting_on t' = t_waiting_on t -> retries_ok t' ->
  Inv (map (pair k.1) (elements (members (deps r) k))) r'.
Proof using HI.
  intros Hk Hwas Hm Hj Hr Hd Hwt Hre.
  assert (Hnd : task_state r k <> Some TsDone).
  { unfold task_state. rewrite Hk. simpl. destruct Hwas; congruence. }
  pose proof (mv_tasks _ _ _ _ _ Hm) as Ht.
  apply (inv_move [] _ r r' k t t'); try done.
  - apply (unsettled_live HI _ _ Hk). unfold settled. destruct Hwas; naive_solver congruence.
  - intros k1 t1 Hne H1 Hf. rewrite (waiting_now k1 t1 H1 Hf).
    rewrite (undone_done r r' k t') by (try done; apply (ok_nodup _ _ _ _ (inv_task _ _ HI k1 t1 H1))).
    rewrite (bool_decide_ext (k1 ∈ _) (k1.1 = k.1 /\ k.2 ∈ t_prerequisites t1)); [lia|].
    rewrite elem_of_dependents. split.
    + intros [E Hin]. split; [done|]. rewrite <- E in Hin.
      apply (inv_deps _ _ HI) in Hin as (t2 & H2 & Hp). congruence.
    + intros [E Hp]. split; [done|]. rewrite <- E. apply (inv_deps _ _ HI). by exists t1.
  - intros _. rewrite Hwt, (waiting_now k t Hk) by (destruct Hwas; congruence).
    rewrite (undone_done r r' k t') by (try done; apply (ok_nodup _ _ _ _ (inv_task _ _ HI k t Hk))).
    rewrite !bool_decide_eq_false_2; [simpl; lia|..].
    + rewrite elem_of_dependents. intros [_ Hin]. apply (inv_deps _ _ HI k) in Hin as (t2 & H2 & Hp).
      rewrite Hk in H2. injection H2 as <-. by apply (not_self k t Hk).
    + intros [_ Hp]. by apply (not_self k t Hk).
  - pose proof (ok_state _ _ _ _ (inv_task _ _ HI k t Hk)) as A5. unfold state_ok in *.
    rewrite Hd, Hwt. by destruct Hwas as [E|E]; rewrite E in A5.
  - intros j _. by rewrite Hj.
  - intros k1 t1 E H1 Ht1. unfold job_state. rewrite Hj. fold (job_state r k.1).
    rewrite Ht in Ht1. destruct (decide (k1 = k)) as [->|Hne].
    + rewrite lookup_insert_eq in Ht1. injection Ht1 as <-.
      pose proof (inv_job _ _ HI k t H1 Hk) as Ha. rewrite Hd. unfold job_allows in *.
      by destruct (job_state r k.1) as [[| |]|].
    + rewrite lookup_insert_ne in Ht1 by done. rewrite <- E in *. by apply (inv_job _ _ HI).
  - rewrite Hj, Hr. apply (inv_user _ _ HI).
Qed.
End Done.

(** ** A job ends *)

Lemma leave_ex j r :
  exists m, leave_running j r = with_jobs_running m r
  /\ forall u j', j' ∈ members m u
       <-> j' ∈ members (jobs_running r) u
           /\ ~ (j' = j /\ jobs r !! j ≫= jm_user_id = Some u).
Proof.
  unfold leave_running. destruct (jobs r !! j ≫= jm_user_id) as [v|] eqn:E.
  - eexists. split; [reflexivity|]. intros u j'. rewrite members_srem.
    destruct (decide (u = v)) as [->|Hne]; [set_solver|naive_solver].
  - exists (jobs_running r). split; [by destruct r|]. naive_solver.
Qed.

Definition ends_job (s : JobState) (f : JobMeta -> JobMeta) : Prop :=
  s <> JobRunning /\ forall m, jm_state (f m) = Some s /\ jm_user_id (f m) = jm_user_id m.

Lemma users_end r r1 j s f m0 :
  (forall u j, j ∈ members (jobs_running r) u
    <-> exists m, jobs r !! j = Some m /\ jm_state m = Some JobRunning /\ jm_user_id m = Some u) ->
  jobs r1 = jobs r -> jobs_running r1 = jobs_running r -> jobs r !! j = Some m0 -> ends_job s f ->
  let r' := leave_running j (hset_job j f r1) in
  forall u j', j' ∈ members (jobs_running r') u
    <-> exists m, jobs r' !! j' = Some m /\ jm_state m = Some JobRunning /\ jm_user_id m = Some u.
Proof.
  intros Hu Ej Er Hj (Hs & Hf) r' u j'. subst r'.
  destruct (leave_ex j (hset_job j f r1)) as (m & -> & Hm). simpl. rewrite Hm. simpl.
  rewrite Ej, Er, Hj, Hu. simpl. destruct (Hf m0) as [Hs0 Hu0].
  destruct (decide (j' = j)) as [->|Hne].
  - rewrite lookup_insert_eq, Hj. simpl. rewrite Hu0. split.
    + intros [(m' & [= <-] & _ & Hmu) Hn]. destruct Hn. split; [done|]. congruence.
    + intros (m' & [= <-] & Hr & _). congruence.
  - rewrite (lookup_insert_ne _ j j') by congruence. naive_solver.
Qed.

Lemma end_frame j f r :
  let r' := leave_running j (hset_job j f r) in
  tasks r' = tasks r /\ tasks_by_job r' = tasks_by_job r /\ deps r' = deps r
  /\ task_sequence r' = task_sequence r /\ ready_queue r' = ready_queue r
  /\ tasks_running r' = tasks_running r /\ task_counts r' = task_counts r
  /\ jobs r' = <[j := f (default (mkJob None None None None) (jobs r !! j))]> (jobs r).
Proof. simpl. destruct (leave_ex j (hset_job j f r)) as (m & -> & _). done. Qed.

(** The task [k] becomes [t'], which has failed, and its job with it. *)
Lemma inv_failed r r1 k t t' err :
  Inv [] r -> tasks r !! k = Some t -> ~ settled (t_state t) -> moved r r1 k t t' ->
  jobs r1 = jobs r -> jobs_running r1 = jobs_running r -> t_state t' = TsFailed ->
  0 <= t_retries t' ->
  let r' := leave_running k.1 (hset_job k.1 (job_fails err) r1) in
  Inv [] r' /\ job_state r' k.1 = Some JobFailed.
Proof.
  intros HI Hk Hs Hm Hj Hr Hf Hre r'.
  destruct (end_frame k.1 (job_fails err) r1) as (E1 & E2 & E3 & E4 & E5 & E6 & E7 & E8).
  fold r' in E1, E2, E3, E4, E5, E6, E7, E8.
  pose proof (unsettled_live HI k t Hk Hs) as Hlive.
  assert (Hjs : job_state r' k.1 = Some JobFailed).
  { unfold job_state. by rewrite E8, lookup_insert_eq. }
  assert (Hjob : is_Some (jobs r !! k.1)).
  { pose proof (inv_job _ _ HI k t Hlive Hk) as Ha. unfold job_state in Ha.
    by destruct (jobs r !! k.1). }
  destruct Hjob as [m0 Hm0].
  assert (Hd : forall k1, task_state r' k1 = Some TsDone <-> task_state r k1 = Some TsDone).
  { intros k1. rewrite (task_state_insert r r' k t') by (rewrite E1; apply Hm).
    destruct (decide (k1 = k)) as [->|]; [|done]. unfold task_state. rewrite Hk, Hf. simpl.
    unfold settled in Hs. split; [done|]. intros [= E]. naive_solver. }
  split; [|done].
  apply (inv_move [] [] r r' k t t'); try done.
  - destruct Hm as [M1 M2 M3 M4 M5 M6 M7 M8]. split; unfold queue in *; try congruence.
    + intros q. rewrite E5. apply M6.
    + intros k'. rewrite E6. apply M7.
    + rewrite E1, E7. apply M8.
  - intros k1 t1 Hne H1 Hf1. rewrite (undone_ext r) by done.
    apply (ok_waiting _ _ _ _ (inv_task _ _ HI k1 t1 H1) Hf1).
  - unfold state_ok. by rewrite Hf.
  - intros j Hne. rewrite E8, Hj, lookup_insert_ne by done. done.
  - intros k1 t1 _ _ _. by rewrite Hjs.
  - by apply (users_end r r1 k.1 JobFailed (job_fails err) m0); [apply (inv_user _ _ HI)|..].
Qed.

(** All tasks of a job are done. *)
Lemma inv_job_done r j k t :
  Inv [] r -> tasks r !! k = Some t -> k.1 = j -> k.2 ∈ members (tasks_by_job r) j ->
  all_done j r = true ->
  Inv [] (leave_running j (hset_job j (job_to JobDone) r)).
Proof.
  intros HI Hk <- Hlive Hall.
  set (r' := leave_running _ _).
  destruct (end_frame k.1 (job_to JobDone) r) as (E1 & E2 & E3 & E4 & E5 & E6 & E7 & E8).
  fold r' in E1, E2, E3, E4, E5, E6, E7, E8.
  assert (Hjob : is_Some (jobs r !! k.1)).
  { pose proof (inv_job _ _ HI k t Hlive Hk) as Ha. unfold job_state in Ha.
    by destruct (jobs r !! k.1). }
  destruct Hjob as [m0 Hm0].
  assert (Hd : forall k1 t1, k1.1 = k.1 -> k1.2 ∈ members (tasks_by_job r) k.1 ->
                 tasks r !! k1 = Some t1 -> t_state t1 = TsDone).
  { intros [j1 tid1] t1 E Hin H1. simpl in *. subst j1. unfold all_done in Hall.
    rewrite forallb_forall in Hall.
    specialize (Hall tid1). rewrite bool_decide_eq_true in Hall. unfold task_state in Hall.
    rewrite H1 in Hall. simpl in Hall.
    assert (Some (t_state t1) = Some TsDone) as [= ->]; [|done].
    apply Hall. by apply list_elem_of_In, elem_of_elements. }
  pose proof (Hd k t eq_refl Hlive Hk) as Hkd.
  assert (Hid : <[k := t]> (tasks r) = tasks r) by by apply insert_id.
  apply (inv_move [] [] r r' k t t); try done.
  - split; unfold queue; rewrite ?E1, ?E5, ?E6, ?E7, ?Hid; try done.
    + apply (queue_same r t (t_state t) k); [|congruence].
      apply (not_queued HI _ t); congruence.
    + apply running_same; [apply (not_running HI _ t); congruence|congruence].
  - intros k1 t1 _ H1 Hf. rewrite (undone_ext r) by (unfold task_state; by rewrite E1).
    apply (ok_waiting _ _ _ _ (inv_task _ _ HI k1 t1 H1) Hf).
  - intros Hf. rewrite (undone_ext r) by (unfold task_state; by rewrite E1).
    apply (ok_waiting _ _ _ _ (inv_task _ _ HI k t Hk) Hf).
  - apply (ok_state _ _ _ _ (inv_task _ _ HI k t Hk)).
  - apply (ok_retries _ _ _ _ (inv_task _ _ HI k t Hk)).
  - intros j Hne. by rewrite E8, lookup_insert_ne.
  - intros k1 t1 E Hin H1. unfold job_state. rewrite E8, lookup_insert_eq. simpl.
    rewrite E1 in H1. by apply (Hd k1 t1).
  - by apply (users_end r r k.1 JobDone (job_to JobDone) m0); [apply (inv_user _ _ HI)|..].
Qed.

(** ** Every function of the library preserves the invariant *)

Lemma queue_delete (r : Redis) (t : Task) (s : TaskState) (k : TaskKey) (m : gmap (string * Z) zset) :
  (forall q, default ∅ (m !! q)
     = if decide (q = queue_of t) then delete k (queue r q) else queue r q) ->
  s <> TsReady ->
  forall q, default ∅ (m !! q)
    = if decide (q = queue_of t) then
        (if decide (s = TsReady) then <[k := t_sort_seq t]> (queue r q) else delete k (queue r q))
      else queue r q.
Proof. intros Hm Hs q. by rewrite Hm, (decide_False _ _ Hs). Qed.

(** A task leaves its queue if it was ready, and the running set. *)
Lemma leave_queues_ex todo r r1 k t (Q : bool) :
  Inv todo r -> tasks r !! k = Some t -> (t_state t = TsReady -> Q = true) ->
  (exists t', tasks r1 !! k = Some t' /\ queue_of t' = queue_of t) ->
  ready_queue r1 = ready_queue r ->
  exists m, (if Q then remove_task_from_ready k r1 else r1) = with_ready m r1
  /\ forall q, default ∅ (m !! q)
       = if decide (q = queue_of t) then delete k (queue r q) else queue r q.
Proof.
  intros HI Hk HQ (t' & Hk' & Eq) Er. destruct Q.
  - destruct (remove_ex k t' r1 Hk') as (m & -> & Hm). exists m. split; [done|].
    intros q. rewrite Hm, Eq. unfold queue. by rewrite Er.
  - exists (ready_queue r1). split; [by destruct r1|]. intros q. rewrite Er. fold (queue r q).
    destruct (decide (q = queue_of t)) as [->|]; [|done].
    rewrite delete_id; [done|]. apply (not_queued HI k t); [done|]. intros E. by specialize (HQ E).
Qed.

Definition preserves (r r' : Redis) : Prop := Inv [] r' /\ keeps r r'.

Lemma update_task_done_inv j tid output now r :
  Inv [] r -> preserves r (update_task_done j tid output now r).2.
Proof.
  intros HI. unfold update_task_done.
  assert (Hid : preserves r r) by (split; [done|by apply keeps_refl]).
  destruct (tasks r !! (j, tid)) as [t|] eqn:Hk; [|done].
  destruct (decide (t_state t = TsReady \/ t_state t = TsRunning)) as [Hwas|Hn]; cycle 1.
  { rewrite !bool_decide_eq_false_2 by naive_solver. done. }
  replace (bool_decide _ || bool_decide _) with true; cycle 1.
  { symmetry. apply orb_true_iff. rewrite !bool_decide_eq_true. done. }
  simpl negb. cbn iota. rewrite (alter_insert _ _ _ t) by done.
  set (t' := set_updated now _). set (r1 := with_tasks _ r).
  destruct (adjust_task_ex r r1 (j, tid) t t') as (c & Ec & Hc); [done..|].
  change (Some TsDone) with (Some (t_state t')). rewrite Ec.
  set (r2 := with_running _ _).
  destruct (leave_queues_ex [] r r2 (j, tid) t (bool_decide (t_state t = TsReady)))
    as (m & -> & Hm); [done..| | |done|].
  { intros E. by apply bool_decide_eq_true_2. }
  { exists t'. split; [apply lookup_insert_eq|done]. }
  set (r3 := with_ready m r2).
  assert (Hm3 : moved r r3 (j, tid) t t').
  { split; first [done|by apply (queue_delete r t TsDone (j, tid) m)|by apply running_delete]. }
  pose proof (unsettled_live HI _ _ Hk ltac:(destruct Hwas as [E|E]; rewrite E; intros [|[|]]; done)) as Hlive.
  assert (HI3 : Inv (map (pair j) (elements (members (deps r) (j, tid)))) r3).
  { apply (inv_done HI r3 (j, tid) t t'); try done.
    destruct (ok_retries _ _ _ _ (inv_task _ _ HI _ _ Hk)) as [A1 A2]. split; [done|].
    intros _. apply A2. destruct Hwas; congruence. }
  assert (Hkeep : keeps r r3).
  { apply (keeps_insert _ _ (j, tid) t t'); [done..|]. split; [done|]. intros _.
    unfold allowance. simpl. destruct Hwas as [E|E]; rewrite E; (split; [done|lia]). }
  destruct (resolve_all j now (elements (members (deps r3) (j, tid))) r3)
    as (HI4 & Hk4 & (Ej4 & _)); [apply NoDup_elements| |done|].
  { intros tid' (t1 & H1 & Hp)%elem_of_elements%(inv_deps _ _ HI (j, tid') tid).
    destruct (inv_live _ _ HI _ _ H1) as [|(_ & _ & _ & _ & E)]; [done|].
    rewrite E in Hp. by apply elem_of_nil in Hp. }
  set (r4 := foldl _ r3 _) in *.
  pose proof (keeps_trans _ _ _ Hkeep Hk4) as Hkr.
  destruct (all_done j r4) eqn:Hall; [|done].
  destruct (inv_exists _ _ HI4 (j, tid)) as [t4 H4]; [simpl; by rewrite Ej4|].
  split.
  - apply (inv_job_done r4 j (j, tid) t4); try done. simpl. by rewrite Ej4.
  - apply (keeps_trans _ r4); [done|]. apply keeps_refl. apply (end_frame j (job_to JobDone) r4).
Qed.

Lemma moved_same todo r k t t' :
  Inv todo r -> tasks r !! k = Some t -> same_task t t' -> t_state t' = t_state t ->
  moved r (with_tasks (<[k := t']> (tasks r)) r) k t t'.
Proof.
  intros HI Hk Hs Hst. split; try done.
  - intros q. change (queue (with_tasks _ r) q) with (queue r q). rewrite Hst.
    destruct (decide (q = queue_of t)) as [->|]; [|done]. on_key E.
    + rewrite insert_id; [done|]. apply (inv_queue _ _ HI). by exists t.
    + rewrite delete_id; [done|]. by apply (not_queued HI k t).
  - intros k'. rewrite Hst. destruct (decide (k' = k)) as [->|]; [|done].
    simpl. rewrite (inv_running _ _ HI). unfold task_state. rewrite Hk. simpl.
    split; [by intros [= ->]|by intros ->].
  - intros Hok. by apply (counts_same _ _ _ t).
Qed.

Lemma update_task_progress_inv j tid q now r :
  Inv [] r -> preserves r (update_task_progress j tid q now r).2.
Proof.
  intros HI. unfold update_task_progress.
  assert (Hid : preserves r r) by (split; [done|by apply keeps_refl]).
  destruct (tasks r !! (j, tid)) as [t|] eqn:Hk; [|done].
  destruct (decide (settled (t_state t) \/ t_state t = TsPending)) as [Hn|Hn].
  { rewrite !bool_decide_eq_false_2; [done|..]; unfold settled in Hn; naive_solver congruence. }
  case_match; [done|].
  set (f := fun t => if Qle_bool q (t_progress t) then t else set_progress q t).
  assert (E : alter_task (j, tid) (set_updated now)
                (if Qle_bool q (t_progress t) then r else alter_task (j, tid) (set_progress q) r)
              = with_tasks (<[(j, tid) := set_updated now (f t)]> (tasks r)) r).
  { subst f. simpl. case_match; [by apply alter_insert|].
    by rewrite alter_twice, (alter_insert _ _ _ t). }
  simpl. rewrite E. set (t' := set_updated now (f t)).
  assert (Hs : same_task t t' /\ t_state t' = t_state t /\ t_waiting_on t' = t_waiting_on t
               /\ t_retries t' = t_retries t /\ t_max_retries t' = t_max_retries t).
  { subst t' f. simpl. by case_match. }
  destruct Hs as (Hs1 & Hs2 & Hs3 & Hs4 & Hs5).
  pose proof (inv_task _ _ HI _ _ Hk) as [A1 A2 A3 A4 A5 A6]. split.
  - apply (inv_step HI _ _ (j, tid) t t'); rewrite ?Hs2, ?Hs3; try done.
    + apply (unsettled_live HI _ _ Hk). naive_solver.
    + by apply (moved_same []).
    + unfold state_ok. by rewrite Hs2, Hs3.
    + unfold retries_ok. by rewrite Hs2, Hs4, Hs5.
  - apply (keeps_insert _ _ (j, tid) t t'); [done..|]. split; [done|].
    unfold allowance. rewrite Hs2, Hs4. intros Hf. done.
Qed.

Lemma retries_ok_step t t' :
  retries_ok t -> t_state t <> TsFailed -> t_retries t' = t_retries t ->
  t_max_retries t' = t_max_retries t -> retries_ok t'.
Proof. intros [A1 A2] Hf E1 E2. unfold retries_ok. rewrite E1, E2. naive_solver. Qed.

(** A task that waits, or is queued, in a job that has failed is cancelled. *)
Lemma inv_cancelled r r' k t t' :
  Inv [] r -> tasks r !! k = Some t -> (t_state t = TsReady \/ t_state t = TsPending) ->
  job_state r k.1 = Some JobFailed -> moved r r' k t t' -> jobs r' = jobs r ->
  jobs_running r' = jobs_running r -> t_state t' = TsCancelled ->
  t_waiting_on t' = t_waiting_on t -> t_retries t' = t_retries t ->
  t_max_retries t' = t_max_retries t -> preserves r r'.
Proof.
  intros HI Hk Hwas Hjs Hm Hj Hr Hc Hw Hre Hmax. split.
  - apply (inv_step HI _ _ k t t'); try done.
    + apply (unsettled_live HI _ _ Hk). destruct Hwas as [E|E]; rewrite E; intros [|[|]]; done.
    + rewrite Hc. destruct Hwas as [-> | ->]; done.
    + intros _. rewrite Hw. apply (ok_waiting _ _ _ _ (inv_task _ _ HI _ _ Hk)).
      destruct Hwas; congruence.
    + unfold state_ok. by rewrite Hc.
    + apply (retries_ok_step t); try done; [|destruct Hwas; congruence].
      apply (ok_retries _ _ _ _ (inv_task _ _ HI _ _ Hk)).
    + by rewrite Hjs.
  - apply (keeps_insert _ _ k t t'); [done|apply Hm|]. split; [done|].
    unfold allowance. rewrite Hc, Hre. destruct Hwas as [-> | ->]; (split; [done|lia]).
Qed.

Lemma cancel_sibling_inv j task_id now r tid :
  Inv [] r -> job_state r j = Some JobFailed ->
  let r' := cancel_sibling j task_id now r tid in preserves r r' /\ same_jobs r r'.
Proof.
  intros HI Hjs. unfold cancel_sibling.
  assert (Hid : preserves r r /\ same_jobs r r)
    by (split; [split; [done|by apply keeps_refl]|done]).
  case_bool_decide; [done|]. destruct (tasks r !! (j, tid)) as [t|] eqn:Hk; [|done].
  destruct (decide (t_state t = TsReady \/ t_state t = TsPending)) as [Hwas|Hn]; cycle 1.
  { rewrite !bool_decide_eq_false_2 by naive_solver. done. }
  replace (_ || _) with true
    by (symmetry; rewrite orb_true_iff, !bool_decide_eq_true; done).
  destruct (leave_queues_ex [] r r (j, tid) t (bool_decide (t_state t = TsReady)))
    as (m & -> & Hm); [done..| |by exists t|done|].
  { intros E. by apply bool_decide_eq_true_2. }
  rewrite (alter_insert _ _ _ t) by done.
  set (t' := set_updated now _). set (r1 := with_tasks _ _).
  destruct (adjust_task_ex r r1 (j, tid) t t') as (c & Ec & Hc); [done..|].
  change (Some TsCancelled) with (Some (t_state t')). rewrite Ec. split; [|done].
  apply (inv_cancelled r _ (j, tid) t t'); try done.
  split; try first [done|by apply (queue_delete r t TsCancelled (j, tid) m)].
  apply running_same; [|done]. apply (not_running HI _ t); [done|]. destruct Hwas; congruence.
Qed.

Lemma preserves_trans r1 r2 r3 : preserves r1 r2 -> preserves r2 r3 -> preserves r1 r3.
Proof. intros [_ H1] [H2 H3]. split; [done|by eapply keeps_trans]. Qed.

Lemma cancel_all_inv j task_id now l r :
  Inv [] r -> job_state r j = Some JobFailed ->
  preserves r (foldl (cancel_sibling j task_id now) r l).
Proof.
  revert r. induction l as [|tid l IH]; intros r HI Hjs; simpl.
  - split; [done|by apply keeps_refl].
  - destruct (cancel_sibling_inv j task_id now r tid HI Hjs) as [H1 (_ & Ej & _)].
    eapply preserves_trans; [exact H1|]. apply IH; [apply H1|]. unfold job_state. by rewrite Ej.
Qed.

Lemma update_task_failed_inv j tid err now r :
  Inv [] r -> preserves r (update_task_failed j tid err now r).2.
Proof.
  intros HI. unfold update_task_failed.
  assert (Hid : preserves r r) by (split; [done|by apply keeps_refl]).
  destruct (tasks r !! (j, tid)) as [t|] eqn:Hk; [|done].
  destruct (is_counted_task_state (t_state t)) eqn:Hcs; [|done]. simpl negb. cbn iota.
  assert (Hns : ~ settled (t_state t)) by (intros [E|[E|E]]; by rewrite E in Hcs).
  rewrite (alter_insert _ _ _ t) by done.
  set (t' := set_updated now _). set (r1 := with_tasks _ r).
  destruct (adjust_task_ex r r1 (j, tid) t t') as (c & Ec & Hc); [done..|].
  change (Some TsFailed) with (Some (t_state t')). rewrite Ec.
  set (r2 := with_counts c r1).
  set (r3 := if bool_decide (t_state t = TsRunning) then _ else _).
  assert (H3 : moved r r3 (j, tid) t t' /\ jobs r3 = jobs r /\ jobs_running r3 = jobs_running r).
  { subst r3. case_bool_decide as E.
    - split; [|done]. split; try first [done|by apply running_delete].
      apply (queue_same r t TsFailed (j, tid)); [|done]. apply (not_queued HI _ t); congruence.
    - destruct (leave_queues_ex [] r r2 (j, tid) t (bool_decide (t_state t = TsReady)))
        as (m & -> & Hm); [done..| | |done|].
      { intros E'. by apply bool_decide_eq_true_2. }
      { exists t'. split; [apply lookup_insert_eq|done]. }
      split; [|done]. split; try first [done|by apply (queue_delete r t TsFailed (j, tid) m)].
      apply running_same; [|done]. by apply (not_running HI _ t). }
  destruct H3 as (Hm3 & Ej3 & Er3).
  pose proof (ok_retries _ _ _ _ (inv_task _ _ HI _ _ Hk)) as [A1 _].
  destruct (inv_failed r r3 (j, tid) t t' err) as [HI4 Hjs4]; [done..|].
  set (r4 := leave_running _ _) in *. simpl.
  apply (preserves_trans _ r4).
  - split; [done|]. apply (keeps_insert _ _ (j, tid) t t'); [done| |by split].
    destruct (end_frame j (job_fails err) r3) as (E & _). etransitivity; [exact E|apply Hm3].
  - by apply cancel_all_inv.
Qed.

Lemma update_task_retry_inv j tid now r :
  Inv [] r -> preserves r (update_task_retry j tid now r).2.
Proof.
  intros HI. unfold update_task_retry.
  assert (Hid : preserves r r) by (split; [done|by apply keeps_refl]).
  destruct (tasks r !! (j, tid)) as [t|] eqn:Hk; [|done].
  destruct (decide (t_state t = TsRunning)) as [Hwas|Hn]; cycle 1.
  { by rewrite bool_decide_eq_false_2. }
  rewrite bool_decide_eq_true_2 by done. simpl negb. cbn iota.
  assert (Hns : ~ settled (t_state t)) by (rewrite Hwas; intros [|[|]]; done).
  pose proof (inv_task _ _ HI _ _ Hk) as [A1 A2 A3 A4 A5 [A6 A7]].
  assert (Et : forall f, alter_task (j, tid) f
      (with_running (delete (j, tid) (tasks_running (alter_task (j, tid)
         (set_retries (t_retries t + 1)) r))) (alter_task (j, tid) (set_retries (t_retries t + 1)) r))
    = with_running (delete (j, tid) (tasks_running r))
        (with_tasks (<[(j, tid) := f (set_retries (t_retries t + 1) t)]> (tasks r)) r)).
  { intros f. transitivity (with_running (delete (j, tid) (tasks_running r))
      (alter_task (j, tid) f (alter_task (j, tid) (set_retries (t_retries t + 1)) r))); [done|].
    by rewrite alter_twice, (alter_insert _ _ _ t). }
  pose proof (not_queued HI _ _ (queue_of t) Hk ltac:(congruence)) as Hq.
  destruct (Z.ltb_spec (t_max_retries t) (t_retries t + 1)) as [Hlt|Hge]; rewrite Et;
    match goal with |- context [adjust_task_state_count_for_task _ _ _ (with_running ?z ?r1)] =>
      set (r2 := with_running z r1) end.
  - set (t' := set_updated now _) in r2.
    destruct (adjust_task_ex r r2 (j, tid) t t') as (c & Ec & Hc); [done..|].
    rewrite Hwas in Ec. change (Some TsFailed) with (Some (t_state t')). rewrite Ec.
    assert (Hm : moved r (with_counts c r2) (j, tid) t t').
    { split; try first [done|by apply running_delete].
      by apply (queue_same r t TsFailed (j, tid)). }
    destruct (inv_failed r (with_counts c r2) (j, tid) t t' "retry max hit") as [HI4 Hjs4];
      [done..|simpl; lia|].
    split; [done|]. apply (keeps_insert _ _ (j, tid) t t'); [done| |by split].
    by destruct (end_frame j (job_fails "retry max hit") (with_counts c r2)) as (E & _).
  - set (t' := set_updated now _) in r2.
    destruct (adjust_task_ex r r2 (j, tid) t t') as (c & Ec & Hc); [done..|].
    rewrite Hwas in Ec. change (Some TsReady) with (Some (t_state t')). rewrite Ec.
    destruct (enqueue_ex (j, tid) t' (with_counts c r2)) as (m & n & En & Hm);
      [simpl; apply lookup_insert_eq|simpl; lia|exact Hq|]. simpl snd. rewrite En.
    split.
    + apply (inv_step HI _ _ (j, tid) t t'); try done.
      * by apply (unsettled_live HI _ _ Hk).
      * split; try first [done|by apply running_delete].
      * simpl. rewrite Hwas. done.
      * intros _. apply A4. congruence.
      * unfold state_ok in *. by rewrite Hwas in A5.
      * split; [simpl; lia|]. intros _. simpl. lia.
      * rewrite Hwas. unfold job_allows. by destruct (job_state r (j, tid).1) as [[| |]|].
    + apply (keeps_insert _ _ (j, tid) t t'); [done..|]. split; [done|]. intros _.
      unfold allowance. simpl. rewrite Hwas. split; [done|lia].
Qed.

(** ** Handing out work *)

(** A task in the given queue, of a job that has not failed. *)
Definition can_claim (r : Redis) (q : string * Z) (k : TaskKey) (t : Task) : Prop :=
  tasks r !! k = Some t /\ t_state t = TsReady /\ queue_of t = q
  /\ job_state r k.1 <> Some JobFailed.

(** The task [k] is handed out: it runs until its deadline. *)
Definition handed_out (now : Z) (r' : Redis) (k : TaskKey) (t : Task) : Prop :=
  tasks r' !! k = Some (set_updated now (set_started now (set_state TsRunning t)))
  /\ tasks_running r' !! k = Some (now + Z.max 0 (t_timeout_secs t) * TICKS).

(** What a pop from one queue answers. *)
Definition pop_answer (q : string * Z) (now : Z) (r : Redis) (o : option ReadyTask)
    (r' : Redis) : Prop :=
  match o with
  | Some rt =>
      exists k t, can_claim r q k t
      /\ rt = mkReadyTask k.1 k.2 (t_task_def t) (t_prerequisites t) (t_max_retries t)
      /\ (forall k' t', can_claim r q k' t' -> t_sort_seq t <= t_sort_seq t')
      /\ handed_out now r' k t
  | None => forall k t, ~ can_claim r q k t
  end.

(** Cancelling leaves the tasks that can be claimed. *)
Definition same_can_claim (r r' : Redis) : Prop :=
  forall q k t, can_claim r q k t <-> can_claim r' q k t.

Lemma pop_one r w p k s :
  Inv [] r -> pop_min (queue r (w, p)) = Some (k, s) ->
  exists t, tasks r !! k = Some t /\ t_state t = TsReady /\ queue_of t = (w, p)
  /\ (forall k' t', can_claim r (w, p) k' t' -> t_sort_seq t <= t_sort_seq t').
Proof.
  intros HI Hpop. apply pop_min_Some in Hpop as [Hs Hmin].
  apply (inv_queue _ _ HI) in Hs as (t & Hk & Hst & Hq & ->). exists t. split_and!; try done.
  intros k' t' (Hk' & Hst' & Hq' & _). apply (Hmin k'). apply (inv_queue _ _ HI).
  by exists t'.
Qed.

Section Pop.
Context (w : string) (p now : Z) (r : Redis) (k : TaskKey) (t : Task).
Hypothesis HI : Inv [] r.
Hypothesis Hk : tasks r !! k = Some t.
Hypothesis Hst : t_state t = TsReady.
Hypothesis Hq : queue_of t = (w, p).

Let popped := with_ready (<[(w, p) := delete k (queue r (w, p))]> (ready_queue r)) r.

(** The task that was taken out of the queue becomes [f t]. *)
Lemma pop_moved f R :
  same_task t (f t) -> t_state (f t) <> TsReady ->
  (forall k', is_Some (R !! k')
     <-> if decide (k' = k) then t_state (f t) = TsRunning else is_Some (tasks_running r !! k')) ->
  exists c,
  adjust_task_state_count_for_meta w p (Some TsReady) (Some (t_state (f t)))
    (alter_task k f popped)
  = with_counts c (with_tasks (<[k := f t]> (tasks r)) popped)
  /\ moved r (with_running R (with_counts c (with_tasks (<[k := f t]> (tasks r)) popped))) k t (f t).
Proof using HI Hk Hst Hq.
  intros Hs Hn HR. rewrite (alter_insert _ _ _ t) by done. injection Hq as <- <-.
  set (r1 := with_tasks _ _).
  destruct (adjust_meta_ex r r1 k t (f t)) as (c & Ec & Hc); [done..|].
  rewrite Hst in Ec. exists c. rewrite Ec. split; [done|].
  split; try done. intros q. unfold queue at 1. simpl. rewrite (decide_False _ _ Hn).
  destruct (decide (q = queue_of t)) as [->|Hne]; [by rewrite lookup_insert_eq|].
  by rewrite lookup_insert_ne.
Qed.

Lemma pop_cancelled :
  job_state r k.1 = Some JobFailed ->
  let r' := adjust_task_state_count_for_meta w p (Some TsReady) (Some TsCancelled)
    (alter_task k (fun t => set_updated now (set_state TsCancelled t)) popped) in
  preserves r r' /\ same_can_claim r r' /\ jobs r' = jobs r /\ tasks_running r' = tasks_running r
  /\ queue r' (w, p) = delete k (queue r (w, p)).
Proof using HI Hk Hst Hq.
  intros Hjs.
  destruct (pop_moved (fun t => set_updated now (set_state TsCancelled t)) (tasks_running r))
    as (c & E & Hm); [done..| |].
  { apply running_same; [|done]. apply (not_running HI _ t); congruence. }
  simpl. simpl in E. rewrite E. split_and!; try done.
  - apply (inv_cancelled r _ k t (set_updated now (set_state TsCancelled t))); try done. by left.
  - intros q k' t'. unfold can_claim. simpl. destruct (decide (k' = k)) as [->|Hne].
    + rewrite lookup_insert_eq, Hk. split.
      * intros (_ & _ & _ & []). done.
      * intros ([= <-] & ? & _). done.
    + by rewrite lookup_insert_ne.
  - unfold queue at 1. simpl. by rewrite lookup_insert_eq.
Qed.

Lemma pop_claimed :
  job_state r k.1 <> Some JobFailed ->
  let f := fun t => set_updated now (set_started now (set_state TsRunning t)) in
  let r1 := adjust_task_state_count_for_meta w p (Some TsReady) (Some TsRunning)
              (alter_task k f popped) in
  let r' := with_running (<[k := now + Z.max 0 (t_timeout_secs t) * TICKS]> (tasks_running r1)) r1 in
  preserves r r' /\ handed_out now r' k t /\ jobs r' = jobs r
  /\ (forall k' t', k' <> k -> (tasks r !! k' = Some t' <-> tasks r' !! k' = Some t')).
Proof using HI Hk Hst Hq.
  intros Hjs f.
  destruct (pop_moved f (<[k := now + Z.max 0 (t_timeout_secs t) * TICKS]> (tasks_running r)))
    as (c & E & Hm); [done..| |].
  { intros k'. destruct (decide (k' = k)) as [->|Hne]; [by rewrite lookup_insert_eq|].
    by rewrite lookup_insert_ne. }
  simpl. simpl in E. rewrite E. simpl. set (r' := with_running _ _) in *.
  pose proof (inv_task _ _ HI _ _ Hk) as [A1 A2 A3 A4 A5 A6].
  assert (Hns : ~ settled (t_state t)) by (rewrite Hst; intros [|[|]]; done).
  split_and!.
  - split.
    + apply (inv_step HI _ _ k t (f t)); try done.
      * by apply (unsettled_live HI _ _ Hk).
      * by rewrite Hst.
      * intros _. apply A4. congruence.
      * unfold state_ok in *. by rewrite Hst in A5.
      * apply (retries_ok_step t); try done. congruence.
      * rewrite Hst. unfold job_allows. by destruct (job_state r k.1) as [[| |]|].
    + apply (keeps_insert _ _ k t (f t)); [done..|]. split; [done|]. unfold allowance. simpl.
      rewrite Hst. split; [done|lia].
  - split; simpl; by rewrite lookup_insert_eq.
  - done.
  - intros k' t' Hne. simpl. by rewrite lookup_insert_ne.
Qed.
End Pop.

Lemma can_claim_queue r q k t :
  Inv [] r -> can_claim r q k t -> queue r q !! k = Some (t_sort_seq t).
Proof.
  intros HI (Hk & Hst & Hq & _). apply (inv_queue _ _ HI). by exists t.
Qed.

Lemma pop_answer_ext q now r r1 o r' :
  same_can_claim r r1 -> pop_answer q now r1 o r' ->
  pop_answer q now r o r'.
Proof.
  intros Hs Ha. destruct o as [rt|]; simpl in *.
  - destruct Ha as (k & t & H1 & H2 & H3 & H4). exists k, t. split_and!; try done.
    + by apply Hs.
    + intros k' t' H'. apply (H3 k'). by apply Hs.
  - intros k t H'. apply (Ha k t). by apply Hs.
Qed.

Lemma pop_ready_spec fuel w p now r :
  Inv [] r -> (size (queue r (w, p)) <= fuel)%nat ->
  let '(o, r') := pop_ready fuel w p now r in
  preserves r r' /\ jobs r' = jobs r /\ pop_answer (w, p) now r o r'
  /\ (forall q k t, q <> (w, p) -> (can_claim r q k t <-> can_claim r' q k t)).
Proof.
  revert r. induction fuel as [|fuel IH]; intros r HI Hsz; cbn [pop_ready].
  - split; [split; [done|by apply keeps_refl]|]. split_and!; [done| |done].
    intros k t E%(can_claim_queue _ _ _ _ HI).
    destruct (size (queue r (w, p))) eqn:Es; [|lia].
    apply map_size_empty_inv in Es. by rewrite Es, lookup_empty in E.
  - destruct (pop_min (queue r (w, p))) as [[k s]|] eqn:Hpop.
    + destruct (pop_one r w p k s HI Hpop) as (t & Hk & Hst & Hq & Hmin). cbv zeta.
      change (tasks (with_ready _ r)) with (tasks r). rewrite Hk.
      change (job_state (with_ready _ r) k.1) with (job_state r k.1).
      rewrite bool_decide_eq_true_2 by done. case_bool_decide as Hjs.
      * destruct (pop_cancelled w p now r k t HI Hk Hst Hq Hjs) as (H1 & H2 & H3 & H4 & H5).
        set (r1 := adjust_task_state_count_for_meta _ _ _ _ _) in *.
        specialize (IH r1 (proj1 H1)).
        destruct (pop_ready fuel w p now r1) as [o r'].
        destruct IH as (I1 & I2 & I3 & I4).
        { rewrite H5. apply pop_min_Some in Hpop as [Hl _].
          rewrite map_size_delete_Some by by exists s. lia. }
        split; [by eapply preserves_trans|]. split; [congruence|].
        split; [by apply (pop_answer_ext _ _ r r1)|]. intros q k' t' Hne. rewrite (H2 q k' t'). by apply I4.
      * destruct (pop_claimed w p now r k t HI Hk Hst Hq Hjs) as (H1 & H2 & H3 & H4).
        split; [done|]. split; [done|]. split.
        -- by exists k, t.
        -- intros q k' t' Hne. unfold can_claim, job_state. rewrite H3.
           destruct (decide (k' = k)) as [->|Hk']; [|by rewrite (H4 k' t')].
           destruct H2 as [H2 _]. rewrite H2, Hk. split.
           ++ intros ([= <-] & _ & E & _). congruence.
           ++ intros ([= <-] & E & _). done.
    + split; [split; [done|by apply keeps_refl]|]. split_and!; [done| |done].
      intros k t E%(can_claim_queue _ _ _ _ HI). apply pop_min_None in Hpop.
      by rewrite Hpop, lookup_empty in E.
Qed.

(** The queue of the highest priority that has a task to hand out. *)
Lemma request_from_spec w ps now r :
  Inv [] r -> NoDup ps ->
  let '(o, r') := request_work_from w ps now r in
  preserves r r' /\ jobs r' = jobs r
  /\ match o with
     | None => forall p k t, p ∈ ps -> ~ can_claim r (w, p) k t
     | Some _ => exists ps1 p ps2, ps = ps1 ++ p :: ps2 /\ pop_answer (w, p) now r o r'
                 /\ forall p' k t, p' ∈ ps1 -> ~ can_claim r (w, p') k t
     end.
Proof.
  revert r. induction ps as [|p ps IH]; intros r HI Hnd; simpl.
  - split; [split; [done|by apply keeps_refl]|]. split; [done|]. intros p k t []%elem_of_nil.
  - apply NoDup_cons in Hnd as [Hp Hnd]. unfold pop_queue.
    pose proof (pop_ready_spec (size (queue r (w, p))) w p now r HI ltac:(lia)) as H.
    destruct (pop_ready _ w p now r) as [[rt|] r1]; destruct H as (H1 & H2 & H3 & H4).
    + split_and!; [done|done|]. exists [], p, ps. split_and!; [done|done|].
      intros p' k t []%elem_of_nil.
    + specialize (IH r1 (proj1 H1) Hnd). destruct (request_work_from w ps now r1) as [o r'].
      destruct IH as (I1 & I2 & I3).
      assert (Hsame : forall p' k t, p' ∈ ps -> (can_claim r (w, p') k t <-> can_claim r1 (w, p') k t)).
      { intros p' k t Hin. apply H4. intros [= ->]. done. }
      split_and!; [by eapply preserves_trans|congruence|]. destruct o as [rt|].
      * destruct I3 as (ps1 & p' & ps2 & -> & I3 & I4). exists (p :: ps1), p', ps2.
        split_and!; [done| |].
        -- destruct I3 as (k & t & J1 & J2 & J3 & J4). exists k, t. split_and!; try done.
           ++ apply Hsame; [set_solver|done].
           ++ intros k' t' H'. apply (J3 k'). apply Hsame; [set_solver|done].
        -- intros p'' k t [->|Hin]%elem_of_cons; [apply H3|].
           rewrite Hsame by set_solver. by apply I4.
      * intros p' k t [->|Hin]%elem_of_cons; [apply H3|]. rewrite Hsame by done. by apply I3.
Qed.
