(* ===== verification/TaskDbCalls.v ===== *)
(** * Sequences of calls of the task database

    The functions of [TaskDb] that make and delete jobs and tasks preserve the invariant
    of [TaskDbFacts]; so every state after admissible calls has it ([reach]).  What
    follows: which task a worker is given, that a running job always has work, how often
    a task is handed out, and that the counts are exact. *)

From S2P Require Import Prelude TaskDb TaskDbFacts.
From Stdlib Require Import QArith.QArith.

Local Open Scope Z_scope.

(** ** New tasks *)

Lemma inv_new r r' k t :
  Inv [] r -> tasks r !! k = None ->
  (forall k1 t1, tasks r !! k1 = Some t1 -> k1.1 = k.1 -> k1.2 ∈ members (tasks_by_job r) k.1) ->
  tasks r' = <[k := t]> (tasks r) ->
  tasks_by_job r' = sadd k.1 k.2 (tasks_by_job r) ->
  (forall k1 p, k1.2 ∈ members (deps r') (k1.1, p)
     <-> k1.2 ∈ members (deps r) (k1.1, p) \/ (k1 = k /\ p ∈ t_prerequisites t)) ->
  task_sequence r' = task_sequence r + 1 -> t_sort_seq t = task_sequence r + 1 ->
  (forall q, queue r' q
     = if decide (q = queue_of t /\ t_state t = TsReady) then <[k := t_sort_seq t]> (queue r q)
       else queue r q) ->
  tasks_running r' = tasks_running r ->
  (counts_ok (task_counts r) (tasks r) -> counts_ok (task_counts r') (tasks r')) ->
  NoDup (t_prerequisites t) ->
  (forall p, p ∈ t_prerequisites t -> is_Some (tasks r !! (k.1, p))) ->
  (t_state t = TsReady \/ t_state t = TsPending) -> state_ok t -> t_retries t = 0 ->
  t_waiting_on t = undone r k.1 (t_prerequisites t) ->
  (forall j, j <> k.1 -> jobs r' !! j = jobs r !! j) ->
  (job_state r' k.1 = Some JobRunning \/ job_state r' k.1 = Some JobFailed) ->
  (forall k1 t1, k1.1 = k.1 -> tasks r !! k1 = Some t1 -> job_allows (job_state r' k.1) (t_state t1)) ->
  (forall u j, j ∈ members (jobs_running r') u
    <-> exists m, jobs r' !! j = Some m /\ jm_state m = Some JobRunning /\ jm_user_id m = Some u) ->
  Inv [] r'.
Proof.
  intros HI Hk Hold Ht Hb Hd Hsq Hts Hq Hr Hc Hnd Hpre Hst Hok Hre Hw Hj Hjs Hja Hu.
  pose proof (inv_sequence _ _ HI) as Hs0.
  assert (Hl : forall k1, tasks r' !! k1 = if decide (k1 = k) then Some t else tasks r !! k1).
  { intros k1. rewrite Ht. destruct (decide (k1 = k)) as [->|Hne];
      [by rewrite lookup_insert_eq|by rewrite lookup_insert_ne]. }
  assert (Hun : forall j ps, (forall p, p ∈ ps -> is_Some (tasks r !! (j, p))) ->
                  undone r' j ps = undone r j ps).
  { intros j ps Hps. apply undone_ext. intros p Hp. rewrite (task_state_insert r r' k t) by done.
    destruct (decide ((j, p) = k)) as [E|]; [|done]. destruct (Hps p Hp) as [? E']. congruence. }
  assert (Hnf : t_state t <> TsFailed /\ t_state t <> TsCancelled /\ t_state t <> TsRunning)
    by (destruct Hst as [-> | ->]; done).
  split; rewrite ?Hb.
  - intros k1 t1. rewrite Hl. on_key E.
    + intros [= <-]. subst k1. split; try done; [lia| | |].
      * intros p Hp. destruct (Hpre p Hp) as [tp Htp]. exists tp. rewrite Hl. on_key E; [congruence|].
        pose proof (ok_seq _ _ _ _ (inv_task _ _ HI _ _ Htp)). split; [done|lia].
      * intros _. rewrite Hw, Hun by done. simpl. lia.
      * unfold retries_ok. rewrite Hre. lia.
    + intros H1. destruct (inv_task _ _ HI k1 t1 H1) as [B1 B2 B3 B4 B5 B6]. split; try done; [lia| |].
      * intros p Hp. destruct (B3 p Hp) as (tp & Htp & Hlt). exists tp. rewrite Hl.
        on_key E'; [congruence|done].
      * intros Hf. rewrite Hun; [by apply B4|]. intros p Hp. destruct (B3 p Hp) as (tp & Htp & _).
        by exists tp.
  - assert (Hlt : forall k1 t1, tasks r !! k1 = Some t1 -> t_sort_seq t1 < t_sort_seq t).
    { intros k1 t1 H1. pose proof (ok_seq _ _ _ _ (inv_task _ _ HI _ _ H1)). lia. }
    intros k1 k2 t1 t2. rewrite !Hl. on_key E1; on_key E2; intros H1 H2 E; simplify_eq; try done.
    + specialize (Hlt _ _ H2). lia.
    + specialize (Hlt _ _ H1). lia.
    + by apply (inv_seq _ _ HI k1 k2 t1 t2).
  - intros k1 t1. rewrite Hl, members_sadd. on_key E.
    + intros _. subst k1. left. rewrite decide_True by done. set_solver.
    + intros H1. destruct (decide (k1.1 = k.1)) as [E1|E1].
      * left. pose proof (Hold k1 t1 H1 E1). set_solver.
      * rewrite Hj by done. by apply (inv_live _ _ HI).
  - intros k1. rewrite Hl, members_sadd. on_key E.
    + intros [E'%elem_of_singleton|Hin]%elem_of_union.
      * rewrite decide_True; [done|]. destruct k1, k. simpl in *. congruence.
      * on_key E'; [done|]. apply (inv_exists _ _ HI). by rewrite E.
    + intros Hin. on_key E'; [done|]. by apply (inv_exists _ _ HI).
  - intros q k1 s. rewrite Hq, Hl. destruct (decide (k1 = k)) as [->|Hne].
    + on_key E.
      * destruct E as [-> E]. rewrite lookup_insert_eq. split; [|naive_solver].
        intros [= <-]. by exists t.
      * rewrite (inv_queue _ _ HI), Hk. split; [naive_solver|].
        intros (t1 & [= <-] & E1 & E2 & _). destruct E. done.
    + on_key E; [rewrite lookup_insert_ne by done|]; apply (inv_queue _ _ HI).
  - intros k1. rewrite Hr, (task_state_insert r r' k t) by done.
    destruct (decide (k1 = k)) as [->|]; [|apply (inv_running _ _ HI)].
    rewrite (inv_running _ _ HI). unfold task_state. rewrite Hk. simpl.
    split; [done|]. intros [= E]. naive_solver.
  - intros k1 p. rewrite Hd, (inv_deps _ _ HI), Hl. on_key E; [subst k1|naive_solver].
    rewrite Hk. split.
    + intros [(t1 & [=] & _)|[_ Hp]]. by exists t.
    + intros (t1 & [= <-] & Hp). by right.
  - apply Hc, (inv_counts _ _ HI).
  - intros k1 t1 Hin. rewrite Hl. on_key E.
    + intros [= <-]. subst k1. destruct Hjs as [-> | ->]; simpl; naive_solver.
    + intros H1. destruct (decide (k1.1 = k.1)) as [E1|E1].
      * rewrite E1. by apply (Hja k1).
      * unfold job_state. rewrite Hj by done. apply (inv_job _ _ HI); [|done].
        by rewrite members_sadd, decide_False in Hin.
  - done.
  - lia.
Qed.

Lemma adjust_new_ex r0 r k t :
  tasks r = <[k := t]> (tasks r0) -> tasks r0 !! k = None -> task_counts r = task_counts r0 ->
  exists c, adjust_task_state_count_for_meta (t_worker_type t) (t_priority t) None
              (Some (t_state t)) r = with_counts c r
            /\ (counts_ok (task_counts r0) (tasks r0) -> counts_ok c (tasks r)).
Proof.
  intros Ht Hk Hc. eexists. split; [apply adjust_meta_frame|].
  intros Hok. rewrite Ht. pose proof (counts_adjust_new k t r0 Hk Hok) as H.
  revert H. unfold adjust_task_state_count_for_meta.
  by rewrite (adjust_opt_ext _ _ _ _ _ _ (adjust_opt_ext _ _ _ _ _ _ Hc)).
Qed.

Lemma keeps_new r r' k t :
  tasks r' = <[k := t]> (tasks r) ->
  forall k1 t1, k1 <> k -> tasks r' !! k1 = Some t1 -> tasks r !! k1 = Some t1.
Proof. intros E k1 t1 Hne. by rewrite E, lookup_insert_ne. Qed.

(** The new task is in no queue, since it was in no table. *)
Lemma new_not_queued r k q : Inv [] r -> tasks r !! k = None -> queue r q !! k = None.
Proof.
  intros HI Hk. apply eq_None_not_Some. intros [s (t & Ht & _)%(inv_queue _ _ HI)]. congruence.
Qed.

(** A job of a new identifier. *)
Definition fresh_job (j : string) (r : Redis) : Prop :=
  jobs r !! j = None /\ forall tid, tasks r !! (j, tid) = None.

Lemma fresh_no_members j tid r : Inv [] r -> fresh_job j r -> tid ∉ members (tasks_by_job r) j.
Proof.
  intros HI [_ Hf] Hin. destruct (inv_exists _ _ HI (j, tid) Hin) as [t Ht].
  by rewrite Hf in Ht.
Qed.

Lemma create_job_inv sid def mr ts user j now p r :
  Inv [] r -> fresh_job j r ->
  let '(o, r') := create_job sid def mr ts user j now p r in
  Inv [] r'
  /\ match o with
     | Ok j' => j' = j /\ exists t, tasks r' = <[(j, "init"%string) := t]> (tasks r)
                 /\ t_state t = TsReady /\ t_retries t = 0
     | _ => r' = r
     end.
Proof.
  intros HI Hf. unfold create_job. destruct (streams r !! sid) as [st|]; [|done].
  set (t := mkTask sid _ _ _ _ _ _ _ _ _ _ _ _ _ _ _ _). set (k := (j, "init"%string)).
  pose proof Hf as [Hj Hn]. specialize (Hn "init"%string). fold k in Hn.
  cbv zeta. match goal with |- context [enqueue_task _ (adjust_task_state_count_for_meta _ _ _ _ ?x)] => set (r1 := x) end.
  destruct (adjust_new_ex r r1 k t) as (c & Ec & Hc); [done..|].
  change (adjust_task_state_count_for_meta (sr_worker_type st) p None (Some TsReady) r1 = with_counts c r1) in Ec.
  rewrite Ec.
  pose proof (inv_sequence _ _ HI) as Hs0.
  destruct (enqueue_ex k t (with_counts c r1)) as (m & n & En & Hm);
    [apply lookup_insert_eq|simpl; lia|exact (new_not_queued r k _ HI Hn)|]. rewrite En.
  split; [|split; [done|]; by exists t].
  apply (inv_new r _ k t HI Hn); try done.
  - intros [j1 tid1] t1 H1 E. simpl in E. subst j1. by rewrite (proj2 Hf) in H1.
  - intros k1 p1. split; [by left|]. intros [|[_ []%elem_of_nil]]. done.
  - intros q. change (queue (with_notify n _) q) with (default ∅ (m !! q)). rewrite Hm.
    destruct (decide (q = queue_of t)) as [E|E]; on_key E'; naive_solver.
  - apply NoDup_nil_2.
  - intros p1 []%elem_of_nil.
  - by left.
  - intros j' Hne. apply lookup_insert_ne. done.
  - left. unfold job_state. simpl. by rewrite lookup_insert_eq.
  - intros [j1 tid1] t1 E H1. simpl in E. subst j1. by rewrite (proj2 Hf) in H1.
  - intros u j'. simpl. rewrite members_sadd. pose proof (inv_user _ _ HI u j') as IU.
    destruct (decide (j' = j)) as [->|Hne].
    + rewrite lookup_insert_eq. rewrite Hj in IU. destruct (decide (u = user)) as [->|Hu].
      * split; [|set_solver]. intros _. eexists. done.
      * rewrite IU. split; [naive_solver|]. intros (m' & [= <-] & _ & [= E]). done.
    + rewrite (lookup_insert_ne _ j j') by done. destruct (decide (u = user)) as [->|Hu]; [|done].
      rewrite elem_of_union, elem_of_singleton. naive_solver.
Qed.

Lemma link_spec j tid ps w r :
  (forall p, p ∈ ps -> is_Some (tasks r !! (j, p))) ->
  exists d, link_prerequisites j tid ps w r = (Ok (w + undone r j ps), with_deps d r)
  /\ forall k p, k.2 ∈ members d (k.1, p)
       <-> k.2 ∈ members (deps r) (k.1, p) \/ (k = (j, tid) /\ p ∈ ps).
Proof.
  revert w r. induction ps as [|p ps IH]; intros w r Hps; simpl.
  - exists (deps r). split; [f_equal; [f_equal; unfold undone; simpl; lia|by destruct r]|].
    intros k p. split; [by left|]. intros [|[_ []%elem_of_nil]]. done.
  - destruct (Hps p ltac:(by left)) as [t Ht]. rewrite Ht.
    destruct (IH (if bool_decide (t_state t = TsDone) then w else w + 1)
                (with_deps (sadd (j, p) tid (deps r)) r)) as (d & -> & Hd).
    { intros p' Hp'. apply Hps. by right. }
    exists d. split.
    + f_equal. f_equal. unfold undone. rewrite filter_cons.
      change (task_state (with_deps (sadd (j, p) tid (deps r)) r)) with (task_state r).
      assert (Hs : task_state r (j, p) = Some (t_state t)) by (unfold task_state; by rewrite Ht).
      destruct (decide (t_state t = TsDone)) as [E|E].
      * rewrite bool_decide_eq_true_2, decide_False by (try done; rewrite Hs, E; auto). lia.
      * rewrite bool_decide_eq_false_2, decide_True by (try done; congruence). simpl length. lia.
    + intros k p'. rewrite Hd. simpl. rewrite members_sadd, elem_of_cons.
      destruct k as [j1 tid1]; simpl.
      destruct (decide ((j1, p') = (j, p))) as [[= -> ->]|Hne].
      * rewrite elem_of_union, elem_of_singleton. naive_solver.
      * split; [naive_solver|]. intros [|[[= -> ->] [->|]]]; naive_solver.
Qed.

(** The calls that a job makes of itself: it has not ended, its prerequisites are
    distinct tasks that it has created. *)
Definition may_create (j : string) (ps : list string) (r : Redis) : Prop :=
  is_Some (jobs r !! j) ->
  (job_state r j = Some JobRunning \/ job_state r j = Some JobFailed)
  /\ NoDup ps /\ forall p, p ∈ ps -> is_Some (tasks r !! (j, p)).

Lemma task_ok_frame r r' k t :
  tasks r' = tasks r -> task_sequence r <= task_sequence r' -> task_ok [] r k t ->
  task_ok [] r' k t.
Proof.
  intros E Hs [A1 A2 A3 A4 A5 A6]. split; rewrite ?E; try done; [lia|].
  intros Hf. rewrite (A4 Hf). f_equal. apply undone_ext. intros p _. unfold task_state. by rewrite E.
Qed.

Lemma inv_bump_sequence r : Inv [] r -> Inv [] (with_sequence (task_sequence r + 1) r).
Proof.
  intros HI. destruct HI as [H1 H2 H3 H4 H5 H6 H7 H8 H9 H10 H11]. split; try done; [|simpl; lia].
  intros k t Hk. apply (task_ok_frame r); [done|simpl; lia|by apply H1].
Qed.

(** Where [create_task] puts the new task. *)
Lemma enqueue_opt k t r m0 :
  tasks r !! k = Some t -> 0 < t_sort_seq t -> queue r (queue_of t) !! k = None ->
  ready_queue r = m0 ->
  exists m n, (if bool_decide (t_state t = TsReady) then enqueue_task k r else r)
              = with_notify n (with_ready m r)
  /\ forall q, default ∅ (m !! q)
       = if decide (q = queue_of t /\ t_state t = TsReady) then <[k := t_sort_seq t]> (queue r q)
         else queue r q.
Proof.
  intros Hk Hs Hq _. case_bool_decide as E.
  - destruct (enqueue_ex k t r Hk Hs Hq) as (m & n & -> & Hm). exists m, n. split; [done|].
    intros q. rewrite Hm. destruct (decide (q = queue_of t)); on_key E'; naive_solver.
  - exists (ready_queue r), (notify r). split; [by destruct r|]. intros q.
    rewrite decide_False by naive_solver. done.
Qed.

Lemma create_task_inv j tid sid def ps mr ts now r :
  Inv [] r -> may_create j ps r ->
  let '(o, r') := create_task j tid sid def ps mr ts now r in
  Inv [] r'
  /\ match o with
     | Ok _ => exists t, tasks r' = <[(j, tid) := t]> (tasks r) /\ t_retries t = 0
                 /\ t_state t <> TsFailed
     | _ => tasks r' = tasks r
     end.
Proof.
  intros HI Hmay. unfold create_task.
  destruct (jobs r !! j) as [meta|] eqn:Hj; [|done].
  destruct (streams r !! sid) as [st|]; [|done]. cbv zeta.
  change (tasks (with_sequence _ r)) with (tasks r).
  destruct (tasks r !! (j, tid)) as [told|] eqn:Hn; [split; [by apply inv_bump_sequence|done]|].
  destruct (Hmay ltac:(by rewrite Hj)) as (Hjs & Hnd & Hps).
  destruct (link_spec j tid ps 0 (with_sequence (task_sequence r + 1) r)) as (d & -> & Hd); [done|].
  change (undone (with_sequence _ r) j ps) with (undone r j ps). rewrite Z.add_0_l.
  set (ws := if undone r j ps <=? 0 then (0, TsReady) else (undone r j ps, TsPending)).
  assert (Hws : ws.1 = undone r j ps /\ (ws.2 = TsReady \/ ws.2 = TsPending)
                /\ (ws.2 = TsReady -> ws.1 = 0) /\ (ws.2 = TsPending -> 0 < ws.1)).
  { subst ws. pose proof (undone_nonneg r j ps). destruct (Z.leb_spec (undone r j ps) 0); simpl;
      split_and!; try lia; auto; done. }
  destruct ws as [w s]. simpl in Hws. destruct Hws as (-> & Hs & Hs1 & Hs2).
  set (t := mkTask sid _ _ _ _ _ _ _ _ _ _ _ _ _ _ _ _). set (k := (j, tid)) in *.
  match goal with |- context [adjust_task_state_count_for_meta _ _ _ _ ?x] => set (r1 := x) end.
  destruct (adjust_new_ex r r1 k t) as (c & Ec & Hc); [done..|].
  change (adjust_task_state_count_for_meta (sr_worker_type st) (default 1 (jm_priority meta)) None
            (Some s) r1 = with_counts c r1) in Ec.
  rewrite Ec. pose proof (inv_sequence _ _ HI) as Hs0.
  destruct (enqueue_opt k t (with_counts c r1) (ready_queue r)) as (m & n & En & Hm);
    [apply lookup_insert_eq|simpl; lia|exact (new_not_queued r k _ HI Hn)|done|].
  change (t_state t) with s in En. rewrite En.
  split; [|exists t; split; [done|]; split; [done|]; simpl; destruct Hs; congruence].
  apply (inv_new r _ k t HI Hn); try done.
  - intros k1 t1 H1 E. destruct (inv_live _ _ HI k1 t1 H1) as [H|(_ & _ & H & _)]; [by rewrite <- E|].
    rewrite E in H. simpl in H. congruence.
  - unfold state_ok. simpl. destruct Hs as [-> | ->]; auto.
  - intros [j1 tid1] t1 E H1. simpl in E. subst j1.
    destruct (inv_live _ _ HI _ t1 H1) as [H|(_ & _ & H & _)]; [|simpl in H; congruence].
    by apply (inv_job _ _ HI (j, tid1)).
  - apply (inv_user _ _ HI).
Qed.

(** ** Deleting a job *)

Lemma counted_delete (ts : gmap TaskKey Task) k w p s :
  counted (delete k ts) w p s = counted ts w p s - bump (match_opt w p s (ts !! k)).
Proof.
  destruct (ts !! k) as [t|] eqn:Hk; simpl; [|by rewrite delete_id by done; lia].
  pose proof (counted_insert (delete k ts) k t w p s) as H.
  rewrite insert_delete_id, lookup_delete_eq in H by done. simpl in H. lia.
Qed.

(** The first task of a job that was deleted, until it expires. *)
Definition leftover (k : TaskKey) (t : Task) : Prop :=
  k.2 = "init"%string /\ settled (t_state t) /\ t_prerequisites t = [].

(** A job goes, with its tasks; its first task may stay for a while. *)
Lemma inv_shrink r r' j :
  Inv [] r ->
  (forall k, k.1 <> j -> tasks r' !! k = tasks r !! k) ->
  (forall k t, k.1 = j -> tasks r' !! k = Some t -> tasks r !! k = Some t /\ leftover k t) ->
  (forall q k, queue r' q !! k = if decide (k.1 = j) then None else queue r q !! k) ->
  (forall k, is_Some (tasks_running r' !! k)
     <-> if decide (k.1 = j) then False else is_Some (tasks_running r !! k)) ->
  (forall k p, k.2 ∈ members (deps r') (k.1, p) <-> k.1 <> j /\ k.2 ∈ members (deps r) (k.1, p)) ->
  (forall j', members (tasks_by_job r') j'
     = if decide (j' = j) then ∅ else members (tasks_by_job r) j') ->
  jobs r' = delete j (jobs r) ->
  (forall u j', j' ∈ members (jobs_running r') u <-> j' <> j /\ j' ∈ members (jobs_running r) u) ->
  task_sequence r' = task_sequence r -> counts_ok (task_counts r') (tasks r') ->
  Inv [] r'.
Proof.
  intros HI Ho Hin Hq Hr Hd Hb Hj Hu Hsq Hc.
  assert (Hsub : forall k t, tasks r' !! k = Some t -> tasks r !! k = Some t).
  { intros k t Hk. destruct (decide (k.1 = j)) as [E|E]; [by apply Hin|by rewrite <- Ho]. }
  split.
  - intros k t Hk. pose proof (Hsub k t Hk) as Hk0.
    destruct (inv_task _ _ HI k t Hk0) as [A1 A2 A3 A4 A5 A6]. split; rewrite ?Hsq; try done.
    + destruct (decide (k.1 = j)) as [E|E].
      * destruct (Hin k t E Hk) as (_ & _ & _ & ->). intros p []%elem_of_nil.
      * intros p Hp. rewrite Ho by done. by apply A3.
    + destruct (decide (k.1 = j)) as [E|E].
      * destruct (Hin k t E Hk) as (_ & _ & _ & Ep). rewrite Ep in *. done.
      * intros Hf. rewrite (A4 Hf). f_equal. symmetry. apply undone_ext. intros p _.
        unfold task_state. by rewrite Ho.
  - intros k k' t t' Hk Hk'. apply (inv_seq _ _ HI); by apply Hsub.
  - intros k t Hk. rewrite Hb, Hj. on_key E.
    + right. destruct (Hin k t E Hk) as (_ & H1 & H2 & H3).
      rewrite E, lookup_delete_eq. done.
    + rewrite lookup_delete_ne by congruence. apply (inv_live _ _ HI). by apply Hsub.
  - intros k. rewrite Hb. on_key E; [set_solver|]. rewrite Ho by done. apply (inv_exists _ _ HI).
  - intros q k s. rewrite Hq. on_key E.
    + split; [done|]. intros (t & Hk & Hs & _). destruct (Hin k t E Hk) as (_ & _ & H & _).
      rewrite Hs in H. destruct H as [|[|]]; done.
    + rewrite Ho by done. apply (inv_queue _ _ HI).
  - intros k. rewrite Hr. on_key E; unfold task_state.
    + split; [done|]. destruct (tasks r' !! k) as [t|] eqn:Hk; [|done]. simpl. intros [= Hs].
      destruct (Hin k t E Hk) as (_ & _ & H & _). rewrite Hs in H. destruct H as [|[|]]; done.
    + rewrite Ho by done. apply (inv_running _ _ HI).
  - intros k p. rewrite Hd, (inv_deps _ _ HI). split.
    + intros [E H]. by rewrite Ho.
    + intros (t & Hk & Hp). destruct (decide (k.1 = j)) as [E|E]; [|rewrite <- Ho by done; by eauto].
      destruct (Hin k t E Hk) as (_ & _ & _ & Ep). rewrite Ep in Hp. by apply elem_of_nil in Hp.
  - done.
  - intros k t. rewrite Hb. unfold job_state. rewrite Hj. on_key E; [set_solver|].
    rewrite lookup_delete_ne by congruence. intros Hk Ht.
    apply (inv_job _ _ HI); [done|]. by apply Hsub.
  - intros u j'. rewrite Hu, (inv_user _ _ HI), Hj. destruct (decide (j' = j)) as [->|Hne].
    + rewrite lookup_delete_eq. naive_solver.
    + rewrite lookup_delete_ne by congruence. naive_solver.
  - rewrite Hsq. apply (inv_sequence _ _ HI).
Qed.

(** The tasks [D] of the job [j] have been deleted. *)
Definition gone (j : string) (D : list string) (k : TaskKey) : Prop := k.1 = j /\ k.2 ∈ D.

Record deleting (j : string) (r : Redis) (D : list string) (r' : Redis) : Prop := {
  dl_tasks : forall k, tasks r' !! k
    = if decide (gone j D k /\ k.2 <> "init"%string) then None else tasks r !! k;
  dl_queue : forall q k, queue r' q !! k = if decide (gone j D k) then None else queue r q !! k;
  dl_running : forall k, is_Some (tasks_running r' !! k)
    <-> if decide (gone j D k) then False else is_Some (tasks_running r !! k);
  dl_deps : forall k p, k.2 ∈ members (deps r') (k.1, p)
    <-> k.2 ∈ members (deps r) (k.1, p) /\ ~ gone j D k /\ ~ gone j D (k.1, p);
  dl_counts : counts_ok (task_counts r') (tasks r');
  dl_frame : tasks_by_job r' = tasks_by_job r /\ jobs r' = jobs r
             /\ task_sequence r' = task_sequence r
}.

Lemma srem_all_spec (j tid : string) (pres : list string) (d : gmap TaskKey (gset string)) r :
  exists d', foldl (fun r pre => with_deps (srem (j, pre) tid (deps r)) r) (with_deps d r) pres
             = with_deps d' r
  /\ forall k p, k.2 ∈ members d' (k.1, p)
       <-> k.2 ∈ members d (k.1, p) /\ ~ (k = (j, tid) /\ p ∈ pres).
Proof.
  revert d. induction pres as [|p0 pres IH]; intros d; simpl.
  - exists d. split; [done|]. intros k p. split; [|by intros []]. intros H. split; [done|].
    intros [_ []%elem_of_nil].
  - destruct (IH (srem (j, p0) tid d)) as (d' & E & Hd'). exists d'. split; [exact E|].
    intros [j1 tid1] p. simpl. rewrite (Hd' (j1, tid1)). simpl.
    rewrite members_srem, elem_of_cons.
    destruct (decide ((j1, p) = (j, p0))) as [[= -> ->]|Hne].
    + rewrite elem_of_difference, elem_of_singleton. naive_solver.
    + split; [|naive_solver]. intros [H1 H2]. split; [done|].
      intros ([= -> ->] & [->|H3]); naive_solver.
Qed.

Section DeleteTask.
Context (j tid : string) (r r1 : Redis) (D : list string) (t : Task).
Hypothesis HI : Inv [] r.
Hypothesis Hdel : deleting j r D r1.
Hypothesis Hnew : tid ∉ D.
Hypothesis Hk : tasks r !! (j, tid) = Some t.
Hypothesis Hinit : tid = "init"%string -> settled (t_state t).

Let k : TaskKey := (j, tid).

Lemma not_gone : ~ gone j D k.
Proof using Hnew. by intros [_ ?]. Qed.

Lemma task_left : tasks r1 !! k = Some t.
Proof using Hdel Hnew Hk.
  rewrite (dl_tasks _ _ _ _ Hdel), decide_False; [done|]. by intros [?%not_gone _].
Qed.

Lemma gone_cons k1 : gone j (tid :: D) k1 <-> k1 = k \/ gone j D k1.
Proof using Type.
  unfold gone, k. destruct k1 as [j1 tid1]. simpl. rewrite elem_of_cons. naive_solver.
Qed.

Lemma delete_queues :
  exists m R,
  (if bool_decide (Some (t_state t) = Some TsReady) then remove_task_from_ready k r1
   else if bool_decide (Some (t_state t) = Some TsRunning)
        then with_running (delete k (tasks_running r1)) r1 else r1)
  = with_running R (with_ready m r1)
  /\ (forall q k1, default ∅ (m !! q) !! k1 = if decide (k1 = k) then None else queue r1 q !! k1)
  /\ (forall k1, is_Some (R !! k1)
        <-> if decide (k1 = k) then False else is_Some (tasks_running r1 !! k1)).
Proof using HI Hdel Hnew Hk Hinit.
  assert (Hq : forall q s, queue r1 q !! k = Some s -> t_state t = TsReady /\ q = queue_of t).
  { intros q s. rewrite (dl_queue _ _ _ _ Hdel), decide_False by apply not_gone.
    intros (t1 & H1 & H2 & H3 & _)%(inv_queue _ _ HI). unfold k in H1.
    rewrite Hk in H1. by injection H1 as ->. }
  assert (Hr : is_Some (tasks_running r1 !! k) -> t_state t = TsRunning).
  { rewrite (dl_running _ _ _ _ Hdel), decide_False by apply not_gone.
    rewrite (inv_running _ _ HI). unfold task_state, k. rewrite Hk. simpl. by intros [= E]. }
  destruct (decide (t_state t = TsReady)) as [E|E].
  - rewrite bool_decide_eq_true_2 by congruence.
    destruct (remove_ex k t r1 task_left) as (m & -> & Hm).
    exists m, (tasks_running r1). split; [done|]. split.
    + intros q k1. rewrite Hm. destruct (decide (k1 = k)) as [->|Hne]; on_key E1.
      * by rewrite lookup_delete_eq.
      * destruct (queue r1 q !! k) eqn:E2; [|done]. by destruct (Hq _ _ E2).
      * by rewrite lookup_delete_ne.
      * done.
    + intros k1. destruct (decide (k1 = k)) as [->|Hne]; [|done].
      split; [|done]. intros H%Hr. congruence.
  - rewrite bool_decide_eq_false_2 by congruence.
    assert (Hqn : forall q k1, queue r1 q !! k1
              = if decide (k1 = k) then None else queue r1 q !! k1).
    { intros q k1. destruct (decide (k1 = k)) as [->|Hne]; [|done].
      destruct (queue r1 q !! k) eqn:E2; [|done]. by destruct (Hq _ _ E2). }
    exists (ready_queue r1).
    destruct (decide (t_state t = TsRunning)) as [E'|E'].
    + rewrite bool_decide_eq_true_2 by congruence.
      exists (delete k (tasks_running r1)). split; [by destruct r1|]. split; [done|].
      intros k1. destruct (decide (k1 = k)) as [->|Hne]; [|by rewrite lookup_delete_ne].
      rewrite lookup_delete_eq. split; [by intros []|done].
    + rewrite bool_decide_eq_false_2 by congruence.
      exists (tasks_running r1). split; [by destruct r1|]. split; [done|].
      intros k1. destruct (decide (k1 = k)) as [->|Hne]; [|done]. split; [by intros H%Hr|done].
Qed.

Lemma delete_counts r2 :
  tasks r2 = tasks r1 -> task_counts r2 = task_counts r1 ->
  exists c, adjust_task_state_count_for_task k (Some (t_state t)) None r2 = with_counts c r2
  /\ counts_ok c (if bool_decide (tid = "init"%string) then tasks r1 else delete k (tasks r1)).
Proof using HI Hdel Hnew Hk Hinit.
  intros Et Ec. unfold adjust_task_state_count_for_task. rewrite Et, task_left.
  pose proof (dl_counts _ _ _ _ Hdel) as Hc. case_bool_decide as E.
  - exists (task_counts r2). unfold adjust_task_state_count_for_meta. simpl.
    split; [|by rewrite Ec]. rewrite with_counts_id.
    destruct (Hinit E) as [-> |[-> | ->]]; done.
  - eexists. split; [apply adjust_meta_frame|].
    apply (counts_adjust _ _ _ _ _ (tasks r1)); [by rewrite Ec|..].
    + intros w p s. rewrite hits_matches. unfold bump. case_match eqn:Em; [|unfold counted; lia].
      by apply (counted_pos _ k t _ _ _ task_left).
    + intros w p s. rewrite counted_delete, task_left, hits_None, hits_matches. simpl. lia.
Qed.

Lemma delete_task_step : deleting j r (tid :: D) (delete_task j r1 tid)
  /\ jobs_running (delete_task j r1 tid) = jobs_running r1.
Proof using HI Hdel Hnew Hk Hinit.
  unfold delete_task. cbv zeta. fold k.
  assert (Hs : task_state r1 k = Some (t_state t)) by (unfold task_state; by rewrite task_left).
  rewrite Hs. destruct delete_queues as (m & R & -> & Hm & HR).
  set (r2 := with_running R (with_ready m r1)).
  destruct (delete_counts r2) as (c & -> & Hc); [done..|].
  change (tasks (with_counts c r2)) with (tasks r1). rewrite task_left. simpl default.
  destruct (srem_all_spec j tid (t_prerequisites t) (deps r1) (with_counts c r2)) as (d' & Ed & Hd').
  change (with_deps (deps r1) (with_counts c r2)) with (with_counts c r2) in Ed.
  rewrite Ed. clear Ed.
  set (r3 := with_deps _ (with_deps d' _)).
  destruct Hdel as [L1 L2 L3 L4 L5 L6].
  assert (Hg : forall k1, k1 <> k -> (gone j (tid :: D) k1 <-> gone j D k1)).
  { intros k1 Hne. rewrite gone_cons. naive_solver. }
  split; [|by case_bool_decide]. split.
  - intros k1. destruct (decide (k1 = k)) as [->|Hne].
    + case_bool_decide as E.
      * rewrite decide_False by naive_solver. transitivity (Some t); [exact task_left|by symmetry].
      * rewrite decide_True by (split; [apply gone_cons; by left|done]). apply lookup_delete_eq.
    + transitivity (tasks r1 !! k1).
      * case_bool_decide; [done|]. by apply lookup_delete_ne.
      * rewrite L1. apply decide_ext. by rewrite Hg.
  - intros q k1.
    transitivity (default ∅ (m !! q) !! k1); [by case_bool_decide|]. rewrite Hm.
    destruct (decide (k1 = k)) as [->|Hne]; [by rewrite decide_True by (apply gone_cons; by left)|].
    rewrite L2. apply decide_ext. by rewrite Hg.
  - intros k1. transitivity (is_Some (R !! k1)); [by case_bool_decide|]. rewrite HR.
    destruct (decide (k1 = k)) as [->|Hne]; [by rewrite decide_True by (apply gone_cons; by left)|].
    rewrite L3. by rewrite (decide_ext _ _ _ _ (Hg k1 Hne)).
  - intros k1 p.
    transitivity (k1.2 ∈ members (delete k d') (k1.1, p)); [by case_bool_decide|].
    rewrite members_delete, !gone_cons. destruct (decide ((k1.1, p) = k)) as [Ek|Ek].
    + split; [by intros []%not_elem_of_empty|]. intros (_ & _ & []). by left.
    + rewrite Hd', L4. split.
      * intros ((H1 & H2 & H3) & H4). split; [done|]. split; [|naive_solver].
        intros [-> |]; [|done]. apply H4. split; [done|].
        apply (inv_deps _ _ HI k p) in H1 as (t1 & H1 & H5). unfold k in H1.
        rewrite Hk in H1. by injection H1 as ->.
      * intros (H1 & H2 & H3). split; [naive_solver|]. intros [-> _]. naive_solver.
  - revert Hc. case_bool_decide; intros Hc; exact Hc.
  - by case_bool_decide.
Qed.
End DeleteTask.

(** The first task of the job, if any, is settled and depends on nothing. *)
Definition may_delete (j : string) (r : Redis) : Prop :=
  forall t, tasks r !! (j, "init"%string) = Some t ->
    settled (t_state t) /\ t_prerequisites t = [].

Lemma delete_all j r l D r1 :
  Inv [] r -> may_delete j r -> NoDup l -> (forall tid, tid ∈ l -> tid ∉ D) ->
  (forall tid, tid ∈ l -> tid ∈ members (tasks_by_job r) j) -> deleting j r D r1 ->
  exists D', (forall tid, tid ∈ D' <-> tid ∈ l \/ tid ∈ D)
  /\ deleting j r D' (foldl (delete_task j) r1 l)
  /\ jobs_running (foldl (delete_task j) r1 l) = jobs_running r1.
Proof.
  intros HI Hi. revert D r1. induction l as [|tid l IH]; intros D r1 Hnd Hnew Hin Hd; simpl.
  - exists D. split_and!; [|done|done]. intros tid. rewrite elem_of_nil. naive_solver.
  - apply NoDup_cons in Hnd as [Hl Hnd].
    destruct (inv_exists _ _ HI (j, tid)) as [t Hk]; [apply Hin; by left|].
    destruct (delete_task_step j tid r r1 D t HI Hd) as [Hd1 Hr1];
      [apply Hnew; by left|done|intros ->; by apply (Hi t)|].
    destruct (IH (tid :: D) (delete_task j r1 tid) Hnd) as (D' & HD' & Hd2 & Hr2); [..|done|].
    + intros tid' H. rewrite elem_of_cons. intros [->|H']; [done|]. apply (Hnew tid'); [by right|done].
    + intros tid' H. apply Hin. by right.
    + exists D'. split; [|split; [done|congruence]]. intros tid'. rewrite HD', !elem_of_cons.
      naive_solver.
Qed.

Lemma delete_job_inv j r :
  Inv [] r -> may_delete j r ->
  Inv [] (delete_job j r)
  /\ forall k t, tasks (delete_job j r) !! k = Some t -> tasks r !! k = Some t.
Proof.
  intros HI Hi. unfold delete_job. cbv zeta. destruct (leave_ex j r) as (u & -> & Hu).
  set (r0 := with_jobs_running u r).
  change (members (tasks_by_job r0) j) with (members (tasks_by_job r) j).
  destruct (delete_all j r (elements (members (tasks_by_job r) j)) [] r0) as (D & HD & Hd & Hr);
    [done|done|apply NoDup_elements|intros ? _; apply not_elem_of_nil|
     intros tid; apply elem_of_elements| |].
  { assert (Hg : forall k, ~ gone j [] k) by (intros k [_ []%elem_of_nil]).
    split; try done.
    - intros k. rewrite decide_False; [done|]. by intros [?%Hg _].
    - intros q k. by rewrite decide_False by apply Hg.
    - intros k. by rewrite decide_False by apply Hg.
    - intros k p. split; [|by intros []]. intros H. split_and!; [done|apply Hg..].
    - apply (inv_counts _ _ HI). }
  set (rd := foldl _ r0 _) in *. clearbody rd. destruct Hd as [L1 L2 L3 L4 L5 (L6 & L7 & L8)].
  assert (Hgone : forall k, gone j D k <-> k.1 = j /\ k.2 ∈ members (tasks_by_job r) j).
  { intros k. unfold gone. rewrite HD, elem_of_elements, elem_of_nil. naive_solver. }
  assert (Hlive : forall k t, tasks r !! k = Some t -> k.1 = j -> gone j D k
                    \/ leftover k t).
  { intros k t Hk E. rewrite Hgone. destruct (inv_live _ _ HI k t Hk) as [H|(H1 & _ & _ & H2 & H3)].
    - left. split; [done|]. by rewrite <- E.
    - by right. }
  assert (Hleft : forall k t, k.1 = j -> tasks rd !! k = Some t ->
            tasks r !! k = Some t /\ leftover k t).
  { intros k t E. rewrite L1. on_key E'; [done|]. intros Hk. split; [done|].
    destruct (Hlive k t Hk E) as [H|]; [|done].
    assert (k.2 = "init"%string) as E2 by (apply dec_stable; naive_solver).
    destruct k as [j1 tid1]. simpl in *. subst. by destruct (Hi t Hk). }
  split.
  - apply (inv_shrink r _ j HI); simpl; rewrite ?L6, ?L7; try done.
    + intros k Hne. rewrite L1, decide_False; [done|]. unfold gone. naive_solver.
    + intros q k. change (queue (with_jobs _ _) q) with (queue rd q). rewrite L2.
      on_key E; [by rewrite decide_True by apply E|]. on_key E'; [|done].
      apply eq_None_not_Some. intros [s (t & Hk & Hs & _)%(inv_queue _ _ HI)].
      destruct (Hlive k t Hk E') as [|(_ & [H|[H|H]] & _)]; [done|congruence..].
    + intros k. rewrite L3. on_key E; [by rewrite decide_True by apply E|]. on_key E'; [|done].
      rewrite (inv_running _ _ HI). unfold task_state.
      destruct (tasks r !! k) as [t|] eqn:Hk; [|done]. simpl. split; [intros [= Hs]|done].
      destruct (Hlive k t Hk E') as [|(_ & [H|[H|H]] & _)]; [done|congruence..].
    + intros k p. rewrite L4. split.
      * intros (H1 & H2 & _). split; [|done]. intros E.
        apply (inv_deps _ _ HI) in H1 as (t & Hk & Hp).
        destruct (Hlive k t Hk E) as [|(_ & _ & E')]; [done|]. rewrite E' in Hp.
        by apply elem_of_nil in Hp.
      * intros (H1 & H2). unfold gone. naive_solver.
    + intros j'. rewrite members_delete. done.
    + intros u' j'. rewrite Hr. simpl. rewrite Hu. split; [|naive_solver].
      intros [H1 H2]. split; [|done]. intros ->. apply H2. split; [done|].
      apply (inv_user _ _ HI) in H1 as (m & -> & _ & H1). done.
  - intros k t Hk. change (tasks rd !! k = Some t) in Hk. rewrite L1 in Hk.
    destruct (decide _); [done|exact Hk].
Qed.

(** The first task of a job that is gone is out of time. *)
Lemma expire_init_inv j r : Inv [] r -> jobs r !! j = None -> Inv [] (expire_init j r).
Proof.
  intros HI Hj. set (k0 := (j, "init"%string)).
  assert (Hmem : members (tasks_by_job r) j = ∅).
  { apply set_eq. intros tid. split; [|by intros []%not_elem_of_empty]. intros Hin.
    destruct (inv_exists _ _ HI (j, tid) Hin) as [t Ht].
    pose proof (inv_job _ _ HI (j, tid) t Hin Ht) as Ha. unfold job_state in Ha. simpl in Ha.
    by rewrite Hj in Ha. }
  assert (Hleft : forall k t, tasks r !! k = Some t -> k.1 = j -> leftover k t).
  { intros k t Hk E. destruct (inv_live _ _ HI k t Hk) as [H|(H1 & _ & _ & H2 & H3)]; [|done].
    rewrite E, Hmem in H. by apply not_elem_of_empty in H. }
  assert (Hgone : forall k, k.1 = j -> tasks r !! k = None \/ k = k0).
  { intros k E. destruct (tasks r !! k) as [t|] eqn:Hk; [|by left]. right.
    destruct (Hleft k t Hk E) as (E2 & _). destruct k. simpl in *. by subst. }
  assert (Hs : forall k t, k.1 = j -> tasks r !! k = Some t -> t_state t <> TsReady
                 /\ t_state t <> TsRunning /\ t_prerequisites t = []).
  { intros k t E Hk. destruct (Hleft k t Hk E) as (_ & [->|[-> | ->]] & ?); done. }
  apply (inv_shrink r _ j HI); simpl; try done.
  - intros k Hne. apply lookup_delete_ne. intros <-. done.
  - intros k t E. destruct (Hgone k E) as [H| ->]; [|by rewrite lookup_delete_eq].
    intros (_ & H')%lookup_delete_Some. congruence.
  - intros q k. on_key E; [|done]. apply eq_None_not_Some.
    intros [s (t & Hk & H & _)%(inv_queue _ _ HI)]. by destruct (Hs k t E Hk).
  - intros k. on_key E; [|done]. split; [|done]. rewrite (inv_running _ _ HI). unfold task_state.
    destruct (tasks r !! k) as [t|] eqn:Hk; [|done]. intros [= H]. by destruct (Hs k t E Hk) as (_ & ? & _).
  - intros k p. split; [|by intros []]. intros H. split; [|done]. intros E.
    apply (inv_deps _ _ HI) in H as (t & Hk & Hp). destruct (Hs k t E Hk) as (_ & _ & E').
    rewrite E' in Hp. by apply elem_of_nil in Hp.
  - intros j'. on_key E; [by subst|done].
  - by rewrite delete_id.
  - intros u j'. split; [|by intros []]. intros H. split; [|done]. intros ->.
    apply (inv_user _ _ HI) in H as (m & H & _). congruence.
  - destruct (task_counts r) as [c|] eqn:Ec; [|done]. intros w p s Hc.
    pose proof (inv_counts _ _ HI) as Hok. rewrite Ec in Hok. rewrite (Hok w p s Hc), counted_delete.
    destruct (tasks r !! (j, "init"%string)) as [t|] eqn:Hk; simpl; [|lia].
    replace (matches w p s t) with false; [simpl; lia|]. symmetry. unfold matches.
    rewrite (bool_decide_eq_false_2 (t_state t = s)); [apply andb_false_r|].
    destruct (Hleft k0 t Hk eq_refl) as (_ & H & _). intros <-.
    by destruct H as [E|[E|E]]; rewrite E in Hc.
Qed.

(** ** The other functions *)

Lemma count_tasks_ok ts : counts_ok (Some (count_tasks ts)) ts.
Proof.
  unfold count_tasks. apply (map_fold_weak_ind (fun c ts => counts_ok (Some c) ts)).
  - intros w p s _. unfold counted. by rewrite map_filter_empty, map_size_empty, lookup_empty.
  - intros k t ts' c Hk Hok w p s Hs. rewrite counted_insert, Hk. simpl.
    specialize (Hok w p s Hs). destruct (is_counted_task_state (t_state t)) eqn:Et.
    + destruct (decide ((t_worker_type t, t_priority t, t_state t) = (w, p, s))) as [[= <- <- <-]|Hne].
      * rewrite lookup_insert_eq. simpl. unfold matches. rewrite !bool_decide_eq_true_2 by done.
        simpl. lia.
      * rewrite lookup_insert_ne by done. rewrite Hok.
        replace (matches w p s t) with false; [simpl; lia|]. symmetry. apply not_true_iff_false.
        unfold matches. rewrite !andb_true_iff, !bool_decide_eq_true. naive_solver.
    + rewrite Hok. replace (matches w p s t) with false; [simpl; lia|]. symmetry.
      apply not_true_iff_false. unfold matches.
      rewrite !andb_true_iff, !bool_decide_eq_true. naive_solver congruence.
Qed.

(** A function that changes none of the parts that the invariant speaks of. *)
Lemma inv_with_counts c r : Inv [] r -> counts_ok c (tasks r) -> Inv [] (with_counts c r).
Proof.
  intros [H1 H2 H3 H4 H5 H6 H7 H8 H9 H10 H11] Hc. split; try done.
  intros k t Hk. by apply (task_ok_frame r), H1.
Qed.

Lemma bootstrap_inv r :
  Inv [] r -> Inv [] (bootstrap_task_state_counts r)
  /\ tasks (bootstrap_task_state_counts r) = tasks r
  /\ is_Some (task_counts (bootstrap_task_state_counts r)).
Proof.
  intros HI. unfold bootstrap_task_state_counts. destruct (task_counts r) as [c|] eqn:E.
  - rewrite E. by split_and!.
  - split_and!; [|done|by eexists]. apply inv_with_counts; [done|apply count_tasks_ok].
Qed.

Lemma create_stream_inv w n q u sid r :
  Inv [] r -> preserves r (create_stream w n q u sid r).2.
Proof.
  intros HI. unfold create_stream. destruct (stream_lookup r !! _); simpl;
    (split; [|by apply keeps_refl]); [done|].
  destruct HI as [H1 H2 H3 H4 H5 H6 H7 H8 H9 H10 H11]. split; try done.
  intros k t Hk. by apply (task_ok_frame r), H1.
Qed.

Lemma inv_empty : Inv [] redis_empty.
Proof.
  split; try done; simpl.
  - intros q k s. split; [done|]. intros (t & [=] & _).
  - intros k. split; [by intros [? [=]]|done].
  - intros k p. split; [set_solver|]. intros (t & [=] & _).
  - intros u j. split; [set_solver|]. intros (m & [=] & _).
Qed.

(** ** Sequences of calls *)

Inductive DbCall :=
| CreateStream (worker_type : string) (reserved : Z) (be_mult : Q) (user_id stream_id : string)
| CreateJob (stream_id task_def : string) (max_retries timeout_secs : Z)
    (user_id job_id : string) (now priority : Z)
| CreateTask (job_id task_id stream_id task_def : string) (prereqs : list string)
    (max_retries timeout_secs now : Z)
| RequestWork (worker_type : string) (now : Z)
| UpdateDone (job_id task_id output : string) (now : Z)
| UpdateFailed (job_id task_id err : string) (now : Z)
| UpdateProgress (job_id task_id : string) (progress : Q) (now : Z)
| UpdateRetry (job_id task_id : string) (now : Z)
| DeleteJob (job_id : string)
| ExpireInit (job_id : string)
| CountTaskStates.

Definition run_call (c : DbCall) (r : Redis) : Redis :=
  match c with
  | CreateStream w n q u sid => (create_stream w n q u sid r).2
  | CreateJob sid def mr ts user j now p => (create_job sid def mr ts user j now p r).2
  | CreateTask j tid sid def ps mr ts now => (create_task j tid sid def ps mr ts now r).2
  | RequestWork w now => (request_work w now r).2
  | UpdateDone j tid out now => (update_task_done j tid out now r).2
  | UpdateFailed j tid err now => (update_task_failed j tid err now r).2
  | UpdateProgress j tid q now => (update_task_progress j tid q now r).2
  | UpdateRetry j tid now => (update_task_retry j tid now r).2
  | DeleteJob j => delete_job j r
  | ExpireInit j => expire_init j r
  | CountTaskStates => (count_task_states r).2
  end.

(** What the callers and the server keep to: a new job has a new identifier, a task is
    made by a job that has not ended and names distinct tasks of it that exist, a job is
    deleted when its first task is settled, which expires after that.  Clearing the
    finished jobs does not keep to the last point for a job of which a task failed for
    good while the first one still runs. *)
Definition admissible (c : DbCall) (r : Redis) : Prop :=
  match c with
  | CreateJob _ _ _ _ _ j _ _ => fresh_job j r
  | CreateTask j _ _ _ ps _ _ _ => may_create j ps r
  | DeleteJob j => may_delete j r
  | ExpireInit j => jobs r !! j = None
  | _ => True
  end.

(** How often each task has been handed out since it was made. *)
Definition claims_after (c : DbCall) (r : Redis) (cl : gmap TaskKey Z) : gmap TaskKey Z :=
  match c with
  | CreateJob sid def mr ts user j now p =>
      match (create_job sid def mr ts user j now p r).1 with
      | Ok j => <[(j, "init"%string) := 0]> cl
      | _ => cl
      end
  | CreateTask j tid sid def ps mr ts now =>
      match (create_task j tid sid def ps mr ts now r).1 with
      | Ok _ => <[(j, tid) := 0]> cl
      | _ => cl
      end
  | RequestWork w now =>
      match (request_work w now r).1 with
      | Some t => let k := (rt_job_id t, rt_task_id t) in <[k := default 0 (cl !! k) + 1]> cl
      | None => cl
      end
  | _ => cl
  end.

Inductive reach : gmap TaskKey Z -> Redis -> Prop :=
| reach_empty : reach ∅ redis_empty
| reach_call cl r c : reach cl r -> admissible c r -> reach (claims_after c r cl) (run_call c r).

(** The claims of the tasks that there are. *)
Definition claims_ok (cl : gmap TaskKey Z) (r : Redis) : Prop :=
  forall k t, tasks r !! k = Some t ->
    default 0 (cl !! k) <= Z.max 0 (t_max_retries t) + 1
    /\ (t_state t <> TsFailed -> default 0 (cl !! k) <= allowance t).

Lemma claims_keeps cl r r' : claims_ok cl r -> keeps r r' -> claims_ok cl r'.
Proof.
  intros Hc Hk k t' H'. destruct (Hk k t' H') as (t & H & Em & Ha).
  destruct (Hc k t H) as [C1 C2]. rewrite Em. split; [done|].
  intros Hf. destruct (Ha Hf) as [Hf' Hle]. specialize (C2 Hf'). lia.
Qed.

Lemma claims_new cl r r' k t :
  claims_ok cl r -> tasks r' = <[k := t]> (tasks r) -> t_retries t = 0 ->
  claims_ok (<[k := 0]> cl) r'.
Proof.
  intros Hc E Hr k1 t1. rewrite E. destruct (decide (k1 = k)) as [->|Hne].
  - rewrite !lookup_insert_eq. intros [= <-]. simpl. split; [lia|]. intros _.
    unfold allowance. rewrite Hr. case_match; lia.
  - rewrite !lookup_insert_ne by done. apply Hc.
Qed.

Lemma request_work_facts w now r :
  Inv [] r ->
  let '(o, r') := request_work w now r in
  preserves r r' /\ jobs r' = jobs r
  /\ match o with
     | None => forall p k t, p ∈ [0; 1; 2] -> ~ can_claim r (w, p) k t
     | Some _ => exists ps1 p ps2, [0; 1; 2] = ps1 ++ p :: ps2 /\ pop_answer (w, p) now r o r'
                 /\ forall p' k t, p' ∈ ps1 -> ~ can_claim r (w, p') k t
     end.
Proof.
  intros HI. apply request_from_spec; [done|].
  repeat (apply NoDup_cons; split; [set_solver by lia|]). apply NoDup_nil_2.
Qed.

Lemma run_call_inv cl r c :
  Inv [] r -> claims_ok cl r -> admissible c r ->
  Inv [] (run_call c r) /\ claims_ok (claims_after c r cl) (run_call c r).
Proof.
  intros HI Hc Ha.
  assert (Hp : forall r', preserves r r' -> Inv [] r' /\ claims_ok cl r').
  { intros r' [H1 H2]. split; [done|by apply (claims_keeps _ r)]. }
  destruct c; cbn [run_call claims_after].
  - by apply Hp, create_stream_inv.
  - pose proof (create_job_inv stream_id task_def max_retries timeout_secs user_id job_id now
      priority r HI Ha) as H. destruct (create_job _ _ _ _ _ _ _ _ _) as [[j'|e|] r']; simpl.
    + destruct H as [H1 (-> & t & H2 & _ & H3)]. split; [done|by apply (claims_new _ r _ _ t)].
    + destruct H as [H1 ->]. done.
    + destruct H as [H1 ->]. done.
  - pose proof (create_task_inv job_id task_id stream_id task_def prereqs max_retries timeout_secs
      now r HI Ha) as H. destruct (create_task _ _ _ _ _ _ _ _ _) as [[u|e|] r']; simpl.
    + destruct H as [H1 (t & H2 & H3 & _)]. split; [done|by apply (claims_new _ r _ _ t)].
    + destruct H as [H1 H2]. apply Hp. split; [done|by apply keeps_refl].
    + destruct H as [H1 H2]. apply Hp. split; [done|by apply keeps_refl].
  - pose proof (request_work_facts worker_type now r HI) as H.
    destruct (request_work worker_type now r) as [[rt|] r']; simpl; destruct H as (H1 & _ & H2);
      [|by apply Hp].
    split; [apply H1|].
    destruct H2 as (ps1 & p & ps2 & _ & (k & t & (Hk & Hs & _) & -> & _ & [Hk' _]) & _). simpl.
    intros k1 t1 H3. destruct k as [j tid]. simpl.
    destruct (Hp r' H1) as [_ Hcl]. destruct (decide (k1 = (j, tid))) as [->|Hne].
    + rewrite lookup_insert_eq. simpl. rewrite Hk' in H3. injection H3 as <-.
      destruct (Hc _ _ Hk) as [_ C2]. specialize (C2 ltac:(congruence)).
      destruct (ok_retries _ _ _ _ (inv_task _ _ HI _ _ Hk)) as [_ R2].
      specialize (R2 ltac:(congruence)). unfold allowance in *. rewrite Hs in C2. simpl. lia.
    + rewrite lookup_insert_ne by done. by apply Hcl.
  - by apply Hp, update_task_done_inv.
  - by apply Hp, update_task_failed_inv.
  - by apply Hp, update_task_progress_inv.
  - by apply Hp, update_task_retry_inv.
  - destruct (delete_job_inv job_id r HI Ha) as [H1 H2]. split; [done|].
    intros k t Hk. by apply Hc, H2.
  - split; [by apply expire_init_inv|]. intros k t Hk. apply Hc.
    change (delete (job_id, "init"%string) (tasks r) !! k = Some t) in Hk.
    by apply lookup_delete_Some in Hk as [_ ?].
  - destruct (bootstrap_inv r HI) as (H1 & H2 & _). apply Hp. split; [done|by apply keeps_refl].
Qed.

Lemma reach_inv cl r : reach cl r -> Inv [] r /\ claims_ok cl r.
Proof.
  induction 1 as [|cl r c _ [HI Hc] Ha].
  - split; [apply inv_empty|]. intros k t. by rewrite lookup_empty.
  - by apply run_call_inv.
Qed.

(** ** What follows *)

Lemma waiting_zero r k t :
  Inv [] r -> tasks r !! k = Some t -> t_state t <> TsFailed -> t_waiting_on t = 0 ->
  forall p, p ∈ t_prerequisites t -> task_state r (k.1, p) = Some TsDone.
Proof.
  intros HI Hk Hf Hw. apply undone_zero. rewrite <- (waiting_now HI k t Hk Hf). done.
Qed.

(** A pending task has a prerequisite that is not done, and was made before it. *)
Lemma pending_prerequisite r k t :
  Inv [] r -> tasks r !! k = Some t -> t_state t = TsPending ->
  exists p tp, p ∈ t_prerequisites t /\ tasks r !! (k.1, p) = Some tp /\ t_state tp <> TsDone
          /\ t_sort_seq tp < t_sort_seq t.
Proof.
  intros HI Hk Hs. destruct (inv_task _ _ HI k t Hk) as [_ _ A3 _ A5 _].
  unfold state_ok in A5. rewrite Hs in A5.
  pose proof (waiting_now HI k t Hk ltac:(congruence)) as Hw.
  rewrite Hw in A5. destruct (undone_pos r k.1 _ A5) as (p & Hp & Hn).
  destruct (A3 p Hp) as (tp & Htp & Hlt).
  exists p, tp. split_and!; try done. intros E. apply Hn. unfold task_state. rewrite Htp.
  simpl. congruence.
Qed.

(** The tasks of a running job that are not done lead to one that can go on. *)
Lemma running_job_active r j :
  Inv [] r -> job_state r j = Some JobRunning ->
  forall (n : nat) tid t, tasks r !! (j, tid) = Some t -> t_state t <> TsDone ->
  t_sort_seq t <= Z.of_nat n ->
  exists tid' t', tasks r !! (j, tid') = Some t'
    /\ (t_state t' = TsReady \/ t_state t' = TsRunning).
Proof.
  intros HI Hj n. induction n as [|n IH]; intros tid t Hk Hd Hn.
  { destruct (ok_seq _ _ _ _ (inv_task _ _ HI _ _ Hk)). lia. }
  assert (Hlive : tid ∈ members (tasks_by_job r) j).
  { destruct (inv_live _ _ HI _ _ Hk) as [|(_ & _ & H & _)]; [done|]. simpl in H.
    unfold job_state in Hj. by rewrite H in Hj. }
  pose proof (inv_job _ _ HI (j, tid) t Hlive Hk) as Ha. simpl in Ha. rewrite Hj in Ha. destruct Ha as [H1 H2].
  destruct (t_state t) eqn:Hs; try done; try (by exists tid, t; auto).
  destruct (pending_prerequisite r _ t HI Hk Hs) as (p & tp & _ & Htp & Hnd & Hlt).
  apply (IH p tp); [done..|lia].
Qed.

(** C21. a worker that asks is given the task to do first.  In every state after
    admissible calls, [request_work] takes a task of the worker's type that is ready, of
    a job that has not failed, all whose prerequisites are done; no task that could be
    given instead comes before it by priority and then by the order of creation; and the
    task now runs, until its timeout after the time of the call.  Nothing is given only
    when there is no such task of the three priorities. *)
Theorem request_work_spec (cl : gmap TaskKey Z) (r : Redis) (w : string) (now : Z) :
  reach cl r ->
  let '(o, r') := request_work w now r in
  match o with
  | Some rt =>
      exists k t, tasks r !! k = Some t /\ t_state t = TsReady /\ t_worker_type t = w
      /\ job_state r k.1 <> Some JobFailed
      /\ (forall p, p ∈ t_prerequisites t -> task_state r (k.1, p) = Some TsDone)
      /\ rt = mkReadyTask k.1 k.2 (t_task_def t) (t_prerequisites t) (t_max_retries t)
      /\ (forall k' t', can_claim r (w, t_priority t') k' t' -> 0 <= t_priority t' ->
            t_priority t < t_priority t'
            \/ (t_priority t = t_priority t' /\ t_sort_seq t <= t_sort_seq t'))
      /\ handed_out now r' k t
  | None => forall k t, can_claim r (w, t_priority t) k t -> t_priority t ∉ [0; 1; 2]
  end.
Proof.
  intros [HI _]%reach_inv. pose proof (request_work_facts w now r HI) as H.
  destruct (request_work w now r) as [[rt|] r']; destruct H as (_ & _ & H); cycle 1.
  { intros k t Hc Hp. by apply (H _ k t Hp). }
  destruct H as (ps1 & p & ps2 & Eps & (k & t & Hc & -> & Hmin & Hout) & Hno).
  destruct Hc as (Hk & Hs & [= <- <-] & Hj).
  exists k, t. split_and!; try done.
  - apply (waiting_zero r k t); [done..|congruence|].
    pose proof (ok_state _ _ _ _ (inv_task _ _ HI k t Hk)) as A5. unfold state_ok in A5.
    by rewrite Hs in A5.
  - intros k' t' Hc' H0. destruct (Z.lt_trichotomy (t_priority t) (t_priority t')) as [|[E|Hlt]];
      [by left| |].
    + right. split; [done|]. apply (Hmin k'). by rewrite E.
    + destruct (Hno (t_priority t') k' t'); [|done].
      destruct ps1 as [|a [|b [|c ps1]]]; simplify_eq/=; try lia.
      * assert (t_priority t' = 0) as -> by lia. left.
      * assert (t_priority t' = 0 \/ t_priority t' = 1) as [-> | ->] by lia;
          [left|right; left].
      * by destruct ps1.
Qed.

(** C16. a job cannot wait for itself.  In every state after admissible calls, a running
    job that has a task that is not done has a task that is in a queue or with a worker:
    its tasks do not wait for each other, nor for one that has ended otherwise.  So
    [check_stuck_pending_tasks] finds nothing. *)
Theorem running_job_never_stuck (cl : gmap TaskKey Z) (r : Redis) :
  reach cl r ->
  (forall j tid t, job_state r j = Some JobRunning -> tasks r !! (j, tid) = Some t ->
     t_state t <> TsDone ->
     exists tid' t', tasks r !! (j, tid') = Some t'
       /\ (queue r (queue_of t') !! (j, tid') = Some (t_sort_seq t')
           \/ is_Some (tasks_running r !! (j, tid'))))
  /\ forall limit, find_stuck_pending limit r = [].
Proof.
  intros [HI _]%reach_inv. split.
  - intros j tid t Hj Hk Hd.
    destruct (running_job_active r j HI Hj (Z.to_nat (t_sort_seq t)) tid t Hk Hd)
      as (tid' & t' & Hk' & Hs); [lia|].
    exists tid', t'. split; [done|]. destruct Hs as [Hs|Hs]; [left|right].
    + apply (inv_queue _ _ HI). by exists t'.
    + apply (inv_running _ _ HI). unfold task_state. rewrite Hk'. simpl. by rewrite Hs.
  - intros limit. unfold find_stuck_pending.
    assert (Hn : forall j tid, stuck_task r j tid = None).
    { intros j tid. unfold stuck_task. destruct (tasks r !! (j, tid)) as [t|] eqn:Hk; [|done].
      destruct (decide (t_state t = TsPending)) as [Hs|Hs]; [|by rewrite bool_decide_eq_false_2].
      rewrite bool_decide_eq_true_2 by done. simpl.
      destruct (pending_prerequisite r _ t HI Hk Hs) as (p & tp & Hp & Htp & Hnd & _).
      destruct (Z.leb_spec (Z.of_nat (length (t_prerequisites t)))
                  (completed_deps r j (t_prerequisites t))) as [Hle|]; [|by rewrite andb_false_r].
      unfold completed_deps in Hle.
      pose proof (length_filter_lt (fun p => task_state r (j, p) = Some TsDone)
        (t_prerequisites t) p Hp) as Hlt.
      enough (task_state r (j, p) <> Some TsDone) as Hn by (specialize (Hlt Hn); lia).
      unfold task_state. simpl in Htp. rewrite Htp. simpl. congruence. }
    replace (concat _) with (@nil StuckTaskInfo); [by rewrite take_nil|].
    induction (map_to_list (tasks_by_job r)) as [|[j tids] l IH]; [done|]. simpl. rewrite <- IH, app_nil_r.
    case_bool_decide; [|done]. induction (elements tids) as [|tid tl IHl]; [done|].
    cbn [omap list_omap]. by rewrite Hn.
Qed.

(** C33. a task is handed out at most once more than it may be retried.  In every state
    after admissible calls, a task that was made with [max_retries] has been given to
    workers at most [max_retries + 1] times since then, whatever workers report, fail to
    report, or report twice. *)
Theorem task_claims_bounded (cl : gmap TaskKey Z) (r : Redis) (k : TaskKey) (t : Task) :
  reach cl r -> tasks r !! k = Some t ->
  default 0 (cl !! k) <= Z.max 0 (t_max_retries t) + 1.
Proof. intros [_ Hc]%reach_inv Hk. by apply Hc. Qed.

(** the counts that are reported for scaling are exact.  In every state after
    admissible calls, whenever the counters were set up, the count for a type of worker,
    a priority and a state that is counted is the number of the tasks that have it. *)
Theorem task_counts_exact (cl : gmap TaskKey Z) (r : Redis) w p s :
  reach cl r -> is_counted_task_state s = true ->
  let '(listing, r') := count_task_states r in
  tasks r' = tasks r
  /\ (forall n, (w, p, s, n) ∈ listing -> n = counted (tasks r) w p s)
  /\ (0 < counted (tasks r) w p s -> (w, p, s, counted (tasks r) w p s) ∈ listing).
Proof.
  intros [HI _]%reach_inv Hs. unfold count_task_states.
  destruct (bootstrap_inv r HI) as (H1 & H2 & [c H3]). rewrite H3.
  pose proof (inv_counts _ _ H1) as Hc. rewrite H3, H2 in Hc. specialize (Hc w p s Hs).
  simpl default. split; [done|]. split.
  - intros n Hn%elem_of_map_to_list. by rewrite Hn in Hc.
  - intros Hpos. apply elem_of_map_to_list. destruct (c !! (w, p, s)); simpl in Hc; [congruence|lia].
Qed.

(** C18. the tables of the task database fit together.  In every state after admissible
    calls: a task in the table has prerequisites in the same job, created before it and
    each named once, a count of the prerequisites that it waits for which is exact unless it
    has failed, and a state that fits its count and the state of its job; a queue lists exactly
    the ready tasks of its type of worker and priority, by their sequence numbers, which no
    two tasks share; the index of the running tasks, the dependents of each task and the
    running jobs of each user are exactly what the tables say; and a task that a job
    lists is in the table. *)
Theorem tables_well_formed (cl : gmap TaskKey Z) (r : Redis) :
  reach cl r ->
  (forall k t, tasks r !! k = Some t ->
     NoDup (t_prerequisites t)
     /\ (forall p, p ∈ t_prerequisites t -> exists tp, tasks r !! (k.1, p) = Some tp
          /\ t_sort_seq tp < t_sort_seq t)
     /\ (t_state t <> TsFailed -> t_waiting_on t = undone r k.1 (t_prerequisites t))
     /\ state_ok t
     /\ (k.2 ∈ members (tasks_by_job r) k.1 -> job_allows (job_state r k.1) (t_state t)))
  /\ (forall k k' t t', tasks r !! k = Some t -> tasks r !! k' = Some t' ->
       t_sort_seq t = t_sort_seq t' -> k = k')
  /\ (forall q k s, queue r q !! k = Some s
       <-> exists t, tasks r !! k = Some t /\ t_state t = TsReady
           /\ q = (t_worker_type t, t_priority t) /\ s = t_sort_seq t)
  /\ (forall k, is_Some (tasks_running r !! k) <-> task_state r k = Some TsRunning)
  /\ (forall k p, k.2 ∈ members (deps r) (k.1, p)
       <-> exists t, tasks r !! k = Some t /\ p ∈ t_prerequisites t)
  /\ (forall u j, j ∈ members (jobs_running r) u
       <-> exists m, jobs r !! j = Some m /\ jm_state m = Some JobRunning /\ jm_user_id m = Some u)
  /\ (forall k, k.2 ∈ members (tasks_by_job r) k.1 -> is_Some (tasks r !! k)).
Proof.
  intros [HI _]%reach_inv. destruct HI as [I1 I2 _ I4 I5 I6 I7 _ I9 I10 _].
  split; [|done]. intros k t Hk. destruct (I1 k t Hk) as [_ T2 T3 T4 T5 _].
  split_and!; [done|done| |done|intros; by eapply I9].
  intros Hf. rewrite (T4 Hf), bool_decide_false by (by intros ?%elem_of_nil). simpl. lia.
Qed.

(** ** A job, call by call *)

Definition call_step (s : gmap TaskKey Z * Redis) (c : DbCall) : gmap TaskKey Z * Redis :=
  (claims_after c s.2 s.1, run_call c s.2).

Definition reached (s : gmap TaskKey Z * Redis) : Prop := reach s.1 s.2.

Lemma reached_step s c : reached s -> admissible c s.2 -> reached (call_step s c).
Proof. apply reach_call. Qed.

Local Open Scope string_scope.

Definition job_started : gmap TaskKey Z * Redis :=
  foldl call_step (∅, redis_empty)
    [CreateStream "exec" 0 1 "user" "stream";
     CreateJob "stream" "def" 1 60 "user" "job" 100 1].

(** The first task makes another, and ends. *)
Definition job_planned : gmap TaskKey Z * Redis :=
  foldl call_step job_started
    [RequestWork "exec" 200;
     CreateTask "job" "a" "stream" "prove" ["init"] 1 60 300;
     CreateTask "job" "b" "stream" "join" ["init"; "a"] 1 60 300;
     UpdateDone "job" "init" "out" 400].

Lemma job_started_reached : reached job_started.
Proof.
  unfold job_started. cbn [foldl]. apply reached_step; [apply reached_step; [apply reach_empty|done]|].
  split; [by vm_compute|]. intros tid.
  assert (tasks (call_step (∅, redis_empty) (CreateStream "exec" 0 1 "user" "stream")).2 = ∅)
    as E by by vm_compute.
  by rewrite E.
Qed.

Lemma job_planned_reached : reached job_planned.
Proof.
  unfold job_planned. cbn [foldl].
  apply reached_step; [apply reached_step; [apply reached_step; [apply reached_step|]|]|];
    [apply job_started_reached|done|..|done].
  - intros _. split; [left; by vm_compute|]. split; [apply NoDup_singleton|].
    intros p ->%list_elem_of_singleton. by eexists; vm_compute.
  - intros _. split; [left; by vm_compute|]. split.
    + repeat (apply NoDup_cons; split; [set_solver|]). apply NoDup_nil_2.
    + intros p [-> | ->%list_elem_of_singleton]%elem_of_cons; by eexists; vm_compute.
Qed.

Lemma request_work_spec_witness :
  (request_work "exec" 500 job_planned.2).1
  = Some (mkReadyTask "job" "a" "prove" ["init"] 1)
  /\ let '(o, r') := request_work "exec" 500 job_planned.2 in
     match o with
     | Some rt =>
         exists k t, tasks job_planned.2 !! k = Some t /\ t_state t = TsReady
         /\ t_worker_type t = "exec" /\ job_state job_planned.2 k.1 <> Some JobFailed
         /\ (forall p, p ∈ t_prerequisites t -> task_state job_planned.2 (k.1, p) = Some TsDone)
         /\ rt = mkReadyTask k.1 k.2 (t_task_def t) (t_prerequisites t) (t_max_retries t)
         /\ (forall k' t', can_claim job_planned.2 ("exec", t_priority t') k' t' ->
               0 <= t_priority t' ->
               t_priority t < t_priority t'
               \/ (t_priority t = t_priority t' /\ t_sort_seq t <= t_sort_seq t'))
         /\ handed_out 500 r' k t
     | None => forall k t, can_claim job_planned.2 ("exec", t_priority t) k t ->
                 t_priority t ∉ [0; 1; 2]
     end.
Proof.
  split; [by vm_compute|].
  exact (request_work_spec job_planned.1 job_planned.2 "exec" 500 job_planned_reached).
Defined.

Lemma running_job_never_stuck_witness :
  exists tid' t', tasks job_planned.2 !! ("job", tid') = Some t'
  /\ (queue job_planned.2 (queue_of t') !! ("job", tid') = Some (t_sort_seq t')
      \/ is_Some (tasks_running job_planned.2 !! ("job", tid'))).
Proof.
  pose proof (running_job_never_stuck job_planned.1 job_planned.2 job_planned_reached) as [H _].
  destruct (tasks job_planned.2 !! ("job", "b")) as [t|] eqn:E;
    [|by assert (is_Some (tasks job_planned.2 !! ("job", "b"))) as [? ?];
        [by eexists; vm_compute|congruence]].
  apply (H "job" "b" t); [by vm_compute|done|].
  assert (task_state job_planned.2 ("job", "b") = Some TsPending) as E' by by vm_compute.
  unfold task_state in E'. rewrite E in E'. simpl in E'. congruence.
Defined.

(** Task [b] of the job waits for [a] alone. *)
Lemma tables_well_formed_witness :
  exists t, tasks job_planned.2 !! ("job", "b") = Some t /\ t_waiting_on t = 1
  /\ NoDup (t_prerequisites t)
  /\ (t_state t <> TsFailed -> t_waiting_on t = undone job_planned.2 "job" (t_prerequisites t)).
Proof.
  pose proof (tables_well_formed job_planned.1 job_planned.2 job_planned_reached) as [H _].
  assert (Hw : t_waiting_on <$> tasks job_planned.2 !! ("job", "b") = Some 1) by by vm_compute.
  destruct (tasks job_planned.2 !! ("job", "b")) as [t|] eqn:E; [|done].
  exists t. destruct (H ("job", "b") t E) as (A1 & _ & A3 & _).
  split; [done|]. split; [by injection Hw|]. by split.
Defined.

Definition job_claimed : gmap TaskKey Z * Redis := call_step job_planned (RequestWork "exec" 500).

Lemma task_claims_bounded_witness :
  default 0 (job_claimed.1 !! ("job", "a")) = 1
  /\ exists t, tasks job_claimed.2 !! ("job", "a") = Some t
     /\ default 0 (job_claimed.1 !! ("job", "a")) <= Z.max 0 (t_max_retries t) + 1.
Proof.
  split; [by vm_compute|].
  destruct (tasks job_claimed.2 !! ("job", "a")) as [t|] eqn:E.
  - exists t. split; [done|]. apply (task_claims_bounded job_claimed.1 job_claimed.2); [|done].
    apply reached_step; [apply job_planned_reached|done].
  - exfalso. assert (is_Some (tasks job_claimed.2 !! ("job", "a"))) as [? ?] by by eexists; vm_compute.
    congruence.
Defined.

Lemma task_counts_exact_witness :
  counted (tasks job_planned.2) "exec" 1 TsPending = 1
  /\ let '(listing, r') := count_task_states job_planned.2 in
     tasks r' = tasks job_planned.2
     /\ (forall n, ("exec", 1, TsPending, n) ∈ listing
           -> n = counted (tasks job_planned.2) "exec" 1 TsPending)
     /\ (0 < counted (tasks job_planned.2) "exec" 1 TsPending
         -> ("exec", 1, TsPending, counted (tasks job_planned.2) "exec" 1 TsPending) ∈ listing).
Proof.
  split; [by vm_compute|].
  exact (task_counts_exact job_planned.1 job_planned.2 "exec" 1 TsPending job_planned_reached
           eq_refl).
Defined.

(** ** What the callers must not do, and what a job that fails leaves *)

(** A prerequisite that is named twice is waited for twice, but told of once: the task
    waits when all its prerequisites are done. *)
Lemma prerequisite_twice_waits :
  let r := (foldl call_step job_planned
              [CreateTask "job" "c" "stream" "d" ["a"; "a"] 1 60 600;
               UpdateDone "job" "a" "out" 700]).2 in
  task_state r ("job", "a") = Some TsDone
  /\ task_state r ("job", "c") = Some TsPending
  /\ map stuck_task_id (find_stuck_pending 10 r) = ["c"].
Proof. by vm_compute. Qed.

(** [create_task] that fails at a prerequisite keeps the links to those before it: when
    the task is made after all, one of those counts for a prerequisite that is not
    done. *)
Lemma failed_create_task_links :
  let r := (foldl call_step job_planned
              [CreateTask "job" "c" "stream" "d" ["a"; "x"] 1 60 600;
               CreateTask "job" "x" "stream" "d" ["a"] 1 60 601;
               CreateTask "job" "c" "stream" "d" ["x"] 1 60 602;
               UpdateDone "job" "a" "out" 700]).2 in
  task_state r ("job", "x") = Some TsReady /\ task_state r ("job", "c") = Some TsReady.
Proof. by vm_compute. Qed.

(** A task that runs out of retries fails its job as [update_task_failed] does, but the
    tasks that wait stay as they are, and are counted as pending. *)
Lemma retry_leaves_siblings :
  let r := (foldl call_step job_claimed
              [UpdateRetry "job" "a" 600; RequestWork "exec" 700;
               UpdateRetry "job" "a" 800]).2 in
  job_state r "job" = Some JobFailed /\ task_state r ("job", "a") = Some TsFailed
  /\ task_state r ("job", "b") = Some TsPending
  /\ counted (tasks r) "exec" 1 TsPending = 1
  /\ task_state (update_task_failed "job" "a" "error" 600 job_claimed.2).2 ("job", "b")
     = Some TsCancelled.
Proof. by vm_compute. Qed.
