(* ===== verification/PlanShape.v ===== *)
(** * What the planner hands out, task by task

    [Planner] says what the plan covers; here, what a consumer of its tasks relies on:
    a join has two distinct inputs that are segments or joins, a union likewise, the
    finalizing task has one root and at most one union, and comes last.  The tasks of
    one event are the leaf of the event and inner tasks over it. *)

From stdpp Require Import pretty.
From S2P Require Import Prelude Planner.

Local Open Scope nat_scope.

(** ** The text of a number *)

Definition digit (c : Ascii.ascii) : Prop := exists x, (x < 10)%N /\ c = pretty_N_char x.

Lemma pretty_go_digit x s :
  (0 < x)%N -> exists c s', pretty_N_go x s = String c s' /\ digit c.
Proof.
  revert s. induction (N.lt_wf_0 x) as [x _ IH]. intros s Hx.
  rewrite pretty_N_go_step by done.
  destruct (N.eq_0_gt_0_cases (x `div` 10)%N) as [->|Hd].
  - rewrite pretty_N_go_0. do 2 eexists. split; [done|]. exists (x `mod` 10)%N.
    split; [by apply N.mod_lt|done].
  - apply IH; [|done]. apply N.div_lt; lia.
Qed.

Lemma pretty_nat_digit (n : nat) : exists c s, pretty n = String c s /\ digit c.
Proof.
  unfold pretty, pretty_nat, pretty, pretty_N. destruct (decide (N.of_nat n = 0)%N) as [|Hn].
  - do 2 eexists. split; [done|]. by exists 0%N.
  - apply pretty_go_digit. lia.
Qed.

(** A name that starts with a letter is not the text of a number. *)
Lemma pretty_nat_name (n : nat) c s :
  (forall x, (x < 10)%N -> c <> pretty_N_char x) -> pretty n <> String c s.
Proof.
  intros Hc. destruct (pretty_nat_digit n) as (c' & s' & -> & x & Hx & ->).
  intros [= E _]. by apply (Hc x Hx).
Qed.

Lemma pretty_nat_letter (n : nat) c s :
  (58 <= Ascii.N_of_ascii c)%N -> pretty n <> String c s.
Proof.
  intros Hc. apply pretty_nat_name. intros x Hx ->. revert Hc.
  assert (x ∈ [0; 1; 2; 3; 4; 5; 6; 7; 8; 9]%N) as Hin.
  { assert (x = 0 \/ x = 1 \/ x = 2 \/ x = 3 \/ x = 4 \/ x = 5 \/ x = 6 \/ x = 7 \/ x = 8
            \/ x = 9)%N by lia. set_solver. }
  clear Hx. repeat (apply elem_of_cons in Hin as [->|Hin]; [vm_compute; done|]).
  by apply elem_of_nil in Hin.
Qed.

(** ** The shape of a task *)

Definition is_tree (leaf node : Command) (ts : list Task) (i : nat) : Prop :=
  exists u, ts !! i = Some u /\ (command u = leaf \/ command u = node).

Definition shaped (ts : list Task) (u : Task) : Prop :=
  match command u with
  | Segment | Keccak => depends_on u = [] /\ keccak_depends_on u = []
  | Join => exists l r, depends_on u = [l; r] /\ keccak_depends_on u = [] /\ l <> r
              /\ is_tree Segment Join ts l /\ is_tree Segment Join ts r
  | Union => exists l r, depends_on u = [] /\ keccak_depends_on u = [l; r] /\ l <> r
              /\ is_tree Keccak Union ts l /\ is_tree Keccak Union ts r
  | Finalize => exists root, depends_on u = [root] /\ is_tree Segment Join ts root
              /\ (keccak_depends_on u = []
                  \/ exists k, keccak_depends_on u = [k] /\ is_tree Keccak Union ts k)
  end.

Definition all_shaped (ts : list Task) : Prop := forall i u, ts !! i = Some u -> shaped ts u.

Lemma is_tree_app leaf node ts us i : is_tree leaf node ts i -> is_tree leaf node (ts ++ us) i.
Proof. intros (u & Hu & Hc). exists u. split; [by apply lookup_app_l_Some|done]. Qed.

Lemma is_tree_lt leaf node ts i : is_tree leaf node ts i -> i < length ts.
Proof. intros (u & Hu & _). by eapply lookup_lt_Some. Qed.

Lemma shaped_app ts us u : shaped ts u -> shaped (ts ++ us) u.
Proof.
  unfold shaped. destruct (command u); [done| | |done|].
  - intros (root & ? & ? & Hk). exists root. split_and!; eauto using is_tree_app.
    destruct Hk as [|(k & ? & ?)]; [by left|right]. exists k. eauto using is_tree_app.
  - intros (l & r & ? & ? & ? & ? & ?). exists l, r. split_and!; eauto using is_tree_app.
  - intros (l & r & ? & ? & ? & ? & ?). exists l, r. split_and!; eauto using is_tree_app.
Qed.

Lemma shaped_snoc ts u : all_shaped ts -> shaped ts u -> all_shaped (ts ++ [u]).
Proof.
  intros Hs Hu i v [Hv|[_ Hv]]%lookup_app_Some; [by eapply shaped_app, Hs|].
  apply list_lookup_singleton_Some in Hv as [_ <-]. by apply shaped_app.
Qed.

(** ** Merging *)

(** What [enqueue_join] and [enqueue_union] make. *)
Definition merge_shaped (merge : list Task -> nat -> nat -> result PlannerErr (nat * list Task))
    (leaf node : Command) : Prop :=
  forall ts l r n ts', merge ts l r = Ok (n, ts') ->
  l <> r -> is_tree leaf node ts l -> is_tree leaf node ts r ->
  exists u, ts' = ts ++ [u] /\ n = length ts /\ command u = node /\ shaped ts u.

Lemma join_shaped : merge_shaped enqueue_join Segment Join.
Proof.
  intros ts l r n ts'. unfold enqueue_join, get_task.
  destruct (ts !! l); [|done]. destruct (ts !! r); [|done]. simpl. intros [= <- <-] Hne Hl Hr.
  eexists. split_and!; try done. exists l, r. done.
Qed.

Lemma union_shaped : merge_shaped enqueue_union Keccak Union.
Proof.
  intros ts l r n ts'. unfold enqueue_union, get_task.
  destruct (ts !! l); [|done]. destruct (ts !! r); [|done]. simpl. intros [= <- <-] Hne Hl Hr.
  eexists. split_and!; try done. exists l, r. done.
Qed.

(** Roots of trees, distinct. *)
Definition roots (leaf node : Command) (ts : list Task) (l : list nat) : Prop :=
  NoDup l /\ forall i, i ∈ l -> is_tree leaf node ts i.

Lemma roots_app leaf node ts us l : roots leaf node ts l -> roots leaf node (ts ++ us) l.
Proof. intros [Hn Hr]. split; [done|]. intros i Hi. by apply is_tree_app, Hr. Qed.

Lemma roots_perm leaf node ts l l' : l ≡ₚ l' -> roots leaf node ts l -> roots leaf node ts l'.
Proof.
  intros Hp [Hn Hr]. split; [by rewrite <- Hp|]. intros i Hi. apply Hr. by rewrite Hp.
Qed.

(** Inner tasks pushed over a list. *)
Definition pushes (node : Command) (ts ts' : list Task) : Prop :=
  exists us, ts' = ts ++ us /\ Forall (fun u => command u = node) us.

Lemma pushes_refl node ts : pushes node ts ts.
Proof. exists []. by rewrite app_nil_r. Qed.

Lemma pushes_trans node ts1 ts2 ts3 :
  pushes node ts1 ts2 -> pushes node ts2 ts3 -> pushes node ts1 ts3.
Proof.
  intros (us & -> & H1) (vs & -> & H2). exists (us ++ vs). rewrite app_assoc.
  split; [done|by apply Forall_app].
Qed.

Section Merge.
Context (merge : list Task -> nat -> nat -> result PlannerErr (nat * list Task)).
Context (leaf node : Command) (Hmerge : merge_shaped merge leaf node).

Lemma merge_step ts a b rest n ts' :
  all_shaped ts -> roots leaf node ts (a :: b :: rest) -> merge ts a b = Ok (n, ts') ->
  all_shaped ts' /\ roots leaf node ts' (n :: rest) /\ pushes node ts ts'.
Proof.
  intros Hs [Hn Hr] Hm. apply NoDup_cons in Hn as [Ha Hn]. apply NoDup_cons in Hn as [_ Hn].
  destruct (Hmerge ts a b n ts' Hm) as (u & -> & -> & Hc & Hu);
    [set_solver|apply Hr; set_solver..|].
  split; [by apply shaped_snoc|]. split; [split|].
  - apply NoDup_cons. split; [|done]. intros Hin. pose proof (is_tree_lt _ _ _ _ (Hr (length ts) ltac:(set_solver))).
    lia.
  - intros i [->|Hi]%elem_of_cons; [|apply is_tree_app, Hr; set_solver].
    exists u. split; [by rewrite lookup_app_r, Nat.sub_diag by done|]. by right.
  - exists [u]. split; [done|]. by constructor.
Qed.

Lemma merge_loop_shaped stack ts n st' ts' :
  all_shaped ts -> roots leaf node ts (n :: stack) -> merge_loop merge stack ts n = Ok (st', ts') ->
  all_shaped ts' /\ roots leaf node ts' st' /\ pushes node ts ts'.
Proof.
  revert ts n. induction stack as [|s stack IH]; intros ts n Hs Hr; simpl.
  - intros [= <- <-]. auto using pushes_refl.
  - destruct (get_task ts n) as [tn| |]; [|done..]. destruct (get_task ts s) as [t| |]; [|done..].
    simpl. destruct (Nat.compare _ _); [|intros [= <- <-]; auto using pushes_refl|done].
    intros (p & Hm & H)%result_bind_Ok. destruct p as [m ts1].
    destruct (merge_step ts s n stack m ts1) as (H1 & H2 & H3);
      [done|by eapply roots_perm; [apply Permutation_swap|]|done|].
    destruct (IH ts1 m H1 H2 H) as (? & ? & ?). eauto using pushes_trans.
Qed.

Lemma fold_peaks_shaped rest ts acc n ts' :
  all_shaped ts -> roots leaf node ts (acc :: rest) ->
  fold_peaks merge acc rest ts = Ok (n, ts') ->
  all_shaped ts' /\ roots leaf node ts' [n] /\ pushes node ts ts'.
Proof.
  revert ts acc. induction rest as [|s rest IH]; intros ts acc Hs Hr; simpl.
  - intros [= <- <-]. auto using pushes_refl.
  - intros (p & Hm & H)%result_bind_Ok. destruct p as [m ts1].
    destruct (merge_step ts s acc rest m ts1) as (H1 & H2 & H3);
      [done|by eapply roots_perm; [apply Permutation_swap|]|done|].
    destruct (IH ts1 m H1 H2 H) as (? & ? & ?). eauto using pushes_trans.
Qed.
End Merge.

(** ** The operations *)

Record plan_shape (p : Planner) : Prop := {
  ps_shaped : all_shaped (tasks p);
  ps_peaks : roots Segment Join (tasks p) (peaks p);
  ps_keccak : roots Keccak Union (tasks p) (keccak_peaks p)
}.

Lemma plan_shape_default : plan_shape planner_default.
Proof.
  split; [done|split; [apply NoDup_nil_2|]..]; by intros i ?%elem_of_nil.
Qed.

(** The stack of peaks with a new leaf. *)
Lemma push_leaf leaf node ts pk t :
  all_shaped ts -> roots leaf node ts pk -> command t = leaf -> shaped ts t ->
  all_shaped (ts ++ [t]) /\ roots leaf node (ts ++ [t]) (length ts :: rev pk).
Proof.
  intros Hs [Hn Hr] Hc Ht. split; [by apply shaped_snoc|]. split.
  - apply NoDup_cons. split.
    + rewrite <- Permutation_rev. intros Hin.
      pose proof (is_tree_lt _ _ _ _ (Hr _ Hin)). lia.
    + by rewrite <- Permutation_rev.
  - intros i [->|Hi]%elem_of_cons.
    + exists t. split; [by rewrite lookup_app_r, Nat.sub_diag by done|by left].
    + apply is_tree_app, Hr. by rewrite <- Permutation_rev in Hi.
Qed.

Lemma enqueue_segment_shape p n p' :
  plan_shape p -> enqueue_segment p = Ok (n, p') ->
  plan_shape p' /\ n = length (tasks p) /\ consumer_position p' = consumer_position p
  /\ exists us, tasks p' = tasks p ++ new_segment n :: us /\ Forall (fun u => command u = Join) us.
Proof.
  intros [Hs Hp Hk]. unfold enqueue_segment. destruct (last_task p); [done|].
  unfold next_task_number, task_count.
  destruct (push_leaf Segment Join (tasks p) (peaks p) (new_segment (length (tasks p))))
    as [Hs1 Hr1]; [done..|].
  intros (q & Hm & H)%result_bind_Ok. destruct q as [st ts']. injection H as <- <-.
  destruct (merge_loop_shaped _ _ _ join_shaped _ _ _ _ _ Hs1 Hr1 Hm) as (H1 & H2 & us & -> & Hus).
  split; [split; simpl|].
  - done.
  - eapply roots_perm; [apply Permutation_rev|done].
  - by rewrite <- app_assoc; apply roots_app.
  - split_and!; [done..|]. exists us. simpl. by rewrite <- app_assoc.
Qed.

Lemma enqueue_keccak_shape p n p' :
  plan_shape p -> enqueue_keccak p = Ok (n, p') ->
  plan_shape p' /\ n = length (tasks p) /\ consumer_position p' = consumer_position p
  /\ exists us, tasks p' = tasks p ++ new_keccak n :: us /\ Forall (fun u => command u = Union) us.
Proof.
  intros [Hs Hp Hk]. unfold enqueue_keccak. destruct (last_task p); [done|].
  unfold next_task_number, task_count.
  destruct (push_leaf Keccak Union (tasks p) (keccak_peaks p) (new_keccak (length (tasks p))))
    as [Hs1 Hr1]; [done..|].
  intros (q & Hm & H)%result_bind_Ok. destruct q as [st ts']. injection H as <- <-.
  destruct (merge_loop_shaped _ _ _ union_shaped _ _ _ _ _ Hs1 Hr1 Hm) as (H1 & H2 & us & -> & Hus).
  split; [split; simpl|].
  - done.
  - by rewrite <- app_assoc; apply roots_app.
  - eapply roots_perm; [apply Permutation_rev|done].
  - split_and!; [done..|]. exists us. simpl. by rewrite <- app_assoc.
Qed.

Lemma finish_shape p n p' :
  plan_shape p -> last_task p = None -> finish p = Ok (n, p') ->
  all_shaped (tasks p') /\ consumer_position p' = consumer_position p
  /\ exists us u, tasks p' = tasks p ++ us ++ [u] /\ command u = Finalize
     /\ Forall (fun u => command u = Union \/ command u = Join) us.
Proof.
  intros [Hs Hp Hk] Hl. unfold finish. rewrite Hl. destruct (peaks p) as [|x pk] eqn:Ep; [done|].
  rewrite <- Ep in *. clear x pk Ep. intros (q & Hu & H)%result_bind_Ok. destruct q as [[kd kp] ts1].
  assert (all_shaped ts1 /\ pushes Union (tasks p) ts1
    /\ (kd = None \/ exists k, kd = Some [k] /\ is_tree Keccak Union ts1 k)) as (Hs1 & (us & -> & Hus) & Hkd).
  { unfold finish_unions in Hu. destruct (keccak_peaks p) as [|k0 rest].
    - injection Hu as <- _ <-. auto using pushes_refl.
    - apply result_bind_Ok in Hu as ([k ts2] & Hf & Hu). injection Hu as <- _ <-.
      destruct (fold_peaks_shaped _ _ _ union_shaped _ _ _ _ _ Hs Hk Hf) as (? & [_ Hr] & ?).
      split_and!; [done..|]. right. exists k. split; [done|]. apply Hr. by left. }
  destruct (rev (peaks p)) as [|p0 rest] eqn:Er; [done|].
  assert (roots Segment Join (tasks p ++ us) (p0 :: rest)) as Hr1.
  { rewrite <- Er. eapply roots_perm; [apply Permutation_rev|]. by apply roots_app. }
  apply result_bind_Ok in H as ([root ts2] & Hf & H).
  destruct (fold_peaks_shaped _ _ _ join_shaped _ _ _ _ _ Hs1 Hr1 Hf) as (Hs2 & [_ Hroot] & vs & -> & Hvs).
  apply result_bind_Ok in H as ([f ts3] & He & H). injection H as <- <-. simpl.
  assert (exists u, ts3 = ((tasks p ++ us) ++ vs) ++ [u] /\ command u = Finalize
    /\ depends_on u = [root] /\ keccak_depends_on u = default [] kd) as (u & -> & Hc & Hd & Hkk).
  { unfold enqueue_finalize in He. apply result_bind_Ok in He as (d & _ & He).
    apply result_bind_Ok in He as (h & _ & He). injection He as _ <-. by eexists. }
  split_and!; [|done|].
  - apply shaped_snoc; [done|]. unfold shaped. rewrite Hc. exists root. split; [done|].
    split; [apply Hroot; by left|]. rewrite Hkk.
    destruct Hkd as [->|(k & -> & ?)]; [by left|right]. exists k. auto using is_tree_app.
  - exists (us ++ vs), u. rewrite !app_assoc. split_and!; [done..|].
    apply Forall_app. split; (eapply Forall_impl; [done|]); simpl; auto.
Qed.
