(* ===== verification/Workflow.v ===== *)
(** * The executor and the agent of the prover

    [prover/crates/workflow/src/tasks/executor.rs] and [src/lib.rs].  The executor turns
    the segments and keccak requests of an execution into tasks of [TaskDb], laid out by
    [Planner]; the agent claims tasks, runs them and reports how they ended.  What the
    tasks of each kind do is the environment ([Workers]). *)

From stdpp Require Import pretty.
From S2P Require Import Prelude Planner TaskDb.

Local Open Scope Z_scope.

(** ** Data *)

Inductive CompressType := NoCompression | Groth16 | Blake3Groth16.

#[export] Instance CompressType_eq_dec : EqDecision CompressType.
Proof. solve_decision. Defined.

Record ExecutorReq := mkExecutorReq {
  ex_image : string;
  ex_input : string;
  ex_user_id : string;
  ex_assumptions : list string;
  execute_only : bool;
  compress : CompressType;
  req_exec_limit : option Z
}.

Record KeccakReq := mkKeccakReq { kr_claim_digest : string; kr_po2 : Z; kr_control_root : string }.

(** [TaskType], with the fields of the requests of its constructors. *)
Inductive TaskType :=
| TtExecutor (req : ExecutorReq)
| TtProve (index : nat)
| TtJoin (idx left right : nat)
| TtResolve (max_idx : nat) (union_max_idx : option nat)
| TtFinalize
| TtSnark (receipt : string) (compress_type : CompressType)
| TtKeccak (req : KeccakReq)
| TtUnion (idx left right : nat).

(** What the execution sends to the planning task. *)
Inductive SenderType :=
| SendSegment (index : nat)
| SendKeccak (req : KeccakReq) (keccak_input : list Z)
| SendFault.

Record Args := mkArgs {
  exec_cycle_limit : Z;
  prove_retries : Z;
  prove_timeout : Z;
  join_retries : Z;
  join_timeout : Z;
  resolve_retries : Z;
  resolve_timeout : Z;
  finalize_retries : Z;
  finalize_timeout : Z;
  snark_retries : Z;
  snark_timeout : Z
}.

Record Streams := mkStreams {
  prove_stream : string;
  join_stream : string;
  snark_stream : string;
  union_stream : string;
  aux_stream : string;
  coproc_stream : string
}.

(** The multiplication of [i32]. *)
Definition wrap_i32 (z : Z) : Z := (z + 2 ^ 31) mod 2 ^ 32 - 2 ^ 31.

(** ** The executor *)

(** Serialization, environment variables, and the store of hot data. *)
Class ExecutorEnv (X : Type) := {
  task_to_value : TaskType -> option string;
  env_is_set : string -> bool;
  hot_set : string -> list Z -> st X (string + unit)
}.

Section Executor.
Context {X : Type} `{TaskDbEnv X} `{ExecutorEnv X}.

Abbreviation ex A := (ste X string A).

(** The limit of an execution, in cycles: the arithmetic of [u64]. *)
Definition exec_limit (args : Args) (request : ExecutorReq) : Z :=
  let limit := wmul 64 (wmul 64 (exec_cycle_limit args) 1024) 1024 in
  match req_exec_limit request with
  | Some l => let l := wmul 64 (wmul 64 l 1024) 1024 in if l <? limit then l else limit
  | None => limit
  end.

Definition require_stream (user_id work_type code : string) : ex string :=
  found ← with_err (fun _ => code) (get_stream user_id work_type);
  liftr (ok_or code found).

(** A stream of its own when the environment asks for one, and else that of proving. *)
Definition optional_stream (var user_id work_type code prove : string) : ex string :=
  if env_is_set var then require_stream user_id work_type code else mret prove.

Definition get_streams (user_id : string) : ex Streams :=
  aux ← require_stream user_id "aux" "BENTO-EXEC-025";
  prove ← require_stream user_id "prove" "BENTO-EXEC-026";
  join ← optional_stream "JOIN_STREAM" user_id "join" "BENTO-EXEC-027" prove;
  snark ← optional_stream "SNARK_STREAM" user_id "snark" "BENTO-EXEC-028" prove;
  union ← optional_stream "UNION_STREAM" user_id "join" "BENTO-EXEC-028" prove;
  coproc ← optional_stream "COPROC_STREAM" user_id "coproc" "BENTO-EXEC-029" prove;
  mret (mkStreams prove join snark union aux coproc).

(** [serde_json::to_value] and [create_task], each with its error. *)
Definition add_task (job_id task_id stream_id : string) (task : TaskType)
    (value_code : string) (prereqs : list string) (retries timeout : Z) (create_code : string)
    : ex unit :=
  task_def ← liftr (ok_or value_code (task_to_value task));
  with_err (fun _ => create_code)
    (db_create_task job_id task_id stream_id task_def prereqs retries timeout).

Definition index {A} (l : list A) (i : nat) : ex A := liftr (unwrap (l !! i)).

Definition process_task (args : Args) (prove join snark union aux job_id : string)
    (tree_task : Planner.Task) (segment_index : option nat) (assumptions : list string)
    (compress_type : CompressType) (keccak_req : option KeccakReq) : ex unit :=
  let name := pretty (task_number tree_task) in
  match command tree_task with
  | Keccak =>
      req ← liftr (ok_or "BENTO-EXEC-001"%string keccak_req);
      add_task job_id name prove (TtKeccak req) "BENTO-EXEC-002" []
        (prove_retries args) (prove_timeout args) "BENTO-EXEC-003"
  | Segment =>
      i ← liftr (ok_or "BENTO-EXEC-004"%string segment_index);
      add_task job_id name prove (TtProve i) "BENTO-EXEC-005" []
        (prove_retries args) (prove_timeout args) "BENTO-EXEC-006"
  | Join =>
      left ← index (depends_on tree_task) 0;
      right ← index (depends_on tree_task) 1;
      add_task job_id name join (TtJoin (task_number tree_task) left right) "BENTO-EXEC-007"
        [pretty left; pretty right] (join_retries args) (join_timeout args) "BENTO-EXEC-008"
  | Union =>
      left ← index (keccak_depends_on tree_task) 0;
      right ← index (keccak_depends_on tree_task) 1;
      add_task job_id name union (TtUnion (task_number tree_task) left right) "BENTO-EXEC-009"
        [pretty left; pretty right] (join_retries args) (join_timeout args) "BENTO-EXEC-010"
  | Finalize =>
      let keccak_count := if bool_decide (keccak_depends_on tree_task = []) then 0 else 1 in
      let count := wadd 64 (Z.of_nat (length assumptions)) keccak_count in
      assumption_count ← liftr (if count <? 2 ^ 31 then Ok count
                                else Err "BENTO-EXEC-011"%string);
      root ← index (depends_on tree_task) 0;
      let union_max_idx := keccak_depends_on tree_task !! 0%nat in
      let prereqs := pretty root :: (match union_max_idx with
                                     | Some k => [pretty k]
                                     | None => []
                                     end) in
      _ ← add_task job_id "resolve" join (TtResolve root union_max_idx) "BENTO-EXEC-012" prereqs
            (resolve_retries args) (wrap_i32 (resolve_timeout args * assumption_count))
            "BENTO-EXEC-013";
      _ ← add_task job_id "finalize" aux TtFinalize "BENTO-EXEC-014" ["resolve"%string]
            (finalize_retries args) (finalize_timeout args) "BENTO-EXEC-015";
      if bool_decide (compress_type <> NoCompression)
      then add_task job_id "snark" snark (TtSnark job_id compress_type) "BENTO-EXEC-016"
             ["finalize"%string] (snark_retries args) (snark_timeout args) "BENTO-EXEC-017"
      else mret tt
  end.

(** [while let Some(tree_task) = planner.next_task()]; the number of tasks that have
    not been handed out is enough fuel. *)
Fixpoint drain (fuel : nat) (process : Planner.Task -> ex unit) (planner : Planner.Planner)
    : ex Planner.Planner :=
  match next_task planner with
  | (None, planner) => mret planner
  | (Some tree_task, planner) =>
      match fuel with
      | O => liftr Panic
      | S fuel => _ ← process tree_task; drain fuel process planner
      end
  end.

Definition drain_all (process : Planner.Task -> ex unit) (planner : Planner.Planner)
    : ex Planner.Planner :=
  drain (length (Planner.tasks planner) - consumer_position planner) process planner.

Definition coproc_key (job_id : string) (n : nat) (claim_digest : string) : string :=
  ("job:" ++ job_id ++ ":coproc:" ++ pretty n ++ ":" ++ claim_digest)%string.

Section Plan.
Context (args : Args) (streams : Streams) (job_id : string) (request : ExecutorReq).

(** One task of the planner, on the stream for its leaves. *)
Definition plan_task (leaf_stream : string) (segment_index : option nat)
    (keccak_req : option KeccakReq) (tree_task : Planner.Task) : ex unit :=
  process_task args leaf_stream (join_stream streams) (snark_stream streams)
    (union_stream streams) (aux_stream streams) job_id tree_task segment_index
    (ex_assumptions request) (compress request) keccak_req.

Definition on_segment (segment_index : nat) (planner : Planner.Planner) : ex Planner.Planner :=
  '(_, planner) ← liftr (map_err (fun _ => "BENTO-EXEC-051"%string) (enqueue_segment planner));
  drain_all (fun tree_task =>
    plan_task (prove_stream streams)
      (if bool_decide (command tree_task = Segment) then Some segment_index else None)
      None tree_task) planner.

Definition on_keccak (req : KeccakReq) (keccak_input : list Z) (planner : Planner.Planner)
    : ex Planner.Planner :=
  '(_, planner) ← liftr (map_err (fun _ => "BENTO-EXEC-032"%string) (enqueue_keccak planner));
  drain_all (fun tree_task =>
    _ ← (if bool_decide (command tree_task = Keccak) then
           set ← lift (hot_set (coproc_key job_id (task_number tree_task)
                                  (kr_claim_digest req)) keccak_input);
           match set with inr _ => mret tt | inl _ => throw "BENTO-EXEC-031"%string end
         else mret tt);
    plan_task (coproc_stream streams) None (Some req) tree_task) planner.

(** The loop over the channel, which ends when the channel is closed or at a fault: the
    planner and whether there was a fault. *)
Fixpoint plan_events (events : list SenderType) (planner : Planner.Planner)
    : ex (Planner.Planner * bool) :=
  match events with
  | [] => mret (planner, false)
  | event :: events =>
      if execute_only request then plan_events events planner else
      match event with
      | SendSegment i => planner ← on_segment i planner; plan_events events planner
      | SendKeccak req data => planner ← on_keccak req data planner; plan_events events planner
      | SendFault => mret (planner, true)
      end
  end.

(** The planning task; it answers whether the guest failed. *)
Definition plan_tasks (events : list SenderType) : ex bool :=
  '(planner, guest_fault) ← plan_events events planner_default;
  _ ← (if negb (execute_only request) && negb guest_fault then
         '(_, planner) ← liftr (map_err (fun _ => "BENTO-EXEC-052"%string) (finish planner));
         _ ← drain_all (plan_task (prove_stream streams) None None) planner;
         mret tt
       else mret tt);
  mret guest_fault.
End Plan.

(** The ends of the writing and the planning task, in the order in which they come. *)
Inductive JoinedTask := JoinedOk (guest_fault : bool) | JoinedErr (e : string) | JoinFailed.

Fixpoint join_tasks (ends : list JoinedTask) : result string unit :=
  match ends with
  | [] => Ok tt
  | JoinedOk guest_fault :: ends =>
      if (guest_fault : bool) then Err "Ran into fault"%string else join_tasks ends
  | JoinedErr e :: _ => Err e
  | JoinFailed :: _ => Err "BENTO-EXEC-046"%string
  end.
End Executor.

(** ** The agent *)

(** Where an agent gets its tasks and reports on them: the task database, or the API in
    front of it for the agents of the GPU streams. *)
Class WorkQueue (X : Type) := {
  wq_claim : string -> Z -> ste X string (option ReadyTask);
  wq_done : string -> string -> string -> ste X string bool;
  wq_failed : string -> string -> string -> ste X string bool;
  wq_retry : string -> string -> ste X string bool;
  wq_retries_running : string -> string -> ste X string (option Z)
}.

Definition direct_queue {X} `{TaskDbEnv X} (turns : list WaitTurn) : WorkQueue X := {|
  wq_claim := fun stream poll_time =>
    with_err (fun _ => "BENTO-WF-107"%string) (db_request_work_blocking turns stream poll_time);
  wq_done := fun j t out => with_err (fun _ => "BENTO-WF-133"%string) (db_update_task_done j t out);
  wq_failed := fun j t err =>
    with_err (fun _ => "BENTO-WF-110"%string) (db_update_task_failed j t err);
  wq_retry := fun j t => with_err (fun _ => "BENTO-WF-111"%string) (db_update_task_retry j t);
  wq_retries_running := fun j t =>
    with_err (fun _ => "BENTO-WF-109"%string) (get_task_retries_running j t)
|}.

Definition uses_gpu_worker_api (task_stream : string) : bool :=
  bool_decide (task_stream ∈ ["prove"; "join"; "coproc"; "snark"]%string).

(** The queue of an agent on a stream. *)
Definition agent_queue {X} (direct api : WorkQueue X) (task_stream : string) : WorkQueue X :=
  if uses_gpu_worker_api task_stream then api else direct.

(** The work of each kind of task: its output as JSON, and the keys that are used up. *)
Class Workers (X : Type) := {
  task_from_value : string -> option TaskType;
  povw_enabled : bool;
  json_unit : string;
  op_executor : string -> ExecutorReq -> ste X string string;
  op_prove : string -> string -> nat -> ste X string (list string);
  op_join : string -> nat -> nat -> nat -> ste X string (list string);
  op_join_povw : string -> nat -> nat -> nat -> ste X string (list string);
  op_resolve : string -> nat -> option nat -> ste X string (string * list string);
  op_resolve_povw : string -> nat -> option nat -> ste X string (string * list string);
  op_finalize : string -> ste X string (list string);
  op_snark : string -> string -> CompressType -> ste X string string;
  op_keccak : string -> string -> KeccakReq -> ste X string (list string);
  op_union : string -> nat -> nat -> nat -> ste X string (list string);
  hot_delete : string -> st X (string + unit)
}.

Section Agent.
Context {X : Type} `{WorkQueue X} `{Workers X}.

Abbreviation ex A := (ste X string A).

Definition with_unit (m : ex (list string)) : ex (string * list string) :=
  cleanup ← m; mret (json_unit, cleanup).

Definition run_task (job_id task_id : string) (task_type : TaskType) : ex (string * list string) :=
  match task_type with
  | TtExecutor req => res ← op_executor job_id req; mret (res, [])
  | TtProve i => with_unit (op_prove job_id task_id i)
  | TtJoin i l r =>
      with_unit (if povw_enabled then op_join_povw job_id i l r else op_join job_id i l r)
  | TtResolve m u => if povw_enabled then op_resolve_povw job_id m u else op_resolve job_id m u
  | TtFinalize => with_unit (op_finalize job_id)
  | TtSnark receipt c => res ← op_snark job_id receipt c; mret (res, [])
  | TtKeccak req => with_unit (op_keccak job_id task_id req)
  | TtUnion i l r => with_unit (op_union job_id i l r)
  end.

(** A key that cannot be deleted is only logged. *)
Fixpoint delete_keys (keys : list string) : ex unit :=
  match keys with
  | [] => mret tt
  | key :: keys => _ ← lift (hot_delete key); delete_keys keys
  end.

Definition process_work (task : ReadyTask) : ex unit :=
  task_type ← liftr (ok_or "Invalid task_def"%string (task_from_value (rt_task_def task)));
  '(res, cleanup) ← run_task (rt_job_id task) (rt_task_id task) task_type;
  _ ← wq_done (rt_job_id task) (rt_task_id task) res;
  delete_keys cleanup.

(** [String::truncate] panics when the cut is inside a character of UTF-8. *)
Definition continuation (c : Ascii.ascii) : bool :=
  let n := Z.of_N (Ascii.N_of_ascii c) in (128 <=? n) && (n <? 192).

Definition truncate (n : nat) (s : string) : result string string :=
  match String.get n s with
  | None => Ok s
  | Some c => if continuation c then Panic else Ok (String.substring 0 n s)
  end.

(** What follows a failure of the work. *)
Definition handle_error (task : ReadyTask) (err_str : string) : ex unit :=
  let j := rt_job_id task in
  let t := rt_task_id task in
  if 0 <? rt_max_retries task then
    current_retries ← wq_retries_running j t;
    if match current_retries with
       | Some n => rt_max_retries task <? n + 1
       | None => false
       end
    then
      err_str ← liftr (truncate 1024 err_str);
      let final_err := if bool_decide (err_str = ""%string) then "retry max hit"%string
                       else ("retry max hit: " ++ err_str)%string in
      _ ← wq_failed j t final_err; mret tt
    else _ ← wq_retry j t; mret tt
  else
    err_str ← liftr (truncate 1024 err_str);
    _ ← wq_failed j t err_str; mret tt.

(** One turn of the loop of [poll_work]. *)
Definition poll_turn (task_stream : string) (poll_time : Z) : ex unit :=
  task ← wq_claim task_stream poll_time;
  match task with
  | None => mret tt
  | Some task =>
      processed ← catch (process_work task);
      match processed with
      | inr _ => mret tt
      | inl err => handle_error task err
      end
  end.

(** The loop, by the values of the signal flag that it reads. *)
Fixpoint poll_work (task_stream : string) (poll_time : Z) (term_sig : list bool) : ex unit :=
  match term_sig with
  | [] => liftr Panic
  | true :: _ => mret tt
  | false :: term_sig =>
      _ ← poll_turn task_stream poll_time; poll_work task_stream poll_time term_sig
  end.
End Agent.

(** ** The watchers of the task database *)

Section Watchers.
Context {X : Type} `{TaskDbEnv X}.

(** [poll_for_requeue], [poll_for_stuck_tasks] and [poll_for_completed_job_cleanup], by
    the values of the signal flag. *)
Fixpoint poll_for_requeue (term_sig : list bool) : ste X TaskDbErr unit :=
  match term_sig with
  | [] => liftr Panic
  | true :: _ => mret tt
  | false :: term_sig => _ ← requeue_tasks 100; poll_for_requeue term_sig
  end.

Fixpoint poll_for_stuck_tasks (term_sig : list bool) : ste X TaskDbErr unit :=
  match term_sig with
  | [] => liftr Panic
  | true :: _ => mret tt
  | false :: term_sig => _ ← check_stuck_pending_tasks; poll_for_stuck_tasks term_sig
  end.

Fixpoint poll_for_completed_job_cleanup (term_sig : list bool) : ste X TaskDbErr unit :=
  match term_sig with
  | [] => liftr Panic
  | true :: _ => mret tt
  | false :: term_sig => _ ← clear_completed_jobs; poll_for_completed_job_cleanup term_sig
  end.
End Watchers.
