(* ===== verification/WorkflowFacts.v ===== *)
(** * The executor lays its plan out in the task database

    What [Workflow] does to [TaskDb]: the calls of the executor are admissible when
    others leave the job in place meanwhile, and make exactly the tasks of the plan; a task
    that an agent has claimed ends in the state that its work deserves. *)

From stdpp Require Import pretty.
From S2P Require Import Prelude Planner PlanShape TaskDb TaskDbFacts TaskDbCalls Workflow.

Local Open Scope Z_scope.

(** ** What calls leave alone *)

(** What [create_task] fixes of a task. *)
Record Laid := mkLaid {
  l_stream : string;
  l_def : string;
  l_prereqs : list string;
  l_max_retries : Z;
  l_timeout : Z
}.

Definition laid_of (t : Task) : Laid :=
  mkLaid (t_stream_id t) (t_task_def t) (t_prerequisites t) (t_max_retries t)
    (t_timeout_secs t).

(** Tasks stay as they were made, and none is done but those of [K]; jobs and streams
    stay. *)
Record evolves (K : TaskKey -> Prop) (r r' : Redis) : Prop := {
  ev_some : forall k, is_Some (tasks r !! k) -> is_Some (tasks r' !! k);
  ev_from : forall k t', tasks r' !! k = Some t' ->
    exists t, tasks r !! k = Some t /\ laid_of t' = laid_of t
         /\ (t_state t' = TsDone -> t_state t = TsDone \/ K k);
  ev_jobs : forall j, is_Some (jobs r !! j) -> is_Some (jobs r' !! j);
  ev_streams : streams r' = streams r
}.

Lemma evolves_same K r r' :
  tasks r' = tasks r -> jobs r' = jobs r -> streams r' = streams r -> evolves K r r'.
Proof.
  intros E1 E2 E3. split; rewrite ?E1, ?E2; try done. intros k t Hk. exists t. auto.
Qed.

Lemma evolves_trans K r1 r2 r3 : evolves K r1 r2 -> evolves K r2 r3 -> evolves K r1 r3.
Proof.
  intros [A1 A2 A3 A4] [B1 B2 B3 B4]. split; [auto| |auto|congruence].
  intros k t3 H3. destruct (B2 k t3 H3) as (t2 & H2 & P2 & D2).
  destruct (A2 k t2 H2) as (t1 & H1 & P1 & D1). exists t1.
  split; [done|]. split; [congruence|]. intros Hd. destruct (D2 Hd); auto.
Qed.

Lemma evolves_alter (K : TaskKey -> Prop) k (f : Task -> Task) r :
  (forall t, laid_of (f t) = laid_of t) ->
  (forall t, t_state (f t) = TsDone -> t_state t = TsDone \/ K k) ->
  evolves K r (alter_task k f r).
Proof.
  intros Hp Hd. split; try done.
  - intros k' [t Ht]. simpl. destruct (decide (k' = k)) as [->|Hne].
    + rewrite lookup_alter_eq, Ht. done.
    + rewrite lookup_alter_ne by done. by exists t.
  - intros k' t'. simpl. destruct (decide (k' = k)) as [->|Hne].
    + rewrite lookup_alter_eq. destruct (tasks r !! k) as [t|]; [|done]. intros [= <-].
      exists t. auto.
    + rewrite lookup_alter_ne by done. intros Hk. exists t'. auto.
Qed.

Lemma evolves_foldl {A} K (f : Redis -> A -> Redis) l r :
  (forall r x, evolves K r (f r x)) -> evolves K r (foldl f r l).
Proof.
  intros Hf. revert r. induction l as [|x l IH]; intros r; simpl; [by apply evolves_same|].
  by eapply evolves_trans.
Qed.

Lemma evolves_adjust K w p o n r :
  evolves K r (adjust_task_state_count_for_meta w p o n r).
Proof. rewrite adjust_meta_frame. by apply evolves_same. Qed.

Lemma evolves_adjust_task K k o n r : evolves K r (adjust_task_state_count_for_task k o n r).
Proof.
  unfold adjust_task_state_count_for_task. destruct (tasks r !! k);
    [apply evolves_adjust|by apply evolves_same].
Qed.

Lemma evolves_enqueue K k r : evolves K r (enqueue_task k r).
Proof. unfold enqueue_task. repeat case_match; by apply evolves_same. Qed.

Lemma evolves_remove K k r : evolves K r (remove_task_from_ready k r).
Proof. unfold remove_task_from_ready. case_match; by apply evolves_same. Qed.

Lemma evolves_leave K j r : evolves K r (leave_running j r).
Proof. unfold leave_running. case_match; by apply evolves_same. Qed.

Lemma evolves_hset K j f r : evolves K r (hset_job j f r).
Proof.
  split; try done; [intros k t Hk; exists t; auto|].
  intros j' Hj. simpl. destruct (decide (j' = j)) as [->|Hne];
    [by rewrite lookup_insert_eq|by rewrite lookup_insert_ne].
Qed.

(** One function of the library, from its last command back. *)
Ltac evolve :=
  cbv zeta; cbn [snd fst];
  repeat match goal with
  | |- evolves _ ?r ?r => by apply evolves_same
  | |- evolves _ _ (if ?b then _ else _) => destruct b
  | |- evolves _ _ (match ?o with Some _ => _ | None => _ end) => destruct o
  | |- evolves _ _ (with_running _ ?x) => apply (evolves_trans _ _ x); [|by apply evolves_same]
  | |- evolves _ _ (with_ready _ ?x) => apply (evolves_trans _ _ x); [|by apply evolves_same]
  | |- evolves _ _ (adjust_task_state_count_for_meta _ _ _ _ ?x) =>
      apply (evolves_trans _ _ x); [|apply evolves_adjust]
  | |- evolves _ _ (adjust_task_state_count_for_task _ _ _ ?x) =>
      apply (evolves_trans _ _ x); [|apply evolves_adjust_task]
  | |- evolves _ _ (enqueue_task _ ?x) => apply (evolves_trans _ _ x); [|apply evolves_enqueue]
  | |- evolves _ _ (remove_task_from_ready _ ?x) =>
      apply (evolves_trans _ _ x); [|apply evolves_remove]
  | |- evolves _ _ (leave_running _ ?x) => apply (evolves_trans _ _ x); [|apply evolves_leave]
  | |- evolves _ _ (hset_job _ _ ?x) => apply (evolves_trans _ _ x); [|apply evolves_hset]
  | |- evolves _ _ (alter_task _ _ ?x) =>
      apply (evolves_trans _ _ x); [|apply evolves_alter; [done|simpl; auto; try done]]
  end.

Lemma evolves_resolve K j now r tid : evolves K r (resolve_dependent j now r tid).
Proof.
  unfold resolve_dependent. destruct (tasks r !! (j, tid)) as [t|]; [|by apply evolves_same].
  evolve.
Qed.

Lemma evolves_cancel K j task_id now r tid : evolves K r (cancel_sibling j task_id now r tid).
Proof.
  unfold cancel_sibling. destruct (bool_decide _); [by apply evolves_same|].
  destruct (tasks r !! (j, tid)) as [t|]; [|by apply evolves_same]. evolve.
Qed.

Lemma evolves_pop K fuel w p now r : evolves K r (pop_ready fuel w p now r).2.
Proof.
  revert r. induction fuel as [|fuel IH]; intros r; cbn [pop_ready]; [by apply evolves_same|].
  destruct (pop_min _) as [[k s]|]; [|by apply evolves_same]. cbv zeta.
  set (r1 := with_ready _ r).
  apply evolves_trans with r1; [by apply evolves_same|]. clearbody r1.
  destruct (tasks r1 !! k) as [t|]; [|apply IH].
  destruct (bool_decide (t_state t = TsReady)); [|apply IH].
  destruct (bool_decide (job_state r1 k.1 = Some JobFailed)).
  - eapply evolves_trans; [|apply IH]. evolve.
  - evolve.
Qed.

Lemma evolves_request K w now r : evolves K r (request_work w now r).2.
Proof.
  unfold request_work. generalize [0; 1; 2]. intros ps. revert r.
  induction ps as [|p ps IH]; intros r; simpl; [by apply evolves_same|]. unfold pop_queue.
  pose proof (evolves_pop K (size (queue r (w, p))) w p now r) as H.
  destruct (pop_ready _ w p now r) as [[t|] r1]; [done|]. by eapply evolves_trans.
Qed.

Lemma evolves_done j tid out now r :
  evolves (fun k => k = (j, tid)) r (update_task_done j tid out now r).2.
Proof.
  unfold update_task_done. destruct (tasks r !! (j, tid)) as [t|]; [|by apply evolves_same].
  destruct (negb _); [by apply evolves_same|]. cbv zeta. cbn [snd].
  match goal with |- evolves _ _ (if all_done j ?x then _ else _) => set (r4 := x) end.
  apply evolves_trans with r4; [|destruct (all_done j r4); [evolve|by apply evolves_same]].
  subst r4. eapply evolves_trans; [|apply evolves_foldl; intros; apply evolves_resolve].
  evolve.
Qed.

Lemma evolves_failed K j tid err now r : evolves K r (update_task_failed j tid err now r).2.
Proof.
  unfold update_task_failed. destruct (tasks r !! (j, tid)) as [t|]; [|by apply evolves_same].
  destruct (negb _); [by apply evolves_same|]. cbv zeta. cbn [snd].
  eapply evolves_trans; [|apply evolves_foldl; intros; apply evolves_cancel]. evolve.
Qed.

Lemma evolves_progress K j tid q now r : evolves K r (update_task_progress j tid q now r).2.
Proof.
  unfold update_task_progress. destruct (tasks r !! (j, tid)) as [t|]; [|by apply evolves_same].
  destruct (negb _); [by apply evolves_same|]. evolve.
Qed.

Lemma evolves_retry K j tid now r : evolves K r (update_task_retry j tid now r).2.
Proof.
  unfold update_task_retry. destruct (tasks r !! (j, tid)) as [t|]; [|by apply evolves_same].
  destruct (negb _); [by apply evolves_same|]. cbv zeta.
  destruct (_ <? _); evolve.
Qed.

(** ** What others may do to a job while it is planned *)

(** The same for one job, whose first task is not done. *)
Record evolves_job (j : string) (r r' : Redis) : Prop := {
  ej_some : forall tid, is_Some (tasks r !! (j, tid)) -> is_Some (tasks r' !! (j, tid));
  ej_from : forall tid t', tasks r' !! (j, tid) = Some t' ->
    exists t, tasks r !! (j, tid) = Some t /\ laid_of t' = laid_of t
         /\ (tid = "init"%string -> t_state t' = TsDone -> t_state t = TsDone);
  ej_jobs : is_Some (jobs r !! j) -> is_Some (jobs r' !! j);
  ej_streams : forall s, is_Some (streams r !! s) -> is_Some (streams r' !! s)
}.

Lemma evolves_here (K : TaskKey -> Prop) j r r' :
  ~ K (j, "init"%string) -> evolves K r r' -> evolves_job j r r'.
Proof.
  intros HK [H1 H2 H3 H4]. split; [auto| |auto|by rewrite H4].
  intros tid t' Ht. destruct (H2 _ _ Ht) as (t & ? & ? & Hd). exists t. split_and!; [done..|].
  intros -> E. destruct (Hd E); [done|]. naive_solver.
Qed.

(** Nothing of the job is touched. *)
Lemma evolves_elsewhere j r r' :
  (forall tid, tasks r' !! (j, tid) = tasks r !! (j, tid)) -> jobs r' !! j = jobs r !! j ->
  (forall s, is_Some (streams r !! s) -> is_Some (streams r' !! s)) -> evolves_job j r r'.
Proof.
  intros H1 H2 H3. split; [intros tid; by rewrite H1| |by rewrite H2|done].
  intros tid t'. rewrite H1. intros Ht. by exists t'.
Qed.

Lemma evolves_job_trans j r1 r2 r3 : evolves_job j r1 r2 -> evolves_job j r2 r3 -> evolves_job j r1 r3.
Proof.
  intros [A1 A2 A3 A4] [B1 B2 B3 B4]. split; [auto| |auto|auto].
  intros tid t3 H3. destruct (B2 _ _ H3) as (t2 & H2 & P2 & D2).
  destruct (A2 _ _ H2) as (t1 & H1 & P1 & D1). exists t1. split; [done|]. split; [congruence|auto].
Qed.

(** The calls of others: none makes or deletes a task of the job, or the job, and none
    says that its first task is done.  A client that clears the finished jobs does make
    such a call when a task of the job has failed for good while its first task still
    runs; [create_after_delete] says what the executor then meets. *)
Definition foreign (j : string) (c : DbCall) : Prop :=
  match c with
  | CreateJob _ _ _ _ _ j' _ _ | CreateTask j' _ _ _ _ _ _ _ | DeleteJob j' | ExpireInit j' =>
      j' <> j
  | UpdateDone j' tid _ _ => ~ (j' = j /\ tid = "init"%string)
  | _ => True
  end.

Lemma evolves_foldl_job {A} j (f : Redis -> A -> Redis) l r :
  (forall r x, evolves_job j r (f r x)) -> evolves_job j r (foldl f r l).
Proof.
  intros Hf. revert r. induction l as [|x l IH]; intros r; simpl; [by apply evolves_elsewhere|].
  by eapply evolves_job_trans.
Qed.

Section Foreign.
Context (j j' : string) (Hj : j' <> j).

Lemma elsewhere_create_job sid def mr ts user now p r :
  evolves_job j r (create_job sid def mr ts user j' now p r).2.
Proof using Hj.
  unfold create_job. destruct (streams r !! sid) as [st|]; [|by apply evolves_elsewhere].
  cbv zeta. cbn [snd]. eapply evolves_job_trans; [|eapply (evolves_here (fun _ => False));
    [tauto|apply evolves_enqueue]].
  eapply evolves_job_trans; [|eapply (evolves_here (fun _ => False)); [tauto|apply evolves_adjust]].
  apply evolves_elsewhere; [|simpl; by rewrite lookup_insert_ne|done].
  intros tid. simpl. rewrite lookup_insert_ne; [done|]. by intros [= ? _].
Qed.

Lemma elsewhere_link tid ps w r : exists d, (link_prerequisites j' tid ps w r).2 = with_deps d r.
Proof using Type.
  revert w r. induction ps as [|p ps IH]; intros w r; simpl; [exists (deps r); by destruct r|].
  destruct (tasks r !! (j', p)); [|exists (deps r); by destruct r].
  destruct (IH (if bool_decide (t_state t = TsDone) then w else w + 1)
    (with_deps (sadd (j', p) tid (deps r)) r)) as [d ->]. by exists d.
Qed.

Lemma elsewhere_create_task tid sid def ps mr ts now r :
  evolves_job j r (create_task j' tid sid def ps mr ts now r).2.
Proof using Hj.
  unfold create_task. destruct (jobs r !! j') as [m|]; [|by apply evolves_elsewhere].
  destruct (streams r !! sid) as [st|]; [|by apply evolves_elsewhere]. cbv zeta.
  destruct (tasks _ !! (j', tid)); [by apply evolves_elsewhere|].
  pose proof (elsewhere_link tid ps 0 (with_sequence (task_sequence r + 1) r)) as [d Hd].
  destruct (link_prerequisites _ _ _ _ _) as [[w|e|] r1]; cbn [snd] in Hd; subst r1;
    [|by apply evolves_elsewhere|by apply evolves_elsewhere].
  destruct (if w <=? 0 then _ else _) as [w' s]. cbn [snd].
  match goal with |- evolves_job _ _ (if _ then enqueue_task _ ?x else _) =>
    apply (evolves_job_trans _ _ x) end.
  - eapply evolves_job_trans; [|eapply (evolves_here (fun _ => False)); [tauto|apply evolves_adjust]].
    apply evolves_elsewhere; [|done..].
    intros tid'. simpl. rewrite lookup_insert_ne; [done|]. by intros [= ? _].
  - apply (evolves_here (fun _ => False)); [tauto|]. destruct (bool_decide _);
      [apply evolves_enqueue|by apply evolves_same].
Qed.

Lemma evolves_unlink (K : TaskKey -> Prop) (tid : string) (l : list string) r :
  evolves K r (foldl (fun r pre => with_deps (srem (j', pre) tid (deps r)) r) r l).
Proof using Type. apply evolves_foldl. intros. by apply evolves_same. Qed.

Lemma elsewhere_delete_task tid r : evolves_job j r (delete_task j' r tid).
Proof using Hj.
  unfold delete_task. cbv zeta.
  match goal with |- evolves_job _ _ (if _ then ?x else _) => apply (evolves_job_trans _ _ x) end.
  - apply (evolves_here (fun _ => False)); [tauto|].
    match goal with |- evolves _ _ (with_deps _ ?x) => apply (evolves_trans _ _ x) end;
      [|by apply evolves_same].
    eapply evolves_trans; [|apply evolves_unlink].
    set (o := if bool_decide (task_state r (j', tid) = Some TsReady) then _ else _).
    apply (evolves_trans _ _ o); [subst o|apply evolves_adjust_task].
    destruct (bool_decide _); [apply evolves_remove|].
    destruct (bool_decide _); by apply evolves_same.
  - destruct (bool_decide (tid = "init"%string)); [by apply evolves_elsewhere|].
    apply evolves_elsewhere; [|done..]. intros tid'. simpl.
    rewrite lookup_delete_ne; [done|]. by intros [= ? _].
Qed.

Lemma elsewhere_delete_job r : evolves_job j r (delete_job j' r).
Proof using Hj.
  unfold delete_job.
  match goal with |- evolves_job _ _ (with_jobs _ ?x) => apply (evolves_job_trans _ _ x) end;
    [|apply evolves_elsewhere; [done|simpl; by rewrite lookup_delete_ne|done]].
  match goal with |- evolves_job _ _ (with_tasks_by_job _ ?x) => apply (evolves_job_trans _ _ x) end;
    [|by apply evolves_elsewhere].
  eapply evolves_job_trans; [|apply evolves_foldl_job; intros; apply elsewhere_delete_task].
  apply (evolves_here (fun _ => False)); [tauto|apply evolves_leave].
Qed.
End Foreign.

Lemma foreign_evolves j c r : foreign j c -> evolves_job j r (run_call c r).
Proof.
  assert (Hh : forall r', evolves (fun _ => False) r r' -> evolves_job j r r')
    by (intros r'; apply evolves_here; tauto).
  destruct c as [w n q u sid| | | |j' tid out now| | | | | |]; simpl foreign; intros Hc; cbn [run_call].
  - unfold create_stream. destruct (stream_lookup r !! _); [by apply evolves_elsewhere|].
    apply evolves_elsewhere; [done..|]. intros s Hs. simpl.
    destruct (decide (s = sid)) as [->|Hne]; [by rewrite lookup_insert_eq|by rewrite lookup_insert_ne].
  - by apply elsewhere_create_job.
  - by apply elsewhere_create_task.
  - apply Hh, evolves_request.
  - eapply evolves_here; [|apply evolves_done]. simpl. intros [= <- <-]. by apply Hc.
  - apply Hh, evolves_failed.
  - apply Hh, evolves_progress.
  - apply Hh, evolves_retry.
  - by apply elsewhere_delete_job.
  - unfold expire_init. apply evolves_elsewhere; [|done..]. intros tid. simpl.
    rewrite lookup_delete_ne; [done|]. by intros [= ? _].
  - unfold count_task_states, bootstrap_task_state_counts. cbn [snd].
    destruct (task_counts r); by apply evolves_elsewhere.
Qed.

(** A job that was deleted takes no task any more. *)
Lemma create_after_delete j tid sid def ps mr ts now r :
  let r' := delete_job j r in
  create_task j tid sid def ps mr ts now r' = (Err "missing job"%string, r').
Proof. unfold create_task. unfold delete_job at 1. simpl. by rewrite lookup_delete_eq. Qed.

(** What others do between two calls of the executor. *)
Inductive others (j : string) : Redis -> Redis -> Prop :=
| others_none r : others j r r
| others_call c r r' : foreign j c -> admissible c r -> others j (run_call c r) r' -> others j r r'.

Definition db_reachable (r : Redis) : Prop := exists cl, reach cl r.

Lemma db_reachable_call r c : db_reachable r -> admissible c r -> db_reachable (run_call c r).
Proof. intros [cl Hr] Ha. eexists. by apply reach_call. Qed.

Lemma others_evolves j r r' : others j r r' -> db_reachable r -> db_reachable r' /\ evolves_job j r r'.
Proof.
  induction 1 as [r|c r r' Hf Ha _ IH]; intros Hr; [split; [done|by apply evolves_elsewhere]|].
  destruct (IH (db_reachable_call r c Hr Ha)) as [H1 H2]. split; [done|].
  eapply evolves_job_trans; [by apply foreign_evolves|done].
Qed.
