(* ===== verification/ExecutorPlan.v ===== *)
(** * The executor lays its plan out in the task database

    [Workflow.plan_tasks] over [Planner] and [TaskDb], while other agents work on the
    tasks that are already there and the job is not deleted: the calls of the executor are admissible, none fails,
    and in the end the job has exactly the tasks of the plan. *)

From stdpp Require Import pretty.
From S2P Require Import Prelude Planner PlanShape TaskDb TaskDbFacts TaskDbCalls Workflow WorkflowFacts.

Local Open Scope Z_scope.

(** ** The connection *)

(** What the executor relies on: every call reaches the database, and a function of the library runs as a whole on the
    database as others have left it, tasks have a JSON value, and hot data is stored.
    Between any two calls others may make calls of their own. *)
Class Connected (X : Type) `{TaskDbEnv X} `{ExecutorEnv X} (j : string) := {
  redis_of : X -> Redis;
  value_of : TaskType -> string;
  fcall_runs : forall A (f : Redis -> A * Redis) w, exists r w',
    others j (redis_of w) r /\ fcall f w = (inr (f r).1, w') /\ others j (f r).2 (redis_of w');
  clock_runs : forall w, others j (redis_of w) (redis_of (now_seconds w).2);
  hot_runs : forall key data w, exists w',
    hot_set key data w = (inr tt, w') /\ others j (redis_of w) (redis_of w');
  value_known : forall t, task_to_value t = Some (value_of t)
}.

(** ** The state of the job while it is planned *)

(** The job has a first task that is running its plan, and the streams exist. *)
Record ready_job (j : string) (S : list string) (r : Redis) : Prop := {
  rj_reach : db_reachable r;
  rj_job : is_Some (jobs r !! j);
  rj_init : exists t, tasks r !! (j, "init"%string) = Some t /\ t_state t <> TsDone;
  rj_streams : forall s, s ∈ S -> is_Some (streams r !! s)
}.

(** The tasks of the job, but for its first, are those of the list. *)
Definition holds_plan (j : string) (l : list (string * Laid)) (r : Redis) : Prop :=
  forall tid x, tid <> "init"%string ->
    laid_of <$> tasks r !! (j, tid) = Some x <-> (tid, x) ∈ l.

Definition planned (j : string) (S : list string) (l : list (string * Laid)) (r : Redis) : Prop :=
  ready_job j S r /\ holds_plan j l r.

Lemma evolves_laid j r r' tid :
  evolves_job j r r' -> laid_of <$> tasks r' !! (j, tid) = laid_of <$> tasks r !! (j, tid).
Proof.
  intros [H1 H2 _ _]. destruct (tasks r' !! (j, tid)) as [t'|] eqn:E'.
  - destruct (H2 _ _ E') as (t & -> & El & _). simpl. by rewrite El.
  - destruct (tasks r !! (j, tid)) as [t|] eqn:E; [|done].
    destruct (H1 tid ltac:(by rewrite E)) as [t' Et']. congruence.
Qed.

Lemma others_planned j S l r r' : others j r r' -> planned j S l r -> planned j S l r'.
Proof.
  intros Ho [[H1 H2 (t & Ht & Hd) H4] Hp]. destruct (others_evolves j r r' Ho H1) as [Hr He].
  split; [split|].
  - done.
  - by apply (ej_jobs _ _ _ He).
  - destruct (ej_some _ _ _ He "init"%string) as [t' Ht']; [by rewrite Ht|].
    exists t'. split; [done|]. intros Hd'.
    destruct (ej_from _ _ _ He _ _ Ht') as (t0 & Ht0 & _ & Hi).
    rewrite Ht in Ht0. injection Ht0 as <-. by apply Hd, Hi.
  - intros s Hs. by apply (ej_streams _ _ _ He), H4.
  - intros tid x Hne. rewrite (evolves_laid j r r' tid He). by apply Hp.
Qed.

(** A job whose first task is not done has not ended. *)
Lemma ready_job_state j S r :
  ready_job j S r -> job_state r j = Some JobRunning \/ job_state r j = Some JobFailed.
Proof.
  intros [[cl [HI _]%reach_inv] [m Hm] (t & Ht & Hd) _].
  destruct (inv_live _ _ HI _ _ Ht) as [Hin|(_ & _ & Hn & _)]; [|simpl in Hn; congruence].
  pose proof (inv_job _ _ HI _ _ Hin Ht) as Ha. simpl in Ha.
  destruct (job_state r j) as [[]|]; naive_solver.
Qed.

(** ** One task *)

Lemma create_task_makes j S l tid sid def ps mr ts now r :
  planned j S l r -> sid ∈ S -> tid <> "init"%string -> (forall x, (tid, x) ∉ l) -> NoDup ps ->
  (forall p, p ∈ ps -> p <> "init"%string /\ exists x, (p, x) ∈ l) ->
  (create_task j tid sid def ps mr ts now r).1 = Ok tt
  /\ planned j S (l ++ [(tid, mkLaid sid def ps mr ts)]) (create_task j tid sid def ps mr ts now r).2.
Proof.
  intros [Hj Hp] Hsid Hne Hnew Hnd Hps. pose proof (rj_reach _ _ _ Hj) as Hreach.
  assert (Hpre : forall p, p ∈ ps -> is_Some (tasks r !! (j, p))).
  { intros p Hin. destruct (Hps p Hin) as (Hi & x & Hx). apply (Hp p x Hi) in Hx.
    destruct (tasks r !! (j, p)); [done|discriminate Hx]. }
  assert (Hadm : admissible (CreateTask j tid sid def ps mr ts now) r).
  { intros _. split; [by apply (ready_job_state j S)|done]. }
  pose proof (db_reachable_call r _ Hreach Hadm) as Hr'. cbn [run_call] in Hr'. revert Hr'.
  destruct Hj as [_ Hjob (t0 & Ht0 & Hd0) Hst]. destruct Hjob as [meta Hm].
  destruct (Hst sid Hsid) as [st Hs].
  assert (Hn : tasks r !! (j, tid) = None).
  { destruct (tasks r !! (j, tid)) as [t|] eqn:E; [|done].
    destruct (Hnew (laid_of t)). apply (Hp tid _ Hne). by rewrite E. }
  unfold create_task. rewrite Hm, Hs. cbv zeta. change (tasks (with_sequence _ r)) with (tasks r).
  rewrite Hn. destruct (link_spec j tid ps 0 (with_sequence (task_sequence r + 1) r)) as (d & -> & _);
    [done|]. change (undone (with_sequence _ r) j ps) with (undone r j ps). rewrite Z.add_0_l.
  match goal with |- context [if undone r j ps <=? 0 then ?x else ?y] =>
    destruct (if undone r j ps <=? 0 then x else y) as [w s] end. cbn [fst snd]. intros Hr'.
  split; [done|].
  match type of Hr' with db_reachable (if ?b then enqueue_task ?k ?x else _) =>
    assert (evolves_job j x (if b then enqueue_task k x else x)) as Hev; [|set (r1 := x) in *] end.
  { apply (evolves_here (fun _ => False)); [tauto|].
    destruct (bool_decide _); [apply evolves_enqueue|by apply evolves_same]. }
  match goal with r1 := context [<[(j, tid) := ?x]> (tasks _)] |- _ => set (t := x) in * end.
  assert (Hf : tasks r1 = <[(j, tid) := t]> (tasks r) /\ jobs r1 = jobs r /\ streams r1 = streams r)
    by (subst r1; by rewrite adjust_meta_frame).
  clearbody r1. destruct Hf as (Et & Ej & Es).
  match type of Hr' with db_reachable ?x => set (r' := x) in * end. clearbody r'.
  split; [split|].
  - done.
  - apply (ej_jobs _ _ _ Hev). by rewrite Ej, Hm.
  - assert (Hi : tasks r1 !! (j, "init"%string) = Some t0)
      by (rewrite Et, lookup_insert_ne; [done|congruence]).
    destruct (ej_some _ _ _ Hev "init"%string ltac:(by rewrite Hi)) as [t' Ht'].
    exists t'. split; [done|]. intros Hd'. destruct (ej_from _ _ _ Hev _ _ Ht') as (t1 & H1 & _ & H2).
    rewrite Hi in H1. injection H1 as <-. by apply Hd0, H2.
  - intros x Hx. apply (ej_streams _ _ _ Hev). rewrite Es. by apply Hst.
  - intros tid' x Hne'. rewrite (evolves_laid j r1 r' tid' Hev), Et, elem_of_app, list_elem_of_singleton.
    destruct (decide (tid' = tid)) as [->|Hd].
    + rewrite lookup_insert_eq. split; [intros [= <-]; by right|].
      intros [Hx|[= ->]]; [by destruct (Hnew x)|done].
    + rewrite lookup_insert_ne by congruence. rewrite (Hp tid' x Hne'). naive_solver.
Qed.

Section Executor.
Context {X : Type} {j : string} `{Connected X j}.

Abbreviation redis w := (redis_of (j := j) w).
Abbreviation json t := (value_of (j := j) t).

Lemma hot_set_planned S l key data w :
  planned j S l (redis w) ->
  exists w', hot_set key data w = (inr tt, w') /\ planned j S l (redis w').
Proof.
  intros Hp. destruct (hot_runs key data w) as (w' & E & Ho). exists w'. split; [done|].
  by eapply others_planned.
Qed.

Lemma add_task_makes S l tid sid task vc ps mr ts cc w :
  planned j S l (redis w) -> sid ∈ S -> tid <> "init"%string -> (forall x, (tid, x) ∉ l) -> NoDup ps ->
  (forall p, p ∈ ps -> p <> "init"%string /\ exists x, (p, x) ∈ l) ->
  exists w', add_task j tid sid task vc ps mr ts cc w = (Ok tt, w')
    /\ planned j S (l ++ [(tid, mkLaid sid (json task) ps mr ts)]) (redis w').
Proof.
  intros Hp Hs Hne Hnew Hnd Hps. unfold add_task. rewrite value_known. simpl.
  unfold with_err, db_create_task, run_fcall_reply, run_fcall, liftr, lift, mbind, ste_bind.
  destruct (now_seconds w) as [now w1] eqn:En.
  assert (planned j S l (redis w1)) as Hp1.
  { pose proof (clock_runs (j := j) w) as Ho. rewrite En in Ho. by eapply others_planned. }
  destruct (fcall_runs (j := j) _ (create_task j tid sid (json task) ps mr ts now) w1)
    as (r & w2 & Ho1 & E & Ho2).
  cbn iota beta. rewrite E.
  pose proof (others_planned _ _ _ _ _ Ho1 Hp1) as Hp2.
  destruct (create_task_makes j S l tid sid (json task) ps mr ts now r) as [-> Hp3]; [done..|].
  exists w2. split; [done|]. by eapply others_planned.
Qed.

(** ** The tasks that the plan stands for *)

Section Job.
Context (args : Args) (S : Streams) (request : ExecutorReq).

Definition stream_list : list string :=
  [prove_stream S; join_stream S; snark_stream S; union_stream S; aux_stream S; coproc_stream S].

(** The tasks of the database for one task of the planner; [leaf] gives the work of the
    segments and the keccak requests by their number. *)
Definition laid (leaf : nat -> TaskType) (u : Planner.Task) : list (string * Laid) :=
  let n := task_number u in
  match command u with
  | Segment =>
      [(pretty n, mkLaid (prove_stream S) (json (leaf n)) [] (prove_retries args) (prove_timeout args))]
  | Keccak =>
      [(pretty n, mkLaid (coproc_stream S) (json (leaf n)) [] (prove_retries args) (prove_timeout args))]
  | Join =>
      [(pretty n, mkLaid (join_stream S)
          (json (TtJoin n (nth 0 (depends_on u) 0%nat) (nth 1 (depends_on u) 0%nat)))
          (pretty <$> depends_on u) (join_retries args) (join_timeout args))]
  | Union =>
      [(pretty n, mkLaid (union_stream S)
          (json (TtUnion n (nth 0 (keccak_depends_on u) 0%nat) (nth 1 (keccak_depends_on u) 0%nat)))
          (pretty <$> keccak_depends_on u) (join_retries args) (join_timeout args))]
  | Finalize =>
      let count := Z.of_nat (length (ex_assumptions request) + length (keccak_depends_on u)) in
      ("resolve"%string, mkLaid (join_stream S)
         (json (TtResolve (nth 0 (depends_on u) 0%nat) (keccak_depends_on u !! 0%nat)))
         (pretty <$> children u) (resolve_retries args) (wrap_i32 (resolve_timeout args * count)))
      :: ("finalize"%string, mkLaid (aux_stream S) (json TtFinalize) ["resolve"%string]
            (finalize_retries args) (finalize_timeout args))
      :: match compress request with
         | NoCompression => []
         | c => [("snark"%string, mkLaid (snark_stream S) (json (TtSnark j c)) ["finalize"%string]
                    (snark_retries args) (snark_timeout args))]
         end
  end.

Definition laid_all (leaf : nat -> TaskType) (ts : list Planner.Task) : list (string * Laid) :=
  ts ≫= laid leaf.

Lemma laid_all_app leaf ts us : laid_all leaf (ts ++ us) = laid_all leaf ts ++ laid_all leaf us.
Proof using Type. apply bind_app. Qed.

Lemma laid_all_snoc leaf ts u : laid_all leaf (ts ++ [u]) = laid_all leaf ts ++ laid leaf u.
Proof using Type. rewrite laid_all_app. unfold laid_all at 2. simpl. by rewrite app_nil_r. Qed.

(** A part of a plan, in the order of its numbers, without the finalizing task. *)
Definition numbered (ts : list Planner.Task) : Prop :=
  forall i u, ts !! i = Some u -> task_number u = i /\ command u <> Finalize.

Lemma laid_named leaf u : command u <> Finalize -> (laid leaf u).*1 = [pretty (task_number u)].
Proof using Type. unfold laid. by destruct (command u). Qed.

Lemma laid_all_ext leaf leaf' ts :
  (forall u, u ∈ ts -> leaf (task_number u) = leaf' (task_number u)) ->
  laid_all leaf ts = laid_all leaf' ts.
Proof using Type.
  intros He. unfold laid_all. induction ts as [|u ts IH]; [done|].
  change (laid leaf u ++ (ts ≫= laid leaf) = laid leaf' u ++ (ts ≫= laid leaf')).
  rewrite IH by (intros v Hv; apply He; by right). f_equal.
  unfold laid. by rewrite (He u) by (by left).
Qed.

Lemma laid_all_name leaf ts tid x :
  numbered ts -> (tid, x) ∈ laid_all leaf ts -> exists i, (i < length ts)%nat /\ tid = pretty i.
Proof using Type.
  intros Hn. unfold laid_all. intros (u & Hx & [i Hi]%list_elem_of_lookup_1)%list_elem_of_bind.
  destruct (Hn i u Hi) as [En Hc]. exists i. split; [by eapply lookup_lt_Some|].
  apply (list_elem_of_fmap_2 fst) in Hx. rewrite laid_named, En in Hx by done.
  by apply list_elem_of_singleton in Hx.
Qed.

Lemma laid_all_has leaf ts i :
  numbered ts -> (i < length ts)%nat -> exists x, (pretty i, x) ∈ laid_all leaf ts.
Proof using Type.
  intros Hn [u Hu]%lookup_lt_is_Some. destruct (Hn i u Hu) as [En Hc].
  pose proof (laid_named leaf u Hc) as Hl. rewrite En in Hl.
  destruct (laid leaf u) as [|[n x] [|]] eqn:El; try done. simpl in Hl. injection Hl as ->.
  exists x. unfold laid_all. apply list_elem_of_bind. exists u.
  split; [rewrite El; by left|by eapply list_elem_of_lookup_2].
Qed.

(** Names of tasks that are not numbers. *)
Lemma laid_all_fresh leaf ts c s x :
  numbered ts -> (58 <= Ascii.N_of_ascii c)%N -> (String c s, x) ∉ laid_all leaf ts.
Proof using Type.
  intros Hn Hc Hin. destruct (laid_all_name leaf ts _ x Hn Hin) as (i & _ & E).
  by apply (pretty_nat_letter i c s).
Qed.

Lemma pretty_not_init (i : nat) : pretty i <> "init"%string.
Proof using Type. by apply pretty_nat_letter. Qed.

Lemma laid_all_deps leaf ts ds :
  numbered ts -> Forall (fun d => (d < length ts)%nat) ds ->
  forall p, p ∈ (pretty <$> ds : list string) ->
    p <> "init"%string /\ exists x, (p, x) ∈ laid_all leaf ts.
Proof using Type.
  intros Hn Hd p (d & -> & Hin)%list_elem_of_fmap. split; [apply pretty_not_init|].
  apply laid_all_has; [done|]. rewrite Forall_forall in Hd. by apply Hd.
Qed.

(** One numbered task. *)
Lemma add_numbered leaf ts sid task vc ds mr to cc w :
  planned j stream_list (laid_all leaf ts) (redis w) -> numbered ts -> sid ∈ stream_list ->
  NoDup ds -> Forall (fun d => (d < length ts)%nat) ds ->
  exists w', add_task j (pretty (length ts)) sid task vc (pretty <$> ds) mr to cc w = (Ok tt, w')
    /\ planned j stream_list
         (laid_all leaf ts ++ [(pretty (length ts), mkLaid sid (json task) (pretty <$> ds) mr to)])
         (redis w').
Proof using Type.
  intros Hp Hn Hs Hnd Hds. apply add_task_makes; [done|done|apply pretty_not_init| | |].
  - intros x Hin. destruct (laid_all_name leaf ts _ x Hn Hin) as (i & Hi & E).
    apply (inj pretty) in E. lia.
  - by apply NoDup_fmap_2; [apply _|].
  - by apply laid_all_deps.
Qed.

Lemma in_streams sid :
  sid = prove_stream S \/ sid = join_stream S \/ sid = snark_stream S \/ sid = union_stream S
  \/ sid = aux_stream S \/ sid = coproc_stream S -> sid ∈ stream_list.
Proof using Type. unfold stream_list. set_solver. Qed.

Lemma NoDup_pair (a b : nat) : a <> b -> NoDup [a; b].
Proof using Type.
  intros Hne. apply NoDup_cons. split; [|apply NoDup_singleton].
  by intros ?%list_elem_of_singleton.
Qed.

(** The number of assumptions that the resolving task is given time for. *)
Lemma assumption_count (kc : nat) :
  Z.of_nat (length (ex_assumptions request)) + 1 < 2 ^ 31 -> (kc <= 1)%nat ->
  wadd 64 (Z.of_nat (length (ex_assumptions request))) (Z.of_nat kc)
  = Z.of_nat (length (ex_assumptions request) + kc)
  /\ (Z.of_nat (length (ex_assumptions request) + kc) <? 2 ^ 31) = true.
Proof using Type.
  intros Hl Hk. rewrite Nat2Z.inj_add. split; [apply wadd_small; unfold fits; lia|].
  apply Z.ltb_lt. lia.
Qed.

Section Task.
Context (leaf : nat -> TaskType) (pre all : list Planner.Task) (u : Planner.Task).
Context (leaf_stream : string) (segment_index : option nat) (keccak_req : option KeccakReq).
Hypothesis Hnum : numbered pre.
Hypothesis Hn : task_number u = length pre.
Hypothesis Hshape : shaped all u.
Hypothesis Hdeps : Forall (fun d => (d < length pre)%nat) (children u).

(** [process_task] of a leaf or an inner task. *)
Lemma plan_task_inner w :
  planned j stream_list (laid_all leaf pre) (redis w) -> command u <> Finalize ->
  (command u = Segment -> leaf_stream = prove_stream S
     /\ exists i, segment_index = Some i /\ leaf (length pre) = TtProve i) ->
  (command u = Keccak -> leaf_stream = coproc_stream S
     /\ exists q, keccak_req = Some q /\ leaf (length pre) = TtKeccak q) ->
  exists w', plan_task args S j request leaf_stream segment_index keccak_req u w = (Ok tt, w')
    /\ planned j stream_list (laid_all leaf (pre ++ [u])) (redis w').
Proof using Hnum Hn Hshape Hdeps.
  intros Hp Hf Hseg Hkec. unfold plan_task, process_task, shaped in *.
  rewrite laid_all_snoc. unfold laid. rewrite Hn.
  destruct (command u).
  - destruct (Hkec eq_refl) as (-> & q & -> & ->).
    apply (add_numbered leaf pre (coproc_stream S) (TtKeccak q) _ []); [done|done|apply in_streams; tauto|apply NoDup_nil_2|done].
  - done.
  - destruct Hshape as (l & r & Hd & Hk & Hlr & _). unfold children in Hdeps.
    rewrite Hd, Hk in *. simpl.
    apply (add_numbered leaf pre (join_stream S) (TtJoin (length pre) l r) _ [l; r]); [done|done|apply in_streams; tauto|apply NoDup_pair, Hlr|done].
  - destruct (Hseg eq_refl) as (-> & q & -> & ->).
    apply (add_numbered leaf pre (prove_stream S) (TtProve q) _ []); [done|done|apply in_streams; tauto|apply NoDup_nil_2|done].
  - destruct Hshape as (l & r & Hd & Hk & Hlr & _). unfold children in Hdeps.
    rewrite Hd, Hk in *. simpl.
    apply (add_numbered leaf pre (union_stream S) (TtUnion (length pre) l r) _ [l; r]); [done|done|apply in_streams; tauto|apply NoDup_pair, Hlr|done].
Qed.

Lemma finalize_deps :
  command u = Finalize ->
  exists root, depends_on u = [root] /\ (length (keccak_depends_on u) <= 1)%nat
  /\ NoDup (children u)
  /\ (pretty root :: match keccak_depends_on u !! 0%nat with
                     | Some k => [pretty k]
                     | None => []
                     end) = pretty <$> children u
  /\ (if bool_decide (keccak_depends_on u = []) then 0 else 1)
     = Z.of_nat (length (keccak_depends_on u)).
Proof using Hshape.
  clear Hn Hnum Hdeps. intros Hc. unfold shaped in Hshape. rewrite Hc in Hshape.
  destruct Hshape as (root & Hd & (v & Hv & Hvc) & [Hk|(k & Hk & v' & Hv' & Hvc')]);
    exists root; unfold children; rewrite Hd, Hk; split_and!; try done; try (simpl; lia).
  - apply NoDup_singleton.
  - apply NoDup_pair. intros ->. rewrite Hv in Hv'. injection Hv' as <-.
    destruct Hvc, Hvc'; congruence.
Qed.

(** The finalizing task stands for those that resolve, finalize and compress. *)
Lemma plan_task_finalize w :
  planned j stream_list (laid_all leaf pre) (redis w) -> command u = Finalize ->
  Z.of_nat (length (ex_assumptions request)) + 1 < 2 ^ 31 ->
  exists w', plan_task args S j request leaf_stream segment_index keccak_req u w = (Ok tt, w')
    /\ planned j stream_list (laid_all leaf (pre ++ [u])) (redis w').
Proof using Hnum Hshape Hdeps.
  intros Hp Hc Hlen. destruct (finalize_deps Hc) as (root & Hd & Hk1 & Hnd & Hps & Hkc).
  unfold plan_task, process_task. rewrite laid_all_snoc. unfold laid. rewrite Hc. cbv zeta.
  rewrite Hkc. destruct (assumption_count _ Hlen Hk1) as [-> ->].
  rewrite Hd. unfold index at 1. simpl lookup. unfold unwrap, liftr, mbind, ste_bind.
  cbn iota beta. rewrite Hps. cbn [nth].
  pose proof (fun c s => laid_all_fresh leaf pre c s) as Hfresh.
  match goal with |- context [add_task j "resolve" ?sid ?task ?vc ?ps ?mr ?to ?cc _] =>
    destruct (add_task_makes stream_list (laid_all leaf pre) "resolve" sid task vc ps mr to cc w)
      as (w1 & E1 & Hp1); [done|apply in_streams; tauto|done|by intros x; apply Hfresh
      |by apply NoDup_fmap_2; [apply _|]|by apply laid_all_deps|] end.
  rewrite E1. set (l1 := laid_all leaf pre ++ _) in *.
  match goal with |- context [add_task j "finalize" ?sid ?task ?vc ?ps ?mr ?to ?cc _] =>
    destruct (add_task_makes stream_list l1 "finalize" sid task vc ps mr to cc w1)
      as (w2 & E2 & Hp2); [done|apply in_streams; tauto|done| |apply NoDup_singleton| |] end.
  { intros x [Hin|[=]%list_elem_of_singleton]%elem_of_app. by apply (Hfresh _ _ x Hnum) in Hin. }
  { intros p ->%list_elem_of_singleton. split; [done|]. eexists. apply elem_of_app. right.
    by apply list_elem_of_singleton. }
  rewrite E2. set (l2 := l1 ++ _) in *.
  assert (Happ : forall x y zs, l2 = (laid_all leaf pre ++ [x]) ++ [y] ->
    laid_all leaf pre ++ x :: y :: zs = l2 ++ zs) by (intros x y zs ->; by rewrite <- !app_assoc).
  rewrite (Happ _ _ _ eq_refl). destruct (decide (compress request = NoCompression)) as [Ec|Ec].
  - rewrite bool_decide_eq_false_2 by tauto. rewrite Ec, app_nil_r. by exists w2.
  - rewrite bool_decide_eq_true_2 by done.
    match goal with |- context [add_task j "snark" ?sid ?task ?vc ?ps ?mr ?to ?cc _] =>
      destruct (add_task_makes stream_list l2 "snark" sid task vc ps mr to cc w2)
        as (w3 & E3 & Hp3); [done|apply in_streams; tauto|done| |apply NoDup_singleton| |] end.
    { subst l1 l2. intros x [[Hin|[=]%list_elem_of_singleton]%elem_of_app|[=]%list_elem_of_singleton]%elem_of_app.
      by apply (Hfresh _ _ x Hnum) in Hin. }
    { intros p ->%list_elem_of_singleton. split; [done|]. eexists. apply elem_of_app. right.
      by apply list_elem_of_singleton. }
    exists w3. split; [done|]. by destruct (compress request).
Qed.
End Task.

(** ** Handing out *)

Definition drained (p : Planner.Planner) : Planner.Planner :=
  mkPlanner (Planner.tasks p) (peaks p) (keccak_peaks p) (length (Planner.tasks p)) (last_task p).

(** The fuel of [drain_all] is enough: every task that is left is processed, in order. *)
Lemma drain_runs (P : nat -> X -> Prop) process p w :
  (forall i u w, Planner.tasks p !! i = Some u -> (consumer_position p <= i)%nat -> P i w ->
     exists w', process u w = (Ok tt, w') /\ P (Datatypes.S i) w') ->
  (consumer_position p <= length (Planner.tasks p))%nat -> P (consumer_position p) w ->
  exists w', drain_all process p w = (Ok (drained p), w') /\ P (length (Planner.tasks p)) w'.
Proof using Type.
  unfold drain_all. intros Hstep Hle HP.
  remember (length (Planner.tasks p) - consumer_position p)%nat as fuel eqn:Ef.
  revert p w Hstep Hle HP Ef. induction fuel as [|fuel IH]; intros p w Hstep Hle HP Ef; simpl;
    unfold next_task.
  - assert (consumer_position p = length (Planner.tasks p)) as E by lia.
    rewrite lookup_ge_None_2 by lia. exists w. rewrite <- E. split; [|done].
    unfold drained. rewrite <- E. by destruct p.
  - destruct (lookup_lt_is_Some_2 (Planner.tasks p) (consumer_position p)) as [u Hu]; [lia|].
    rewrite Hu. destruct (Hstep _ _ _ Hu ltac:(lia) HP) as (w1 & E1 & HP1).
    unfold mbind, ste_bind. rewrite E1.
    destruct (IH (mkPlanner (Planner.tasks p) (peaks p) (keccak_peaks p)
                    (Datatypes.S (consumer_position p)) (last_task p)) w1) as (w2 & E2 & HP2);
      simpl; [|lia|done|lia|].
    + intros i v w' Hi Hc. apply Hstep; [done|lia].
    + exists w2. by rewrite E2.
Qed.

(** What is planned after some of the events. *)
Record laying (leaf : nat -> TaskType) (segs : list nat) (kecs : list KeccakReq)
    (p : Planner.Planner) (w : X) : Prop := {
  ly_inv : planner_inv p;
  ly_open : planning p;
  ly_shape : plan_shape p;
  ly_pos : consumer_position p = length (Planner.tasks p);
  ly_numbered : numbered (Planner.tasks p);
  ly_segs : leaf <$> numbers Segment (Planner.tasks p) = TtProve <$> segs;
  ly_kecs : leaf <$> numbers Keccak (Planner.tasks p) = TtKeccak <$> kecs;
  ly_db : planned j stream_list (laid_all leaf (Planner.tasks p)) (redis w)
}.

(** The work of a new leaf. *)
Definition with_leaf (n : nat) (t : TaskType) (leaf : nat -> TaskType) (i : nat) : TaskType :=
  if Nat.eqb i n then t else leaf i.

Lemma with_leaf_old n t leaf c (ts : list Planner.Task) :
  tasks_ok ts -> (length ts <= n)%nat -> with_leaf n t leaf <$> numbers c ts = leaf <$> numbers c ts.
Proof using Type.
  intros Hok Hn. apply list_fmap_ext. intros i x Hx%list_elem_of_lookup_2. unfold with_leaf.
  unfold numbers in Hx. apply list_elem_of_fmap in Hx as (u & -> & Hu).
  apply list_elem_of_filter in Hu as [_ [k Hk]%list_elem_of_lookup_1].
  destruct (Hok k u Hk) as [E _]. apply lookup_lt_Some in Hk.
  by rewrite (proj2 (Nat.eqb_neq _ _)) by lia.
Qed.

Lemma laid_with_leaf n t leaf (ts : list Planner.Task) :
  numbered ts -> (length ts <= n)%nat -> laid_all (with_leaf n t leaf) ts = laid_all leaf ts.
Proof using Type.
  intros Hnum Hn. apply laid_all_ext. intros u [k Hk]%list_elem_of_lookup_1. unfold with_leaf.
  destruct (Hnum k u Hk) as [E _]. apply lookup_lt_Some in Hk.
  by rewrite (proj2 (Nat.eqb_neq _ _)) by lia.
Qed.

Lemma numbered_app (ts us : list Planner.Task) :
  numbered ts -> tasks_ok (ts ++ us) -> Forall (fun u => command u <> Finalize) us -> numbered (ts ++ us).
Proof using Type.
  intros Hn Hok Hf i u Hu. split; [by apply (Hok i u)|].
  apply lookup_app_Some in Hu as [Hu|[_ Hu]]; [by apply (Hn i)|].
  rewrite Forall_lookup in Hf. by eapply Hf.
Qed.

Lemma numbered_take (ts : list Planner.Task) i : numbered ts -> numbered (take i ts).
Proof using Type. intros Hn k u [Hu _]%lookup_take_Some. by apply (Hn k). Qed.

Lemma deps_before (ts : list Planner.Task) i u :
  tasks_ok ts -> ts !! i = Some u ->
  task_number u = length (take i ts) /\ Forall (fun d => (d < length (take i ts))%nat) (children u).
Proof using Type.
  intros Hok Hu. destruct (Hok i u Hu) as [E Hd]. rewrite length_take_le; [split; [done|]|].
  - eapply Forall_impl; [done|]. by intros d [? _].
  - apply lookup_lt_Some in Hu. lia.
Qed.

(** Handing out what an event, or the end, has added to the plan. *)
Lemma drain_lays leaf p news process w :
  planner_inv p -> all_shaped (Planner.tasks p) ->
  (exists old, Planner.tasks p = old ++ news /\ length old = consumer_position p
     /\ planned j stream_list (laid_all leaf old) (redis w)) ->
  (forall i u w', Planner.tasks p !! i = Some u -> u ∈ news ->
     let pre := take i (Planner.tasks p) in
     task_number u = length pre -> Forall (fun d => (d < length pre)%nat) (children u) ->
     planned j stream_list (laid_all leaf pre) (redis w') ->
     exists w'', process u w' = (Ok tt, w'')
       /\ planned j stream_list (laid_all leaf (pre ++ [u])) (redis w'')) ->
  exists w', drain_all process p w = (Ok (drained p), w')
    /\ planned j stream_list (laid_all leaf (Planner.tasks p)) (redis w').
Proof using Type.
  intros Hinv Hsh (old & E & El & Hp) Hstep.
  destruct (drain_runs (fun i w => planned j stream_list (laid_all leaf (take i (Planner.tasks p)))
    (redis w)) process p w) as (w' & E' & Hp').
  - intros i u w1 Hu Hi Hp1. rewrite (take_S_r _ _ u) by done.
    destruct (deps_before _ _ _ (inv_tasks _ Hinv) Hu). apply (Hstep i u w1); try done.
    rewrite E in Hu. rewrite lookup_app_r in Hu by lia. by eapply list_elem_of_lookup_2.
  - apply Hinv.
  - by rewrite E, <- El, take_app_length.
  - exists w'. split; [done|]. by rewrite firstn_all in Hp'.
Qed.

Lemma drained_inv p : planner_inv p -> planner_inv (drained p).
Proof using Type.
  intros [A1 A2 A3]. split; [done|done|]. destruct A3 as [[]|[f []]]; [left|right; exists f]; by split.
Qed.

Lemma drained_planning p : planning p -> planning (drained p).
Proof using Type. intros []. by split. Qed.

Lemma drained_shape p : plan_shape p -> plan_shape (drained p).
Proof using Type. intros []. by split. Qed.

Lemma Forall_new c (x : Planner.Task) l y :
  Forall (fun u => command u = c) l -> y ∈ x :: l -> y = x \/ command y = c.
Proof using Type. intros Hf [->|Hin]%elem_of_cons; [by left|right]. rewrite Forall_forall in Hf. by apply Hf. Qed.

(** An event: the task of its leaf, and the inner tasks it completes. *)
Lemma on_segment_lays leaf segs kecs p w n :
  laying leaf segs kecs p w ->
  exists p' w' leaf', on_segment args S j request n p w = (Ok p', w')
    /\ laying leaf' (segs ++ [n]) kecs p' w'.
Proof using Type.
  intros [Hinv Hop Hsh Hpos Hnum Hs Hk Hdb].
  destruct (enqueue_segment_ok p Hinv (pl_open _ Hop)) as (p' & E & Hinv' & Hop' & Hns & Hnk).
  destruct (enqueue_segment_shape p _ p' Hsh E) as (Hsh' & _ & Hc' & us & Et & Hus).
  set (i0 := length (Planner.tasks p)) in *. set (leaf' := with_leaf i0 (TtProve n) leaf).
  assert (Hnum' : numbered (Planner.tasks p')).
  { rewrite Et. apply numbered_app; [done|rewrite <- Et; apply Hinv'|]. constructor; [done|].
    eapply Forall_impl; [done|]. intros u. simpl. congruence. }
  destruct (drain_lays leaf' p' (new_segment i0 :: us)
    (fun tree_task => plan_task args S j request (prove_stream S)
       (if bool_decide (command tree_task = Segment) then Some n else None) None tree_task) w)
    as (w' & Ed & Hdb'); [done|apply Hsh'| | |].
  - exists (Planner.tasks p). split_and!; [done|by rewrite Hc', Hpos|].
    unfold leaf'. by rewrite laid_with_leaf.
  - intros i u w1 Hu Hin pre Hn Hd Hp.
    assert (Hlt : (i < length (Planner.tasks p'))%nat) by by eapply lookup_lt_Some.
    apply (plan_task_inner leaf' pre (Planner.tasks p') u); try done.
    + by apply numbered_take.
    + by eapply (ps_shaped _ Hsh').
    + destruct (Forall_new _ _ _ _ Hus Hin) as [->|Hc]; [done|congruence].
    + intros Hc. split; [done|]. exists n. rewrite bool_decide_eq_true_2 by done. split; [done|].
      destruct (Forall_new _ _ _ _ Hus Hin) as [->|Hc1]; [|congruence].
      unfold leaf', with_leaf. rewrite <- Hn. simpl. by rewrite Nat.eqb_refl.
    + intros Hc. destruct (Forall_new _ _ _ _ Hus Hin) as [->|Hc1]; [done|congruence].
  - exists (drained p'), w', leaf'. unfold on_segment. rewrite E. split; [exact Ed|].
    split; simpl; try done.
    + by apply drained_inv. + by apply drained_planning. + by apply drained_shape.
    + rewrite Hns, !fmap_app. unfold leaf' at 1. rewrite with_leaf_old by (done || apply Hinv).
      rewrite Hs. simpl. unfold leaf', with_leaf. by rewrite Nat.eqb_refl.
    + rewrite Hnk. unfold leaf'. by rewrite with_leaf_old by (done || apply Hinv).
Qed.

Lemma on_keccak_lays leaf segs kecs p w q data :
  laying leaf segs kecs p w ->
  exists p' w' leaf', on_keccak args S j request q data p w = (Ok p', w')
    /\ laying leaf' segs (kecs ++ [q]) p' w'.
Proof using Type.
  intros [Hinv Hop Hsh Hpos Hnum Hs Hk Hdb].
  destruct (enqueue_keccak_ok p Hinv (pl_open _ Hop)) as (p' & E & Hinv' & Hop' & Hnk & Hns).
  destruct (enqueue_keccak_shape p _ p' Hsh E) as (Hsh' & _ & Hc' & us & Et & Hus).
  set (i0 := length (Planner.tasks p)) in *. set (leaf' := with_leaf i0 (TtKeccak q) leaf).
  assert (Hnum' : numbered (Planner.tasks p')).
  { rewrite Et. apply numbered_app; [done|rewrite <- Et; apply Hinv'|]. constructor; [done|].
    eapply Forall_impl; [done|]. intros u. simpl. congruence. }
  destruct (drain_lays leaf' p' (new_keccak i0 :: us)
   (fun tree_task : Planner.Task =>
     _ ← (if bool_decide (command tree_task = Keccak) then
            set ← lift (hot_set (coproc_key j (task_number tree_task) (kr_claim_digest q)) data);
            match set with inr _ => mret tt | inl _ => throw "BENTO-EXEC-031"%string end
          else mret tt);
     plan_task args S j request (coproc_stream S) None (Some q) tree_task) w)
    as (w' & Ed & Hdb'); [done|apply Hsh'| | |].
  - exists (Planner.tasks p). split_and!; [done|by rewrite Hc', Hpos|].
    unfold leaf'. by rewrite laid_with_leaf.
  - intros i u w1 Hu Hin pre Hn Hd Hp.
    assert (Hlt : (i < length (Planner.tasks p'))%nat) by by eapply lookup_lt_Some.
    assert (exists w2, planned j stream_list (laid_all leaf' pre) (redis w2)
      /\ (if bool_decide (command u = Keccak) then
           set ← lift (hot_set (coproc_key j (task_number u) (kr_claim_digest q)) data);
           match set with inr _ => mret tt | inl _ => throw "BENTO-EXEC-031"%string end
         else mret tt : ste X string unit) w1 = (Ok tt, w2)) as (w2 & Hp2 & E2).
    { destruct (bool_decide _); [|by exists w1].
      destruct (hot_set_planned stream_list (laid_all leaf' pre)
        (coproc_key j (task_number u) (kr_claim_digest q)) data w1 Hp) as (w2 & E2 & Hp2).
      exists w2. split; [done|]. unfold mbind, ste_bind, lift. by rewrite E2. }
    unfold mbind at 1, ste_bind at 1. rewrite E2.
    apply (plan_task_inner leaf' pre (Planner.tasks p') u); try done.
    + by apply numbered_take.
    + by eapply (ps_shaped _ Hsh').
    + destruct (Forall_new _ _ _ _ Hus Hin) as [->|Hc]; [done|congruence].
    + intros Hc. destruct (Forall_new _ _ _ _ Hus Hin) as [->|Hc1]; [done|congruence].
    + intros Hc. split; [done|]. exists q. split; [done|].
      destruct (Forall_new _ _ _ _ Hus Hin) as [->|Hc1]; [|congruence].
      unfold leaf', with_leaf. rewrite <- Hn. simpl. by rewrite Nat.eqb_refl.
  - exists (drained p'), w', leaf'. unfold on_keccak. rewrite E. split; [exact Ed|].
    split; simpl; try done.
    + by apply drained_inv. + by apply drained_planning. + by apply drained_shape.
    + rewrite Hns. unfold leaf'. by rewrite with_leaf_old by (done || apply Hinv).
    + rewrite Hnk, !fmap_app. unfold leaf' at 1. rewrite with_leaf_old by (done || apply Hinv).
      rewrite Hk. simpl. unfold leaf', with_leaf. by rewrite Nat.eqb_refl.
Qed.

Definition segments_of (events : list SenderType) : list nat :=
  omap (fun e => match e with SendSegment i => Some i | _ => None end) events.

Definition keccaks_of (events : list SenderType) : list KeccakReq :=
  omap (fun e => match e with SendKeccak q _ => Some q | _ => None end) events.

Lemma plan_events_lays leaf segs kecs p w events :
  laying leaf segs kecs p w -> execute_only request = false -> SendFault ∉ events ->
  exists p' w' leaf', plan_events args S j request events p w = (Ok (p', false), w')
    /\ laying leaf' (segs ++ segments_of events) (kecs ++ keccaks_of events) p' w'.
Proof using Type.
  intros Hl He. revert leaf segs kecs p w Hl.
  induction events as [|e events IH]; intros leaf segs kecs p w Hl Hf; simpl.
  - exists p, w, leaf. by rewrite !app_nil_r.
  - rewrite He. apply not_elem_of_cons in Hf as [Hne Hf]. unfold mbind, ste_bind.
    destruct e as [n|q data|]; [| |done].
    + destruct (on_segment_lays leaf segs kecs p w n Hl) as (p1 & w1 & leaf1 & -> & Hl1).
      destruct (IH leaf1 _ _ p1 w1 Hl1 Hf) as (p2 & w2 & leaf2 & E & Hl2).
      exists p2, w2, leaf2. split; [done|]. by rewrite <- app_assoc in Hl2.
    + destruct (on_keccak_lays leaf segs kecs p w q data Hl) as (p1 & w1 & leaf1 & -> & Hl1).
      destruct (IH leaf1 _ _ p1 w1 Hl1 Hf) as (p2 & w2 & leaf2 & E & Hl2).
      exists p2, w2, leaf2. split; [done|]. by rewrite <- app_assoc in Hl2.
Qed.

Lemma laying_start leaf w :
  planned j stream_list [] (redis w) -> laying leaf [] [] planner_default w.
Proof using Type.
  intros Hp. split; try done; [apply planner_default_inv| |apply plan_shape_default].
  split; [done|constructor..].
Qed.

(** The end: the rest of the trees, and the finalizing task. *)
Lemma finish_lays leaf segs kecs p w :
  laying leaf segs kecs p w -> segs <> [] ->
  Z.of_nat (length (ex_assumptions request)) + 1 < 2 ^ 31 ->
  exists f p' w', finish p = Ok (f, p')
    /\ drain_all (plan_task args S j request (prove_stream S) None None) p' w = (Ok (drained p'), w')
    /\ finished p' f /\ planned j stream_list (laid_all leaf (Planner.tasks p')) (redis w')
    /\ numbers Segment (Planner.tasks p') = numbers Segment (Planner.tasks p)
    /\ numbers Keccak (Planner.tasks p') = numbers Keccak (Planner.tasks p).
Proof using Type.
  intros [Hinv Hop Hsh Hpos Hnum Hs Hk Hdb] Hne Hlen.
  assert (peaks p <> []) as Hpk.
  { intros E%(planning_peaks p Hop). rewrite E in Hs. by destruct segs. }
  destruct (finish_open p Hinv Hop Hpk) as (p' & f & Ef & Hinv' & Hfin & Hns & Hnk).
  destruct (finish_shape p f p' Hsh (pl_open _ Hop) Ef) as (Hsh' & Hc' & us & u & Et & Hu & Hus).
  destruct (drain_lays leaf p' (us ++ [u]) (plan_task args S j request (prove_stream S) None None) w)
    as (w' & Ed & Hdb'); [done|done|by exists (Planner.tasks p); split_and!; [|rewrite Hc', Hpos|]| |].
  - intros i v w1 Hv Hin pre Hn Hd Hp.
    assert (Hpre : numbered pre).
    { unfold pre. rewrite Et, app_assoc.
      assert (numbered (Planner.tasks p ++ us)) as Hnu.
      { apply numbered_app; [done| |eapply Forall_impl; [done|]; simpl; intros x [-> | ->]; done].
        intros k x Hx. pose proof (inv_tasks _ Hinv' k x) as Ho.
        rewrite Et, app_assoc in Ho. specialize (Ho (lookup_app_l_Some _ _ _ _ Hx)).
        destruct Ho as [H2 H3]. split; [done|]. apply lookup_lt_Some in Hx as Hlt.
        rewrite Forall_forall in H3. rewrite Forall_forall. intros d Hdd.
        destruct (H3 d Hdd) as (Hdk & y & Hy & Hh). split; [done|]. exists y.
        rewrite lookup_app_l in Hy by lia. done. }
      rewrite take_app. destruct (i - length (Planner.tasks p ++ us))%nat as [|k] eqn:Ei;
        [rewrite app_nil_r; by apply numbered_take|].
      exfalso. apply lookup_lt_Some in Hv. rewrite Et, !length_app in Hv. simpl in Hv.
      rewrite length_app in Ei. lia. }
    destruct (decide (command v = Finalize)) as [Hcv|Hcv].
    + apply (plan_task_finalize leaf pre (Planner.tasks p') v); try done. by eapply Hsh'.
    + assert (command v = Union \/ command v = Join) as Hvv.
      { apply elem_of_app in Hin as [Hin|Hin%list_elem_of_singleton]; [|congruence].
        rewrite Forall_forall in Hus. by apply Hus. }
      apply (plan_task_inner leaf pre (Planner.tasks p') v); try done; [by eapply Hsh'|..];
        intros E; destruct Hvv; congruence.
  - by exists f, p', w'.
Qed.

(** C3. The executor lays out exactly its plan.  A job whose first task runs and that has
    no other tasks gets, for the segments and keccak requests of a run that does not
    fault, one task for each task of a finished plan of the planner: the proofs of all
    segments and keccak requests in the order in which they came, the joins and unions
    with the tasks they wait for, the resolving, the finalizing and, when it is asked
    for, the compressing task, each with its stream, retries and timeout, and no other;
    and no call of the executor fails.  This is for a database that answers every call
    ([Connected]), and for others that between the calls may make any admissible calls
    except those that make or delete the job or one of its tasks, or finish its first
    task ([others]).  In particular it excludes a client that clears the finished jobs
    after a task of this job has failed while the first one still runs: that deletes the
    job, and the next task is refused ([create_after_delete]). *)
Theorem executor_plans_job events w :
  ready_job j stream_list (redis w) ->
  (forall tid, tid <> "init"%string -> tasks (redis w) !! (j, tid) = None) ->
  execute_only request = false -> SendFault ∉ events -> segments_of events <> [] ->
  Z.of_nat (length (ex_assumptions request)) + 1 < 2 ^ 31 ->
  exists p f leaf w', plan_tasks args S j request events w = (Ok false, w')
    /\ finished p f
    /\ leaf <$> numbers Segment (Planner.tasks p) = TtProve <$> segments_of events
    /\ leaf <$> numbers Keccak (Planner.tasks p) = TtKeccak <$> keccaks_of events
    /\ db_reachable (redis w')
    /\ forall tid x, tid <> "init"%string ->
         laid_of <$> tasks (redis w') !! (j, tid) = Some x <-> (tid, x) ∈ laid_all leaf (Planner.tasks p).
Proof using Type.
  intros Hr Hnone He Hf Hne Hlen.
  assert (planned j stream_list [] (redis w)) as Hp0.
  { split; [done|]. intros tid x Hi. rewrite (Hnone tid Hi). simpl.
    split; [done|by intros ?%elem_of_nil]. }
  destruct (plan_events_lays (fun _ => TtFinalize) [] [] planner_default w events
    (laying_start _ w Hp0) He Hf) as (p & w1 & leaf & E & Hl).
  destruct (finish_lays leaf _ _ p w1 Hl Hne Hlen)
    as (f & p' & w2 & Ef & Ed & Hfin & [Hr2 Hp2] & Hns & Hnk).
  exists p', f, leaf, w2. unfold plan_tasks, mbind, ste_bind. rewrite E, He. simpl. rewrite Ef. simpl.
  rewrite Ed. split; [done|]. split; [done|]. rewrite Hns, Hnk. destruct Hl. by destruct Hr2.
Qed.

(** A run that faults ends without the tasks that would make its proof: nothing is
    resolved, finalized or compressed. *)
Lemma executor_fault_stops events rest w :
  ready_job j stream_list (redis w) ->
  (forall tid, tid <> "init"%string -> tasks (redis w) !! (j, tid) = None) ->
  execute_only request = false -> SendFault ∉ events ->
  exists w', plan_tasks args S j request (events ++ SendFault :: rest) w = (Ok true, w')
    /\ db_reachable (redis w')
    /\ forall tid, tid ∈ ["resolve"; "finalize"; "snark"]%string -> tasks (redis w') !! (j, tid) = None.
Proof using Type.
  intros Hr Hnone He Hf.
  assert (planned j stream_list [] (redis w)) as Hp0.
  { split; [done|]. intros tid x Hi. rewrite (Hnone tid Hi). simpl.
    split; [done|by intros ?%elem_of_nil]. }
  destruct (plan_events_lays (fun _ => TtFinalize) [] [] planner_default w events
    (laying_start _ w Hp0) He Hf) as (p & w1 & leaf & E & Hl).
  assert (Happ : forall q v, plan_events args S j request (events ++ SendFault :: rest) q v
    = match plan_events args S j request events q v with
      | (Ok (q', false), v') => (Ok (q', true), v')
      | o => o
      end).
  { clear -He Hf. induction events as [|e events IH]; intros q v; simpl.
    - by rewrite He.
    - rewrite He. apply not_elem_of_cons in Hf as [Hne Hf]. specialize (IH Hf).
      unfold mbind, ste_bind. destruct e as [n|kq data|]; [| |done].
      + destruct (on_segment args S j request n q v) as [[q1|e|] v1]; [apply IH|done..].
      + destruct (on_keccak args S j request kq data q v) as [[q1|e|] v1]; [apply IH|done..]. }
  exists w1. unfold plan_tasks, mbind, ste_bind. rewrite Happ, E, He. simpl. split; [done|].
  destruct (ly_db _ _ _ _ _ Hl) as [Hr1 Hp1]. split; [by destruct Hr1|].
  intros tid Htid. destruct (tasks (redis w1) !! (j, tid)) as [t|] eqn:Et; [|done]. exfalso.
  assert (tid <> "init"%string /\ forall x, (tid, x) ∉ laid_all leaf (Planner.tasks p)) as [Hi Hn].
  { repeat (apply elem_of_cons in Htid as [->|Htid];
      [split; [done|intros x; apply laid_all_fresh; [apply Hl|done]]|]).
    by apply elem_of_nil in Htid. }
  apply (Hn (laid_of t)), (Hp1 tid _ Hi). by rewrite Et.
Qed.
End Job.
End Executor.

(** ** A database with workers *)

(** Before each call of the executor a worker asks for a task. *)
Record World := mkWorld { w_redis : Redis; w_requests : list (string * Z); w_now : Z }.

Definition before_call (w : World) : Redis :=
  match w_requests w with
  | (worker_type, now) :: _ => run_call (RequestWork worker_type now) (w_redis w)
  | [] => w_redis w
  end.

#[export] Instance world_db : TaskDbEnv World := {|
  fcall := fun A f w =>
    let (a, r) := f (before_call w) in (inr a, mkWorld r (tail (w_requests w)) (w_now w));
  now_seconds := fun w => (w_now w, mkWorld (w_redis w) (w_requests w) (w_now w + 1));
  new_v4 := fun w => ("id"%string, w);
  parse_uuid := Some;
  valid_json := fun _ => true
|}.

Definition world_value (t : TaskType) : string :=
  (match t with
   | TtExecutor _ => "executor"
   | TtProve i => "prove " ++ pretty i
   | TtJoin i l r => "join " ++ pretty i ++ " " ++ pretty l ++ " " ++ pretty r
   | TtResolve m _ => "resolve " ++ pretty m
   | TtFinalize => "finalize"
   | TtSnark receipt _ => "snark " ++ receipt
   | TtKeccak q => "keccak " ++ kr_claim_digest q
   | TtUnion i l r => "union " ++ pretty i ++ " " ++ pretty l ++ " " ++ pretty r
   end)%string.

#[export] Instance world_executor : ExecutorEnv World := {|
  task_to_value := fun t => Some (world_value t);
  env_is_set := fun _ => false;
  hot_set := fun _ _ w => (inr tt, w)
|}.

#[export] Program Instance world_connected j : Connected World j := {|
  redis_of := w_redis;
  value_of := world_value
|}.
Next Obligation.
  intros j A f w. exists (before_call w), (mkWorld (f (before_call w)).2 (tail (w_requests w)) (w_now w)).
  split; [|split].
  - unfold before_call. destruct (w_requests w) as [|[ty now] l]; [constructor|].
    by eapply (others_call _ (RequestWork ty now)); [..|constructor].
  - simpl. by destruct (f (before_call w)).
  - simpl. constructor.
Qed.
Next Obligation. intros j w. constructor. Qed.
Next Obligation. intros j key data w. exists w. split; [done|constructor]. Qed.
Next Obligation. done. Qed.

Definition demo_args : Args := mkArgs 100 3 60 3 60 3 60 3 60 3 60.
Definition demo_streams : Streams :=
  mkStreams "stream" "stream" "stream" "stream" "stream" "stream".
Definition demo_request : ExecutorReq := mkExecutorReq "image" "input" "user" [] false Groth16 None.
Definition demo_keccak : KeccakReq := mkKeccakReq "digest" 17 "root".
Definition demo_events : list SenderType :=
  [SendSegment 0; SendSegment 1; SendKeccak demo_keccak [1; 2]; SendSegment 2].

(** A worker takes the first task before the first call, and the proof of the first
    segment before the third. *)
Definition demo_world : World :=
  mkWorld job_started.2 [("exec"%string, 200); ("none"%string, 201); ("exec"%string, 202)] 300.

Lemma demo_ready : ready_job "job" (stream_list demo_streams) (w_redis demo_world).
Proof.
  split.
  - eexists. apply job_started_reached.
  - by eexists; vm_compute.
  - eexists. split; [by vm_compute|]. done.
  - intros s Hs. assert (s = "stream"%string) as -> by (unfold stream_list in Hs; set_solver).
    by eexists; vm_compute.
Qed.

Lemma executor_plans_job_witness :
  (let r := w_redis (plan_tasks demo_args demo_streams "job" demo_request demo_events demo_world).2 in
   (t_state <$> tasks r !! ("job", "0") = Some TsRunning)
   /\ (t_prerequisites <$> tasks r !! ("job", "resolve") = Some ["5"; "3"])
   /\ (t_prerequisites <$> tasks r !! ("job", "snark") = Some ["finalize"]))%string
  /\ exists p f leaf w',
    plan_tasks demo_args demo_streams "job" demo_request demo_events demo_world = (Ok false, w')
    /\ finished p f
    /\ leaf <$> numbers Segment (Planner.tasks p) = TtProve <$> segments_of demo_events
    /\ leaf <$> numbers Keccak (Planner.tasks p) = TtKeccak <$> keccaks_of demo_events
    /\ db_reachable (w_redis w')
    /\ forall tid x, tid <> "init"%string ->
         laid_of <$> tasks (w_redis w') !! ("job"%string, tid) = Some x
         <-> (tid, x) ∈ laid_all (X := World) (j := "job") demo_args demo_streams demo_request leaf
                          (Planner.tasks p).
Proof.
  split; [split_and!; by vm_compute|].
  apply (executor_plans_job (H1 := world_connected "job") demo_args demo_streams demo_request
           demo_events demo_world demo_ready).
  - intros tid Hne.
    assert (exists t, map_to_list (tasks (w_redis demo_world)) = [(("job", "init")%string, t)])
      as [t E] by (eexists; vm_compute; reflexivity).
    change (tasks (w_redis demo_world) !! ("job"%string, tid) = None).
    destruct (tasks (w_redis demo_world) !! ("job"%string, tid)) as [t'|] eqn:Et; [|done].
    apply elem_of_map_to_list in Et. rewrite E in Et.
    apply list_elem_of_singleton in Et. congruence.
  - done.
  - unfold demo_events. set_solver.
  - done.
  - done.
Defined.

(** Without assumptions and keccak requests the resolving task has no time at all: as
    soon as a worker has it, it is one of those whose time is over. *)
Lemma resolve_expires_at_once :
  let w := (plan_tasks demo_args demo_streams "job" demo_request [SendSegment 0]
              (mkWorld job_started.2 [] 300)).2 in
  let r := foldl (fun r c => run_call c r) (w_redis w)
             [UpdateDone "job" "init" "out" 400; UpdateDone "job" "0" "out" 500;
              RequestWork "exec" 600]%string in
  task_state r ("job", "resolve")%string = Some TsRunning
  /\ expired_running 100 600 r = [("job", "resolve")%string].
Proof. by vm_compute. Qed.
