(* ===== verification/AgentTurn.v ===== *)
(** * A turn of an agent

    [Workflow.poll_turn] over [TaskDb]: when nobody else touches the database between
    its calls, the task that an agent has claimed does not stay with it; and when it
    has claimed none, there is none for it. *)

From S2P Require Import Prelude TaskDb TaskDbFacts TaskDbCalls Workflow WorkflowFacts.
From Stdlib Require Import QArith.QArith.

Local Open Scope Z_scope.

(** ** What a report does to a task that runs *)

Lemma tasks_adjust_task k o n r : tasks (adjust_task_state_count_for_task k o n r) = tasks r.
Proof. unfold adjust_task_state_count_for_task. destruct (tasks r !! k); [by rewrite adjust_meta_frame|done]. Qed.

Lemma jobs_adjust_task k o n r : jobs (adjust_task_state_count_for_task k o n r) = jobs r.
Proof. unfold adjust_task_state_count_for_task. destruct (tasks r !! k); [by rewrite adjust_meta_frame|done]. Qed.


Lemma tasks_enqueue k r : tasks (enqueue_task k r) = tasks r.
Proof. unfold enqueue_task. by repeat case_match. Qed.

Lemma tasks_alter k f r : tasks (alter_task k f r) = alter f k (tasks r).
Proof. done. Qed.

Lemma resolve_keeps_done j now r tid k t :
  tasks r !! k = Some t -> t_state t = TsDone ->
  tasks (resolve_dependent j now r tid) !! k = Some t.
Proof.
  intros Hk Hd. unfold resolve_dependent. destruct (decide ((j, tid) = k)) as [->|Hne].
  - rewrite Hk, Hd, bool_decide_eq_false_2, bool_decide_eq_true_2 by done. done.
  - destruct (tasks r !! (j, tid)) as [t1|]; [|done]. destruct (_ || _); [done|].
    cbv zeta. destruct (_ <=? 0); rewrite ?tasks_enqueue, ?tasks_adjust_task, !tasks_alter;
      by rewrite !lookup_alter_ne.
Qed.

Lemma resolve_all_keeps_done j now l r k t :
  tasks r !! k = Some t -> t_state t = TsDone ->
  tasks (foldl (resolve_dependent j now) r l) !! k = Some t.
Proof.
  intros Hk Hd. revert r Hk. induction l as [|x l IH]; intros r Hk; simpl; [done|].
  by apply IH, resolve_keeps_done.
Qed.

Lemma tasks_leave j r : tasks (leave_running j r) = tasks r.
Proof. unfold leave_running. by case_match. Qed.

Lemma jobs_leave j r : jobs (leave_running j r) = jobs r.
Proof. unfold leave_running. by case_match. Qed.

Lemma done_running j tid out now r t :
  tasks r !! (j, tid) = Some t -> t_state t = TsRunning ->
  let r' := update_task_done j tid out now r in
  r'.1 = true /\ exists t', tasks r'.2 !! (j, tid) = Some t' /\ t_state t' = TsDone
    /\ t_output t' = out.
Proof.
  intros Hk Hs. unfold update_task_done. rewrite Hk, Hs, orb_true_r. cbv zeta. cbn [fst snd negb].
  rewrite (bool_decide_eq_false_2 (TsRunning = TsReady)) by done.
  split; [done|].
  set (t' := set_updated now (set_progress 1%Q (set_output out (set_state TsDone t)))).
  exists t'. split; [|done].
  set (r4 := foldl _ _ _). assert (tasks r4 !! (j, tid) = Some t') as H4.
  { apply resolve_all_keeps_done; [|done]. cbn [tasks with_running].
    by rewrite tasks_adjust_task, tasks_alter, lookup_alter_eq, Hk. }
  clearbody r4. destruct (all_done j r4); [|done]. rewrite tasks_leave. done.
Qed.

Lemma cancel_keeps j tid now r x t :
  tasks r !! (j, tid) = Some t ->
  tasks (cancel_sibling j tid now r x) !! (j, tid) = Some t
  /\ jobs (cancel_sibling j tid now r x) = jobs r.
Proof.
  intros Hk. unfold cancel_sibling. case_bool_decide as E; [done|].
  destruct (tasks r !! (j, x)) as [t1|]; [|done]. destruct (_ || _); [|done]. cbv zeta.
  rewrite tasks_adjust_task, jobs_adjust_task, tasks_alter, lookup_alter_ne by congruence.
  unfold remove_task_from_ready. destruct (bool_decide (t_state t1 = TsReady)); [|done].
  by destruct (tasks r !! (j, x)).
Qed.

Lemma cancel_all_keeps j tid now l r t :
  tasks r !! (j, tid) = Some t ->
  tasks (foldl (cancel_sibling j tid now) r l) !! (j, tid) = Some t
  /\ jobs (foldl (cancel_sibling j tid now) r l) = jobs r.
Proof.
  revert r. induction l as [|x l IH]; intros r Hk; simpl; [done|].
  destruct (cancel_keeps j tid now r x t Hk) as [H1 H2]. destruct (IH _ H1) as [H3 H4].
  by rewrite H4.
Qed.

(** The job of a task that has failed has failed. *)
Definition failed_with (j tid err : string) (r : Redis) : Prop :=
  exists t', tasks r !! (j, tid) = Some t' /\ t_state t' = TsFailed /\ t_error t' = err
  /\ job_state r j = Some JobFailed.

Lemma failed_running j tid err now r t :
  tasks r !! (j, tid) = Some t -> t_state t = TsRunning ->
  let r' := update_task_failed j tid err now r in
  r'.1 = true /\ failed_with j tid err r'.2.
Proof.
  intros Hk Hs. unfold update_task_failed. rewrite Hk, Hs. cbn [is_counted_task_state negb].
  cbv zeta. cbn [fst snd]. split; [done|]. rewrite bool_decide_eq_true_2 by done.
  set (r1 := leave_running j _). set (l := elements _). clearbody l.
  set (t' := set_updated now (set_progress 1%Q (set_error err (set_state TsFailed t)))).
  assert (tasks r1 !! (j, tid) = Some t' /\ job_state r1 j = Some JobFailed) as [H1 H2].
  { subst r1. rewrite tasks_leave. unfold job_state. rewrite jobs_leave. simpl.
    rewrite tasks_adjust_task. simpl. rewrite lookup_alter_eq, Hk, lookup_insert_eq. done. }
  destruct (cancel_all_keeps j tid now l r1 t' H1) as [H3 H4].
  exists t'. split_and!; [done..|]. unfold job_state. by rewrite H4.
Qed.

Lemma retry_running j tid now r t :
  tasks r !! (j, tid) = Some t -> t_state t = TsRunning ->
  let r' := update_task_retry j tid now r in
  if t_max_retries t <? t_retries t + 1
  then r'.1 = false /\ failed_with j tid "retry max hit" r'.2
  else r'.1 = true /\ exists t', tasks r'.2 !! (j, tid) = Some t' /\ t_state t' = TsReady
    /\ t_retries t' = t_retries t + 1.
Proof.
  intros Hk Hs. unfold update_task_retry. rewrite Hk, Hs, bool_decide_eq_true_2 by done.
  cbn [negb]. cbv zeta. destruct (_ <? _); cbn [fst snd]; (split; [done|]).
  - unfold failed_with, job_state. rewrite tasks_leave, jobs_leave. simpl.
    rewrite tasks_adjust_task. simpl. rewrite !lookup_alter_eq, Hk, lookup_insert_eq. simpl.
    by eexists.
  - rewrite tasks_enqueue, tasks_adjust_task. simpl. rewrite !lookup_alter_eq, Hk. simpl.
    by eexists.
Qed.

(** ** An agent that is alone *)

(** A database that is always reached, and that only the agent calls; the work of a task
    may call it too, but leaves the task itself to the agent, and does not panic. *)
Class Alone (X : Type) `{TaskDbEnv X} `{Workers X} := {
  db_of : X -> Redis;
  alone_fcall : forall A (f : Redis -> A * Redis) w, exists w',
    fcall f w = (inr (f (db_of w)).1, w') /\ db_of w' = (f (db_of w)).2;
  alone_clock : forall w, db_of (now_seconds w).2 = db_of w;
  alone_delete : forall key w, db_of (hot_delete key w).2 = db_of w;
  alone_work : forall j tid def w o w', run_task j tid def w = (o, w') ->
    o <> Panic /\ tasks (db_of w') !! (j, tid) = tasks (db_of w) !! (j, tid);
  alone_ids : forall s, parse_uuid s = Some s;
  alone_json : forall s, valid_json s = true
}.

Section Turn.
Context {X : Type} `{Alone X} (turns : list WaitTurn).

#[local] Instance queue_of_db : WorkQueue X := direct_queue turns.

(** A call, and the state after it. *)
Lemma run_fcall_alone {A} (f : Redis -> A * Redis) w :
  exists w', run_fcall f w = (Ok (f (db_of w)).1, w') /\ db_of w' = (f (db_of w)).2.
Proof using Type.
  destruct (alone_fcall _ f w) as (w' & E & Ew). exists w'. split; [|done].
  unfold run_fcall, lift, mbind, ste_bind. by rewrite E.
Qed.

Lemma run_now_alone {A} (f : Z -> Redis -> A * Redis) w :
  exists now w', (now ← lift now_seconds; run_fcall (f now)) w = (Ok (f now (db_of w)).1, w')
    /\ db_of w' = (f now (db_of w)).2.
Proof using Type.
  pose proof (alone_clock w) as Hc. destruct (now_seconds w) as [now w1] eqn:En. simpl in Hc.
  destruct (run_fcall_alone (f now) w1) as (w' & E & Ew). exists now, w'. rewrite <- Hc.
  split; [|done]. transitivity (run_fcall (f now) w1); [|done].
  unfold mbind at 1, ste_bind at 1, lift. by rewrite En.
Qed.

Definition running_claim (rt : ReadyTask) (r : Redis) : Prop :=
  exists t, tasks r !! (rt_job_id rt, rt_task_id rt) = Some t /\ t_state t = TsRunning
    /\ t_max_retries t = rt_max_retries rt.

Lemma request_alone s w :
  db_reachable (db_of w) ->
  exists o w', db_request_work s w = (Ok o, w') /\ db_reachable (db_of w')
    /\ match o with Some rt => running_claim rt (db_of w') | None => True end.
Proof using Type.
  intros Hr. unfold db_request_work, mbind, ste_bind, lift. pose proof (alone_clock w) as Hc.
  destruct (now_seconds w) as [now w1]. simpl in Hc. rewrite <- Hc in Hr.
  destruct (run_fcall_alone (request_work s now) w1) as (w2 & -> & Ew).
  pose proof (db_reachable_call _ (RequestWork s now) Hr I) as Hr2. cbn [run_call] in Hr2.
  destruct Hr as [cl [HI _]%reach_inv]. pose proof (request_work_facts s now _ HI) as Hf.
  destruct (request_work s now (db_of w1)) as [[rt|] r2]; cbn [fst snd] in *.
  - unfold parse_id. rewrite alone_ids, alone_json. cbn [ok_or].
    eexists _, w2. split; [done|]. rewrite Ew. split; [done|].
    destruct Hf as (_ & _ & ps1 & p & ps2 & _ & (k & t & (Hk & _) & -> & _ & [Hk' _]) & _).
    destruct k as [j tid]. unfold running_claim. simpl in *. by eexists.
  - exists None, w2. by rewrite Ew.
Qed.

(** The wait ends: the deadline passes, or a wait is over without a notification. *)
Definition ends (turns : list WaitTurn) : Prop :=
  Exists (fun t => t = DeadlinePassed \/ t = WaitEnded false) turns.

Lemma wait_alone ts s w :
  ends ts -> db_reachable (db_of w) ->
  exists o w', wait_for_work ts s w = (Ok o, w') /\ db_reachable (db_of w')
    /\ match o with Some rt => running_claim rt (db_of w') | None => True end.
Proof using Type.
  intros He. revert w. induction ts as [|t ts IH]; intros w Hr; [by inversion He|].
  destruct t as [|n]; simpl; [by exists None, w|]. unfold mbind, ste_bind.
  destruct (request_alone s w Hr) as (o & w1 & -> & Hr1 & Ho). destruct o as [rt|]; [by exists (Some rt), w1|].
  destruct n; [|by exists None, w1]. apply IH; [|done].
  inversion He as [? ? [|]|]; subst; done.
Qed.

Lemma claim_alone s poll w :
  ends turns -> db_reachable (db_of w) ->
  exists o w', wq_claim s poll w = (Ok o, w') /\ db_reachable (db_of w')
    /\ match o with Some rt => running_claim rt (db_of w') | None => True end.
Proof using Type.
  intros He Hr. simpl. unfold with_err, db_request_work_blocking, mbind, ste_bind.
  destruct (request_alone s w Hr) as (o & w1 & -> & Hr1 & Ho).
  destruct o as [rt|]; [by exists (Some rt), w1|]. destruct (poll =? 0); [by exists None, w1|].
  destruct (wait_alone turns s w1 He Hr1) as (o & w2 & -> & Ho2). by exists o, w2.
Qed.

Lemma delete_keys_alone keys w :
  exists w', delete_keys keys w = (Ok tt, w') /\ db_of w' = db_of w.
Proof using Type.
  revert w. induction keys as [|key keys IH]; intros w; simpl; [by exists w|].
  unfold mbind, ste_bind, lift. pose proof (alone_delete key w) as Hd.
  destruct (hot_delete key w) as [o w1]. destruct (IH w1) as (w' & -> & E).
  exists w'. split; [done|]. simpl in Hd. congruence.
Qed.

(** What the work of a claimed task comes to. *)
Definition worked (rt : ReadyTask) (w : X) : result string (string * list string) :=
  match task_from_value (rt_task_def rt) with
  | Some task_type => (run_task (rt_job_id rt) (rt_task_id rt) task_type w).1
  | None => Err "Invalid task_def"%string
  end.

(** Where that leaves the task: done, to be tried again, or failed with its job. *)
Definition settled_as (rt : ReadyTask) (t : Task) (o : result string (string * list string))
    (r : Redis) : Prop :=
  exists t', tasks r !! (rt_job_id rt, rt_task_id rt) = Some t' /\
  match o with
  | Ok (out, _) => t_state t' = TsDone /\ t_output t' = out
  | Err _ =>
      if (0 <? t_max_retries t) && (t_retries t + 1 <=? t_max_retries t)
      then t_state t' = TsReady /\ t_retries t' = t_retries t + 1
      else t_state t' = TsFailed /\ job_state r (rt_job_id rt) = Some JobFailed
  | Panic => False
  end.

Lemma report_failed rt t err w :
  tasks (db_of w) !! (rt_job_id rt, rt_task_id rt) = Some t -> t_state t = TsRunning ->
  exists w', (_ ← wq_failed (rt_job_id rt) (rt_task_id rt) err; mret tt) w = (Ok tt, w')
    /\ failed_with (rt_job_id rt) (rt_task_id rt) err (db_of w').
Proof using Type.
  intros Hk Hs. destruct (run_now_alone (update_task_failed (rt_job_id rt) (rt_task_id rt) err) w)
    as (now & w' & E & Ew).
  destruct (failed_running _ _ err now _ _ Hk Hs) as [_ Hf]. exists w'. rewrite Ew. split; [|done].
  cbn [wq_failed queue_of_db direct_queue]. unfold with_err, db_update_task_failed.
  unfold mbind at 1, ste_bind at 1. by rewrite E.
Qed.

Lemma report_retry rt t w :
  tasks (db_of w) !! (rt_job_id rt, rt_task_id rt) = Some t -> t_state t = TsRunning ->
  t_retries t + 1 <= t_max_retries t ->
  exists w' t', (_ ← wq_retry (rt_job_id rt) (rt_task_id rt); mret tt) w = (Ok tt, w')
    /\ tasks (db_of w') !! (rt_job_id rt, rt_task_id rt) = Some t' /\ t_state t' = TsReady
    /\ t_retries t' = t_retries t + 1.
Proof using Type.
  intros Hk Hs Hle. destruct (run_now_alone (update_task_retry (rt_job_id rt) (rt_task_id rt)) w)
    as (now & w' & E & Ew).
  pose proof (retry_running _ _ now _ _ Hk Hs) as Hr. cbv zeta in Hr.
  rewrite (proj2 (Z.ltb_ge _ _)) in Hr by lia. destruct Hr as (_ & t' & Ht' & Hs' & Hr').
  exists w', t'. rewrite Ew. split; [|done].
  cbn [wq_retry queue_of_db direct_queue]. unfold with_err, db_update_task_retry.
  unfold mbind at 1, ste_bind at 1. by rewrite E.
Qed.

Lemma report_retries rt t w :
  tasks (db_of w) !! (rt_job_id rt, rt_task_id rt) = Some t -> t_state t = TsRunning ->
  exists w', wq_retries_running (rt_job_id rt) (rt_task_id rt) w = (Ok (Some (t_retries t)), w')
    /\ db_of w' = db_of w.
Proof using Type.
  intros Hk Hs. cbn [wq_retries_running queue_of_db direct_queue].
  unfold with_err, get_task_retries_running, read_state, read.
  destruct (run_fcall_alone (fun r => (task_state r (rt_job_id rt, rt_task_id rt), r)) w) as (w1 & E1 & Q1).
  destruct (run_fcall_alone (fun r => (t_retries <$> tasks r !! (rt_job_id rt, rt_task_id rt), r)) w1)
    as (w2 & E2 & Q2).
  exists w2. simpl in *. unfold task_state in *. rewrite Hk in E1. rewrite Q1, Hk in E2.
  rewrite Q2, Q1. split; [|done].
  unfold mbind, ste_bind. rewrite E1. cbn [fmap option_fmap option_map]. rewrite Hs, bool_decide_eq_true_2 by done.
  rewrite E2. done.
Qed.

(** The answer to a failure, when its message can be cut. *)
Lemma handle_error_alone rt t err w :
  tasks (db_of w) !! (rt_job_id rt, rt_task_id rt) = Some t -> t_state t = TsRunning ->
  t_max_retries t = rt_max_retries rt -> truncate 1024 err <> Panic ->
  exists w', handle_error rt err w = (Ok tt, w') /\ settled_as rt t (Err err) (db_of w').
Proof using Type.
  intros Hk Hs Hm Ht. unfold handle_error, settled_as. rewrite <- Hm.
  assert (exists cut, truncate 1024 err = Ok cut) as [cut Ec].
  { unfold truncate in *. destruct (String.get 1024 err); [|by eexists].
    destruct (continuation a); [done|by eexists]. }
  assert (Hfail : forall e v, db_of v = db_of w ->
    exists w', (_ ← wq_failed (rt_job_id rt) (rt_task_id rt) e; mret tt) v = (Ok tt, w')
      /\ exists t', tasks (db_of w') !! (rt_job_id rt, rt_task_id rt) = Some t'
         /\ t_state t' = TsFailed /\ job_state (db_of w') (rt_job_id rt) = Some JobFailed).
  { intros e v Ev. rewrite <- Ev in Hk. destruct (report_failed rt t e v Hk Hs) as (w' & E & t' & Hf).
    exists w'. split; [done|]. exists t'. naive_solver. }
  destruct (Z.ltb_spec 0 (t_max_retries t)); cbn [andb].
  - destruct (report_retries rt t w Hk Hs) as (w1 & E1 & Q1).
    unfold mbind at 1, ste_bind at 1. rewrite E1.
    destruct (Z.ltb_spec (t_max_retries t) (t_retries t + 1)).
    + rewrite (proj2 (Z.leb_gt _ _)) by lia. rewrite Ec. by apply Hfail.
    + rewrite (proj2 (Z.leb_le _ _)) by lia. rewrite <- Q1 in Hk.
      destruct (report_retry rt t w1 Hk Hs) as (w2 & t' & E2 & Ht'); [lia|].
      exists w2. split; [done|]. by exists t'.
  - rewrite Ec. by apply Hfail.
Qed.

(** C20. A claimed task does not stay with the agent.  A turn of an agent that is alone
    with a database in a reached state either claims nothing and does nothing, or it
    claims a task and ends with that task done, with the output of its work; or, when
    the work failed, ready again with one more retry on its count, as long as it has
    retries, and failed, with its job, after that.  The one exception is a turn that
    panics, because the text of the failure is cut at 1024 bytes inside a character. *)
Theorem poll_turn_settles s poll w :
  ends turns -> db_reachable (db_of w) ->
  exists o w1, wq_claim s poll w = (Ok o, w1) /\
  match o with
  | None => poll_turn s poll w = (Ok tt, w1)
  | Some rt =>
      exists t, tasks (db_of w1) !! (rt_job_id rt, rt_task_id rt) = Some t /\ t_state t = TsRunning
      /\ t_max_retries t = rt_max_retries rt
      /\ ((exists w', poll_turn s poll w = (Ok tt, w')
            /\ settled_as rt t (worked rt w1) (db_of w'))
          \/ (exists err w', worked rt w1 = Err err /\ truncate 1024 err = Panic
                /\ poll_turn s poll w = (Panic, w')))
  end.
Proof using Type.
  intros He Hr. destruct (claim_alone s poll w He Hr) as (o & w1 & E & _ & Ho).
  exists o, w1. split; [done|].
  assert (Ep : poll_turn s poll w = match o with
    | None => (Ok tt, w1)
    | Some rt => (processed ← catch (process_work rt);
        match processed with inr _ => mret tt | inl err => handle_error rt err end) w1
    end) by (unfold poll_turn; unfold mbind at 1, ste_bind at 1; rewrite E; by destruct o).
  rewrite Ep. clear Ep. destruct o as [rt|]; [|done]. destruct Ho as (t & Hk & Hs & Hm). exists t. split_and!; [done..|].
  (* a failure of the work, in a state that still has the task *)
  assert (Hfail : forall err v, worked rt w1 = Err err ->
    tasks (db_of v) !! (rt_job_id rt, rt_task_id rt) = Some t ->
    (exists w', handle_error rt err v = (Ok tt, w') /\ settled_as rt t (worked rt w1) (db_of w'))
    \/ (exists err' w', worked rt w1 = Err err' /\ truncate 1024 err' = Panic
          /\ handle_error rt err v = (Panic, w'))).
  { intros err v Ew Hv. destruct (truncate 1024 err) as [cut|e|] eqn:Et; [left|left|].
    - rewrite Ew. apply handle_error_alone; [done..|]. by rewrite Et.
    - rewrite Ew. apply handle_error_alone; [done..|]. by rewrite Et.
    - destruct (decide (rt_max_retries rt <= 0 \/ t_max_retries t < t_retries t + 1)) as [Hd|Hd].
      + right. exists err. unfold handle_error. rewrite <- Hm in *.
        destruct (Z.ltb_spec 0 (t_max_retries t)).
        * destruct (report_retries rt t v Hv Hs) as (v1 & E1 & _). exists v1.
          unfold mbind at 1, ste_bind at 1. rewrite E1, (proj2 (Z.ltb_lt _ _)) by lia.
          rewrite Et. done.
        * exists v. rewrite Et. done.
      + left. unfold handle_error, settled_as. rewrite Ew, <- Hm in *.
        destruct (report_retries rt t v Hv Hs) as (v1 & E1 & Q1).
        rewrite (proj2 (Z.ltb_lt _ _)) by lia. unfold mbind at 1, ste_bind at 1.
        rewrite E1, (proj2 (Z.ltb_ge _ _)) by lia. rewrite <- Q1 in Hv.
        destruct (report_retry rt t v1 Hv Hs) as (v2 & t' & E2 & Ht'); [lia|].
        exists v2. split; [done|]. exists t'. rewrite (proj2 (Z.leb_le _ _)) by lia. naive_solver. }
  unfold process_work, catch. unfold mbind, ste_bind. unfold worked in *.
  destruct (task_from_value (rt_task_def rt)) as [tt0|] eqn:Ed; cbn [ok_or liftr] in *.
  - destruct (run_task (rt_job_id rt) (rt_task_id rt) tt0 w1) as [res w2] eqn:Er.
    destruct (alone_work _ _ _ _ _ _ Er) as [Hnp Hk2]. rewrite Hk in Hk2.
    destruct res as [[out keys]|err|]; [|by apply Hfail|done].
    left. destruct (run_now_alone (update_task_done (rt_job_id rt) (rt_task_id rt) out) w2)
      as (now & w3 & E3 & Ew3).
    cbn [wq_done queue_of_db direct_queue]. unfold with_err, db_update_task_done. rewrite E3.
    destruct (delete_keys_alone keys w3) as (w4 & E4 & Ew4).
    exists w4. unfold map_err. rewrite E4. split; [done|].
    destruct (done_running _ _ out now _ _ Hk2 Hs) as (_ & t' & Ht' & Hs' & Ho').
    exists t'. rewrite Ew4, Ew3. done.
  - by apply Hfail.
Qed.
End Turn.

(** ** An agent on a job *)

(** The database itself as the world, a clock that stands still, and workers whose
    proofs fail and whose other work succeeds. *)
#[local] Instance redis_env : TaskDbEnv Redis := {|
  fcall := fun A f r => let (a, r') := f r in (inr a, r');
  now_seconds := fun r => (500, r);
  new_v4 := fun r => ("id"%string, r);
  parse_uuid := Some;
  valid_json := fun _ => true
|}.

#[local] Instance failing_workers : Workers Redis := {|
  task_from_value := fun def => if bool_decide (def = "prove"%string) then Some (TtProve 0) else Some TtFinalize;
  povw_enabled := false;
  json_unit := "null"%string;
  op_executor := fun _ _ => mret "out"%string;
  op_prove := fun _ _ _ => throw "out of memory"%string;
  op_join := fun _ _ _ _ => mret [];
  op_join_povw := fun _ _ _ _ => mret [];
  op_resolve := fun _ _ _ => mret ("out"%string, []);
  op_resolve_povw := fun _ _ _ => mret ("out"%string, []);
  op_finalize := fun _ => mret ["key"%string];
  op_snark := fun _ _ _ => mret "out"%string;
  op_keccak := fun _ _ _ => mret [];
  op_union := fun _ _ _ _ => mret [];
  hot_delete := fun _ r => (inr tt, r)
|}.

Lemma redis_fcall A (f : Redis -> A * Redis) (r : Redis) :
  exists r', fcall f r = (inr (f r).1, r') /\ r' = (f r).2.
Proof. exists (f r).2. simpl. by destruct (f r). Qed.

Lemma redis_work j tid def (r : Redis) o r' :
  run_task j tid def r = (o, r') -> o <> Panic /\ tasks r' !! (j, tid) = tasks r !! (j, tid).
Proof.
  destruct def; simpl; unfold with_unit, mbind, ste_bind, throw, mret, ste_ret;
    intros [= <- <-]; done.
Qed.

#[local] Instance redis_alone : Alone Redis := {|
  db_of := fun r => r;
  alone_fcall := redis_fcall;
  alone_clock := fun _ => eq_refl;
  alone_delete := fun _ _ => eq_refl;
  alone_work := redis_work;
  alone_ids := fun _ => eq_refl;
  alone_json := fun _ => eq_refl
|}.

Lemma poll_turn_settles_witness :
  task_state job_planned.2 ("job", "a")%string = Some TsReady
  /\ task_state (poll_turn (H := direct_queue [DeadlinePassed]) "exec" 1 job_planned.2).2
       ("job", "a")%string = Some TsReady
  /\ exists o r1, wq_claim (WorkQueue := direct_queue [DeadlinePassed]) "exec" 1 job_planned.2 = (Ok o, r1) /\
     match o with
     | None => poll_turn (H := direct_queue [DeadlinePassed]) "exec" 1 job_planned.2 = (Ok tt, r1)
     | Some rt =>
         exists t, tasks r1 !! (rt_job_id rt, rt_task_id rt) = Some t /\ t_state t = TsRunning
         /\ t_max_retries t = rt_max_retries rt
         /\ ((exists r', poll_turn (H := direct_queue [DeadlinePassed]) "exec" 1 job_planned.2 = (Ok tt, r')
               /\ settled_as rt t (worked rt r1) r')
             \/ (exists err r', worked rt r1 = Err err /\ truncate 1024 err = Panic
                   /\ poll_turn (H := direct_queue [DeadlinePassed]) "exec" 1 job_planned.2 = (Panic, r')))
     end.
Proof.
  split; [by vm_compute|]. split; [by vm_compute|].
  apply (poll_turn_settles (H1 := redis_alone) [DeadlinePassed] "exec" 1 job_planned.2).
  - constructor. by left.
  - eexists. apply job_planned_reached.
Defined.

(** *** A message that cannot be cut *)

(** [String::truncate] at 1024 bytes panics inside a character: here the second byte of
    a character of two. *)
Definition long_message : string :=
  String.concat "" (repeat "x"%string 1023)
  ++ String (Ascii.ascii_of_nat 195) (String (Ascii.ascii_of_nat 169) "").

Lemma truncate_panics : truncate 1024 long_message = Panic.
Proof. by vm_compute. Qed.
