(* ===== verification/Slasher.v ===== *)
(** * The slasher: burning the collateral of provers that miss a deadline

    [crates/slasher]: the database of locked requests ([db.rs]) and the service that
    follows the market in ranges of blocks, stores the requests that are locked, forgets
    those that are fulfilled in time or slashed, and slashes those that expire
    ([lib.rs]).  Slashing itself is [MarketService.slash].

    A run has a state [SlState]: the state of the market service, the two tables, and the
    log lines that say which orders are added and removed, why, and which blocks are
    done. *)

From S2P Require Import Prelude Market Monitor MarketService.

Local Open Scope Z_scope.

(** ** Data *)

Inductive SlasherDbError :=
| SqlErr (e : string)
| MigrateErr (e : string)
| BadBlockNumb (s : string)
| SetBlockFail.

Inductive ServiceError :=
| DatabaseError (e : SlasherDbError)
| BoundlessMarketError (e : MarketError)
| RpcError (e : string)
| EventQueryError (e : string)
| TransactionDecodingError (e : string)
| BlockNumberNotFound
| BlockTimestampNotFound (block : Z)
| InsufficientFunds (e : string)
| MaxRetries
| RequestNotExpired
| SvcSlashRevert (request_id tx_hash : Z).

(** [SlashServiceConfig], without the timeouts and thresholds that go to the provider. *)
Record SlashServiceConfig := mkSlashConfig {
  sl_retries : Z;
  skip_addresses : list Z;
  max_block_range : Z;
  block_confirmation_delay : Z
}.

(** A log of [RequestFulfilled], with what is known of its block. *)
Record FulfilledLog := mkFulfilledLog {
  fl_requestId : Z;
  fl_block_number : option Z;
  fl_block_timestamp : option Z
}.

(** The node, as the slasher asks it: heads, timestamps and the logs of a range of
    blocks; the failures of the database and the order in which it scans; the text of an
    error of the market. *)
Class SlasherNode (W : Type) := {
  head_number : st W (string + Z);
  safe_block : st W (string + option Z);
  timestamp_of : Z -> st W (string + option Z);
  locked_logs : Z -> Z -> st W (string + list RequestLocked);
  slashed_logs : Z -> Z -> st W (string + list Z);
  fulfilled_logs : Z -> Z -> st W (string + list FulfilledLog);
  sql_fails : st W (option string);
  scan : list Z -> list Z;
  market_error_text : MarketError -> string
}.

(** A scan gives every row once. *)
Class ScanLaws (W : Type) `{SlasherNode W} := {
  scan_perm : forall l, scan l ≡ₚ l
}.

(** Why an order is removed. *)
Inductive Removal :=
| FulfilledInTime (timestamp lock_expires_at : Z)
| SlashedEvent
| SlashSucceeded
| AlreadySlashed
| RevertedButSlashed (tx_hash : Z)
| SettledError (message : string)
| NotLocked (message : string).

Inductive SlEvent :=
| OrderAdded (request_id expires_at lock_expires_at : Z)
| OrderRemoved (request_id : Z) (why : Removal)
| BlocksProcessed (to : Z).

Record SlState (W : Type) := mkSl {
  sl_ms : MsState W;
  sl_orders : gmap Z (Z * Z);
  sl_last_block : option Z;
  sl_log : list SlEvent
}.
Arguments mkSl {W} _ _ _ _.
Arguments sl_ms {W} _.
Arguments sl_orders {W} _.
Arguments sl_last_block {W} _.
Arguments sl_log {W} _.

(** [x as i64] and [x as u64]. *)
Definition to_i64 (x : Z) : Z := if x mod 2 ^ 64 <? 2 ^ 63 then x mod 2 ^ 64 else x mod 2 ^ 64 - 2 ^ 64.
Definition to_u64 (x : Z) : Z := x mod 2 ^ 64.

Section Slasher.
Context `{Externals} `{ServiceAbi} {W : Type} `{MarketNode W} `{SlasherNode W}.
Variables (boundless_market : ServiceSettings) (config : SlashServiceConfig).

Abbreviation sm A := (ste (SlState W) ServiceError A).

(** A call of the node, and of the market service. *)
Definition at_node {A} (m : st W A) : sm A := fun s =>
  let (a, w) := m (ms_world (sl_ms s)) in
  (Ok a, mkSl (mkMs w (ms_chain_id (sl_ms s)) (ms_txs (sl_ms s))) (sl_orders s) (sl_last_block s)
           (sl_log s)).

Definition at_market {A} (m : ste (MsState W) MarketError A) : sm (MarketError + A) := fun s =>
  let (r, ms) := m (sl_ms s) in
  (match r with Ok a => Ok (inr a) | Err e => Ok (inl e) | Panic => Panic end,
   mkSl ms (sl_orders s) (sl_last_block s) (sl_log s)).

Definition or_throw {A} (f : string -> ServiceError) (r : string + A) : sm A :=
  match r with inr a => mret a | inl e => throw (f e) end.

(** ** The database *)

Definition change_orders (f : gmap Z (Z * Z) -> gmap Z (Z * Z)) : sm unit := fun s =>
  (Ok tt, mkSl (sl_ms s) (f (sl_orders s)) (sl_last_block s) (sl_log s)).

Definition set_last_block (block : Z) : sm unit := fun s =>
  (Ok tt, mkSl (sl_ms s) (sl_orders s) (Some block) (sl_log s)).

Definition note (e : SlEvent) : sm unit := fun s =>
  (Ok tt, mkSl (sl_ms s) (sl_orders s) (sl_last_block s) (sl_log s ++ [e])).

Definition read_orders : sm (gmap Z (Z * Z)) := fun s => (Ok (sl_orders s), s).
Definition read_last : sm (option Z) := fun s => (Ok (sl_last_block s), s).

(** A statement that fails changes nothing. *)
Definition statement : sm unit :=
  failed ← at_node sql_fails;
  match failed with Some e => throw (DatabaseError (SqlErr e)) | None => mret tt end.

(** Only an order with expirations is stored, and a row that is there is kept. *)
Definition db_add_order (id expires_at lock_expires_at : Z) : sm unit :=
  if (0 <? expires_at) && (0 <? lock_expires_at) then
    _ ← statement;
    change_orders (fun orders =>
      match orders !! id with
      | Some _ => orders
      | None => <[id := (to_i64 expires_at, to_i64 lock_expires_at)]> orders
      end)
  else mret tt.

Definition db_get_order (id : Z) : sm (option (Z * Z)) :=
  _ ← statement;
  orders ← read_orders;
  mret ((fun row => (to_u64 row.1, to_u64 row.2)) <$> orders !! id).

Definition db_remove_order (id : Z) : sm unit :=
  _ ← statement; change_orders (delete id).

(** [order_exists], of which only the tests make use. *)
Definition db_order_exists (id : Z) : sm bool :=
  _ ← statement;
  orders ← read_orders;
  mret (bool_decide (is_Some (orders !! id))).

Definition expired_ids (current_timestamp : Z) (orders : gmap Z (Z * Z)) : list Z :=
  (map_to_list (filter (fun row => row.2.1 < to_i64 current_timestamp) orders)).*1.

Definition db_get_expired_orders (current_timestamp : Z) : sm (list Z) :=
  _ ← statement;
  orders ← read_orders;
  mret (scan (expired_ids current_timestamp orders)).

Definition db_get_last_block : sm (option Z) :=
  _ ← statement; read_last.

Definition db_set_last_block (block_numb : Z) : sm unit :=
  _ ← statement; set_last_block block_numb.

(** ** The service *)

Definition update_last_processed_block (block_number : Z) : sm unit :=
  _ ← db_set_last_block block_number;
  note (BlocksProcessed block_number).

Definition add_order (request_id expires_at lock_expires_at : Z) : sm unit :=
  _ ← db_add_order request_id expires_at lock_expires_at;
  note (OrderAdded request_id expires_at lock_expires_at).

Definition remove_order (request_id : Z) (why : Removal) : sm unit :=
  _ ← db_remove_order request_id;
  note (OrderRemoved request_id why).

Definition block_timestamp (block_number : Z) : sm Z :=
  r ← at_node (timestamp_of block_number);
  block ← or_throw RpcError r;
  liftr (ok_or (BlockTimestampNotFound block_number) block).

Definition current_block : sm Z :=
  if block_confirmation_delay config =? 0 then
    r ← at_node head_number; or_throw RpcError r
  else
    safe ← at_node safe_block;
    match safe with
    | inr (Some number) => mret number
    | _ =>
        r ← at_node head_number;
        latest ← or_throw RpcError r;
        mret (sat_sub latest (block_confirmation_delay config))
    end.

Definition process_locked_event (event : RequestLocked) : sm unit :=
  if bool_decide (rl_prover event ∈ skip_addresses config) then mret tt else
  let request := rl_request event in
  add_order (rl_requestId event) (expires_at request)
    (wadd 64 (rampUpStart (offer request)) (lockTimeout (offer request))).

Fixpoint process_locked_loop (logs : list RequestLocked) : sm unit :=
  match logs with
  | [] => mret tt
  | event :: logs => _ ← process_locked_event event; process_locked_loop logs
  end.

Definition process_locked_events (from_block to_block : Z) : sm unit :=
  r ← at_node (locked_logs from_block to_block);
  logs ← or_throw EventQueryError r;
  process_locked_loop logs.

Fixpoint process_slashed_loop (logs : list Z) : sm unit :=
  match logs with
  | [] => mret tt
  | request_id :: logs => _ ← remove_order request_id SlashedEvent; process_slashed_loop logs
  end.

Definition process_slashed_events (from_block to_block : Z) : sm unit :=
  r ← at_node (slashed_logs from_block to_block);
  logs ← or_throw EventQueryError r;
  process_slashed_loop logs.

Definition fulfilled_at (log : FulfilledLog) : sm Z :=
  match fl_block_timestamp log with
  | Some current_ts => mret current_ts
  | None =>
      bn ← liftr (ok_or BlockNumberNotFound (fl_block_number log));
      block_timestamp bn
  end.

Definition process_fulfilled_event (log : FulfilledLog) : sm unit :=
  current_ts ← fulfilled_at log;
  order ← db_get_order (fl_requestId log);
  match order with
  | None => mret tt
  | Some (_, lock_expires_at) =>
      if current_ts <=? lock_expires_at
      then remove_order (fl_requestId log) (FulfilledInTime current_ts lock_expires_at)
      else mret tt
  end.

Fixpoint process_fulfilled_loop (logs : list FulfilledLog) : sm unit :=
  match logs with
  | [] => mret tt
  | log :: logs => _ ← process_fulfilled_event log; process_fulfilled_loop logs
  end.

Definition process_fulfilled_events (from_block to_block : Z) : sm unit :=
  r ← at_node (fulfilled_logs from_block to_block);
  logs ← or_throw EventQueryError r;
  process_fulfilled_loop logs.

(** Whether the request is slashed after all. *)
Definition slashed_after_all (request_id tx_hash : Z) : sm unit :=
  r ← at_market (is_slashed request_id);
  match r with
  | inl e => throw (BoundlessMarketError e)
  | inr true => remove_order request_id (RevertedButSlashed tx_hash)
  | inr false => throw (SvcSlashRevert request_id tx_hash)
  end.

(** The errors of [slash] that are told apart by their text. *)
Definition slash_failed (request_id : Z) (err : MarketError) : sm unit :=
  let err_msg := market_error_text err in
  if contains "RequestIsSlashed" err_msg || contains "RequestIsFulfilled" err_msg
  then remove_order request_id (SettledError err_msg)
  else if contains "RequestIsNotExpired" err_msg then throw RequestNotExpired
  else if contains "insufficient funds" err_msg || contains "gas required exceeds allowance" err_msg
  then throw (InsufficientFunds err_msg)
  else if contains "RequestIsNotLocked" err_msg
  then remove_order request_id (NotLocked err_msg)
  else if contains "already known" err_msg || contains "known transaction" err_msg
          || contains "already imported" err_msg
  then mret tt
  else if contains "nonce too low" err_msg then mret tt
  else throw (BoundlessMarketError err).

Definition slash_expired (request_id : Z) : sm unit :=
  r ← at_market (slash boundless_market request_id);
  match r with
  | inr _ => remove_order request_id SlashSucceeded
  | inl (RequestIsSlashed id) => remove_order id AlreadySlashed
  | inl (SlashRevert tx_hash) => slashed_after_all request_id tx_hash
  | inl (LogNotEmitted tx_hash _) => slashed_after_all request_id tx_hash
  | inl err => slash_failed request_id err
  end.

Fixpoint slash_loop (expired : list Z) : sm unit :=
  match expired with
  | [] => mret tt
  | request_id :: expired => _ ← slash_expired request_id; slash_loop expired
  end.

Definition process_expired_requests (current_block : Z) : sm unit :=
  timestamp ← block_timestamp current_block;
  expired ← db_get_expired_orders timestamp;
  slash_loop expired.

Definition process_blocks (from to : Z) : sm unit :=
  _ ← process_locked_events from to;
  _ ← process_fulfilled_events from to;
  _ ← process_slashed_events from to;
  _ ← process_expired_requests to;
  update_last_processed_block to.

(** *** The loop *)

Definition starting_from (ignore_last_processed_block : option bool)
    (starting_block last_processed_block : option Z) (current_block : Z) : Z :=
  match ignore_last_processed_block, starting_block, last_processed_block with
  | Some true, Some starting_block, _ => starting_block
  | _, _, Some last_processed_block => last_processed_block
  | _, Some starting_block, None => starting_block
  | _, None, None => current_block
  end.

Definition recoverable (e : ServiceError) : bool :=
  match e with
  | DatabaseError _ | InsufficientFunds _ | MaxRetries | TransactionDecodingError _
  | BlockNumberNotFound | RequestNotExpired => false
  | BoundlessMarketError _ | SvcSlashRevert _ _ | EventQueryError _ | RpcError _
  | BlockTimestampNotFound _ => true
  end.

Definition next_chunk (from_block to_block : Z) : Z :=
  Z.min (wsub 64 (wadd 64 from_block (max_block_range config)) 1) to_block.

(** The last check of a turn. *)
Definition check_attempts (from_block attempt : Z) : sm (Z * Z) :=
  if sl_retries config <? attempt then throw MaxRetries else mret (from_block, attempt).

(** A turn of the loop: the next block to process and the attempts so far. *)
Definition turn (from_block attempt : Z) : sm (Z * Z) :=
  head ← catch current_block;
  match head with
  | inr to_block =>
      if to_block <? from_block then mret (from_block, attempt) else
      let chunk_to := next_chunk from_block to_block in
      done ← catch (process_blocks from_block chunk_to);
      match done with
      | inr _ => check_attempts (wadd 64 chunk_to 1) 0
      | inl e =>
          if recoverable e then check_attempts from_block (wadd 32 attempt 1) else throw e
      end
  | inl _ => check_attempts from_block (wadd 32 attempt 1)
  end.

(** The loop, for a number of ticks of its interval. *)
Fixpoint slasher_loop (ticks : nat) (from_block attempt : Z) : sm (Z * Z) :=
  match ticks with
  | O => mret (from_block, attempt)
  | S ticks =>
      '(from_block, attempt) ← turn from_block attempt;
      slasher_loop ticks from_block attempt
  end.

Definition slasher_run (ticks : nat) (starting_block : option Z)
    (ignore_last_processed_block : option bool) : sm (Z * Z) :=
  current ← current_block;
  last_processed_block ← db_get_last_block;
  slasher_loop ticks
    (starting_from ignore_last_processed_block starting_block last_processed_block current) 0.
End Slasher.
