(* ===== verification/SlasherFacts.v ===== *)
(** * No lock is forgotten, and only expired requests are slashed

    Properties of [Slasher]: every lock that the service reads stays in its table until a
    removal that is justified by an event, a receipt, a view or an error of the market;
    the blocks are processed without gaps; a pass over the expired orders slashes
    exactly these. *)

From S2P Require Import Prelude Market Monitor MarketService Slasher.

Local Open Scope Z_scope.

Section Facts.
Context `{Externals} `{ServiceAbi} {W : Type} `{MarketNode W} `{SlasherNode W}.
Variables (boundless_market : ServiceSettings) (config : SlashServiceConfig).

Abbreviation sm A := (ste (SlState W) ServiceError A).
Abbreviation state := (SlState W).

Abbreviation txs_of s := (ms_txs (sl_ms (W := W) s)).

(** ** The history of a run

    The states that a run goes through, the latest first. *)

(** A step that leaves the table alone: a question to the node, the database or the
    market, the slash of a request, or the note of a block that is done. *)
Inductive asked : state -> state -> Prop :=
| asked_head s : asked s (at_node head_number s).2
| asked_safe s : asked s (at_node safe_block s).2
| asked_timestamp n s : asked s (at_node (timestamp_of n) s).2
| asked_locked from to s : asked s (at_node (locked_logs from to) s).2
| asked_slashed from to s : asked s (at_node (slashed_logs from to) s).2
| asked_fulfilled from to s : asked s (at_node (fulfilled_logs from to) s).2
| asked_sql s : asked s (at_node sql_fails s).2
| asked_view id s : asked s (at_market (is_slashed id) s).2
| asked_slash id s : asked s (at_market (slash boundless_market id) s).2
| asked_done n s : asked s (set_last_block n s).2
| asked_note n s : asked s (note (BlocksProcessed n) s).2.

(** The row of an order in the table, if its deadlines are positive; a row that is
    there stays. *)
Definition stored (id e le : Z) (orders : gmap Z (Z * Z)) : gmap Z (Z * Z) :=
  if bool_decide (0 < e /\ 0 < le /\ orders !! id = None)
  then <[id := (to_i64 e, to_i64 le)]> orders else orders.

(** The node has answered a query for locks with one of a prover that is not skipped,
    with these deadlines of the request and of its lock. *)
Definition lock_seen (h : list state) (id e le : Z) : Prop :=
  exists from to s0 logs ev, s0 ∈ h
    /\ (locked_logs from to (ms_world (sl_ms s0))).1 = inr logs /\ ev ∈ logs
    /\ rl_requestId ev = id /\ rl_prover ev ∉ skip_addresses config
    /\ e = expires_at (rl_request ev)
    /\ le = wadd 64 (rampUpStart (offer (rl_request ev))) (lockTimeout (offer (rl_request ev))).

(** The time of a fulfillment: of its log, or of the block of the log as the node has
    answered it. *)
Definition fulfilled_time (h : list state) (f : FulfilledLog) (ts : Z) : Prop :=
  fl_block_timestamp f = Some ts
  \/ exists bn s0, s0 ∈ h /\ fl_block_number f = Some bn
       /\ (timestamp_of bn (ms_world (sl_ms s0))).1 = inr (Some ts).

(** In one of the states the market refused to slash the request with this error. *)
Definition refused (h : list state) (id : Z) (message : string) : Prop :=
  exists s0 e ms', s0 ∈ h /\ slash boundless_market id (sl_ms s0) = (Err e, ms')
    /\ message = market_error_text e.

(** Why an order may be removed in the state [s] with the history [h]. *)
Definition justified (s : state) (h : list state) (id : Z) (why : Removal) : Prop :=
  match why with
  | FulfilledInTime ts lock_expires_at =>
      ts <= lock_expires_at
      /\ (exists row, sl_orders s !! id = Some row /\ lock_expires_at = to_u64 row.2)
      /\ exists from to s0 logs f, s0 ∈ h
         /\ (fulfilled_logs from to (ms_world (sl_ms s0))).1 = inr logs /\ f ∈ logs
         /\ fl_requestId f = id /\ fulfilled_time h f ts
  | SlashedEvent =>
      exists from to s0 logs, s0 ∈ h
        /\ (slashed_logs from to (ms_world (sl_ms s0))).1 = inr logs /\ id ∈ logs
  | SlashSucceeded =>
      exists hash rc ev, Sent (CallSlash id) hash ∈ txs_of s /\ Included rc ∈ txs_of s
        /\ tx_status rc = true
        /\ extract_tx_log PROVER_SLASHED_HASH decode_prover_slashed rc = Ok ev
  | AlreadySlashed | RevertedButSlashed _ =>
      exists s0, s0 ∈ h /\ (requestIsSlashed id (ms_world (sl_ms s0))).1 = inr true
  | SettledError message =>
      (contains "RequestIsSlashed" message || contains "RequestIsFulfilled" message) = true
      /\ refused h id message
  | NotLocked message => contains "RequestIsNotLocked" message = true /\ refused h id message
  end.

(** One step of a history. *)
Inductive extend : list state -> list state -> Prop :=
| extend_asked s s' h : asked s s' -> extend (s :: h) (s' :: s :: h)
| extend_added s s' h id e le :
    lock_seen (s :: h) id e le ->
    sl_ms s' = sl_ms s -> sl_orders s' = stored id e le (sl_orders s) ->
    sl_last_block s' = sl_last_block s -> sl_log s' = sl_log s ++ [OrderAdded id e le] ->
    extend (s :: h) (s' :: s :: h)
| extend_removed s s' h id why :
    justified s (s :: h) id why ->
    sl_ms s' = sl_ms s -> sl_orders s' = delete id (sl_orders s) ->
    sl_last_block s' = sl_last_block s -> sl_log s' = sl_log s ++ [OrderRemoved id why] ->
    extend (s :: h) (s' :: s :: h).

(** Every state of the history follows from the one before it; the first one is [s]. *)
Definition history (s : state) (h : list state) : Prop := rtc extend [s] h.

(** The history [s :: h] can go on to [s']. *)
Definition leads (h : list state) (s s' : state) : Prop :=
  exists h', rtc extend (s :: h) (s' :: h').

Lemma leads_refl h s : leads h s s.
Proof using Type. by exists h. Qed.

Lemma leads_trans h s s1 s2 :
  leads h s s1 -> (forall h1, rtc extend (s :: h) (s1 :: h1) -> leads h1 s1 s2) -> leads h s s2.
Proof using Type. intros [h1 H3] Hn. destruct (Hn h1 H3) as [h2 H4]. exists h2. by etrans. Qed.

Lemma leads_asked h s s' : asked s s' -> leads h s s'.
Proof using Type. intros Ha. exists (s :: h). by apply rtc_once, extend_asked. Qed.

Lemma extend_sub h h' : rtc extend h h' -> h ⊆ h'.
Proof using Type.
  induction 1 as [|h h1 h2 [] _ IH]; [done|..]; (etrans; [|exact IH]); apply list_subseteq_skip_r || set_solver.
Qed.

Lemma justified_mono s s' h h' id why :
  sl_orders s' = sl_orders s -> txs_of s ⊆ txs_of s' -> h ⊆ h' ->
  justified s h id why -> justified s' h' id why.
Proof using Type.
  intros Ho Ht Hh. destruct why; simpl.
  - rewrite Ho. intros (H3 & H4 & from & to & s0 & logs & f & Hin & Hq & Hf & Hid & Hts).
    split_and!; [done|done|]. exists from, to, s0, logs, f. split_and!; [set_solver|done..|].
    destruct Hts as [|(bn & s1 & ? & ?)]; [by left|right]. exists bn, s1. split; [set_solver|done].
  - intros (from & to & s0 & logs & ? & ?). exists from, to, s0, logs. split; [set_solver|done].
  - intros (hash & rc & ev & ? & ? & ?). exists hash, rc, ev. split_and!; [set_solver..|naive_solver|naive_solver].
  - intros (s0 & ? & ?). exists s0. split; [set_solver|done].
  - intros (s0 & ? & ?). exists s0. split; [set_solver|done].
  - intros (? & s0 & e & ms & ? & ?). split; [done|]. exists s0, e, ms. split; [set_solver|done].
  - intros (? & s0 & e & ms & ? & ?). split; [done|]. exists s0, e, ms. split; [set_solver|done].
Qed.

(** ** What a history leaves of the table *)

Record evolves (s s' : state) : Prop := {
  ev_txs : txs_of s ⊆ txs_of s';
  ev_log : exists l, sl_log s' = sl_log s ++ l
    /\ (forall id, is_Some (sl_orders s !! id) ->
          is_Some (sl_orders s' !! id) \/ exists why, OrderRemoved id why ∈ l)
    /\ (forall id e le, OrderAdded id e le ∈ l -> 0 < e -> 0 < le ->
          is_Some (sl_orders s' !! id) \/ exists why, OrderRemoved id why ∈ l)
}.

Lemma sl_evolves_quiet s s' l :
  txs_of s ⊆ txs_of s' -> sl_orders s' = sl_orders s -> sl_log s' = sl_log s ++ l ->
  (forall id e le, OrderAdded id e le ∉ l) -> evolves s s'.
Proof using Type.
  intros Ht Ho Hl Hn. split; [done|]. exists l. rewrite Ho. split_and!; [done|by left|].
  by intros id e le Hin%Hn.
Qed.

Lemma sl_evolves_refl s s' :
  txs_of s ⊆ txs_of s' -> sl_orders s' = sl_orders s -> sl_log s' = sl_log s -> evolves s s'.
Proof using Type.
  intros Ht Ho Hl. apply (sl_evolves_quiet s s' []); [done|done|by rewrite app_nil_r|].
  by intros ? ? ? ?%elem_of_nil.
Qed.

Lemma sl_evolves_trans s1 s2 s3 : evolves s1 s2 -> evolves s2 s3 -> evolves s1 s3.
Proof using Type.
  intros [T1 (l1 & L1 & A1 & B1)] [T2 (l2 & L2 & A2 & B2)].
  split; [by transitivity (txs_of s2)|]. exists (l1 ++ l2).
  split; [by rewrite L2, L1, app_assoc|].
  assert (Hkeep : forall id, is_Some (sl_orders s2 !! id) \/ (exists why, OrderRemoved id why ∈ l1) ->
    is_Some (sl_orders s3 !! id) \/ exists why, OrderRemoved id why ∈ l1 ++ l2).
  { intros id [Hs|[why Hw]]; [|right; exists why; set_solver].
    destruct (A2 id Hs) as [|[why Hw]]; [by left|right; exists why; set_solver]. }
  split.
  - intros id Hs. by apply Hkeep, A1.
  - intros id e le [Hin|Hin]%elem_of_app He Hle; [by eapply Hkeep, B1|].
    destruct (B2 id e le Hin He Hle) as [|[why Hw]]; [by left|right; exists why; set_solver].
Qed.

Lemma at_node_run {A} (m : st W A) s r s' :
  at_node m s = (r, s') ->
  r = Ok (m (ms_world (sl_ms s))).1 /\ txs_of s' = txs_of s /\ sl_orders s' = sl_orders s
  /\ sl_log s' = sl_log s.
Proof using Type. unfold at_node. destruct (m _) as [a w]. by intros [= <- <-]. Qed.

Lemma at_node_evolves {A} (m : st W A) s : evolves s (at_node m s).2.
Proof using Type.
  destruct (at_node m s) as [r s'] eqn:E. apply at_node_run in E as (_ & Ht & Ho & Hl).
  apply sl_evolves_refl; simpl; [by rewrite Ht|done..].
Qed.

Lemma stored_in id e le orders : 0 < e -> 0 < le -> is_Some (stored id e le orders !! id).
Proof using Type.
  intros He Hle. unfold stored. case_bool_decide as Hd; [rewrite lookup_insert_eq; by eexists|].
  destruct (orders !! id) eqn:E; [by eexists|]. by destruct Hd.
Qed.

Lemma stored_keeps id e le orders i : is_Some (orders !! i) -> is_Some (stored id e le orders !! i).
Proof using Type.
  unfold stored. case_bool_decide; [|done]. intros Hi.
  destruct (decide (i = id)) as [->|]; [rewrite lookup_insert_eq; by eexists|by rewrite lookup_insert_ne].
Qed.

(** ** The calls of the market *)

Definition slash_outcome (id : Z) (r : result MarketError ProverSlashed) (l : list TxEvent) : Prop :=
  (forall c h, Sent c h ∈ l -> c = CallSlash id) /\ (length l <= 2)%nat
  /\ match r with
     | Ok ev => exists h rc, l = [Sent (CallSlash id) h; Included rc] /\ tx_status rc = true
                  /\ extract_tx_log PROVER_SLASHED_HASH decode_prover_slashed rc = Ok ev
     | Err (RequestIsSlashed i) => i = id /\ exists w, (requestIsSlashed id w).1 = inr true
     | Err _ | Panic => True
     end.

Lemma slash_outcome_nil id e :
  match e with RequestIsSlashed _ => False | _ => True end -> slash_outcome id (Err e) [].
Proof using Type.
  intros He. split; [by intros c h ?%elem_of_nil|]. split; [simpl; lia|]. by destruct e.
Qed.

Lemma slash_run id : appends (slash boundless_market id) (slash_outcome id).
Proof using Type.
  intros ms r ms' Hr. unfold slash in Hr. unfold mbind, ste_bind at 1 in Hr. unfold is_slashed in Hr.
  rewrite node_try_run in Hr. destruct (requestIsSlashed id (ms_world ms)).1 as [t|[]] eqn:Es.
  - injection Hr as <- <-. exists []. rewrite app_nil_r. split; [done|]. by apply slash_outcome_nil.
  - injection Hr as <- <-. exists []. rewrite app_nil_r. split; [done|].
    split; [by intros c h ?%elem_of_nil|]. split; [simpl; lia|]. split; [done|]. by eexists.
  - revert Hr. set (ms0 := mkMs _ _ _). change (ms_txs ms) with (ms_txs ms0). clearbody ms0. intros Hr.
    revert ms0 r ms' Hr. apply (appends_transact (CallSlash id) (get_receipt_with_retry boundless_market)).
    + apply appends_receipt_retry.
    + intros h rc. destruct (tx_status rc) eqn:Est; simpl.
      * destruct (extract_tx_log _ _ rc) as [ev|e|] eqn:Ex; [apply appends_ret|apply appends_throw|apply appends_liftr];
          (split; [intros c h' Hin; apply elem_of_cons in Hin as [[= -> ->]|Hin]; [done|];
                   by apply list_elem_of_singleton in Hin|]; split; [simpl; lia|]); [eauto 6|done..].
      * apply appends_throw. split; [|split; [simpl; lia|done]].
        intros c h' Hin. apply elem_of_cons in Hin as [[= -> ->]|Hin]; [done|].
        by apply list_elem_of_singleton in Hin.
    + intros t. by apply slash_outcome_nil.
    + intros e h He. split; [by intros c h' [= -> ->]%list_elem_of_singleton|]. split; [simpl; lia|].
      by destruct He as [[t ->]|[t ->]].
Qed.

(** It answers that a request is slashed only when it has asked the node. *)
Lemma slash_view id ms i ms' :
  slash boundless_market id ms = (Err (RequestIsSlashed i), ms') ->
  (requestIsSlashed id (ms_world ms)).1 = inr true.
Proof using Type.
  intros Hr. unfold slash in Hr. unfold mbind, ste_bind at 1 in Hr. unfold is_slashed in Hr.
  rewrite node_try_run in Hr. destruct (requestIsSlashed id (ms_world ms)).1 as [t|[]]; [done..|].
  exfalso. revert Hr. set (ms0 := mkMs _ _ _). clearbody ms0. intros Hr.
  eapply (appends_transact (CallSlash id) (get_receipt_with_retry boundless_market) _
    (fun r _ => match r with Err (RequestIsSlashed _) => False | _ => True end)) in Hr
    as (l & _ & HQ); [exact HQ|..].
  - apply appends_receipt_retry.
  - intros h rc. destruct (tx_status rc); simpl; [|by apply appends_throw].
    destruct (extract_tx_log _ _ rc); [by apply appends_ret|by apply appends_throw|by apply appends_liftr].
  - done.
  - by intros e h [[t ->]|[t ->]].
Qed.

Lemma is_slashed_run id : appends (is_slashed id) (fun r l => l = [] /\
  match r with Ok b => exists w, (requestIsSlashed id w).1 = inr b | Err _ => True | Panic => False end).
Proof using Type.
  intros ms r ms'. unfold is_slashed. rewrite node_try_run. intros [= <- <-].
  exists []. rewrite app_nil_r. split; [done|]. split; [done|].
  destruct (requestIsSlashed id (ms_world ms)).1 eqn:E; [done|]. by eexists.
Qed.

(** The call, and what is known after it. *)
Lemma at_market_run {A} (m : ste (MsState W) MarketError A) Q s r s' :
  appends m Q -> at_market m s = (r, s') ->
  exists x ms l, m (sl_ms s) = (x, ms) /\ Q x l /\ txs_of s' = txs_of s ++ l
    /\ sl_orders s' = sl_orders s /\ sl_log s' = sl_log s
    /\ r = match x with Ok a => Ok (inr a) | Err e => Ok (inl e) | Panic => Panic end.
Proof using Type.
  intros Hm. unfold at_market. destruct (m (sl_ms s)) as [x ms] eqn:E. intros [= <- <-].
  destruct (Hm _ _ _ E) as (l & Hl & HQ). by exists x, ms, l.
Qed.

Lemma at_market_evolves {A} (m : ste (MsState W) MarketError A) Q s :
  appends m Q -> evolves s (at_market m s).2.
Proof using Type.
  intros Hm. destruct (at_market m s) as [r s'] eqn:E.
  apply (at_market_run _ _ _ _ _ Hm) in E as (x & ms & l & _ & _ & Ht & Ho & Hl & _).
  apply sl_evolves_refl; simpl; [rewrite Ht; set_solver|done..].
Qed.

Lemma asked_evolves s s' : asked s s' -> evolves s s'.
Proof using Type.
  intros []; try apply at_node_evolves.
  - eapply at_market_evolves, is_slashed_run.
  - eapply at_market_evolves, slash_run.
  - by apply sl_evolves_refl.
  - apply (sl_evolves_quiet _ _ [BlocksProcessed n]); try done.
    by intros id e le ?%list_elem_of_singleton.
Qed.

Lemma asked_removed s s' id why :
  asked s s' -> OrderRemoved id why ∈ sl_log s' -> OrderRemoved id why ∈ sl_log s.
Proof using Type.
  assert (Hn : forall A (m : st W A) s, sl_log (at_node m s).2 = sl_log s).
  { intros A m s0. unfold at_node. by destruct (m _). }
  assert (Hm : forall A (m : ste (MsState W) MarketError A) s, sl_log (at_market m s).2 = sl_log s).
  { intros A m s0. unfold at_market. by destruct (m _). }
  intros []; rewrite ?Hn, ?Hm; [done..|]. simpl.
  by intros [|?%list_elem_of_singleton]%elem_of_app.
Qed.

Lemma extend_evolves s h s' h' : rtc extend (s :: h) (s' :: h') -> evolves s s'.
Proof using Type.
  intros Hr. remember (s :: h) as a eqn:Ea. remember (s' :: h') as b eqn:Eb. revert s h Ea.
  induction Hr as [a|a c b Hs _ IH]; intros s h ->.
  { injection Eb as -> ->. by apply sl_evolves_refl. }
  inversion Hs as [s1 s2 h1 Ha|s1 s2 h1 id e le _ Hm Ho Hb Hl|s1 s2 h1 id why _ Hm Ho Hb Hl]; subst;
    (eapply sl_evolves_trans; [|by eapply IH]).
  - by apply asked_evolves.
  - split; [by rewrite Hm|]. exists [OrderAdded id e le]. rewrite Hl, Ho. split; [done|]. split.
    + intros i Hi. left. by apply stored_keeps.
    + intros i e' le' [= -> -> ->]%list_elem_of_singleton He Hle. left. by apply stored_in.
  - split; [by rewrite Hm|]. exists [OrderRemoved id why]. rewrite Hl, Ho. split; [done|]. split.
    + intros i Hi. destruct (decide (i = id)) as [->|]; [right; exists why; by left|left].
      by rewrite lookup_delete_ne.
    + by intros i e le ?%list_elem_of_singleton.
Qed.

(** Whatever the log says was removed was removed for a reason, in the state in which the
    removal was made. *)
Lemma history_removed s h s' :
  sl_log s = [] -> history s (s' :: h) ->
  forall id why, OrderRemoved id why ∈ sl_log s' ->
    exists s1 h1, (s1 :: h1) `suffix_of` (s' :: h) /\ justified s1 (s1 :: h1) id why.
Proof using Type.
  intros Hlog. unfold history. intros Hr. remember (s' :: h) as b eqn:Eb. revert s' h Eb.
  refine (rtc_ind_r (fun b => forall s' h, b = s' :: h -> forall id why,
    OrderRemoved id why ∈ sl_log s' ->
    exists s1 h1, (s1 :: h1) `suffix_of` b /\ justified s1 (s1 :: h1) id why) [s] _ _ b Hr);
    [|intros b' c _ Hs IH]; clear b Hr; intros s' h Eb id why Hin.
  { injection Eb as <- <-. rewrite Hlog in Hin. by apply elem_of_nil in Hin. }
  assert (Hold : forall s1 h1, b' = s1 :: h1 -> c = s' :: s1 :: h1 -> OrderRemoved id why ∈ sl_log s1 ->
    exists s2 h2, (s2 :: h2) `suffix_of` c /\ justified s2 (s2 :: h2) id why).
  { intros s1 h1 -> -> Hin1. destruct (IH s1 h1 eq_refl id why Hin1) as (s2 & h2 & Hsuf & Hj).
    exists s2, h2. split; [by apply suffix_cons_r|done]. }
  destruct Hs as [s1 s2 h1 Ha|s1 s2 h1 i e le _ _ _ _ Hl|s1 s2 h1 i w Hj _ _ _ Hl]; injection Eb as <- <-.
  - exact (Hold s1 h1 eq_refl eq_refl (asked_removed _ _ _ _ Ha Hin)).
  - rewrite Hl in Hin. apply elem_of_app in Hin as [Hin|Hin%list_elem_of_singleton]; [|done].
    exact (Hold s1 h1 eq_refl eq_refl Hin).
  - rewrite Hl in Hin. apply elem_of_app in Hin as [Hin|[= -> ->]%list_elem_of_singleton].
    + exact (Hold s1 h1 eq_refl eq_refl Hin).
    + exists s1, h1. split; [by apply suffix_cons_r|done].
Qed.

Lemma leads_evolves h s s' : leads h s s' -> evolves s s'.
Proof using Type. intros [h' Hr]. by eapply extend_evolves. Qed.

(** ** Runs are histories *)

(** A run that starts after a history with [K] goes on with it. *)
Definition keeps_if {A} (K : list state -> Prop) (m : sm A) : Prop :=
  forall h s r s', K (s :: h) -> m s = (r, s') -> leads h s s'.
Abbreviation keeps := (keeps_if (fun _ => True)).

Definition lasting (K : list state -> Prop) : Prop := forall h h', h ⊆ h' -> K h -> K h'.

Lemma keeps_weaken {A} K (m : sm A) : keeps m -> keeps_if K m.
Proof using Type. intros Hm h s r s' _ Hr. by eapply Hm. Qed.

Lemma keeps_bind {A B} (K : list state -> Prop) (m : sm A) (f : A -> sm B) :
  keeps_if K m ->
  (forall a h s0 h1 s1, K (s0 :: h) -> m s0 = (Ok a, s1) -> rtc extend (s0 :: h) (s1 :: h1) ->
     forall r s2, f a s1 = (r, s2) -> leads h1 s1 s2) ->
  keeps_if K (m ≫= f).
Proof using Type.
  intros Hm Hf h s r s' HK. unfold mbind, ste_bind. destruct (m s) as [[a|e|] s1] eqn:E.
  - intros Hr. eapply leads_trans; [by eapply Hm|]. intros h1 Hh. by eapply Hf.
  - intros [= _ <-]. by eapply Hm.
  - intros [= _ <-]. by eapply Hm.
Qed.

Lemma keeps_bind_if {A B} K (m : sm A) (f : A -> sm B) :
  lasting K -> keeps_if K m -> (forall a, keeps_if K (f a)) -> keeps_if K (m ≫= f).
Proof using Type.
  intros HK Hm Hf. apply keeps_bind; [done|]. intros a h s0 h1 s1 HK0 _ Hh r s2 Hr.
  eapply Hf; [|done]. eapply HK; [by apply extend_sub|done].
Qed.

Lemma keeps_bind' {A B} (m : sm A) (f : A -> sm B) :
  keeps m -> (forall a, keeps (f a)) -> keeps (m ≫= f).
Proof using Type. intros Hm Hf. by apply keeps_bind_if. Qed.

Lemma keeps_ret {A} (a : A) : keeps (mret a).
Proof using Type. intros h s r s' _ [= _ <-]. apply leads_refl. Qed.
Lemma keeps_throw {A} e : keeps (throw (A := A) e).
Proof using Type. intros h s r s' _ [= _ <-]. apply leads_refl. Qed.
Lemma keeps_liftr {A} (x : result ServiceError A) : keeps (liftr x).
Proof using Type. intros h s r s' _ [= _ <-]. apply leads_refl. Qed.
Lemma keeps_orders : keeps read_orders.
Proof using Type. intros h s r s' _ [= _ <-]. apply leads_refl. Qed.
Lemma keeps_last : keeps read_last.
Proof using Type. intros h s r s' _ [= _ <-]. apply leads_refl. Qed.
Lemma keeps_or_throw {A} f (r : string + A) : keeps (or_throw f r).
Proof using Type. destruct r; [apply keeps_throw|apply keeps_ret]. Qed.

Lemma keeps_asked {A} (m : sm A) : (forall s, asked s (m s).2) -> keeps m.
Proof using Type. intros Hm h s r s' _ Hr. specialize (Hm s). rewrite Hr in Hm. by apply leads_asked. Qed.

Lemma keeps_head : keeps (at_node head_number).
Proof using Type. apply keeps_asked, asked_head. Qed.
Lemma keeps_safe : keeps (at_node safe_block).
Proof using Type. apply keeps_asked, asked_safe. Qed.
Lemma keeps_timestamp n : keeps (at_node (timestamp_of n)).
Proof using Type. apply keeps_asked, asked_timestamp. Qed.
Lemma keeps_locked_logs from to : keeps (at_node (locked_logs from to)).
Proof using Type. apply keeps_asked, asked_locked. Qed.
Lemma keeps_slashed_logs from to : keeps (at_node (slashed_logs from to)).
Proof using Type. apply keeps_asked, asked_slashed. Qed.
Lemma keeps_fulfilled_logs from to : keeps (at_node (fulfilled_logs from to)).
Proof using Type. apply keeps_asked, asked_fulfilled. Qed.
Lemma keeps_sql : keeps (at_node sql_fails).
Proof using Type. apply keeps_asked, asked_sql. Qed.
Lemma keeps_set_last n : keeps (set_last_block n).
Proof using Type. apply keeps_asked, asked_done. Qed.
Lemma keeps_note n : keeps (note (BlocksProcessed n)).
Proof using Type. apply keeps_asked, asked_note. Qed.

Hint Resolve keeps_ret keeps_throw keeps_liftr keeps_orders keeps_last keeps_or_throw
  keeps_head keeps_safe keeps_timestamp keeps_locked_logs keeps_slashed_logs keeps_fulfilled_logs
  keeps_sql keeps_set_last keeps_note : keeps.

Lemma keeps_statement : keeps statement.
Proof using Type.
  apply keeps_bind'; [eauto with keeps|]. intros [e|]; eauto with keeps.
Qed.
Hint Resolve keeps_statement : keeps.

(** *** Adding and removing *)

Lemma statement_run s r s' :
  statement s = (r, s') ->
  txs_of s' = txs_of s /\ sl_orders s' = sl_orders s /\ sl_log s' = sl_log s
  /\ (r = Ok tt \/ exists e, r = Err (DatabaseError (SqlErr e))).
Proof using Type.
  unfold statement, mbind, ste_bind. destruct (at_node sql_fails s) as [x s1] eqn:E.
  apply at_node_run in E as (-> & Ht & Ho & Hl). destruct (sql_fails _).1 as [e|]; intros [= <- <-]; eauto 10.
Qed.

Lemma keeps_add id e le : keeps_if (fun h => lock_seen h id e le) (add_order id e le).
Proof using Type.
  intros h s r s' Hseen. unfold add_order, db_add_order.
  destruct ((0 <? e) && (0 <? le)) eqn:Hp.
  - apply andb_prop in Hp as [He%Z.ltb_lt Hle%Z.ltb_lt].
    unfold mbind at 1 2, ste_bind. destruct (statement s) as [x s1] eqn:E.
    pose proof (keeps_statement h s x s1 I E) as H01.
    apply statement_run in E as (_ & _ & _ & [->|[m ->]]); [|by intros [= _ <-]].
    cbn [change_orders note]. intros [= _ <-]. eapply leads_trans; [exact H01|]. intros h1 Hh.
    eexists. apply rtc_once, (extend_added s1 _ h1 id e le); simpl; [|done| |done|done].
    + destruct Hseen as (from & to & s0 & logs & ev & Hin & Hrest).
      exists from, to, s0, logs, ev. split; [by apply (extend_sub _ _ Hh)|done].
    + unfold stored. destruct (sl_orders s1 !! id) eqn:Ei; [by rewrite bool_decide_false by naive_solver|].
      by rewrite bool_decide_true.
  - cbn. intros [= _ <-]. eexists. apply rtc_once, (extend_added s _ h id e le); simpl; [done..| |done|done].
    unfold stored. rewrite bool_decide_false; [done|]. intros (He & Hle & _).
    apply Z.ltb_lt in He, Hle. by rewrite He, Hle in Hp.
Qed.

Lemma remove_leads h id why s r s' :
  remove_order id why s = (r, s') -> justified s (s :: h) id why -> leads h s s'.
Proof using Type.
  unfold remove_order, db_remove_order. unfold mbind at 1 2, ste_bind.
  destruct (statement s) as [x s1] eqn:E. pose proof (keeps_statement h s x s1 I E) as H01.
  apply statement_run in E as (Ht & Ho & _ & [->|[m ->]]); [|by intros [= _ <-]].
  cbn [change_orders note]. intros [= _ <-] Hj. eapply leads_trans; [exact H01|]. intros h1 Hh.
  eexists. apply rtc_once, (extend_removed s1 _ h1 id why); simpl; [|done..].
  eapply justified_mono; [done|by rewrite Ht|by apply extend_sub|done].
Qed.

(** ** The operations of the service *)

Lemma keeps_block_timestamp n : keeps (block_timestamp n).
Proof using Type.
  apply keeps_bind'; [eauto with keeps|]. intros r. apply keeps_bind'; eauto with keeps.
Qed.

Lemma block_timestamp_Ok n s ts s' :
  block_timestamp n s = (Ok ts, s') ->
  (timestamp_of n (ms_world (sl_ms s))).1 = inr (Some ts).
Proof using Type.
  unfold block_timestamp. intros Hr. bind_step Hr x s1 E1. apply at_node_run in E1 as ([= ->] & _).
  bind_step Hr y s2 E2.
  destruct (timestamp_of n _).1 as [e|o]; [done|]. injection E2 as -> ->.
  apply liftr_Ok in Hr as [Hr _]. by destruct y; [injection Hr as ->|].
Qed.

Lemma keeps_current_block : keeps (current_block config).
Proof using Type.
  unfold current_block. destruct (_ =? 0).
  - apply keeps_bind'; eauto with keeps.
  - apply keeps_bind'; [eauto with keeps|]. intros [e|[n|]]; [|eauto with keeps|];
      (apply keeps_bind'; [eauto with keeps|]; intros r; apply keeps_bind'; eauto with keeps).
Qed.

(** The node's answer about locks, in one of the states. *)
Definition locks_seen (logs : list RequestLocked) (h : list state) : Prop :=
  exists from to s0 all, s0 ∈ h
    /\ (locked_logs from to (ms_world (sl_ms s0))).1 = inr all /\ logs ⊆ all.

Lemma lasting_locks logs : lasting (locks_seen logs).
Proof using Type.
  intros h h' Hh (from & to & s0 & all & Hin & Hrest). exists from, to, s0, all.
  split; [by apply Hh|done].
Qed.

Lemma keeps_locked_loop logs : keeps_if (locks_seen logs) (process_locked_loop config logs).
Proof using Type.
  induction logs as [|e logs IH]; simpl; [by apply keeps_weaken, keeps_ret|].
  apply keeps_bind_if; [apply lasting_locks|..].
  - unfold process_locked_event. case_bool_decide as Hskip; [by apply keeps_weaken, keeps_ret|].
    intros h s r s' (from & to & s0 & all & Hin & Hq & Hs) Hr. eapply keeps_add; [|done].
    exists from, to, s0, all, e. split_and!; try done. apply Hs. by left.
  - intros _ h s r s' (from & to & s0 & all & Hin & Hq & Hs). apply IH.
    exists from, to, s0, all. split_and!; [done..|]. set_solver.
Qed.

(** A query and what is done with its answer. *)
Lemma query_Ok {A B} (m : st W (string + A)) f (g : A -> sm B) (K : A -> list state -> Prop) :
  keeps (at_node m) ->
  (forall a h s0, s0 ∈ h -> (m (ms_world (sl_ms s0))).1 = inr a -> K a h) ->
  (forall a, keeps_if (K a) (g a)) ->
  keeps (r ← at_node m; logs ← or_throw f r; g logs).
Proof using Type.
  intros Hm HK Hg. apply keeps_bind; [done|]. intros x h s0 h1 s1 _ E Hh.
  apply at_node_run in E as ([= ->] & _). intros r s2 Hr.
  destruct (m (ms_world (sl_ms s0))).1 as [e|a] eqn:Ea.
  - injection Hr as _ <-. apply leads_refl.
  - eapply (Hg a); [|exact Hr]. eapply (HK a _ s0); [|done]. apply (extend_sub _ _ Hh). by left.
Qed.

Lemma keeps_locked from to : keeps (process_locked_events config from to).
Proof using Type.
  apply (query_Ok _ _ _ locks_seen); [eauto with keeps| |apply keeps_locked_loop].
  intros logs h s0 Hin Hq. by exists from, to, s0, logs.
Qed.

(** The node's answer about slashed requests. *)
Definition slashes_seen (ids : list Z) (h : list state) : Prop :=
  exists from to s0 all, s0 ∈ h
    /\ (slashed_logs from to (ms_world (sl_ms s0))).1 = inr all /\ ids ⊆ all.

Lemma lasting_slashes ids : lasting (slashes_seen ids).
Proof using Type.
  intros h h' Hh (from & to & s0 & all & Hin & Hrest). exists from, to, s0, all.
  split; [by apply Hh|done].
Qed.

Lemma keeps_slashed_loop ids : keeps_if (slashes_seen ids) (process_slashed_loop ids).
Proof using Type.
  induction ids as [|id ids IH]; simpl; [by apply keeps_weaken, keeps_ret|].
  apply keeps_bind_if; [apply lasting_slashes|..].
  - intros h s r s' (from & to & s0 & all & Hin & Hq & Hs) Hr. eapply remove_leads; [done|].
    exists from, to, s0, all. split_and!; [done..|]. apply Hs. by left.
  - intros _ h s r s' (from & to & s0 & all & Hin & Hq & Hs). apply IH.
    exists from, to, s0, all. split_and!; [done..|]. set_solver.
Qed.

Lemma keeps_slashed from to : keeps (process_slashed_events from to).
Proof using Type.
  apply (query_Ok _ _ _ slashes_seen); [eauto with keeps| |apply keeps_slashed_loop].
  intros ids h s0 Hin Hq. by exists from, to, s0, ids.
Qed.

Lemma keeps_get_order id : keeps (db_get_order id).
Proof using Type.
  apply keeps_bind'; [eauto with keeps|]. intros _. apply keeps_bind'; eauto with keeps.
Qed.

Lemma keeps_fulfilled_at f : keeps (fulfilled_at f).
Proof using Type.
  unfold fulfilled_at. destruct (fl_block_timestamp f); [eauto with keeps|].
  apply keeps_bind'; [eauto with keeps|]. intros bn. apply keeps_block_timestamp.
Qed.

Lemma fulfilled_at_Ok f h s ts s' h' :
  fulfilled_at f s = (Ok ts, s') -> rtc extend (s :: h) (s' :: h') -> fulfilled_time (s' :: h') f ts.
Proof using Type.
  unfold fulfilled_at. destruct (fl_block_timestamp f) as [t|] eqn:Et; [intros [= -> _] _; by left|].
  intros Hr Hh. right. bind_step Hr bn s1 E1. apply liftr_Ok in E1 as [E1 ->].
  destruct (fl_block_number f) as [n|] eqn:En; [|done]. injection E1 as ->.
  apply block_timestamp_Ok in Hr. exists bn, s. split_and!; [|done|done].
  apply (extend_sub _ _ Hh). by left.
Qed.

(** The node's answer about fulfillments. *)
Definition fulfilled_seen (logs : list FulfilledLog) (h : list state) : Prop :=
  exists from to s0 all, s0 ∈ h
    /\ (fulfilled_logs from to (ms_world (sl_ms s0))).1 = inr all /\ logs ⊆ all.

Lemma lasting_fulfilled logs : lasting (fulfilled_seen logs).
Proof using Type.
  intros h h' Hh (from & to & s0 & all & Hin & Hrest). exists from, to, s0, all.
  split; [by apply Hh|done].
Qed.

Lemma get_order_run id s x s' :
  db_get_order id s = (Ok x, s') -> x = (fun row => (to_u64 row.1, to_u64 row.2)) <$> sl_orders s' !! id.
Proof using Type.
  unfold db_get_order. intros Hr. bind_step Hr u s1 E1. bind_step Hr o s2 E2.
  injection E2 as <- <-. by injection Hr as <- <-.
Qed.

Lemma keeps_fulfilled_event f : keeps_if (fulfilled_seen [f]) (process_fulfilled_event f).
Proof using Type.
  apply keeps_bind; [apply keeps_weaken, keeps_fulfilled_at|]. intros ts h s0 h1 s1 HK E1 Hh.
  pose proof (fulfilled_at_Ok _ _ _ _ _ _ E1 Hh) as Hts.
  pose proof (extend_sub _ _ Hh) as Hsub. revert HK. intros (from & to & sq & all & Hin & Hq & Hs).
  intros r s2. unfold mbind, ste_bind. destruct (db_get_order (fl_requestId f) s1) as [x s3] eqn:E2.
  pose proof (keeps_get_order _ h1 s1 x s3 I E2) as H13.
  destruct x as [o|e|]; [|by intros [= _ <-]..]. apply get_order_run in E2 as ->.
  intros Hr. eapply leads_trans; [exact H13|]. intros h3 Hh3.
  pose proof (extend_sub _ _ Hh3) as Hsub3.
  destruct (sl_orders s3 !! fl_requestId f) as [row|] eqn:Er; simpl in Hr;
    [|injection Hr as _ <-; apply leads_refl].
  destruct (Z.leb_spec ts (to_u64 row.2)); [|injection Hr as _ <-; apply leads_refl].
  eapply remove_leads; [done|]. split_and!; [done|by exists row|].
  exists from, to, sq, all, f. split_and!; [by apply Hsub3, Hsub|done|apply Hs; by left|done|].
  destruct Hts as [|(bn & sb & ? & ?)]; [by left|right]. exists bn, sb. split; [by apply Hsub3|done].
Qed.

Lemma keeps_fulfilled_loop logs : keeps_if (fulfilled_seen logs) (process_fulfilled_loop logs).
Proof using Type.
  induction logs as [|f logs IH]; simpl; [by apply keeps_weaken, keeps_ret|].
  apply keeps_bind_if; [apply lasting_fulfilled|..].
  - intros h s r s' (from & to & s0 & all & Hin & Hq & Hs). apply keeps_fulfilled_event.
    exists from, to, s0, all. split_and!; [done..|]. set_solver.
  - intros _ h s r s' (from & to & s0 & all & Hin & Hq & Hs). apply IH.
    exists from, to, s0, all. split_and!; [done..|]. set_solver.
Qed.

Lemma keeps_fulfilled from to : keeps (process_fulfilled_events from to).
Proof using Type.
  apply (query_Ok _ _ _ fulfilled_seen); [eauto with keeps| |apply keeps_fulfilled_loop].
  intros logs h s0 Hin Hq. by exists from, to, s0, logs.
Qed.

(** *** Slashing *)

(** The slash is already on its way: it is looked at again in the next turn. *)
Definition on_its_way (message : string) : bool :=
  contains "already known" message || contains "known transaction" message
  || contains "already imported" message || contains "nonce too low" message.

(** What a pass does to an order. *)
Record settled_order (h : list state) (id : Z) (r : result ServiceError unit) (s s' : state)
    : Prop := {
  so_leads : leads h s s';
  so_sent : exists l, txs_of s' = txs_of s ++ l /\ (forall c h, Sent c h ∈ l -> c = CallSlash id);
  so_others : forall j, j <> id -> sl_orders s' !! j = sl_orders s !! j;
  so_done : r = Ok tt -> sl_orders s' !! id = None
    \/ (sl_orders s' = sl_orders s /\ exists e ms ms', slash boundless_market id ms = (Err e, ms')
        /\ on_its_way (market_error_text e) = true)
}.

Lemma remove_settles h id why s r s' :
  remove_order id why s = (r, s') -> justified s (s :: h) id why -> settled_order h id r s s'.
Proof using Type.
  intros Hr Hj. split; [by eapply remove_leads|..];
    unfold remove_order, db_remove_order, mbind, ste_bind in Hr;
    destruct (statement s) as [z s2] eqn:E2; apply statement_run in E2 as (T2 & O2 & _ & [->|[m ->]]);
    injection Hr as <- <-.
  - exists []. rewrite app_nil_r. split; [done|]. by intros c hash ?%elem_of_nil.
  - exists []. rewrite app_nil_r. split; [done|]. by intros c hash ?%elem_of_nil.
  - intros j Hj'. simpl. by rewrite lookup_delete_ne, O2.
  - intros j Hj'. by rewrite O2.
  - intros _. left. simpl. apply lookup_delete_eq.
  - done.
Qed.

(** After a call that sent at most the slash, the rest settles the order. *)
Lemma settles_after h id r s s1 s' l :
  asked s s1 -> sl_orders s1 = sl_orders s -> txs_of s1 = txs_of s ++ l ->
  (forall c hash, Sent c hash ∈ l -> c = CallSlash id) ->
  settled_order (s :: h) id r s1 s' -> settled_order h id r s s'.
Proof using Type.
  intros Ha Ho Ht Hs [[h' E1] (l' & T1 & S1) O1 D1]. split.
  - exists h'. eapply rtc_l; [by apply extend_asked|done].
  - exists (l ++ l'). split; [by rewrite T1, Ht, app_assoc|].
    intros c hash [Hin|Hin]%elem_of_app; [by eapply Hs|by eapply S1].
  - intros j Hj. by rewrite O1, Ho.
  - intros Hr. destruct (D1 Hr) as [|[Eo Hw]]; [by left|right]. by rewrite Eo.
Qed.

Lemma same_settles h id (r : result ServiceError unit) s :
  (r = Ok tt -> exists e ms ms', slash boundless_market id ms = (Err e, ms')
     /\ on_its_way (market_error_text e) = true) -> settled_order h id r s s.
Proof using Type.
  intros Hr. split; [apply leads_refl| |done|].
  - exists []. rewrite app_nil_r. split; [done|]. by intros c hash ?%elem_of_nil.
  - intros E. right. split; [done|by apply Hr].
Qed.

Lemma after_all_settles h id tx s r s' :
  slashed_after_all id tx s = (r, s') -> settled_order h id r s s'.
Proof using Type.
  intros Hr. unfold slashed_after_all, mbind, ste_bind in Hr.
  pose proof (asked_view id s) as Ha.
  destruct (at_market (is_slashed id) s) as [x s1] eqn:E. simpl in Ha.
  apply (at_market_run _ _ _ _ _ (is_slashed_run id)) in E as (y & ms & l & E & [-> Hy] & Ht & Ho & Hl & ->).
  eapply (settles_after h id r s s1 s' []); [done..|by intros c hash ?%elem_of_nil|].
  destruct y as [[]|e|]; [|injection Hr as <- <-; by apply same_settles..|done].
  eapply remove_settles; [done|]. exists s. split; [by right; left|].
  unfold is_slashed in E. rewrite node_try_run in E.
  by destruct (requestIsSlashed id (ms_world (sl_ms s))).1; [|injection E as ->].
Qed.

Lemma failed_settles h id err s r s' s0 ms' :
  s0 ∈ s :: h -> slash boundless_market id (sl_ms s0) = (Err err, ms') ->
  slash_failed id err s = (r, s') -> settled_order h id r s s'.
Proof using Type.
  intros Hin Hm. unfold slash_failed. set (m := market_error_text err).
  assert (Href : refused (s :: h) id m) by (by exists s0, err, ms').
  destruct (contains "RequestIsSlashed" m || contains "RequestIsFulfilled" m) eqn:C1.
  { intros Hr. eapply remove_settles; [done|by split]. }
  destruct (contains "RequestIsNotExpired" m); [intros [= <- <-]; by apply same_settles|].
  destruct (_ || contains "gas required exceeds allowance" m); [intros [= <- <-]; by apply same_settles|].
  destruct (contains "RequestIsNotLocked" m) eqn:C2.
  { intros Hr. eapply remove_settles; [done|by split]. }
  destruct (contains "already known" m || contains "known transaction" m
            || contains "already imported" m) eqn:C3.
  { intros [= <- <-]. apply same_settles. intros _. exists err, (sl_ms s0), ms'. split; [done|].
    unfold on_its_way. fold m. by rewrite C3. }
  destruct (contains "nonce too low" m) eqn:C4; intros [= <- <-]; apply same_settles; [|done].
  intros _. exists err, (sl_ms s0), ms'. split; [done|]. unfold on_its_way. fold m. by rewrite C3, C4.
Qed.

Lemma slash_settles h id s r s' :
  slash_expired boundless_market id s = (r, s') -> settled_order h id r s s'.
Proof using Type.
  intros Hr. unfold slash_expired, mbind, ste_bind in Hr.
  pose proof (asked_slash id s) as Ha.
  destruct (at_market (slash boundless_market id) s) as [x s1] eqn:E. simpl in Ha.
  apply (at_market_run _ _ _ _ _ (slash_run id)) in E
    as (y & ms & l & E & (Hs & _ & Hy) & Ht & Ho & Hl & ->).
  assert (Hin : s ∈ s1 :: s :: h) by (right; by left).
  eapply (settles_after h id r s s1 s' l); [done..|].
  destruct y as [ev|e|].
  - eapply remove_settles; [done|]. destruct Hy as (hash & rc & -> & Hst & Hx).
    exists hash, rc, ev. rewrite Ht. split_and!; [set_solver..|done|done].
  - destruct e; try (by eapply failed_settles); try (by eapply after_all_settles).
    destruct Hy as [-> Hw]. eapply remove_settles; [done|]. exists s. split; [done|].
    by apply slash_view in E.
  - injection Hr as <- <-. by apply same_settles.
Qed.

(** ** A pass over the expired orders *)

Definition is_on_its_way (id : Z) : Prop :=
  exists e ms ms', slash boundless_market id ms = (Err e, ms')
    /\ on_its_way (market_error_text e) = true.

Record settled_orders (h : list state) (ids : list Z) (r : result ServiceError unit)
    (s s' : state) : Prop := {
  ss_leads : leads h s s';
  ss_sent : exists l, txs_of s' = txs_of s ++ l
    /\ forall c h, Sent c h ∈ l -> exists id, c = CallSlash id /\ id ∈ ids;
  ss_others : forall j, j ∉ ids -> sl_orders s' !! j = sl_orders s !! j;
  ss_done : r = Ok tt -> forall id, id ∈ ids ->
    sl_orders s' !! id = None \/ (sl_orders s' !! id = sl_orders s !! id /\ is_on_its_way id)
}.

Lemma slash_loop_settles h ids s r s' :
  NoDup ids -> slash_loop boundless_market ids s = (r, s') -> settled_orders h ids r s s'.
Proof using Type.
  intros Hnd. revert h s. induction Hnd as [|id ids Hid Hnd IH]; intros h s; simpl.
  - intros [= <- <-]. split; [apply leads_refl| |done|by intros _ ? ?%elem_of_nil].
    exists []. rewrite app_nil_r. split; [done|]. by intros c hash ?%elem_of_nil.
  - unfold mbind, ste_bind. destruct (slash_expired boundless_market id s) as [x s1] eqn:E1.
    apply (slash_settles h) in E1 as [A1 (l1 & T1 & S1) O1 D1].
    assert (Hstop : forall x, x <> Ok tt -> settled_orders h (id :: ids) x s s1).
    { intros y Hy. split; [done| |intros j Hj; apply O1; set_solver|done].
      exists l1. split; [done|]. intros c hash Hin%S1. exists id. split; [done|by left]. }
    destruct x as [[]|e|]; [|intros [= <- <-]; by apply Hstop..]. clear Hstop. intros Hr.
    assert (A2 : forall h1, leads h1 s1 s') by (intros h1; exact (ss_leads _ _ _ _ _ (IH h1 s1 Hr))).
    destruct (IH h s1 Hr) as [_ (l2 & T2 & S2) O2 D2]. split.
    + eapply leads_trans; [exact A1|]. intros h1 _. apply A2.
    + exists (l1 ++ l2). split; [by rewrite T2, T1, app_assoc|]. intros c hash [Hin|Hin]%elem_of_app.
      * exists id. split; [by eapply S1|by left].
      * destruct (S2 c hash Hin) as (i & -> & Hi). exists i. split; [done|by right].
    + intros j Hj. rewrite O2, O1 by set_solver. done.
    + intros Hok i [->|Hi]%elem_of_cons.
      * rewrite O2 by done. destruct (D1 eq_refl) as [|[Eo Hw]]; [by left|right]. by rewrite Eo.
      * destruct (D2 Hok i Hi) as [|[Eo Hw]]; [by left|right]. split; [|done].
        rewrite Eo. apply O1. by intros ->.
Qed.

(** Past its deadline at a time. *)
Definition expired (ts : Z) (s : state) (id : Z) : Prop :=
  exists row, sl_orders s !! id = Some row /\ row.1 < to_i64 ts.

Lemma elem_of_expired ts s id : id ∈ expired_ids ts (sl_orders s) <-> expired ts s id.
Proof using Type.
  unfold expired_ids, expired. rewrite list_elem_of_fmap. split.
  - intros ([i row] & -> & Hin%elem_of_map_to_list). apply map_lookup_filter_Some in Hin as [H3 H4].
    by exists row.
  - intros (row & H3 & H4). exists (id, row). split; [done|].
    apply elem_of_map_to_list, map_lookup_filter_Some. by split.
Qed.

Lemma NoDup_expired ts (s : state) : NoDup (expired_ids ts (sl_orders s)).
Proof using Type. apply NoDup_fst_map_to_list. Qed.

Lemma block_timestamp_same n s r s' :
  block_timestamp n s = (r, s') ->
  txs_of s' = txs_of s /\ sl_orders s' = sl_orders s /\ sl_log s' = sl_log s.
Proof using Type.
  unfold block_timestamp, mbind, ste_bind. destruct (at_node _ s) as [x s1] eqn:E1.
  apply at_node_run in E1 as (-> & T1 & O1 & L1). destruct (timestamp_of n _).1 as [e|o]; simpl.
  - by intros [= _ <-].
  - destruct o; by intros [= _ <-].
Qed.

Context `{!ScanLaws W}.

(** What a pass does, whatever its end. *)
Definition pass_spec (h : list state) (n : Z) (r : result ServiceError unit) (s s' : state) : Prop :=
  (r <> Ok tt /\ txs_of s' = txs_of s /\ sl_orders s' = sl_orders s /\ leads h s s')
  \/ exists ts ids, (timestamp_of n (ms_world (sl_ms s))).1 = inr (Some ts)
       /\ (forall id, id ∈ ids <-> expired ts s id) /\ settled_orders h ids r s s'.

Lemma expired_requests_pass h n s r s' :
  process_expired_requests boundless_market n s = (r, s') -> pass_spec h n r s s'.
Proof using ScanLaws0.
  intros Hr. unfold process_expired_requests in Hr. unfold mbind at 1, ste_bind at 1 in Hr.
  destruct (block_timestamp n s) as [x s1] eqn:E1.
  pose proof (block_timestamp_same _ _ _ _ E1) as (T1 & O1 & L1).
  pose proof (keeps_block_timestamp n h s x s1 I E1) as H01.
  destruct x as [ts|e|]; [|injection Hr as <- <-; by left..].
  apply block_timestamp_Ok in E1 as Hw.
  unfold db_get_expired_orders in Hr. unfold mbind, ste_bind in Hr.
  destruct (statement s1) as [y s2] eqn:E2.
  pose proof (fun h1 => keeps_statement h1 s1 y s2 I E2) as H12.
  apply statement_run in E2 as (T2 & O2 & L2 & [->|[m ->]]).
  2: { injection Hr as <- <-. left. split_and!; [done|by rewrite T2|by rewrite O2|].
       eapply leads_trans; [exact H01|]. intros h1 _. apply H12. }
  cbn [read_orders mret ste_ret] in Hr. right.
  exists ts, (scan (W := W) (expired_ids ts (sl_orders s2))). split; [done|]. split.
  - intros id. rewrite scan_perm, elem_of_expired. unfold expired. by rewrite O2, O1.
  - assert (Hall : forall h2, settled_orders h2 (scan (W := W) (expired_ids ts (sl_orders s2))) r s2 s').
    { intros h2. apply slash_loop_settles; [rewrite scan_perm; apply NoDup_expired|done]. }
    destruct (Hall h) as [_ (l2 & S1 & S2) O3 D3]. split.
    + eapply leads_trans; [exact H01|]. intros h1 _.
      eapply leads_trans; [apply H12|]. intros h2 _. apply Hall.
    + exists l2. by rewrite S1, T2, T1.
    + intros j Hj. rewrite O3 by done. by rewrite O2, O1.
    + intros Hok id Hid. specialize (D3 Hok id Hid). by rewrite O2, O1 in D3.
Qed.

(** ** The whole service *)

Lemma keeps_pass n : keeps (process_expired_requests boundless_market n).
Proof using ScanLaws0.
  intros h s r s' _ Hr.
  destruct (expired_requests_pass h _ _ _ _ Hr) as [(_ & _ & _ & He)|(ts & ids & _ & _ & Hs)];
    [done|apply Hs].
Qed.

Lemma keeps_processed n : keeps (update_last_processed_block n).
Proof using All.
  apply keeps_bind'; [apply keeps_bind'|]; eauto with keeps.
Qed.

Lemma keeps_after_locked from to :
  keeps (_ ← process_fulfilled_events from to; _ ← process_slashed_events from to;
         _ ← process_expired_requests boundless_market to; update_last_processed_block to).
Proof using All.
  apply keeps_bind'; [apply keeps_fulfilled|]. intros _.
  apply keeps_bind'; [apply keeps_slashed|]. intros _.
  apply keeps_bind'; [apply keeps_pass|]. intros _. apply keeps_processed.
Qed.

Lemma keeps_blocks from to : keeps (process_blocks boundless_market config from to).
Proof using All. apply keeps_bind'; [apply keeps_locked|]. intros _. apply keeps_after_locked. Qed.

Lemma keeps_catch {A} (m : sm A) : keeps m -> keeps (catch (F := ServiceError) m).
Proof using All.
  intros Hm h s r s' _. unfold catch. destruct (m s) as [[a|e|] s1] eqn:E; intros [= _ <-]; by eapply Hm.
Qed.

Lemma keeps_check_attempts f a : keeps (check_attempts config f a).
Proof using All. unfold check_attempts. destruct (_ <? _); eauto with keeps. Qed.

Lemma keeps_turn f a : keeps (turn boundless_market config f a).
Proof using All.
  apply keeps_bind'; [apply keeps_catch, keeps_current_block|]. intros [e|to]; [apply keeps_check_attempts|].
  destruct (to <? f); [eauto with keeps|]. apply keeps_bind'; [apply keeps_catch, keeps_blocks|].
  intros [e|_]; [|apply keeps_check_attempts]. destruct (recoverable e); [apply keeps_check_attempts|eauto with keeps].
Qed.

Lemma keeps_loop ticks f a : keeps (slasher_loop boundless_market config ticks f a).
Proof using All.
  revert f a. induction ticks as [|ticks IH]; intros f a; simpl; [eauto with keeps|].
  apply keeps_bind'; [apply keeps_turn|]. by intros [f' a'].
Qed.

(** *** The locks *)

(** In the table, or removed. *)
Definition handled (s : state) (id : Z) : Prop :=
  is_Some (sl_orders s !! id) \/ exists why, OrderRemoved id why ∈ sl_log s.

Lemma handled_evolves s s' id : evolves s s' -> handled s id -> handled s' id.
Proof using Type.
  intros [_ (l & Hl & Hk & _)] [Hs|[why Hw]].
  - destruct (Hk id Hs) as [|[why Hw]]; [by left|]. right. exists why. rewrite Hl.
    apply elem_of_app. by right.
  - right. exists why. rewrite Hl. apply elem_of_app. by left.
Qed.

(** A lock that is to be followed: of a prover that is not skipped, with deadlines. *)
Definition followed (e : RequestLocked) : Prop :=
  rl_prover e ∉ skip_addresses config /\ 0 < expires_at (rl_request e)
  /\ 0 < wadd 64 (rampUpStart (offer (rl_request e))) (lockTimeout (offer (rl_request e))).

Lemma add_handled id e le s s' u :
  add_order id e le s = (Ok u, s') -> 0 < e -> 0 < le -> handled s' id.
Proof using All.
  intros Hr He Hle.
  unfold add_order in Hr. bind_step Hr x s1 E1. injection Hr as <- <-. simpl in *.
  unfold db_add_order in E1. apply Z.ltb_lt in He, Hle. rewrite He, Hle in E1. simpl in E1.
  bind_step E1 y s2 E2. injection E1 as <- <-. left. simpl.
  destruct (sl_orders s2 !! id) eqn:Ei; [by rewrite Ei|]. rewrite lookup_insert_eq. by eexists.
Qed.

Lemma add_evolves id e le s r s' : add_order id e le s = (r, s') -> evolves s s'.
Proof using Type.
  unfold add_order, db_add_order. destruct ((0 <? e) && (0 <? le)) eqn:Hp.
  - unfold mbind at 1 2, ste_bind. destruct (statement s) as [x s1] eqn:E.
    apply statement_run in E as (Ht & Ho & Hl & [->|[m ->]]);
      [|intros [= _ <-]; apply sl_evolves_refl; [by rewrite Ht|done..]].
    cbn [change_orders note]. intros [= _ <-]. split; simpl; [by rewrite Ht|].
    exists [OrderAdded id e le]. rewrite Hl, Ho. split; [done|]. split.
    + intros i Hi. left. destruct (sl_orders s !! id) eqn:Ei; [done|].
      destruct (decide (i = id)) as [->|]; [rewrite lookup_insert_eq; by eexists|by rewrite lookup_insert_ne].
    + intros i e' le' [= -> -> ->]%list_elem_of_singleton _ _. left.
      destruct (sl_orders s !! id) eqn:Ei; [by rewrite Ei|]. rewrite lookup_insert_eq. by eexists.
  - cbn. intros [= _ <-]. split; simpl; [done|]. exists [OrderAdded id e le]. split; [done|].
    split; [by left|]. intros i e' le' [= -> -> ->]%list_elem_of_singleton He Hle.
    apply Z.ltb_lt in He, Hle. by rewrite He, Hle in Hp.
Qed.

Lemma locked_loop_evolves logs s r s' : process_locked_loop config logs s = (r, s') -> evolves s s'.
Proof using Type.
  revert s. induction logs as [|e logs IH]; intros s; simpl; [intros [= _ <-]; by apply sl_evolves_refl|].
  unfold mbind, ste_bind. destruct (process_locked_event config e s) as [x s1] eqn:E1.
  assert (evolves s s1) as H01.
  { unfold process_locked_event in E1. case_bool_decide; [injection E1 as _ <-; by apply sl_evolves_refl|].
    by apply add_evolves in E1. }
  destruct x as [[]|?|]; [|by intros [= _ <-]..]. intros Hr. eapply sl_evolves_trans; [done|by apply IH].
Qed.

Lemma locked_loop_handled logs s s' u :
  process_locked_loop config logs s = (Ok u, s') ->
  forall e, e ∈ logs -> followed e -> handled s' (rl_requestId e).
Proof using All.
  revert s. induction logs as [|e0 logs IH]; intros s; simpl; [by intros _ ? ?%elem_of_nil|].
  intros Hr. bind_step Hr x s1 E1. intros e [->|Hin]%elem_of_cons Hf; [|by eapply IH].
  eapply handled_evolves; [by eapply (locked_loop_evolves logs)|]. unfold process_locked_event in E1.
  destruct Hf as (F1 & F2 & F3). rewrite bool_decide_false in E1 by done. by eapply add_handled.
Qed.

(** The locks of the market by block, as a query for a range of blocks gives them. *)
Variable market_locks : list (Z * RequestLocked).
Hypothesis locks_queried : forall from to w ls, (locked_logs from to w).1 = inr ls ->
  forall b e, (b, e) ∈ market_locks -> from <= b <= to -> e ∈ ls.

(** Numbers of blocks are far from the end of their type. *)
Hypothesis heads_fit : forall w h,
  (head_number w).1 = inr h \/ (safe_block w).1 = inr (Some h) -> 0 <= h < 2 ^ 63.
Hypothesis range_fits : 1 <= max_block_range config < 2 ^ 63.
Hypothesis delay_unsigned : 0 <= block_confirmation_delay config.

Definition caught_up (from to : Z) (s : state) : Prop :=
  forall b e, (b, e) ∈ market_locks -> from <= b < to -> followed e -> handled s (rl_requestId e).

Lemma blocks_caught_up from to s s' u :
  process_blocks boundless_market config from to s = (Ok u, s') -> caught_up from (to + 1) s'.
Proof using All.
  intros Hr b e Hin Hb Hf. unfold process_blocks in Hr. bind_step Hr u1 s1 E1.
  eapply (handled_evolves s1).
  - apply (leads_evolves []). exact (keeps_after_locked from to [] s1 (Ok u) s' I Hr).
  - unfold process_locked_events in E1. bind_step E1 x s2 E2. apply at_node_run in E2 as ([= ->] & _).
    bind_step E1 ls s3 E3. destruct (locked_logs from to _).1 as [err|ls'] eqn:Eq; [done|].
    injection E3 as -> ->. eapply locked_loop_handled; [done| |done].
    eapply locks_queried; [done..|lia].
Qed.

Lemma current_block_fits s n s' : current_block config s = (Ok n, s') -> 0 <= n < 2 ^ 63.
Proof using All.
  assert (Hd : forall f s n s', (r ← at_node head_number; or_throw f r) s = (Ok n, s') -> 0 <= n < 2 ^ 63).
  { intros f s0 n0 s0' Hr. bind_step Hr x s1 E1. apply at_node_run in E1 as ([= ->] & _).
    destruct (head_number (ms_world (sl_ms s0))).1 as [e|h] eqn:Eh; [done|]. injection Hr as -> _.
    eapply heads_fit. by left. }
  unfold current_block. destruct (_ =? 0); [by apply Hd|]. intros Hr. bind_step Hr x s1 E1.
  apply at_node_run in E1 as ([= ->] & _).
  assert (Hl : forall s n s', (r ← at_node head_number; latest ← or_throw RpcError r;
            mret (sat_sub latest (block_confirmation_delay config))) s = (Ok n, s') -> 0 <= n < 2 ^ 63).
  { intros s0 n0 s0' Hr0. bind_step Hr0 x s2 E2. bind_step Hr0 l s3 E3. injection Hr0 as <- <-.
    assert (0 <= l < 2 ^ 63).
    { apply (Hd RpcError s0 l s3). unfold mbind, ste_bind. rewrite E2. exact E3. }
    unfold sat_sub. lia. }
  destruct (safe_block (ms_world (sl_ms s))).1 as [e|[h|]] eqn:Es; [by eapply Hl| |by eapply Hl].
  injection Hr as <- <-. eapply heads_fit. by right.
Qed.

Lemma next_chunk_fits from to :
  0 <= from <= to -> to < 2 ^ 63 -> from <= next_chunk config from to <= to.
Proof using All.
  intros Hf Ht. unfold next_chunk. rewrite wadd_small by (unfold fits; lia).
  rewrite wsub_small by (unfold fits; lia). lia.
Qed.

(** A turn goes on from where it is, or from behind the blocks that it has processed. *)
Lemma turn_caught_up from a s from' a' s' start :
  0 <= from <= 2 ^ 63 -> start <= from -> caught_up start from s ->
  turn boundless_market config from a s = (Ok (from', a'), s') ->
  from <= from' <= 2 ^ 63 /\ caught_up start from' s'.
Proof using All.
  intros Hf Hst Hc Hr. pose proof (leads_evolves _ _ _ (keeps_turn _ _ [] _ _ _ I Hr)) as He.
  assert (Hc' : caught_up start from s').
  { intros b e Hin Hb Hfo. eapply handled_evolves; [done|]. by eapply Hc. }
  unfold turn in Hr. bind_step Hr hb s1 E1. unfold catch in E1.
  destruct (current_block config s) as [[to|e|] s0] eqn:Ec; [| |done]; injection E1 as <- <-.
  2: { unfold check_attempts in Hr. destruct (_ <? _); [done|]. injection Hr as <- <- <-. split; [lia|done]. }
  apply current_block_fits in Ec. destruct (Z.ltb_spec to from); [injection Hr as <- <- <-; split; [lia|done]|].
  bind_step Hr db s2 E2. unfold catch in E2.
  destruct (process_blocks _ _ _ _ s0) as [[u|e|] s3] eqn:Ep; [| |done]; injection E2 as <- <-.
  - pose proof (next_chunk_fits from to ltac:(lia) ltac:(lia)). set (chunk := next_chunk config from to) in *.
    rewrite wadd_small in Hr by (unfold fits; lia). unfold check_attempts in Hr. destruct (_ <? _); [done|].
    injection Hr as <- <- <-. split; [lia|]. apply blocks_caught_up in Ep.
    intros b e Hin Hb Hfo. destruct (Z.lt_ge_cases b from).
    + apply (Hc' b e Hin); [lia|done].
    + apply (Ep b e Hin); [lia|done].
  - destruct (recoverable e); [|done]. unfold check_attempts in Hr. destruct (_ <? _); [done|].
    injection Hr as <- <- <-. by split; [lia|].
Qed.

Lemma loop_caught_up ticks from a s from' a' s' start :
  0 <= from <= 2 ^ 63 -> start <= from -> caught_up start from s ->
  slasher_loop boundless_market config ticks from a s = (Ok (from', a'), s') ->
  from <= from' /\ caught_up start from' s'.
Proof using All.
  revert from a s. induction ticks as [|ticks IH]; intros from a s Hf Hst Hc; simpl.
  - intros [= <- _ <-]. by split.
  - intros Hr. bind_step Hr p s1 E1. destruct p as [f1 a1].
    destruct (turn_caught_up _ _ _ _ _ _ start Hf Hst Hc E1) as [T1 T2].
    apply IH in Hr as [I1 I2]; [|lia|lia|done]. split; [lia|done].
Qed.
End Facts.

(** *** Reading leaves the block *)

Section Reading.
Context {W : Type} `{SlasherNode W}.

Lemma at_node_last {A} (m : st W A) s r s' : at_node m s = (r, s') -> sl_last_block s' = sl_last_block s.
Proof. unfold at_node. destruct (m _) as [a w]. by intros [= _ <-]. Qed.

Lemma statement_last (s : SlState W) r s' : statement s = (r, s') -> sl_last_block s' = sl_last_block s.
Proof.
  unfold statement, mbind, ste_bind. destruct (at_node _ s) as [x s1] eqn:E. apply at_node_last in E.
  destruct x as [[e|]|e|]; by intros [= _ <-].
Qed.

Lemma or_throw_same {A} f (r : string + A) (s : SlState W) x s' : or_throw f r s = (x, s') -> s' = s.
Proof. by destruct r; intros [= _ <-]. Qed.

Lemma current_block_last config (s : SlState W) x s' :
  current_block config s = (Ok x, s') -> sl_last_block s' = sl_last_block s.
Proof.
  unfold current_block. destruct (_ =? 0); intros Hr; bind_step Hr a s1 E1; apply at_node_last in E1.
  - apply or_throw_same in Hr as ->. done.
  - destruct a as [e|[n|]]; [|by injection Hr as _ <-|];
      (bind_step Hr b s2 E2; apply at_node_last in E2; bind_step Hr c s3 E3;
       apply or_throw_same in E3 as ->; injection Hr as _ <-; congruence).
Qed.
End Reading.

(** ** Theorems *)

Section Theorems.
Context `{Externals} `{ServiceAbi} {W : Type} `{MarketNode W} `{SlasherNode W} `{!ScanLaws W}.
Variables (boundless_market : ServiceSettings) (config : SlashServiceConfig).

(** C6. No lock is forgotten.  A run of the slasher, of any length and whatever the
    database answers, is a history in which each state follows from the one before by a
    question to the node, the database or the market, by storing an order, or by
    removing one: an order is stored with the deadlines of a lock that the node has
    answered, of a prover that is not skipped, and it is removed only for a reason that
    holds in that state of the run: a fulfillment that the node has answered, at a time
    not after the lock deadline in the stored row, a slash event, a slash of its own with
    a good receipt, a view that says it is slashed, or a refusal of the market that says
    so.  So an order of the table stays there or is removed for such a reason.  And while
    the loop runs, every lock of a prover that is not skipped, in any block from the one
    it started at up to the one it is to process next, was handled: its request is in the
    table, or was removed for such a reason; no block is left out, however the ranges are
    cut and whichever attempts failed.  The last part assumes of the node that a query for
    locks that it answers is complete: it has all locks of the market in its range. *)
Theorem slasher_forgets_no_lock (market_locks : list (Z * RequestLocked)) ticks starting_block
    ignore (s s' : SlState W) r :
  (forall from to w ls, (locked_logs from to w).1 = inr ls ->
     forall b e, (b, e) ∈ market_locks -> from <= b <= to -> e ∈ ls) ->
  (forall w h, (head_number w).1 = inr h \/ (safe_block w).1 = inr (Some h) -> 0 <= h < 2 ^ 63) ->
  1 <= max_block_range config < 2 ^ 63 -> 0 <= block_confirmation_delay config ->
  (forall n, starting_block = Some n \/ sl_last_block s = Some n -> 0 <= n < 2 ^ 63) ->
  sl_log s = [] ->
  slasher_run boundless_market config ticks starting_block ignore s = (r, s') ->
  (exists h, history boundless_market config s (s' :: h)
     /\ forall id why, OrderRemoved id why ∈ sl_log s' ->
          exists s1 h1, (s1 :: h1) `suffix_of` (s' :: h)
            /\ justified boundless_market s1 (s1 :: h1) id why)
  /\ (forall id, is_Some (sl_orders s !! id) -> handled s' id)
  /\ (forall from attempts, r = Ok (from, attempts) ->
        exists current start, 0 <= current < 2 ^ 63
          /\ start = starting_from ignore starting_block (sl_last_block s) current
          /\ start <= from
          /\ forall b e, (b, e) ∈ market_locks -> start <= b < from -> followed config e ->
               handled s' (rl_requestId e)).
Proof using All.
  intros Hq Hh Hm Hd Hs Hlog Hr.
  assert (He : leads boundless_market config [] s s').
  { assert (Hk : keeps_if boundless_market config (fun _ => True)
      (slasher_run boundless_market config ticks starting_block ignore)).
    { apply keeps_bind'; [apply keeps_current_block|]. intros current.
      apply keeps_bind'; [|intros last; by apply keeps_loop].
      apply keeps_bind'; [apply keeps_statement|]. intros _. apply keeps_last. }
    exact (Hk [] s r s' I Hr). }
  split_and!.
  - destruct He as [h Hh']. exists h. split; [done|]. by eapply history_removed.
  - intros id Hid. eapply handled_evolves; [by eapply leads_evolves|by left].
  - intros from attempts ->. unfold slasher_run in Hr. bind_step Hr current s1 E1.
    assert (Hc : 0 <= current < 2 ^ 63) by (by eapply current_block_fits).
    bind_step Hr lb s2 E2.
    assert (lb = sl_last_block s) as ->.
    { unfold db_get_last_block in E2. bind_step E2 u s3 E3. injection E2 as <- <-.
      rewrite (statement_last _ _ _ E3). by rewrite (current_block_last _ _ _ _ E1). }
    set (start := starting_from _ _ _ _) in Hr. exists current, start. split; [done|]. split; [done|].
    assert (Hst : 0 <= start < 2 ^ 63).
    { subst start. unfold starting_from. destruct ignore as [[]|], starting_block, (sl_last_block s);
        try done; apply Hs; by (left + right). }
    eapply (loop_caught_up boundless_market) in Hr; [exact Hr|done..|lia|lia|].
    intros b e _ Hb. lia.
Qed.

(** C19. A pass over the expired orders.  Either the time of the block or the table could
    not be read, and nothing has changed; or the only transactions that were sent are
    slashes of requests of the table whose deadline is before the time of the block, every
    other order is as it was, and when the pass succeeds each expired order is out of the
    table, or still in it because the node said that its slash is on its way. *)
Theorem expired_requests_settled n (s s' : SlState W) r :
  process_expired_requests boundless_market n s = (r, s') ->
  (r <> Ok tt /\ ms_txs (sl_ms s') = ms_txs (sl_ms s) /\ sl_orders s' = sl_orders s)
  \/ exists ts, (timestamp_of n (ms_world (sl_ms s))).1 = inr (Some ts)
     /\ (exists l, ms_txs (sl_ms s') = ms_txs (sl_ms s) ++ l
          /\ forall c h, Sent c h ∈ l -> exists id, c = CallSlash id /\ expired ts s id)
     /\ (forall id, ~ expired ts s id -> sl_orders s' !! id = sl_orders s !! id)
     /\ (r = Ok tt -> forall id, expired ts s id ->
          sl_orders s' !! id = None
          \/ (sl_orders s' !! id = sl_orders s !! id /\ is_on_its_way boundless_market id)).
Proof using ScanLaws0.
  intros Hr. destruct (expired_requests_pass boundless_market (mkSlashConfig 0 [] 0 0) [] _ _ _ _ Hr)
    as [(A1 & A2 & A3 & _)|(ts & ids & Hw & Hids & Hs)]; [by left|right].
  destruct Hs as [_ (l & Hl & Hsent) Ho Hd]. exists ts. split_and!; [done| | |].
  - exists l. split; [done|]. intros c h Hin. destruct (Hsent c h Hin) as (id & -> & Hid).
    exists id. split; [done|]. by apply Hids.
  - intros id Hid. apply Ho. by rewrite Hids.
  - intros Hok id Hid. apply Hd; [done|]. by apply Hids.
Qed.
End Theorems.

(** ** A market of two locks

    Request 5 is locked in block 10 by prover 1 and expires at second 1090; request 6 is
    locked in block 11 by a prover that is skipped. *)

Module ToySlasher.

#[export] Instance externals : Externals := ToyNode.toy_externals.

#[export] Instance abi : ServiceAbi := {|
  REQUEST_SUBMITTED_HASH := 2;
  PROVER_SLASHED_HASH := 1;
  decode_request_submitted := fun _ => None;
  decode_prover_slashed := fun _ => Some (mkProverSlashed 5 50 50 0);
  hash_url := fun _ => [];
  hash_input := fun _ => [];
  hash_offer := fun _ => [];
  encode_fulfill := fun _ => [];
  decode_submit_request := fun _ => None;
  permit_signing_hash := fun _ _ => [];
  market_error_debug := fun _ => ""%string
|}.

#[export] Instance node : MarketNode Z := ToyNode.node.

Definition locks : list (Z * RequestLocked) :=
  [(10, mkLocked 5 1 sample_request []); (11, mkLocked 6 2 sample_request [])].

#[export] Instance slasher_node : SlasherNode Z := {
  head_number := ToyNode.answer (inr 30);
  safe_block := ToyNode.answer (inr (Some 28));
  timestamp_of := fun n => ToyNode.answer (inr (Some (1070 + n)));
  locked_logs := fun from to => ToyNode.answer (inr
    ((filter (fun x => from <= x.1 <= to) locks).*2));
  slashed_logs := fun _ _ => ToyNode.answer (inr []);
  fulfilled_logs := fun _ _ => ToyNode.answer (inr []);
  sql_fails := ToyNode.answer None;
  scan := fun l => l;
  market_error_text := fun _ => ""%string
}.

#[export] Instance scan_laws : ScanLaws Z.
Proof. by split. Qed.

Definition config : SlashServiceConfig := mkSlashConfig 3 [2] 12 2.

Definition start : SlState Z := mkSl ToyNode.start ∅ None [].
End ToySlasher.
Import ToySlasher.

Lemma toy_locks_queried from to (w : Z) ls :
  (locked_logs from to w).1 = inr ls ->
  forall b e, (b, e) ∈ locks -> from <= b <= to -> e ∈ ls.
Proof.
  intros [= <-] b e Hin Hb. apply list_elem_of_fmap. exists (b, e). split; [done|].
  by apply list_elem_of_filter.
Qed.

(** Three turns of the loop: the lock is found, expires, and is slashed. *)
Lemma toy_run : exists s',
  slasher_run ToyNode.settings config 3 (Some 5) None start = (Ok (29, 0), s')
  /\ OrderRemoved 5 SlashSucceeded ∈ sl_log s' /\ sl_orders s' = ∅.
Proof.
  eexists. split; [vm_compute; reflexivity|]. split; [|vm_compute; reflexivity].
  right. right. by left.
Qed.

Lemma slasher_forgets_no_lock_witness :
  exists s', slasher_run ToyNode.settings config 3 (Some 5) None start = (Ok (29, 0), s')
  /\ OrderRemoved 5 SlashSucceeded ∈ sl_log s'
  /\ (exists h, history ToyNode.settings config start (s' :: h))
  /\ exists current st, 0 <= current < 2 ^ 63
      /\ st = starting_from None (Some 5) (sl_last_block start) current /\ st <= 29
      /\ forall b e, (b, e) ∈ locks -> st <= b < 29 -> followed config e -> handled s' (rl_requestId e).
Proof.
  destruct toy_run as (s' & Hr & Hin & _).
  destruct (slasher_forgets_no_lock ToyNode.settings config locks 3 (Some 5) None start s' (Ok (29, 0)))
    as ((h & A1 & _) & _ & A3).
  - exact toy_locks_queried.
  - intros w h [[= <-]|[= <-]]; lia.
  - simpl. lia.
  - simpl. lia.
  - intros n [[= <-]|E]; [lia|discriminate].
  - reflexivity.
  - exact Hr.
  - exists s'. split; [exact Hr|]. split; [exact Hin|]. split; [exists h; exact A1|].
    by apply (A3 29 0).
Defined.

Definition toy_table : SlState Z := mkSl ToyNode.start {[5 := (1090, 1060); 8 := (2000, 1500)]} None [].

Lemma toy_pass : exists s',
  process_expired_requests ToyNode.settings 28 toy_table = (Ok tt, s')
  /\ map_to_list (sl_orders s') = [(8, (2000, 1500))].
Proof. eexists. split; vm_compute; reflexivity. Qed.

Lemma expired_requests_settled_witness :
  exists s', process_expired_requests ToyNode.settings 28 toy_table = (Ok tt, s')
  /\ exists ts, expired ts toy_table 5
     /\ (sl_orders s' !! 5 = None \/ is_on_its_way ToyNode.settings 5).
Proof.
  destruct toy_pass as (s' & Hr & _). exists s'. split; [exact Hr|].
  destruct (expired_requests_settled ToyNode.settings 28 toy_table s' (Ok tt) Hr)
    as [(Hn & _)|(ts & Hts & _ & _ & Hd)]; [by destruct Hn|].
  simpl in Hts. injection Hts as <-. exists 1098.
  assert (He : expired 1098 toy_table 5) by (exists (1090, 1060); split; [reflexivity|by vm_compute]).
  split; [exact He|]. destruct (Hd eq_refl 5 He) as [Hl|[_ Hl]]; [by left|by right].
Defined.
