(* ===== verification/Povw.v ===== *)
(** * Proof of verifiable work: log updates and the calculation of mints

    [crates/povw]: the guest that authorizes an update of a work log ([log_updater.rs] and
    [log-updater/src/main.rs]), the guest that calculates the rewards of finalized epochs
    ([mint_calculator.rs] and [mint-calculator/src/main.rs]), and the host that prepares
    its input.  Addresses, commitments and amounts are [Z]; a [BTreeMap] is a [gmap] that
    is walked in the order of its keys ([by_key]).  Failed assertions and [unwrap]s of a
    guest are [Panic]: there is then no journal.  The theorems are in [PovwFacts]. *)

From S2P Require Import Prelude Market.

Local Open Scope Z_scope.

(** The pairs of a map by key. *)
Definition by_key {V} (m : gmap Z V) : list (Z * V) := stable_sort fst (map_to_list m).

(** ** Work log updates *)

Record LogBuilderJournal := mkLogBuilderJournal {
  self_image_id : Z;
  work_log_id : Z;
  initial_commit : Z;
  updated_commit : Z;
  update_value : Z
}.

Record WorkLogUpdate := mkWorkLogUpdate {
  workLogId : Z;
  initialCommit : Z;
  updatedCommit : Z;
  updateValue : Z;
  valueRecipient : Z
}.

(** The input of the log updater. *)
Record LogInput := mkLogInput {
  li_update : LogBuilderJournal;
  li_value_recipient : Z;
  li_signature : bytes;
  li_contract_address : Z;
  li_chain_id : Z
}.

Record LogJournal := mkLogJournal { lj_update : WorkLogUpdate; lj_eip712Domain : bytes }.

(** The signatures of alloy, the log builder and the encodings. *)
Class PovwExternals := {
  log_builder_id : Z;
  journal_encode : LogBuilderJournal -> option bytes;
  (** [env::verify]: the claim has a proof that the receipt rests on. *)
  env_verify : Z -> bytes -> bool;
  log_input_encode : LogInput -> option bytes;
  log_input_decode : bytes -> option LogInput;
  log_journal_encode : LogJournal -> bytes;
  domain_hash_struct : EIP712DomainSaltless -> bytes;
  update_signing_hash : EIP712DomainSaltless -> WorkLogUpdate -> bytes;
  povw_sig_parse : bytes -> option Z;
  povw_sig_noncanonical : Z -> bool;
  povw_sig_recover : Z -> bytes -> option Z
}.

Section LogUpdater.
Context `{PovwExternals}.

Definition from_log_builder_journal (journal : LogBuilderJournal) (value_recipient : Z)
    : WorkLogUpdate :=
  mkWorkLogUpdate (work_log_id journal) (initial_commit journal) (updated_commit journal)
    (update_value journal) value_recipient.

Definition povw_domain (contract_addr chain_id : Z) : EIP712DomainSaltless :=
  mkDomain "PovwAccounting" "1" chain_id contract_addr.

Definition work_log_signing_hash (self : WorkLogUpdate) (contract_addr chain_id : Z) : bytes :=
  update_signing_hash (povw_domain contract_addr chain_id) self.

(** [WorkLogUpdate::verify_signature]. *)
Definition update_verify_signature (self : WorkLogUpdate) (signer : Z) (signature : bytes)
    (contract_addr chain_id : Z) : result string unit :=
  sig ← ok_or "signature"%string (povw_sig_parse signature);
  if povw_sig_noncanonical sig then Err "invalid signature: not normalized s-value"%string else
  addr ← ok_or "signature"%string
           (povw_sig_recover sig (work_log_signing_hash self contract_addr chain_id));
  if addr =? signer then Ok tt else Err "recovered signer does not match expected"%string.

(** A failure of a fallible call ends the guest. *)
Definition guest_expect {A} (m : result string A) : result string A :=
  match m with Ok a => Ok a | _ => Panic end.

Definition guest_assert (b : bool) : result string unit := if b then Ok tt else Panic.

(** [main] of the log updater: the bytes that it commits. *)
Definition log_updater_main (frame : bytes) : result string bytes :=
  input ← unwrap (log_input_decode frame);
  encoded ← unwrap (journal_encode (li_update input));
  _ ← guest_assert (env_verify log_builder_id encoded);
  _ ← guest_assert (self_image_id (li_update input) =? log_builder_id);
  _ ← guest_assert (negb (li_value_recipient input =? 0));
  let update := from_log_builder_journal (li_update input) (li_value_recipient input) in
  _ ← guest_expect (update_verify_signature update (workLogId update) (li_signature input)
                      (li_contract_address input) (li_chain_id input));
  mret (log_journal_encode (mkLogJournal update
    (domain_hash_struct (povw_domain (li_contract_address input) (li_chain_id input))))).

(** [InputBuilder]: what has been set. *)
Record InputBuilder := mkInputBuilder {
  ib_update : option LogBuilderJournal;
  ib_value_recipient : option Z;
  ib_signature : option bytes;
  ib_contract_address : option Z;
  ib_chain_id : option Z
}.

(** The derived [build]: every field has to be set. *)
Definition input_build (self : InputBuilder) : result string LogInput :=
  update ← ok_or "update"%string (ib_update self);
  value_recipient ← ok_or "value_recipient"%string (ib_value_recipient self);
  signature ← ok_or "signature"%string (ib_signature self);
  contract_address ← ok_or "contract_address"%string (ib_contract_address self);
  chain_id ← ok_or "chain_id"%string (ib_chain_id self);
  mret (mkLogInput update value_recipient signature contract_address chain_id).

(** [sign_and_build], with a signer given by its address and how it signs a hash. *)
Definition sign_and_build (signer_address : Z) (sign_hash : bytes -> result string bytes)
    (self : InputBuilder) : result string LogInput :=
  match ib_signature self with
  | Some _ => Err "Cannot sign input, input already has a signature"%string
  | None =>
      update ← ok_or "update"%string (ib_update self);
      contract_address ← ok_or "contract_address"%string (ib_contract_address self);
      chain_id ← ok_or "chain_id"%string (ib_chain_id self);
      if negb (signer_address =? work_log_id update)
      then Err "Signer does not match work log ID"%string else
      let value_recipient := default signer_address (ib_value_recipient self) in
      signature ← sign_hash (work_log_signing_hash
                    (from_log_builder_journal update value_recipient) contract_address chain_id);
      input_build (mkInputBuilder (ib_update self) (Some value_recipient) (Some signature)
                     (ib_contract_address self) (ib_chain_id self))
  end.

(** [LogUpdaterProver::prove_update] up to the call of the prover: the frame that the
    guest reads. *)
Definition prove_update_frame (contract_address chain_id : Z) (value_recipient : option Z)
    (signer_address : Z) (sign_hash : bytes -> result string bytes)
    (log_builder_journal : option LogBuilderJournal) : result string bytes :=
  update ← ok_or "failed to deserialize LogBuilderJournal from receipt"%string log_builder_journal;
  input ← map_err (fun _ => "failed to create signed input"%string)
            (sign_and_build signer_address sign_hash
               (mkInputBuilder (Some update) (Some (default signer_address value_recipient)) None
                  (Some contract_address) (Some chain_id)));
  ok_or "encode"%string (log_input_encode input).
End LogUpdater.

(** ** Fixed-point fractions *)

Module FixedPoint.
Definition BITS : Z := 128.
Definition BASE : Z := 2 ^ BITS.

(** [checked_mul] and [checked_add] of [U256], unwrapped. *)
Definition mul_256 (x y : Z) : result string Z := if x * y <? 2 ^ 256 then Ok (x * y) else Panic.
Definition add_256 (x y : Z) : result string Z := if x + y <? 2 ^ 256 then Ok (x + y) else Panic.

Definition fraction (num dem : Z) : result string Z :=
  scaled ← mul_256 num BASE;
  fraction ← checked_quot scaled dem;
  if fraction <=? BASE then Ok fraction else Panic.

Definition mul_unwrap (self x : Z) : result string Z :=
  product ← mul_256 self x; mret (Z.shiftr product BITS).

Definition add (self rhs : Z) : result string Z := add_256 self rhs.
End FixedPoint.

(** ** The chain, as the guest sees it *)

Record EpochFinalized := mkEpochFinalized { ef_epoch : Z; ef_totalWork : Z }.

Record WorkLogUpdated := mkWorkLogUpdated {
  ev_workLogId : Z;
  ev_epochNumber : Z;
  ev_initialCommit : Z;
  ev_updatedCommit : Z;
  ev_updateValue : Z;
  ev_valueRecipient : Z
}.

(** The questions that are put to the environment of a block. *)
Inductive Query (Commitment : Type) :=
| QVerify (prev : Commitment)
| QEpochFinalized (address : Z)
| QWorkLogUpdated (address : Z)
| QWorkLogCommit (address log_id : Z)
| QPoVWEmissions (zkc epoch : Z)
| QEpochEndTime (zkc epoch : Z)
| QPastPoVWRewardCap (rewards account timepoint : Z).
Arguments QVerify {Commitment} prev.
Arguments QEpochFinalized {Commitment} address.
Arguments QWorkLogUpdated {Commitment} address.
Arguments QWorkLogCommit {Commitment} address log_id.
Arguments QPoVWEmissions {Commitment} zkc epoch.
Arguments QEpochEndTime {Commitment} zkc epoch.
Arguments QPastPoVWRewardCap {Commitment} rewards account timepoint.

(** Steel: the environment of a block answers from data that is proven to be on the
    chain of its commitment. *)
Class Steel (Env EvmInput Spec Commitment : Type) := {
  chain_spec : Z -> option Spec;
  into_env : EvmInput -> Spec -> option Env;
  header_number : Env -> Z;
  env_commitment : Env -> Commitment;
  verifies : Env -> Commitment -> bool;
  epoch_finalized_events : Env -> Z -> list EpochFinalized;
  work_log_updated_events : Env -> Z -> list WorkLogUpdated;
  work_log_commit : Env -> Z -> Z -> Z;
  povw_emissions : Env -> Z -> Z -> Z;
  epoch_end_time : Env -> Z -> Z -> Z;
  past_reward_cap : Env -> Z -> Z -> Z -> Z
}.

(** [WorkLogFilter]. *)
Definition WorkLogFilter : Type := option (gset Z).
Definition filter_any : WorkLogFilter := None.
Definition filter_none : WorkLogFilter := Some ∅.
Definition includes (self : WorkLogFilter) (log_id : Z) : bool :=
  match self with Some s => bool_decide (log_id ∈ s) | None => true end.
Definition filter_from_iter (l : list Z) : WorkLogFilter := Some (list_to_set l).

Record MintInput (EvmInput : Type) := mkMintInput {
  povw_accounting_address : Z;
  zkc_address : Z;
  zkc_rewards_address : Z;
  mint_chain_id : Z;
  mint_env : list EvmInput;
  work_log_filter : WorkLogFilter
}.
Arguments mkMintInput {EvmInput} _ _ _ _ _ _.
Arguments povw_accounting_address {EvmInput} _.
Arguments zkc_address {EvmInput} _.
Arguments zkc_rewards_address {EvmInput} _.
Arguments mint_chain_id {EvmInput} _.
Arguments mint_env {EvmInput} _.
Arguments work_log_filter {EvmInput} _.

Record MintCalculatorMint := mkMint { mint_recipient : Z; mint_value : Z }.

Record MintCalculatorUpdate := mkMintUpdate {
  mu_workLogId : Z;
  mu_initialCommit : Z;
  mu_updatedCommit : Z
}.

Record MintCalculatorJournal (Commitment : Type) := mkMintJournal {
  mj_mints : list MintCalculatorMint;
  mj_updates : list MintCalculatorUpdate;
  mj_povwAccountingAddress : Z;
  mj_zkcRewardsAddress : Z;
  mj_zkcAddress : Z;
  mj_steelCommit : Commitment
}.
Arguments mkMintJournal {Commitment} _ _ _ _ _ _.
Arguments mj_mints {Commitment} _.
Arguments mj_updates {Commitment} _.
Arguments mj_povwAccountingAddress {Commitment} _.
Arguments mj_zkcRewardsAddress {Commitment} _.
Arguments mj_zkcAddress {Commitment} _.
Arguments mj_steelCommit {Commitment} _.

(** [RewardWeightMap]: epoch, work log, recipient. *)
Abbreviation RewardWeightMap := (gmap Z (gmap Z (gmap Z Z))).

(** ** The mint calculator *)

Section MintCalculator.
Context {Env EvmInput Spec Commitment : Type} `{Steel Env EvmInput Spec Commitment}.

(** What has been asked so far, with the block it was asked of. *)
Definition Trace : Type := list (Z * Query Commitment).

Abbreviation gm A := (ste Trace string A).

Definition ask {A} (env : Env) (q : Query Commitment) (answer : A) : gm A :=
  fun asked => (Ok answer, asked ++ [(header_number env, q)]).

Definition assert (b : bool) : gm unit := liftr (guest_assert b).

(** [MultiblockEthEvmInput::into_env]: a block that is given twice is a panic. *)
Fixpoint collect_envs (spec : Spec) (inputs : list EvmInput) (envs : gmap Z Env)
    : gm (gmap Z Env) :=
  match inputs with
  | [] => mret envs
  | i :: inputs =>
      env ← liftr (unwrap (into_env i spec));
      match envs !! header_number env with
      | Some _ => liftr Panic
      | None => collect_envs spec inputs (<[header_number env := env]> envs)
      end
  end.

(** The blocks by number. *)
Definition blocks (envs : gmap Z Env) : list Env := snd <$> by_key envs.

(** [verify_continuity]: each block verifies the commitment of the one before. *)
Fixpoint verify_from (env_prev : Env) (envs : list Env) : gm unit :=
  match envs with
  | [] => mret tt
  | env :: envs =>
      ok ← ask env (QVerify (env_commitment env_prev)) (verifies env (env_commitment env_prev));
      _ ← assert ok;
      verify_from env envs
  end.

Definition verify_continuity (envs : list Env) : gm unit :=
  match envs with [] => mret tt | env :: envs => verify_from env envs end.

Definition into_envs (spec : Spec) (inputs : list EvmInput) : gm (gmap Z Env) :=
  envs ← collect_envs spec inputs ∅;
  _ ← verify_continuity (blocks envs);
  mret envs.

(** The commitment of the last block. *)
Definition commitment (envs : gmap Z Env) : option Commitment :=
  env_commitment <$> last (blocks envs).

(** *** The finalized epochs *)

Fixpoint insert_epochs (number : Z) (events : list EpochFinalized)
    (latest : option Z) (epochs : gmap Z Z) : gm (option Z * gmap Z Z) :=
  match events with
  | [] => mret (latest, epochs)
  | e :: events =>
      match epochs !! ef_epoch e with
      | Some _ => liftr Panic
      | None => insert_epochs number events (Some number)
                  (<[ef_epoch e := ef_totalWork e]> epochs)
      end
  end.

Fixpoint finalized_epochs (address : Z) (envs : list Env) (latest : option Z)
    (epochs : gmap Z Z) : gm (option Z * gmap Z Z) :=
  match envs with
  | [] => mret (latest, epochs)
  | env :: envs =>
      events ← ask env (QEpochFinalized address) (epoch_finalized_events env address);
      '(latest, epochs) ← insert_epochs (header_number env) events latest epochs;
      finalized_epochs address envs latest epochs
  end.

(** *** The updates *)

Definition get3 (m : RewardWeightMap) (epoch log recipient : Z) : Z :=
  default 0 (default ∅ (default ∅ (m !! epoch) !! log) !! recipient).

(** [*entry.entry.entry += ...]. *)
Definition add_weight (epoch log recipient weight : Z) (m : RewardWeightMap)
    : result string RewardWeightMap :=
  sum ← FixedPoint.add (get3 m epoch log recipient) weight;
  let by_log := default ∅ (m !! epoch) in
  mret (<[epoch := <[log := <[recipient := sum]> (default ∅ (by_log !! log))]> by_log]> m).

Definition chain_update (e : WorkLogUpdated) (updates : gmap Z (Z * Z))
    : result string (gmap Z (Z * Z)) :=
  match updates !! ev_workLogId e with
  | None => Ok (<[ev_workLogId e := (ev_initialCommit e, ev_updatedCommit e)]> updates)
  | Some (first, latest) =>
      _ ← guest_assert (latest =? ev_initialCommit e);
      Ok (<[ev_workLogId e := (first, ev_updatedCommit e)]> updates)
  end.

(** What an event adds to the weights. *)
Definition weigh (e : WorkLogUpdated) (epoch_total_work : Z) (m : RewardWeightMap)
    : result string RewardWeightMap :=
  if 0 <? ev_updateValue e then
    weight ← FixedPoint.fraction (ev_updateValue e) epoch_total_work;
    add_weight (ev_epochNumber e) (ev_workLogId e) (ev_valueRecipient e) weight m
  else mret m.

Fixpoint apply_updates (filter : WorkLogFilter) (epochs : gmap Z Z)
    (events : list WorkLogUpdated) (weights : RewardWeightMap) (updates : gmap Z (Z * Z))
    : result string (RewardWeightMap * gmap Z (Z * Z)) :=
  match events with
  | [] => mret (weights, updates)
  | e :: events =>
      if negb (includes filter (ev_workLogId e))
      then apply_updates filter epochs events weights updates else
      match epochs !! ev_epochNumber e with
      | None => apply_updates filter epochs events weights updates
      | Some epoch_total_work =>
          updates ← chain_update e updates;
          weights ← weigh e epoch_total_work weights;
          apply_updates filter epochs events weights updates
      end
  end.

Fixpoint collect_updates (address : Z) (filter : WorkLogFilter) (epochs : gmap Z Z)
    (envs : list Env) (weights : RewardWeightMap) (updates : gmap Z (Z * Z))
    : gm (RewardWeightMap * gmap Z (Z * Z)) :=
  match envs with
  | [] => mret (weights, updates)
  | env :: envs =>
      events ← ask env (QWorkLogUpdated address) (work_log_updated_events env address);
      '(weights, updates) ← liftr (apply_updates filter epochs events weights updates);
      collect_updates address filter epochs envs weights updates
  end.

(** *** Completeness: the last update of each log is its commitment at the end *)

Fixpoint check_completeness (address : Z) (env : Env) (updates : list (Z * (Z * Z))) : gm unit :=
  match updates with
  | [] => mret tt
  | (log_id, (_, updated_commit)) :: updates =>
      final_commit ← ask env (QWorkLogCommit address log_id) (work_log_commit env address log_id);
      _ ← assert (final_commit =? updated_commit);
      check_completeness address env updates
  end.

(** *** The rewards *)

(** The recipients of one log in one epoch share its cap, in the order of their
    addresses. *)
Fixpoint assign_rewards (emissions : Z) (weights : list (Z * Z)) (reward_cap : Z)
    (rewards : gmap Z Z) : result string (gmap Z Z) :=
  match weights with
  | [] => mret rewards
  | (recipient, weight) :: weights =>
      uncapped_reward ← FixedPoint.mul_unwrap weight emissions;
      let reward := Z.min uncapped_reward reward_cap in
      let rewards :=
        if 0 <? reward
        then <[recipient := wadd 256 (default 0 (rewards !! recipient)) reward]> rewards
        else rewards in
      assign_rewards emissions weights (sat_sub reward_cap reward) rewards
  end.

Fixpoint log_rewards (zkc_rewards : Z) (env : Env) (emissions end_time : Z)
    (logs : list (Z * gmap Z Z)) (rewards : gmap Z Z) : gm (gmap Z Z) :=
  match logs with
  | [] => mret rewards
  | (log_id, weights) :: logs =>
      reward_cap ← ask env (QPastPoVWRewardCap zkc_rewards log_id end_time)
                     (past_reward_cap env zkc_rewards log_id end_time);
      rewards ← liftr (assign_rewards emissions (by_key weights) reward_cap rewards);
      log_rewards zkc_rewards env emissions end_time logs rewards
  end.

Fixpoint epoch_rewards (zkc zkc_rewards : Z) (env : Env)
    (epochs : list (Z * gmap Z (gmap Z Z))) (rewards : gmap Z Z) : gm (gmap Z Z) :=
  match epochs with
  | [] => mret rewards
  | (epoch, logs) :: epochs =>
      emissions ← ask env (QPoVWEmissions zkc epoch) (povw_emissions env zkc epoch);
      end_time ← ask env (QEpochEndTime zkc epoch) (epoch_end_time env zkc epoch);
      rewards ← log_rewards zkc_rewards env emissions end_time (by_key logs) rewards;
      epoch_rewards zkc zkc_rewards env epochs rewards
  end.

(** [main] of the mint calculator, from the decoded input to the journal. *)
Definition mint_calculator (input : MintInput EvmInput) : gm (MintCalculatorJournal Commitment) :=
  spec ← liftr (unwrap (chain_spec (mint_chain_id input)));
  envs ← into_envs spec (mint_env input);
  let address := povw_accounting_address input in
  '(latest, epochs) ← finalized_epochs address (blocks envs) None ∅;
  '(weights, updates) ← collect_updates address (work_log_filter input) epochs (blocks envs) ∅ ∅;
  latest ← liftr (unwrap latest);
  completeness_check_env ← liftr (unwrap (envs !! wsub 64 latest 1));
  _ ← check_completeness address completeness_check_env (by_key updates);
  finalization_env ← liftr (unwrap (envs !! latest));
  rewards ← epoch_rewards (zkc_address input) (zkc_rewards_address input) finalization_env
              (by_key weights) ∅;
  commit ← liftr (unwrap (commitment envs));
  mret (mkMintJournal
    ((fun '(recipient, value) => mkMint recipient value) <$> by_key rewards)
    ((fun '(log_id, (first, latest)) => mkMintUpdate log_id first latest) <$> by_key updates)
    address (zkc_rewards_address input) (zkc_address input) commit).

(** *** The host *)

(** Steel on the host: building the environment of a block asks a node, and so does each
    question; the answers of the node are those of the environment. *)
Class SteelHost := {
  build_env : Z -> result string Env;
  node_answers : Env -> Query Commitment -> bool;
  env_input : Env -> result string EvmInput
}.

Section Host.
Context `{SteelHost}.

Definition preflight {A} (env : Env) (q : Query Commitment) (answer : A) : gm A :=
  if node_answers env q then ask env q answer else throw "failed to query"%string.

(** [MultiblockEthEvmEnvBuilder::get_or_insert]. *)
Definition get_or_insert (block_number : Z) (envs : gmap Z Env) : gm (Env * gmap Z Env) :=
  match envs !! block_number with
  | Some env => mret (env, envs)
  | None =>
      env ← liftr (build_env block_number);
      mret (env, <[header_number env := env]> envs)
  end.

Fixpoint host_epochs (address : Z) (block_numbers : list Z) (latest : option Z)
    (epochs : gset Z) (envs : gmap Z Env) : gm (option Z * gset Z * gmap Z Env) :=
  match block_numbers with
  | [] => mret (latest, epochs, envs)
  | n :: block_numbers =>
      '(env, envs) ← get_or_insert n envs;
      events ← preflight env (QEpochFinalized address) (epoch_finalized_events env address);
      host_epochs address block_numbers
        (if bool_decide (events = []) then latest else Some (header_number env))
        (list_to_set (ef_epoch <$> events) ∪ epochs) envs
  end.

(** The updates that decide which calls are prepared. *)
Fixpoint host_updates (filter : WorkLogFilter) (epochs : gset Z) (events : list WorkLogUpdated)
    (epoch_work_logs : gmap Z (gset Z)) (work_logs : gset Z) : gmap Z (gset Z) * gset Z :=
  match events with
  | [] => (epoch_work_logs, work_logs)
  | e :: events =>
      if negb (includes filter (ev_workLogId e))
      then host_updates filter epochs events epoch_work_logs work_logs else
      if negb (bool_decide (ev_epochNumber e ∈ epochs))
      then host_updates filter epochs events epoch_work_logs work_logs else
      let work_logs := {[ev_workLogId e]} ∪ work_logs in
      if ev_updateValue e =? 0
      then host_updates filter epochs events epoch_work_logs work_logs else
      host_updates filter epochs events
        (<[ev_epochNumber e :=
             {[ev_workLogId e]} ∪ default ∅ (epoch_work_logs !! ev_epochNumber e)]> epoch_work_logs)
        work_logs
  end.

Fixpoint host_collect (address : Z) (filter : WorkLogFilter) (epochs : gset Z)
    (block_numbers : list Z) (epoch_work_logs : gmap Z (gset Z)) (work_logs : gset Z)
    (envs : gmap Z Env) : gm (gmap Z (gset Z) * gset Z * gmap Z Env) :=
  match block_numbers with
  | [] => mret (epoch_work_logs, work_logs, envs)
  | n :: block_numbers =>
      '(env, envs) ← get_or_insert n envs;
      events ← preflight env (QWorkLogUpdated address) (work_log_updated_events env address);
      let '(epoch_work_logs, work_logs) :=
        host_updates filter epochs events epoch_work_logs work_logs in
      host_collect address filter epochs block_numbers epoch_work_logs work_logs envs
  end.

Fixpoint preflight_commits (address : Z) (env : Env) (work_logs : list Z) : gm unit :=
  match work_logs with
  | [] => mret tt
  | log_id :: work_logs =>
      _ ← preflight env (QWorkLogCommit address log_id) (work_log_commit env address log_id);
      preflight_commits address env work_logs
  end.

Fixpoint preflight_caps (zkc_rewards : Z) (env : Env) (end_time : Z) (work_logs : list Z) : gm unit :=
  match work_logs with
  | [] => mret tt
  | log_id :: work_logs =>
      _ ← preflight env (QPastPoVWRewardCap zkc_rewards log_id end_time)
            (past_reward_cap env zkc_rewards log_id end_time);
      preflight_caps zkc_rewards env end_time work_logs
  end.

Fixpoint preflight_rewards (zkc zkc_rewards : Z) (env : Env)
    (epoch_work_logs : list (Z * gset Z)) : gm unit :=
  match epoch_work_logs with
  | [] => mret tt
  | (epoch, work_log_ids) :: epoch_work_logs =>
      _ ← preflight env (QPoVWEmissions zkc epoch) (povw_emissions env zkc epoch);
      end_time ← preflight env (QEpochEndTime zkc epoch) (epoch_end_time env zkc epoch);
      _ ← preflight_caps zkc_rewards env end_time (stable_sort id (elements work_log_ids));
      preflight_rewards zkc zkc_rewards env epoch_work_logs
  end.

(** [preflight_verify_continuity]. *)
Fixpoint preflight_verify_from (env_prev : Env) (envs : list Env) : gm unit :=
  match envs with
  | [] => mret tt
  | env :: envs =>
      ok ← preflight env (QVerify (env_commitment env_prev))
             (verifies env (env_commitment env_prev));
      if (ok : bool) then preflight_verify_from env envs
      else throw "failed to preflight SteelVerifier verify"%string
  end.

Definition preflight_verify_continuity (envs : list Env) : gm unit :=
  match envs with [] => mret tt | env :: envs => preflight_verify_from env envs end.

(** [Input::build] on a set of block numbers. *)
Definition mint_input_build (address zkc zkc_rewards chain_id : Z) (block_numbers : gset Z)
    (filter : WorkLogFilter) : gm (MintInput EvmInput) :=
  let numbers := stable_sort id (elements block_numbers) in
  '(latest, epochs, envs) ← host_epochs address numbers None ∅ ∅;
  latest ← liftr (ok_or "No EpochFinalized events in the given blocks"%string latest);
  '(epoch_work_logs, work_logs, envs) ← host_collect address filter epochs numbers ∅ ∅ envs;
  let check_number := wsub 64 latest 1 in
  '(check_env, envs) ← get_or_insert check_number envs;
  _ ← (if bool_decide (check_number ∈ block_numbers) then mret tt else
         _ ← preflight check_env (QEpochFinalized address) (epoch_finalized_events check_env address);
         _ ← preflight check_env (QWorkLogUpdated address) (work_log_updated_events check_env address);
         mret tt);
  _ ← preflight_commits address check_env (stable_sort id (elements work_logs));
  '(finalization_env, envs) ← get_or_insert latest envs;
  _ ← preflight_rewards zkc zkc_rewards finalization_env (by_key epoch_work_logs);
  _ ← preflight_verify_continuity (blocks envs);
  inputs ← liftr (collect env_input (blocks envs));
  mret (mkMintInput address zkc zkc_rewards chain_id inputs filter).
End Host.
End MintCalculator.

(** *** Gaps between blocks *)

(** [PatchedIterator]: what is left, the number given last, and one that is held back. *)
Record PatchedIterator := mkPatched { pi_iter : list Z; pi_prev : option Z; pi_next : option Z }.

Definition patched_new (iter : list Z) : PatchedIterator := mkPatched iter None None.

Definition patched_next (max_gap : Z) (self : PatchedIterator) : option (Z * PatchedIterator) :=
  match match pi_next self with
        | Some n => Some (n, pi_iter self)
        | None => match pi_iter self with n :: rest => Some (n, rest) | [] => None end
        end with
  | None => None
  | Some (next, rest) =>
      let too_far := match pi_prev self with
                     | Some prev => wadd 64 prev max_gap <? next
                     | None => false
                     end in
      let give := if too_far then wadd 64 (default 0 (pi_prev self)) max_gap else next in
      Some (give, mkPatched rest (Some give) (if too_far then Some next else None))
  end.

(** The numbers that are given until the iterator ends. *)
Fixpoint patched (fuel : nat) (max_gap : Z) (self : PatchedIterator) : list Z :=
  match fuel, patched_next max_gap self with
  | S fuel, Some (n, self) => n :: patched fuel max_gap self
  | _, _ => []
  end.
