(* ===== verification/PovwFacts.v ===== *)
(** * What the mint calculator certifies

    From an accepted run of [Povw.mint_calculator] to statements about the chain that the
    journal commits to: the updates of each log form a chain that ends at its commitment,
    the mints are the shares of the finalized epochs, within the cap of each log and the
    emissions of each epoch.  Then what the host prepares, and the log updater. *)

From S2P Require Import Prelude Market Povw.

Local Open Scope Z_scope.

(** ** Maps walked in order, and their sums *)

Lemma entries_perm {V} (m : gmap Z V) : by_key m ≡ₚ map_to_list m.
Proof. apply stable_sort_perm. Qed.

Lemma elem_of_entries {V} (m : gmap Z V) k v : (k, v) ∈ by_key m <-> m !! k = Some v.
Proof. by rewrite entries_perm, elem_of_map_to_list. Qed.

Lemma NoDup_entries {V} (m : gmap Z V) : NoDup (by_key m).*1.
Proof. rewrite entries_perm. apply NoDup_fst_map_to_list. Qed.

Definition sum_map {V} (f : V -> Z) (m : gmap Z V) : Z := map_fold (fun _ v acc => f v + acc) 0 m.

Lemma sum_map_empty {V} (f : V -> Z) : sum_map f ∅ = 0.
Proof. apply map_fold_empty. Qed.

Lemma sum_map_new {V} (f : V -> Z) (m : gmap Z V) k v :
  m !! k = None -> sum_map f (<[k := v]> m) = f v + sum_map f m.
Proof. intros Hk. unfold sum_map. rewrite map_fold_insert_L; [done| |done]. intros. lia. Qed.

Lemma sum_map_delete {V} (f : V -> Z) (m : gmap Z V) k v :
  m !! k = Some v -> sum_map f m = f v + sum_map f (delete k m).
Proof.
  intros Hk. rewrite <- (insert_delete_id m k v Hk) at 1. apply sum_map_new, lookup_delete_eq.
Qed.

Lemma sum_map_insert {V} (f : V -> Z) (m : gmap Z V) k v :
  sum_map f (<[k := v]> m) = f v + sum_map f m - default 0 (f <$> m !! k).
Proof.
  destruct (m !! k) as [v0|] eqn:Hk; simpl.
  - rewrite (sum_map_delete f m k v0 Hk), <- insert_delete_eq, sum_map_new by apply lookup_delete_eq. lia.
  - rewrite sum_map_new by done. lia.
Qed.

Lemma sum_map_entries {V} (f : V -> Z) (m : gmap Z V) :
  sum_map f m = foldr (fun x acc => f x.2 + acc) 0 (by_key m).
Proof.
  unfold sum_map. rewrite map_fold_foldr.
  transitivity (foldr (fun x acc => f x.2 + acc) 0 (map_to_list m)).
  - induction (map_to_list m) as [|[k v] l IH]; simpl; [done|]. by rewrite IH.
  - apply (foldr_permutation (=)); try apply _; [|by rewrite entries_perm]. intros. lia.
Qed.

Lemma sum_map_le {V} (f g : V -> Z) (m : gmap Z V) :
  (forall k v, m !! k = Some v -> f v <= g v) -> sum_map f m <= sum_map g m.
Proof.
  intros Hfg. rewrite !sum_map_entries.
  assert (forall k v, (k, v) ∈ by_key m -> f v <= g v) as Hin
    by (intros k v Hkv; apply (Hfg k), elem_of_entries, Hkv).
  clear Hfg. induction (by_key m) as [|[k v] l IH]; simpl; [done|].
  pose proof (Hin k v ltac:(by left)). specialize (IH ltac:(intros; eapply Hin; by right)). lia.
Qed.

Lemma sum_map_nonneg {V} (f : V -> Z) (m : gmap Z V) :
  (forall k v, m !! k = Some v -> 0 <= f v) -> 0 <= sum_map f m.
Proof.
  intros Hf. pose proof (sum_map_le (fun _ => 0) f m Hf) as H.
  assert (sum_map (fun _ : V => 0) m = 0) as E; [|lia].
  rewrite sum_map_entries. by induction (by_key m).
Qed.

Lemma unwrap_Ok {E A} (o : option A) (a : A) : unwrap (E := E) o = Ok a -> o = Some a.
Proof. destruct o; [by intros [= ->]|done]. Qed.

(** ** Fractions *)

Lemma fraction_Ok num dem f :
  0 <= num -> 0 <= dem -> FixedPoint.fraction num dem = Ok f ->
  0 < dem /\ f = num * FixedPoint.BASE / dem /\ 0 <= f <= FixedPoint.BASE.
Proof.
  intros Hn Hd. unfold FixedPoint.fraction, FixedPoint.mul_256.
  destruct (_ <? _); [|done]. simpl. unfold checked_quot.
  destruct (Z.eqb_spec dem 0); [done|]. simpl.
  destruct (Z.leb_spec (num * FixedPoint.BASE / dem) FixedPoint.BASE); [|done]. intros [= <-].
  split; [lia|]. split; [done|]. split; [|done].
  apply Z.div_pos; [|lia]. apply Z.mul_nonneg_nonneg; [done|]. by vm_compute.
Qed.

Lemma mul_unwrap_Ok w x r :
  FixedPoint.mul_unwrap w x = Ok r -> r = w * x / FixedPoint.BASE /\ w * x < 2 ^ 256.
Proof.
  unfold FixedPoint.mul_unwrap, FixedPoint.mul_256.
  destruct (Z.ltb_spec (w * x) (2 ^ 256)); [|done]. simpl. intros [= <-].
  split; [|done]. apply Z.shiftr_div_pow2. by vm_compute.
Qed.

Lemma add_Ok x y r : FixedPoint.add x y = Ok r -> r = x + y /\ x + y < 2 ^ 256.
Proof.
  unfold FixedPoint.add, FixedPoint.add_256. destruct (Z.ltb_spec (x + y) (2 ^ 256)); [|done].
  by intros [= <-].
Qed.

(** ** The shares of one log in one epoch *)

Definition uncapped (emissions : Z) (weights : list (Z * Z)) : Z :=
  foldr (fun x acc => x.2 * emissions / FixedPoint.BASE + acc) 0 weights.

(** What each recipient is given, in order. *)
Fixpoint shares (emissions : Z) (weights : list (Z * Z)) (cap : Z) : list (Z * Z) :=
  match weights with
  | [] => []
  | (recipient, weight) :: weights =>
      let reward := Z.min (weight * emissions / FixedPoint.BASE) cap in
      (recipient, reward) :: shares emissions weights (cap - reward)
  end.

Definition sum_snd (l : list (Z * Z)) : Z := foldr (fun x acc => x.2 + acc) 0 l.

Lemma sum_snd_app l k : sum_snd (l ++ k) = sum_snd l + sum_snd k.
Proof. unfold sum_snd. induction l as [|x l IH]; simpl; [done|]. rewrite IH. lia. Qed.

(** Together they get what is due to them, up to the cap. *)
Lemma shares_sum emissions weights cap :
  0 <= cap -> 0 <= emissions -> Forall (fun x => 0 <= x.2) weights ->
  sum_snd (shares emissions weights cap) = Z.min (uncapped emissions weights) cap
  /\ Forall (fun x => 0 <= x.2) (shares emissions weights cap).
Proof.
  intros Hc He Hw. revert cap Hc. induction Hw as [|[r w] weights Hr Hw IH]; intros cap Hc; simpl.
  - split; [by rewrite Z.min_l|done].
  - simpl in Hr. pose proof (Z.div_pos (w * emissions) FixedPoint.BASE ltac:(nia) ltac:(by vm_compute)).
    set (reward := Z.min _ cap). assert (0 <= reward <= cap) by lia.
    destruct (IH (cap - reward)) as [IH1 IH2]; [lia|].
    assert (0 <= uncapped emissions weights).
    { clear -Hw He. induction Hw as [|x l Hx Hl IHl]; simpl; [done|].
      pose proof (Z.div_pos (x.2 * emissions) FixedPoint.BASE ltac:(nia) ltac:(by vm_compute)). lia. }
    unfold sum_snd in *. simpl. split; [rewrite IH1; lia|]. constructor; [simpl; lia|done].
Qed.

(** Credits to a map of balances. *)
Definition credit (m : gmap Z Z) (x : Z * Z) : gmap Z Z :=
  if 0 <? x.2 then <[x.1 := wadd 256 (default 0 (m !! x.1)) x.2]> m else m.

Definition balance (m : gmap Z Z) (r : Z) : Z := default 0 (m !! r).

Definition given (l : list (Z * Z)) (r : Z) : Z := sum_snd (filter (fun x => x.1 = r) l).

Lemma assign_rewards_credits emissions weights cap rewards rewards' :
  0 <= cap -> 0 <= emissions -> Forall (fun x => 0 <= x.2) weights ->
  assign_rewards emissions weights cap rewards = Ok rewards' ->
  rewards' = foldl credit rewards (shares emissions weights cap).
Proof.
  intros Hc He Hw. revert cap rewards Hc. induction Hw as [|[r w] weights Hr Hw IH];
    intros cap rewards Hc; simpl; [by intros [= <-]|].
  intros (u & [-> _]%mul_unwrap_Ok & Ha)%result_bind_Ok. simpl in Hr.
  pose proof (Z.div_pos (w * emissions) FixedPoint.BASE ltac:(nia) ltac:(by vm_compute)).
  set (reward := Z.min _ cap) in *. assert (0 <= reward <= cap) by lia.
  replace (sat_sub cap reward) with (cap - reward) in Ha by (unfold sat_sub; lia).
  apply IH in Ha; [|lia]. exact Ha.
Qed.

(** The balances after credits: exact as long as the total fits. *)
Lemma credits_exact l m :
  Forall (fun x => 0 <= x.2) l -> (forall r x, m !! r = Some x -> 0 <= x) ->
  sum_map id m + sum_snd l < 2 ^ 256 ->
  let m' := foldl credit m l in
  sum_map id m' = sum_map id m + sum_snd l
  /\ (forall r, balance m' r = balance m r + given l r)
  /\ (forall r x, m' !! r = Some x -> 0 <= x)
  /\ ((forall r x, m !! r = Some x -> 0 < x) -> forall r x, m' !! r = Some x -> 0 < x).
Proof.
  intros Hl. revert m. induction Hl as [|[r x] l Hx Hl IH]; intros m Hm Hlt; simpl.
  - unfold sum_snd, given. simpl. split_and!; try done; [lia|]. intros r. unfold given, sum_snd. simpl. lia.
  - unfold sum_snd in Hlt. simpl in Hlt, Hx. fold (sum_snd l) in Hlt.
    assert (0 <= sum_snd l) by (clear -Hl; induction Hl; simpl; [done|unfold sum_snd in *; simpl; lia]).
    assert (Hb : 0 <= balance m r /\ balance m r <= sum_map id m).
    { unfold balance. destruct (m !! r) as [b|] eqn:Eb; simpl.
      - split; [by eapply Hm|]. rewrite (sum_map_delete id m r b Eb). unfold id at 1.
        pose proof (sum_map_nonneg id (delete r m)) as Hd.
        assert (0 <= sum_map id (delete r m)); [|lia]. apply Hd.
        intros k v [_ Hk]%lookup_delete_Some. by eapply Hm.
      - split; [done|]. apply sum_map_nonneg. intros k v Hk. by eapply Hm. }
    set (m1 := credit m (r, x)).
    assert (Hm1 : sum_map id m1 = sum_map id m + x
      /\ (forall r', balance m1 r' = balance m r' + if decide (r = r') then x else 0)
      /\ (forall k v, m1 !! k = Some v -> 0 <= v)
      /\ ((forall r x, m !! r = Some x -> 0 < x) -> forall k v, m1 !! k = Some v -> 0 < v)).
    { subst m1. unfold credit. simpl. destruct (Z.ltb_spec 0 x).
      - rewrite wadd_small by (unfold fits, balance in *; lia). split_and!.
        + rewrite sum_map_insert. unfold balance in Hb. unfold id at 1 3.
          replace (default 0 (m !! r)) with (default 0 (id <$> m !! r)) by (by destruct (m !! r)).
          unfold id. lia.
        + intros r'. unfold balance in *. destruct (decide (r = r')) as [->|Hne];
            [by rewrite lookup_insert_eq|rewrite lookup_insert_ne by done; lia].
        + intros k v. destruct (decide (k = r)) as [->|Hne].
          * rewrite lookup_insert_eq. intros [= <-]. unfold balance in Hb. lia.
          * rewrite lookup_insert_ne by done. apply Hm.
        + intros Hp k v. destruct (decide (k = r)) as [->|Hne].
          * rewrite lookup_insert_eq. intros [= <-]. unfold balance in Hb. lia.
          * rewrite lookup_insert_ne by done. apply Hp.
      - assert (x = 0) as -> by lia. split_and!; [lia| |done|done]. intros r'. case_decide; lia. }
    destruct Hm1 as (M1 & M2 & M3 & M4). destruct (IH m1 M3) as (I1 & I2 & I3 & I4); [lia|].
    split_and!; [unfold sum_snd in *; simpl; lia| |done|].
    + intros r'. rewrite I2, M2. unfold given. rewrite filter_cons. simpl.
      case_decide; unfold sum_snd; simpl; lia.
    + intros Hp. apply I4, M4, Hp.
Qed.

(** ** The updates that count *)

(** Of a log that the filter includes, in an epoch that is finalized. *)
Definition counts (filter : WorkLogFilter) (epochs : gmap Z Z) (e : WorkLogUpdated) : Prop :=
  includes filter (ev_workLogId e) = true /\ is_Some (epochs !! ev_epochNumber e).

#[export] Instance counts_dec f epochs e : Decision (counts f epochs e).
Proof. unfold counts. apply _. Defined.

Definition counted (f : WorkLogFilter) (epochs : gmap Z Z) (es : list WorkLogUpdated)
    : list WorkLogUpdated := filter (counts f epochs) es.

Definition of_log (log : Z) (es : list WorkLogUpdated) : list WorkLogUpdated :=
  filter (fun e => ev_workLogId e = log) es.

(** Each update starts from the commitment that the one before has left. *)
Inductive linked : Z -> list WorkLogUpdated -> Z -> Prop :=
| linked_nil c : linked c [] c
| linked_cons e es c : linked (ev_updatedCommit e) es c -> linked (ev_initialCommit e) (e :: es) c.

(** From what was known of a log to what is known after more of its updates. *)
Definition links (o : option (Z * Z)) (es : list WorkLogUpdated) (o' : option (Z * Z)) : Prop :=
  match o with
  | Some (a, b) => exists c, o' = Some (a, c) /\ linked b es c
  | None =>
      match es with
      | [] => o' = None
      | e :: _ => exists c, o' = Some (ev_initialCommit e, c) /\ linked (ev_initialCommit e) es c
      end
  end.

Lemma links_step o e es o1 o' :
  links o [e] o1 -> links o1 es o' -> links o (e :: es) o'.
Proof.
  intros H1 H2. destruct o as [[a b]|]; simpl in *.
  - destruct H1 as (c & -> & Hl). simpl in H2. destruct H2 as (c' & -> & Hl').
    exists c'. split; [done|]. inversion Hl as [|? ? ? Hn]; subst. inversion Hn; subst.
    by constructor.
  - destruct H1 as (c & -> & Hl). simpl in H2. destruct H2 as (c' & -> & Hl').
    exists c'. split; [done|]. inversion Hl as [|? ? ? Hn]; subst. inversion Hn; subst.
    by constructor.
Qed.

Lemma chain_update_links e u u' :
  chain_update e u = Ok u' ->
  links (u !! ev_workLogId e) [e] (u' !! ev_workLogId e)
  /\ forall log, log <> ev_workLogId e -> u' !! log = u !! log.
Proof.
  unfold chain_update. destruct (u !! ev_workLogId e) as [[a b]|].
  - simpl. unfold guest_assert. destruct (Z.eqb_spec b (ev_initialCommit e)) as [->|]; [|done].
    intros [= <-]. split; [|intros; by rewrite lookup_insert_ne].
    rewrite lookup_insert_eq. exists (ev_updatedCommit e). by repeat constructor.
  - intros [= <-]. split; [|intros; by rewrite lookup_insert_ne].
    rewrite lookup_insert_eq. exists (ev_updatedCommit e). by repeat constructor.
Qed.

(** *** Weights *)

Definition fraction_of (epochs : gmap Z Z) (e : WorkLogUpdated) : Z :=
  if 0 <? ev_updateValue e
  then ev_updateValue e * FixedPoint.BASE / default 0 (epochs !! ev_epochNumber e) else 0.

Definition sum_of (f : WorkLogUpdated -> Z) (es : list WorkLogUpdated) : Z :=
  foldr (fun e acc => f e + acc) 0 es.

Definition weight_of (epochs : gmap Z Z) (es : list WorkLogUpdated) (epoch log recipient : Z) : Z :=
  sum_of (fraction_of epochs) (filter (fun e => ev_epochNumber e = epoch /\ ev_workLogId e = log
                                                /\ ev_valueRecipient e = recipient) es).

Definition epoch_weight (w : RewardWeightMap) (epoch : Z) : Z :=
  sum_map (sum_map id) (default ∅ (w !! epoch)).

Definition weights_nonneg (w : RewardWeightMap) : Prop :=
  forall epoch by_log log by_rec r x, w !! epoch = Some by_log -> by_log !! log = Some by_rec ->
    by_rec !! r = Some x -> 0 <= x.

Lemma get3_nonneg w epoch log r : weights_nonneg w -> 0 <= get3 w epoch log r.
Proof.
  intros Hw. unfold get3. destruct (w !! epoch) as [by_log|] eqn:E1; simpl; [|by rewrite !lookup_empty].
  destruct (by_log !! log) as [by_rec|] eqn:E2; simpl; [|by rewrite lookup_empty].
  destruct (by_rec !! r) as [x|] eqn:E3; simpl; [|done]. by eapply Hw.
Qed.

Lemma add_weight_spec epoch log r x w w' :
  add_weight epoch log r x w = Ok w' ->
  (forall ep lg rc, get3 w' ep lg rc
     = get3 w ep lg rc + if decide (ep = epoch /\ lg = log /\ rc = r) then x else 0)
  /\ (forall ep, epoch_weight w' ep = epoch_weight w ep + if decide (ep = epoch) then x else 0)
  /\ (0 <= x -> weights_nonneg w -> weights_nonneg w')
  /\ (forall ep, is_Some (w' !! ep) <-> ep = epoch \/ is_Some (w !! ep)).
Proof.
  unfold add_weight. intros (s & [-> _]%add_Ok & H)%result_bind_Ok. injection H as <-.
  set (by_log := default ∅ (w !! epoch)). set (by_rec := default ∅ (by_log !! log)).
  split_and!.
  - intros ep lg rc. unfold get3 at 1.
    destruct (decide (ep = epoch)) as [->|]; [|rewrite lookup_insert_ne by done; rewrite decide_False by tauto; unfold get3, by_rec, by_log; lia].
    rewrite lookup_insert_eq. simpl.
    destruct (decide (lg = log)) as [->|]; [|rewrite lookup_insert_ne by done; rewrite decide_False by tauto; unfold get3, by_rec, by_log; lia].
    rewrite lookup_insert_eq. simpl.
    destruct (decide (rc = r)) as [->|]; [|rewrite lookup_insert_ne by done; rewrite decide_False by tauto; unfold get3, by_rec, by_log; lia].
    rewrite lookup_insert_eq. simpl. rewrite decide_True by done. done.
  - intros ep. unfold epoch_weight. case_decide as E; [subst ep|by rewrite lookup_insert_ne, Z.add_0_r].
    rewrite lookup_insert_eq. simpl. fold by_log. rewrite sum_map_insert.
    replace (default 0 (sum_map id <$> by_log !! log)) with (sum_map id by_rec).
    2: { unfold by_rec. destruct (by_log !! log); simpl; [done|by rewrite sum_map_empty]. }
    rewrite sum_map_insert. unfold get3. fold by_log. fold by_rec.
    replace (default 0 (id <$> by_rec !! r)) with (default 0 (by_rec !! r)) by (by destruct (by_rec !! r)).
    unfold id at 1. lia.
  - intros Hx Hw ep bl lg br rc y. pose proof (get3_nonneg w epoch log r Hw) as Hg.
    destruct (decide (ep = epoch)) as [->|]; [|rewrite lookup_insert_ne by done; apply Hw].
    rewrite lookup_insert_eq. intros [= <-].
    destruct (decide (lg = log)) as [->|Hne].
    + rewrite lookup_insert_eq. intros [= <-]. destruct (decide (rc = r)) as [->|Hr].
      * rewrite lookup_insert_eq. intros [= <-]. lia.
      * rewrite lookup_insert_ne by done. unfold by_rec, by_log. intros Hy.
        destruct (w !! epoch) as [m|] eqn:E1; simpl in Hy; [|by rewrite !lookup_empty in Hy].
        destruct (m !! log) as [m2|] eqn:E2; simpl in Hy; [|by rewrite lookup_empty in Hy].
        by eapply Hw.
    + rewrite lookup_insert_ne by done. unfold by_log. intros Hy.
      destruct (w !! epoch) as [m|] eqn:E1; simpl in Hy; [|by rewrite lookup_empty in Hy].
      by eapply Hw.
  - intros ep. destruct (decide (ep = epoch)) as [->|].
    + rewrite lookup_insert_eq. split; [by left|by eexists].
    + rewrite lookup_insert_ne by done. naive_solver.
Qed.

(** What [apply_updates] makes of a list of events. *)
Record updates_applied (f : WorkLogFilter) (epochs : gmap Z Z) (es : list WorkLogUpdated)
    (w w' : RewardWeightMap) (u u' : gmap Z (Z * Z)) : Prop := {
  ua_links : forall log, links (u !! log) (of_log log (counted f epochs es)) (u' !! log);
  ua_weights : forall ep lg rc,
    get3 w' ep lg rc = get3 w ep lg rc + weight_of epochs (counted f epochs es) ep lg rc;
  ua_epoch : forall ep, epoch_weight w' ep
    = epoch_weight w ep
      + sum_of (fraction_of epochs) (filter (fun e => ev_epochNumber e = ep) (counted f epochs es));
  ua_nonneg : weights_nonneg w -> weights_nonneg w';
  ua_epochs : forall ep, is_Some (w' !! ep) -> is_Some (w !! ep) \/ is_Some (epochs !! ep)
}.

Lemma linked_end a es c c' : linked a es c -> linked a es c' -> c = c'.
Proof.
  intros Hl. induction Hl as [|e es c Hl IH]; inversion 1; subst; [done|]. by apply IH.
Qed.

Lemma links_refl o : links o [] o.
Proof. destruct o as [[a b]|]; simpl; [exists b; by repeat constructor|done]. Qed.

Lemma weigh_spec epochs e t w w' :
  0 <= t -> epochs !! ev_epochNumber e = Some t -> weigh e t w = Ok w' ->
  (forall ep lg rc, get3 w' ep lg rc
     = get3 w ep lg rc + weight_of epochs [e] ep lg rc)
  /\ (forall ep, epoch_weight w' ep
       = epoch_weight w ep + sum_of (fraction_of epochs) (filter (fun e => ev_epochNumber e = ep) [e]))
  /\ (weights_nonneg w -> weights_nonneg w')
  /\ (forall ep, is_Some (w' !! ep) -> ep = ev_epochNumber e \/ is_Some (w !! ep)).
Proof.
  intros Ht0 Ht. unfold weigh, weight_of, sum_of, fraction_of.
  destruct (Z.ltb_spec 0 (ev_updateValue e)) as [Hv|Hv].
  - intros (x & Hx & Ha)%result_bind_Ok.
    apply fraction_Ok in Hx as (Hd & -> & Hf & _); [|lia|done].
    apply add_weight_spec in Ha as (A1 & A2 & A3 & A4). split_and!.
    + intros ep lg rc. rewrite A1. f_equal. rewrite filter_cons. simpl.
      destruct (decide (ev_epochNumber e = ep /\ ev_workLogId e = lg /\ ev_valueRecipient e = rc))
        as [(<- & <- & <-)|Hn]; cbn iota.
      * rewrite decide_True by done. cbn [foldr]. rewrite Ht, (proj2 (Z.ltb_lt _ _)) by done.
        by rewrite Z.add_0_r.
      * rewrite decide_False; [done|]. intros (-> & -> & ->). by apply Hn.
    + intros ep. rewrite A2. f_equal. rewrite filter_cons. simpl.
      destruct (decide (ev_epochNumber e = ep)) as [<-|Hn]; cbn iota.
      * rewrite decide_True by done. cbn [foldr]. rewrite Ht, (proj2 (Z.ltb_lt _ _)) by done.
        by rewrite Z.add_0_r.
      * by rewrite decide_False by congruence.
    + intros Hw. by apply A3.
    + intros ep. rewrite A4. tauto.
  - intros [= <-]. split_and!; [| |done|by right].
    + intros ep lg rc. rewrite filter_cons. case_decide; simpl; [|lia].
      rewrite (proj2 (Z.ltb_ge _ _)) by done. lia.
    + intros ep. rewrite filter_cons. case_decide; simpl; [|lia].
      rewrite (proj2 (Z.ltb_ge _ _)) by done. lia.
Qed.

Lemma sum_of_app f es es' : sum_of f (es ++ es') = sum_of f es + sum_of f es'.
Proof. unfold sum_of. induction es as [|e es IH]; simpl; [done|]. rewrite IH. lia. Qed.

Lemma counted_cons f epochs e es :
  counted f epochs (e :: es)
  = if decide (counts f epochs e) then e :: counted f epochs es else counted f epochs es.
Proof. unfold counted. by rewrite filter_cons. Qed.

Lemma apply_updates_spec f epochs es w u w' u' :
  (forall ep t, epochs !! ep = Some t -> 0 <= t) ->
  apply_updates f epochs es w u = Ok (w', u') -> updates_applied f epochs es w w' u u'.
Proof.
  intros He. revert w u. induction es as [|e es IH]; intros w u; simpl.
  - intros [= <- <-]. split; simpl; try done.
    + intros log. apply links_refl.
    + intros. unfold weight_of, sum_of. simpl. lia.
    + intros. unfold sum_of. simpl. lia.
    + by left.
  - assert (Hskip : ~ counts f epochs e -> apply_updates f epochs es w u = Ok (w', u') ->
      updates_applied f epochs (e :: es) w w' u u').
    { intros Hn Ha. destruct (IH _ _ Ha) as [I1 I2 I3 I4 I5].
      split; rewrite ?counted_cons, ?decide_False by done; auto; intros; by rewrite ?counted_cons, ?decide_False by done. }
    unfold counts in Hskip. destruct (includes f (ev_workLogId e)) eqn:Ei; simpl;
      [|apply Hskip; by intros [? _]].
    destruct (epochs !! ev_epochNumber e) as [t|] eqn:Et; [|apply Hskip; by intros [_ [? ?]]].
    clear Hskip. intros (u1 & Hu & H)%result_bind_Ok. apply result_bind_Ok in H as (w1 & Hw & Ha).
    destruct (IH _ _ Ha) as [I1 I2 I3 I4 I5]. apply chain_update_links in Hu as [U1 U2].
    destruct (weigh_spec epochs e t w w1 (He _ _ Et) Et Hw) as (W1 & W2 & W3 & W4).
    assert (Hc : counts f epochs e) by (split; [done|by rewrite Et]).
    split.
    + intros log. rewrite counted_cons, decide_True by done. unfold of_log. rewrite filter_cons.
      case_decide as El.
      * subst log. eapply links_step; [done|]. apply I1.
      * rewrite <- (U2 log) by done. apply I1.
    + intros ep lg rc. rewrite I2, W1, counted_cons, decide_True by done. unfold weight_of.
      rewrite <- Z.add_assoc, <- sum_of_app, <- filter_app. done.
    + intros ep. rewrite I3, W2, counted_cons, decide_True by done.
      rewrite <- Z.add_assoc, <- sum_of_app, <- filter_app. done.
    + auto.
    + intros ep Hep. destruct (I5 ep Hep) as [Hs|]; [|by right].
      destruct (W4 ep Hs) as [->|]; [right; by rewrite Et|by left].
Qed.

(** ** Runs of the guest *)

Section Guest.
Context {Env EvmInput Spec Commitment : Type} `{Steel Env EvmInput Spec Commitment}.

Abbreviation trace := (Trace (Commitment := Commitment)).

(** Amounts on the chain are unsigned integers of 256 bits. *)
Definition chain_uints : Prop :=
  (forall env a e, e ∈ work_log_updated_events env a -> 0 <= ev_updateValue e)
  /\ (forall env a e, e ∈ epoch_finalized_events env a -> 0 <= ef_totalWork e)
  /\ (forall env zkc ep, 0 <= povw_emissions env zkc ep)
  /\ (forall env z log t, 0 <= past_reward_cap env z log t).

(** Each block has verified the one before. *)
Fixpoint chained (env_prev : Env) (envs : list Env) : Prop :=
  match envs with
  | [] => True
  | env :: envs => verifies env (env_commitment env_prev) = true /\ chained env envs
  end.

Definition continuous (envs : list Env) : Prop :=
  match envs with [] => True | env :: envs => chained env envs end.

Lemma ask_Ok {A} (env : Env) q (x : A) (tr : trace) r :
  ask env q x tr = r -> r = (Ok x, tr ++ [(header_number env, q)]).
Proof using Type. by intros <-. Qed.

Lemma assert_Ok b (tr tr' : trace) u : assert b tr = (Ok u, tr') -> b = true /\ tr' = tr.
Proof using Type. unfold assert, liftr, guest_assert. destruct b; [by intros [= _ <-]|done]. Qed.

Lemma collect_envs_Ok spec inputs envs envs' (tr tr' : trace) :
  collect_envs spec inputs envs tr = (Ok envs', tr') ->
  (forall n env, envs !! n = Some env -> header_number env = n) ->
  (forall n env, envs' !! n = Some env -> header_number env = n)
  /\ exists l, mapM (fun i => into_env i spec) inputs = Some l
       /\ (map_to_list envs').*2 ≡ₚ l ++ (map_to_list envs).*2.
Proof using Type.
  revert envs tr. induction inputs as [|i inputs IH]; intros envs tr; simpl.
  - intros [= <- _]. split; [done|]. by exists [].
  - intros H1 He. bind_step H1 env tr1 E1. apply liftr_Ok in E1 as [E1%unwrap_Ok ->].
    destruct (envs !! header_number env) eqn:Ee; [done|].
    destruct (IH _ _ H1) as (I1 & l & I2 & I3).
    + intros n x. destruct (decide (n = header_number env)) as [->|Hne].
      * rewrite lookup_insert_eq. by intros [= <-].
      * rewrite lookup_insert_ne by done. apply He.
    + split; [done|]. exists (env :: l). rewrite E1. simpl. rewrite I2. split; [done|].
      rewrite I3, map_to_list_insert by done. simpl. by rewrite Permutation_middle.
Qed.

Lemma verify_from_Ok env envs (tr tr' : trace) u :
  verify_from env envs tr = (Ok u, tr') -> chained env envs.
Proof using Type.
  revert env tr. induction envs as [|e envs IH]; intros env tr; simpl; [done|].
  intros H1. bind_step H1 ok tr1 E1. apply ask_Ok in E1. injection E1 as -> ->.
  bind_step H1 u1 tr2 E2. apply assert_Ok in E2 as [E2 ->]. split; [done|]. by eapply IH.
Qed.

Lemma into_envs_Ok spec inputs envs (tr tr' : trace) :
  into_envs spec inputs tr = (Ok envs, tr') ->
  continuous (blocks envs) /\ (forall n env, envs !! n = Some env -> header_number env = n)
  /\ exists l, mapM (fun i => into_env i spec) inputs = Some l /\ blocks envs ≡ₚ l.
Proof using Type.
  unfold into_envs. intros H1. bind_step H1 envs1 tr1 E1. bind_step H1 u tr2 E2. injection H1 as <- <-.
  split; [|apply collect_envs_Ok in E1 as (E1 & l & L1 & L2)].
  - unfold verify_continuity in E2. destruct (blocks envs1); [done|]. by eapply verify_from_Ok.
  - split; [done|]. exists l. split; [done|]. unfold blocks. rewrite entries_perm, L2.
    by rewrite map_to_list_empty, app_nil_r.
  - intros n env. by rewrite lookup_empty.
Qed.

(** *** Finalized epochs *)

Definition finalizations (address : Z) (envs : list Env) : list EpochFinalized :=
  envs ≫= fun env => epoch_finalized_events env address.

(** The block of the last finalization. *)
Fixpoint latest_of (address : Z) (envs : list Env) (latest : option Z) : option Z :=
  match envs with
  | [] => latest
  | env :: envs =>
      latest_of address envs
        (match epoch_finalized_events env address with [] => latest | _ => Some (header_number env) end)
  end.

(** The table of a list of finalizations, each of another epoch. *)
Definition tabled (fs : list EpochFinalized) (epochs : gmap Z Z) : Prop :=
  NoDup (ef_epoch <$> fs) /\ forall ep t, epochs !! ep = Some t <-> mkEpochFinalized ep t ∈ fs.

Lemma insert_epochs_Ok number es latest epochs latest' epochs' fs (tr tr' : trace) :
  insert_epochs number es latest epochs tr = (Ok (latest', epochs'), tr') ->
  tabled fs epochs ->
  tabled (fs ++ es) epochs'
  /\ latest' = match es with [] => latest | _ => Some number end.
Proof using Type.
  revert latest epochs fs tr. induction es as [|e es IH]; intros latest epochs fs tr; simpl.
  - intros [= <- <- _] Ht. by rewrite app_nil_r.
  - destruct (epochs !! ef_epoch e) eqn:Ee; [done|]. intros H1 [Hn Ht].
    destruct (IH _ _ (fs ++ [e]) _ H1) as [I1 I2].
    + split.
      * rewrite fmap_app. simpl. apply NoDup_app. split; [done|]. split; [|apply NoDup_singleton].
        intros x Hx ->%list_elem_of_singleton. apply list_elem_of_fmap in Hx as (f & E & Hf).
        destruct f as [ep t]. simpl in E. subst ep. apply Ht in Hf. congruence.
      * intros ep t. rewrite elem_of_app, list_elem_of_singleton.
        destruct (decide (ep = ef_epoch e)) as [->|Hne].
        -- rewrite lookup_insert_eq. destruct e as [ep0 t0]. simpl in *. split.
           ++ intros [= ->]. by right.
           ++ intros [Hin|[= ->]]; [apply Ht in Hin; congruence|done].
        -- rewrite lookup_insert_ne by done. rewrite Ht. split; [by left|].
           intros [|<-]; [done|]. by destruct Hne.
    + rewrite <- app_assoc in I1. split; [done|]. rewrite I2. by destruct es.
Qed.

Lemma finalized_epochs_Ok address envs latest epochs latest' epochs' fs (tr tr' : trace) :
  finalized_epochs address envs latest epochs tr = (Ok (latest', epochs'), tr') ->
  tabled fs epochs ->
  tabled (fs ++ finalizations address envs) epochs' /\ latest' = latest_of address envs latest.
Proof using Type.
  revert latest epochs fs tr. induction envs as [|env envs IH]; intros latest epochs fs tr; simpl.
  - intros [= <- <- _] Ht. by rewrite app_nil_r.
  - intros H1 Ht. bind_step H1 es tr1 E1. apply ask_Ok in E1. injection E1 as -> ->.
    bind_step H1 p tr2 E2. destruct p as [l1 ep1].
    destruct (insert_epochs_Ok _ _ _ _ _ _ fs _ _ E2 Ht) as [I1 I2].
    destruct (IH _ _ _ _ H1 I1) as [J1 J2]. rewrite <- app_assoc in J1. split; [done|].
    by rewrite J2, I2.
Qed.

(** *** Updates *)

Definition update_events (address : Z) (envs : list Env) : list WorkLogUpdated :=
  envs ≫= fun env => work_log_updated_events env address.

Lemma apply_updates_app f epochs es1 es2 w u :
  apply_updates f epochs (es1 ++ es2) w u
  = match apply_updates f epochs es1 w u with
    | Ok (w, u) => apply_updates f epochs es2 w u
    | Err e => Err e
    | Panic => Panic
    end.
Proof using Type.
  revert w u. induction es1 as [|e es1 IH]; intros w u; simpl; [done|].
  destruct (negb _); [apply IH|]. destruct (epochs !! _); [|apply IH].
  destruct (chain_update e u) as [u1|e1|]; [|done..]. simpl.
  destruct (weigh e z w) as [w1|e1|]; [|done..]. simpl. apply IH.
Qed.

Lemma collect_updates_Ok address f epochs envs w u w' u' (tr tr' : trace) :
  collect_updates address f epochs envs w u tr = (Ok (w', u'), tr') ->
  apply_updates f epochs (update_events address envs) w u = Ok (w', u').
Proof using Type.
  revert w u tr. induction envs as [|env envs IH]; intros w u tr; simpl; [by intros [= <- <- _]|].
  intros H1. bind_step H1 es tr1 E1. apply ask_Ok in E1. injection E1 as -> ->.
  bind_step H1 p tr2 E2. destruct p as [w1 u1]. apply liftr_Ok in E2 as [E2 ->].
  change (update_events address (env :: envs))
    with (work_log_updated_events env address ++ update_events address envs).
  rewrite apply_updates_app, E2. by eapply IH.
Qed.

Lemma check_completeness_Ok address env us (tr tr' : trace) x :
  check_completeness address env us tr = (Ok x, tr') ->
  forall log a b, (log, (a, b)) ∈ us -> work_log_commit env address log = b.
Proof using Type.
  revert tr. induction us as [|[log0 [a0 b0]] us IH]; intros tr; simpl.
  - by intros _ log a b ?%elem_of_nil.
  - intros H1. bind_step H1 c tr1 E1. apply ask_Ok in E1. injection E1 as -> ->.
    bind_step H1 u tr2 E2. apply assert_Ok in E2 as [E2%Z.eqb_eq ->].
    intros log a b [[= -> -> ->]|Hin]%elem_of_cons; [done|]. by eapply IH.
Qed.

(** *** Rewards *)

Definition log_shares (zkc_rewards : Z) (env : Env) (emissions end_time : Z)
    (logs : list (Z * gmap Z Z)) : list (Z * Z) :=
  logs ≫= fun x => shares emissions (by_key x.2) (past_reward_cap env zkc_rewards x.1 end_time).

Definition epoch_shares (zkc zkc_rewards : Z) (env : Env)
    (epochs : list (Z * gmap Z (gmap Z Z))) : list (Z * Z) :=
  epochs ≫= fun x => log_shares zkc_rewards env (povw_emissions env zkc x.1)
                       (epoch_end_time env zkc x.1) (by_key x.2).

Lemma log_rewards_Ok zr env E t logs m m' (tr tr' : trace) :
  chain_uints -> 0 <= E ->
  (forall log ws, (log, ws) ∈ logs -> Forall (fun x => 0 <= x.2) (by_key ws)) ->
  log_rewards zr env E t logs m tr = (Ok m', tr') ->
  m' = foldl credit m (log_shares zr env E t logs).
Proof using Type.
  intros Hu HE. revert m tr. induction logs as [|[log ws] logs IH]; intros m tr Hw; simpl; [by intros [= <- _]|].
  intros H1. bind_step H1 cap tr1 E1. apply ask_Ok in E1. injection E1 as -> ->.
  bind_step H1 m1 tr2 E2. apply liftr_Ok in E2 as [E2 ->].
  apply assign_rewards_credits in E2; [|apply Hu|done|apply (Hw log ws); by left].
  change (log_shares zr env E t ((log, ws) :: logs))
    with (shares E (by_key ws) (past_reward_cap env zr log t) ++ log_shares zr env E t logs).
  rewrite foldl_app, <- E2. eapply IH; [|done]. intros; eapply Hw; by right.
Qed.

Lemma epoch_rewards_Ok zkc zr env epochs m m' (tr tr' : trace) :
  chain_uints ->
  (forall ep logs log ws, (ep, logs) ∈ epochs -> logs !! log = Some ws ->
     Forall (fun x => 0 <= x.2) (by_key ws)) ->
  epoch_rewards zkc zr env epochs m tr = (Ok m', tr') ->
  m' = foldl credit m (epoch_shares zkc zr env epochs).
Proof using Type.
  intros Hu. revert m tr. induction epochs as [|[ep logs] epochs IH]; intros m tr Hw; simpl; [by intros [= <- _]|].
  intros H1. bind_step H1 E tr1 E1. apply ask_Ok in E1. injection E1 as -> ->.
  bind_step H1 t tr2 E2. apply ask_Ok in E2. injection E2 as -> ->.
  bind_step H1 m1 tr3 E3. apply log_rewards_Ok in E3; [|done|apply Hu|].
  - change (epoch_shares zkc zr env ((ep, logs) :: epochs))
      with (log_shares zr env (povw_emissions env zkc ep) (epoch_end_time env zkc ep) (by_key logs)
            ++ epoch_shares zkc zr env epochs).
    rewrite foldl_app, <- E3. eapply IH; [|done]. intros; eapply Hw; [by right|done].
  - intros log ws Hin%elem_of_entries. eapply Hw; [by left|done].
Qed.

(** *** A run, taken apart *)

(** The number of a block is its place on the chain. *)
Lemma blocks_sorted (envs : gmap Z Env) :
  (forall n env, envs !! n = Some env -> header_number env = n) ->
  StronglySorted Z.lt (header_number <$> blocks envs).
Proof using Type.
  intros He. unfold blocks.
  assert (Hin : forall n env, (n, env) ∈ by_key envs -> header_number env = n)
    by (intros n env Hx%elem_of_entries; by apply He).
  pose proof (NoDup_entries envs) as Hn.
  pose proof (stable_sort_sorted fst (map_to_list envs)) as Hs. fold (by_key envs) in Hs.
  clear He. induction (by_key envs) as [|[n env] l IH]; simpl in *; [constructor|].
  apply NoDup_cons in Hn as [Hn1 Hn2]. apply StronglySorted_inv in Hs as [Hs1 Hs2].
  constructor; [apply IH; [intros; apply Hin; by right|done..]|].
  rewrite List.Forall_forall in Hs2. apply Forall_forall. intros k (e & -> & Hk)%list_elem_of_fmap.
  apply list_elem_of_fmap in Hk as ([k e'] & -> & Hk). simpl.
  rewrite (Hin n env), (Hin k e') by (try (by left); by right).
  pose proof (Hs2 _ (proj1 (list_elem_of_In _ _) Hk)) as Hle. simpl in Hle.
  assert (n <> k); [|lia]. intros ->. apply Hn1, list_elem_of_fmap. by exists (k, e').
Qed.

Lemma elem_of_blocks (envs : gmap Z Env) env : env ∈ blocks envs <-> exists n, envs !! n = Some env.
Proof using Type.
  unfold blocks. rewrite list_elem_of_fmap. split.
  - intros ([n e] & -> & Hx). exists n. by apply elem_of_entries.
  - intros [n Hn]. exists (n, env). split; [done|]. by apply elem_of_entries.
Qed.

(** What the guest has seen and calculated when it commits a journal. *)
Record certificate := mkCertificate {
  ct_blocks : list Env;
  ct_epochs : gmap Z Z;
  ct_weights : RewardWeightMap;
  ct_end : Env;
  ct_final : Env
}.

(** The events that count in the blocks. *)
Definition ct_events (input : MintInput EvmInput) (c : certificate) : list WorkLogUpdated :=
  counted (work_log_filter input) (ct_epochs c)
    (update_events (povw_accounting_address input) (ct_blocks c)).

(** What is due to recipients, epoch by epoch and log by log. *)
Definition ct_shares (input : MintInput EvmInput) (c : certificate) : list (Z * Z) :=
  epoch_shares (zkc_address input) (zkc_rewards_address input) (ct_final c) (by_key (ct_weights c)).

(** The specification of a journal. *)
Record certified (input : MintInput EvmInput) (j : MintCalculatorJournal Commitment)
    (c : certificate) : Prop := {
  (* the blocks are those of the input, on one chain, that of the commitment *)
  ok_input : exists spec l, chain_spec (mint_chain_id input) = Some spec
    /\ mapM (fun i => into_env i spec) (mint_env input) = Some l /\ ct_blocks c ≡ₚ l;
  ok_chain : continuous (ct_blocks c);
  ok_order : StronglySorted Z.lt (header_number <$> ct_blocks c);
  ok_commit : env_commitment <$> last (ct_blocks c) = Some (mj_steelCommit j);
  (* the epochs are those that are finalized in the blocks, each once *)
  ok_epochs : tabled (finalizations (povw_accounting_address input) (ct_blocks c)) (ct_epochs c);
  ok_final : ct_final c ∈ ct_blocks c
    /\ latest_of (povw_accounting_address input) (ct_blocks c) None = Some (header_number (ct_final c));
  ok_end : ct_end c ∈ ct_blocks c
    /\ header_number (ct_end c) = wsub 64 (header_number (ct_final c)) 1;
  (* the updates of each log form a chain that ends at its commitment *)
  ok_once : NoDup (mu_workLogId <$> mj_updates j);
  ok_updates : forall u, u ∈ mj_updates j <->
    (exists e es, of_log (mu_workLogId u) (ct_events input c) = e :: es
       /\ mu_initialCommit u = ev_initialCommit e)
    /\ linked (mu_initialCommit u) (of_log (mu_workLogId u) (ct_events input c)) (mu_updatedCommit u)
    /\ mu_updatedCommit u
       = work_log_commit (ct_end c) (povw_accounting_address input) (mu_workLogId u);
  ok_seen : forall e, e ∈ ct_events input c -> ev_workLogId e ∈ mu_workLogId <$> mj_updates j;
  (* the weights are the fractions of the work of each epoch *)
  ok_weights : forall ep log rec,
    get3 (ct_weights c) ep log rec = weight_of (ct_epochs c) (ct_events input c) ep log rec;
  ok_epoch_weights : forall ep, epoch_weight (ct_weights c) ep
    = sum_of (fraction_of (ct_epochs c)) (filter (fun e => ev_epochNumber e = ep) (ct_events input c));
  ok_nonneg : weights_nonneg (ct_weights c);
  ok_finalized : forall ep, is_Some (ct_weights c !! ep) -> is_Some (ct_epochs c !! ep);
  (* the mints are the shares *)
  ok_mints : mj_mints j
    = (fun x => mkMint x.1 x.2) <$> by_key (foldl credit ∅ (ct_shares input c));
  ok_addresses : mj_povwAccountingAddress j = povw_accounting_address input
    /\ mj_zkcRewardsAddress j = zkc_rewards_address input
    /\ mj_zkcAddress j = zkc_address input
}.

(** The updates of the journal, from the links of each log. *)
Lemma journal_updates (updates : gmap Z (Z * Z)) (es : list WorkLogUpdated) (final : Z -> Z) us :
  (forall log, links None (of_log log es) (updates !! log)) ->
  (forall log a b, (log, (a, b)) ∈ by_key updates -> final log = b) ->
  us = (fun '(log_id, (first, latest)) => mkMintUpdate log_id first latest) <$> by_key updates ->
  NoDup (mu_workLogId <$> us)
  /\ (forall u, u ∈ us <->
       (exists e l, of_log (mu_workLogId u) es = e :: l /\ mu_initialCommit u = ev_initialCommit e)
       /\ linked (mu_initialCommit u) (of_log (mu_workLogId u) es) (mu_updatedCommit u)
       /\ mu_updatedCommit u = final (mu_workLogId u))
  /\ (forall e, e ∈ es -> ev_workLogId e ∈ mu_workLogId <$> us).
Proof using Type.
  intros Hl Hf ->.
  assert (Hids : mu_workLogId <$> ((fun '(log_id, (first, latest)) => mkMintUpdate log_id first latest)
                   <$> by_key updates) = (by_key updates).*1).
  { rewrite <- list_fmap_compose. apply list_fmap_ext. by intros ? [? [? ?]] _. }
  rewrite Hids. split; [apply NoDup_entries|]. split.
  - intros [log a c]. rewrite list_elem_of_fmap. simpl. split.
    + intros ([log' [a' c']] & [= -> -> ->] & Hin). pose proof (Hf _ _ _ Hin) as Hc.
      apply elem_of_entries in Hin. specialize (Hl log'). rewrite Hin in Hl. simpl in Hl.
      destruct (of_log log' es) as [|e l]; [done|]. destruct Hl as (c & [= -> ->] & Hl).
      split; [by exists e, l|]. by rewrite Hc.
    + intros ((e & l & E & ->) & Hlk & _). specialize (Hl log). rewrite E in Hl, Hlk. simpl in Hl.
      destruct Hl as (c' & Hu & Hl). rewrite (linked_end _ _ _ _ Hlk Hl).
      exists (log, (ev_initialCommit e, c')). split; [done|]. by apply elem_of_entries.
  - intros e He. specialize (Hl (ev_workLogId e)).
    assert (e ∈ of_log (ev_workLogId e) es) as Hin by (by apply list_elem_of_filter).
    destruct (of_log (ev_workLogId e) es) as [|e0 l]; [by apply elem_of_nil in Hin|].
    destruct Hl as (c' & Hu & _). apply list_elem_of_fmap.
    exists (ev_workLogId e, (ev_initialCommit e0, c')). split; [done|]. by apply elem_of_entries.
Qed.

Lemma finalized_nonneg address envs epochs ep t :
  chain_uints -> tabled (finalizations address envs) epochs -> epochs !! ep = Some t -> 0 <= t.
Proof using Type.
  intros Hu [_ Ht] He. apply Ht in He. unfold finalizations in He.
  apply list_elem_of_bind in He as (env & He & _). by apply Hu in He.
Qed.

Lemma run_certified input j (tr tr' : trace) :
  chain_uints -> mint_calculator input tr = (Ok j, tr') -> exists c, certified input j c.
Proof using Type.
  intros Hu. unfold mint_calculator. intros H1.
  bind_step H1 spec tr1 E1. apply liftr_Ok in E1 as [E1%unwrap_Ok ->].
  bind_step H1 envs tr2 E2. apply into_envs_Ok in E2 as (B1 & B2 & l & B3 & B4).
  bind_step H1 p tr3 E3. destruct p as [latest epochs].
  destruct (finalized_epochs_Ok _ _ _ _ _ _ [] _ _ E3) as [F1 ->].
  { split; [constructor|]. intros ep t. rewrite lookup_empty. split; [done|by intros ?%elem_of_nil]. }
  simpl in F1. bind_step H1 p tr4 E4. destruct p as [weights updates].
  apply collect_updates_Ok in E4.
  pose proof (fun ep t => finalized_nonneg _ _ _ ep t Hu F1) as Ht.
  apply apply_updates_spec in E4 as [U1 U2 U3 U4 U5]; [|exact Ht].
  bind_step H1 latest tr5 E5. apply liftr_Ok in E5 as [E5%unwrap_Ok ->].
  bind_step H1 env_end tr6 E6. apply liftr_Ok in E6 as [E6%unwrap_Ok ->].
  bind_step H1 x7 tr7 E7. pose proof (check_completeness_Ok _ _ _ _ _ _ E7) as C.
  bind_step H1 env_fin tr8 E8. apply liftr_Ok in E8 as [E8%unwrap_Ok ->].
  assert (Hnn : weights_nonneg weights).
  { apply U4. intros ep ? ? ? ? ?. by rewrite lookup_empty. }
  bind_step H1 rewards tr9 E9. apply epoch_rewards_Ok in E9; [|done|].
  2: { intros ep logs log ws Hep%elem_of_entries Hlog. apply Forall_forall. intros [r x] Hr%elem_of_entries.
       simpl. by eapply Hnn. }
  bind_step H1 commit tr10 E10. apply liftr_Ok in E10 as [E10%unwrap_Ok ->]. injection H1 as <- <-.
  pose proof (B2 _ _ E8) as N8. pose proof (B2 _ _ E6) as N6.
  destruct (journal_updates updates _ (work_log_commit env_end (povw_accounting_address input)) _
              (fun log => eq_ind _ (fun o => links o _ _) (U1 log) _ (lookup_empty log)) C eq_refl)
    as (J1 & J2 & J3).
  exists (mkCertificate (blocks envs) epochs weights env_end env_fin).
  split; simpl; try done.
  - by exists spec, l.
  - by apply blocks_sorted.
  - split; [apply elem_of_blocks; by exists latest|]. by rewrite N8.
  - split; [apply elem_of_blocks; by exists (wsub 64 latest 1)|]. by rewrite N8.
  - intros ep Hep. destruct (U5 ep Hep) as [[? Hn]|]; [by rewrite lookup_empty in Hn|done].
  - rewrite E9. unfold ct_shares. simpl. apply list_fmap_ext. by intros ? [? ?] _.
Qed.
End Guest.
