(* ===== verification/MintFacts.v ===== *)
(** * The mints of the mint calculator, and what its host prepares

    Properties of [Povw]: what an accepted run certifies, that the mints stay within the
    emissions and the caps, that the host prepares what the guest asks, that the blocks it
    gives are no further apart than the gap, and the log updater. *)

From S2P Require Import Prelude Market Povw PovwFacts.
Import Byte.

Local Open Scope Z_scope.

(** ** Sums of fractions *)

Lemma floor_sum {A} (f : A -> Z) (l : list A) T B :
  0 < T -> T * foldr (fun x acc => f x * B / T + acc) 0 l <= B * foldr (fun x acc => f x + acc) 0 l.
Proof.
  intros HT. induction l as [|x l IH]; simpl; [lia|].
  pose proof (Z.mul_div_le (f x * B) T HT). nia.
Qed.

Lemma BASE_pos : 0 < FixedPoint.BASE.
Proof. by vm_compute. Qed.

(** The work of an epoch, when it is no more than its total, is a weight of at most one. *)
Lemma fractions_le_one epochs ep t es :
  epochs !! ep = Some t -> Forall (fun e => ev_epochNumber e = ep /\ 0 <= ev_updateValue e) es ->
  sum_of ev_updateValue es <= t ->
  sum_of (fraction_of epochs) es <= FixedPoint.BASE.
Proof.
  intros He Hes Hle. pose proof BASE_pos.
  destruct (decide (0 < t)) as [Ht|Ht].
  - assert (sum_of (fraction_of epochs) es
      = foldr (fun e acc => ev_updateValue e * FixedPoint.BASE / t + acc) 0 es) as ->.
    { clear Hle. induction Hes as [|e es [<- Hv] Hes IH]; [done|]. simpl. rewrite IH.
      unfold fraction_of. rewrite He. simpl. destruct (Z.ltb_spec 0 (ev_updateValue e)); [done|].
      assert (ev_updateValue e = 0) as -> by lia. done. }
    pose proof (floor_sum ev_updateValue es t FixedPoint.BASE Ht). unfold sum_of in Hle. nia.
  - assert (sum_of (fraction_of epochs) es = 0) as ->; [|lia].
    assert (Hs : sum_of ev_updateValue es <= 0) by lia. clear Hle.
    assert (Hp : forall es, Forall (fun e => ev_epochNumber e = ep /\ 0 <= ev_updateValue e) es ->
                   0 <= sum_of ev_updateValue es).
    { intros l Hl. induction Hl as [|e l [_ Hv] Hl IH]; simpl; [done|]. unfold sum_of in *. simpl. lia. }
    induction Hes as [|e es [<- Hv] Hes IH]; [done|]. pose proof (Hp es Hes).
    unfold sum_of in *. simpl in *. rewrite IH by lia. unfold fraction_of.
    destruct (Z.ltb_spec 0 (ev_updateValue e)); lia.
Qed.

Lemma sum_snd_nonneg l : Forall (fun x => 0 <= x.2) l -> 0 <= sum_snd l.
Proof. intros Hl. unfold sum_snd. induction Hl; simpl; lia. Qed.

(** The uncapped rewards of an epoch are within its emissions. *)
Lemma uncapped_sum E (logs : list (Z * gmap Z Z)) :
  0 <= E ->
  FixedPoint.BASE * foldr (fun x acc => uncapped E (by_key x.2) + acc) 0 logs
  <= E * foldr (fun x acc => sum_map id x.2 + acc) 0 logs.
Proof.
  intros HE. pose proof BASE_pos as HB. induction logs as [|[log ws] logs IH]; simpl; [lia|].
  rewrite sum_map_entries. unfold uncapped at 1.
  assert (FixedPoint.BASE * foldr (fun x acc => x.2 * E / FixedPoint.BASE + acc) 0 (by_key ws)
          <= E * foldr (fun x acc => id x.2 + acc) 0 (by_key ws)) as Hw;
    [exact (floor_sum snd (by_key ws) FixedPoint.BASE E HB)|]. lia.
Qed.

Section Emissions.
Context {Env EvmInput Spec Commitment : Type} `{Steel Env EvmInput Spec Commitment}.

Lemma log_shares_sum zr (env : Env) E t logs :
  chain_uints -> 0 <= E ->
  (forall log ws, (log, ws) ∈ logs -> Forall (fun x => 0 <= x.2) (by_key ws)) ->
  sum_snd (log_shares zr env E t logs) <= foldr (fun x acc => uncapped E (by_key x.2) + acc) 0 logs
  /\ Forall (fun x => 0 <= x.2) (log_shares zr env E t logs).
Proof using Type.
  intros Hu HE. induction logs as [|[log ws] logs IH]; intros Hw; simpl; [by split|].
  destruct IH as [I1 I2]; [intros; eapply Hw; by right|].
  destruct (shares_sum E (by_key ws) (past_reward_cap env zr log t)) as [S1 S2];
    [apply Hu|done|apply (Hw log); by left|].
  change (log_shares zr env E t ((log, ws) :: logs))
    with (shares E (by_key ws) (past_reward_cap env zr log t) ++ log_shares zr env E t logs).
  rewrite sum_snd_app, S1. split; [simpl; lia|]. by apply Forall_app.
Qed.

(** No epoch gives more than its emissions. *)
Definition emissions_of (zkc : Z) (env : Env) (epochs : list (Z * gmap Z (gmap Z Z))) : Z :=
  foldr (fun x acc => povw_emissions env zkc x.1 + acc) 0 epochs.

Lemma epoch_shares_sum zkc zr (env : Env) epochs :
  chain_uints ->
  (forall ep logs, (ep, logs) ∈ epochs -> sum_map (sum_map id) logs <= FixedPoint.BASE
     /\ forall log ws, logs !! log = Some ws -> Forall (fun x => 0 <= x.2) (by_key ws)) ->
  sum_snd (epoch_shares zkc zr env epochs) <= emissions_of zkc env epochs
  /\ Forall (fun x => 0 <= x.2) (epoch_shares zkc zr env epochs).
Proof using Type.
  intros Hu. induction epochs as [|[ep logs] epochs IH]; intros He; simpl; [by split|].
  destruct IH as [I1 I2]; [intros; eapply He; by right|].
  destruct (He ep logs) as [H1 H2]; [by left|]. set (E := povw_emissions env zkc ep).
  assert (HE : 0 <= E) by apply Hu.
  destruct (log_shares_sum zr env E (epoch_end_time env zkc ep) (by_key logs)) as [L1 L2]; [done..| |].
  { intros log ws Hin%elem_of_entries. by eapply H2. }
  change (epoch_shares zkc zr env ((ep, logs) :: epochs))
    with (log_shares zr env E (epoch_end_time env zkc ep) (by_key logs)
          ++ epoch_shares zkc zr env epochs).
  rewrite sum_snd_app. split; [|by apply Forall_app].
  pose proof (uncapped_sum E (by_key logs) HE) as Hs. rewrite <- sum_map_entries in Hs.
  pose proof BASE_pos. unfold emissions_of in *. simpl. fold E. nia.
Qed.
End Emissions.

(** ** What the guest certifies *)

Section Certified.
Context {Env EvmInput Spec Commitment : Type} `{Steel Env EvmInput Spec Commitment}.

(** C4. The mint calculator commits to a journal only for what the chain of its
    commitment shows: the blocks of the input are linked, each to the one before, and end
    with the commitment; the epochs are those finalized in these blocks, none of them
    twice; the updates of the journal are, one for each work log, the chain of all the
    updates of that log that the filter and the epochs admit, without gaps, and end with the
    commitment that the log has in the block before the last finalization, so that no
    update of these epochs is left for another mint; the weights are the fractions of the
    work of each epoch; and the mints are the shares of the emissions under the caps. *)
Theorem mint_calculator_certifies input j (tr tr' : Trace (Commitment := Commitment)) :
  chain_uints -> mint_calculator input tr = (Ok j, tr') -> exists c, certified input j c.
Proof using Type. apply run_certified. Qed.

(** What the accounting contract maintains: the values of an epoch add up to no more than
    the total with which it is finalized. *)
Definition accounted (input : MintInput EvmInput) (c : certificate) : Prop :=
  forall ep t, ct_epochs c !! ep = Some t ->
    sum_of ev_updateValue (filter (fun e => ev_epochNumber e = ep) (ct_events input c)) <= t.

Definition total_emissions (input : MintInput EvmInput) (c : certificate) : Z :=
  emissions_of (zkc_address input) (ct_final c) (by_key (ct_weights c)).

Lemma entries_nonneg (m : gmap Z Z) :
  (forall r x, m !! r = Some x -> 0 <= x) -> Forall (fun x => 0 <= x.2) (by_key m).
Proof using Type.
  intros Hm. apply Forall_forall. intros [r x] Hin%elem_of_entries. by eapply Hm.
Qed.

Lemma events_nonneg input (c : certificate) ep :
  chain_uints ->
  Forall (fun e => ev_epochNumber e = ep /\ 0 <= ev_updateValue e)
    (filter (fun e => ev_epochNumber e = ep) (ct_events input c)).
Proof using Type.
  intros Hu. apply Forall_forall. intros e [He Hin]%list_elem_of_filter. split; [done|].
  unfold ct_events, counted, update_events in Hin. apply list_elem_of_filter in Hin as [_ Hin].
  apply list_elem_of_bind in Hin as (env & Hin & _). by apply Hu in Hin.
Qed.

Lemma certified_shares input j c :
  chain_uints -> certified input j c -> accounted input c ->
  sum_snd (ct_shares input c) <= total_emissions input c
  /\ Forall (fun x => 0 <= x.2) (ct_shares input c).
Proof using Type.
  intros Hu Hc Ha. apply epoch_shares_sum; [done|]. intros ep logs Hep%elem_of_entries. split.
  - replace (sum_map (sum_map id) logs) with (epoch_weight (ct_weights c) ep)
      by (unfold epoch_weight; by rewrite Hep).
    rewrite (ok_epoch_weights _ _ _ Hc).
    destruct (ok_finalized _ _ _ Hc ep) as [t Ht]; [by rewrite Hep|].
    eapply fractions_le_one; [done|by apply events_nonneg|by apply Ha].
  - intros log ws Hlog. apply entries_nonneg. intros r x Hr. by eapply (ok_nonneg _ _ _ Hc).
Qed.

(** C10. The mints stay within the emissions: when the values of each epoch add up to its total
    work, as the accounting contract maintains, and the emissions of the epochs fit in 256
    bits, the amounts of the journal add up to no more than the emissions; the recipients
    of a work log get together, in each epoch, exactly what their work is worth up to the
    cap of the log; and what a recipient is minted is exactly the sum of its shares, never
    nothing and not wrapped. *)
Theorem mints_within_emissions input j (tr tr' : Trace (Commitment := Commitment)) :
  chain_uints -> mint_calculator input tr = (Ok j, tr') ->
  exists c, certified input j c
    /\ (accounted input c -> total_emissions input c < 2 ^ 256 ->
        foldr (fun m acc => mint_value m + acc) 0 (mj_mints j) <= total_emissions input c
        /\ (forall m, m ∈ mj_mints j ->
              0 < mint_value m /\ mint_value m = given (ct_shares input c) (mint_recipient m))
        /\ (forall ep logs log ws, ct_weights c !! ep = Some logs -> logs !! log = Some ws ->
              let emissions := povw_emissions (ct_final c) (zkc_address input) ep in
              let cap := past_reward_cap (ct_final c) (zkc_rewards_address input) log
                           (epoch_end_time (ct_final c) (zkc_address input) ep) in
              sum_snd (shares emissions (by_key ws) cap)
              = Z.min (uncapped emissions (by_key ws)) cap)).
Proof using Type.
  intros Hu Hr. destruct (run_certified _ _ _ _ Hu Hr) as [c Hc]. exists c. split; [done|].
  intros Ha Hlt. destruct (certified_shares _ _ _ Hu Hc Ha) as [S1 S2].
  destruct (credits_exact (ct_shares input c) ∅) as (C1 & C2 & _ & C4); [done| | |].
  { intros r x. by rewrite lookup_empty. }
  { rewrite sum_map_empty. lia. }
  rewrite sum_map_empty, Z.add_0_l in C1. rewrite (ok_mints _ _ _ Hc). split_and!.
  - rewrite sum_map_entries in C1.
    transitivity (sum_snd (ct_shares input c)); [|done]. rewrite <- C1. clear C1.
    induction (by_key _) as [|[r x] l IH]; [done|]. unfold id in *. simpl in *. unfold fmap in IH. lia.
  - intros m ([r x] & -> & Hin)%list_elem_of_fmap. simpl. apply elem_of_entries in Hin. split.
    + eapply C4; [|done]. intros ? ?. by rewrite lookup_empty.
    + specialize (C2 r). unfold balance in C2. rewrite Hin, lookup_empty in C2. simpl in C2. lia.
  - intros ep logs log ws Hep Hlog. simpl.
    refine (proj1 (shares_sum _ _ _ _ _ _)); [apply Hu|apply Hu|].
    apply entries_nonneg. intros r x Hr'. by eapply (ok_nonneg _ _ _ Hc).
Qed.
End Certified.

(** *** A chain of three blocks *)

(** Log 7 works in block 10, for two recipients; epoch 1 is finalized in block 12. *)
#[local] Instance three_blocks : Steel Z Z unit Z := {
  chain_spec := fun n => if n =? 1 then Some tt else None;
  into_env := fun n _ => Some n;
  header_number := id;
  env_commitment := id;
  verifies := fun n prev => prev =? n - 1;
  epoch_finalized_events := fun n _ => if n =? 12 then [mkEpochFinalized 1 100] else [];
  work_log_updated_events := fun n _ =>
    if n =? 10 then [mkWorkLogUpdated 7 1 0 21 30 5; mkWorkLogUpdated 7 1 21 22 20 6;
                     mkWorkLogUpdated 7 1 22 23 25 5] else [];
  work_log_commit := fun _ _ log => if log =? 7 then 23 else 0;
  povw_emissions := fun _ _ _ => 1000;
  epoch_end_time := fun _ _ _ => 500;
  past_reward_cap := fun _ _ _ _ => 600
}.

Definition three_input : MintInput Z := mkMintInput 1 2 3 1 [12; 10; 11] filter_any.

Definition three_journal : MintCalculatorJournal Z :=
  mkMintJournal [mkMint 5 549; mkMint 6 51] [mkMintUpdate 7 0 23] 1 3 2 12.

Lemma three_blocks_uints : chain_uints (Env := Z).
Proof.
  split_and!; try done.
  - intros n a e. simpl. destruct (n =? 10); intros Hin;
      repeat (apply elem_of_cons in Hin as [->|Hin]; [done|]); by apply elem_of_nil in Hin.
  - intros n a e. simpl. destruct (n =? 12); intros Hin;
      repeat (apply elem_of_cons in Hin as [->|Hin]; [done|]); by apply elem_of_nil in Hin.
Qed.

Lemma three_blocks_run : exists tr, mint_calculator three_input [] = (Ok three_journal, tr).
Proof. eexists. vm_compute. reflexivity. Qed.

Lemma three_blocks_accounted c :
  certified three_input three_journal c ->
  accounted three_input c /\ total_emissions three_input c < 2 ^ 256.
Proof.
  intros Hc. destruct (ok_input _ _ _ Hc) as ([] & l & _ & Hl & Hp).
  simpl in Hl. injection Hl as <-.
  assert (Hb : ct_blocks c = [10; 11; 12]).
  { apply (StronglySorted_unique Z.le); [|by repeat constructor; lia|].
    - pose proof (ok_order _ _ _ Hc) as Ho. simpl in Ho.
      replace (id <$> ct_blocks c) with (ct_blocks c) in Ho by (symmetry; apply list_fmap_id).
      clear -Ho. induction Ho as [|x l Hl IH Hx]; constructor; [done|].
      eapply List.Forall_impl; [|exact Hx]. intros. lia.
    - rewrite Hp. apply (Permutation_cons_append [10; 11] 12). }
  pose proof (ok_epochs _ _ _ Hc) as [_ Ht]. rewrite Hb in Ht. simpl in Ht.
  split.
  - intros ep t He. apply Ht in He. apply list_elem_of_singleton in He as [= -> ->].
    unfold ct_events. rewrite Hb. simpl.
    assert (E1 : ct_epochs c !! 1 = Some 100) by (apply Ht; by left).
    unfold counted. repeat (rewrite (filter_cons_True (counts _ _)); [|split; [done|eexists; exact E1]]).
    vm_compute. done.
  - unfold total_emissions, emissions_of. simpl.
    assert (Hk : forall k, k ∈ (by_key (ct_weights c)).*1 -> k = 1).
    { intros k ([k' v] & -> & Hin%elem_of_entries)%list_elem_of_fmap.
      destruct (ok_finalized _ _ _ Hc k') as [t Hf]; [by rewrite Hin|].
      apply Ht in Hf. by apply list_elem_of_singleton in Hf as [= -> _]. }
    pose proof (NoDup_entries (ct_weights c)) as Hn.
    destruct (by_key (ct_weights c)) as [|[k v] [|[k' v'] l]]; simpl in *; [done..|].
    rewrite (Hk k), (Hk k') in Hn by set_solver. apply NoDup_cons in Hn as [Hn _]. set_solver.
Qed.

Lemma mint_calculator_certifies_witness :
  exists c, certified three_input three_journal c.
Proof.
  destruct three_blocks_run as [tr Hr].
  exact (mint_calculator_certifies three_input three_journal [] tr three_blocks_uints Hr).
Defined.

Lemma mints_within_emissions_witness :
  exists c, certified three_input three_journal c
    /\ foldr (fun m acc => mint_value m + acc) 0 (mj_mints three_journal) <= total_emissions three_input c.
Proof.
  destruct three_blocks_run as [tr Hr].
  destruct (mints_within_emissions three_input three_journal [] tr three_blocks_uints Hr)
    as (c & Hc & Hm).
  destruct (three_blocks_accounted c Hc) as [Ha He].
  exists c. split; [exact Hc|]. apply (Hm Ha He).
Defined.

(** ** The log updater *)

Section LogUpdaterFacts.
Context `{PovwExternals}.

Lemma verify_signature_Ok u signer signature a n x :
  update_verify_signature u signer signature a n = Ok x
  <-> exists v, povw_sig_parse signature = Some v /\ povw_sig_noncanonical v = false
      /\ povw_sig_recover v (work_log_signing_hash u a n) = Some signer.
Proof.
  unfold update_verify_signature. destruct (povw_sig_parse signature) as [v|]; simpl.
  2: { split; [done|]. by intros (v & ? & _). }
  destruct (povw_sig_noncanonical v) eqn:Ec.
  { split; [done|]. intros (w & [= <-] & ? & _). congruence. }
  destruct (povw_sig_recover v _) as [r|] eqn:Er; simpl.
  - destruct (Z.eqb_spec r signer) as [->|Hne]; [destruct x|]; (split; [intros [=]; by exists v|]).
    + done.
    + intros (w & [= <-] & _ & E). congruence.
  - split; [done|]. intros (w & [= <-] & _ & E). congruence.
Qed.

(** C29. The log updater commits exactly to updates that are authorized: a frame is accepted
    iff it decodes to an input whose journal was proven by the log builder, which names
    itself, with a recipient other than the zero address and a canonical signature of the
    owner of the work log over the update for this contract and chain; what is committed
    is that update with the hash of the domain. *)
Theorem log_updater_accepts_iff frame out :
  log_updater_main frame = Ok out
  <-> exists input encoded v,
        let update := from_log_builder_journal (li_update input) (li_value_recipient input) in
        let domain := povw_domain (li_contract_address input) (li_chain_id input) in
        log_input_decode frame = Some input
        /\ journal_encode (li_update input) = Some encoded
        /\ env_verify log_builder_id encoded = true
        /\ self_image_id (li_update input) = log_builder_id
        /\ li_value_recipient input <> 0
        /\ povw_sig_parse (li_signature input) = Some v /\ povw_sig_noncanonical v = false
        /\ povw_sig_recover v (update_signing_hash domain update) = Some (work_log_id (li_update input))
        /\ out = log_journal_encode (mkLogJournal update (domain_hash_struct domain)).
Proof.
  unfold log_updater_main. destruct (log_input_decode frame) as [input|]; simpl.
  2: { split; [done|]. by intros (? & ? & ? & ? & _). }
  destruct (journal_encode (li_update input)) as [encoded|] eqn:Ej; simpl.
  2: { split; [done|]. intros (? & ? & ? & [= <-] & ? & _). congruence. }
  unfold guest_assert. destruct (env_verify log_builder_id encoded) eqn:Ev; simpl.
  2: { split; [done|]. intros (? & ? & ? & [= <-] & ? & ? & _). congruence. }
  destruct (Z.eqb_spec (self_image_id (li_update input)) log_builder_id) as [Ei|Ei]; simpl.
  2: { split; [done|]. intros (? & ? & ? & [= <-] & ? & ? & ? & _). congruence. }
  destruct (Z.eqb_spec (li_value_recipient input) 0) as [E0|E0]; simpl.
  { split; [done|]. by intros (? & ? & ? & [= <-] & ? & ? & ? & ? & _). }
  set (u := from_log_builder_journal _ _).
  destruct (update_verify_signature u (work_log_id (li_update input)) (li_signature input) (li_contract_address input)
              (li_chain_id input)) as [[]|e|] eqn:Es; simpl.
  - apply verify_signature_Ok in Es as (v & V1 & V2 & V3). split.
    + intros E. injection E as <-. by exists input, encoded, v.
    + by intros (i & b & w & [= <-] & _ & _ & _ & _ & _ & _ & _ & ->).
  - split; [done|]. intros (i & b & w & [= <-] & _ & _ & _ & _ & V1 & V2 & V3 & _).
    assert (update_verify_signature u (work_log_id (li_update input)) (li_signature input) (li_contract_address input)
              (li_chain_id input) = Ok tt) by (apply verify_signature_Ok; by exists w). congruence.
  - split; [done|]. intros (i & b & w & [= <-] & _ & _ & _ & _ & V1 & V2 & V3 & _).
    assert (update_verify_signature u (work_log_id (li_update input)) (li_signature input) (li_contract_address input)
              (li_chain_id input) = Ok tt) by (apply verify_signature_Ok; by exists w). congruence.
Qed.

(** A wallet: what it signs can be recovered. *)
Definition signs (signer_address : Z) (sign_hash : bytes -> result string bytes) : Prop :=
  forall h s, sign_hash h = Ok s -> exists v, povw_sig_parse s = Some v
    /\ povw_sig_noncanonical v = false /\ povw_sig_recover v h = Some signer_address.

(** C34. What the prover prepares is accepted: for a journal of the log builder that has a
    proof, the frame that is built with the signature of the wallet makes the log updater
    commit to the update with the given recipient, by default the wallet itself, unless
    that recipient is the zero address: then the frame is built all the same, and the log
    updater panics on it.  The frame is only built when the wallet owns the work log. *)
Theorem prepared_update_accepted a n recipient signer sign_hash journal encoded frame :
  (forall i b, log_input_encode i = Some b -> log_input_decode b = Some i) ->
  signs signer sign_hash ->
  journal_encode journal = Some encoded -> env_verify log_builder_id encoded = true ->
  self_image_id journal = log_builder_id ->
  prove_update_frame a n recipient signer sign_hash (Some journal) = Ok frame ->
  work_log_id journal = signer
  /\ log_updater_main frame
     = if default signer recipient =? 0 then Panic
       else Ok (log_journal_encode (mkLogJournal
             (from_log_builder_journal journal (default signer recipient))
             (domain_hash_struct (povw_domain a n)))).
Proof.
  intros Hrt Hs Hj Hv Hi Hf. unfold prove_update_frame in Hf. cbn -[sign_and_build] in Hf.
  unfold sign_and_build in Hf. simpl in Hf.
  destruct (Z.eqb_spec signer (work_log_id journal)) as [->|]; [|done]. simpl in Hf. split; [done|].
  destruct (sign_hash _) as [s|e|] eqn:Esig; [|done..]. simpl in Hf.
  destruct (log_input_encode _) as [b|] eqn:Eb; [|done]. injection Hf as <-.
  apply Hrt in Eb. destruct (Hs _ _ Esig) as (v & V1 & V2 & V3).
  unfold log_updater_main. rewrite Eb. cbn -[update_verify_signature]. rewrite Hj. simpl. rewrite Hv. cbn -[update_verify_signature].
  rewrite Hi, Z.eqb_refl. cbn -[update_verify_signature].
  destruct (Z.eqb_spec (default (work_log_id journal) recipient) 0); [done|]. cbn -[update_verify_signature].
  rewrite (proj2 (verify_signature_Ok _ _ _ _ _ tt)); [done|]. by exists v.
Qed.
End LogUpdaterFacts.

(** *** A log updater that knows one update *)

#[export] Instance LogBuilderJournal_eq_dec : EqDecision LogBuilderJournal.
Proof. solve_decision. Defined.
#[export] Instance LogInput_eq_dec : EqDecision LogInput.
Proof. solve_decision. Defined.

Definition one_journal : LogBuilderJournal := mkLogBuilderJournal 9 7 0 21 30.
Definition one_input : LogInput := mkLogInput one_journal 5 [x07] 1 11.

#[local] Instance one_update : PovwExternals := {
  log_builder_id := 9;
  journal_encode := fun j => if decide (j = one_journal) then Some [x01] else None;
  env_verify := fun id b => (id =? 9) && bool_decide (b = [x01]);
  log_input_encode := fun i => if decide (i = one_input) then Some [x02] else None;
  log_input_decode := fun b => if decide (b = [x02]) then Some one_input else None;
  log_journal_encode := fun j => [x03];
  domain_hash_struct := fun _ => [x04];
  update_signing_hash := fun _ _ => [x05];
  povw_sig_parse := fun s => if decide (s = [x07]) then Some 7 else None;
  povw_sig_noncanonical := fun _ => false;
  povw_sig_recover := fun v h => if decide (h = [x05]) then Some v else None
}.

Lemma prepared_update_accepted_witness :
  work_log_id one_journal = 7
  /\ log_updater_main [x02]
     = Ok (log_journal_encode (mkLogJournal (from_log_builder_journal one_journal 5)
             (domain_hash_struct (povw_domain 1 11)))).
Proof.
  apply (prepared_update_accepted 1 11 (Some 5) 7
           (fun h => if decide (h = [x05]) then Ok [x07] else Err "hash"%string) one_journal [x01] [x02]).
  - intros i b. simpl. destruct (decide (i = one_input)) as [->|]; [|done]. by intros [= <-].
  - intros h s. simpl. destruct (decide (h = [x05])) as [->|]; [|done]. intros [= <-]. by exists 7.
  - reflexivity.
  - reflexivity.
  - reflexivity.
  - reflexivity.
Defined.

(** ** Gaps *)

(** The numbers with every gap filled, in one go. *)
Fixpoint fill_from (gap a : Z) (l : list Z) : list Z :=
  match l with
  | [] => []
  | b :: l => ((fun i => a + gap * i) <$> seqZ 1 ((b - a - 1) / gap)) ++ b :: fill_from gap b l
  end.

Definition fill_gaps (gap : Z) (l : list Z) : list Z :=
  match l with [] => [] | a :: l => a :: fill_from gap a l end.

Lemma fill_near gap a b l :
  0 < gap -> b <= a + gap -> fill_from gap a (b :: l) = b :: fill_from gap b l.
Proof.
  intros Hg Hb. simpl. rewrite seqZ_nil; [done|].
  assert ((b - a - 1) / gap < 1); [|lia]. apply Z.div_lt_upper_bound; lia.
Qed.

Lemma fill_far gap a b l :
  0 < gap -> a + gap < b -> fill_from gap a (b :: l) = (a + gap) :: fill_from gap (a + gap) (b :: l).
Proof.
  intros Hg Hb. simpl. set (k := (b - (a + gap) - 1) / gap).
  assert ((b - a - 1) / gap = Z.succ k) as ->.
  { unfold k. replace (b - a - 1) with (b - (a + gap) - 1 + 1 * gap) by lia. rewrite Z.div_add; lia. }
  assert (0 <= k) by (apply Z.div_pos; lia).
  rewrite seqZ_cons by lia. rewrite Z.pred_succ. simpl. f_equal; [lia|]. f_equal.
  replace (Z.succ 1) with (1 + 1) by lia. rewrite <- (fmap_add_seqZ 1 1), <- list_fmap_compose.
  apply list_fmap_ext. intros i x _. simpl. lia.
Qed.

Lemma patched_fill gap fuel a l :
  0 < gap -> 0 <= a -> Forall (fun b => 0 <= b /\ b + gap < 2 ^ 64) (a :: l) ->
  (length (fill_from gap a l) <= fuel)%nat ->
  patched fuel gap (mkPatched l (Some a) None) = fill_from gap a l
  /\ match l with
     | [] => True
     | b :: l' => patched fuel gap (mkPatched l' (Some a) (Some b)) = fill_from gap a l
     end.
Proof.
  intros Hg. revert a l. induction fuel as [|fuel IH]; intros a l Ha Hl Hf.
  - destruct (fill_from gap a l) eqn:E; [|simpl in Hf; lia]. split; [done|]. by destruct l.
  - destruct l as [|b l]; [by split|].
    apply Forall_cons in Hl as [[_ Ha2] Hl]. pose proof Hl as [[Hb1 Hb2] Hl2]%Forall_cons.
    assert (E : wadd 64 a gap = a + gap) by (apply wadd_small; unfold fits; lia).
    cbn [patched patched_next pi_next pi_iter pi_prev default]. unfold default, from_option, id. rewrite E.
    destruct (Z.ltb_spec (a + gap) b) as [Hlt|Hge].
    + rewrite fill_far in Hf |- * by lia. simpl in Hf.
      destruct (IH (a + gap) (b :: l)) as [_ I2]; [lia| |simpl; lia|].
      * constructor; [lia|done].
      * split; f_equal; exact I2.
    + rewrite fill_near in Hf |- * by lia. simpl in Hf.
      destruct (IH b l) as [I1 _]; [lia|done|lia|]. split; f_equal; exact I1.
Qed.

(** Neighbours. *)
Fixpoint within (gap a : Z) (l : list Z) : Prop :=
  match l with [] => True | b :: l => b <= a + gap /\ within gap b l end.

Lemma fill_within gap a l : 0 < gap -> within gap a (fill_from gap a l).
Proof.
  intros Hg. revert a. induction l as [|b l IH]; intros a; [done|].
  destruct (Z.le_gt_cases b (a + gap)).
  - rewrite fill_near by done. by split.
  - assert (Hn : exists n, (n = Z.to_nat (b - a))%nat) by eauto. destruct Hn as [n Hn].
    revert a Hn H. induction n as [n IHn] using lt_wf_ind; intros a Hn Hlt.
    rewrite fill_far by lia. split; [lia|].
    destruct (Z.le_gt_cases b (a + gap + gap)).
    + rewrite fill_near by done. by split.
    + eapply (IHn (Z.to_nat (b - (a + gap)))); [lia|done|lia].
Qed.

Lemma fill_keeps gap a l : sublist l (fill_from gap a l).
Proof.
  revert a. induction l as [|b l IH]; intros a; simpl; [constructor|].
  apply sublist_inserts_l. by constructor.
Qed.

(** C40. The blocks that are given to the host: as many calls of [next] as there are numbers
    with every gap filled give exactly these, and then the iterator has ended, so that it
    terminates; no number is more than the gap above the one before it, and the given
    numbers are among them in their order. *)
Theorem patched_fills gap l fuel :
  0 < gap -> Forall (fun b => 0 <= b /\ b + gap < 2 ^ 64) l -> (length (fill_gaps gap l) <= fuel)%nat ->
  let out := patched fuel gap (patched_new l) in
  out = fill_gaps gap l /\ sublist l out
  /\ match out with [] => l = [] | a :: rest => within gap a rest end.
Proof.
  intros Hg Hl Hf. simpl. assert (patched fuel gap (patched_new l) = fill_gaps gap l) as ->.
  { destruct l as [|a l]; [by destruct fuel|]. destruct fuel as [|fuel]; simpl in Hf; [lia|].
    simpl. f_equal. apply patched_fill; [done| |done|lia]. by apply Forall_cons in Hl as [[? _] _]. }
  split; [done|]. destruct l as [|a l]; simpl; [by split|]. split; [|by apply fill_within].
  constructor. apply fill_keeps.
Qed.

Lemma patched_fills_witness :
  patched 10 10 (patched_new [1; 5; 20; 25; 50]) = [1; 5; 15; 20; 25; 35; 45; 50].
Proof.
  destruct (patched_fills 10 [1; 5; 20; 25; 50] 10) as [E _].
  - lia.
  - repeat constructor; lia.
  - vm_compute. lia.
  - rewrite E. reflexivity.
Defined.
