(* ===== verification/PreflightFacts.v ===== *)
(** * The host of the mint calculator prepares what the guest asks

    [Input::build] queries a node for the blocks that the guest will see; Steel can answer
    the guest only what was asked then.  Every question of [Povw.mint_calculator] on the
    input that is built was put by [Povw.mint_input_build], for the same block. *)

From S2P Require Import Prelude Market Povw PovwFacts MintFacts.

Local Open Scope Z_scope.

Section Preflight.
Context {Env EvmInput Spec Commitment : Type} `{Steel Env EvmInput Spec Commitment}.

Abbreviation trace := (Trace (Commitment := Commitment)).
Abbreviation question := (Z * Query Commitment)%type.

(** ** What a computation asks *)

Definition asks_only (P : question -> Prop) {A} (m : ste trace string A) : Prop :=
  forall tr r tr', m tr = (r, tr') -> forall x, x ∈ tr' -> x ∈ tr \/ P x.

Lemma asks_ret P {A} (a : A) : asks_only P (mret a).
Proof using Type. intros tr r tr' [= _ <-] x Hx. by left. Qed.

Lemma asks_liftr P {A} (r0 : result string A) : asks_only P (liftr r0).
Proof using Type. intros tr r tr' [= _ <-] x Hx. by left. Qed.

Lemma asks_ask P {A} env q (a : A) : P (header_number env, q) -> asks_only P (ask env q a).
Proof using Type.
  intros Hp tr r tr' [= _ <-] x [Hx|Hx]%elem_of_app; [by left|].
  apply list_elem_of_singleton in Hx as ->. by right.
Qed.

Lemma asks_bind P {A B} (m : ste trace string A) (f : A -> ste trace string B) :
  asks_only P m -> (forall a tr tr', m tr = (Ok a, tr') -> asks_only P (f a)) ->
  asks_only P (m ≫= f).
Proof using Type.
  intros Hm Hf tr r tr'. unfold mbind, ste_bind. destruct (m tr) as [[a|e|] tr1] eqn:E.
  - intros Hr x Hx. destruct (Hf _ _ _ E _ _ _ Hr x Hx) as [Hx1|]; [|by right]. by eapply Hm.
  - intros [= _ <-]. by eapply Hm.
  - intros [= _ <-]. by eapply Hm.
Qed.

Lemma asks_nothing P {A} (m : ste trace string A) : asks_only (fun _ => False) m -> asks_only P m.
Proof using Type. intros Hm tr r tr' Hr x Hx. destruct (Hm _ _ _ Hr x Hx); [by left|done]. Qed.

(** ** The questions of the guest *)

Lemma asks_collect_envs P spec inputs envs : asks_only P (collect_envs spec inputs envs).
Proof using Type.
  revert envs. induction inputs as [|i inputs IH]; intros envs; simpl; [apply asks_ret|].
  apply asks_bind; [apply asks_liftr|]. intros env _ _ _. destruct (envs !! _); [apply asks_liftr|apply IH].
Qed.

Fixpoint verify_questions (prev : Env) (envs : list Env) : list question :=
  match envs with
  | [] => []
  | env :: envs => (header_number env, QVerify (env_commitment prev)) :: verify_questions env envs
  end.

Definition continuity_questions (envs : list Env) : list question :=
  match envs with [] => [] | env :: envs => verify_questions env envs end.

Lemma asks_verify_from (P : question -> Prop) prev envs :
  (forall x, x ∈ verify_questions prev envs -> P x) -> asks_only P (verify_from prev envs).
Proof using Type.
  revert prev. induction envs as [|env envs IH]; intros prev Hp; simpl; [apply asks_ret|].
  apply asks_bind; [apply asks_ask, Hp; by left|]. intros ok _ _ _.
  apply asks_bind; [apply asks_liftr|]. intros _ _ _ _. apply IH. intros x Hx. apply Hp. by right.
Qed.

Lemma asks_insert_epochs P n es latest epochs : asks_only P (insert_epochs n es latest epochs).
Proof using Type.
  revert latest epochs. induction es as [|e es IH]; intros latest epochs; simpl; [apply asks_ret|].
  destruct (epochs !! _); [apply asks_liftr|apply IH].
Qed.

Lemma asks_finalized_epochs (P : question -> Prop) a envs latest epochs :
  (forall env, env ∈ envs -> P (header_number env, QEpochFinalized a)) ->
  asks_only P (finalized_epochs a envs latest epochs).
Proof using Type.
  revert latest epochs. induction envs as [|env envs IH]; intros latest epochs Hp; simpl; [apply asks_ret|].
  apply asks_bind; [apply asks_ask, Hp; by left|]. intros es _ _ _.
  apply asks_bind; [apply asks_insert_epochs|]. intros [l ep] _ _ _. apply IH.
  intros x Hx. apply Hp. by right.
Qed.

Lemma asks_collect_updates (P : question -> Prop) a f epochs envs w u :
  (forall env, env ∈ envs -> P (header_number env, QWorkLogUpdated a)) ->
  asks_only P (collect_updates a f epochs envs w u).
Proof using Type.
  revert w u. induction envs as [|env envs IH]; intros w u Hp; simpl; [apply asks_ret|].
  apply asks_bind; [apply asks_ask, Hp; by left|]. intros es _ _ _.
  apply asks_bind; [apply asks_liftr|]. intros [w1 u1] _ _ _. apply IH.
  intros x Hx. apply Hp. by right.
Qed.

Lemma asks_check_completeness (P : question -> Prop) a env us :
  (forall log, log ∈ us.*1 -> P (header_number env, QWorkLogCommit a log)) ->
  asks_only P (check_completeness a env us).
Proof using Type.
  induction us as [|[log [c d]] us IH]; intros Hp; simpl; [apply asks_ret|].
  apply asks_bind; [apply asks_ask, Hp; by left|]. intros es _ _ _.
  apply asks_bind; [apply asks_liftr|]. intros _ _ _ _. apply IH. intros x Hx. apply Hp. by right.
Qed.

Lemma asks_log_rewards (P : question -> Prop) zr env E t logs m :
  (forall log, log ∈ logs.*1 -> P (header_number env, QPastPoVWRewardCap zr log t)) ->
  asks_only P (log_rewards zr env E t logs m).
Proof using Type.
  revert m. induction logs as [|[log ws] logs IH]; intros m Hp; simpl; [apply asks_ret|].
  apply asks_bind; [apply asks_ask, Hp; by left|]. intros cap _ _ _.
  apply asks_bind; [apply asks_liftr|]. intros m1 _ _ _. apply IH. intros x Hx. apply Hp. by right.
Qed.

(** The questions about the rewards of a log in an epoch. *)
Definition reward_questions (P : question -> Prop) (zkc zr : Z) (env : Env) (ep log : Z) : Prop :=
  P (header_number env, QPoVWEmissions zkc ep) /\ P (header_number env, QEpochEndTime zkc ep)
  /\ P (header_number env, QPastPoVWRewardCap zr log (epoch_end_time env zkc ep)).

(** Every epoch of the weights has a log. *)
Definition weighed (w : list (Z * gmap Z (gmap Z Z))) (Q : Z -> Z -> Prop) : Prop :=
  forall ep logs, (ep, logs) ∈ w ->
    (exists log, Q ep log) /\ forall log, is_Some (logs !! log) -> Q ep log.

Lemma asks_epoch_rewards (P : question -> Prop) zkc zr env epochs m :
  weighed epochs (reward_questions P zkc zr env) ->
  asks_only P (epoch_rewards zkc zr env epochs m).
Proof using Type.
  revert m. induction epochs as [|[ep logs] epochs IH]; intros m Hp; simpl; [apply asks_ret|].
  destruct (Hp ep logs) as [(log & P1 & P2 & _) P3]; [by left|].
  apply asks_bind; [by apply asks_ask|]. intros E _ _ _.
  apply asks_bind; [by apply asks_ask|]. intros t tr tr' [= <- _].
  apply asks_bind.
  - apply asks_log_rewards. intros lg ([lg' ws] & -> & Hin%elem_of_entries)%list_elem_of_fmap.
    destruct (P3 lg') as (_ & _ & P4); [by eexists|done].
  - intros m1 _ _ _. apply IH. intros ep' logs' Hin. apply Hp. by right.
Qed.

(** ** The keys of the tables of the guest *)

Definition weight_keys (w : RewardWeightMap) (Q : Z -> Z -> Prop) : Prop :=
  forall ep logs, w !! ep = Some logs ->
    (exists log, Q ep log) /\ forall log, is_Some (logs !! log) -> Q ep log.

Lemma apply_updates_keys f epochs es w u w' u' (Q : Z -> Z -> Prop) (L : Z -> Prop) :
  apply_updates f epochs es w u = Ok (w', u') ->
  (forall e, e ∈ counted f epochs es -> L (ev_workLogId e)
     /\ (0 < ev_updateValue e -> Q (ev_epochNumber e) (ev_workLogId e))) ->
  weight_keys w Q -> (forall log, is_Some (u !! log) -> L log) ->
  weight_keys w' Q /\ forall log, is_Some (u' !! log) -> L log.
Proof using Type.
  revert w u. induction es as [|e es IH]; intros w u; simpl; [by intros [= <- <-]|].
  intros Ha He Hw Hu.
  assert (Hes : forall e, e ∈ counted f epochs es -> L (ev_workLogId e)
     /\ (0 < ev_updateValue e -> Q (ev_epochNumber e) (ev_workLogId e))).
  { intros e' He'. apply He. rewrite counted_cons. case_decide; [by right|done]. }
  destruct (includes f (ev_workLogId e)) eqn:Ei; simpl in Ha; [|by eapply IH].
  destruct (epochs !! ev_epochNumber e) as [t|] eqn:Et; [|by eapply IH].
  apply result_bind_Ok in Ha as (u1 & Hu1 & Ha). apply result_bind_Ok in Ha as (w1 & Hw1 & Ha).
  destruct (He e) as [HL HQ].
  { rewrite counted_cons, decide_True by (split; [done|by rewrite Et]). by left. }
  apply (IH _ _ Ha Hes).
  - unfold weigh in Hw1. destruct (Z.ltb_spec 0 (ev_updateValue e)) as [Hv|]; [|by injection Hw1 as <-].
    specialize (HQ Hv). apply result_bind_Ok in Hw1 as (x & _ & Hw1). unfold add_weight in Hw1.
    apply result_bind_Ok in Hw1 as (y & _ & Hw1). injection Hw1 as <-.
    intros ep logs. destruct (decide (ep = ev_epochNumber e)) as [->|];
      [|rewrite lookup_insert_ne by done; apply Hw].
    rewrite lookup_insert_eq. intros [= <-]. split; [by eexists|]. intros log.
    destruct (decide (log = ev_workLogId e)) as [->|]; [done|]. rewrite lookup_insert_ne by done.
    destruct (w !! ev_epochNumber e) as [bl|] eqn:Eb; simpl; [apply (Hw _ _ Eb)|].
    rewrite lookup_empty. by intros [? ?].
  - intros log Hlog. apply chain_update_links in Hu1 as [_ U2].
    destruct (decide (log = ev_workLogId e)) as [->|]; [done|]. rewrite U2 in Hlog by done. by apply Hu.
Qed.

(** ** The blocks of the host *)

Context `{HH : SteelHost (Env := Env) (EvmInput := EvmInput) (Commitment := Commitment)}.

(** A node builds the block that is asked for. *)
Definition builds : Prop := forall n env, build_env n = Ok env -> header_number env = n.

Definition built (envs : gmap Z Env) : Prop :=
  forall n env, envs !! n = Some env -> build_env n = Ok env.

Lemma get_or_insert_Ok n envs env envs' (tr tr' : trace) :
  builds -> built envs -> get_or_insert n envs tr = (Ok (env, envs'), tr') ->
  build_env n = Ok env /\ built envs' /\ envs' !! n = Some env /\ envs ⊆ envs'
  /\ (forall k, is_Some (envs' !! k) -> k = n \/ is_Some (envs !! k)) /\ tr' = tr.
Proof using Type.
  intros Hn Hb. unfold get_or_insert. destruct (envs !! n) as [e|] eqn:E.
  - intros [= <- <- <-]. split_and!; eauto.
  - intros Hr. bind_step Hr e tr1 E1. apply liftr_Ok in E1 as [E1 ->]. injection Hr as <- <- <-.
    rewrite (Hn _ _ E1). split_and!; try done.
    + intros k x. destruct (decide (k = n)) as [->|]; [rewrite lookup_insert_eq; congruence|].
      rewrite lookup_insert_ne by done. apply Hb.
    + apply lookup_insert_eq.
    + by apply insert_subseteq.
    + intros k. destruct (decide (k = n)) as [->|]; [by left|]. rewrite lookup_insert_ne by done. by right.
Qed.

Lemma preflight_Ok {A} env q (x : A) (tr tr' : trace) y :
  preflight env q x tr = (Ok y, tr') -> y = x /\ tr' = tr ++ [(header_number env, q)].
Proof using Type. unfold preflight. destruct (node_answers env q); [|done]. by intros [= <- <-]. Qed.

Lemma host_epochs_Ok a ns latest eps envs latest' eps' envs' (tr tr' : trace) :
  builds -> built envs ->
  host_epochs a ns latest eps envs tr = (Ok (latest', eps', envs'), tr') ->
  exists l, Forall2 (fun n env => build_env n = Ok env) ns l
    /\ latest' = latest_of a l latest
    /\ eps' = list_to_set (ef_epoch <$> finalizations a l) ∪ eps
    /\ built envs' /\ envs ⊆ envs' /\ (forall env, env ∈ l -> envs' !! header_number env = Some env)
    /\ (forall k, is_Some (envs' !! k) -> k ∈ ns \/ is_Some (envs !! k))
    /\ tr ⊆ tr' /\ forall n, n ∈ ns -> (n, QEpochFinalized a) ∈ tr'.
Proof using Type.
  intros Hn. revert latest eps envs tr. induction ns as [|n ns IH]; intros latest eps envs tr Hb; simpl.
  - intros [= <- <- <- <-]. exists []. split_and!; try done; [set_solver|by intros ? ?%elem_of_nil|by right|].
    by intros ? ?%elem_of_nil.
  - intros Hr. bind_step Hr p tr1 E1. destruct p as [env envs1].
    destruct (get_or_insert_Ok _ _ _ _ _ _ Hn Hb E1) as (G1 & G2 & G3 & G4 & G5 & ->).
    bind_step Hr es tr2 E2. apply preflight_Ok in E2 as [-> ->].
    destruct (IH _ _ _ _ G2 Hr) as (l & I1 & I2 & I3 & I4 & I5 & I6 & I7 & I8 & I9).
    pose proof (Hn _ _ G1) as Hh.
    exists (env :: l). split_and!.
    + by constructor.
    + rewrite I2. simpl. destruct (epoch_finalized_events env a) eqn:Ee; [by rewrite bool_decide_true|].
      by rewrite bool_decide_false.
    + rewrite I3. unfold finalizations. simpl. rewrite fmap_app, list_to_set_app_L. set_solver.
    + done.
    + by transitivity envs1.
    + intros x [->|Hx]%elem_of_cons; [|by apply I6]. rewrite Hh. by eapply lookup_weaken.
    + intros k Hk. destruct (I7 k Hk) as [|Hk1]; [left; by right|].
      destruct (G5 k Hk1) as [->|]; [left; by left|by right].
    + set_solver.
    + intros k [->|Hk]%elem_of_cons; [|by apply I9]. apply I8. rewrite Hh. set_solver.
Qed.

(** The calls that the host prepares for a log in an epoch. *)
Definition prepared (ewl : gmap Z (gset Z)) (ep log : Z) : Prop := log ∈ default ∅ (ewl !! ep).

Lemma prepared_insert ewl ep log ep' log' :
  prepared (<[ep := {[log]} ∪ default ∅ (ewl !! ep)]> ewl) ep' log'
  <-> (ep' = ep /\ log' = log) \/ prepared ewl ep' log'.
Proof using Type.
  unfold prepared. destruct (decide (ep' = ep)) as [->|Hne].
  - rewrite lookup_insert_eq. simpl. set_solver.
  - rewrite lookup_insert_ne by done. naive_solver.
Qed.

Lemma host_updates_spec f (eps : gset Z) es ewl wl ewl' wl' :
  host_updates f eps es ewl wl = (ewl', wl') ->
  wl ⊆ wl' /\ (forall ep log, prepared ewl ep log -> prepared ewl' ep log)
  /\ forall e, e ∈ es -> includes f (ev_workLogId e) = true -> ev_epochNumber e ∈ eps ->
       ev_workLogId e ∈ wl'
       /\ (ev_updateValue e <> 0 -> prepared ewl' (ev_epochNumber e) (ev_workLogId e)).
Proof using Type.
  revert ewl wl. induction es as [|e es IH]; intros ewl wl; simpl.
  - intros [= <- <-]. split; [done|]. split; [done|]. by intros ? ?%elem_of_nil.
  - destruct (includes f (ev_workLogId e)) eqn:Ei; simpl.
    2: { intros Hr. destruct (IH _ _ Hr) as (I1 & I2 & I3). split; [done|]. split; [done|].
         intros e' [->|He]%elem_of_cons; [congruence|by apply I3]. }
    destruct (decide (ev_epochNumber e ∈ eps)) as [Hep|Hep].
    2: { rewrite bool_decide_false by done. simpl. intros Hr. destruct (IH _ _ Hr) as (I1 & I2 & I3).
         split; [done|]. split; [done|]. intros e' [->|He]%elem_of_cons; [done|by apply I3]. }
    rewrite bool_decide_true by done. simpl. destruct (Z.eqb_spec (ev_updateValue e) 0) as [E0|E0]; intros Hr;
      destruct (IH _ _ Hr) as (I1 & I2 & I3).
    + split; [set_solver|]. split; [done|]. intros e' [->|He]%elem_of_cons; [|by apply I3].
      split; [set_solver|done].
    + split; [set_solver|]. split; [intros; apply I2, prepared_insert; by right|].
      intros e' [->|He]%elem_of_cons; [|by apply I3]. split; [set_solver|].
      intros _. apply I2, prepared_insert. by left.
Qed.

Lemma host_collect_Ok a f eps ns ewl wl envs ewl' wl' envs' (tr tr' : trace) :
  builds -> built envs ->
  host_collect a f eps ns ewl wl envs tr = (Ok (ewl', wl', envs'), tr') ->
  exists l, Forall2 (fun n env => build_env n = Ok env) ns l
    /\ wl ⊆ wl' /\ (forall ep log, prepared ewl ep log -> prepared ewl' ep log)
    /\ (forall e, e ∈ update_events a l -> includes f (ev_workLogId e) = true -> ev_epochNumber e ∈ eps ->
         ev_workLogId e ∈ wl'
         /\ (ev_updateValue e <> 0 -> prepared ewl' (ev_epochNumber e) (ev_workLogId e)))
    /\ built envs' /\ envs ⊆ envs'
    /\ (forall k, is_Some (envs' !! k) -> k ∈ ns \/ is_Some (envs !! k))
    /\ tr ⊆ tr' /\ forall n, n ∈ ns -> (n, QWorkLogUpdated a) ∈ tr'.
Proof using Type.
  intros Hn. revert ewl wl envs tr. induction ns as [|n ns IH]; intros ewl wl envs tr Hb; simpl.
  - intros [= <- <- <- <-]. exists []. split_and!; try done; [by intros ? ?%elem_of_nil|by right|].
    by intros ? ?%elem_of_nil.
  - intros Hr. bind_step Hr p tr1 E1. destruct p as [env envs1].
    destruct (get_or_insert_Ok _ _ _ _ _ _ Hn Hb E1) as (G1 & G2 & G3 & G4 & G5 & ->).
    bind_step Hr es tr2 E2. apply preflight_Ok in E2 as [-> ->].
    destruct (host_updates f eps (work_log_updated_events env a) ewl wl) as [ewl1 wl1] eqn:Eu.
    destruct (host_updates_spec _ _ _ _ _ _ _ Eu) as (U1 & U2 & U3).
    destruct (IH _ _ _ _ G2 Hr) as (l & I1 & I2 & I3 & I4 & I5 & I6 & I7 & I8 & I9).
    pose proof (Hn _ _ G1) as Hh.
    exists (env :: l). split_and!.
    + by constructor.
    + by transitivity wl1.
    + auto.
    + intros e. unfold update_events. simpl. intros [He|He]%elem_of_app Hi Hep; [|by apply I4].
      destruct (U3 e He Hi Hep) as [V1 V2]. split; [by apply I2|auto].
    + done.
    + by transitivity envs1.
    + intros k Hk. destruct (I7 k Hk) as [|Hk1]; [left; by right|].
      destruct (G5 k Hk1) as [->|]; [left; by left|by right].
    + set_solver.
    + intros k [->|Hk]%elem_of_cons; [|by apply I9]. apply I8. rewrite Hh. set_solver.
Qed.

Lemma preflight_commits_Ok a env logs (tr tr' : trace) x :
  preflight_commits a env logs tr = (Ok x, tr') ->
  tr ⊆ tr' /\ forall log, log ∈ logs -> (header_number env, QWorkLogCommit a log) ∈ tr'.
Proof using Type.
  revert tr. induction logs as [|log logs IH]; intros tr; simpl.
  - intros [= _ <-]. split; [done|]. by intros ? ?%elem_of_nil.
  - intros Hr. bind_step Hr c tr1 E1. apply preflight_Ok in E1 as [-> ->]. apply IH in Hr as [I1 I2].
    split; [set_solver|]. intros lg [->|Hl]%elem_of_cons; [|by apply I2]. apply I1. set_solver.
Qed.

Lemma preflight_caps_Ok zr env t logs (tr tr' : trace) x :
  preflight_caps zr env t logs tr = (Ok x, tr') ->
  tr ⊆ tr' /\ forall log, log ∈ logs -> (header_number env, QPastPoVWRewardCap zr log t) ∈ tr'.
Proof using Type.
  revert tr. induction logs as [|log logs IH]; intros tr; simpl.
  - intros [= _ <-]. split; [done|]. by intros ? ?%elem_of_nil.
  - intros Hr. bind_step Hr c tr1 E1. apply preflight_Ok in E1 as [-> ->]. apply IH in Hr as [I1 I2].
    split; [set_solver|]. intros lg [->|Hl]%elem_of_cons; [|by apply I2]. apply I1. set_solver.
Qed.

Lemma preflight_rewards_Ok zkc zr env ewl (tr tr' : trace) x :
  preflight_rewards zkc zr env ewl tr = (Ok x, tr') ->
  tr ⊆ tr' /\ forall ep s log, (ep, s) ∈ ewl -> log ∈ s ->
    reward_questions (fun q => q ∈ tr') zkc zr env ep log.
Proof using Type.
  revert tr. induction ewl as [|[ep s] ewl IH]; intros tr; simpl.
  - intros [= _ <-]. split; [done|]. by intros ? ? ? ?%elem_of_nil.
  - intros Hr. bind_step Hr c tr1 E1. apply preflight_Ok in E1 as [-> ->].
    bind_step Hr t tr2 E2. apply preflight_Ok in E2 as [-> ->].
    bind_step Hr u tr3 E3. apply preflight_caps_Ok in E3 as [C1 C2]. apply IH in Hr as [I1 I2].
    split; [set_solver|]. intros ep' s' log [[= -> ->]|Hin]%elem_of_cons Hlog; [|by eapply I2].
    split_and!; [set_solver..|]. apply I1, C2. rewrite stable_sort_perm. by apply elem_of_elements.
Qed.

Lemma preflight_verify_Ok prev envs (tr tr' : trace) x :
  preflight_verify_from prev envs tr = (Ok x, tr') ->
  tr ⊆ tr' /\ forall q, q ∈ verify_questions prev envs -> q ∈ tr'.
Proof using Type.
  revert prev tr. induction envs as [|env envs IH]; intros prev tr; simpl.
  - intros [= _ <-]. split; [done|]. by intros ? ?%elem_of_nil.
  - intros Hr. bind_step Hr ok tr1 E1. apply preflight_Ok in E1 as [-> ->].
    destruct (verifies _ _); [|done]. apply IH in Hr as [I1 I2]. split; [set_solver|].
    intros q [->|Hq]%elem_of_cons; [|by apply I2]. apply I1. set_solver.
Qed.

Lemma preflight_continuity_Ok envs (tr tr' : trace) x :
  preflight_verify_continuity envs tr = (Ok x, tr') ->
  tr ⊆ tr' /\ forall q, q ∈ continuity_questions envs -> q ∈ tr'.
Proof using Type.
  destruct envs as [|env envs]; simpl; [|apply preflight_verify_Ok].
  intros [= _ <-]. split; [done|]. by intros ? ?%elem_of_nil.
Qed.

(** ** The same blocks *)

Lemma latest_of_spec a (bs : list Env) o :
  StronglySorted Z.le (header_number <$> bs) ->
  match latest_of a bs o with
  | Some n =>
      (exists env, env ∈ bs /\ epoch_finalized_events env a <> [] /\ header_number env = n
         /\ forall env', env' ∈ bs -> epoch_finalized_events env' a <> [] -> header_number env' <= n)
      \/ (o = Some n /\ forall env, env ∈ bs -> epoch_finalized_events env a = [])
  | None => o = None /\ forall env, env ∈ bs -> epoch_finalized_events env a = []
  end.
Proof using Type.
  revert o. induction bs as [|env bs IH]; intros o; simpl.
  - intros _. destruct o; [right|]; (split; [done|]); by intros ? ?%elem_of_nil.
  - intros [Hs Hall]%StronglySorted_inv. specialize (IH (match epoch_finalized_events env a with
      [] => o | _ => Some (header_number env) end) Hs).
    destruct (latest_of a bs _) as [n|].
    + destruct IH as [(x & Hx & Hl & <- & Hm)|[Eo Hq]].
      * left. exists x. split; [by right|]. split; [done|]. split; [done|].
        intros y [->|Hy]%elem_of_cons Hly; [|by apply Hm]. rewrite List.Forall_forall in Hall.
        apply Hall, list_elem_of_In, list_elem_of_fmap. by exists x.
      * destruct (epoch_finalized_events env a) as [|e es] eqn:Ee.
        -- right. split; [done|]. intros y [->|Hy]%elem_of_cons; [done|by apply Hq].
        -- left. injection Eo as <-. exists env. split; [by left|]. split; [by rewrite Ee|].
           split; [done|]. intros y [->|Hy]%elem_of_cons Hly; [done|]. by apply Hq in Hy.
    + destruct IH as [Eo Hq]. destruct (epoch_finalized_events env a) eqn:Ee; [|done].
      split; [done|]. intros y [->|Hy]%elem_of_cons; [done|by apply Hq].
Qed.

Lemma mapM_inputs spec (bs : list Env) inputs :
  (forall env i, env_input env = Ok i -> into_env i spec = Some env) ->
  collect env_input bs = Ok inputs -> mapM (fun i => into_env i spec) inputs = Some bs.
Proof using Type.
  intros Hi. revert inputs. induction bs as [|env bs IH]; intros inputs; simpl; [by intros [= <-]|].
  intros (i & E1 & Hc)%result_bind_Ok. apply result_bind_Ok in Hc as (rest & E2 & Hc). injection Hc as <-.
  simpl. rewrite (Hi _ _ E1). simpl. by rewrite (IH _ E2).
Qed.

(** The guest gets the environments of the host. *)
Lemma guest_envs spec envs inputs envs' (tr tr' : trace) :
  builds -> built envs -> (forall env i, env_input env = Ok i -> into_env i spec = Some env) ->
  collect env_input (blocks envs) = Ok inputs ->
  collect_envs spec inputs ∅ tr = (Ok envs', tr') -> envs' = envs.
Proof using Type.
  intros Hn Hb Hi Hc Hr. apply mapM_inputs with (spec := spec) in Hc; [|done].
  destruct (collect_envs_Ok _ _ _ _ _ _ Hr) as (C1 & l & C2 & C3).
  { intros n env. by rewrite lookup_empty. }
  rewrite Hc in C2. injection C2 as <-. rewrite map_to_list_empty, app_nil_r in C3.
  apply map_eq. intros n. apply option_eq. intros env.
  assert (Hiff : (exists k, envs' !! k = Some env) <-> exists k, envs !! k = Some env).
  { transitivity (env ∈ blocks envs); [|by rewrite elem_of_blocks].
    rewrite <- C3, list_elem_of_fmap. split.
    - intros [k Hk]. exists (k, env). split; [done|]. by apply elem_of_map_to_list.
    - intros ([k e] & -> & Hk). exists k. by apply elem_of_map_to_list. }
  split; intros Hl.
  - destruct (proj1 Hiff) as [k Hk]; [by exists n|]. pose proof (Hn _ _ (Hb _ _ Hk)) as Hh.
    rewrite (C1 _ _ Hl) in Hh. by subst k.
  - destruct (proj2 Hiff) as [k Hk]; [by exists n|]. pose proof (Hn _ _ (Hb _ _ Hl)) as Hh.
    rewrite (C1 _ _ Hk) in Hh. by subst k.
Qed.

Lemma built_numbers ns l :
  builds -> Forall2 (fun n env => build_env n = Ok env) ns l -> header_number <$> l = ns.
Proof using Type. intros Hn Hl. induction Hl as [|n env ns l Hx Hl IH]; simpl; [done|]. f_equal; [by apply Hn|exact IH]. Qed.

Lemma built_same ns l l' :
  Forall2 (fun n env => build_env n = Ok env) ns l ->
  Forall2 (fun n env => build_env n = Ok env) ns l' -> l = l'.
Proof using Type.
  intros Hl. revert l'. induction Hl as [|n env ns l Hx Hl IH]; intros l'; inversion 1; subst; [done|].
  f_equal; [congruence|by apply IH].
Qed.

Lemma built_elem ns l n env :
  Forall2 (fun n env => build_env n = Ok env) ns l -> n ∈ ns -> build_env n = Ok env -> env ∈ l.
Proof using Type.
  intros Hl Hin He. induction Hl as [|m x ns l Hx Hl IH]; [by apply elem_of_nil in Hin|].
  apply elem_of_cons in Hin as [->|Hin]; [|right; by apply IH]. rewrite He in Hx. injection Hx as <-. by left.
Qed.

(** What the host knows when its input is built. *)
Record host_ready (a zkc zr : Z) (numbers : gset Z) (f : WorkLogFilter)
    (asked : trace) (envs : gmap Z Env) (l : list Env) (latest : Z) (logs : gset Z)
    (ewl : gmap Z (gset Z)) : Prop := {
  hr_built : built envs;
  hr_l : Forall2 (fun n env => build_env n = Ok env) (stable_sort id (elements numbers)) l;
  hr_in : forall env, env ∈ l -> envs !! header_number env = Some env;
  hr_latest : latest_of a l None = Some latest;
  hr_keys : forall n, is_Some (envs !! n) -> n ∈ numbers \/ n = wsub 64 latest 1 \/ n = latest;
  hr_blocks : forall n, n ∈ numbers \/ n = wsub 64 latest 1 ->
    (n, QEpochFinalized a) ∈ asked /\ (n, QWorkLogUpdated a) ∈ asked;
  hr_logs : forall e, e ∈ update_events a l -> includes f (ev_workLogId e) = true ->
    ev_epochNumber e ∈ ef_epoch <$> finalizations a l ->
    ev_workLogId e ∈ logs /\ (ev_updateValue e <> 0 -> prepared ewl (ev_epochNumber e) (ev_workLogId e));
  hr_commits : forall log, log ∈ logs -> (wsub 64 latest 1, QWorkLogCommit a log) ∈ asked;
  hr_rewards : forall env ep log, envs !! latest = Some env -> prepared ewl ep log ->
    reward_questions (fun q => q ∈ asked) zkc zr env ep log;
  hr_chain : forall q, q ∈ continuity_questions (blocks envs) -> q ∈ asked
}.

#[local] Arguments hr_built {a zkc zr numbers f asked envs l latest logs ewl} _.
#[local] Arguments hr_l {a zkc zr numbers f asked envs l latest logs ewl} _.
#[local] Arguments hr_in {a zkc zr numbers f asked envs l latest logs ewl} _.
#[local] Arguments hr_latest {a zkc zr numbers f asked envs l latest logs ewl} _.
#[local] Arguments hr_keys {a zkc zr numbers f asked envs l latest logs ewl} _.
#[local] Arguments hr_blocks {a zkc zr numbers f asked envs l latest logs ewl} _.
#[local] Arguments hr_logs {a zkc zr numbers f asked envs l latest logs ewl} _.
#[local] Arguments hr_commits {a zkc zr numbers f asked envs l latest logs ewl} _.
#[local] Arguments hr_rewards {a zkc zr numbers f asked envs l latest logs ewl} _.
#[local] Arguments hr_chain {a zkc zr numbers f asked envs l latest logs ewl} _.

Lemma build_ready a zkc zr cid numbers f input (asked : trace) :
  builds -> mint_input_build a zkc zr cid numbers f [] = (Ok input, asked) ->
  exists envs l latest logs ewl inputs,
    host_ready a zkc zr numbers f asked envs l latest logs ewl
    /\ collect env_input (blocks envs) = Ok inputs
    /\ input = mkMintInput a zkc zr cid inputs f.
Proof using Type.
  intros Hn. unfold mint_input_build. set (ns := stable_sort id (elements numbers)). intros Hr.
  assert (Hns : forall n, n ∈ ns <-> n ∈ numbers)
    by (intros n; unfold ns; by rewrite stable_sort_perm, elem_of_elements).
  bind_step Hr p tr1 E1. destruct p as [[latest0 eps] envs1].
  destruct (host_epochs_Ok _ _ _ _ _ _ _ _ _ _ Hn ltac:(intros ? ?; by rewrite lookup_empty) E1)
    as (l & A1 & A2 & A3 & A4 & _ & A6 & A7 & _ & A9).
  bind_step Hr latest tr2 E2. apply liftr_Ok in E2 as [E2 ->].
  destruct latest0 as [latest'|]; [|done]. injection E2 as ->.
  bind_step Hr p tr3 E3. destruct p as [[ewl logs] envs2].
  destruct (host_collect_Ok _ _ _ _ _ _ _ _ _ _ _ _ Hn A4 E3)
    as (l2 & B1 & _ & _ & B4 & B5 & B6 & B7 & B8 & B9).
  rewrite <- (built_same _ _ _ A1 B1) in B4. clear B1 l2.
  bind_step Hr p tr4 E4. destruct p as [check envs3].
  destruct (get_or_insert_Ok _ _ _ _ _ _ Hn B5 E4) as (C1 & C2 & C3 & C4 & C5 & ->).
  bind_step Hr u5 tr5 E5.
  assert (D : tr3 ⊆ tr5 /\ (wsub 64 latest 1 ∈ numbers \/
    (wsub 64 latest 1, QEpochFinalized a) ∈ tr5 /\ (wsub 64 latest 1, QWorkLogUpdated a) ∈ tr5)).
  { destruct (decide (wsub 64 latest 1 ∈ numbers)) as [Hin|Hin].
    - rewrite bool_decide_true in E5 by done. injection E5 as _ <-. split; [done|by left].
    - rewrite bool_decide_false in E5 by done.
      bind_step E5 x tr6 E6. apply preflight_Ok in E6 as [_ ->].
      bind_step E5 y tr7 E7. apply preflight_Ok in E7 as [_ ->]. injection E5 as _ <-.
      rewrite (Hn _ _ C1). split; [set_solver|right; set_solver]. }
  destruct D as [D1 D2].
  bind_step Hr u6 tr6 E6. apply preflight_commits_Ok in E6 as [F1 F2]. rewrite (Hn _ _ C1) in F2.
  bind_step Hr p tr7 E7. destruct p as [fin envs4].
  destruct (get_or_insert_Ok _ _ _ _ _ _ Hn C2 E7) as (G1 & G2 & G3 & G4 & G5 & ->).
  bind_step Hr u8 tr8 E8. apply preflight_rewards_Ok in E8 as [I1 I2].
  bind_step Hr u9 tr9 E9. apply preflight_continuity_Ok in E9 as [J1 J2].
  bind_step Hr inputs tr10 E10. apply liftr_Ok in E10 as [E10 ->]. injection Hr as <- <-.
  assert (Hsub : tr3 ⊆ tr9) by (transitivity tr5; [done|]; transitivity tr6; [done|]; by transitivity tr8).
  exists envs4, l, latest, logs, ewl, inputs. split; [|done]. split.
  - done.
  - done.
  - intros env He. eapply lookup_weaken; [by apply A6|]. transitivity envs2; [done|]. by transitivity envs3.
  - by rewrite <- A2.
  - intros n Hk. destruct (G5 n Hk) as [->|Hk3]; [by right; right|].
    destruct (C5 n Hk3) as [->|Hk2]; [by right; left|]. left. apply Hns.
    destruct (B7 n Hk2) as [|Hk1]; [done|]. destruct (A7 n Hk1) as [|[? Hk0]]; [done|].
    by rewrite lookup_empty in Hk0.
  - intros n Hin.
    assert (Hnum : n ∈ numbers -> (n, QEpochFinalized a) ∈ tr9 /\ (n, QWorkLogUpdated a) ∈ tr9).
    { intros Hx%Hns. split; apply Hsub; [by apply B8, A9|by apply B9]. }
    destruct Hin as [Hd| ->]; [by apply Hnum|]. destruct D2 as [Hd|[D2 D3]]; [by apply Hnum|].
    assert (tr5 ⊆ tr9) as Hs5 by (transitivity tr6; [done|]; by transitivity tr8). split; by apply Hs5.
  - intros e He Hi Hep. apply B4; [done|done|]. rewrite A3. set_solver.
  - intros log Hlog. apply J1, I1, F2. rewrite stable_sort_perm. by apply elem_of_elements.
  - intros env ep log Henv Hp. rewrite G3 in Henv. injection Henv as <-.
    unfold prepared in Hp. destruct (ewl !! ep) as [s|] eqn:Es; [|simpl in Hp; set_solver].
    destruct (I2 ep s log) as (R1 & R2 & R3); [by apply elem_of_entries|done|].
    split_and!; by apply J1.
  - done.
Qed.

(** Blocks that were not given have nothing of the accounting contract. *)
Definition quiet_outside (a : Z) (numbers : gset Z) : Prop :=
  forall n env, n ∉ numbers -> build_env n = Ok env ->
    epoch_finalized_events env a = [] /\ work_log_updated_events env a = [].

Section Ready.
Variables (a zkc zr : Z) (numbers : gset Z) (f : WorkLogFilter) (asked : trace).
Variables (envs : gmap Z Env) (l : list Env) (latest : Z) (logs : gset Z) (ewl : gmap Z (gset Z)).
Hypothesis Hn : builds.
Hypothesis Hq : quiet_outside a numbers.
Hypothesis R : host_ready a zkc zr numbers f asked envs l latest logs ewl.

Lemma ready_block env : env ∈ blocks envs -> envs !! header_number env = Some env.
Proof using Hn R.
  intros [n Hk]%elem_of_blocks. by rewrite (Hn _ _ (hr_built R _ _ Hk)).
Qed.

(** A block with events is one that was given. *)
Lemma ready_loud env :
  env ∈ blocks envs ->
  epoch_finalized_events env a <> [] \/ work_log_updated_events env a <> [] -> env ∈ l.
Proof using Hn Hq R.
  intros He Hl. apply ready_block in He. pose proof (hr_built R _ _ He) as Hb.
  destruct (decide (header_number env ∈ numbers)) as [Hin|Hin].
  - eapply built_elem; [apply R| |done]. by rewrite stable_sort_perm, elem_of_elements.
  - destruct (Hq _ _ Hin Hb) as [E1 E2]. by destruct Hl.
Qed.

Lemma ready_l env : env ∈ l -> env ∈ blocks envs.
Proof using R.
  intros He. apply elem_of_blocks. exists (header_number env). by apply (hr_in R).
Qed.

Lemma ready_latest : latest_of a (blocks envs) None = Some latest.
Proof using Hn Hq R.
  assert (Sb : StronglySorted Z.le (header_number <$> blocks envs)).
  { pose proof (blocks_sorted envs (fun n env Hk => Hn _ _ (hr_built R _ _ Hk))) as Hs.
    induction Hs as [|x k Hs IH Hx]; constructor; [done|].
    eapply List.Forall_impl; [|exact Hx]. intros. lia. }
  assert (Sl : StronglySorted Z.le (header_number <$> l)).
  { rewrite (built_numbers _ _ Hn (hr_l R)). apply (stable_sort_sorted id). }
  pose proof (latest_of_spec a l None Sl) as Ll. rewrite (hr_latest R) in Ll.
  destruct Ll as [(env & E1 & E2 & E3 & E4)|[? _]]; [|done].
  pose proof (latest_of_spec a (blocks envs) None Sb) as Lb.
  destruct (latest_of a (blocks envs) None) as [m|].
  - destruct Lb as [(env' & F1 & F2 & F3 & F4)|[? _]]; [|done]. f_equal.
    pose proof (F4 env (ready_l env E1) E2).
    pose proof (E4 env' (ready_loud env' F1 (or_introl F2)) F2). lia.
  - destruct Lb as [_ Lb]. by destruct (E2 (Lb env (ready_l env E1))).
Qed.

Lemma ready_epoch epochs ep :
  tabled (finalizations a (blocks envs)) epochs -> is_Some (epochs !! ep) ->
  ep ∈ ef_epoch <$> finalizations a l.
Proof using Hn Hq R.
  intros [_ Ht] [t He]. apply Ht in He. unfold finalizations in He.
  apply list_elem_of_bind in He as (env & He & Hin). apply list_elem_of_fmap.
  exists (mkEpochFinalized ep t). split; [done|]. apply list_elem_of_bind. exists env. split; [done|].
  apply ready_loud; [done|]. left. intros E. rewrite E in He. by apply elem_of_nil in He.
Qed.

Lemma ready_event epochs e :
  tabled (finalizations a (blocks envs)) epochs ->
  e ∈ counted f epochs (update_events a (blocks envs)) ->
  ev_workLogId e ∈ logs /\ (0 < ev_updateValue e -> prepared ewl (ev_epochNumber e) (ev_workLogId e)).
Proof using Hn Hq R.
  intros Ht [[Hi Hep] He]%list_elem_of_filter. unfold update_events in He.
  apply list_elem_of_bind in He as (env & He & Hin).
  destruct (hr_logs R e) as [L1 L2]; [|done|by eapply ready_epoch|].
  - apply list_elem_of_bind. exists env. split; [done|]. apply ready_loud; [done|].
    right. intros E. rewrite E in He. by apply elem_of_nil in He.
  - split; [done|]. intros. apply L2. lia.
Qed.

Lemma ready_asked env :
  env ∈ blocks envs ->
  (header_number env, QEpochFinalized a) ∈ asked /\ (header_number env, QWorkLogUpdated a) ∈ asked.
Proof using Hn R.
  intros He%ready_block. apply (hr_blocks R).
  destruct (hr_keys R (header_number env)) as [|[|E]]; [by eexists|by left|by right|].
  left. pose proof (latest_of_spec a l None) as Ll. rewrite (hr_latest R) in Ll.
  rewrite (built_numbers _ _ Hn (hr_l R)) in Ll.
  destruct Ll as [(x & X1 & _ & X2 & _)|[? _]]; [apply (stable_sort_sorted id)| |done].
  assert (Hx : header_number x ∈ header_number <$> l) by (apply list_elem_of_fmap; by exists x).
  rewrite (built_numbers _ _ Hn (hr_l R)) in Hx.
  rewrite stable_sort_perm, elem_of_elements in Hx. by rewrite E, <- X2.
Qed.

(** What the guest asks on the blocks of the host. *)
Lemma guest_asks spec cid inputs :
  (forall env i, env_input env = Ok i -> into_env i spec = Some env) -> chain_spec cid = Some spec ->
  collect env_input (blocks envs) = Ok inputs ->
  asks_only (fun q => q ∈ asked) (mint_calculator (mkMintInput a zkc zr cid inputs f)).
Proof using Hn Hq R.
  intros Hi Hs Hc. unfold mint_calculator. cbn [mint_chain_id mint_env povw_accounting_address
    zkc_address zkc_rewards_address work_log_filter].
  apply asks_bind; [apply asks_liftr|]. intros spec' tr0 tr0' [E0%unwrap_Ok _]%liftr_Ok.
  rewrite Hs in E0. injection E0 as <-.
  apply asks_bind.
  { unfold into_envs. apply asks_bind; [apply asks_collect_envs|]. intros envs' tr tr' E.
    rewrite (guest_envs _ _ _ _ _ _ Hn (hr_built R) Hi Hc E).
    apply asks_bind; [|intros; apply asks_ret].
    pose proof (hr_chain R) as Hch. unfold verify_continuity.
    destruct (blocks envs) as [|b bs]; [apply asks_ret|]. by apply asks_verify_from. }
  intros envs' tr tr' E. unfold into_envs in E. bind_step E envs1 tr1 E1. bind_step E x tr2 E2.
  injection E as -> _. rewrite (guest_envs _ _ _ _ _ _ Hn (hr_built R) Hi Hc E1).
  clear E1 E2 tr tr' tr1 tr2.
  apply asks_bind; [apply asks_finalized_epochs; intros; by apply ready_asked|].
  intros [latest' epochs] tr tr' E.
  destruct (finalized_epochs_Ok _ _ _ _ _ _ [] _ _ E) as [Ht El].
  { split; [constructor|]. intros ep t. rewrite lookup_empty. split; [done|by intros ?%elem_of_nil]. }
  simpl in Ht. rewrite ready_latest in El. subst latest'.
  apply asks_bind; [apply asks_collect_updates; intros; by apply ready_asked|].
  intros [weights updates] tr1 tr1' Eu%collect_updates_Ok.
  apply apply_updates_keys with (Q := fun ep log => prepared ewl ep log) (L := fun log => log ∈ logs) in Eu as [K1 K2].
  2: { intros e He. by eapply ready_event. }
  2: { intros ep ?. by rewrite lookup_empty. }
  2: { intros log [? Hl]. by rewrite lookup_empty in Hl. }
  apply asks_bind; [apply asks_liftr|]. intros n ? ? [[= <-] _]%liftr_Ok.
  apply asks_bind; [apply asks_liftr|]. intros check ? ? [E3%unwrap_Ok _]%liftr_Ok.
  apply asks_bind.
  { apply asks_check_completeness. intros log ([lg p] & -> & Hin%elem_of_entries)%list_elem_of_fmap.
    rewrite (Hn _ _ (hr_built R _ _ E3)).
    apply (hr_commits R), K2. by eexists. }
  intros _ _ _ _. apply asks_bind; [apply asks_liftr|]. intros fin ? ? [E4%unwrap_Ok _]%liftr_Ok.
  apply asks_bind.
  { apply asks_epoch_rewards. intros ep lgs Hin%elem_of_entries. destruct (K1 ep lgs Hin) as [[lg Hlg] K3].
    split; [exists lg|intros lg' Hlg'; apply K3 in Hlg'];
      by apply (hr_rewards R). }
  intros rewards _ _ _. apply asks_bind; [apply asks_liftr|]. intros; apply asks_ret.
Qed.
End Ready.

(** C13. The host prepares what the guest asks: when the input is built from blocks outside of
    which the accounting contract has no events, every question that the mint calculator
    puts to Steel on this input, whether its run succeeds or not, for events of a block,
    the commitments of work logs, emissions, end times, reward caps and the continuity of
    the blocks, was put to the node for the same block while the input was built; the
    block before the last finalization, which the host adds on its own, is covered too. *)
Theorem guest_asks_what_was_prepared a zkc zr cid numbers f spec input (asked : trace) r tr :
  builds -> quiet_outside a numbers ->
  (forall env i, env_input env = Ok i -> into_env i spec = Some env) -> chain_spec cid = Some spec ->
  mint_input_build a zkc zr cid numbers f [] = (Ok input, asked) ->
  mint_calculator input [] = (r, tr) ->
  forall q, q ∈ tr -> q ∈ asked.
Proof using Type.
  intros Hn Hq Hi Hs Hb Hr q Hin.
  destruct (build_ready _ _ _ _ _ _ _ _ Hn Hb) as (envs & l & latest & logs & ewl & inputs & R & Hc & ->).
  destruct (guest_asks _ _ _ _ _ _ _ _ _ _ _ Hn Hq R _ cid _ Hi Hs Hc _ _ _ Hr q Hin) as [Hnil|]; [|done].
  by apply elem_of_nil in Hnil.
Qed.
End Preflight.

(** *** The chain of three blocks, from two that are given *)

#[local] Existing Instance three_blocks.

#[local] Instance three_nodes : SteelHost (Env := Z) (EvmInput := Z) (Commitment := Z) := {
  build_env := fun n => if (10 <=? n) && (n <=? 12) then Ok n else Err "block"%string;
  node_answers := fun _ _ => true;
  env_input := fun n => Ok n
}.

Definition two_numbers : gset Z := {[10; 12]}.

Lemma guest_asks_what_was_prepared_witness :
  exists asked tr,
    mint_input_build 1 2 3 1 two_numbers filter_any [] = (Ok (mkMintInput 1 2 3 1 [10; 11; 12] filter_any), asked)
    /\ mint_calculator (mkMintInput 1 2 3 1 [10; 11; 12] filter_any) [] = (Ok three_journal, tr)
    /\ (length tr = 12)%nat /\ forall q, q ∈ tr -> q ∈ asked.
Proof.
  eexists _, _. split; [vm_compute; reflexivity|]. split; [vm_compute; reflexivity|].
  split; [reflexivity|].
  apply (guest_asks_what_was_prepared 1 2 3 1 two_numbers filter_any tt
           (mkMintInput 1 2 3 1 [10; 11; 12] filter_any) _ (Ok three_journal)).
  - intros n env. simpl. destruct (_ && _); [|done]. by intros [= ->].
  - intros n env Hn. simpl. destruct (Z.leb_spec 10 n); simpl; [|done].
    destruct (Z.leb_spec n 12); [|done]. intros [= <-].
    assert (n = 11) as ->; [|done].
    assert (n <> 10 /\ n <> 12); [|lia].
    split; intros ->; apply Hn; unfold two_numbers; set_solver.
  - by intros env i [= <-].
  - reflexivity.
  - vm_compute. reflexivity.
  - vm_compute. reflexivity.
Defined.

(** The condition is needed: when the block before the last finalization is not among the
    given ones and has an update, of log 8 here, the guest reads it, and asks for the
    commitment of log 8, for which the host has prepared nothing. *)
Definition busy_end : Steel Z Z unit Z := {|
  chain_spec := chain_spec;
  into_env := into_env;
  header_number := header_number;
  env_commitment := env_commitment;
  verifies := verifies;
  epoch_finalized_events := epoch_finalized_events;
  work_log_updated_events := fun n a =>
    if n =? 11 then [mkWorkLogUpdated 8 1 0 31 10 5] else work_log_updated_events n a;
  work_log_commit := fun _ _ log => if log =? 7 then 23 else 31;
  povw_emissions := povw_emissions;
  epoch_end_time := epoch_end_time;
  past_reward_cap := past_reward_cap
|}.

Lemma busy_end_unprepared :
  exists input asked r tr,
    mint_input_build (H := busy_end) 1 2 3 1 two_numbers filter_any [] = (Ok input, asked)
    /\ mint_calculator (H := busy_end) input [] = (r, tr)
    /\ (11, QWorkLogCommit 1 8) ∈ tr /\ (11, QWorkLogCommit 1 8) ∉ asked.
Proof.
  eexists _, _, _, _. split; [vm_compute; reflexivity|]. split; [vm_compute; reflexivity|].
  split; [repeat (first [by apply list_elem_of_here | apply list_elem_of_further])|].
  intros Hin. repeat (apply elem_of_cons in Hin as [?|Hin]; [done|]). by apply elem_of_nil in Hin.
Qed.
