(* ===== verification/BuilderParams.v ===== *)
(** * Guest inputs and the parameters of a request

    [crates/boundless-market/src/input.rs]: the encodings of a guest's input.
    [storage/traits.rs]: what the builder needs of a store.
    [request_builder/mod.rs], [requirements_layer.rs] and [offer_layer.rs]: the
    parameters that the layers of the request builder fill, and the mode that
    recommends the times of an offer.

    A [Url] is its text.  The MessagePack library is the class [RmpSerde], the part of
    URL parsing that [Market.Externals] leaves out the class [Urls]. *)

From S2P Require Import Prelude Market Selector OrderPricing.
From Stdlib Require Import Strings.Byte.

Local Open Scope Z_scope.

(** ** Inputs ([input.rs]) *)

Record GuestEnv := mkGuestEnv { stdin : bytes }.

Inductive InputError :=
| MessagePackSerdeEncode
| MessagePackSerdeDecode
| UnsupportedVersion (v : Z)
| EmptyEncodedInput.

Inductive InputVersion := V0 | V1.

Definition version_into (v : InputVersion) : Byte.byte := match v with V0 => x00 | V1 => x01 end.

Definition byte_z (b : Byte.byte) : Z := Z.of_N (Byte.to_N b).

Definition version_try_from (v : Byte.byte) : result InputError InputVersion :=
  if bool_decide (v = version_into V0) then Ok V0
  else if bool_decide (v = version_into V1) then Ok V1
  else Err (UnsupportedVersion (byte_z v)).

(** [rmp_serde::to_vec_named] and [from_read] at [GuestEnv]. *)
Class RmpSerde := {
  to_vec_named : GuestEnv -> option bytes;
  from_read : bytes -> option GuestEnv
}.

(** What is written can be read. *)
Class RmpLaws `{RmpSerde} := {
  rmp_round_trip env b : to_vec_named env = Some b -> from_read b = Some env
}.

Section Inputs.
Context `{RmpSerde}.

Definition guest_env_decode (b : bytes) : result InputError GuestEnv :=
  match b with
  | [] => Err EmptyEncodedInput
  | v :: rest =>
      version ← version_try_from v;
      match version with
      | V0 => Ok (mkGuestEnv rest)
      | V1 => ok_or MessagePackSerdeDecode (from_read rest)
      end
  end.

Definition guest_env_encode (self : GuestEnv) : result InputError bytes :=
  encoded ← ok_or MessagePackSerdeEncode (to_vec_named self);
  mret (version_into V1 :: encoded).

Definition from_stdin (b : bytes) : GuestEnv := mkGuestEnv b.

(** [GuestEnvBuilder], which holds the bytes written so far. *)
Record GuestEnvBuilder := mkEnvBuilder { builder_stdin : bytes }.

Definition env_builder_new : GuestEnvBuilder := mkEnvBuilder [].
Definition build_env (self : GuestEnvBuilder) : GuestEnv := mkGuestEnv (builder_stdin self).
Definition build_vec (self : GuestEnvBuilder) : result InputError bytes :=
  guest_env_encode (build_env self).

(** [RequestInput::inline] and [RequestInput::url]. *)
Definition input_inline (data : bytes) : RequestInput := mkRequestInput InputInline data.
Definition input_url (url : string) : RequestInput :=
  mkRequestInput InputUrl (String.list_byte_of_string url).

Definition build_inline (self : GuestEnvBuilder) : result InputError RequestInput :=
  encoded ← guest_env_encode (build_env self);
  mret (input_inline encoded).

(** The slice is given as its bytes. *)
Definition write_slice (slice : bytes) (self : GuestEnvBuilder) : GuestEnvBuilder :=
  mkEnvBuilder (builder_stdin self ++ slice).

Definition byte_of_z (z : Z) : Byte.byte := default x00 (Byte.of_N (Z.to_N (z mod 256))).

(** [u32::to_le_bytes]. *)
Definition u32_to_le_bytes (z : Z) : bytes :=
  (fun i => byte_of_z (Z.shiftr z (8 * i))) <$> [0; 1; 2; 3].

Definition write_frame (payload : bytes) (self : GuestEnvBuilder) : GuestEnvBuilder :=
  let len := wrap 32 (Z.of_nat (length payload)) in
  mkEnvBuilder (builder_stdin self ++ u32_to_le_bytes len ++ payload).

End Inputs.

(** ** Stores ([storage/traits.rs]) *)

(** [url_normal] is the text of a URL that [url_parse] accepts, [utf8] the text of
    bytes that are UTF-8, and [sha256] the hash that names an input. *)
Class Urls `{Externals} := {
  url_normal : string -> string;
  utf8 : bytes -> option string;
  sha256 : bytes -> bytes
}.

(** A parsed URL is its own text, and a text is UTF-8. *)
Class UrlLaws `{Urls} := {
  url_parse_normal u : url_parse u = true -> url_parse (url_normal u) = true;
  url_normal_idem u : url_normal (url_normal u) = url_normal u;
  utf8_text u : utf8 (String.list_byte_of_string u) = Some u
}.

(** [Url::parse], with the text of the result. *)
Definition parse_url `{Urls} (u : string) : option string :=
  if url_parse u then Some (url_normal u) else None.

Record StorageUploader (W : Type) := mkUploader {
  upload_bytes : bytes -> string -> ste W string string
}.
Arguments mkUploader {W} _.
Arguments upload_bytes {W} _ _ _.

Record StorageDownloader (W : Type) := mkDownloader {
  download_url_with_limit : string -> Z -> ste W string bytes;
  download_url : string -> ste W string bytes
}.
Arguments mkDownloader {W} _ _.
Arguments download_url_with_limit {W} _ _ _.
Arguments download_url {W} _ _.

Section Stores.
Context `{Urls} {W : Type}.

Definition upload_input (self : StorageUploader W) (input : bytes) : ste W string string :=
  upload_bytes self input (hex_bytes (sha256 input) +:+ ".input").

Definition download_with_limit (self : StorageDownloader W) (url : string) (limit : Z)
    : ste W string bytes :=
  u ← liftr (ok_or "invalid url"%string (parse_url url));
  download_url_with_limit self u limit.

Definition download (self : StorageDownloader W) (url : string) : ste W string bytes :=
  u ← liftr (ok_or "invalid url"%string (parse_url url));
  download_url self u.

End Stores.

(** ** Missing fields *)

Record MissingFieldError := mkMissing { label : string; hint : option string }.

Definition missing_new (label : string) : MissingFieldError := mkMissing label None.
Definition missing_with_hint (label hint : string) : MissingFieldError := mkMissing label (Some hint).

(** ** Parameters of an offer ([offer_layer.rs]) *)

Module OfferParams.

Record t := mk {
  min_price : option Amount;
  max_price : option Amount;
  bidding_start : option Z;
  ramp_up_period : option Z;
  lock_timeout : option Z;
  timeout : option Z;
  lock_collateral : option Amount
}.

Definition empty : t := mk None None None None None None None.

Definition from_offer (o : Offer) : t := {|
  timeout := Some (Market.timeout o);
  min_price := Some (mkAmount (minPrice o) ETH);
  max_price := Some (mkAmount (maxPrice o) ETH);
  lock_collateral := Some (mkAmount (lockCollateral o) ZKC);
  lock_timeout := Some (lockTimeout o);
  bidding_start := Some (rampUpStart o);
  ramp_up_period := Some (rampUpPeriod o)
|}.

End OfferParams.

(** ** Parameters of the requirements ([requirements_layer.rs]) *)

Module RequirementParams.

Record t := mk {
  predicate : option Predicate;
  image_id : option bytes;
  callback_address : option Z;
  callback_gas_limit : option Z;
  selector : option Z
}.

Definition empty : t := mk None None None None None.

(** [TryFrom<Requirements>]; [U96::to::<u64>] panics above 64 bits. *)
Definition of_requirements (value : Requirements) : result PredicateError t :=
  pred ← predicate_try_from (Market.predicate value);
  limit ← (if gasLimit (callback value) <? 2 ^ 64 then Ok (gasLimit (callback value)) else Panic);
  mret {|
    predicate := Some pred;
    selector := Some (Market.selector value);
    callback_address := Some (cbAddr (callback value));
    callback_gas_limit := Some limit;
    image_id := predicate_image_id pred
  |}.

(** [TryFrom<RequirementParams> for Requirements]. *)
Definition into_requirements (value : t) : result MissingFieldError Requirements :=
  pred ← ok_or (missing_with_hint "predicate"
           "please provide a Predicate with requirements e.g. a digest match on a journal")
           (predicate value);
  mret (mkRequirements (predicate_into pred)
          (mkCallback (default 0 (callback_address value))
             (default 0 (callback_gas_limit value)))
          (default 0 (selector value))).

End RequirementParams.

(** ** Parameters of a request ([mod.rs]) *)

Module RequestParams.

Record t := mk {
  program : option bytes;
  env : option GuestEnv;
  program_url : option string;
  request_input : option RequestInput;
  cycles : option Z;
  image_id : option bytes;
  journal : option bytes;
  request_id : option RequestId.t;
  offer : OfferParams.t;
  requirements : RequirementParams.t
}.

Definition new : t :=
  mk None None None None None None None None OfferParams.empty RequirementParams.empty.

Definition require_program (self : t) : result MissingFieldError bytes :=
  ok_or (missing_with_hint "program" "can be set using .with_program(...)") (program self).
Definition require_env (self : t) : result MissingFieldError GuestEnv :=
  ok_or (missing_with_hint "env" "can be set using .with_env(...) or .with_stdin") (env self).
Definition require_program_url (self : t) : result MissingFieldError string :=
  ok_or (missing_with_hint "program_url" "can be set using .with_program_url(...)")
    (program_url self).
Definition require_request_input (self : t) : result MissingFieldError RequestInput :=
  ok_or (missing_with_hint "request_input" "can be set using .with_request_input(...)")
    (request_input self).
Definition require_cycles (self : t) : result MissingFieldError Z :=
  ok_or (missing_with_hint "cycles" "can be set using .with_cycles(...)") (cycles self).
Definition require_journal (self : t) : result MissingFieldError bytes :=
  ok_or (missing_with_hint "journal" "can be set using .with_journal(...)") (journal self).
Definition require_image_id (self : t) : result MissingFieldError bytes :=
  ok_or (missing_with_hint "image_id"
    "can be set using .with_image_id(...), and is calculated from the program") (image_id self).
Definition require_request_id (self : t) : result MissingFieldError RequestId.t :=
  ok_or (missing_with_hint "request_id"
    "can be set using .with_request_id(...), and can be generated by boundless_market::Client")
    (request_id self).

Definition with_program (v : bytes) (s : t) : t :=
  mk (Some v) (env s) (program_url s) (request_input s) (cycles s) (image_id s) (journal s)
    (request_id s) (offer s) (requirements s).
Definition with_env (v : GuestEnv) (s : t) : t :=
  mk (program s) (Some v) (program_url s) (request_input s) (cycles s) (image_id s) (journal s)
    (request_id s) (offer s) (requirements s).
Definition with_stdin (v : bytes) (s : t) : t :=
  mk (program s) (Some (from_stdin v)) (program_url s) (request_input s) (cycles s) (image_id s)
    (journal s) (request_id s) (offer s) (requirements s).
Definition with_request_input (v : RequestInput) (s : t) : t :=
  mk (program s) (env s) (program_url s) (Some v) (cycles s) (image_id s) (journal s)
    (request_id s) (offer s) (requirements s).
Definition with_cycles (v : Z) (s : t) : t :=
  mk (program s) (env s) (program_url s) (request_input s) (Some v) (image_id s) (journal s)
    (request_id s) (offer s) (requirements s).
Definition with_journal (v : bytes) (s : t) : t :=
  mk (program s) (env s) (program_url s) (request_input s) (cycles s) (image_id s) (Some v)
    (request_id s) (offer s) (requirements s).
Definition with_image_id (v : bytes) (s : t) : t :=
  mk (program s) (env s) (program_url s) (request_input s) (cycles s) (Some v) (journal s)
    (request_id s) (offer s) (requirements s).
Definition with_request_id (v : RequestId.t) (s : t) : t :=
  mk (program s) (env s) (program_url s) (request_input s) (cycles s) (image_id s) (journal s)
    (Some v) (offer s) (requirements s).
Definition with_offer (v : OfferParams.t) (s : t) : t :=
  mk (program s) (env s) (program_url s) (request_input s) (cycles s) (image_id s) (journal s)
    (request_id s) v (requirements s).
Definition with_requirements (v : RequirementParams.t) (s : t) : t :=
  mk (program s) (env s) (program_url s) (request_input s) (cycles s) (image_id s) (journal s)
    (request_id s) (offer s) v.

(** The URL that the store returned, or one that parses. *)
Definition set_program_url (v : string) (s : t) : t :=
  mk (program s) (env s) (Some v) (request_input s) (cycles s) (image_id s) (journal s)
    (request_id s) (offer s) (requirements s).
Definition with_program_url `{Urls} (value : string) (s : t) : option t :=
  u ← parse_url value; Some (set_program_url u s).
Definition with_input_url `{Urls} (value : string) (s : t) : option t :=
  u ← parse_url value; Some (with_request_input (input_url u) s).

Definition set_selector (sel : Z) (s : t) : t :=
  let r := requirements s in
  with_requirements (RequirementParams.mk (RequirementParams.predicate r)
    (RequirementParams.image_id r) (RequirementParams.callback_address r)
    (RequirementParams.callback_gas_limit r) (Some sel)) s.

Definition with_groth16_proof (is_dev_mode : bool) (s : t) : t :=
  if is_dev_mode then set_selector (selector_as_u32 FakeReceipt) s
  else set_selector (selector_as_u32 groth16_latest) s.

Definition with_blake3_groth16_proof (is_dev_mode : bool) (s : t) : t :=
  if is_dev_mode then set_selector (selector_as_u32 FakeReceipt) s
  else set_selector (selector_as_u32 blake3_groth16_latest) s.

(** [From<(Program, Env)>]. *)
Definition from_pair (prog : bytes) (e : GuestEnv) : t := with_env e (with_program prog new).

End RequestParams.

(** ** Recommended times ([ParameterizationMode]) *)

Module ParameterizationMode.

Record t := mk {
  executor_speed : Z;
  base_timeout : Z;
  base_ramp_up_delay : Z;
  base_ramp_up_period : Z;
  timeout_seconds_per_mcycle : Z;
  ramp_up_seconds_per_mcycle : Z
}.

Definition DEFAULT_EXECUTOR_SPEED_HZ : Z := 1000000.
Definition DEFAULT_BASE_TIMEOUT : Z := 1800.
Definition DEFAULT_TIMEOUT_SECONDS_PER_MCYCLE : Z := 7.
Definition DEFAULT_RAMP_UP_SECONDS_PER_MCYCLE : Z := 2.
Definition DEFAULT_BASE_RAMP_UP_PERIOD : Z := 600.
Definition DEFAULT_BASE_RAMP_UP_DELAY : Z := 30.

Definition MAX_RAMP_UP_DELAY : Z := 3600.
Definition MAX_RAMP_UP_PERIOD : Z := 7200.
Definition MAX_TIMEOUT : Z := 14400.

Definition fulfillment : t := {|
  executor_speed := DEFAULT_EXECUTOR_SPEED_HZ;
  base_timeout := DEFAULT_BASE_TIMEOUT;
  timeout_seconds_per_mcycle := DEFAULT_TIMEOUT_SECONDS_PER_MCYCLE;
  ramp_up_seconds_per_mcycle := DEFAULT_RAMP_UP_SECONDS_PER_MCYCLE;
  base_ramp_up_delay := DEFAULT_BASE_RAMP_UP_DELAY;
  base_ramp_up_period := DEFAULT_BASE_RAMP_UP_PERIOD
|}.

(** [cycle_count.filter(|&count| count > 0)]. *)
Definition positive (cycle_count : option Z) : option Z :=
  c ← cycle_count; if 0 <? c then Some c else None.

(** A division by a speed of zero panics. *)
Definition executor_time {E} (self : t) (cycle_count : option Z) : result E Z :=
  match positive cycle_count with
  | Some count => q ← checked_div_ceil count (executor_speed self); mret (wrap 32 q)
  | None => mret 0
  end.

(** The clock is read for the value and for the default, which is computed in any
    case. *)
Definition recommended_ramp_up_start {W E} (now : st W Z) (self : t) (cycle_count : option Z)
    : ste W E Z :=
  recommended ←
    match positive cycle_count with
    | Some count =>
        n ← lift now;
        time ← liftr (executor_time self (Some count));
        mret (Some (wadd 64 n (Z.min (Z.max (base_ramp_up_delay self) time) MAX_RAMP_UP_DELAY)))
    | None => mret None
    end;
  n ← lift now;
  mret (default (wadd 64 n (base_ramp_up_delay self)) recommended).

(** Seconds for a number of megacycles, from a base and up to a cap. *)
Definition scaled_seconds (per_mcycle base cap count : Z) : Z :=
  let m_cycles := wrap 32 (div_ceil count 1000000) in
  Z.min (sat_add 32 (sat_mul 32 m_cycles per_mcycle) base) cap.

Definition recommended_ramp_up_period (self : t) (cycle_count : option Z) : Z :=
  default (base_ramp_up_period self)
    (scaled_seconds (ramp_up_seconds_per_mcycle self) (base_ramp_up_period self)
       MAX_RAMP_UP_PERIOD <$> positive cycle_count).

Definition recommended_timeout (self : t) (cycle_count : option Z) : Z :=
  default (base_timeout self)
    (scaled_seconds (timeout_seconds_per_mcycle self) (base_timeout self) MAX_TIMEOUT
       <$> positive cycle_count).

End ParameterizationMode.
