(* ===== verification/OfferLayer.v ===== *)
(** * The offer layer of the request builder

    [request_builder/offer_layer.rs] with the trait and the standard provider of
    [price_provider.rs] and the performance figures of [contracts/mod.rs].  The layer
    resolves the prices of an offer (parameters before configuration before market
    before default), adds the cost of gas to a maximum price that the requestor did not
    set, and recommends the times.

    It runs over the world of the price oracle, [OracleWorld]: the manager's caches are
    the state that it shares with the rest of the client.  Amounts of tokens are 256 bits
    wide with the wrap-around of [U256]. *)

From S2P Require Import Prelude Gas Market Auction Selector Oracle OrderPricing MarketService BuilderParams.
From Stdlib Require Import Floats.SpecFloat.

Local Open Scope Z_scope.

(** ** Errors and warnings *)

(** The causes of the [anyhow::Error]s of the builder. *)
Inductive BuildError :=
| MissingField (e : MissingFieldError)
| Refused (why : string)
| Conversion (e : ConversionError)
| InvalidRequest (e : RequestError)
| BadPredicate (e : PredicateError)
| BadInput (e : InputError)
| StorageFailed (e : string)
| ServiceFailed (e : MarketError)
| GasPriceFailed
| NodeFailed (e : string)
| ImageIdFailed (e : string)
| ExecutionFailed (e : string)
| PricingFailed (e : OrderPricingError).

(** The advice that the layer logs. *)
Inductive Warning :=
| PrimaryTooFast (recommended_lock_timeout : Z)
| SecondaryTooFast (recommended_timeout : Z)
| LowCollateral (recommended : Z).

(** The system clock in seconds, the variable [BOUNDLESS_IGNORE_PREFLIGHT], the log. *)
Class BuilderEnv (X : Type) := {
  system_time : st X Z;
  ignore_preflight : st X bool;
  warn : Warning -> st X unit
}.

(** [o.context(why)?] on an option. *)
Definition with_context {W A} (why : string) (o : option A) : ste W BuildError A :=
  liftr (ok_or (Refused why) o).

Definition require {W A} (r : result MissingFieldError A) : ste W BuildError A :=
  liftr (map_err MissingField r).

(** ** Market prices ([price_provider.rs]) *)

Record PricePercentiles := mkPercentiles {
  p10 : Z; p25 : Z; p50 : Z; p75 : Z; p90 : Z; p95 : Z; p99 : Z
}.

Abbreviation PriceProvider W := (ste W string PricePercentiles).

(** [StandardPriceProvider]: a default and an optional fallback. *)
Definition standard_price_percentiles {W} (default_provider : PriceProvider W)
    (fallback : option (PriceProvider W)) : PriceProvider W :=
  r ← catch default_provider;
  match r with
  | inr percentiles => mret percentiles
  | inl e => match fallback with Some fallback => fallback | None => throw e end
  end.

(** ** Prices *)

Definition DEFAULT_TIMEOUT : Z := 600.
Definition DEFAULT_RAMP_UP_PERIOD : Z := 60.
Definition DEFAULT_MIN_PRICE : Z := 0.

(** [Unit::KWEI] and [Unit::ETHER]. *)
Definition default_max_price_per_cycle : Z := wmul 256 100 (10 ^ 3).
Definition ether (n : Z) : Z := wmul 256 n (10 ^ 18).

(** [a.or(b)] *)
Definition or_else {A} (a b : option A) : option A := match a with Some _ => a | None => b end.

Definition resolve_min_price (params_min config_min_per_cycle cycle_count market_min : option Z)
    : Z :=
  default DEFAULT_MIN_PRICE
    (or_else (or_else params_min
       (c ← cycle_count; (fun p => wmul 256 p c) <$> config_min_per_cycle)) market_min).

Definition resolve_max_price (params_max config_max market_max cycle_count : option Z) : Z :=
  match or_else (or_else params_max config_max) market_max with
  | Some p => p
  | None =>
      let n := match cycle_count with Some count => Z.max count 1 | None => 1 end in
      wmul 256 default_max_price_per_cycle n
  end.

Definition buffered_market_max (max_per_cycle cycle_count buffer_percentage : Z) : Z :=
  sat_mul 256 (sat_mul 256 max_per_cycle cycle_count) buffer_percentage / 100.

(** ** Performance and collateral *)

Definition LARGE_REQUESTOR_LIST_THRESHOLD_KHZ : spec_float := f64_of_u64 4000.
Definition XL_REQUESTOR_LIST_THRESHOLD_KHZ : spec_float := f64_of_u64 10000.

(** Kilohertz for a number of cycles in a number of seconds. *)
Definition required_khz (cycle_count secs : Z) : spec_float :=
  if secs =? 0 then S754_infinity false
  else f64_div (f64_div (f64_of_u64 cycle_count) (f64_of_u64 secs)) (f64_of_u64 1000).

Definition required_khz_performance (self : Offer) (cycle_count : Z) : spec_float :=
  required_khz cycle_count (lockTimeout self).

Definition required_khz_performance_secondary_prover (self : Offer) (cycle_count : Z)
    : spec_float :=
  required_khz cycle_count (sat_sub (Market.timeout self) (lockTimeout self)).

Record CollateralRecommendation := mkCollaterals {
  cr_default : Z; cr_large : Z; cr_xl : Z
}.

Definition recommend_collateral (self : CollateralRecommendation)
    (secondary_performance : spec_float) (lock_collateral : Z) : option Z :=
  if SFltb secondary_performance LARGE_REQUESTOR_LIST_THRESHOLD_KHZ
     && (lock_collateral <? cr_default self) then Some (cr_default self)
  else if SFleb LARGE_REQUESTOR_LIST_THRESHOLD_KHZ secondary_performance
     && SFltb secondary_performance XL_REQUESTOR_LIST_THRESHOLD_KHZ
     && (lock_collateral <? cr_large self) then Some (cr_large self)
  else if SFleb XL_REQUESTOR_LIST_THRESHOLD_KHZ secondary_performance
     && (lock_collateral <? cr_xl self) then Some (cr_xl self)
  else None.

Definition default_lock_collateral (chain_id : Z) : CollateralRecommendation :=
  if chain_id =? 8453 then mkCollaterals (ether 20) (ether 50) (ether 100)
  else mkCollaterals (ether 5) (ether 10) (ether 20).

(** The 10000 kHz as an integer, by which a cycle count is divided. *)
Definition xl_threshold_u64 : Z := f64_as_u64 XL_REQUESTOR_LIST_THRESHOLD_KHZ.

Definition check_primary_performance_warning `{BuilderEnv X}
    (cycle_count : Z) (primary_performance : spec_float) : st X bool :=
  if SFltb XL_REQUESTOR_LIST_THRESHOLD_KHZ primary_performance then
    let recommended_lock_timeout := wrap 32 (div_ceil cycle_count xl_threshold_u64) in
    _ ← warn (PrimaryTooFast recommended_lock_timeout);
    mret true
  else mret false.

Definition check_secondary_performance_warning `{BuilderEnv X}
    (cycle_count : Z) (secondary_performance : spec_float) (lock_timeout : Z) : st X bool :=
  if SFltb XL_REQUESTOR_LIST_THRESHOLD_KHZ secondary_performance then
    let min_secondary_window := wrap 32 (div_ceil cycle_count xl_threshold_u64) in
    let recommended_timeout := sat_add 32 lock_timeout min_secondary_window in
    _ ← warn (SecondaryTooFast recommended_timeout);
    mret true
  else mret false.

(** ** The layer *)

Module OfferLayerConfig.

Record t := mk {
  parameterization_mode : option ParameterizationMode.t;
  min_price_per_cycle : option Amount;
  max_price_per_cycle : option Amount;
  bidding_start_delay : option Z;
  ramp_up_period : option Z;
  lock_timeout : option Z;
  timeout : option Z;
  lock_collateral : option Amount;
  lock_gas_estimate : Z;
  fulfill_gas_estimate : Z;
  fulfill_journal_gas_per_byte : Z;
  groth16_verify_gas_estimate : Z;
  smart_contract_sig_verify_gas_estimate : Z;
  supported_selectors : SupportedSelectors;
  market_price_buffer_multiplier_percentage : Z
}.

(** The defaults of the builder. *)
Definition new (is_dev_mode : bool) : t := {|
  parameterization_mode := Some ParameterizationMode.fulfillment;
  min_price_per_cycle := None;
  max_price_per_cycle := None;
  bidding_start_delay := None;
  ramp_up_period := None;
  lock_timeout := None;
  timeout := None;
  lock_collateral := None;
  lock_gas_estimate := 200000;
  fulfill_gas_estimate := 450000;
  fulfill_journal_gas_per_byte := 26;
  groth16_verify_gas_estimate := 250000;
  smart_contract_sig_verify_gas_estimate := 100000;
  supported_selectors := supported_default is_dev_mode;
  market_price_buffer_multiplier_percentage := 115
|}.

End OfferLayerConfig.

Import OfferLayerConfig (parameterization_mode, min_price_per_cycle, max_price_per_cycle,
  bidding_start_delay, lock_gas_estimate, smart_contract_sig_verify_gas_estimate,
  market_price_buffer_multiplier_percentage).

(** [max_journal_bytes] of [prover_utils/config.rs]. *)
Definition MAX_JOURNAL_BYTES : Z := 10000.

Definition estimate_gas_usage_upper_bound (config : OfferLayerConfig.t) (rq : Requirements)
    (request_id : RequestId.t) (journal_bytes : option Z) : result BuildError Z :=
  let estimate := wadd 64 (lock_gas_estimate config) (OfferLayerConfig.fulfill_gas_estimate config) in
  let estimate :=
    if bool_decide (predicateType (predicate rq) <> PtClaimDigestMatch) then
      let len := default MAX_JOURNAL_BYTES journal_bytes in
      wadd 64 estimate (wmul 64 len (OfferLayerConfig.fulfill_journal_gas_per_byte config))
    else estimate in
  let estimate :=
    if RequestId.smart_contract_signed request_id
    then wadd 64 estimate (smart_contract_sig_verify_gas_estimate config) else estimate in
  estimate ←
    match callback_as_option (callback rq) with
    | Some callback =>
        if gasLimit callback <? 2 ^ 64 then Ok (wadd 64 estimate (gasLimit callback))
        else Err (Refused "callback gas limit too large for u64")
    | None => Ok estimate
    end;
  ty ← ok_or (Refused "cannot estimate gas usage for request with unsupported selector")
         (proof_type (OfferLayerConfig.supported_selectors config) (selector rq));
  mret
    match ty with
    | PfGroth16 => wadd 64 estimate (OfferLayerConfig.groth16_verify_gas_estimate config)
    | _ => estimate
    end.

Definition estimate_gas_cost_upper_bound (config : OfferLayerConfig.t) (rq : Requirements)
    (request_id : RequestId.t) (gas_price : Z) (journal_bytes : option Z)
    : result BuildError Z :=
  units ← estimate_gas_usage_upper_bound config rq request_id journal_bytes;
  mret (wmul 128 gas_price units).

(** The percentile and multipliers that a requestor uses. *)
Definition requestor_priority : PriorityMode := ModeCustom 250 100 (f64_of_u64 75) 7 0.

Section OfferLayer.
Context {X : Type} `{OracleEnv X} `{BuilderEnv X} `{AlloyGas}.
Context `{MarketNode (OracleWorld X)} `{FeeNode (OracleWorld X)}.

Abbreviation om A := (ste (OracleWorld X) BuildError A).

(** [now_timestamp()] *)
Definition builder_now : st (OracleWorld X) Z := oenv system_time.

Definition convert_amount_to_eth (amount : Amount) (oracle : option (PriceOracleManager X))
    : om Z :=
  match amount_asset amount with
  | ETH => mret (amount_value amount)
  | USD =>
      oracle ← with_context "Price oracle required to convert USD prices to ETH." oracle;
      eth_amount ← with_err Conversion (convert oracle amount ETH);
      mret (amount_value eth_amount)
  | ZKC => throw (Refused "ZKC is not valid for price fields. Use USD or ETH.")
  end.

Definition convert_amount_to_zkc (amount : Amount) (oracle : option (PriceOracleManager X))
    : om Z :=
  match amount_asset amount with
  | ZKC => mret (amount_value amount)
  | USD =>
      oracle ← with_context "Price oracle required to convert USD collateral to ZKC." oracle;
      zkc_amount ← with_err Conversion (convert oracle amount ZKC);
      mret (amount_value zkc_amount)
  | ETH => throw (Refused "ETH is not valid for collateral. Use USD or ZKC.")
  end.

(** [OfferParams::into_offer]. *)
Definition into_offer (self : OfferParams.t) (oracle : option (PriceOracleManager X))
    : om Offer :=
  min_price ← require (ok_or (missing_new "min_price") (OfferParams.min_price self));
  max_price ← require (ok_or (missing_new "max_price") (OfferParams.max_price self));
  collateral ← require (ok_or (missing_new "lock_collateral") (OfferParams.lock_collateral self));
  timeout ← require (ok_or (missing_new "timeout") (OfferParams.timeout self));
  min_price ← convert_amount_to_eth min_price oracle;
  max_price ← convert_amount_to_eth max_price oracle;
  collateral ← convert_amount_to_zkc collateral oracle;
  lock_timeout ← require (ok_or (missing_new "lock_timeout") (OfferParams.lock_timeout self));
  start ← require (ok_or (missing_new "bidding_start") (OfferParams.bidding_start self));
  period ← require (ok_or (missing_new "ramp_up_period") (OfferParams.ramp_up_period self));
  mret (mkOffer min_price max_price start period lock_timeout timeout collateral).

Record OfferLayer := mkOfferLayer {
  config : OfferLayerConfig.t;
  price_provider : option (PriceProvider (OracleWorld X));
  price_oracle_manager : option (PriceOracleManager X)
}.

Context (layer : OfferLayer).

Definition convert_price_to_eth (amount : option Amount) : om (option Z) :=
  match amount with
  | None => mret None
  | Some amount =>
      v ← convert_amount_to_eth amount (price_oracle_manager layer);
      mret (Some v)
  end.

Definition convert_collateral_to_zkc (amount : option Amount) : om (option Z) :=
  match amount with
  | None => mret None
  | Some amount =>
      v ← convert_amount_to_zkc amount (price_oracle_manager layer);
      mret (Some v)
  end.

Definition max_price_with_gas (rq : Requirements) (request_id : RequestId.t) (max_price : Z)
    (journal_bytes : option Z) : om Z :=
  gas_price ← with_err (fun _ => GasPriceFailed) (estimate_max_fee_per_gas requestor_priority);
  cost ← liftr (estimate_gas_cost_upper_bound (config layer) rq request_id gas_price journal_bytes);
  mret (wadd 256 max_price (wmul 256 2 cost)).

(** The prices of the market, fetched when a price is set neither by the parameters nor
    by the configuration. *)
Definition market_prices (needed : bool) (cycle_count : option Z)
    : om (option Z * option Z) :=
  match needed, price_provider layer, cycle_count with
  | true, Some price_provider, Some cycle_count =>
      r ← catch price_provider;
      match r with
      | inr percentiles =>
          let max_per_cycle := Z.min (p99 percentiles) (wmul 256 (p50 percentiles) 2) in
          let buffer := market_price_buffer_multiplier_percentage (config layer) in
          mret (Some 0, Some (buffered_market_max max_per_cycle cycle_count buffer))
      | inl _ => mret (None, None)
      end
  | _, _, _ => mret (None, None)
  end.

(** The start of the ramp, its length and the two timeouts, from the configuration
    before the recommendation before the default. *)
Definition offer_times (cycle_count : option Z) : om (Z * Z * Z * Z) :=
  recommended_start ←
    match parameterization_mode (config layer) with
    | Some m => n ← ParameterizationMode.recommended_ramp_up_start builder_now m cycle_count;
                mret (Some n)
    | None => mret None
    end;
  let recommended_period :=
    (fun m => ParameterizationMode.recommended_ramp_up_period m cycle_count)
      <$> parameterization_mode (config layer) in
  let recommended_lock :=
    (fun m => ParameterizationMode.recommended_timeout m cycle_count)
      <$> parameterization_mode (config layer) in
  ramp_up_start ←
    match bidding_start_delay (config layer), recommended_start with
    | Some d, _ => n ← lift builder_now; mret (wadd 64 n d)
    | None, Some start => mret start
    | None, None => n ← lift builder_now; mret (wadd 64 n 15)
    end;
  let ramp_up_period :=
    default DEFAULT_RAMP_UP_PERIOD
      (or_else (OfferLayerConfig.ramp_up_period (config layer)) recommended_period) in
  let lock_timeout :=
    default (wadd 32 DEFAULT_TIMEOUT DEFAULT_RAMP_UP_PERIOD)
      (or_else (OfferLayerConfig.lock_timeout (config layer)) recommended_lock) in
  let timeout :=
    default (wmul 32 lock_timeout 2) (OfferLayerConfig.timeout (config layer)) in
  mret (ramp_up_start, ramp_up_period, lock_timeout, timeout).

(** The warnings about an offer that few provers can take. *)
Definition advise (offer : Offer) (collaterals : CollateralRecommendation) (cycle_count : Z)
    : st (OracleWorld X) unit :=
  let primary := required_khz_performance offer cycle_count in
  let secondary := required_khz_performance_secondary_prover offer cycle_count in
  _ ← oenv (check_primary_performance_warning cycle_count primary);
  _ ← oenv (check_secondary_performance_warning cycle_count secondary (lockTimeout offer));
  match recommend_collateral collaterals secondary (lockCollateral offer) with
  | Some collateral => oenv (warn (LowCollateral collateral))
  | None => mret tt
  end.

Definition offer_process (rq : Requirements) (request_id : RequestId.t)
    (cycle_count journal_bytes : option Z) (params : OfferParams.t) : om Offer :=
  min_price_per_cycle_wei ← convert_price_to_eth (min_price_per_cycle (config layer));
  max_price_per_cycle_wei ← convert_price_to_eth (max_price_per_cycle (config layer));
  lock_collateral_zkc ← convert_collateral_to_zkc (OfferLayerConfig.lock_collateral (config layer));
  params_min_price ← convert_price_to_eth (OfferParams.min_price params);
  params_max_price ← convert_price_to_eth (OfferParams.max_price params);
  params_lock_collateral ← convert_collateral_to_zkc (OfferParams.lock_collateral params);
  '(market_min_price, market_max_price) ←
    market_prices
      ((bool_decide (params_min_price = None) && bool_decide (min_price_per_cycle_wei = None))
       || (bool_decide (params_max_price = None) && bool_decide (max_price_per_cycle_wei = None)))
      cycle_count;
  let min_price :=
    resolve_min_price params_min_price min_price_per_cycle_wei cycle_count market_min_price in
  config_max_value ←
    match params_max_price with
    | None =>
        c ← with_context "cycle count required to set max price in OfferLayer" cycle_count;
        mret ((fun per_cycle => wmul 256 per_cycle c) <$> max_price_per_cycle_wei)
    | Some _ => mret None
    end;
  let max_price :=
    resolve_max_price params_max_price config_max_value market_max_price cycle_count in
  max_price ←
    match params_max_price with
    | None => max_price_with_gas rq request_id max_price journal_bytes
    | Some _ => mret max_price
    end;
  '(ramp_up_start, ramp_up_period, lock_timeout, timeout) ← offer_times cycle_count;
  r ← lift node_chain_id;
  chain_id ← liftr match r with inr c => Ok c | inl e => Err (NodeFailed e) end;
  let default_collaterals := default_lock_collateral chain_id in
  let lock_collateral := default (cr_default default_collaterals) lock_collateral_zkc in
  let offer := {|
    minPrice := min_price;
    maxPrice := max_price;
    rampUpStart := default ramp_up_start (OfferParams.bidding_start params);
    rampUpPeriod := default ramp_up_period (OfferParams.ramp_up_period params);
    lockTimeout := default lock_timeout (OfferParams.lock_timeout params);
    Market.timeout := default timeout (OfferParams.timeout params);
    lockCollateral := default lock_collateral params_lock_collateral |} in
  _ ← match cycle_count with
      | Some cycle_count => lift (advise offer default_collaterals cycle_count)
      | None => mret tt
      end;
  mret offer.

(** [Adapt<OfferLayer> for RequestParams]. *)
Definition offer_process_with (self : RequestParams.t) : om RequestParams.t :=
  rq ← require (RequirementParams.into_requirements (RequestParams.requirements self));
  request_id ← require (RequestParams.require_request_id self);
  let journal_bytes := (fun j => Z.of_nat (length j)) <$> RequestParams.journal self in
  offer ← offer_process rq request_id (RequestParams.cycles self) journal_bytes
            (RequestParams.offer self);
  mret (RequestParams.with_offer (OfferParams.from_offer offer) self).

End OfferLayer.
