(* ===== verification/RequestorPricing.v ===== *)
(** * The requestor's pricing of its own request

    [prover_utils/requestor_pricing.rs]: before a request is sent, the requestor prices
    it with the code of the provers ([OrderPricing.price_order]), under a default
    configuration and without the checks of a broker.  [requestor_context] is its
    implementation of [OrderPricingContext]; the theorems of [OrderPricing] apply to it
    through the interfaces [SkipsOnly] and [PanicFree]. *)

From S2P Require Import Prelude Gas Market Auction Selector Oracle OrderPricing MarketService BuilderParams OfferLayer.

Local Open Scope Z_scope.

(** What the pricing asks of the node beyond fees: the code at an address and an
    estimate for [isValidSignature]; and [Digest::from_hex]. *)
Class RequestorNode (W : Type) := {
  get_code_at : Z -> st W (option bytes);
  signature_gas : Z -> bytes -> bytes -> st W (option Z);
  hex_digest : string -> option bytes
}.

(** The world of one pricing: its cache of gas estimates, and the rest. *)
Record PreflightWorld (X : Type) := mkPreflightWorld {
  erc1271_gas_cache : gmap Z Z;
  pf_world : OracleWorld X
}.
Arguments mkPreflightWorld {X} _ _.
Arguments erc1271_gas_cache {X} _.
Arguments pf_world {X} _.

(** [MarketConfig::default()]; the amounts are [0.00002 USD] and [10 USD]. *)
Definition market_config_default : MarketConfig := {|
  min_mcycle_price := mkAmount 20 USD;
  expected_probability_win_secondary_fulfillment := 50;
  max_mcycle_limit := 8000;
  min_mcycle_limit := 0;
  max_journal_bytes := 10000;
  peak_prove_khz := None;
  min_deadline := (45 * 3 + 15 * 2) + 30;
  max_collateral := mkAmount 10000000 USD;
  lockin_gas_estimate := 200000;
  fulfill_gas_estimate := 420000;
  commit_fulfillment_gas_estimate := 50000;
  fulfill_journal_gas_per_byte := 26;
  groth16_verify_gas_estimate := 250000;
  cfg_additional_proof_cycles := 2000000 + 270000;
  pricing_overrides := mkOverrides ∅ ∅ ∅;
  max_order_expiry_secs := None
|}.

Definition with_min_mcycle_price (p : Amount) (c : MarketConfig) : MarketConfig := {|
  min_mcycle_price := p;
  expected_probability_win_secondary_fulfillment := expected_probability_win_secondary_fulfillment c;
  max_mcycle_limit := max_mcycle_limit c;
  min_mcycle_limit := min_mcycle_limit c;
  max_journal_bytes := max_journal_bytes c;
  peak_prove_khz := peak_prove_khz c;
  min_deadline := min_deadline c;
  max_collateral := max_collateral c;
  lockin_gas_estimate := lockin_gas_estimate c;
  fulfill_gas_estimate := fulfill_gas_estimate c;
  commit_fulfillment_gas_estimate := commit_fulfillment_gas_estimate c;
  fulfill_journal_gas_per_byte := fulfill_journal_gas_per_byte c;
  groth16_verify_gas_estimate := groth16_verify_gas_estimate c;
  cfg_additional_proof_cycles := cfg_additional_proof_cycles c;
  pricing_overrides := pricing_overrides c;
  max_order_expiry_secs := max_order_expiry_secs c
|}.

(** A prover, as far as it evaluates requests. *)
Abbreviation RequestEvaluator W :=
  (EvaluationRequest -> EvaluationLimits -> ste W OrderPricingError RequestEvaluation).

Section RequestorPricing.
Context {X : Type} `{Externals} `{ServiceAbi} `{OracleEnv X} `{BuilderEnv X} `{AlloyGas}.
Context `{MarketNode (OracleWorld X)} `{FeeNode (OracleWorld X)} `{RequestorNode (OracleWorld X)}.

Abbreviation W0 := (OracleWorld X).
Abbreviation PW := (PreflightWorld X).

Definition on_world {E A} (m : ste W0 E A) : ste PW E A := fun s =>
  let (r, w) := m (pf_world s) in (r, mkPreflightWorld (erc1271_gas_cache s) w).

Definition build_market_config (price_provider : option (PriceProvider W0))
    : ste W0 BuildError MarketConfig :=
  match price_provider with
  | None => mret market_config_default
  | Some provider =>
      r ← catch provider;
      let min_mcycle_price :=
        match r with
        | inr percentiles => sat_mul 256 (p10 percentiles) ONE_MILLION
        | inl _ => 0
        end in
      mret (with_min_mcycle_price (mkAmount min_mcycle_price ETH) market_config_default)
  end.

(** *** The context *)

Variable evaluator : RequestEvaluator W0.

(** [estimate_erc1271_gas] with the cache of this preflight. *)
Definition requestor_erc1271_gas (order : OrderRequest) : st PW Z := fun s =>
  if negb (is_smart_contract_signed (request order)) then (0, s) else
  let client_addr := client_address (request order) in
  match signing_hash (request order) (boundless_market_address order) (chain_id order) with
  | Ok request_hash =>
      match erc1271_gas_cache s !! client_addr with
      | Some gas => (gas, s)
      | None =>
          let (code, w) := get_code_at client_addr (pf_world s) in
          let (gas, w) :=
            if bool_decide (default [] code = []) then (ERC1271_MAX_GAS_FOR_CHECK, w) else
            let (estimate, w) :=
              signature_gas client_addr request_hash (client_sig order) w in
            (default ERC1271_MAX_GAS_FOR_CHECK estimate, w) in
          (gas, mkPreflightWorld (<[client_addr := gas]> (erc1271_gas_cache s)) w)
      end
  | _ => (ERC1271_MAX_GAS_FOR_CHECK, s)
  end.

(** The conversions of the context: without an oracle the amount is taken to be the
    [bound] that lets the check pass. *)
Definition requestor_convert (price_oracle : option (PriceOracleManager X)) (target : Asset)
    (bound : Z) (amount : Amount) : ste PW OrderPricingError Amount :=
  if bool_decide (amount_asset amount = target) then mret amount else
  match price_oracle with
  | None => mret (mkAmount bound target)
  | Some oracle => with_err (fun _ => UnexpectedErr) (on_world (convert oracle amount target))
  end.

Definition requestor_context (is_dev_mode : bool) (cfg : MarketConfig) (token_decimals : Z)
    (price_oracle : option (PriceOracleManager X)) : OrderPricingContext PW := {|
  market_config := mret cfg;
  supported_selectors := supported_default is_dev_mode;
  OrderPricing.collateral_token_decimals := token_decimals;
  denied_requestor_addresses := mret None;
  check_requestor_allowed := fun _ _ => mret None;
  check_request_available := fun _ => mret None;
  estimate_gas_to_fulfill := fun r =>
    liftr (estimate_fulfill_gas_default cfg (supported_default is_dev_mode) r);
  additional_proof_cycles_for := fun _ => mret (cfg_additional_proof_cycles cfg);
  is_priority_requestor := fun _ => mret false;
  check_available_balances := fun _ _ _ _ => mret None;
  current_gas_price :=
    with_err (fun _ => RpcErr) (on_world (estimate_max_fee_per_gas ModeMedium));
  estimate_erc1271_gas := requestor_erc1271_gas;
  convert_to_eth := requestor_convert price_oracle ETH 0;
  convert_to_zkc := requestor_convert price_oracle ZKC (umax 256);
  evaluate_request := fun r l => on_world (evaluator r l);
  now_timestamp := fun s =>
    let (n, w) := builder_now (pf_world s) in
    (n, mkPreflightWorld (erc1271_gas_cache s) w);
  digest_from_hex := hex_digest
|}.

(** *** The preflight *)

(** A view of the market by a fresh service. *)
Definition token_decimals_of : ste W0 MarketError Z := fun w =>
  let (r, s) := MarketService.collateral_token_decimals (mkMs w 0 []) in
  (r, ms_world s).

Definition requestor_order (ty : FulfillmentType) (request : ProofRequest)
    (market_address chain_id : Z) : ste PW BuildError OrderRequest :=
  now ← lift (fun s => let (n, w) := builder_now (pf_world s) in
                       (n, mkPreflightWorld (erc1271_gas_cache s) w));
  mret (order_request_new request [] ty market_address chain_id now).

(** [pricing_context.price_order(&mut order)]. *)
Definition price_with (ctx : OrderPricingContext PW) (order : OrderRequest)
    : ste PW BuildError OrderPricingOutcome := fun s =>
  let '(r, (_, s')) := price_order order s in (map_err PricingFailed r, s').

(** The two pricings, which share the cache. *)
Definition preflight_orders (ctx : OrderPricingContext PW) (request : ProofRequest)
    (market_address chain_id : Z) : ste PW BuildError (option Z) :=
  lock_order ← requestor_order LockAndFulfill request market_address chain_id;
  lock_outcome ← price_with ctx lock_order;
  let result_cycle_count :=
    match lock_outcome with Lock t => Some (lt_total_cycles t) | _ => None end in
  expire_order ← requestor_order FulfillAfterLockExpire request market_address chain_id;
  expire_outcome ← price_with ctx expire_order;
  mret
    match expire_outcome with
    | ProveAfterLockExpire t => Some (al_total_cycles t)
    | _ => result_cycle_count
    end.

Definition with_fresh_cache {E A} (m : ste PW E A) : ste W0 E A := fun w =>
  let (r, s) := m (mkPreflightWorld ∅ w) in (r, pf_world s).

Definition requestor_order_preflight (is_dev_mode : bool) (request : ProofRequest)
    (market_address chain_id : Z) (price_provider : option (PriceProvider W0))
    (price_oracle : option (PriceOracleManager X)) : ste W0 BuildError (option Z) :=
  token_decimals ← with_err ServiceFailed token_decimals_of;
  cfg ← build_market_config price_provider;
  with_fresh_cache
    (preflight_orders (requestor_context is_dev_mode cfg token_decimals price_oracle) request
       market_address chain_id).

End RequestorPricing.
