(* ===== verification/RequestBuilder.v ===== *)
(** * The request builder

    [request_builder]: the layers that turn the parameters of a request into a request,
    and [StandardRequestBuilder], which runs them in order: [storage_layer.rs],
    [preflight_layer.rs], [requirements_layer.rs], [request_id_layer.rs],
    [offer_layer.rs] (the file OfferLayer), [finalizer.rs].

    A run has the state of the market service, which generates identifiers, over the
    world of the price oracle.  Stores, downloaders and the zkVM are records of their
    operations, as in the source, where they are traits. *)

From S2P Require Import Prelude Gas Market Selector Oracle OrderPricing MarketService BuilderParams OfferLayer RequestorPricing.

Local Open Scope Z_scope.

(** ** What the builder is given *)

Record LocalExecutor (W : Type) := mkExecutor {
  execute_program : string -> bytes -> bytes -> ste W string (Z * bytes);
  insert_execution_data : string -> bytes -> Z -> bytes -> st W unit
}.
Arguments mkExecutor {W} _ _.
Arguments execute_program {W} _ _ _ _.
Arguments insert_execution_data {W} _ _ _ _ _.

Record ZkvmOps (W : Type) := mkZkvm {
  executor : LocalExecutor W;
  evaluator : RequestEvaluator W;
  compute_image_id : bytes -> string + bytes
}.
Arguments mkZkvm {W} _ _ _.
Arguments executor {W} _.
Arguments evaluator {W} _.
Arguments compute_image_id {W} _ _.

(** The feature [blake3-groth16] of the crate, and the digest of the claim that its
    proofs have for a journal. *)
Class Blake3Feature := {
  blake3_groth16 : bool;
  blake3_claim_digest : bytes -> bytes -> bytes
}.

Record StorageLayer (W : Type) := mkStorageLayer {
  uploader : option (StorageUploader W);
  inline_input_max_bytes : option Z
}.
Arguments mkStorageLayer {W} _ _.
Arguments uploader {W} _.
Arguments inline_input_max_bytes {W} _.

Definition INLINE_INPUT_MAX_BYTES : option Z := Some 2048.

Inductive RequestIdLayerMode := IdRand | IdNonce.

Record Finalizer (X : Type) := mkFinalizer {
  check_expiration : bool;
  fin_price_oracle_manager : option (PriceOracleManager X)
}.
Arguments mkFinalizer {X} _ _.
Arguments check_expiration {X} _.
Arguments fin_price_oracle_manager {X} _.

Section RequestBuilder.
Context {X : Type} `{Urls} `{RmpSerde} `{ServiceAbi} `{OracleEnv X} `{BuilderEnv X} `{AlloyGas}.
Context `{Blake3Feature}.
Context `{MarketNode (OracleWorld X)} `{FeeNode (OracleWorld X)} `{RequestorNode (OracleWorld X)}.

Abbreviation W0 := (OracleWorld X).
Abbreviation bm A := (ste (MsState W0) BuildError A).

(** A part of a run that leaves the market service alone. *)
Definition at_world {E A} (m : ste W0 E A) : ste (MsState W0) E A := fun s =>
  let (r, w) := m (ms_world s) in (r, mkMs w (ms_chain_id s) (ms_txs s)).

Definition or_fail {A} (f : string -> BuildError) (r : string + A) : bm A :=
  liftr match r with inr a => Ok a | inl e => Err (f e) end.

(** ** Storage *)

Section Storage.
Variable layer : StorageLayer W0.

Definition encoded_env (env : GuestEnv) : bm bytes :=
  liftr (map_err BadInput (guest_env_encode env)).

(** The encoding is longer than what is sent inline. *)
Definition exceeds_inline (input_data : bytes) : bool :=
  match inline_input_max_bytes layer with
  | Some limit => limit <? Z.of_nat (length input_data)
  | None => false
  end.

Definition process_env (env : GuestEnv) : bm RequestInput :=
  input_data ← encoded_env env;
  if exceeds_inline input_data then
    storage_uploader ←
      with_context "cannot upload input using StorageLayer with no storage_uploader" (uploader layer);
    url ← at_world (with_err StorageFailed (upload_input storage_uploader input_data));
    mret (input_url url)
  else mret (input_inline input_data).

Definition process_env_no_provider (env : GuestEnv) : bm RequestInput :=
  input_data ← encoded_env env;
  if exceeds_inline input_data then
    throw (Refused "cannot upload input using StorageLayer with no storage_uploader")
  else mret (input_inline input_data).

(** The input from the environment, unless it is given. *)
Definition fill_input (process : GuestEnv -> bm RequestInput) (params : RequestParams.t)
    : bm RequestParams.t :=
  match RequestParams.request_input params with
  | Some _ => mret params
  | None =>
      env ← require (RequestParams.require_env params);
      input ← process env;
      mret (RequestParams.with_request_input input params)
  end.

(** [Adapt<StorageLayer<S>>] *)
Definition storage_process_with (params : RequestParams.t) : bm RequestParams.t :=
  match RequestParams.program_url params with
  | None => throw (Refused "program_url must be set when processing StorageLayer without ZkvmOps")
  | Some _ => fill_input process_env params
  end.

(** [Adapt<(&StorageLayer<S>, &Z)>] *)
Definition storage_process_with_zkvm (zkvm_ops : ZkvmOps W0) (params : RequestParams.t)
    : bm RequestParams.t :=
  params ←
    match RequestParams.program_url params with
    | Some _ => mret params
    | None =>
        program ← require (RequestParams.require_program params);
        image_id ← or_fail ImageIdFailed (compute_image_id zkvm_ops program);
        storage_uploader ←
          with_context "cannot upload program using StorageLayer with no storage_uploader"
            (uploader layer);
        url ← at_world (with_err StorageFailed
                 (upload_bytes storage_uploader program (hex_bytes image_id +:+ ".bin")));
        mret (RequestParams.set_program_url url params)
    end;
  fill_input process_env params.

(** [Adapt<StorageLayer<NotProvided>>], with or without a zkVM. *)
Definition storage_process_not_provided (params : RequestParams.t) : bm RequestParams.t :=
  _ ← require (RequestParams.require_program_url params);
  fill_input process_env_no_provider params.

End Storage.

(** ** Preflight *)

Section Preflight.
Variable downloader : option (StorageDownloader W0).
Variable zkvm_ops : ZkvmOps W0.

Definition fetch_env (input : RequestInput) : bm GuestEnv :=
  match inputType input with
  | InputInline => liftr (map_err BadInput (guest_env_decode (inputData input)))
  | InputUrl =>
      downloader ← with_context "cannot preflight URL input without downloader" downloader;
      url ← with_context "Input URL is not valid UTF-8" (utf8 (inputData input));
      data ← at_world (with_err StorageFailed (download downloader url));
      liftr (map_err BadInput (guest_env_decode data))
  | InputInvalid => throw (Refused "Unsupported input type")
  end.

Definition ensure_image_id (params : RequestParams.t) : bm RequestParams.t :=
  match RequestParams.image_id params with
  | Some _ => mret params
  | None =>
      program ←
        match RequestParams.require_program params with
        | Ok program => mret program
        | _ =>
            url ← require (RequestParams.require_program_url params);
            downloader ← with_context "cannot fetch program URL without downloader" downloader;
            at_world (with_err StorageFailed (download downloader url))
        end;
      image_id ← or_fail ImageIdFailed (compute_image_id zkvm_ops program);
      mret (RequestParams.with_image_id image_id params)
  end.

Definition fill_executor_cache_if_ready (params : RequestParams.t) : bm unit :=
  match RequestParams.image_id params, RequestParams.request_input params,
        RequestParams.cycles params, RequestParams.journal params with
  | Some image_id, Some request_input, Some cycles, Some journal =>
      r ← catch (fetch_env request_input);
      match r with
      | inr env =>
          at_world (lift (insert_execution_data (executor zkvm_ops) (hex_bytes image_id)
                            (stdin env) cycles journal))
      | inl _ => mret tt
      end
  | _, _, _, _ => mret tt
  end.

Definition preflight_process_with (params : RequestParams.t) : bm RequestParams.t :=
  match RequestParams.cycles params, RequestParams.journal params with
  | Some _, Some _ =>
      params ← ensure_image_id params;
      _ ← fill_executor_cache_if_ready params;
      mret params
  | _, _ =>
      program_url ← require (RequestParams.require_program_url params);
      request_input ← require (RequestParams.require_request_input params);
      dl ← with_context "cannot preflight URL request without downloader" downloader;
      program ← at_world (with_err StorageFailed (download dl program_url));
      env ← fetch_env request_input;
      image_id ← or_fail ImageIdFailed (compute_image_id zkvm_ops program);
      '(cycles, journal) ←
        at_world (with_err ExecutionFailed
          (execute_program (executor zkvm_ops) (hex_bytes image_id) program (stdin env)));
      _ ← match RequestParams.image_id params with
          | Some provided =>
              if bool_decide (provided = image_id) then mret tt
              else throw (Refused "provided image ID does not match computed value")
          | None => mret tt
          end;
      mret (RequestParams.with_image_id image_id
              (RequestParams.with_journal journal (RequestParams.with_cycles cycles params)))
  end.

End Preflight.

(** ** Requirements *)

Definition DEFAULT_CALLBACK_GAS_LIMIT : Z := 100000.

(** The predicate of a Blake3 proof, or the one that was given. *)
Definition blake3_predicate (image_id journal : bytes) (params : RequirementParams.t)
    : result BuildError (option Predicate) :=
  let given := RequirementParams.predicate params in
  match RequirementParams.selector params with
  | Some sel =>
      if blake3_groth16 && is_blake3_groth16_selector sel then
        if negb (length journal =? 32)%nat
        then Err (Refused "Blake3Groth16 proofs require a 32-byte journal") else
        match given with
        | Some (ClaimDigestMatch _) => Ok given
        | Some _ => Err (Refused "Blake3Groth16 proofs require a ClaimDigestMatch predicate")
        | None => Ok (Some (ClaimDigestMatch (blake3_claim_digest image_id journal)))
        end
      else Ok given
  | None => Ok given
  end.

Definition requirements_process (image_id journal : bytes) (params : RequirementParams.t)
    : result BuildError Requirements :=
  predicate ← blake3_predicate image_id journal params;
  let predicate := default (DigestMatch image_id (sha256 journal)) predicate in
  _ ← match RequirementParams.image_id params with
      | Some params_image_id =>
          if bool_decide (image_id = params_image_id) then Ok tt
          else Err (Refused "mismatch between specified and computed image ID")
      | None => Ok tt
      end;
  let callback :=
    match RequirementParams.callback_address params with
    | Some addr =>
        mkCallback addr
          (default DEFAULT_CALLBACK_GAS_LIMIT (RequirementParams.callback_gas_limit params))
    | None => mkCallback 0 0
    end in
  mret (mkRequirements (predicate_into predicate) callback
          (default 0 (RequirementParams.selector params))).

(** [Adapt<RequirementsLayer>] without a zkVM and with one. *)
Definition requirements_process_with (zkvm_ops : option (ZkvmOps W0))
    (params : RequestParams.t) : bm RequestParams.t :=
  let given := RequestParams.requirements params in
  match RequirementParams.predicate given, RequirementParams.image_id given with
  | Some _, Some _ => mret params
  | _, _ =>
      journal ← require (RequestParams.require_journal params);
      image_id ←
        match RequestParams.image_id params, zkvm_ops with
        | Some image_id, _ => mret image_id
        | None, None =>
            throw (Refused "image_id must be set when processing RequirementsLayer without ZkvmOps")
        | None, Some zkvm_ops =>
            program ← require (RequestParams.require_program params);
            or_fail ImageIdFailed (compute_image_id zkvm_ops program)
        end;
      requirements ← liftr (requirements_process image_id journal given);
      filled ← liftr (map_err BadPredicate (RequirementParams.of_requirements requirements));
      mret (RequestParams.with_requirements filled params)
  end.

(** ** Request identifiers *)

Definition request_id_process (service : ServiceSettings) (mode : RequestIdLayerMode)
    : bm RequestId.t :=
  id_u256 ← with_err ServiceFailed
    match mode with
    | IdNonce => request_id_from_nonce service
    | IdRand => request_id_from_rand service
    end;
  match request_id_try_from id_u256 with
  | Ok id => mret id
  | _ => liftr Panic
  end.

Definition request_id_process_with (service : ServiceSettings) (mode : RequestIdLayerMode)
    (params : RequestParams.t) : bm RequestParams.t :=
  match RequestParams.request_id params with
  | Some _ => mret params
  | None =>
      request_id ← request_id_process service mode;
      mret (RequestParams.with_request_id request_id params)
  end.

(** ** Finalizer *)

Definition clock : bm Z := at_world (lift builder_now).

Definition finalizer_process (layer : Finalizer X) (program_url : string) (input : RequestInput)
    (requirements : Requirements) (offer : Offer) (request_id : RequestId.t)
    : bm ProofRequest :=
  let request := mkProofRequest (RequestId.into_u256 request_id) requirements program_url input offer in
  _ ← liftr (map_err InvalidRequest (validate request));
  _ ← (if check_expiration layer then
         now ← clock;
         if is_expired now request then throw (Refused "request expired") else
         now ← clock;
         if is_lock_expired now request then throw (Refused "request lock expired") else mret tt
       else mret tt);
  mret request.

(** The check of the journal and image that are known against the predicate. *)
Definition known_output_accepted (requirements : Requirements) (predicate : Predicate)
    (journal image_id : option bytes) : result BuildError bool :=
  match journal, image_id with
  | Some journal, Some image_id =>
      eval_data ←
        (if is_blake3_groth16_selector (selector requirements) then
           if negb (bool_decide (predicateType (Market.predicate requirements)
                                 = PtClaimDigestMatch))
           then Err (Refused "Blake3Groth16 proofs require a ClaimDigestMatch predicate") else
           if negb (length journal =? 32)%nat
           then Err (Refused "Blake3Groth16 proofs require a 32-byte journal") else
           Ok FdNone
         else Ok (FdImageIdAndJournal image_id journal));
      mret (bool_decide (is_Some (predicate_eval predicate eval_data)))
  | _, _ => Ok true
  end.

Definition finalizer_process_with (layer : Finalizer X) (params : RequestParams.t)
    : bm ProofRequest :=
  program_url ← require (RequestParams.require_program_url params);
  input ← require (RequestParams.require_request_input params);
  requirements ←
    require (RequirementParams.into_requirements (RequestParams.requirements params));
  offer ← at_world (into_offer (RequestParams.offer params) (fin_price_oracle_manager layer));
  request_id ← require (RequestParams.require_request_id params);
  predicate ← liftr (map_err BadPredicate (predicate_try_from (Market.predicate requirements)));
  eval ← liftr (known_output_accepted requirements predicate (RequestParams.journal params)
                  (RequestParams.image_id params));
  if negb eval
  then throw (Refused "journal in request builder does not match requirements predicate") else
  finalizer_process layer program_url input requirements offer request_id.

(** ** The standard builder *)

(** A store that uploads, or one that is not provided. *)
Inductive BuilderStorage :=
| WithUploader (layer : StorageLayer W0)
| NotProvided (layer : StorageLayer W0).

Record StandardRequestBuilder := mkBuilder {
  storage_layer : BuilderStorage;
  preflight_downloader : option (StorageDownloader W0);
  boundless_market : ServiceSettings;
  request_id_mode : RequestIdLayerMode;
  offer_layer : @OfferLayer X;
  finalizer : Finalizer X;
  skip_preflight : option bool;
  zkvm_ops : option (ZkvmOps W0);
  (** [is_dev_mode()], which the default selectors read *)
  dev_mode : bool
}.

Variable self : StandardRequestBuilder.

Definition should_skip_preflight : bm bool :=
  match skip_preflight self with
  | Some skip => mret skip
  | None => at_world (lift (oenv ignore_preflight))
  end.

(** The request is priced as a prover would; errors are only logged. *)
Definition run_pricing_check (request : ProofRequest) : bm unit :=
  skip ← should_skip_preflight;
  if skip : bool then mret tt else
  r ← catch get_chain_id;
  match r, zkvm_ops self with
  | inr chain_id, Some ops =>
      _ ← catch (at_world (requestor_order_preflight (evaluator ops) (dev_mode self) request
                   (market_address (boundless_market self)) chain_id
                   (price_provider (offer_layer self))
                   (price_oracle_manager (offer_layer self))));
      mret tt
  | _, _ => mret tt
  end.

Definition preflight_and_requirements (params : RequestParams.t) : bm RequestParams.t :=
  match zkvm_ops self with
  | Some ops =>
      params ← preflight_process_with (preflight_downloader self) ops params;
      requirements_process_with (Some ops) params
  | None => requirements_process_with None params
  end.

Definition build_from_params (params : RequestParams.t) : bm ProofRequest :=
  params ← preflight_and_requirements params;
  params ← request_id_process_with (boundless_market self) (request_id_mode self) params;
  params ← at_world (offer_process_with (offer_layer self) params);
  request ← finalizer_process_with (finalizer self) params;
  _ ← run_pricing_check request;
  mret request.

Definition store_params (input : RequestParams.t) : bm RequestParams.t :=
  match storage_layer self, zkvm_ops self with
  | WithUploader layer, Some ops => storage_process_with_zkvm layer ops input
  | WithUploader layer, None => storage_process_with layer input
  | NotProvided layer, _ => storage_process_not_provided layer input
  end.

(** [Layer<RequestParams>::process]; [build] without a store is the same. *)
Definition build_request (input : RequestParams.t) : bm ProofRequest :=
  params ← store_params input;
  build_from_params params.

End RequestBuilder.

(** ** A small world to run the builder in

    The world of [MarketService.ToyNode], a chain with a fixed fee, a store whose URLs
    hold what is stored, and a zkVM whose guests write their input as their journal. *)

Module ToyBuilder.

Definition sha (l : bytes) : bytes := take 32 (l ++ repeat Byte.x00 32).

Definition externals : Externals := {|
  url_parse := fun s => bool_decide (s <> ""%string);
  receipt_claim_digest := fun i j => i ++ sha j;
  receipt_claim_digest_pruned := fun i d => i ++ d;
  abi_encode_fd := Market.toy_encode;
  abi_decode_fd := Market.toy_decode;
  keccak256 := sha;
  eip712_signing_hash := fun _ _ => [];
  sig_parse := fun _ => Some 0;
  sig_noncanonical := fun _ => false;
  sig_recover := fun s _ => Some s
|}.
#[export] Existing Instance externals | 100.

Definition urls : Urls := {|
  url_normal := fun u => u;
  utf8 := fun b => Some (String.string_of_list_byte b);
  sha256 := sha
|}.
#[export] Existing Instance urls | 100.

#[export] Instance url_laws : UrlLaws.
Proof. split; intros; simpl; [done|done|by rewrite String.string_of_list_byte_of_string]. Qed.

Definition rmp : RmpSerde := {|
  to_vec_named := fun env => Some (stdin env);
  from_read := fun b => Some (mkGuestEnv b)
|}.
#[export] Existing Instance rmp | 100.

#[export] Instance rmp_laws : RmpLaws.
Proof. split. by intros [b] ? [= <-]. Qed.

#[export] Existing Instance ToyNode.abi | 100.

Definition oracle_env : OracleEnv Z := {|
  oracle_clock := fun w => (w, w);
  sleep_secs := fun _ w => (tt, w);
  log_error := fun _ w => (tt, w)
|}.
#[export] Existing Instance oracle_env | 100.

Definition env : BuilderEnv Z := {|
  system_time := fun w => (w mod 2 ^ 62, w);
  ignore_preflight := fun w => (false, w);
  warn := fun _ w => (tt, w)
|}.
#[export] Existing Instance env | 100.

Definition no_blake3 : Blake3Feature := {|
  blake3_groth16 := false;
  blake3_claim_digest := fun _ _ => []
|}.
#[export] Existing Instance no_blake3 | 100.

Definition world : Type := OracleWorld Z.

(** The node of the market service, and a transaction that is never sent. *)
Definition node : MarketNode world := {|
  node_now_ms := oenv (node_now_ms (MarketNode := ToyNode.node));
  node_sleep := fun ms => oenv (node_sleep (MarketNode := ToyNode.node) ms);
  node_chain_id := fun w => (inr 8453, w);
  requestIsLocked := fun _ w => (inr false, w);
  requestIsFulfilled := fun _ w => (inr false, w);
  requestIsSlashed := fun _ w => (inr false, w);
  requestDeadline := fun _ w => (inr 0, w);
  balanceOf := fun _ w => (inr 3, w);
  balanceOfCollateral := fun _ w => (inr 0, w);
  collateral_token := fun w => (inr 9, w);
  token_decimals := fun _ w => (inr 18, w);
  node_block_number := fun w => (inr 100, w);
  node_latest_timestamp := fun w => (inr (Some 1), w);
  node_nonce := fun _ w => (inr 4, w);
  random_u32 := fun w => (6, w);
  permit_nonces := fun _ _ w => (inr 0, w);
  DOMAIN_SEPARATOR := fun _ w => (inr [], w);
  send_call := fun _ w => (inl "not sent"%string, w);
  wait_receipt := fun _ w => (Confirmed ToyNode.receipt, w);
  watch := fun _ w => (inr 7, w);
  get_transaction_by_hash := fun _ w => (inr None, w);
  get_transaction_receipt := fun _ w => (inr None, w);
  query_submitted := fun _ _ _ w => (inr [], w);
  query_locked := fun _ _ _ w => (inr [], w);
  query_fulfilled := fun _ _ _ w => (inr [], w);
  query_delivered := fun _ _ _ w => (inr [], w);
  query_slashed := fun _ _ _ w => (inr [], w)
|}.
#[export] Existing Instance node | 100.

Definition fees : FeeNode world := {|
  get_fee_history := fun _ _ w => (Ok (mkFeeHistory (Some 1000) (Some [[5]; [7]; [9]])), w);
  latest_base_fee := fun w => (Ok (Some 1000), w);
  get_max_priority_fee_per_gas := fun w => (Ok 3, w);
  node_gas_price := fun w => (Ok 1000, w);
  gas_filler_prepare := fun _ w => (Err tt, w);
  confirmed_nonce := fun w => (Ok 4, w);
  pending_nonce := fun w => (Ok 6, w);
  scale_by_pct := fun _ e => e
|}.
#[export] Existing Instance fees | 100.

Definition wallets : RequestorNode world := {|
  get_code_at := fun _ w => (None, w);
  signature_gas := fun _ _ _ w => (None, w);
  hex_digest := fun _ => Some (sha [Byte.x05])
|}.
#[export] Existing Instance wallets | 100.

Definition store : StorageUploader world :=
  mkUploader (fun data _ w => (Ok ("u" +:+ String.string_of_list_byte data), w)).

Definition fetch : StorageDownloader world :=
  let get url := String.list_byte_of_string (String.substring 1 (String.length url) url) in
  mkDownloader (fun url _ w => (Ok (get url), w)) (fun url w => (Ok (get url), w)).

Definition cycles : Z := 50000000.

Definition zkvm : ZkvmOps world :=
  mkZkvm (mkExecutor (fun _ _ input w => (Ok (cycles, input), w)) (fun _ _ _ _ w => (tt, w)))
    (fun _ _ w =>
       (Ok (EvalSuccess "e" (mkMetrics cycles cycles) "p" "i" [Byte.x02; Byte.x07]), w))
    (fun program => inr (sha program)).

Definition builder (skip : option bool) : @StandardRequestBuilder Z := {|
  storage_layer := WithUploader (mkStorageLayer (Some store) (Some 2));
  preflight_downloader := Some fetch;
  boundless_market := ToyNode.settings;
  request_id_mode := IdRand;
  offer_layer := mkOfferLayer (OfferLayerConfig.new false) None None;
  finalizer := mkFinalizer true None;
  skip_preflight := skip;
  zkvm_ops := Some zkvm;
  dev_mode := false
|}.

(** A program and its input, and nothing else. *)
Definition params : RequestParams.t :=
  RequestParams.from_pair [Byte.x05] (mkGuestEnv [Byte.x02; Byte.x07]).

Definition start : MsState world := mkMs (mkOracleWorld None None 1000) 0 [].

Definition run (skip : option bool) : result BuildError ProofRequest * MsState world :=
  build_request (builder skip) params start.

End ToyBuilder.
