(* ===== verification/OfferFacts.v ===== *)
(** * What an offer is made of

    Theorems about the offer layer: every field of an offer is the requestor's where the
    requestor gave it, and otherwise what the configuration, the market and the cost of
    gas say; the offer that the defaults make is valid for every number of cycles; the
    gas that is provided for covers what provers expect to spend. *)

From S2P Require Import Prelude Gas Market Auction Selector Oracle OrderPricing MarketService BuilderParams OfferLayer RequestorPricing RequestBuilder.

Local Open Scope Z_scope.

Import OfferLayerConfig (parameterization_mode, min_price_per_cycle, max_price_per_cycle,
  bidding_start_delay, market_price_buffer_multiplier_percentage).

Section OfferSpecs.
Context {X : Type} `{OracleEnv X} `{BuilderEnv X} `{AlloyGas}.
Context `{MarketNode (OracleWorld X)} `{FeeNode (OracleWorld X)}.
Variable layer : @OfferLayer X.

(** The value in ether, or in collateral tokens, of an amount that may not be given, as
    its conversion answers in the state [w]. *)
Definition in_eth (a : option Amount) (w : OracleWorld X) (v : option Z) (w' : OracleWorld X) : Prop :=
  match a with
  | Some a => exists n, convert_amount_to_eth a (price_oracle_manager layer) w = (Ok n, w')
                        /\ v = Some n
  | None => v = None /\ w' = w
  end.
Definition in_zkc (a : option Amount) (w : OracleWorld X) (v : option Z) (w' : OracleWorld X) : Prop :=
  match a with
  | Some a => exists n, convert_amount_to_zkc a (price_oracle_manager layer) w = (Ok n, w')
                        /\ v = Some n
  | None => v = None /\ w' = w
  end.

Lemma convert_price_to_eth_Ok a w v w' :
  convert_price_to_eth layer a w = (Ok v, w') -> in_eth a w v w'.
Proof.
  destruct a as [a|]; [|by intros [= <- <-]].
  intros Hr. unfold convert_price_to_eth in Hr. bind_step Hr x w1 E.
  injection Hr as <- <-. by exists x.
Qed.

Lemma convert_collateral_to_zkc_Ok a w v w' :
  convert_collateral_to_zkc layer a w = (Ok v, w') -> in_zkc a w v w'.
Proof.
  destruct a as [a|]; [|by intros [= <- <-]].
  intros Hr. unfold convert_collateral_to_zkc in Hr. bind_step Hr x w1 E.
  injection Hr as <- <-. by exists x.
Qed.

Definition gas_price_answer (gp : Z) : Prop :=
  exists w w', estimate_max_fee_per_gas (W := OracleWorld X) requestor_priority w = (Ok gp, w').

(** *** Prices *)

(** The maximum price before gas of [c] cycles: the configured price per cycle; without
    one, the market's with its buffer; and without either, the default. *)
Definition base_price (c : Z) (configured : option Z) (market : option PricePercentiles) : Z :=
  match configured, market with
  | Some per_cycle, _ => wmul 256 per_cycle c
  | None, Some pr =>
      buffered_market_max (Z.min (p99 pr) (wmul 256 (p50 pr) 2)) c
        (market_price_buffer_multiplier_percentage (config layer))
  | None, None => wmul 256 default_max_price_per_cycle (Z.max c 1)
  end.

(** The prices of the market: asked for in the state [w] when there is a provider, the
    number of cycles is known, and [needed]; none when it answers an error. *)
Definition market_at (needed : Prop) (cycles : option Z) (w : OracleWorld X)
    (market : option PricePercentiles) (w' : OracleWorld X) : Prop :=
  (exists provider, needed /\ is_Some cycles /\ price_provider layer = Some provider
     /\ match market with
        | Some pr => provider w = (Ok pr, w')
        | None => exists e, provider w = (Err e, w')
        end)
  \/ ~ (needed /\ is_Some cycles /\ is_Some (price_provider layer)) /\ market = None /\ w' = w.

Lemma market_at_iff P Q c w mk w' : (P <-> Q) -> market_at P c w mk w' -> market_at Q c w mk w'.
Proof.
  intros HPQ [(provider & HP & Hr)|[HP Hr]]; [left|right].
  - exists provider. split; [by apply HPQ|done].
  - split; [by rewrite <- HPQ|done].
Qed.

Lemma market_prices_Ok (needed : bool) c w mn mx w' :
  market_prices layer needed c w = (Ok (mn, mx), w') ->
  exists market, market_at (needed = true) c w market w'
    /\ match market with
       | None => mn = None /\ mx = None
       | Some pr => exists c', c = Some c' /\ mn = Some 0
           /\ mx = Some (buffered_market_max (Z.min (p99 pr) (wmul 256 (p50 pr) 2)) c'
                  (market_price_buffer_multiplier_percentage (config layer)))
       end.
Proof.
  unfold market_prices, market_at. intros Hr.
  destruct needed;
    [|injection Hr as <- <- <-; exists None; split; [right; split; [naive_solver|done]|done]].
  destruct (price_provider layer) as [provider|] eqn:Ep;
    [|injection Hr as <- <- <-; exists None; split; [right; split; [|done]|done];
      by intros (_ & _ & [? [=]])].
  destruct c as [c|]; [|injection Hr as <- <- <-; exists None; split; [right; split; [|done]|done];
      by intros (_ & [? [=]] & _)].
  bind_step Hr r w1 E. unfold catch in E.
  destruct (provider w) as [[pr|e|] w2] eqn:Ew; try done; injection E as <- <-;
    injection Hr as <- <- <-.
  - exists (Some pr). split; [left; exists provider; by split_and!|]. by exists c.
  - exists None. split; [left; exists provider; split_and!; [done..|by exists e]|done].
Qed.

Lemma resolved_min_price p_min c_min cycles mn :
  mn = None \/ mn = Some 0 ->
  resolve_min_price p_min c_min cycles mn
    = default 0 (or_else p_min (c ← cycles; (fun p => wmul 256 p c) <$> c_min)).
Proof.
  intros Hmn. unfold resolve_min_price, DEFAULT_MIN_PRICE.
  destruct p_min; [done|]. simpl. destruct (mbind _ _); simpl; [done|].
  by destruct Hmn as [-> | ->].
Qed.

(** Gas: twice the cost at the price that the node was asked for. *)
Lemma max_price_with_gas_Ok rq rid base jb w m w' :
  max_price_with_gas layer rq rid base jb w = (Ok m, w') ->
  exists gp units, estimate_max_fee_per_gas (W := OracleWorld X) requestor_priority w = (Ok gp, w')
    /\ estimate_gas_usage_upper_bound (config layer) rq rid jb = Ok units
    /\ m = wadd 256 base (wmul 256 2 (wmul 128 gp units)).
Proof.
  unfold max_price_with_gas. intros Hr. bind_step Hr gp w1 Eg. bind_step Hr cost w2 Ec.
  injection Hr as <- <-. apply liftr_Ok in Ec as [Ec ->].
  apply result_bind_Ok in Ec as (units & Eu & [= <-]).
  unfold with_err in Eg. destruct (estimate_max_fee_per_gas _ _) as [r w3] eqn:Ew.
  destruct r; try done. injection Eg as -> ->. by exists gp, units.
Qed.

(** *** Times *)

Lemma recommended_start_Ok m c w n w' :
  ParameterizationMode.recommended_ramp_up_start (E := BuildError) builder_now m c w = (Ok n, w') ->
  exists now d, fst (builder_now w) = now /\ n = wadd 64 now d
    /\ Z.min (ParameterizationMode.base_ramp_up_delay m) ParameterizationMode.MAX_RAMP_UP_DELAY
       <= d <= Z.max (ParameterizationMode.base_ramp_up_delay m) ParameterizationMode.MAX_RAMP_UP_DELAY.
Proof.
  unfold ParameterizationMode.recommended_ramp_up_start. intros Hr.
  bind_step Hr r w1 E. bind_step Hr n2 w2 E2. injection Hr as Hn <-.
  apply lift_Ok in E2. destruct (ParameterizationMode.positive c) as [count|] eqn:Ec.
  - bind_step E n1 w3 E1. bind_step E time w4 E3. injection E as <- <-.
    apply lift_Ok in E1. simpl in Hn. subst n.
    eexists n1, _. split_and!; [by rewrite E1|done|lia..].
  - injection E as <- <-. simpl in Hn. subst n.
    eexists n2, _. split_and!; [by rewrite E2|done|lia..].
Qed.

(** The recommendation of the mode, if there is one. *)
Definition recommended {A} (f : ParameterizationMode.t -> A) : option A :=
  f <$> parameterization_mode (config layer).

Definition default_period (c : option Z) : Z :=
  default DEFAULT_RAMP_UP_PERIOD (or_else (OfferLayerConfig.ramp_up_period (config layer))
    (recommended (fun m => ParameterizationMode.recommended_ramp_up_period m c))).
Definition default_lock_timeout (c : option Z) : Z :=
  default 660 (or_else (OfferLayerConfig.lock_timeout (config layer))
    (recommended (fun m => ParameterizationMode.recommended_timeout m c))).
Definition default_timeout (c : option Z) : Z :=
  default (wmul 32 (default_lock_timeout c) 2) (OfferLayerConfig.timeout (config layer)).

(** The start, when the times are set in the state [w]: a delay after the time that the
    clock shows then, or, where the mode's recommendation is overruled by a configured
    delay, after it was made. *)
Definition default_start (cycles : option Z) (w : OracleWorld X) (start : Z) : Prop :=
  match bidding_start_delay (config layer), parameterization_mode (config layer) with
  | Some delay, None => start = wadd 64 (fst (builder_now w)) delay
  | Some delay, Some m => exists n w1,
      ParameterizationMode.recommended_ramp_up_start (E := BuildError) builder_now m cycles w
        = (Ok n, w1)
      /\ start = wadd 64 (fst (builder_now w1)) delay
  | None, Some m => exists d, start = wadd 64 (fst (builder_now w)) d
      /\ Z.min (ParameterizationMode.base_ramp_up_delay m) ParameterizationMode.MAX_RAMP_UP_DELAY
         <= d
         <= Z.max (ParameterizationMode.base_ramp_up_delay m) ParameterizationMode.MAX_RAMP_UP_DELAY
  | None, None => start = wadd 64 (fst (builder_now w)) 15
  end.

Lemma offer_times_Ok c w start period lock timeout w' :
  offer_times layer c w = (Ok (start, period, lock, timeout), w') ->
  default_start c w start /\ period = default_period c /\ lock = default_lock_timeout c
  /\ timeout = default_timeout c.
Proof.
  unfold offer_times. intros Hr. bind_step Hr r1 w1 E1. bind_step Hr n1 w2 E2.
  injection Hr as <- <- <- <- <-. split; [|done].
  unfold default_start. destruct (parameterization_mode (config layer)) as [m|].
  - bind_step E1 n w3 E3. injection E1 as <- <-.
    destruct (bidding_start_delay (config layer)) as [d|].
    + bind_step E2 n' w4 E4. injection E2 as <- <-. apply lift_Ok in E4.
      exists n, w3. by rewrite E4.
    + injection E2 as <- <-. apply recommended_start_Ok in E3 as (now & d & <- & ? & ?). by exists d.
  - injection E1 as <- <-. destruct (bidding_start_delay (config layer)) as [d|];
      bind_step E2 n w3 E3; injection E2 as <- <-; apply lift_Ok in E3; by rewrite E3.
Qed.

(** *** The offer *)

(** What the layer reads while it makes an offer. *)
Record OfferReads := mkReads {
  c_min : option Z; c_max : option Z; c_coll : option Z;
  p_min : option Z; p_max : option Z; p_coll : option Z;
  market : option PricePercentiles;
  gas_price : Z;
  start : Z;
  chain : Z
}.

(** The readings, one after the other from the state [w]: the configured amounts and
    those of the parameters, the market's prices if a price is given by neither, the gas
    price if the maximum price is not given, the clock and the chain. *)
Definition reads_made (cycles : option Z) (params : OfferParams.t) (w : OracleWorld X)
    (r : OfferReads) : Prop :=
  exists w1 w2 w3 w4 w5 w6 w7 w8 tm w9 w10,
    in_eth (min_price_per_cycle (config layer)) w (c_min r) w1
    /\ in_eth (max_price_per_cycle (config layer)) w1 (c_max r) w2
    /\ in_zkc (OfferLayerConfig.lock_collateral (config layer)) w2 (c_coll r) w3
    /\ in_eth (OfferParams.min_price params) w3 (p_min r) w4
    /\ in_eth (OfferParams.max_price params) w4 (p_max r) w5
    /\ in_zkc (OfferParams.lock_collateral params) w5 (p_coll r) w6
    /\ market_at ((p_min r = None /\ c_min r = None) \/ (p_max r = None /\ c_max r = None))
         cycles w6 (market r) w7
    /\ match p_max r with
       | None => estimate_max_fee_per_gas (W := OracleWorld X) requestor_priority w7
                 = (Ok (gas_price r), w8)
       | Some _ => w8 = w7
       end
    /\ default_start cycles w8 (start r) /\ offer_times layer cycles w8 = (Ok tm, w9)
    /\ node_chain_id (W := OracleWorld X) w9 = (inr (chain r), w10).

Record offer_made (rq : Requirements) (rid : RequestId.t) (cycles journal_bytes : option Z)
    (params : OfferParams.t) (w : OracleWorld X) (o : Offer) (r : OfferReads) : Prop :=
    mk_offer_made {
  made_reads : reads_made cycles params w r;
  made_min : minPrice o
    = default 0 (or_else (p_min r) (c ← cycles; (fun p => wmul 256 p c) <$> c_min r));
  made_max : match p_max r with
    | Some m => maxPrice o = m
    | None => exists c units, cycles = Some c
        /\ estimate_gas_usage_upper_bound (config layer) rq rid journal_bytes = Ok units
        /\ maxPrice o = wadd 256 (base_price c (c_max r) (market r))
                          (wmul 256 2 (wmul 128 (gas_price r) units))
    end;
  made_collateral :
    lockCollateral o = default (cr_default (default_lock_collateral (chain r)))
                         (or_else (p_coll r) (c_coll r));
  made_start : rampUpStart o = default (start r) (OfferParams.bidding_start params);
  made_period : rampUpPeriod o = default (default_period cycles) (OfferParams.ramp_up_period params);
  made_lock : lockTimeout o = default (default_lock_timeout cycles) (OfferParams.lock_timeout params);
  made_timeout : Market.timeout o = default (default_timeout cycles) (OfferParams.timeout params)
}.

(** Every run of the layer that makes an offer. *)
Lemma offer_process_made rq rid cycles jb params w o w' :
  offer_process layer rq rid cycles jb params w = (Ok o, w') ->
  exists r, offer_made rq rid cycles jb params w o r.
Proof.
  unfold offer_process. intros Hr.
  bind_step Hr cmin w1 E1. bind_step Hr cmax w2 E2. bind_step Hr ccoll w3 E3.
  bind_step Hr pmin w4 E4. bind_step Hr pmax w5 E5. bind_step Hr pcoll w6 E6.
  apply convert_price_to_eth_Ok in E1, E2, E4, E5.
  apply convert_collateral_to_zkc_Ok in E3, E6.
  bind_step Hr mm w7 E7. destruct mm as [mn mx].
  apply market_prices_Ok in E7 as (mk & Hmk & Hmm).
  assert (market_at ((pmin = None /\ cmin = None) \/ (pmax = None /\ cmax = None)) cycles w6 mk w7)
    as Hmk'.
  { eapply market_at_iff; [|exact Hmk].
    by rewrite orb_true_iff, !andb_true_iff, !bool_decide_eq_true. }
  bind_step Hr cfg_max wx E8. bind_step Hr mxp w8 E9.
  bind_step Hr tm wa Ea. destruct tm as [[[st0 period] lock] timeout]. pose proof Ea as Etm.
  apply offer_times_Ok in Ea as (Hs & -> & -> & ->).
  bind_step Hr r wb Eb. bind_step Hr ch wc Ec. bind_step Hr u wd Ed.
  injection Hr as <- <-. apply lift_Ok in Eb. apply liftr_Ok in Ec as [Ec ->].
  destruct r as [e|r]; [done|]. injection Ec as ->.
  assert (Hg : exists gp, wx = w7 /\ match pmax with
    | None => estimate_max_fee_per_gas (W := OracleWorld X) requestor_priority w7 = (Ok gp, w8)
              /\ exists c units, cycles = Some c
              /\ estimate_gas_usage_upper_bound (config layer) rq rid jb = Ok units
              /\ mxp = wadd 256 (base_price c cmax mk) (wmul 256 2 (wmul 128 gp units))
    | Some m => w8 = w7 /\ mxp = m end).
  { destruct pmax as [m|].
    - injection E8 as <- <-. injection E9 as <- <-. by exists 0.
    - bind_step E8 c wy Ex. injection E8 as <- <-. apply liftr_Ok in Ex as [Ex ->].
      destruct cycles as [c'|]; [|done]. injection Ex as ->.
      apply max_price_with_gas_Ok in E9 as (gp & units & ? & ? & ->).
      exists gp. split_and!; [done..|]. exists c, units. split_and!; [done..|]. f_equal.
      destruct cmax as [pc|]; [done|]. simpl. destruct mk as [pr|]; [|by destruct Hmm as [_ ->]].
      by destruct Hmm as (c1 & [= <-] & _ & ->). }
  destruct Hg as (gp & -> & Hg).
  exists (mkReads cmin cmax ccoll pmin pmax pcoll mk gp st0 ch). constructor; simpl; try done.
  - exists w1, w2, w3, w4, w5, w6, w7, w8, (st0, default_period cycles, default_lock_timeout cycles,
      default_timeout cycles), wa, wb. split_and!; simpl; try done. destruct pmax; apply Hg.
  - apply resolved_min_price. destruct mk as [pr|]; [right|by left; apply Hmm].
    by destruct Hmm as (c1 & _ & ? & _).
  - destruct pmax as [m|]; [apply Hg|]. apply Hg.
  - by destruct pcoll, ccoll.
Qed.

(** *** Through the parameters *)

Lemma from_offer_into_offer o oracle w :
  into_offer (X := X) (OfferParams.from_offer o) oracle w = (Ok o, w).
Proof. by destruct o. Qed.

(** C25. The offer layer leaves every other parameter as it is and fills all those of
    the offer, in ether and collateral tokens, so that they give the offer that the
    layer made without an oracle and in one way only.  In it, what the requestor gave
    stands.  The rest follows what the layer read, each reading made in its turn of this
    very run: the configuration; where it is silent about the maximum price, the market's
    prices, if the provider answers; and the defaults only where neither has said
    anything.  A maximum price that was not given is the price of the cycles and, on top
    of it, twice the cost of gas. *)
Theorem offer_follows_params (p p' : RequestParams.t) w w' :
  offer_process_with layer p w = (Ok p', w') ->
  exists rq rid o r,
    RequestParams.request_id p = Some rid
    /\ RequirementParams.into_requirements (RequestParams.requirements p) = Ok rq
    /\ p' = RequestParams.with_offer (OfferParams.from_offer o) p
    /\ (forall (oracle : option (PriceOracleManager X)) w1,
          into_offer (RequestParams.offer p') oracle w1 = (Ok o, w1))
    /\ offer_made rq rid (RequestParams.cycles p)
         ((fun j => Z.of_nat (length j)) <$> RequestParams.journal p) (RequestParams.offer p) w o r.
Proof.
  unfold offer_process_with. intros Hr. bind_step Hr rq w1 E1. bind_step Hr rid w2 E2.
  bind_step Hr o w3 E3. injection Hr as <- <-.
  apply liftr_Ok in E1 as [E1 ->], E2 as [E2 ->]. apply offer_process_made in E3 as [r E3].
  exists rq, rid, o, r. split_and!; [| |done| |done].
  - unfold RequestParams.require_request_id in E2.
    destruct (RequestParams.request_id p); [by injection E2 as ->|done].
  - unfold map_err in E1. destruct (RequirementParams.into_requirements _); naive_solver.
  - intros oracle w4. apply from_offer_into_offer.
Qed.

(** *** The defaults *)

(** A node that answers, with a gas price below [2^60] wei, and a clock before the year
    [2^63]; a market whose prices are numbers of wei. *)
Class NodeAnswers := {
  na_gas w : exists gp w', 0 < gp < 2 ^ 60
    /\ estimate_max_fee_per_gas (W := OracleWorld X) requestor_priority w = (Ok gp, w');
  na_chain w : exists c w', node_chain_id (W := OracleWorld X) w = (inr c, w');
  na_clock w : 0 <= fst (builder_now (X := X) w) < 2 ^ 63;
  na_market provider w : price_provider layer = Some provider ->
    fst (provider w) <> Panic /\
    forall pr, fst (provider w) = Ok pr -> 0 <= p50 pr /\ 0 <= p99 pr
}.

Context {Hanswers : NodeAnswers}.
Variables (dev : bool) (Hconfig : config layer = OfferLayerConfig.new dev).

Lemma default_times_return c w : returns (offer_times layer c) w.
Proof using Hconfig.
  unfold offer_times. rewrite Hconfig. simpl.
  apply returns_bind; [|intros r w1 _; apply returns_bind; [|intros; apply returns_ret]].
  - apply returns_bind; [|intros; apply returns_ret].
    unfold ParameterizationMode.recommended_ramp_up_start.
    apply returns_bind; [|intros r w1 _; apply returns_bind; [apply returns_lift|intros; apply returns_ret]].
    destruct (ParameterizationMode.positive c) as [n|] eqn:Ec; [|apply returns_ret].
    apply returns_bind; [apply returns_lift|]. intros n1 w1 _.
    apply returns_bind; [|intros; apply returns_ret].
    unfold ParameterizationMode.executor_time. destruct (ParameterizationMode.positive (Some n));
      [|apply returns_ret].
    rewrite checked_div_ceil_pos by done. apply returns_ret.
  - destruct r; [apply returns_ret|]. apply returns_bind; [apply returns_lift|].
    intros. apply returns_ret.
Qed.

Lemma market_prices_return needed c w : returns (market_prices layer needed c) w.
Proof using Hanswers.
  unfold market_prices. destruct needed; [|apply returns_ret].
  destruct (price_provider layer) as [provider|] eqn:Ep; [|apply returns_ret].
  destruct c; [|apply returns_ret]. apply returns_bind.
  - destruct (na_market provider w Ep) as [Hp _]. unfold returns, catch.
    destruct (provider w) as [[pr|e|] w1]; naive_solver.
  - intros [e|pr] w1 _; apply returns_ret.
Qed.

Lemma default_offer_returns rq rid c jb units w :
  estimate_gas_usage_upper_bound (config layer) rq rid jb = Ok units ->
  returns (offer_process layer rq rid (Some c) jb OfferParams.empty) w.
Proof.
  intros Hu. unfold offer_process. rewrite Hconfig in Hu |- *. simpl.
  do 6 (apply returns_bind; [apply returns_ret|intros ? ? [= <- <-]]).
  apply returns_bind; [apply market_prices_return|]. intros [mn mx] w1 _.
  apply returns_bind; [apply returns_ret|intros ? ? [= <- <-]].
  apply returns_bind.
  { destruct (na_gas w1) as (gp & w2 & _ & Eg). unfold max_price_with_gas.
    apply returns_bind; [eexists _, _; unfold with_err; by rewrite Eg|].
    intros gp' w3 _. rewrite Hconfig. unfold estimate_gas_cost_upper_bound. rewrite Hu.
    by eexists _, _. }
  intros mp w2 _. apply returns_bind; [apply default_times_return|].
  intros [[[a b] d] e] w3 _. apply returns_bind; [apply returns_lift|].
  intros r w4 Hr. apply lift_Ok in Hr. destruct (na_chain w3) as (ch & w5 & Ech).
  rewrite Hr in Ech. injection Ech as -> ->.
  apply returns_bind; [apply returns_ret|]. intros ? ? [= <- <-].
  apply returns_bind; [apply returns_lift|]. intros. apply returns_ret.
Qed.

(** The gas of a request whose callback and journal are not absurd. *)
Lemma default_units rq rid jb units :
  estimate_gas_usage_upper_bound (config layer) rq rid jb = Ok units ->
  0 <= gasLimit (callback rq) < 2 ^ 62 -> 0 <= default 0 jb < 2 ^ 40 ->
  650000 <= units < 2 ^ 63.
Proof using Hconfig.
  rewrite Hconfig. unfold estimate_gas_usage_upper_bound, MAX_JOURNAL_BYTES. simpl.
  intros Hu Hg Hj. apply result_bind_Ok in Hu as (g & Eg & Hu).
  apply result_bind_Ok in Hu as (ty & _ & [= <-]).
  assert (Hd : 0 <= default 10000 jb < 2 ^ 40) by (destruct jb; simpl in *; lia).
  assert (Hs : forall a b, 0 <= a -> 0 <= b -> a + b < 2 ^ 64 -> wadd 64 a b = a + b)
    by (intros; apply wadd_small; fits_lia).
  change (wadd 64 200000 450000) with 650000 in Eg.
  rewrite (wmul_small 64 (default 10000 jb) 26) in Eg by fits_lia.
  set (g1 := if bool_decide _ then _ else _) in Eg.
  assert (650000 <= g1 < 2 ^ 46) by (subst g1; case_bool_decide; rewrite ?Hs by lia; lia).
  set (g2 := if RequestId.smart_contract_signed rid then _ else _) in Eg.
  assert (650000 <= g2 < 2 ^ 47)
    by (subst g2; destruct (RequestId.smart_contract_signed rid); rewrite ?Hs by lia; lia).
  assert (Hgs : 650000 <= g < 2 ^ 63 - 250000).
  { unfold callback_as_option in Eg. destruct (callback_is_none _); simpl in Eg;
      [injection Eg as <-; lia|].
    destruct (_ <? _); [|done]. injection Eg as <-. rewrite Hs by lia. lia. }
  destruct ty; try lia. rewrite wadd_small by fits_lia. lia.
Qed.

(** The recommended times of any number of cycles. *)
Lemma default_times c :
  0 <= default_period (Some c) <= default_lock_timeout (Some c)
  /\ default_period (Some c) <= 7200
  /\ 1800 <= default_lock_timeout (Some c) <= 14400
  /\ default_timeout (Some c) = 2 * default_lock_timeout (Some c).
Proof using Hconfig.
  assert (Hlock : 0 <= default_period (Some c) <= default_lock_timeout (Some c)
    /\ default_period (Some c) <= 7200
    /\ 1800 <= default_lock_timeout (Some c) <= 14400).
  { unfold default_period, default_lock_timeout, recommended. rewrite Hconfig. simpl.
    unfold ParameterizationMode.recommended_ramp_up_period,
      ParameterizationMode.recommended_timeout.
    destruct (ParameterizationMode.positive (Some c)) as [n|]; [|cbv; naive_solver lia].
    simpl. unfold ParameterizationMode.scaled_seconds.
    pose proof (wrap_fits 32 (div_ceil n 1000000) ltac:(lia)) as Hm.
    set (m := wrap 32 _) in *. clearbody m. unfold fits, sat_add, sat_mul, umax in *.
    unfold ParameterizationMode.MAX_RAMP_UP_PERIOD, ParameterizationMode.MAX_TIMEOUT,
      ParameterizationMode.DEFAULT_RAMP_UP_SECONDS_PER_MCYCLE,
      ParameterizationMode.DEFAULT_TIMEOUT_SECONDS_PER_MCYCLE,
      ParameterizationMode.DEFAULT_BASE_RAMP_UP_PERIOD, ParameterizationMode.DEFAULT_BASE_TIMEOUT.
    lia. }
  destruct Hlock as (? & ? & ?). split_and!; try lia.
  unfold default_timeout. rewrite Hconfig. simpl. rewrite wmul_small by fits_lia. lia.
Qed.

(** The price of the cycles: at least nothing, and far enough from [2^256]. *)
Lemma default_base c needed cycles w mk w' :
  fits 64 c -> market_at needed cycles w mk w' -> 0 <= base_price c None mk <= 2 ^ 250.
Proof using Hanswers Hconfig.
  intros Hc Hmk. unfold base_price. destruct mk as [pr|].
  - destruct Hmk as [(provider & _ & _ & Ep & Er)|(_ & [=] & _)].
    destruct (na_market provider w Ep) as [_ Hpr]. rewrite Er in Hpr.
    destruct (Hpr pr eq_refl) as [H50 H99].
    rewrite Hconfig. unfold buffered_market_max. simpl.
    pose proof (wrap_fits 256 (p50 pr * 2) ltac:(lia)) as Hw.
    fold (wmul 256 (p50 pr) 2) in Hw.
    set (p := Z.min _ _) in *. assert (0 <= p) by (subst p; unfold fits in Hw; lia).
    pose proof (sat_mul_bound 256 p c ltac:(lia) ltac:(lia) ltac:(unfold fits in Hc; lia)) as Hs.
    pose proof (sat_mul_bound 256 (sat_mul 256 p c) 115 ltac:(lia) ltac:(lia) ltac:(lia)) as Hs'.
    split; [apply Z.div_pos; lia|]. apply Z.div_le_upper_bound; lia.
  - unfold default_max_price_per_cycle. change (wmul 256 100 (10 ^ 3)) with 100000.
    unfold fits in Hc. rewrite wmul_small by (unfold fits; lia). lia.
Qed.

(** C17. Defaults suffice.  With the default configuration and an offer of which nothing
    is given, a request whose requirements are supported gets an offer whatever its
    number of cycles is, and the offer is one that validation accepts: the ramp ends
    before the lock expires, the lock expires between half an hour and four hours after
    the start and the request in twice that time, no arithmetic of the offer wraps, and
    the maximum price pays twice for the gas at the price that the node answered.  The
    conditions: the node always answers, with a gas price between 0 and [2^60] wei, the
    clock shows less than [2^63], and market prices are not negative ([NodeAnswers]); the
    journal is shorter than [2^40] bytes and the gas limit of the callback below [2^62],
    which keep the gas from wrapping. *)
Theorem default_offer_valid rq rid c jb units w :
  fits 64 c -> 0 <= default 0 jb < 2 ^ 40 -> 0 <= gasLimit (callback rq) < 2 ^ 62 ->
  estimate_gas_usage_upper_bound (config layer) rq rid jb = Ok units ->
  exists o w' gp, offer_process layer rq rid (Some c) jb OfferParams.empty w = (Ok o, w')
    /\ offer_wf o /\ offer_valid o
    /\ rampUpPeriod o <= 7200 /\ 1800 <= lockTimeout o <= 14400
    /\ Market.timeout o = 2 * lockTimeout o
    /\ gas_price_answer gp /\ minPrice o + 2 * (gp * units) <= maxPrice o.
Proof.
  intros Hc Hj Hg Hu.
  destruct (default_offer_returns rq rid c jb units w Hu) as (o & w' & Er).
  pose proof (default_units _ _ _ _ Hu Hg Hj) as Hunits.
  destruct (default_times c) as (Hp & Hp' & Hl & Ht).
  destruct (offer_process_made _ _ _ _ _ _ _ _ Er) as [r [Hrd Hmin Hmax Hcoll Hst HP HL HT]].
  destruct Hrd as (w1 & w2 & w3 & w4 & w5 & w6 & w7 & w8 & tm & w9 & w10 & R1 & R2 & R3 & R4 & R5
    & R6 & Hmk & Hgp & Hstart & _ & _).
  rewrite Hconfig in R1, R2, R3. destruct R1 as [R1 _], R2 as [R2 _], R3 as [R3 _], R4 as [R4 _],
    R5 as [R5 _], R6 as [R6 _].
  rewrite R4, R1 in Hmin. rewrite R5 in Hmax, Hgp. rewrite R6, R3 in Hcoll. simpl in Hmin, Hcoll.
  destruct Hmax as (c' & units' & [= <-] & Hu' & Hmax).
  rewrite Hu in Hu'. injection Hu' as <-. rewrite R2 in Hmax.
  pose proof (default_base _ _ _ _ _ _ Hc Hmk) as Hbase. set (base := base_price c None _) in *.
  clearbody base. unfold default_start in Hstart. rewrite Hconfig in Hstart. simpl in Hstart.
  destruct Hstart as (d & Hsd & Hd). rewrite Hsd in Hst. clear Hsd.
  pose proof (na_clock w8) as Hcl. set (now := fst (builder_now w8)) in *. clearbody now.
  simpl in Hst, HP, HL, HT.
  unfold ParameterizationMode.DEFAULT_BASE_RAMP_UP_DELAY,
    ParameterizationMode.MAX_RAMP_UP_DELAY in Hd.
  rewrite (wadd_small 64 now d) in Hst by fits_lia.
  destruct (na_gas w7) as (gp & wg & Hgb & Hgp').
  rewrite Hgp in Hgp'. injection Hgp' as Hge Hwe. rewrite Hge in Hmax, Hgp.
  assert (Hgu : 0 < gp * units < 2 ^ 123) by nia.
  rewrite (wmul_small 128), (wmul_small 256), wadd_small in Hmax by (unfold fits; lia).
  exists o, w', gp. split; [done|].
  assert (fits 256 (lockCollateral o)).
  { rewrite Hcoll. unfold default_lock_collateral. by destruct (chain r =? 8453); vm_compute. }
  split_and!; try lia; [constructor; try done; unfold fits; lia
    |constructor; lia|by exists w7, w8].
Qed.

End OfferSpecs.

(** ** The gas that is provided for *)

(** Rewrite an innermost sum. *)
Ltac wadd_inner Hs :=
  match goal with
  | |- context [wadd 64 ?a ?b] =>
      lazymatch a with
      | context [wadd] => fail
      | _ => lazymatch b with context [wadd] => fail | _ => rewrite (Hs a b) by lia end
      end
  end.

(** C31. With the default figures, the gas that a maximum price provides for covers what
    provers are configured to expect, whatever the predicate, the journal and the
    signature are: the lock, the check of the client's contract, the fulfillment with its
    calldata and the verification of the proof.  This is of requests without a callback
    and of every proof type but Blake3 (see [blake3_gas_left_out] and
    [callback_counted_twice]). *)
Theorem requestor_gas_covers_provers dev (o : OrderRequest) jb units :
  let r := request o in
  estimate_gas_usage_upper_bound (OfferLayerConfig.new dev) (requirements r)
    (RequestId.from_lossy (reqId r)) jb = Ok units ->
  callback_is_none (callback (requirements r)) = true ->
  proof_type (supported_default dev) (selector (requirements r)) <> Some PfBlake3Groth16 ->
  0 <= default 0 jb < 2 ^ 40 ->
  exists base fulfill,
    estimate_fulfill_gas_default market_config_default (supported_default dev) r = Ok base
    /\ fulfill_gas_units market_config_default base r jb = Ok fulfill
    /\ lockin_gas_estimate market_config_default + estimate_erc1271_gas_default o + fulfill
       <= units.
Proof.
  cbv zeta. set (r := request o). intros Hu Hc Hty Hj.
  assert (Hcb : callback_gas r = Ok 0).
  { unfold callback_gas, callback_as_option. by rewrite Hc. }
  set (signed := RequestId.smart_contract_signed (RequestId.from_lossy (reqId r))).
  assert (Hsig : estimate_erc1271_gas_default o = if signed then 100000 else 0) by done.
  rewrite Hsig. clear Hsig.
  unfold estimate_gas_usage_upper_bound, MAX_JOURNAL_BYTES, callback_as_option in Hu.
  fold signed in Hu. clearbody signed.
  rewrite Hc in Hu. simpl in Hu. apply result_bind_Ok in Hu as (ty & Ety & [= <-]).
  assert (Hp : proof_type (supported_default dev) (selector (requirements r)) = Some ty).
  { destruct (proof_type _ _); [by injection Ety as ->|done]. }
  rewrite Hp in Hty.
  assert (Hs : forall a b, 0 <= a -> 0 <= b -> a + b < 2 ^ 63 -> wadd 64 a b = a + b)
    by (intros; apply wadd_small; fits_lia).
  assert (Hd : 0 <= default 10000 jb < 2 ^ 40) by (destruct jb; simpl in *; lia).
  unfold estimate_fulfill_gas_default, fulfill_gas_units. rewrite Hcb. simpl. rewrite Hp.
  assert (is_supported (supported_default dev) (selector (requirements r)) = true) as ->.
  { unfold is_supported, proof_type in *. rewrite Hp. by apply bool_decide_eq_true. }
  simpl. eexists _, _. split; [done|]. split; [done|].
  rewrite (wmul_small 64 (default 10000 jb) 26) by fits_lia.
  change (wadd 64 200000 450000) with 650000. change (wadd 64 420000 0) with 420000.
  destruct signed, ty; try done;
    case_bool_decide; repeat wadd_inner Hs; lia.
Qed.

Module ToyOffers.
Import ToyBuilder.

Definition toy_requirements (sel : Z) (cb : Callback) : Requirements :=
  mkRequirements (predicate_into (PrefixMatch (sha [Byte.x05]) [Byte.x02])) cb sel.

Definition toy_order (sel : Z) (cb : Callback) : OrderRequest :=
  order_request_new
    (mkProofRequest (RequestId.u256 77 3) (toy_requirements sel cb) "u"
       (mkRequestInput InputInline []) (mkOffer 0 5003259360728 1050 700 2150 4300 (ether 20)))
    [] LockAndFulfill 11 8453 1000.

Definition no_callback : Callback := mkCallback 0 0.

Definition layer : @OfferLayer Z := mkOfferLayer (OfferLayerConfig.new false) None None.

#[export] Instance toy_answers : NodeAnswers layer.
Proof.
  split.
  - intros w. exists 2507, w. split; [done|]. by destruct w.
  - intros w. by exists 8453, w.
  - intros [c1 c2 w]. simpl. pose proof (Z.mod_pos_bound w (2 ^ 62) ltac:(done)). lia.
  - by intros provider w.
Qed.

Lemma default_offer_valid_witness :
  exists o w gp, offer_process layer (toy_requirements 0 no_callback) (RequestId.new 77 3)
      (Some 50000000) (Some 2) OfferParams.empty (ms_world start) = (Ok o, w)
    /\ offer_valid o /\ Market.timeout o = 2 * lockTimeout o
    /\ gas_price_answer (X := Z) gp /\ 2 * (gp * 650052) <= maxPrice o.
Proof.
  destruct (default_offer_valid layer false eq_refl (toy_requirements 0 no_callback)
    (RequestId.new 77 3) 50000000 (Some 2) 650052 (ms_world start))
    as (o & w & gp & Ho & Hwf & Hv & _ & _ & Ht & Hgp & Hm); [by vm_compute..|].
  exists o, w, gp. split_and!; [done..|]. pose proof (wf_minPrice _ Hwf). fits_lia.
Defined.

(** Nine cycles, a minimum price and two timeouts. *)
Definition some_params : OfferParams.t :=
  OfferParams.mk (Some (mkAmount 5 ETH)) None None None (Some 90) (Some 100) None.

Definition some_request : RequestParams.t :=
  RequestParams.mk None None None None (Some 9) None None (Some (RequestId.new 77 3)) some_params
    (RequirementParams.mk (Some (PrefixMatch (sha [Byte.x05]) [])) None None None None).

Definition filled : result BuildError RequestParams.t * world :=
  offer_process_with layer some_request (ms_world start).

Lemma offer_follows_params_witness :
  exists rq rid o r, RequestParams.request_id some_request = Some rid
    /\ offer_made layer rq rid (Some 9) None some_params (ms_world start) o r
    /\ lockTimeout o = 90.
Proof.
  assert (E : is_ok (fst filled) = true) by (vm_compute; reflexivity).
  destruct filled as [[p|e|] w] eqn:Er; [|discriminate E..].
  destruct (offer_follows_params layer some_request p (ms_world start) w Er)
    as (rq & rid & o & r & Hid & _ & _ & _ & Hmade).
  exists rq, rid, o, r. split_and!; [done|done|]. apply (made_lock _ _ _ _ _ _ _ _ _ Hmade).
Defined.

Lemma requestor_gas_covers_provers_witness :
  exists base fulfill, estimate_fulfill_gas_default market_config_default (supported_default false)
      (request (toy_order (selector_as_u32 groth16_latest) no_callback)) = Ok base
    /\ fulfill_gas_units market_config_default base
         (request (toy_order (selector_as_u32 groth16_latest) no_callback)) (Some 2) = Ok fulfill
    /\ 200000 + fulfill <= 900052.
Proof.
  destruct (requestor_gas_covers_provers false (toy_order (selector_as_u32 groth16_latest) no_callback)
    (Some 2) 900052) as (base & fulfill & Hb & Hf & Hle); [by vm_compute..|].
  exists base, fulfill. split_and!; [done..|].
  change (lockin_gas_estimate _) with 200000 in Hle.
  change (estimate_erc1271_gas_default _) with 0 in Hle. lia.
Defined.

(** A request for a Blake3 proof: the bound leaves its verification out, and is below
    what provers expect. *)
Lemma blake3_gas_left_out :
  let o := toy_order (selector_as_u32 blake3_groth16_latest) no_callback in
  estimate_gas_usage_upper_bound (OfferLayerConfig.new false) (requirements (request o))
    (RequestId.from_lossy (reqId (request o))) (Some 32) = Ok 650832
  /\ estimate_fulfill_gas_default market_config_default (supported_default false) (request o)
       = Ok 670000
  /\ fulfill_gas_units market_config_default 670000 (request o) (Some 32) = Ok 670832.
Proof. by vm_compute. Qed.

(** The default estimate counts the gas of a callback, and the pricing adds it again. *)
Lemma callback_counted_twice :
  let o := toy_order 0 (mkCallback 99 100000) in
  estimate_fulfill_gas_default market_config_default (supported_default false) (request o)
    = Ok (420000 + 100000)
  /\ gas_estimate (fst (snd (@price_order _ _
         (requestor_context (evaluator zkvm) false market_config_default 18 None) o
         (mkPreflightWorld ∅ (ms_world start))))) = Some (200000 + 420000 + 2 * 100000).
Proof. by vm_compute. Qed.

(** The shortest deadline by default: the comments of the source say 150 and 120 seconds
    for what is 195 and 165. *)
Lemma default_min_deadline : min_deadline market_config_default = 195.
Proof. reflexivity. Qed.

(** In development mode, the parameters for a Blake3 proof name the selector of another
    kind of fake proof, which is not one of Blake3. *)
Lemma blake3_dev_selector p :
  RequirementParams.selector (RequestParams.requirements (RequestParams.with_blake3_groth16_proof true p))
    = Some (selector_as_u32 FakeReceipt)
  /\ is_blake3_groth16_selector (selector_as_u32 FakeReceipt) = false
  /\ selector (with_blake3_groth16_proof true (toy_requirements 0 no_callback))
       = selector_as_u32 FakeBlake3Groth16.
Proof. by split_and!. Qed.

End ToyOffers.
