(* ===== verification/BuilderFacts.v ===== *)
(** * What the request builder builds

    Theorems about [RequestBuilder]: a request that is built is valid, keeps what the
    requestor gave, and asks for a proof that exists; what the storage layer stores is
    what the preflight runs; and the pricing check is advice, which counts cycles as a
    prover would. *)

From S2P Require Import Prelude Gas Market Auction Selector Oracle OrderPricing MarketService BuilderParams OfferLayer RequestorPricing RequestBuilder OfferFacts.

Local Open Scope Z_scope.

(** ** What the layers keep *)

(** Of the parameters that were given, the ones that no layer may change. *)
Record keeps (p p' : RequestParams.t) : Prop := mk_keeps {
  kp_url u : RequestParams.program_url p = Some u -> RequestParams.program_url p' = Some u;
  kp_input i : RequestParams.request_input p = Some i -> RequestParams.request_input p' = Some i;
  kp_id rid : RequestParams.request_id p = Some rid -> RequestParams.request_id p' = Some rid;
  kp_image i : RequestParams.image_id p = Some i -> RequestParams.image_id p' = Some i;
  kp_predicate q : RequirementParams.predicate (RequestParams.requirements p) = Some q ->
    exists q', RequirementParams.predicate (RequestParams.requirements p') = Some q'
               /\ predicate_into q' = predicate_into q;
  kp_selector sel : RequirementParams.selector (RequestParams.requirements p) = Some sel ->
    RequirementParams.selector (RequestParams.requirements p') = Some sel;
  kp_callback a : RequirementParams.callback_address (RequestParams.requirements p) = Some a ->
    RequirementParams.callback_address (RequestParams.requirements p') = Some a
}.

#[export] Instance keeps_preorder : PreOrder keeps.
Proof.
  split.
  - intros p. split; eauto.
  - intros p q r [? ? ? ? Hq ? ?] [? ? ? ? Hr ? ?]. split; eauto.
    intros x Hx. destruct (Hq x Hx) as (y & Hy & Ey). destruct (Hr y Hy) as (z & Hz & Ez).
    exists z. split; congruence.
Qed.

(** A layer that sets fields that were not given, and changes no requirement. *)
Lemma keeps_fields p p' :
  RequestParams.requirements p' = RequestParams.requirements p ->
  (forall u, RequestParams.program_url p = Some u -> RequestParams.program_url p' = Some u) ->
  (forall i, RequestParams.request_input p = Some i -> RequestParams.request_input p' = Some i) ->
  (forall rid, RequestParams.request_id p = Some rid -> RequestParams.request_id p' = Some rid) ->
  (forall i, RequestParams.image_id p = Some i -> RequestParams.image_id p' = Some i) ->
  keeps p p'.
Proof. intros E ? ? ? ?. split; try done; rewrite E; eauto. Qed.

(** The image, the journal and the cycles are the same. *)
Definition same_output (p p' : RequestParams.t) : Prop :=
  RequestParams.image_id p' = RequestParams.image_id p
  /\ RequestParams.journal p' = RequestParams.journal p
  /\ RequestParams.cycles p' = RequestParams.cycles p.

#[export] Instance same_output_preorder : PreOrder same_output.
Proof.
  split; [done|]. intros p q r (? & ? & ?) (? & ? & ?). unfold same_output. by split_and!; congruence.
Qed.

Section Layers.
Context {X : Type} `{Urls} `{RmpSerde} `{ServiceAbi} `{OracleEnv X} `{BuilderEnv X} `{AlloyGas}.
Context `{Blake3Feature}.
Context `{MarketNode (OracleWorld X)} `{FeeNode (OracleWorld X)} `{RequestorNode (OracleWorld X)}.

Abbreviation W0 := (OracleWorld X).

Implicit Types (p : RequestParams.t) (s : MsState W0).

Lemma at_world_Ok {E A} (m : ste W0 E A) s a s' :
  at_world m s = (Ok a, s') -> m (ms_world s) = (Ok a, ms_world s').
Proof. unfold at_world. destruct (m (ms_world s)) as [r w]. by intros [= -> <-]. Qed.

Lemma require_Ok {W A} (r : result MissingFieldError A) (w : W) a w' :
  require r w = (Ok a, w') -> r = Ok a /\ w' = w.
Proof. unfold require, liftr, map_err. destruct r; naive_solver. Qed.

Lemma require_field {W A} (o : option A) e (w : W) a w' :
  require (ok_or e o) w = (Ok a, w') -> o = Some a /\ w' = w.
Proof. intros Hr. apply require_Ok in Hr as [Ho ->]. by destruct o; naive_solver. Qed.

(** *** Storage *)

Lemma fill_input_Ok process p s p' s' :
  fill_input process p s = (Ok p', s') -> keeps p p' /\ same_output p p'.
Proof.
  unfold fill_input. intros Hr. destruct (RequestParams.request_input p) eqn:Ei.
  { by injection Hr as <- <-. }
  bind_step Hr env s1 E1. bind_step Hr i s2 E2. injection Hr as <- <-.
  split; [|done]. apply keeps_fields; simpl; congruence.
Qed.

(** The program and the input are where the request will point to. *)
Definition filled (p : RequestParams.t) : Prop :=
  is_Some (RequestParams.program_url p) /\ is_Some (RequestParams.request_input p).

Lemma fill_input_filled process p s p' s' :
  fill_input process p s = (Ok p', s') -> is_Some (RequestParams.program_url p) -> filled p'.
Proof.
  unfold fill_input, filled. intros Hr Hu. destruct (RequestParams.request_input p) eqn:Ei.
  { injection Hr as <- <-. eauto. }
  bind_step Hr env s1 E1. bind_step Hr i s2 E2. injection Hr as <- <-. simpl. eauto.
Qed.

Lemma store_params_filled self p s p' s' :
  store_params self p s = (Ok p', s') -> filled p'.
Proof.
  unfold store_params. intros Hr. destruct (storage_layer self) as [l|l].
  - destruct (zkvm_ops self) as [ops|].
    + bind_step Hr p1 s1 E1. eapply fill_input_filled; [done|].
      destruct (RequestParams.program_url p) eqn:Eu; [injection E1 as <- <-; by rewrite Eu|].
      bind_step E1 prog s2 E2. bind_step E1 img s3 E3. bind_step E1 u s4 E4. bind_step E1 url s5 E5.
      by injection E1 as <- <-.
    + unfold storage_process_with in Hr. destruct (RequestParams.program_url p) eqn:Eu; [|done].
      eapply fill_input_filled; [done|]. by rewrite Eu.
  - bind_step Hr u s1 E1. eapply fill_input_filled; [done|].
    apply require_field in E1 as [-> _]. done.
Qed.

Lemma store_params_Ok self p s p' s' :
  store_params self p s = (Ok p', s') -> keeps p p' /\ same_output p p'.
Proof.
  unfold store_params. intros Hr. destruct (storage_layer self) as [l|l].
  - destruct (zkvm_ops self) as [ops|].
    + bind_step Hr p1 s1 E1. apply fill_input_Ok in Hr as [Hk Ho].
      destruct (RequestParams.program_url p) eqn:Eu; [by injection E1 as <- <-|].
      bind_step E1 prog s2 E2. bind_step E1 img s3 E3. bind_step E1 u s4 E4. bind_step E1 url s5 E5.
      injection E1 as <- <-. split; [etrans; [|done]|etrans; [|done]; done].
      apply keeps_fields; simpl; congruence.
    + unfold storage_process_with in Hr. destruct (RequestParams.program_url p); [|done].
      by apply fill_input_Ok in Hr.
  - bind_step Hr u s1 E1. by apply fill_input_Ok in Hr.
Qed.

(** *** Preflight *)

(** The output of the program that a run has seen: given by the requestor, or returned
    by the executor for the program at the URL and the environment in the input. *)
Definition known_output (dl : option (StorageDownloader W0)) (ops : ZkvmOps W0)
    (p : RequestParams.t) (image_id journal : bytes) (cycles : Z) : Prop :=
  (RequestParams.journal p = Some journal /\ RequestParams.cycles p = Some cycles
   /\ (RequestParams.image_id p = Some image_id
       \/ RequestParams.image_id p = None
          /\ exists program, compute_image_id ops program = inr image_id))
  \/ exists d url i program env w1 w1' s2 s2' w3 w3',
       dl = Some d /\ RequestParams.program_url p = Some url
       /\ RequestParams.request_input p = Some i
       /\ download d url w1 = (Ok program, w1')
       /\ fetch_env dl i s2 = (Ok env, s2')
       /\ compute_image_id ops program = inr image_id
       /\ execute_program (executor ops) (hex_bytes image_id) program (stdin env) w3
            = (Ok (cycles, journal), w3').

Lemma or_fail_Ok {A} f (r : string + A) s a s' :
  or_fail f r s = (Ok a, s') -> r = inr a /\ s' = s.
Proof. destruct r; [done|]. by intros [= -> <-]. Qed.

Lemma preflight_layer_Ok dl ops p s p' s' :
  preflight_process_with dl ops p s = (Ok p', s') ->
  keeps p p' /\ exists image journal cycles,
    RequestParams.image_id p' = Some image /\ RequestParams.journal p' = Some journal
    /\ RequestParams.cycles p' = Some cycles /\ known_output dl ops p image journal cycles.
Proof.
  assert (Hrun : (program_url ← require (RequestParams.require_program_url p);
      request_input ← require (RequestParams.require_request_input p);
      d ← with_context "cannot preflight URL request without downloader" dl;
      program ← at_world (with_err StorageFailed (download d program_url));
      env ← fetch_env dl request_input;
      image_id ← or_fail ImageIdFailed (compute_image_id ops program);
      '(cycles, journal) ←
        at_world (with_err ExecutionFailed
          (execute_program (executor ops) (hex_bytes image_id) program (stdin env)));
      _ ← match RequestParams.image_id p with
          | Some provided =>
              if bool_decide (provided = image_id) then mret tt
              else throw (Refused "provided image ID does not match computed value")
          | None => mret tt
          end;
      mret (RequestParams.with_image_id image_id
              (RequestParams.with_journal journal (RequestParams.with_cycles cycles p))))
      s = (Ok p', s') ->
    keeps p p' /\ exists image journal cycles,
      RequestParams.image_id p' = Some image /\ RequestParams.journal p' = Some journal
      /\ RequestParams.cycles p' = Some cycles /\ known_output dl ops p image journal cycles).
  { intros Hr. bind_step Hr u s1 E1. bind_step Hr i s2 E2. bind_step Hr d s3 E3.
    bind_step Hr prog s4 E4. bind_step Hr env s5 E5. bind_step Hr img s6 E6.
    bind_step Hr cj s7 E7. destruct cj as [c j]. bind_step Hr u2 s8 E8. injection Hr as <- <-.
    apply or_fail_Ok in E6 as [E6 ->]. apply at_world_Ok, with_err_Ok in E4, E7.
    apply require_field in E1 as [Eu ->], E2 as [Ei ->]. apply liftr_Ok in E3 as [Ed ->].
    destruct dl as [d'|] eqn:Edl; [|done]. injection Ed as ->. split.
    - apply keeps_fields; simpl; try done. intros i' Hi. rewrite Hi in E8.
      case_bool_decide; [by subst|done].
    - exists img, j, c. split_and!; [done..|]. right. rewrite <- Edl in E5 |- *. eauto 20. }
  unfold preflight_process_with. intros Hr.
  destruct (RequestParams.cycles p) as [c|] eqn:Ec; [|by apply Hrun].
  destruct (RequestParams.journal p) as [j|] eqn:Ej; [|by apply Hrun].
  clear Hrun. bind_step Hr p1 s1 E1. bind_step Hr u s2 E2. injection Hr as <- <-.
  unfold ensure_image_id in E1. destruct (RequestParams.image_id p) as [i|] eqn:Ei.
  { injection E1 as <- <-. split; [done|]. exists i, j, c. split_and!; [done..|]. left. eauto. }
  bind_step E1 prog s3 E3. bind_step E1 img s4 E4. injection E1 as <- <-.
  apply or_fail_Ok in E4 as [E4 ->].
  split; [apply keeps_fields; simpl; congruence|].
  exists img, j, c. split_and!; [done..|]. left. eauto 6.
Qed.

(** *** Requirements *)

Lemma of_requirements_Ok rq r :
  RequirementParams.of_requirements rq = Ok r ->
  exists q, predicate_try_from (predicate rq) = Ok q
    /\ r = RequirementParams.mk (Some q) (predicate_image_id q) (Some (cbAddr (callback rq)))
             (Some (gasLimit (callback rq))) (Some (selector rq)).
Proof.
  unfold RequirementParams.of_requirements. intros Hr.
  apply result_bind_Ok in Hr as (q & Eq & Hr). apply result_bind_Ok in Hr as (l & El & [= <-]).
  exists q. split; [done|]. destruct (_ <? _); [|done]. by injection El as <-.
Qed.

Lemma requirements_process_Ok image journal given rq :
  requirements_process image journal given = Ok rq ->
  (forall q, RequirementParams.predicate given = Some q -> predicate rq = predicate_into q)
  /\ (forall sel, RequirementParams.selector given = Some sel -> selector rq = sel)
  /\ (forall a, RequirementParams.callback_address given = Some a -> cbAddr (callback rq) = a).
Proof.
  unfold requirements_process. intros Hr. apply result_bind_Ok in Hr as (q & Eq & Hr).
  apply result_bind_Ok in Hr as (u & Eu & [= <-]). simpl. split_and!.
  - intros x Hx. assert (q = Some x) as ->; [|done].
    unfold blake3_predicate in Eq. rewrite Hx in Eq.
    destruct (RequirementParams.selector given); [|by injection Eq].
    destruct (_ && _); [|by injection Eq]. destruct (negb _); [done|].
    by destruct x; try done; injection Eq.
  - by intros sel ->.
  - by intros a ->.
Qed.

Lemma requirements_Ok zk p s p' s' :
  requirements_process_with zk p s = (Ok p', s') -> keeps p p' /\ same_output p p'.
Proof.
  unfold requirements_process_with. intros Hr.
  destruct (RequirementParams.predicate _) as [q0|] eqn:Eq0;
    [destruct (RequirementParams.image_id _); [by injection Hr as <- <-|]|];
    bind_step Hr j s1 E1; bind_step Hr img s2 E2; bind_step Hr rq s3 E3; bind_step Hr r s4 E4;
    injection Hr as <- <-; apply liftr_Ok in E3 as [E3 ->], E4 as [E4 ->];
    apply requirements_process_Ok in E3 as (Hp & Hs & Hc);
    unfold map_err in E4; (destruct (RequirementParams.of_requirements rq) eqn:Er; try done);
    injection E4 as ->; apply of_requirements_Ok in Er as (q & Eq & ->);
    apply predicate_encode_decode in Eq as [_ Eq]; (split; [|done]); split; simpl; try done;
    intros x Hx; first [by rewrite (Hs x Hx)|by rewrite (Hc x Hx)|idtac].
  - exists q. split; [done|]. rewrite Eq. by apply Hp.
  - congruence.
Qed.

(** *** Identifiers and offers *)

Lemma request_id_Ok service mode p s p' s' :
  request_id_process_with service mode p s = (Ok p', s') -> keeps p p' /\ same_output p p'.
Proof.
  unfold request_id_process_with. intros Hr. destruct (RequestParams.request_id p) eqn:Ei.
  { by injection Hr as <- <-. }
  bind_step Hr rid s1 E1. injection Hr as <- <-. split; [|done].
  apply keeps_fields; simpl; congruence.
Qed.

Lemma offer_Ok (layer : @OfferLayer X) p s p' s' :
  at_world (offer_process_with layer p) s = (Ok p', s') -> keeps p p' /\ same_output p p'.
Proof.
  intros Hr. apply at_world_Ok in Hr. unfold offer_process_with in Hr.
  bind_step Hr rq w1 E1. bind_step Hr rid w2 E2. bind_step Hr o w3 E3. injection Hr as <- _.
  split; [by apply keeps_fields|done].
Qed.

(** *** The finalizer *)

Lemma clock_Ok s n s' : clock s = (Ok n, s') -> builder_now (ms_world s) = (n, ms_world s').
Proof. unfold clock. intros Hr. by apply at_world_Ok, lift_Ok in Hr. Qed.

(** Both deadlines lie ahead of a reading of the clock, and these readings were the last
    two things that led to the state [s]. *)
Definition unexpired (r : ProofRequest) (s : MsState W0) : Prop :=
  exists w now w' now', builder_now w = (now, w') /\ builder_now w' = (now', ms_world s)
    /\ now <= expires_at r /\ now' <= lock_expires_at r.

Lemma finalizer_Ok (layer : Finalizer X) p s r s' :
  finalizer_process_with layer p s = (Ok r, s') ->
  exists u i rq o rid q,
    RequestParams.program_url p = Some u /\ RequestParams.request_input p = Some i
    /\ RequestParams.request_id p = Some rid
    /\ RequirementParams.into_requirements (RequestParams.requirements p) = Ok rq
    /\ r = mkProofRequest (RequestId.into_u256 rid) rq u i o
    /\ validate r = Ok tt
    /\ predicate_try_from (predicate rq) = Ok q
    /\ known_output_accepted rq q (RequestParams.journal p) (RequestParams.image_id p) = Ok true
    /\ (check_expiration layer = true -> unexpired r s').
Proof.
  unfold finalizer_process_with. intros Hr.
  bind_step Hr u s1 E1. bind_step Hr i s2 E2. bind_step Hr rq s3 E3. bind_step Hr o s4 E4.
  bind_step Hr rid s5 E5. bind_step Hr q s6 E6. bind_step Hr ok s7 E7.
  apply require_field in E1 as [Eu _], E2 as [Ei _], E5 as [Eid _]. apply require_Ok in E3 as [E3 _].
  apply liftr_Ok in E6 as [E6 _], E7 as [E7 _].
  unfold map_err in E6. destruct (predicate_try_from _) eqn:Eq; try done. injection E6 as ->.
  destruct ok; [|done]. simpl in Hr. unfold finalizer_process in Hr.
  bind_step Hr v s8 E8. bind_step Hr t s9 E9. injection Hr as <- <-.
  apply liftr_Ok in E8 as [E8 _]. unfold map_err in E8.
  destruct (validate _) as [[]| |] eqn:Ev; try done.
  exists u, i, rq, o, rid, q. split_and!; try done.
  intros Hc. rewrite Hc in E9. bind_step E9 n1 sa Ea. apply clock_Ok in Ea.
  unfold is_expired in E9. bcase_in E9; [done|].
  bind_step E9 n2 sb Eb. apply clock_Ok in Eb. unfold is_lock_expired in E9. bcase_in E9; [done|].
  injection E9 as _ <-. exists (ms_world s8), n1, (ms_world sa), n2. split_and!; [done..|lia|lia].
Qed.

(** *** The whole builder *)

Variable self : @StandardRequestBuilder X.

(** The layers of a build that succeeds: the parameters after the storage layer, and
    those that are finalized. *)
Lemma build_Ok p s r s' :
  build_request self p s = (Ok r, s') ->
  exists p1 s1 pf sf sf',
    store_params self p s = (Ok p1, s1)
    /\ keeps p p1 /\ same_output p p1 /\ keeps p1 pf
    /\ finalizer_process_with (finalizer self) pf sf = (Ok r, sf')
    /\ run_pricing_check self r sf' = (Ok tt, s')
    /\ forall ops, zkvm_ops self = Some ops -> exists image journal cycles,
         RequestParams.image_id pf = Some image /\ RequestParams.journal pf = Some journal
         /\ known_output (preflight_downloader self) ops p1 image journal cycles.
Proof.
  unfold build_request, build_from_params. intros Hr.
  bind_step Hr p1 s1 E1. destruct (store_params_Ok _ _ _ _ _ E1) as [Hk1 Ho1].
  bind_step Hr p2 s2 E2. bind_step Hr p3 s3 E3. apply request_id_Ok in E3 as [Hk3 (Hi3 & Hj3 & _)].
  bind_step Hr pf s4 E4. apply offer_Ok in E4 as [Hk4 (Hi4 & Hj4 & _)].
  bind_step Hr r' s5 E5. bind_step Hr u s6 E6. injection Hr as -> <-. destruct u.
  exists p1, s1, pf, s4, s5. unfold preflight_and_requirements in E2.
  destruct (zkvm_ops self) as [ops|].
  - bind_step E2 pa sa Ea.
    apply preflight_layer_Ok in Ea as [Hka (image & journal & cycles & Hi & Hj & _ & Hout)].
    apply requirements_Ok in E2 as [Hkb (Hib & Hjb & _)].
    split_and!; [done..| |done|done|].
    { etrans; [done|]. etrans; [done|]. by etrans. }
    intros ? [= <-]. exists image, journal, cycles. split_and!; [congruence..|done].
  - apply requirements_Ok in E2 as [Hkb _]. split_and!; [done..| |done|done|done].
    etrans; [done|]. by etrans.
Qed.

Lemma into_requirements_Ok given rq :
  RequirementParams.into_requirements given = Ok rq ->
  exists q, RequirementParams.predicate given = Some q
    /\ rq = mkRequirements (predicate_into q)
              (mkCallback (default 0 (RequirementParams.callback_address given))
                 (default 0 (RequirementParams.callback_gas_limit given)))
              (default 0 (RequirementParams.selector given)).
Proof.
  unfold RequirementParams.into_requirements. intros Hr.
  apply result_bind_Ok in Hr as (q & Eq & [= <-]). exists q. split; [|done].
  destruct (RequirementParams.predicate given); naive_solver.
Qed.

(** C9. A request that the builder returns is valid, was not expired by the clock that
    was read, once for each deadline, before the check of its price that ended the build
    (unless that check is configured away), and is the
    request that was asked for: an identifier, a program, an input, a predicate, a
    selector and a callback that the requestor gave are those of the request. *)
Theorem built_request_valid p s r s' :
  build_request self p s = (Ok r, s') ->
  validate r = Ok tt
  /\ (check_expiration (finalizer self) = true ->
       exists s1, unexpired r s1 /\ run_pricing_check self r s1 = (Ok tt, s'))
  /\ (forall rid, RequestParams.request_id p = Some rid -> reqId r = RequestId.into_u256 rid)
  /\ (forall u, RequestParams.program_url p = Some u -> imageUrl r = u)
  /\ (forall i, RequestParams.request_input p = Some i -> input r = i)
  /\ (forall q, RequirementParams.predicate (RequestParams.requirements p) = Some q ->
       predicate (requirements r) = predicate_into q)
  /\ (forall sel, RequirementParams.selector (RequestParams.requirements p) = Some sel ->
       selector (requirements r) = sel)
  /\ (forall a, RequirementParams.callback_address (RequestParams.requirements p) = Some a ->
       cbAddr (callback (requirements r)) = a).
Proof.
  intros Hr. apply build_Ok in Hr as (p1 & s1 & pf & sf & sf' & _ & Hk1 & _ & Hk & Hf & Hpc & _).
  assert (Hkf : keeps p pf) by by etrans.
  apply finalizer_Ok in Hf as (u & i & rq & o & rid & q & Eu & Ei & Eid & Erq & -> & Hv & _ & _ & Hx).
  destruct Hkf as [Ku Ki Kid _ Kq Ks Kc].
  apply into_requirements_Ok in Erq as (q' & Eq' & ->). simpl.
  split_and!; [done|by exists sf'; auto|..].
  - intros rid' Hrid. apply Kid in Hrid. congruence.
  - intros u' Hu. apply Ku in Hu. congruence.
  - intros i' Hi. apply Ki in Hi. congruence.
  - intros x Hq. apply Kq in Hq as (y & Hy & Ey). congruence.
  - intros x Hs. apply Ks in Hs. by rewrite Hs.
  - intros x Hc. apply Kc in Hc. by rewrite Hc.
Qed.

(** An output of the program of a request: one that the requestor stated, or what the
    executor returned for the program at the URL of the request and its input. *)
Definition output_of (ops : ZkvmOps W0) (p : RequestParams.t) (r : ProofRequest)
    (image_id journal : bytes) (cycles : Z) : Prop :=
  (RequestParams.journal p = Some journal /\ RequestParams.cycles p = Some cycles
   /\ (RequestParams.image_id p = Some image_id
       \/ RequestParams.image_id p = None
          /\ exists program, compute_image_id ops program = inr image_id))
  \/ exists d program env w1 w1' s2 s2' w3 w3',
       preflight_downloader self = Some d
       /\ download d (imageUrl r) w1 = (Ok program, w1')
       /\ fetch_env (preflight_downloader self) (input r) s2 = (Ok env, s2')
       /\ compute_image_id ops program = inr image_id
       /\ execute_program (executor ops) (hex_bytes image_id) program (stdin env) w3
            = (Ok (cycles, journal), w3').

(** C5. A builder with a zkVM only returns requests that can be fulfilled: there is an
    output of the program that satisfies the request's predicate.  It was stated by the
    requestor, or the program that is found at the URL of the request returned it for
    the request's input.  A Blake3 proof has no fulfillment data; its journal is 32
    bytes long and its predicate is a claim digest. *)
Theorem built_request_provable ops p s r s' :
  zkvm_ops self = Some ops -> build_request self p s = (Ok r, s') ->
  exists image_id journal cycles q,
    output_of ops p r image_id journal cycles
    /\ predicate_try_from (predicate (requirements r)) = Ok q
    /\ if is_blake3_groth16_selector (selector (requirements r))
       then length journal = 32%nat /\ exists d, q = ClaimDigestMatch d
       else exists d, satisfies q (FdImageIdAndJournal image_id journal) d.
Proof.
  intros Hops Hr. apply build_Ok in Hr as (p1 & s1 & pf & sf & sf' & _ & Hk1 & Ho1 & Hk & Hf & _ & Hout).
  destruct (Hout ops Hops) as (image & journal & cycles & Ei & Ej & Hkn).
  apply finalizer_Ok in Hf
    as (u & i & rq & o & rid & q & Eu & Einp & _ & _ & -> & _ & Eq & Hacc & _). simpl.
  exists image, journal, cycles, q. split_and!; [|done|].
  - destruct Ho1 as (Oi & Oj & Oc). unfold known_output in Hkn. rewrite Oi, Oj, Oc in Hkn.
    destruct Hkn as [Hkn|(d & url & inp & prog & env & w1 & w1' & s2 & s2' & w3 & w3' & Ed & Ep & En
      & Hdl & Hfe & Hci & Hex)]; [by left|]. right.
    apply (kp_url _ _ Hk) in Ep. apply (kp_input _ _ Hk) in En.
    assert (url = u) as -> by congruence. assert (inp = i) as -> by congruence.
    exists d, prog, env, w1, w1', s2, s2', w3, w3'. by split_and!.
  - rewrite Ei, Ej in Hacc. unfold known_output_accepted in Hacc.
    apply predicate_encode_decode in Eq as [_ Eq].
    apply result_bind_Ok in Hacc as (data & Ed & Hacc). injection Hacc as Hacc.
    apply bool_decide_eq_true in Hacc as [dg Hd]. apply predicate_eval_spec in Hd.
    destruct (is_blake3_groth16_selector (selector rq)).
    + rewrite <- Eq in Ed. destruct (negb (bool_decide _)) eqn:Ety; [done|].
      destruct (negb (_ =? _)%nat) eqn:El; [done|].
      apply negb_false_iff, bool_decide_eq_true in Ety. apply negb_false_iff, Nat.eqb_eq in El.
      split; [done|]. destruct q; try done. eauto.
    + injection Ed as <-. eauto.
Qed.

End Layers.

(** ** What is stored is what is proven

    [Stores up d]: the URL that an upload returns is a parsed one, and what a download
    from it returns is what was uploaded. *)
Class Stores {W : Type} `{Urls} (up : StorageUploader W) (d : StorageDownloader W) : Prop := {
  uploaded_url data key w url w' :
    upload_bytes up data key w = (Ok url, w') -> url_parse url = true /\ url_normal url = url;
  uploaded_bytes data key w url w' w1 got w1' :
    upload_bytes up data key w = (Ok url, w') -> download_url d url w1 = (Ok got, w1') ->
    got = data
}.

Section Stored.
Context {X : Type} `{UrlLaws} `{RmpLaws} `{ServiceAbi} `{OracleEnv X} `{BuilderEnv X} `{AlloyGas}.
Context `{Blake3Feature}.
Context `{MarketNode (OracleWorld X)} `{FeeNode (OracleWorld X)} `{RequestorNode (OracleWorld X)}.

Lemma guest_env_round_trip env b :
  guest_env_encode env = Ok b -> guest_env_decode b = Ok env.
Proof.
  unfold guest_env_encode. intros Hr. apply result_bind_Ok in Hr as (e & Ee & [= <-]).
  destruct (to_vec_named env) as [e'|] eqn:Ev; [|done]. injection Ee as ->.
  apply rmp_round_trip in Ev. unfold guest_env_decode. simpl. by rewrite Ev.
Qed.

(** The storage of a builder and its downloader agree. *)
Definition storage_agrees (self : @StandardRequestBuilder X) : Prop :=
  forall layer up d, storage_layer self = WithUploader layer -> uploader layer = Some up ->
    preflight_downloader self = Some d -> Stores up d.

Lemma download_uploaded (up : StorageUploader (OracleWorld X)) d data key w url w' w1 got w1' :
  Stores up d -> upload_bytes up data key w = (Ok url, w') ->
  download d url w1 = (Ok got, w1') -> got = data.
Proof.
  intros Hs Hu Hd. destruct (uploaded_url _ _ _ _ _ Hu) as [Hp Hn].
  unfold download, parse_url in Hd. rewrite Hp, Hn in Hd. bind_step Hd u w2 E.
  apply liftr_Ok in E as [[= <-] ->]. by eapply uploaded_bytes.
Qed.

Lemma fetch_inline (dl : option (StorageDownloader (OracleWorld X))) env b s :
  guest_env_encode env = Ok b -> fetch_env dl (input_inline b) s = (Ok env, s).
Proof. intros Hb. unfold fetch_env. simpl. by rewrite (guest_env_round_trip _ _ Hb). Qed.

Lemma encoded_env_Ok env (s : MsState (OracleWorld X)) b s' :
  encoded_env env s = (Ok b, s') -> guest_env_encode env = Ok b.
Proof.
  unfold encoded_env. intros Hr. apply liftr_Ok in Hr as [Hr _]. unfold map_err in Hr.
  destruct (guest_env_encode env); naive_solver.
Qed.

Lemma process_env_fetches (layer : StorageLayer (OracleWorld X)) dl env s i s'
    (s1 : MsState (OracleWorld X)) e s1' :
  (forall up d, uploader layer = Some up -> dl = Some d -> Stores up d) ->
  process_env layer env s = (Ok i, s') -> fetch_env dl i s1 = (Ok e, s1') -> e = env.
Proof.
  intros Hst Hr Hf. unfold process_env in Hr. bind_step Hr b s2 E2. apply encoded_env_Ok in E2.
  destruct (exceeds_inline layer b).
  - bind_step Hr up s3 E3. bind_step Hr url s4 E4. injection Hr as <- <-.
    apply liftr_Ok in E3 as [E3 _]. destruct (uploader layer) as [up'|]; [|done]. injection E3 as ->.
    apply at_world_Ok, with_err_Ok in E4. unfold fetch_env in Hf. simpl in Hf.
    bind_step Hf d s5 E5. apply liftr_Ok in E5 as [E5 _]. destruct dl as [d'|]; [|done].
    injection E5 as ->. rewrite utf8_text in Hf. bind_step Hf u s6 E6.
    apply liftr_Ok in E6 as [[= <-] ->]. bind_step Hf got s7 E7. apply at_world_Ok, with_err_Ok in E7.
    apply (download_uploaded up d b) with (1 := Hst _ _ eq_refl eq_refl) (2 := E4) in E7 as ->.
    rewrite (guest_env_round_trip _ _ E2) in Hf. by injection Hf.
  - injection Hr as <- <-. rewrite (fetch_inline dl env b s1 E2) in Hf. by injection Hf.
Qed.

Lemma process_env_no_provider_fetches (layer : StorageLayer (OracleWorld X)) dl env s i s'
    (s1 : MsState (OracleWorld X)) e s1' :
  process_env_no_provider layer env s = (Ok i, s') -> fetch_env dl i s1 = (Ok e, s1') -> e = env.
Proof.
  intros Hr Hf. unfold process_env_no_provider in Hr. bind_step Hr b s2 E2.
  apply encoded_env_Ok in E2. destruct (exceeds_inline layer b); [done|].
  injection Hr as <- <-. rewrite (fetch_inline dl env b s1 E2) in Hf. by injection Hf.
Qed.

(** The input that is filled in, and where it comes from. *)
Lemma fill_input_source process (p : RequestParams.t) (s : MsState (OracleWorld X)) p' s' env :
  fill_input process p s = (Ok p', s') ->
  RequestParams.request_input p = None -> RequestParams.env p = Some env ->
  exists i s1 s2, process env s1 = (Ok i, s2) /\ RequestParams.request_input p' = Some i.
Proof.
  unfold fill_input. intros Hr Hi He. rewrite Hi in Hr. bind_step Hr e s1 E1. bind_step Hr i s2 E2.
  injection Hr as <- <-. apply require_field in E1 as [E1 ->]. rewrite He in E1. injection E1 as ->.
  by exists i, s, s2.
Qed.

Variable self : @StandardRequestBuilder X.

Lemma store_params_env p s p' s' env s1 e s1' i :
  storage_agrees self -> store_params self p s = (Ok p', s') ->
  RequestParams.request_input p = None -> RequestParams.env p = Some env ->
  RequestParams.request_input p' = Some i ->
  fetch_env (preflight_downloader self) i s1 = (Ok e, s1') -> e = env.
Proof.
  intros Hag Hr Hi He Hi' Hf. unfold store_params in Hr.
  destruct (storage_layer self) as [layer|layer] eqn:Es.
  - assert (Hpe : forall s2 i0 s3, process_env layer env s2 = (Ok i0, s3) ->
        RequestParams.request_input p' = Some i0 -> e = env).
    { intros s2 i0 s3 Hp Hi0. assert (i0 = i) as -> by congruence.
      eapply process_env_fetches; [|done..]. intros up d ? ?. by eapply Hag. }
    destruct (zkvm_ops self) as [ops|].
    + bind_step Hr p1 s2 E1.
      assert (RequestParams.request_input p1 = None /\ RequestParams.env p1 = Some env) as [Hi1 He1].
      { destruct (RequestParams.program_url p); [by injection E1 as <- <-|].
        bind_step E1 prog s3 E2. bind_step E1 img s4 E4. bind_step E1 u s5 E5. bind_step E1 url s6 E6.
        by injection E1 as <- <-. }
      destruct (fill_input_source _ _ _ _ _ _ Hr Hi1 He1) as (i0 & ? & ? & ? & ?). eauto.
    + unfold storage_process_with in Hr. destruct (RequestParams.program_url p); [|done].
      destruct (fill_input_source _ _ _ _ _ _ Hr Hi He) as (i0 & ? & ? & ? & ?). eauto.
  - bind_step Hr u s2 E1.
    destruct (fill_input_source _ _ _ _ _ _ Hr Hi He) as (i0 & s3 & s4 & Hp & Hi0).
    assert (i0 = i) as -> by congruence. by eapply process_env_no_provider_fetches.
Qed.

Lemma store_params_program p s p' s' prog d url w got w' :
  storage_agrees self -> store_params self p s = (Ok p', s') ->
  RequestParams.program_url p = None -> RequestParams.program p = Some prog ->
  preflight_downloader self = Some d -> RequestParams.program_url p' = Some url ->
  download d url w = (Ok got, w') -> got = prog.
Proof.
  intros Hag Hr Hu Hp Hd Hu' Hdl. unfold store_params in Hr.
  destruct (storage_layer self) as [layer|layer] eqn:Es.
  - destruct (zkvm_ops self) as [ops|];
      [|unfold storage_process_with in Hr; by rewrite Hu in Hr].
    bind_step Hr p1 s1 E1. rewrite Hu in E1. apply fill_input_Ok in Hr as [Hk _].
    bind_step E1 prog' s3 E2. bind_step E1 img s4 E4. bind_step E1 up s5 E5. bind_step E1 url' s6 E6.
    injection E1 as <- <-. apply require_field in E2 as [E2 _]. rewrite Hp in E2. injection E2 as <-.
    apply liftr_Ok in E5 as [E5 _]. destruct (uploader layer) as [up'|] eqn:Eu; [|done].
    injection E5 as ->. apply at_world_Ok, with_err_Ok in E6.
    specialize (kp_url _ _ Hk url' eq_refl) as Hk'. assert (url' = url) as -> by congruence.
    eapply download_uploaded; [by eapply Hag|done..].
  - bind_step Hr u s1 E1. apply require_field in E1 as [E1 _]. congruence.
Qed.

(** C14. What the requestor gave is what provers fetch.  When the program and the
    environment are left to the storage layer, whoever downloads the program from the
    URL of the request that is built, and decodes its input, wherever that is kept,
    obtains that program and that environment. *)
Theorem stored_request_fetches p s r s' :
  storage_agrees self -> build_request self p s = (Ok r, s') ->
  (forall env s1 e s1', RequestParams.request_input p = None -> RequestParams.env p = Some env ->
     fetch_env (preflight_downloader self) (input r) s1 = (Ok e, s1') -> e = env)
  /\ (forall program d w got w', RequestParams.program_url p = None ->
     RequestParams.program p = Some program -> preflight_downloader self = Some d ->
     download d (imageUrl r) w = (Ok got, w') -> got = program).
Proof.
  intros Hag Hr. apply build_Ok in Hr as (p1 & s1 & pf & sf & sf' & E1 & _ & _ & Hk & Hf & _).
  destruct (store_params_filled _ _ _ _ _ E1) as [[u Hu] [i Hi]].
  apply finalizer_Ok in Hf as (u' & i' & rq & o & rid & q & Hu' & Hi' & _ & _ & -> & _). simpl.
  pose proof (kp_url _ _ Hk u Hu) as Hku. pose proof (kp_input _ _ Hk i Hi) as Hki.
  assert (u' = u) as -> by congruence. assert (i' = i) as -> by congruence.
  split.
  - intros env s2 e s2' Hni He Hf. by eapply store_params_env.
  - intros prog d w got w' Hnu Hp Hd Hdl. by eapply store_params_program.
Qed.

End Stored.

(** ** Witnesses *)

Module ToyBuilds.
Import ToyBuilder.

(** A build from a program and its input. *)
Definition built : result BuildError ProofRequest * MsState world := run (Some true).

Lemma built_ok : is_ok (fst built) = true.
Proof. vm_compute. reflexivity. Qed.

Lemma built_request_valid_witness :
  exists r s1, fst built = Ok r /\ validate r = Ok tt /\ unexpired (X := Z) r s1.
Proof.
  pose proof built_ok as E. destruct built as [[r|e|] s] eqn:Er; [|discriminate E..].
  destruct (built_request_valid (builder (Some true)) params start r s Er) as (Hv & Hx & _).
  destruct (Hx eq_refl) as (s1 & Hu & _).
  exists r, s1. split_and!; [reflexivity|exact Hv|exact Hu].
Defined.

Lemma built_request_provable_witness :
  exists r image_id journal cycles, fst built = Ok r
    /\ output_of (builder (Some true)) zkvm params r image_id journal cycles.
Proof.
  pose proof built_ok as E. destruct built as [[r|e|] s] eqn:Er; [|discriminate E..].
  destruct (built_request_provable (builder (Some true)) zkvm params start r s eq_refl Er)
    as (i & j & c & q & Ho & _).
  exists r, i, j, c. split; [reflexivity|exact Ho].
Defined.

Lemma substring_all s n : (String.length s <= n)%nat -> String.substring 0 n s = s.
Proof.
  revert n. induction s as [|a s IH]; intros [|n]; simpl; try done; [lia|].
  intros Hn. rewrite IH; [done|lia].
Qed.

#[export] Instance toy_stores : Stores store fetch.
Proof.
  split.
  - intros data key w url w' [= <- <-]. by split.
  - intros data key w url w' w1 got w1' [= <- <-] [= <- <-].
    rewrite substring_all by lia. apply String.list_byte_of_string_of_list_byte.
Qed.

Lemma toy_storage_agrees skip : storage_agrees (builder skip).
Proof. intros layer up d [= <-] [= <-] [= <-]. apply toy_stores. Qed.

Lemma stored_request_fetches_witness :
  exists r, fst built = Ok r
    /\ (forall s e s', fetch_env (Some fetch) (input r) s = (Ok e, s') -> stdin e = [Byte.x02; Byte.x07])
    /\ (forall w got w', download fetch (imageUrl r) w = (Ok got, w') -> got = [Byte.x05]).
Proof.
  pose proof built_ok as E. destruct built as [[r|e|] s] eqn:Er; [|discriminate E..].
  destruct (stored_request_fetches (builder (Some true)) params start r s
    (toy_storage_agrees (Some true)) Er) as [Henv Hprog].
  exists r. split_and!; [reflexivity| |].
  - intros s1 e s1' Hf. by rewrite (Henv (mkGuestEnv [Byte.x02; Byte.x07]) s1 e s1' eq_refl eq_refl Hf).
  - intros w got w' Hd. exact (Hprog [Byte.x05] fetch w got w' eq_refl eq_refl eq_refl Hd).
Defined.

End ToyBuilds.
