(* ===== verification/RequestorFacts.v ===== *)
(** * The requestor's pricing: facts

    [requestor_context] discharges the interfaces that [OrderPricing] asks of a context,
    so that a request which its requestor priced has passed the checks of a prover; and
    the pricing check of the builder is advice: it cannot keep a request from being
    built. *)

From S2P Require Import Prelude Gas Market Auction Selector Oracle OrderPricing MarketService BuilderParams OfferLayer RequestorPricing RequestBuilder.

Local Open Scope Z_scope.

(** ** Nothing panics *)

Section Quiet.
Context {X : Type} `{Externals} `{ServiceAbi} `{OracleEnv X} `{BuilderEnv X} `{AlloyGas}.
Context `{MarketNode (OracleWorld X)} `{FeeNode (OracleWorld X)} `{RequestorNode (OracleWorld X)}.

Abbreviation W0 := (OracleWorld X).
Abbreviation PW := (PreflightWorld X).

(** The node answers or fails, and the precision of a token is not negative. *)
Class QuietNode : Prop := {
  quiet_history n f (w : W0) : pfree (get_fee_history n f) w;
  quiet_base_fee (w : W0) : pfree latest_base_fee w;
  quiet_priority_fee (w : W0) : pfree get_max_priority_fee_per_gas w;
  quiet_gas_price (w : W0) : pfree node_gas_price w;
  quiet_decimals a (w : W0) d w' : token_decimals a w = (inr d, w') -> 0 <= d
}.

Definition quiet_oracle (m : PriceOracleManager X) : Prop :=
  forall w, pfree (po_get_rate (eth_usd m)) w /\ pfree (po_get_rate (zkc_usd m)) w.

(** An evaluator that answers or fails, and that counts at least one cycle of a guest
    that ran to its end. *)
Record quiet_evaluator (ev : RequestEvaluator W0) : Prop := {
  qe_pfree r l w : pfree (ev r l) w;
  qe_cycles r l w i m pid iid out w' :
    ev r l w = (Ok (EvalSuccess i m pid iid out), w') -> 0 < normalized_units m
}.

Lemma pfree_on_world {E A} (m : ste W0 E A) (s : PW) :
  pfree m (pf_world s) -> pfree (on_world m) s.
Proof.
  intros Hm w' Hr. unfold on_world in Hr. destruct (m (pf_world s)) as [r w1] eqn:E1.
  injection Hr as -> _. by apply Hm in E1.
Qed.

Lemma cached_get_rate_pfree slot o (w : W0) :
  (forall w, pfree (po_get_rate o) w) -> pfree (cached_get_rate slot o) w.
Proof.
  intros Ho. unfold cached_get_rate. apply pfree_bind; [apply pfree_lift|].
  intros [r|] w1 _; [apply pfree_ret|]. apply pfree_bind; [apply Ho|]. intros r w2 _.
  apply pfree_bind; [apply pfree_lift|]. intros; apply pfree_ret.
Qed.

Lemma convert_asset_value_no_panic v a b p : convert_asset_value v a b p <> Panic.
Proof.
  unfold convert_asset_value, checked_mul, checked_div.
  repeat (case_match; simpl); try done; repeat (case_match; simpl; try done).
Qed.

Lemma convert_pfree m a target (w : W0) : quiet_oracle m -> pfree (convert m a target) w.
Proof.
  intros Hm. assert (Hover : forall pair a w, pfree (convert_over m pair a target) w
      /\ pfree (convert_over m pair a USD) w).
  { intros pair x w1. split; unfold convert_over;
      (apply pfree_bind;
        [apply pfree_with_err; destruct pair; apply cached_get_rate_pfree; apply Hm|];
       intros r w2 _; apply pfree_bind; [apply pfree_liftr, convert_asset_value_no_panic|];
       intros; apply pfree_ret). }
  unfold convert. destruct (amount_asset a), target; try apply pfree_ret; try apply Hover;
    (apply pfree_bind; [apply Hover|intros; apply Hover]).
Qed.

Context {Hquiet : QuietNode}.

Lemma estimate_max_fee_pfree mode (w : W0) : pfree (estimate_max_fee_per_gas mode) w.
Proof using Hquiet.
  assert (Hlatest : forall w, pfree (latest ← latest_base_fee; liftr (ok_or tt latest)) w).
  { intros w1. apply pfree_bind; [apply quiet_base_fee|].
    intros [b|] w2 _; by apply pfree_liftr. }
  unfold estimate_max_fee_per_gas. apply pfree_bind.
  - apply pfree_catch. unfold estimate_eip1559_fees. apply pfree_bind; [apply quiet_history|].
    intros h w1 _. apply pfree_bind.
    { unfold history_base_fee. destruct (latest_block_base_fee h); [|apply Hlatest].
      destruct (negb _); [apply pfree_ret|apply Hlatest]. }
    intros b w2 _. apply pfree_bind; [|intros; apply pfree_ret].
    destruct (_ <=? 1); [|apply pfree_ret].
    apply pfree_bind; [apply pfree_catch, quiet_priority_fee|]. intros; apply pfree_ret.
  - intros [e|e] w1 _; [apply quiet_gas_price|apply pfree_ret].
Qed.

(** ** The context of a requestor *)

Section Context_.
Variables (ev : RequestEvaluator W0) (dev : bool) (cfg : MarketConfig) (dec : Z).
Variable oracle : option (PriceOracleManager X).

#[local] Instance ctx : OrderPricingContext PW := requestor_context ev dev cfg dec oracle.

#[local] Instance requestor_skips_only : SkipsOnly PW.
Proof. split; by intros. Qed.

Lemma requestor_convert_pfree target bound a (s : PW) :
  (forall m, oracle = Some m -> quiet_oracle m) ->
  pfree (requestor_convert oracle target bound a) s.
Proof.
  intros Ho. unfold requestor_convert. case_bool_decide; [apply pfree_ret|].
  destruct oracle as [m|]; [|apply pfree_ret].
  by apply pfree_with_err, pfree_on_world, convert_pfree, Ho.
Qed.

Lemma estimate_fulfill_gas_no_panic c sel r : estimate_fulfill_gas_default c sel r <> Panic.
Proof.
  unfold estimate_fulfill_gas_default, callback_gas. destruct (negb _); [done|].
  destruct (_ <? _); [|done]. simpl. by destruct (proof_type _ _).
Qed.

Lemma requestor_panic_free :
  quiet_evaluator ev -> (forall m, oracle = Some m -> quiet_oracle m) -> 0 <= dec ->
  PanicFree PW.
Proof using Hquiet.
  intros He Ho Hd. split; try (intros; apply pfree_ret).
  - intros r w. apply pfree_liftr, estimate_fulfill_gas_no_panic.
  - intros w. apply pfree_with_err, pfree_on_world, estimate_max_fee_pfree.
  - intros a w. by apply requestor_convert_pfree.
  - intros a w. by apply requestor_convert_pfree.
  - intros r l w. apply pfree_on_world, qe_pfree, He.
  - intros r l w i m pid iid out w' Hr. simpl in Hr. unfold on_world in Hr.
    destruct (ev r l (pf_world w)) as [x w1] eqn:Ev. injection Hr as -> _. by eapply qe_cycles.
  - done.
Qed.

(** A decision to prove is one that has passed every stage. *)
Lemma price_with_checked o s out s' c :
  price_with ctx o s = (Ok out, s') ->
  match out with
  | Lock t => c = lt_total_cycles t
  | ProveAfterLockExpire t => c = al_total_cycles t
  | Skip _ => False
  end ->
  exists o' gp units cost j, checked o s o' cfg gp units cost c j.
Proof.
  unfold price_with. intros Hr Hout.
  destruct (price_order o s) as [r [o' w']] eqn:E. unfold map_err in Hr.
  destruct r as [out'| |]; try done. injection Hr as -> _.
  apply price_order_decides in E; [|by intros code ->].
  apply price_order_body_Ok in E as (c0 & gp & units & cost & c' & j & o2 & w5 & Hck & [Ho1 Ho2] & Hr).
  assert (c0 = cfg) as -> by (destruct (cd_config _ _ _ _ _ _ _ _ _ Hck) as (? & ? & [= -> _]); done).
  assert (c' = c) as ->; [|by exists o', gp, units, cost, j].
  case_bool_decide as Hf.
  - apply price_after_lock_Ok in Hr as (t & rw & -> & _ & Hct & _). congruence.
  - apply price_lockable_Ok in Hr as (t & -> & _ & Hct & _). congruence.
Qed.

End Context_.

(** *** The preflight of an order *)

(** The configuration of a preflight that starts in the state [w]: the default, with the
    tenth percentile of the prices that the provider answers then as the minimum per
    million cycles, and none if it answers an error. *)
Definition requestor_config (provider : option (PriceProvider W0)) (w : W0) : MarketConfig :=
  match provider with
  | None => market_config_default
  | Some p => with_min_mcycle_price
      (mkAmount (match fst (p w) with
                 | Ok prices => sat_mul 256 (p10 prices) ONE_MILLION
                 | _ => 0
                 end) ETH) market_config_default
  end.

Lemma build_market_config_Ok provider (w : W0) cfg w' :
  build_market_config provider w = (Ok cfg, w') -> cfg = requestor_config provider w.
Proof.
  unfold build_market_config, requestor_config. intros Hr. destruct provider as [p|].
  - bind_step Hr r w1 E1. injection Hr as <- <-. unfold catch in E1.
    destruct (p w) as [[x|e|] w2]; by simplify_eq.
  - by injection Hr as <- <-.
Qed.

Lemma requestor_order_Ok ty request market chain (s : PW) o s' :
  requestor_order ty request market chain s = (Ok o, s') ->
  fulfillment_type o = ty /\ OrderPricing.request o = request.
Proof. unfold requestor_order. intros Hr. bind_step Hr n s1 E1. by injection Hr as <- <-. Qed.

(** The order of one of the two pricings of a preflight, and the state in which it is
    priced: the order to be locked first, and after its pricing the one to be fulfilled
    after the lock. *)
Definition order_priced (context : OrderPricingContext PW) (request : ProofRequest) (market chain : Z)
    (s0 : PW) (o : OrderRequest) (s : PW) : Prop :=
  requestor_order LockAndFulfill request market chain s0 = (Ok o, s)
  \/ exists o1 s1 out1 s2,
       requestor_order LockAndFulfill request market chain s0 = (Ok o1, s1)
       /\ price_with context o1 s1 = (Ok out1, s2)
       /\ requestor_order FulfillAfterLockExpire request market chain s2 = (Ok o, s).

Lemma order_priced_request context request market chain s0 o s :
  order_priced context request market chain s0 o s ->
  OrderPricing.request o = request
  /\ (fulfillment_type o = LockAndFulfill \/ fulfillment_type o = FulfillAfterLockExpire).
Proof.
  intros [Ho|(o1 & s1 & out1 & s2 & _ & _ & Ho)]; apply requestor_order_Ok in Ho as [Ht Hr];
    (split; [done|]); [by left|by right].
Qed.

(** C26. The number of cycles that a requestor's preflight reports is one that a prover
    would accept: under the default configuration, with the minimum price that the
    market's prices of this run give, one of the two orders that the preflight made of
    the request, to be locked or to be fulfilled after its lock, has passed every check
    of the pricing of provers in its turn of the run, with that number of cycles counted
    by the evaluator.  The checks are those of [checked], as the context of a requestor
    answers them: it has no balances, no locks and no lists of requestors, so these
    never refuse. *)
Theorem preflight_count_checked ev dev request market chain provider oracle (w : W0) c w' :
  requestor_order_preflight ev dev request market chain provider oracle w = (Ok (Some c), w') ->
  exists dec w1 w2 o s o' gp units cost j,
    token_decimals_of w = (Ok dec, w1)
    /\ let cfg := requestor_config provider w1 in
       let context := requestor_context ev dev cfg dec oracle in
       build_market_config provider w1 = (Ok cfg, w2)
       /\ order_priced context request market chain (mkPreflightWorld ∅ w2) o s
       /\ OrderPricing.request o = request
       /\ (fulfillment_type o = LockAndFulfill \/ fulfillment_type o = FulfillAfterLockExpire)
       /\ @checked PW _ context o s o' cfg gp units cost c j.
Proof.
  unfold requestor_order_preflight. intros Hr. bind_step Hr dec w1 E1. bind_step Hr cfg w2 E2.
  apply with_err_Ok in E1. pose proof (build_market_config_Ok _ _ _ _ E2) as ->.
  set (cfg := requestor_config provider w1) in *.
  set (context := requestor_context ev dev cfg dec oracle) in *. unfold with_fresh_cache in Hr.
  destruct (preflight_orders _ _ _ _ _) as [r s] eqn:E. injection Hr as -> <-.
  unfold preflight_orders in E. bind_step E o1 s1 Eo1. bind_step E out1 s2 Ep1.
  bind_step E o2 s3 Eo2. bind_step E out2 s4 Ep2. injection E as E <-.
  assert (Hfrom : forall o s0 s0' out,
    order_priced context request market chain (mkPreflightWorld ∅ w2) o s0 ->
    price_with context o s0 = (Ok out, s0') ->
    match out with Lock t => c = lt_total_cycles t | ProveAfterLockExpire t => c = al_total_cycles t
    | Skip _ => False end ->
    exists o' gp units cost j, OrderPricing.request o = request
      /\ (fulfillment_type o = LockAndFulfill \/ fulfillment_type o = FulfillAfterLockExpire)
      /\ @checked PW _ context o s0 o' cfg gp units cost c j).
  { intros o s0 s0' out Ho Hp Hc. apply order_priced_request in Ho as [Hrq Hty].
    eapply price_with_checked with (c := c) in Hp; [|exact Hc].
    destruct Hp as (o' & gp & units & cost & j & Hck). by exists o', gp, units, cost, j. }
  assert (Ho1 : order_priced context request market chain (mkPreflightWorld ∅ w2) o1 s1) by by left.
  assert (Ho2 : order_priced context request market chain (mkPreflightWorld ∅ w2) o2 s3)
    by (right; by exists o1, s1, out1, s2).
  destruct out2 as [t2|t2|code]; [destruct out1; try done|
    |destruct out1; try done]; injection E as E.
  - destruct (Hfrom _ _ _ _ Ho1 Ep1 (eq_sym E)) as (o' & gp & units & cost & j & ? & ? & ?).
    by exists dec, w1, w2, o1, s1, o', gp, units, cost, j.
  - destruct (Hfrom _ _ _ _ Ho2 Ep2 (eq_sym E)) as (o' & gp & units & cost & j & ? & ? & ?).
    by exists dec, w1, w2, o2, s3, o', gp, units, cost, j.
  - destruct (Hfrom _ _ _ _ Ho1 Ep1 (eq_sym E)) as (o' & gp & units & cost & j & ? & ? & ?).
    by exists dec, w1, w2, o1, s1, o', gp, units, cost, j.
Qed.

End Quiet.

(** ** The check is advice *)

Section Advice.
Context {X : Type} `{Urls} `{RmpSerde} `{ServiceAbi} `{OracleEnv X} `{BuilderEnv X} `{AlloyGas}.
Context `{Blake3Feature}.
Context `{MarketNode (OracleWorld X)} `{FeeNode (OracleWorld X)} `{RequestorNode (OracleWorld X)}.
Context {Hquiet : QuietNode (X := X)}.
Variable self : @StandardRequestBuilder X.

(** The builder with its check switched off. *)
Definition skipping : @StandardRequestBuilder X := {|
  storage_layer := storage_layer self;
  preflight_downloader := preflight_downloader self;
  boundless_market := boundless_market self;
  request_id_mode := request_id_mode self;
  offer_layer := offer_layer self;
  finalizer := finalizer self;
  skip_preflight := Some true;
  zkvm_ops := zkvm_ops self;
  dev_mode := dev_mode self
|}.

(** What the check calls answers or fails. *)
Record quiet_builder : Prop := {
  qb_evaluator ops : zkvm_ops self = Some ops -> quiet_evaluator (evaluator ops);
  qb_oracle m : price_oracle_manager (offer_layer self) = Some m -> quiet_oracle m;
  qb_provider p w : price_provider (offer_layer self) = Some p -> pfree p w
}.

Lemma at_world_pfree {E A} (m : ste (OracleWorld X) E A) s :
  pfree m (ms_world s) -> pfree (at_world m) s.
Proof.
  intros Hm w' Hr. unfold at_world in Hr. destruct (m (ms_world s)) as [r w1] eqn:E1.
  injection Hr as -> _. by apply Hm in E1.
Qed.

Lemma node_try_pfree {A} (m : st (OracleWorld X) (string + A)) s : pfree (node_try m) s.
Proof.
  intros s' Hr. unfold node_try, on_node, mbind, ste_bind in Hr.
  destruct (m (ms_world s)) as [[e|a] w]; done.
Qed.

Lemma get_chain_id_pfree (s : MsState (OracleWorld X)) : pfree get_chain_id s.
Proof.
  unfold get_chain_id. apply pfree_bind; [by intros s'|]. intros id s1 _.
  destruct (negb _); [apply pfree_ret|]. apply pfree_bind; [apply node_try_pfree|].
  intros id' s2 _. apply pfree_bind; [by intros s'|]. intros; apply pfree_ret.
Qed.

Lemma decimals_answer (w : OracleWorld X) d w' : token_decimals_of w = (Ok d, w') -> 0 <= d.
Proof using Hquiet.
  unfold token_decimals_of. destruct (MarketService.collateral_token_decimals _) as [r s] eqn:E.
  intros [= -> _]. unfold MarketService.collateral_token_decimals in E. bind_step E a s1 Ea.
  unfold node_try, on_node, mbind, ste_bind in E.
  destruct (token_decimals a (ms_world s1)) as [[e|x] w1] eqn:Ed; [done|]. injection E as -> _.
  by eapply quiet_decimals.
Qed.

Lemma requestor_order_preflight_pfree ops dev request market chain (w : OracleWorld X) :
  quiet_builder -> zkvm_ops self = Some ops -> offer_wf (offer request) ->
  pfree (requestor_order_preflight (evaluator ops) dev request market chain
           (price_provider (offer_layer self)) (price_oracle_manager (offer_layer self))) w.
Proof using Hquiet.
  intros Hq Hops Hwf. unfold requestor_order_preflight. apply pfree_bind.
  { apply pfree_with_err. intros w' Hr. unfold token_decimals_of in Hr.
    destruct (MarketService.collateral_token_decimals _) as [r s] eqn:E. injection Hr as -> _.
    revert E. apply pfree_bind; [apply node_try_pfree|]. intros; apply node_try_pfree. }
  intros dec w1 Ed. apply with_err_Ok, decimals_answer in Ed.
  apply pfree_bind.
  { unfold build_market_config. destruct (price_provider _) as [p|] eqn:Ep; [|apply pfree_ret].
    apply pfree_bind; [by apply pfree_catch, (qb_provider Hq)|]. intros; apply pfree_ret. }
  intros cfg w2 _. unfold with_fresh_cache. intros w' Hr.
  destruct (preflight_orders _ _ _ _ _) as [r s] eqn:E. injection Hr as -> _. revert E.
  set (ctx := requestor_context _ _ _ _ _).
  assert (Hp : @PanicFree (PreflightWorld X) _ ctx)
    by (apply requestor_panic_free; [by apply (qb_evaluator Hq)|apply (qb_oracle Hq)|done]).
  assert (Hprice : forall o s, offer (OrderPricing.request o) = offer request ->
    pfree (price_with ctx o) s).
  { intros o s1 Ho s2 Hr. unfold price_with in Hr.
    destruct (price_order o s1) as [r [o' s3]] eqn:Er.
    pose proof (price_order_no_panic o s1) as Hno. rewrite Er, Ho in Hno.
    destruct r; try done. by apply Hno. }
  apply pfree_bind; [apply pfree_bind; [apply pfree_lift|intros; apply pfree_ret]|].
  intros o1 s1 Eo1. apply requestor_order_Ok in Eo1 as [_ Eo1].
  apply pfree_bind; [by apply Hprice; rewrite Eo1|]. intros out1 s2 _.
  apply pfree_bind; [apply pfree_bind; [apply pfree_lift|intros; apply pfree_ret]|].
  intros o2 s3 Eo2. apply requestor_order_Ok in Eo2 as [_ Eo2].
  apply pfree_bind; [by apply Hprice; rewrite Eo2|]. intros; apply pfree_ret.
Qed.

Lemma run_pricing_check_returns request s :
  quiet_builder -> offer_wf (offer request) -> returns (run_pricing_check self request) s.
Proof using Hquiet.
  intros Hq Hwf. unfold run_pricing_check. apply returns_bind.
  { unfold should_skip_preflight. destruct (skip_preflight self); [apply returns_ret|].
    unfold returns, at_world, lift, oenv. destruct (ignore_preflight _). eauto. }
  intros [|] s1 _; [apply returns_ret|].
  apply returns_bind; [apply returns_catch, get_chain_id_pfree|]. intros [e|chain] s2 _;
    [apply returns_ret|]. destruct (zkvm_ops self) as [ops|] eqn:Eo; [|apply returns_ret].
  apply returns_bind; [|intros; apply returns_ret].
  by apply returns_catch, at_world_pfree, requestor_order_preflight_pfree.
Qed.

(** The layers, without the check. *)
Definition build_unchecked (b : @StandardRequestBuilder X) (input : RequestParams.t)
    : ste (MsState (OracleWorld X)) BuildError ProofRequest :=
  params ← store_params b input;
  params ← preflight_and_requirements b params;
  params ← request_id_process_with (boundless_market b) (request_id_mode b) params;
  params ← at_world (offer_process_with (offer_layer b) params);
  finalizer_process_with (finalizer b) params.

Lemma build_split (b : @StandardRequestBuilder X) p s :
  build_request b p s = (r ← build_unchecked b p; _ ← run_pricing_check b r; mret r) s.
Proof.
  unfold build_request, build_from_params, build_unchecked.
  do 4 (rewrite ste_bind_assoc; apply ste_bind_ext; intros ? ? _). done.
Qed.

(** C37. The pricing check is advice: a request is built, or refused for the same
    reason, whether the builder prices it or skips that; an error of the preflight, of
    the node or of the market's prices is not an error of the build. *)
Theorem pricing_check_is_advice p s :
  quiet_builder ->
  (forall r s1, build_request skipping p s = (Ok r, s1) -> offer_wf (offer r) ->
     exists s', build_request self p s = (Ok r, s'))
  /\ (forall e s1, build_request skipping p s = (Err e, s1) -> build_request self p s = (Err e, s1)).
Proof.
  intros Hq.
  assert (Hskip : build_request skipping p s = build_unchecked self p s).
  { rewrite build_split. change (build_unchecked skipping p) with (build_unchecked self p).
    unfold mbind, ste_bind. by destruct (build_unchecked self p s) as [[r|e|] s1]. }
  rewrite Hskip, build_split. unfold mbind, ste_bind. split.
  - intros r s1 -> Hwf. destruct (run_pricing_check_returns r s1 Hq Hwf) as (u & s2 & ->).
    by exists s2.
  - by intros e s1 ->.
Qed.

End Advice.

(** ** Witnesses *)

Module ToyPricing.
Import ToyBuilder.

#[export] Instance toy_quiet : QuietNode (X := Z).
Proof. split; try done. by intros a w d w' [= <- <-]. Qed.

Lemma toy_quiet_builder skip : quiet_builder (builder skip).
Proof.
  split; [|done|done]. intros ops [= <-]. split; [done|].
  by intros r l w i m pid iid out w' [= <- <- <- <- <- <-].
Qed.

Definition skipped : result BuildError ProofRequest * MsState world :=
  build_request (skipping (builder None)) params start.

Lemma pricing_check_is_advice_witness :
  exists r s', fst skipped = Ok r /\ build_request (builder None) params start = (Ok r, s').
Proof.
  assert (E : match fst skipped with Ok r => bool_decide (maxPrice (offer r) < 2 ^ 256
      /\ 0 <= maxPrice (offer r)) && bool_decide (minPrice (offer r) = 0)
      && bool_decide (rampUpStart (offer r) = 1050) && bool_decide (rampUpPeriod (offer r) = 700)
      && bool_decide (lockTimeout (offer r) = 2150) && bool_decide (timeout (offer r) = 4300)
      && bool_decide (lockCollateral (offer r) = ether 20) | _ => false end = true)
    by (vm_compute; reflexivity).
  destruct skipped as [[r|e|] s] eqn:Er; [|discriminate E..].
  destruct (pricing_check_is_advice (builder None) params start (toy_quiet_builder None)) as [Hok _].
  destruct (Hok r s Er) as (s' & Hs').
  - apply andb_prop in E as [E Ecol]; do 5 (apply andb_prop in E as [E ?]).
    repeat match goal with H : bool_decide _ = true |- _ => apply bool_decide_eq_true in H end.
    simpl in E. unfold ether in Ecol. constructor; unfold fits; try lia.
    rewrite Ecol. split; vm_compute; [discriminate|reflexivity].
  - exists r, s'. by split.
Defined.

Definition priced : result BuildError (option Z) * world :=
  requestor_order_preflight (evaluator zkvm) false
    (mkProofRequest (RequestId.u256 77 3)
       (requirements_new (predicate_into (PrefixMatch (sha [Byte.x05]) [Byte.x02]))) "u"
       (mkRequestInput InputInline [])
       (mkOffer 0 5003259360728 1050 700 2150 4300 (ether 20))) 11 8453 None None
    (mkOracleWorld None None 1040).

Lemma preflight_count_checked_witness :
  exists c dec cfg o s o' gp units cost j, fst priced = Ok (Some c)
    /\ reqId (OrderPricing.request o) = RequestId.u256 77 3
    /\ @checked _ _ (requestor_context (evaluator zkvm) false cfg dec None) o s o' cfg
         gp units cost c j.
Proof.
  assert (E : match fst priced with Ok (Some _) => true | _ => false end = true)
    by (vm_compute; reflexivity).
  destruct priced as [[[c|]|e|] w] eqn:Er; try discriminate E.
  destruct (preflight_count_checked _ _ _ _ _ _ _ _ _ _ Er)
    as (dec & w1 & w2 & o & s & o' & gp & units & cost & j & _ & _ & _ & Ho & _ & Hck).
  eexists c, dec, _, o, s, o', gp, units, cost, j.
  split_and!; [reflexivity|by rewrite Ho|exact Hck].
Defined.

End ToyPricing.
